(* ===== verification/_CoqProject ===== *)
-Q . S2P
Prelude.v
Attributes.v
AddrSpace.v
ModuleParams.v
ParamContainer.v
ParameterSet.v
ModuleTree.v
Schedule.v
HybridList.v
SortedMap.v
ParamManager.v
SmartUart.v
VpsimIp.v
Logger.v
Tlm.v
CacheSet.v
CacheBase.v
CacheGeometry.v
CacheHome.v
CacheCpu.v
Cache.v
CoherenceInterconnect.v
Mesh.v
CoherenceTransport.v
LocalMemory.v
TargetIf.v
ForwardSocket.v
Initiator.v
IssWrapper.v
Interconnect.v
SyncFifo.v
Dijkstra.v
NoCBase.v
NoCRouting.v
Router.v
NoCCycleAccurate.v
Gic.v
GicQueues.v
GicDelivery.v
GicFaults.v
Endian.v
Interrupts.v
Uart.v
Rtc.v
CallbackRegister.v
Cosim.v
DynamicClasses.v
DynamicMake.v
DynamicBus.v
DynamicCoherence.v
DynamicMesh.v
DynamicStats.v
SesamController.v
