(* ===== verification/Prelude.v ===== *)
(** * VPSim SystemC: a verification library (root file)

    VPSim is a virtual platform simulator: SystemC/TLM models of processors, caches,
    interconnects, memories and peripherals, with per-address-space parameters that select how
    precisely each part is simulated.  This library models the code that decides what the
    simulated machine does, translated function by function from the C++ sources, and proves
    what that code guarantees.  The sources are under [src/]; names are kept.

    ** Conventions

    This file holds the shared base.  An unsigned integer of [w] bits is a [Z] reduced by
    [wrap w] where the source computes at that width ([u8], [u16], [u32], [u64]).  A call
    returns, throws, fails an assertion or has undefined behaviour: the type [result] with
    the exceptions [exn] and the notation [let*].  A method that changes its object is a
    function in the state and error monad [M]; the object is kept when the call throws.
    Vectors and arrays are lists, and an index out of range is undefined behaviour
    ([vec_get], [vec_set]).  [runs m s Q] says that [m] returns normally from [s] with [Q];
    [ensures m s Q] is its partial form.  The tactic [wp_step] and the hint databases [vpsim]
    and [vpsim_wp] drive both; [m_exec] computes a step; [preserves f m] says that [m] leaves
    [f] of the state alone (database [vpsim_frame]).  Objects that refer to each other are
    indices into a store, and following a reference to one that is gone is an error.

    ** Files

    Parameters and modules ([core/], [core/vpsimModule/], [core/logger/]).
    - [AddrSpace.v]: address spaces ([core/AddrSpace.cpp]), intervals of 64-bit addresses;
      the algebra of intersections and complements is exact, and where it is not.
    - [ModuleParams.v]: the kinds of parameters ([moduleParameters.cpp]) as instances of the
      class [ModuleParameter].
    - [ParamContainer.v]: sorted containers of parameters over address spaces
      ([parameterSet.cpp]); insertion implements a point-wise update of a map from addresses
      to parameters, defragmentation gives a canonical form.
    - [ParameterSet.v]: merging, exporting, trimming, translating and querying whole sets
      ([parameterSet.cpp], [parameterSetModifier.cpp]).
    - [ModuleTree.v]: the graph of modules and the propagation of their parameters towards the
      initiators ([vpsimModule.cpp]).
    - [Schedule.v]: the two schedulers of appointments ([paramScheduler.cpp],
      [loggerScheduler.cpp]) with the SystemC kernel as a step relation.
    - [ParamManager.v]: modules by name, update handlers and appointments ([paramManager.cpp]),
      the composition of the two files before.
    - [SortedMap.v]: ordered maps with strings as keys.
    - [SmartUart.v]: text patterns that set parameters through the manager ([SmartUart.cpp]).
    - [Attributes.v]: attributes as text, and numbers printed and read back ([VpsimIp.hpp]).
    - [VpsimIp.v]: the components of a platform ([VpsimIp.hpp]): ports, containers,
      connections, the registry and the notification of memories, over the record [ip_class]
      of what a class of components provides.
    - [HybridList.v]: lists of blocks and their iterators ([HybridList.hpp]).
    - [Logger.v]: loggers, their registration and levels ([logger.cpp], [loggerCore.cpp]).

    Caches ([components/memory/]).
    - [Tlm.v]: the TLM vocabulary and the coherence commands ([CoherenceExtension.hpp]).
    - [CacheSet.v]: lines, sets and replacement ([CacheLine.hpp], [CacheSet.hpp]); the LRU
      ages implement a recency list.
    - [CacheBase.v]: the cache controller ([CacheBase.hpp]): geometry, the four access
      routines, the directory.  Calls that leave the controller are recorded in order
      ([Call]) and answered by a parameter.
    - [CacheGeometry.v]: masks, indices and tags, and the lemmas on lines and sets.
    - [CacheHome.v]: the home (directory) side against an abstract protocol [home_next].
    - [CacheCpu.v]: the first-level caches: single lines, accesses of any size, forwarded
      requests.
    - [Cache.v]: the TLM wrapper ([Cache.hpp]): transactions out and dispatch in; the result
      on the home is carried through it.

    Connection ([components/connect/]).
    - [CoherenceInterconnect.v]: [CoherenceInterconnect.cpp]: registration, positions,
      distances, routes, contention, routing, both transport functions.
    - [Mesh.v]: routes are shortest dimension-ordered paths, packets update exactly the
      routers of their route, and the coordinate check.
    - [CoherenceTransport.v]: which sockets a transaction reaches and what it is charged.
    - [Interconnect.v]: the address-mapped bus ([interconnect.cpp]) in front of memories.
    - [SyncFifo.v]: the synchronising FIFO ([SyncFifo.hpp]) against a channel.
    - [Dijkstra.v], [NoCBase.v], [NoCRouting.v]: the network-on-chip base, its shortest paths
      and the routing tables built from them ([NoCBase.cpp] and the NoC models; these sources
      are not part of the CMake build).
    - [Router.v]: the router of the cycle-accurate network ([Router.cpp]): buffers, round robin;
      [NoCCycleAccurate.v]: the elaboration that builds and connects the routers.

    Platforms ([components/include/components/DynamicComponents.hpp]).
    - [DynamicClasses.v]: classes of components as values of [ip_class], the objects behind
      them, and the monad of a platform with its objects.
    - [DynamicMake.v]: [make], [connect] and [finalize]; [DynamicBus.v]: a bus with memories;
      [DynamicCoherence.v]: caches; [DynamicMesh.v]: coherent interconnects and controllers;
      [DynamicStats.v]: segments of statistics.

    Initiators, targets and peripherals.
    - [LocalMemory.v]: byte memories and little-endian words.
    - [TargetIf.v]: [core/TargetIf.cpp] over a class [Target] of callbacks, and its instance
      [memory] ([components/memory/memory.cpp]).
    - [ForwardSocket.v]: sockets that serve accesses from direct memory regions unless a
      parameter forbids it ([ForwardSimpleSocket.cpp]).
    - [Initiator.v]: [core/InitiatorIf.cpp] in front of a target.
    - [IssWrapper.v]: the CPU ([issWrapper.cpp], [quantum.cpp]): time, accesses, interrupts.
    - [Gic.v]: the interrupt controller ([components/peripherals/gic.cpp]), another target.
    - [GicQueues.v]: its invariant over all reachable states; [GicDelivery.v]: what
      [comb_logic] delivers, and the end of an interrupt; [GicFaults.v]: the disable register,
      the list registers and the mutex.
    - [Endian.v]: conversions between guest and host ([EndianHelper.hpp]).
    - [Interrupts.v]: interrupt receivers as a class with the GIC as an instance, interrupt
      sources and the line controller ([InterruptSource.cpp], [ItCtrl.cpp]).
    - [Uart.v]: the Cadence and PL011 UARTs ([xuartps.cpp], [PL011Uart.cpp]).
    - [Rtc.v]: the watchdogs of the real-time clock and their thread ([rtc.cpp]).
    - [CallbackRegister.v]: registers that run callbacks ([CallbackRegister.hpp]).
    - [Cosim.v]: the co-simulation of the memory ([MainMemCosim.hpp], [IOAccessCosim.hpp]): two
      threads, a queue of requests and epochs.
    - [SesamController.v]: the monitor that programs on the platform command
      ([SesamController.cpp], [DynamicSesamController]), over the statistics and the
      co-simulator.

    How they interact: a CPU ([IssWrapper]) sends transactions through its initiator to buses
    and targets; an L1 ([accessCpuCache]) sends coherence requests through its wrapper
    ([Cache.v]) to the coherence interconnect, which routes them to the home
    ([accessCoherentHome]) that owns the address and to memories; the home answers with
    forwards and invalidations through the same interconnect.  Peripherals raise interrupts
    through [Interrupts] at the GIC, which interrupts the CPUs.  The parameter manager sets
    parameters of modules, at once or by appointment; the module tree propagates them, and
    forwarding sockets ask their module whether accesses are simulated.  A platform is built
    from components ([VpsimIp]) whose connections make the module tree; making a component
    creates the object that one of the other files models ([DynamicMake]), and connecting it
    tells a bus or an interconnect what is behind its sockets.

    ** What the theorems show

    Refinements of an abstract specification: [pc_set_refines], [mergeImportedParam_spec],
    [addExportedParam_spec] (point-wise maps), [lru_refines_recency_list] (recency list),
    [home_exclusive_refines], [home_serves_legal_sequences], [home_transport_refines]
    (protocol), [comb_logic_delivers] (interrupt delivery), [bus_is_flat_memory] and
    [socket_transparent] (array of bytes), [fifo_refines_channel] (channel),
    [logger_refines] (table of names and levels), [blocking_seen] (parameters on the way),
    [assembled_platform_is_flat] (a platform built from its description is an array of bytes),
    [router_refines_channels] (channels from inputs to outputs), [smart_uart_fires] (matcher).
    Invariants: [gic_queues_invariant], [xuart_received_in_order], [setParameter_settles],
    [fifo_members_in_range], [out_ports_fit], [cosim_in_order].  Liveness and termination: [scheduler_applies],
    [fifo_delivers], [wait_for_event], [xuart_timeout_fires], [cpu_access_total], [router_progress],
    [cosim_fill_returns], [rtc_on_time].
    Functional behaviour of the operations: [cpu_single_line], [cpu_forwarded_requests],
    [cpu_time], [parameter_by_name], [eoi_retires_head], [upstream_delivery],
    [home_request_routed], [route_updates_routers], [get_port_routes],
    [checkAttributes_spec], [NewByName_registers], [NotifyDmiAddresses_exact],
    [DynamicCache_ports], [coherent_memories_in_order], [elaborated_routers], [rtc_turn],
    [cosim_biases], [register_write_runs], [sesam_benchmark], [sesam_capture].  Round trips:
    [register_read_back], [sesam_roundtrip],
    [memory_read_after_write], [cpu_memory], [endian_roundtrip].  Shortest paths:
    [dijkstra_shortest], [default_routing_shortest], [xy_route_shortest].  Where the code does
    not do what it means to, a theorem says what it does: [redundant_set_forgets],
    [early_parameter_lost], [straddling_access_direct], [logger_scheduler_loses],
    [removeMonitor_replaces], [segments_drift], [range_check_wraps], [disable_write_undefined],
    [tag_truncation_aliases], [valForAddrSpace_defects], [segments_alternate],
    [hybrid_list_iteration] and others.

    ** Fuel

    Recursions of the source that are not structural have fuel, and theorems show that it is
    enough.  [setParameterHelper] recurses on pieces of the inserted space: [pc_set] gives it
    fuel that [pc_set_refines] proves sufficient.  [defrag] repeats merges: as many rounds as
    entries.  [accessCache] splits an access by lines: [request_fuel] is sufficient by
    [cpu_access_total].  The searches of the network have one round per node, and a route one
    hop per node.  [getAllowedSpaces], [clearPredecessors] and [refreshParameters] recurse
    along the graph of modules: one more level than there are modules, enough for an acyclic
    platform by [setParameter_settles].  [waitForEvent] has fuel that [wait_for_event] bounds
    by the time to the next interrupt.  The latency loop of [memory] has one round per byte,
    enough for a positive word length.

    ** Parameters of the model

    The answer of the component behind a socket (response status, delay) is a parameter of the
    models that call it, as a function or as the class [Downstream].  [QueueWaitingTime] of
    the interconnect is floating-point arithmetic and is a parameter.  The priority queue of
    the shortest-path search is the class [PriorityQueue]; the quantum keeper of TLM is the
    class [QuantumKeeper]; hooks and handlers are functions on the world they act on; the
    channels of the UARTs are lists of bytes; what other processes do while a CPU waits is a
    function.  What a channel of the network answers in a cycle is a parameter of the router; the
    queue of TBB returns some request of the highest priority; conversions through [double]
    are functions, as is the printing of a time; the commands of the monitor that inspect other
    components are a function.  Times are integers, multiples of the time resolution.

    ** Not modelled

    Printing, statistics files, file and ELF loading, the parsing of platform descriptions and
    the command line; the libraries of instruction-set simulators, which are loaded at run time;
    the vendored lock-free queue; DDS and remote devices, which are sockets and an embedded
    interpreter; the interactive console of the monitor, whose thread is commented out; the wrappers of the cycle-accurate network, whose file uses names that are not
    declared; the timer, whose operations have empty bodies.  Of the classes of components those
    are modelled whose objects are. *)

From Stdlib Require Export ZArith Lia Bool.
From stdpp Require Export base list gmap sets strings.

#[global] Open Scope Z_scope.

(** ** Machine integers

    A [w]-bit unsigned C++ integer is a [Z] in [0, 2^w); arithmetic that the
    source does at width [w] is followed by [wrap w]. *)

Definition wrap (w z : Z) : Z := z mod 2 ^ w.
Definition u8 : Z → Z := wrap 8.
Definition u16 : Z → Z := wrap 16.
Definition u32 : Z → Z := wrap 32.
Definition u64 : Z → Z := wrap 64.

(** The largest 64-bit value, [UINT64_MAX]. *)
Definition max64 : Z := 18446744073709551615.

Definition in_u64 (z : Z) : Prop := 0 ≤ z < 2 ^ 64.
Definition in_u32 (z : Z) : Prop := 0 ≤ z < 2 ^ 32.

(** [std::max] and [std::min] on a type with a strict order [ltb]:
    [max a b] is [b] exactly when [a < b]. *)
Definition cpp_max {A} (ltb : A → A → bool) (a b : A) : A := if ltb a b then b else a.

(** ** Outcomes and effects

    A C++ call returns, throws, fails an [assert], or has undefined behaviour;
    [OutOfFuel] is the model's own outcome when the bound of a recursion that is
    not structural is too small (the theorems show that it is not).
    [M S A] is a call that may change an object of type [S]: the object is kept
    also when the call throws, as in C++. *)

Inductive exn :=
  | AssertionFailed
  | Throw (what : string)
  | UndefinedBehaviour (what : string)
  | OutOfFuel.

Inductive result (A : Type) :=
  | Ok (a : A)
  | Err (e : exn).
Arguments Ok {A} a.
Arguments Err {A} e.

#[global] Instance exn_eq_dec : EqDecision exn.
Proof. solve_decision. Defined.

Definition result_bind {A B} (m : result A) (k : A → result B) : result B :=
  match m with
  | Ok a => k a
  | Err e => Err e
  end.
Definition is_ok {A} (m : result A) : bool := if m is Ok _ then true else false.

Definition M (S A : Type) : Type := S → result A * S.

Definition m_ret {S A} (a : A) : M S A := fun s => (Ok a, s).
Definition m_bind {S A B} (m : M S A) (k : A → M S B) : M S B := fun s =>
  match m s with
  | (Ok a, s') => k a s'
  | (Err e, s') => (Err e, s')
  end.
Definition m_throw {S A} (e : exn) : M S A := fun s => (Err e, s).
Definition m_get {S} : M S S := fun s => (Ok s, s).
Definition m_modify {S} (f : S → S) : M S unit := fun s => (Ok tt, f s).
Definition m_gets {S A} (f : S → A) : M S A := fun s => (Ok (f s), s).
Definition m_lift {S A} (r : result A) : M S A := fun s => (r, s).

(** [assert (b);] *)
Definition m_assert {S} (b : bool) : M S unit :=
  if b then m_ret tt else m_throw AssertionFailed.

(** [if (b) { c }] *)
Definition m_when {S} (b : bool) (c : M S unit) : M S unit :=
  if b then c else m_ret tt.

(** [for (auto x : l) { f x }] *)
Fixpoint m_forM {S A} (l : list A) (f : A → M S unit) : M S unit :=
  match l with
  | [] => m_ret tt
  | x :: l => m_bind (f x) (fun _ => m_forM l f)
  end.

Declare Scope vp_scope.
Delimit Scope vp_scope with vp.
Notation "x <- c ;; k" := (m_bind c (fun x => k))
  (at level 100, c at next level, right associativity) : vp_scope.
Notation "c ;;; k" := (m_bind c (fun _ => k))
  (at level 100, right associativity) : vp_scope.
Notation "'let*' x := c 'in' k" := (result_bind c (fun x => k))
  (at level 10, x pattern, c at level 200, k at level 200) : vp_scope.
#[global] Open Scope vp_scope.

(** Indexing a vector or an array: out of range is undefined behaviour. *)
Definition vec_get {A} (l : list A) (i : Z) : result A :=
  if decide (0 ≤ i) then
    match l !! Z.to_nat i with
    | Some x => Ok x
    | None => Err (UndefinedBehaviour "index out of range")
    end
  else Err (UndefinedBehaviour "index out of range").

Definition vec_set {A} (l : list A) (i : Z) (x : A) : result (list A) :=
  if decide (0 ≤ i < Z.of_nat (length l)) then Ok (<[Z.to_nat i := x]> l)
  else Err (UndefinedBehaviour "index out of range").

(** ** Specifications of effectful calls

    [runs m s Q]: the call returns normally and establishes [Q];
    [ensures m s Q]: if the call returns normally then [Q] holds. *)

Definition runs {S A} (m : M S A) (s : S) (Q : A → S → Prop) : Prop :=
  match m s with
  | (Ok a, s') => Q a s'
  | (Err _, _) => False
  end.

Definition ensures {S A} (m : M S A) (s : S) (Q : A → S → Prop) : Prop :=
  match m s with
  | (Ok a, s') => Q a s'
  | (Err _, _) => True
  end.

Create HintDb vpsim.
Create HintDb vpsim_wp.

Section runs.
Context {S : Type}.
Implicit Types s : S.

Lemma runs_ret {A} (a : A) s (Q : A → S → Prop) : Q a s → runs (m_ret a) s Q.
Proof. done. Qed.

Lemma runs_bind {A B} (m : M S A) (k : A → M S B) s Q :
  runs m s (fun a s' => runs (k a) s' Q) → runs (m_bind m k) s Q.
Proof. unfold runs, m_bind. destruct (m s) as [[a|e] s']; done. Qed.

Lemma runs_gets {A} (f : S → A) s (Q : A → S → Prop) : Q (f s) s → runs (m_gets f) s Q.
Proof. done. Qed.

Lemma runs_get s (Q : S → S → Prop) : Q s s → runs m_get s Q.
Proof. done. Qed.

Lemma runs_modify (f : S → S) s (Q : unit → S → Prop) :
  Q tt (f s) → runs (m_modify f) s Q.
Proof. done. Qed.

Lemma runs_assert b s (Q : unit → S → Prop) :
  b = true → Q tt s → runs (m_assert b) s Q.
Proof. by intros ->. Qed.

Lemma runs_when b (c : M S unit) s (Q : unit → S → Prop) :
  (b = true → runs c s Q) → (b = false → Q tt s) → runs (m_when b c) s Q.
Proof. destruct b; unfold m_when; intros H1 H2; [by apply H1|by apply H2]. Qed.

Lemma runs_conseq {A} (m : M S A) s (Q Q' : A → S → Prop) :
  runs m s Q → (∀ a s', Q a s' → Q' a s') → runs m s Q'.
Proof. unfold runs. destruct (m s) as [[a|e] s']; eauto. Qed.

Lemma runs_ensures {A} (m : M S A) s (Q : A → S → Prop) : runs m s Q → ensures m s Q.
Proof. unfold runs, ensures. by destruct (m s) as [[a|e] s']. Qed.

Lemma runs_inv {A} (m : M S A) s (Q : A → S → Prop) :
  runs m s Q → ∃ a s', m s = (Ok a, s') ∧ Q a s'.
Proof. unfold runs. destruct (m s) as [[a|e] s']; [eauto|done]. Qed.

Lemma ensures_ret {A} (a : A) s (Q : A → S → Prop) : Q a s → ensures (m_ret a) s Q.
Proof. done. Qed.

Lemma ensures_bind {A B} (m : M S A) (k : A → M S B) s Q :
  ensures m s (fun a s' => ensures (k a) s' Q) → ensures (m_bind m k) s Q.
Proof. unfold ensures, m_bind. destruct (m s) as [[a|e] s']; done. Qed.

Lemma ensures_gets {A} (f : S → A) s (Q : A → S → Prop) :
  Q (f s) s → ensures (m_gets f) s Q.
Proof. done. Qed.

Lemma ensures_modify (f : S → S) s (Q : unit → S → Prop) :
  Q tt (f s) → ensures (m_modify f) s Q.
Proof. done. Qed.

Lemma ensures_assert b s (Q : unit → S → Prop) :
  (b = true → Q tt s) → ensures (m_assert b) s Q.
Proof. destruct b; unfold ensures; simpl; auto. Qed.

Lemma ensures_when b (c : M S unit) s (Q : unit → S → Prop) :
  (b = true → ensures c s Q) → (b = false → Q tt s) → ensures (m_when b c) s Q.
Proof. destruct b; unfold m_when; intros H1 H2; [by apply H1|by apply H2]. Qed.

Lemma ensures_throw {A} e s (Q : A → S → Prop) : ensures (m_throw e) s Q.
Proof. done. Qed.

Lemma ensures_conseq {A} (m : M S A) s (Q Q' : A → S → Prop) :
  ensures m s Q → (∀ a s', Q a s' → Q' a s') → ensures m s Q'.
Proof. unfold ensures. destruct (m s) as [[a|e] s']; eauto. Qed.

(** A loop preserves what its body preserves. *)
Lemma ensures_forM {A} (l : list A) (f : A → M S unit) s (I : S → Prop) :
  I s → (∀ x s, x ∈ l → I s → ensures (f x) s (fun _ => I)) →
  ensures (m_forM l f) s (fun _ => I).
Proof.
  intros Hs Hf. revert s Hs. induction l as [|x l IH]; intros s Hs; [done|].
  cbn [m_forM]. apply ensures_bind. eapply ensures_conseq.
  - apply (Hf x s); [left|done].
  - intros [] s' Hs'. apply IH; [|done].
    intros y s'' Hy. apply Hf. by right.
Qed.

Lemma runs_forM {A} (l : list A) (f : A → M S unit) s (I : S → Prop) :
  I s → (∀ x s, x ∈ l → I s → runs (f x) s (fun _ => I)) →
  runs (m_forM l f) s (fun _ => I).
Proof.
  intros Hs Hf. revert s Hs. induction l as [|x l IH]; intros s Hs; [done|].
  cbn [m_forM]. apply runs_bind. eapply runs_conseq.
  - apply (Hf x s); [left|done].
  - intros [] s' Hs'. apply IH; [|done].
    intros y s'' Hy. apply Hf. by right.
Qed.

(** A loop whose rounds each establish a fact that the others keep. *)
Lemma runs_forM_each {A} (l : list A) (f : A → M S unit) (I : S → Prop) (P : A → S → Prop) :
  (∀ x s, x ∈ l → I s → runs (f x) s (fun _ s' => I s' ∧ P x s' ∧ ∀ y, P y s → P y s')) →
  ∀ s, I s → runs (m_forM l f) s (fun _ s' => I s' ∧ (∀ x, x ∈ l → P x s') ∧ ∀ y, P y s → P y s').
Proof.
  induction l as [|x l IH]; intros Hf s Hs.
  - split_and!; [done| |done]. intros x Hx. by apply elem_of_nil in Hx.
  - cbn [m_forM]. apply runs_bind. eapply runs_conseq; [apply Hf; [left|done]|].
    intros [] s1 (HI & Hx & Hmono). eapply runs_conseq.
    + apply IH; [|done]. intros y s' Hy. apply Hf. by right.
    + intros [] s2 (HI2 & Hall & Hmono2). split_and!; [done| |by eauto].
      intros y [->|Hy]%elem_of_cons; eauto.
Qed.
End runs.

(** Executing the first command of a sequence. *)
Lemma m_bind_ok {S A B} (m : M S A) (k : A → M S B) s a s' :
  m s = (Ok a, s') → m_bind m k s = k a s'.
Proof. unfold m_bind. by intros ->. Qed.

Lemma m_bind_err {S A B} (m : M S A) (k : A → M S B) s e s' :
  m s = (Err e, s') → m_bind m k s = (Err e, s').
Proof. unfold m_bind. by intros ->. Qed.

(** Execute the leading command of the left-hand side, by an equation or by computation. *)
Ltac m_exec := erewrite m_bind_ok by reflexivity; cbv beta.
Ltac m_exec_by H := erewrite m_bind_ok by (exact H); cbv beta.

Arguments Throw what%_string.
Arguments UndefinedBehaviour what%_string.

#[export] Hint Resolve runs_ret runs_bind runs_gets runs_get runs_modify runs_assert : vpsim_wp.

(** One symbolic step of a [runs] or [ensures] goal. *)
Ltac wp_step :=
  lazymatch goal with
  | |- runs (m_bind _ _) _ _ => apply runs_bind
  | |- runs (m_ret _) _ _ => apply runs_ret
  | |- runs (m_gets _) _ _ => apply runs_gets
  | |- runs m_get _ _ => apply runs_get
  | |- runs (m_modify _) _ _ => apply runs_modify
  | |- runs (m_assert _) _ _ => apply runs_assert
  | |- runs (m_when _ _) _ _ => apply runs_when; intros ?
  | |- ensures (m_bind _ _) _ _ => apply ensures_bind
  | |- ensures (m_ret _) _ _ => apply ensures_ret
  | |- ensures (m_gets _) _ _ => apply ensures_gets
  | |- ensures (m_modify _) _ _ => apply ensures_modify
  | |- ensures (m_assert _) _ _ => apply ensures_assert; intros ?
  | |- ensures (m_when _ _) _ _ => apply ensures_when; intros ?
  | |- ensures (m_throw _) _ _ => apply ensures_throw
  end; cbv beta.

(** ** Frames

    [preserves f m]: the call [m] leaves the part [f] of the object as it is, whatever its
    outcome.  The hint database [vpsim_frame] decomposes a call. *)

Definition preserves {S A X} (f : S → X) (m : M S A) : Prop := ∀ s, f (m s).2 = f s.

Create HintDb vpsim_frame.

Section preserves.
Context {S X : Type} (f : S → X).

Lemma preserves_ret {A} (a : A) : preserves f (m_ret a).
Proof. done. Qed.
Lemma preserves_throw {A} e : preserves f (@m_throw S A e).
Proof. done. Qed.
Lemma preserves_lift {A} (r : result A) : preserves f (m_lift r).
Proof. done. Qed.
Lemma preserves_get : preserves f m_get.
Proof. done. Qed.
Lemma preserves_gets {A} (g : S → A) : preserves f (m_gets g).
Proof. done. Qed.
Lemma preserves_bind {A B} (m : M S A) (k : A → M S B) :
  preserves f m → (∀ a, preserves f (k a)) → preserves f (m_bind m k).
Proof.
  intros Hm Hk s. unfold m_bind. specialize (Hm s). destruct (m s) as [[a|e] s']; [|done].
  by rewrite (Hk a s').
Qed.
Lemma preserves_when b (m : M S unit) : preserves f m → preserves f (m_when b m).
Proof. by destruct b. Qed.
Lemma preserves_if {A} (b : bool) (m m' : M S A) :
  preserves f m → preserves f m' → preserves f (if b then m else m').
Proof. by destruct b. Qed.
Lemma preserves_modify g : (∀ s, f (g s) = f s) → preserves f (m_modify g).
Proof. done. Qed.
Lemma preserves_forM {A} (l : list A) (g : A → M S unit) : (∀ a, preserves f (g a)) → preserves f (m_forM l g).
Proof. intros Hg. induction l as [|a l IH]; simpl; [apply preserves_ret|by apply preserves_bind]. Qed.
End preserves.

#[export] Hint Resolve preserves_ret preserves_throw preserves_lift preserves_get preserves_gets
  preserves_bind preserves_when preserves_if : vpsim_frame.
#[export] Hint Extern 5 (preserves _ (m_modify _)) => (apply preserves_modify; by intros []) : vpsim_frame.

(** ** Integers *)

Lemma wrap_small w z : 0 ≤ z < 2 ^ w → wrap w z = z.
Proof. apply Z.mod_small. Qed.

Lemma wrap_bound w z : 0 ≤ w → 0 ≤ wrap w z < 2 ^ w.
Proof. intros. apply Z.mod_pos_bound. lia. Qed.

Lemma u64_small z : in_u64 z → u64 z = z.
Proof. apply wrap_small. Qed.

Lemma u64_bound z : in_u64 (u64 z).
Proof. by apply wrap_bound. Qed.

Lemma u32_small z : in_u32 z → u32 z = z.
Proof. apply wrap_small. Qed.

Lemma u32_bound z : in_u32 (u32 z).
Proof. by apply wrap_bound. Qed.

(** Turn [u64 e] into a linear-arithmetic description of [e mod 2^64]. *)
Lemma u64_spec z : ∃ q, u64 z = z - q * 2 ^ 64 ∧ 0 ≤ u64 z < 2 ^ 64.
Proof.
  exists (z / 2 ^ 64). pose proof (Z.div_mod z (2 ^ 64) ltac:(lia)).
  pose proof (u64_bound z). unfold in_u64, u64, wrap in *. lia.
Qed.

Ltac u64_lia :=
  unfold in_u64, max64 in *;
  repeat match goal with
  | |- context [u64 ?z] =>
      let q := fresh "q" in let r := fresh "ru" in let Hu := fresh "Hu" in
      destruct (u64_spec z) as (q & Hu); set (r := u64 z) in *; clearbody r
  | H0 : context [u64 ?z] |- _ =>
      let q := fresh "q" in let r := fresh "ru" in let Hu := fresh "Hu" in
      destruct (u64_spec z) as (q & Hu); set (r := u64 z) in *; clearbody r
  end; change (2 ^ 64) with 18446744073709551616 in *; lia.

#[export] Hint Resolve u64_bound u32_bound : vpsim.

(** ** Vectors *)

Lemma vec_get_Some {A} (l : list A) i x :
  0 ≤ i → l !! Z.to_nat i = Some x → vec_get l i = Ok x.
Proof. intros Hi Hx. unfold vec_get. rewrite decide_True by done. by rewrite Hx. Qed.

Lemma vec_get_Ok {A} (l : list A) i x :
  vec_get l i = Ok x ↔ 0 ≤ i ∧ l !! Z.to_nat i = Some x.
Proof.
  unfold vec_get. case_decide; [|naive_solver].
  destruct (l !! Z.to_nat i); naive_solver.
Qed.

Lemma vec_set_Ok {A} (l l' : list A) i x :
  vec_set l i x = Ok l' ↔ 0 ≤ i < Z.of_nat (length l) ∧ l' = <[Z.to_nat i := x]> l.
Proof. unfold vec_set. case_decide; naive_solver. Qed.

(** A counted loop [for (i = 0; i < n; i++)]: an invariant indexed by the counter. *)
Lemma runs_forM_seqZ {S} (n : Z) (f : Z → M S unit) s (I : Z → S → Prop) :
  0 ≤ n → I 0 s → (∀ i s, 0 ≤ i < n → I i s → runs (f i) s (fun _ => I (i + 1))) →
  runs (m_forM (seqZ 0 n) f) s (fun _ => I n).
Proof.
  intros Hn H0 Hf.
  assert (∀ m k s, 0 ≤ k → k + Z.of_nat m = n → I k s →
            runs (m_forM (seqZ k (Z.of_nat m)) f) s (fun _ => I n)) as Hgen.
  { intros m. induction m as [|m IH]; intros k t Hk Hm Hs.
    - assert (k = n) as -> by lia. done.
    - rewrite seqZ_cons by lia. cbn [m_forM]. apply runs_bind.
      eapply runs_conseq; [apply (Hf k t); [lia|done]|]. intros [] t' Ht'.
      replace (Z.pred (Z.of_nat (Datatypes.S m))) with (Z.of_nat m) by lia.
      apply IH; [lia|lia|]. by rewrite <- Z.add_1_r. }
  specialize (Hgen (Z.to_nat n) 0 s). rewrite Z2Nat.id in Hgen by done. apply Hgen; [lia..|done].
Qed.

Lemma vec_get_ok {A} (l : list A) i :
  0 ≤ i < Z.of_nat (length l) → ∃ x, vec_get l i = Ok x ∧ l !! Z.to_nat i = Some x.
Proof.
  intros Hi. destruct (lookup_lt_is_Some_2 l (Z.to_nat i)) as [x Hx]; [lia|].
  exists x. split; [apply vec_get_Some; [lia|done]|done].
Qed.

Lemma vec_set_in {A} (l : list A) i x :
  0 ≤ i < Z.of_nat (length l) → vec_set l i x = Ok (<[Z.to_nat i := x]> l).
Proof. intros Hi. unfold vec_set. by rewrite decide_True. Qed.

(** Filtering by a stronger predicate that rejects an element the weaker one keeps. *)
Lemma length_filter_impl_lt {A} (P Q : A → Prop) `{∀ x, Decision (P x), ∀ x, Decision (Q x)} (l : list A) x :
  (∀ y, P y → Q y) → x ∈ l → Q x → ¬ P x → (length (filter P l) < length (filter Q l))%nat.
Proof.
  intros HPQ Hx HQ HP.
  assert (∀ l, length (filter P l) ≤ length (filter Q l))%nat as Hle.
  { intros k. induction k as [|y k IH]; [done|]. rewrite !filter_cons.
    destruct (decide (P y)), (decide (Q y)); simpl; try lia. naive_solver. }
  induction Hx as [x l|x y l Hx IH]; rewrite !filter_cons.
  - rewrite decide_False, decide_True by done. simpl. specialize (Hle l). lia.
  - specialize (IH HQ HP). destruct (decide (P y)), (decide (Q y)); simpl; try lia. naive_solver.
Qed.

Lemma runs_lift_Ok {S A} (r : result A) (a : A) (s : S) (Q : A → S → Prop) :
  r = Ok a → Q a s → runs (m_lift r) s Q.
Proof. by intros ->. Qed.
