(* ===== verification/Attributes.v ===== *)
(** * Attributes of components ([core/vpsimModule/include/vpsimModule/VpsimIp.hpp])

    The platform description gives every attribute as text.  [getAttr] finds it,
    [getAttrAsUInt64] reads a number with [std::stoull], and the statistics print numbers with
    [std::to_string].  The file shows that what is printed is read back, for every number of
    64 bits. *)

From S2P Require Import Prelude.
From Stdlib Require Import Ascii.
From stdpp Require Import gmap strings pretty.
#[local] Open Scope Z_scope.

(** The attributes that were set, by name. *)
Abbreviation attrs := (gmap string string) (only parsing).

Definition find_attr (attrName : string) (a : attrs) : result string :=
  match a !! attrName with
  | Some v => Ok v
  | None => Err (Throw (attrName ++ " Getting non existing attribute."))
  end.

(** ** Numbers in text *)

(** [isspace] of the C locale, and decimal digits. *)
Definition isspace (c : Ascii.ascii) : bool :=
  let n := Z.of_N (Ascii.N_of_ascii c) in bool_decide (n = 32 ∨ 9 ≤ n ≤ 13).
Definition digit_of (c : Ascii.ascii) : option Z :=
  let n := Z.of_N (Ascii.N_of_ascii c) in if bool_decide (48 ≤ n ≤ 57) then Some (n - 48) else None.

Fixpoint skip_spaces (s : string) : string :=
  match s with String c s' => if isspace c then skip_spaces s' else s | EmptyString => EmptyString end.

(** The longest run of digits at the front; what follows it is ignored. *)
Fixpoint read_digits (acc : Z) (s : string) : Z :=
  match s with
  | String c s' => if digit_of c is Some d then read_digits (10 * acc + d) s' else acc
  | EmptyString => acc
  end.
Definition starts_with_digit (s : string) : bool :=
  if s is String c _ then (if digit_of c is Some _ then true else false) else false.

(** A sign is allowed; a negative number is negated at its width. *)
Definition read_sign (s : string) : bool * string :=
  match s with
  | String c s' => if decide (c = "-"%char) then (true, s') else if decide (c = "+"%char) then (false, s') else (false, s)
  | EmptyString => (false, EmptyString)
  end.

Definition stoull (str : string) : result Z :=
  let '(negative, s) := read_sign (skip_spaces str) in
  if starts_with_digit s then
    let v := read_digits 0 s in
    if bool_decide (v < 2 ^ 64) then Ok (if negative : bool then u64 (- v) else v) else Err (Throw "stoull")
  else Err (Throw "stoull").

(** [std::to_string] of an unsigned number. *)
Definition to_string (n : Z) : string := pretty n.

Definition getAttrAsUInt64 (attrName : string) (a : attrs) : result Z :=
  let* str := find_attr attrName a in stoull str.

(** A number that is converted to [bool] or to [unsigned]. *)
Definition attr_bool (attrName : string) (a : attrs) : result bool :=
  let* v := getAttrAsUInt64 attrName a in Ok (negb (bool_decide (v = 0))).
Definition attr_unsigned (attrName : string) (a : attrs) : result Z :=
  let* v := getAttrAsUInt64 attrName a in Ok (u32 v).

(** ** Reading back what was printed *)

Lemma digit_of_pretty n : (n < 10)%N → digit_of (pretty_N_char n) = Some (Z.of_N n).
Proof.
  intros H. assert (n = 0 ∨ n = 1 ∨ n = 2 ∨ n = 3 ∨ n = 4 ∨ n = 5 ∨ n = 6 ∨ n = 7 ∨ n = 8 ∨ n = 9)%N as Hn by lia.
  clear H. by repeat destruct Hn as [->|Hn]; [..|subst n].
Qed.

Lemma read_digits_pretty n s : read_digits 0 (pretty_N_go n s) = read_digits (Z.of_N n) s.
Proof.
  revert s. induction (N.lt_wf_0 n) as [n _ IH]. intros s. destruct (decide (0 < n)%N) as [Hn|Hn].
  - rewrite pretty_N_go_step by done. rewrite IH by (apply N.div_lt; lia). cbn [read_digits].
    rewrite digit_of_pretty by (apply N.mod_lt; lia). f_equal. pose proof (N.div_mod n 10). lia.
  - assert (n = 0%N) as -> by lia. by rewrite pretty_N_go_0.
Qed.

Lemma starts_pretty n s : starts_with_digit s = true → starts_with_digit (pretty_N_go n s) = true.
Proof.
  revert s. induction (N.lt_wf_0 n) as [n _ IH]. intros s Hs. destruct (decide (0 < n)%N) as [Hn|Hn].
  - rewrite pretty_N_go_step by done. apply IH; [apply N.div_lt; lia|]. cbn. by rewrite digit_of_pretty by (apply N.mod_lt; lia).
  - assert (n = 0%N) as -> by lia. by rewrite pretty_N_go_0.
Qed.

Lemma starts_pretty_N (n : N) : starts_with_digit (pretty n) = true ∧ read_digits 0 (pretty n) = Z.of_N n.
Proof.
  unfold pretty, pretty_N. case_decide as E; [by subst|]. split; [|apply read_digits_pretty].
  rewrite pretty_N_go_step by lia. apply starts_pretty. cbn. by rewrite digit_of_pretty by (apply N.mod_lt; lia).
Qed.

(** A digit is neither a space nor a sign. *)
Lemma digit_plain c d : digit_of c = Some d → isspace c = false ∧ c ≠ "-"%char ∧ c ≠ "+"%char.
Proof.
  unfold digit_of, isspace. case_bool_decide as H; [|done]. intros _. split; [apply bool_decide_eq_false; lia|].
  split; intros ->; cbn in H; lia.
Qed.

Lemma to_string_digits n : 0 ≤ n → starts_with_digit (to_string n) = true ∧ read_digits 0 (to_string n) = n.
Proof.
  intros Hn. unfold to_string, pretty, pretty_Z. destruct n as [|p|p]; [done| |lia]. apply (starts_pretty_N (N.pos p)).
Qed.

(** The number read from digits, whatever follows them. *)
Lemma stoull_digits s : starts_with_digit s = true → read_digits 0 s < 2 ^ 64 → stoull s = Ok (read_digits 0 s).
Proof.
  intros Hs Hv. destruct s as [|c s]; [done|]. unfold stoull. simpl in Hs. destruct (digit_of c) as [d|] eqn:Ed; [|done].
  destruct (digit_plain c d Ed) as (Hsp & Hm & Hp). cbn [skip_spaces]. rewrite Hsp. unfold read_sign.
  rewrite !decide_False by done. cbn [starts_with_digit]. rewrite Ed. by rewrite bool_decide_true.
Qed.

Lemma stoull_to_string n : in_u64 n → stoull (to_string n) = Ok n.
Proof.
  intros [H0 H1]. destruct (to_string_digits n H0) as [Hs Hv]. rewrite stoull_digits by (rewrite ?Hv; done). by rewrite Hv.
Qed.

(** Every number read is one of 64 bits. *)
Lemma read_digits_nonneg s : ∀ acc, 0 ≤ acc → 0 ≤ read_digits acc s.
Proof.
  induction s as [|c s IH]; intros acc Ha; cbn; [done|]. unfold digit_of. case_bool_decide; [|done]. apply IH. lia.
Qed.

Lemma stoull_range s n : stoull s = Ok n → in_u64 n.
Proof.
  unfold stoull. destruct (read_sign _) as [neg t]. destruct (starts_with_digit t); [|done]. case_bool_decide as H; [|done].
  intros [= <-]. pose proof (read_digits_nonneg t 0). destruct neg; [apply Z.mod_pos_bound; lia|]. unfold in_u64. lia.
Qed.

Lemma getAttrAsUInt64_range k a n : getAttrAsUInt64 k a = Ok n → in_u64 n.
Proof. unfold getAttrAsUInt64. destruct (find_attr k a); [apply stoull_range|done]. Qed.

Lemma getAttrAsUInt64_set k a n : in_u64 n → a !! k = Some (to_string n) → getAttrAsUInt64 k a = Ok n.
Proof. intros Hn Ha. unfold getAttrAsUInt64, find_attr. rewrite Ha. by apply stoull_to_string. Qed.

Example stoull_trailing : stoull " 12ns" = Ok 12. Proof. by vm_compute. Qed.
Example stoull_hexadecimal : stoull "0x1000" = Ok 0. Proof. by vm_compute. Qed.
Example stoull_negative : stoull "-1" = Ok max64. Proof. by vm_compute. Qed.
Example stoull_none : stoull "none" = Err (Throw "stoull"). Proof. by vm_compute. Qed.
