(* ===== verification/AddrSpace.v ===== *)
(** * Address spaces ([core/AddrSpace.cpp])

    An address space is an inclusive interval of 64-bit addresses.  The file
    models every operation of the class at its machine width and proves what
    the interval algebra computes: intersection tests, exact intersections, the
    relative complement (on spaces that meet), the order used to sort spaces,
    and the behaviour of the size setters at the top of the address range. *)

From S2P Require Import Prelude.

Record AddrSpace := mkAddrSpace {
  mBaseAddress : Z;
  mEndAddress : Z
}.

#[global] Instance AddrSpace_eq_dec : EqDecision AddrSpace.
Proof. solve_decision. Defined.

(** [AddrSpace (uint64_t Size)] and [AddrSpace (uint64_t base, uint64_t end)]. *)
Definition AddrSpace_of_size (Size : Z) : AddrSpace := mkAddrSpace 0 Size.
Definition maxRange : AddrSpace := mkAddrSpace 0 (u64 (- 1)).

(** The setters mutate the object; [setSize] throws after the assignment. *)
Definition setSize (Size : Z) : M AddrSpace unit :=
  m_modify (fun a => mkAddrSpace (mBaseAddress a) (u64 (mBaseAddress a + Size - 1)));;;
  a <- m_get;;
  if bool_decide (u64 (mBaseAddress a + Size) < mEndAddress a)
  then m_throw (Throw "setSize caused an overflow")
  else m_ret tt.

Definition setBaseAddress (BaseAddress : Z) (a : AddrSpace) : AddrSpace :=
  let shift := u64 (BaseAddress - mBaseAddress a) in
  mkAddrSpace BaseAddress (u64 (mEndAddress a + shift)).

Definition setEndAddress (endAddress : Z) (a : AddrSpace) : AddrSpace :=
  mkAddrSpace (mBaseAddress a) endAddress.

Definition getSize (a : AddrSpace) : result Z :=
  if bool_decide (mBaseAddress a = 0 ∧ mEndAddress a = 0xffffffffffffffff)
  then Err (Throw "Size can not be stored in a uint64_t")
  else Ok (u64 (mEndAddress a - mBaseAddress a + 1)).

Definition as_eq (this that : AddrSpace) : bool :=
  bool_decide (mBaseAddress this = mBaseAddress that ∧ mEndAddress this = mEndAddress that).

Definition as_lt (this that : AddrSpace) : bool :=
  bool_decide (mBaseAddress this < mBaseAddress that) ||
  bool_decide (mBaseAddress this = mBaseAddress that ∧ mEndAddress this < mEndAddress that).

Definition contains (this that : AddrSpace) : bool :=
  bool_decide (mBaseAddress this ≤ mBaseAddress that ∧ mEndAddress that ≤ mEndAddress this).

Definition intersect (this that : AddrSpace) : bool :=
  bool_decide (mBaseAddress this ≤ mEndAddress that ∧ mBaseAddress that ≤ mEndAddress this).

Definition intersection (this that : AddrSpace) : AddrSpace :=
  if negb (intersect this that) then AddrSpace_of_size 0
  else mkAddrSpace (Z.max (mBaseAddress this) (mBaseAddress that))
                   (Z.min (mEndAddress this) (mEndAddress that)).

Definition relativeComplement (this that : AddrSpace) : list AddrSpace :=
  (if bool_decide (mBaseAddress this < mBaseAddress that)
   then [mkAddrSpace (mBaseAddress this) (u64 (mBaseAddress that - 1))] else []) ++
  (if bool_decide (mEndAddress that < mEndAddress this)
   then [mkAddrSpace (u64 (mEndAddress that + 1)) (mEndAddress this)] else []).

(** ** Specification vocabulary *)

(** An address belongs to the inclusive interval. *)
#[global] Instance addr_elem_of : ElemOf Z AddrSpace :=
  fun x a => mBaseAddress a ≤ x ≤ mEndAddress a.

#[global] Instance addr_elem_of_dec (x : Z) (a : AddrSpace) : Decision (x ∈ a).
Proof. unfold elem_of, addr_elem_of. apply _. Defined.

(** A well-formed space: 64-bit bounds, in order. *)
Definition as_wf (a : AddrSpace) : Prop :=
  0 ≤ mBaseAddress a ∧ mBaseAddress a ≤ mEndAddress a ∧ mEndAddress a < 2 ^ 64.

Definition as_disjoint (a b : AddrSpace) : Prop := ∀ x, x ∈ a → x ∈ b → False.

Ltac as_unfold :=
  unfold as_wf, as_disjoint, as_lt, as_eq, contains, intersect, intersection,
    relativeComplement, setBaseAddress, setEndAddress, AddrSpace_of_size,
    elem_of, addr_elem_of in *; simpl in *.

Ltac as_solve :=
  as_unfold; repeat (case_bool_decide || case_decide); simpl in *;
  rewrite ?orb_true_iff, ?andb_true_iff in *; simpl in *; intuition (u64_lia || eauto).

(** ** Membership lemmas *)

Lemma elem_of_mk x b e : x ∈ mkAddrSpace b e ↔ b ≤ x ≤ e.
Proof. done. Qed.

Lemma as_wf_base a : as_wf a → mBaseAddress a ∈ a.
Proof. as_unfold. lia. Qed.

Lemma as_wf_end a : as_wf a → mEndAddress a ∈ a.
Proof. as_unfold. lia. Qed.

Lemma intersect_true this that :
  as_wf this → as_wf that →
  intersect this that = true ↔ ∃ x, x ∈ this ∧ x ∈ that.
Proof.
  intros H1 H2. unfold intersect. rewrite bool_decide_eq_true. as_unfold. split.
  - intros [Ha Hb]. exists (Z.max (mBaseAddress this) (mBaseAddress that)). lia.
  - intros (x & Hx & Hy). lia.
Qed.

Lemma intersect_false this that :
  as_wf this → as_wf that →
  intersect this that = false ↔ as_disjoint this that.
Proof.
  intros H1 H2. rewrite <- not_true_iff_false, intersect_true by done.
  unfold as_disjoint. naive_solver.
Qed.

Lemma intersect_comm this that : intersect this that = intersect that this.
Proof. unfold intersect. apply bool_decide_ext. lia. Qed.

Lemma elem_of_intersection this that x :
  intersect this that = true → x ∈ intersection this that ↔ x ∈ this ∧ x ∈ that.
Proof. intros H. unfold intersection. rewrite H. as_unfold. lia. Qed.

Lemma intersection_wf this that :
  as_wf this → as_wf that → intersect this that = true → as_wf (intersection this that).
Proof.
  intros H1 H2 H. unfold intersection. rewrite H. unfold intersect in H.
  apply bool_decide_eq_true in H. as_unfold. lia.
Qed.

(** What the two pieces of a relative complement are, whatever the overlap. *)
Lemma elem_of_relativeComplement_raw this that x :
  as_wf this → as_wf that →
  (∃ p, p ∈ relativeComplement this that ∧ x ∈ p) ↔
  (mBaseAddress this ≤ x < mBaseAddress that) ∨ (mEndAddress that < x ≤ mEndAddress this).
Proof.
  intros H1 H2. unfold relativeComplement.
  setoid_rewrite elem_of_app. split.
  - intros (p & Hp & Hx). revert Hp.
    case_bool_decide; case_bool_decide; rewrite ?list_elem_of_singleton, ?elem_of_nil;
      (intros [-> | ->] || intros [-> | []] || intros [[] | ->] || intros [[] | []]);
      rewrite elem_of_mk in Hx; as_unfold; u64_lia.
  - intros [Hx|Hx].
    + exists (mkAddrSpace (mBaseAddress this) (u64 (mBaseAddress that - 1))).
      rewrite bool_decide_eq_true_2 by lia. split; [left; by left|].
      rewrite elem_of_mk. as_unfold. u64_lia.
    + exists (mkAddrSpace (u64 (mEndAddress that + 1)) (mEndAddress this)).
      rewrite (bool_decide_eq_true_2 (mEndAddress that < mEndAddress this)) by lia.
      split; [right; by left|]. rewrite elem_of_mk. as_unfold. u64_lia.
Qed.

Lemma elem_of_relativeComplement this that x :
  as_wf this → as_wf that → intersect this that = true →
  (∃ p, p ∈ relativeComplement this that ∧ x ∈ p) ↔ x ∈ this ∧ x ∉ that.
Proof.
  intros H1 H2 H. rewrite elem_of_relativeComplement_raw by done.
  unfold intersect in H. apply bool_decide_eq_true in H. as_unfold. lia.
Qed.

Lemma relativeComplement_wf this that p :
  as_wf this → as_wf that → intersect this that = true →
  p ∈ relativeComplement this that → as_wf p.
Proof.
  intros H1 H2 H. unfold intersect in H. apply bool_decide_eq_true in H.
  unfold relativeComplement. rewrite elem_of_app.
  case_bool_decide; case_bool_decide; rewrite ?list_elem_of_singleton, ?elem_of_nil;
    (intros [-> | ->] || intros [-> | []] || intros [[] | ->] || intros [[] | []]);
    as_unfold; u64_lia.
Qed.

(** The three shapes a relative complement can have on spaces that meet: the
    part below [that], the part above it, in this order. *)
Lemma relativeComplement_shape this that :
  as_wf this → as_wf that → intersect this that = true →
  relativeComplement this that =
    (if decide (mBaseAddress this < mBaseAddress that)
     then [mkAddrSpace (mBaseAddress this) (mBaseAddress that - 1)] else []) ++
    (if decide (mEndAddress that < mEndAddress this)
     then [mkAddrSpace (mEndAddress that + 1) (mEndAddress this)] else []).
Proof.
  intros H1 H2 H. unfold relativeComplement, as_wf in *.
  f_equal.
  - case_bool_decide; case_decide; try done. rewrite u64_small; [done|].
    unfold in_u64. lia.
  - case_bool_decide; case_decide; try done. rewrite u64_small; [done|].
    unfold in_u64. lia.
Qed.

(** ** The order on spaces *)

#[global] Instance as_lt_trans : Transitive (fun a b => as_lt a b = true).
Proof. intros a b c. unfold as_lt. rewrite !orb_true_iff, !bool_decide_eq_true. lia. Qed.

Lemma as_lt_irrefl a : as_lt a a = false.
Proof. unfold as_lt. rewrite !bool_decide_eq_false_2 by lia. done. Qed.

Lemma as_lt_total a b : as_lt a b = true ∨ a = b ∨ as_lt b a = true.
Proof.
  unfold as_lt. rewrite !orb_true_iff, !bool_decide_eq_true.
  destruct a as [b1 e1], b as [b2 e2]; simpl.
  destruct (Ztrichotomy_inf b1 b2) as [[?|?]|?]; [by auto| |by auto with lia].
  destruct (Ztrichotomy_inf e1 e2) as [[?|?]|?]; subst; auto with lia.
Qed.

(** On disjoint spaces the order is the order of the intervals. *)
Lemma as_lt_disjoint a b :
  as_wf a → as_wf b → as_disjoint a b →
  as_lt a b = true ↔ mEndAddress a < mBaseAddress b.
Proof.
  intros H1 H2 Hd. unfold as_lt. rewrite orb_true_iff, !bool_decide_eq_true.
  assert (¬ (mBaseAddress a ≤ mEndAddress b ∧ mBaseAddress b ≤ mEndAddress a)) as Hn.
  { intros Hi. apply intersect_false in Hd; [|done..].
    unfold intersect in Hd. by apply bool_decide_eq_false in Hd. }
  as_unfold. lia.
Qed.

(** ** The size setters *)

Lemma setSize_run a Size :
  setSize Size a =
    (if bool_decide (u64 (mBaseAddress a + Size) < u64 (mBaseAddress a + Size - 1))
     then Err (Throw "setSize caused an overflow") else Ok tt,
     mkAddrSpace (mBaseAddress a) (u64 (mBaseAddress a + Size - 1))).
Proof. unfold setSize, m_bind, m_modify, m_get; simpl. by case_bool_decide. Qed.

Lemma setSize_throws a Size :
  in_u64 (mBaseAddress a) → in_u64 Size →
  (setSize Size a).1 = Ok tt ↔ u64 (mBaseAddress a + Size) ≠ 0.
Proof.
  intros Hb Hs. rewrite setSize_run. simpl. case_bool_decide as Hc; split; try done; u64_lia.
Qed.

(** ** Theorems *)

(** the intersection test of two well-formed spaces holds exactly when they
    share an address, and the computed intersection is then a well-formed space
    holding exactly the common addresses. *)
Theorem intersection_exact this that (Hthis : as_wf this) (Hthat : as_wf that) :
  (intersect this that = true ↔ ∃ x, x ∈ this ∧ x ∈ that) ∧
  (intersect this that = true →
   as_wf (intersection this that) ∧
   ∀ x, x ∈ intersection this that ↔ x ∈ this ∧ x ∈ that).
Proof.
  split; [by apply intersect_true|]. intros H. split; [by apply intersection_wf|].
  intros x. by apply elem_of_intersection.
Qed.

Lemma intersection_exact_witness :
  intersect (mkAddrSpace 16 31) (mkAddrSpace 24 64) = true ∧
  as_wf (intersection (mkAddrSpace 16 31) (mkAddrSpace 24 64)).
Proof.
  split; [reflexivity|].
  apply (intersection_exact (mkAddrSpace 16 31) (mkAddrSpace 24 64));
    [unfold as_wf; simpl; lia|unfold as_wf; simpl; lia|reflexivity].
Defined.

(** on two well-formed spaces that meet, the relative complement is a list of
    well-formed spaces covering exactly the addresses of the first that are not in
    the second; together with the intersection it partitions the first space. *)
Theorem relativeComplement_exact this that
    (Hthis : as_wf this) (Hthat : as_wf that) (Hmeet : intersect this that = true) :
  (∀ p, p ∈ relativeComplement this that → as_wf p ∧ as_disjoint p that) ∧
  (∀ x, (∃ p, p ∈ relativeComplement this that ∧ x ∈ p) ↔ x ∈ this ∧ x ∉ that) ∧
  (∀ x, x ∈ this ↔
     x ∈ intersection this that ∨ ∃ p, p ∈ relativeComplement this that ∧ x ∈ p).
Proof.
  split; [|split].
  - intros p Hp. split; [by apply (relativeComplement_wf this that)|].
    intros x Hx Hx'. destruct (elem_of_relativeComplement this that x) as [H _]; [done..|].
    destruct H as [_ Hn]; eauto.
  - intros x. by apply elem_of_relativeComplement.
  - intros x. rewrite elem_of_intersection, elem_of_relativeComplement by done.
    destruct (decide (x ∈ that)); naive_solver.
Qed.

Lemma relativeComplement_exact_witness :
  relativeComplement (mkAddrSpace 0 100) (mkAddrSpace 10 20) =
    [mkAddrSpace 0 9; mkAddrSpace 21 100] ∧
  as_disjoint (mkAddrSpace 21 100) (mkAddrSpace 10 20).
Proof.
  split; [vm_compute; reflexivity|].
  apply (relativeComplement_exact (mkAddrSpace 0 100) (mkAddrSpace 10 20));
    [unfold as_wf; simpl; lia|unfold as_wf; simpl; lia|reflexivity|].
  vm_compute. right. left.
Defined.

(** on two disjoint spaces the "relative complement" is not a part of the first
    space: for [0,1] and [5,6] it returns [0,4]. *)
Theorem relativeComplement_disjoint_escapes :
  ∃ this that x, as_wf this ∧ as_wf that ∧ as_disjoint this that ∧
    (∃ p, p ∈ relativeComplement this that ∧ x ∈ p) ∧ x ∉ this.
Proof.
  exists (mkAddrSpace 0 1), (mkAddrSpace 5 6), 3.
  split; [unfold as_wf; simpl; lia|]. split; [unfold as_wf; simpl; lia|].
  split; [as_unfold; lia|]. split; [|as_unfold; lia].
  exists (mkAddrSpace 0 4). split; [vm_compute; left|as_unfold; lia].
Qed.

(** the comparison operator of address spaces is a strict total order, so
    sorting by it is well defined. *)
Theorem as_lt_strict_total :
  (∀ a, as_lt a a = false) ∧
  (∀ a b c, as_lt a b = true → as_lt b c = true → as_lt a c = true) ∧
  (∀ a b, as_lt a b = true ∨ a = b ∨ as_lt b a = true).
Proof.
  split; [apply as_lt_irrefl|]. split; [|apply as_lt_total].
  intros a b c. apply (as_lt_trans a b c).
Qed.

(** [setSize] throws exactly when base + size is a multiple of 2^64; when the
    range fits strictly below 2^64 it succeeds and [getSize] returns the size set. *)
Theorem setSize_getSize a Size (Hb : in_u64 (mBaseAddress a)) (Hs : in_u64 Size) :
  ((setSize Size a).1 = Ok tt ↔ u64 (mBaseAddress a + Size) ≠ 0) ∧
  (0 < Size → mBaseAddress a + Size < 2 ^ 64 →
   (setSize Size a).1 = Ok tt ∧ getSize (setSize Size a).2 = Ok Size).
Proof.
  split; [by apply setSize_throws|]. intros Hpos Hfit. split.
  - apply setSize_throws; [done..|]. rewrite u64_small; unfold in_u64 in *; lia.
  - rewrite setSize_run. simpl. unfold in_u64 in *.
    rewrite (u64_small (_ + _ - 1)) by (unfold in_u64; lia).
    unfold getSize. rewrite bool_decide_eq_false_2; simpl; [|lia].
    rewrite u64_small; [f_equal; lia|]. unfold in_u64. lia.
Qed.

Lemma setSize_getSize_witness :
  getSize (setSize 16 (mkAddrSpace 4096 4096)).2 = Ok 16.
Proof.
  apply (setSize_getSize (mkAddrSpace 4096 4096) 16);
    [unfold in_u64; simpl; lia|unfold in_u64; lia|lia|simpl; lia].
Defined.

(** the overflow test of [setSize] is wrong in both directions: a range that
    wraps past 2^64 is accepted, and the range that ends exactly at the last 64-bit
    address is refused. *)
Theorem setSize_overflow_test_wrong :
  (setSize 16 (mkAddrSpace max64 max64) = (Ok tt, mkAddrSpace max64 14)) ∧
  (setSize 16 (mkAddrSpace (max64 - 15) max64)).1 = Err (Throw "setSize caused an overflow").
Proof. split; vm_compute; reflexivity. Qed.

(** moving a space with [setBaseAddress] keeps its size and, when the moved
    space still fits in 64 bits, is the translation of its addresses. *)
Theorem setBaseAddress_translates a b (Ha : as_wf a)
    (Hb : 0 ≤ b) (Hfit : b + (mEndAddress a - mBaseAddress a) < 2 ^ 64) :
  as_wf (setBaseAddress b a) ∧
  getSize (setBaseAddress b a) =
    (if bool_decide (mEndAddress a - mBaseAddress a = max64)
     then Err (Throw "Size can not be stored in a uint64_t")
     else Ok (mEndAddress a - mBaseAddress a + 1)) ∧
  (∀ x, x ∈ setBaseAddress b a ↔ x - b + mBaseAddress a ∈ a).
Proof.
  assert (setBaseAddress b a = mkAddrSpace b (b + (mEndAddress a - mBaseAddress a))) as Heq.
  { unfold setBaseAddress. f_equal. as_unfold. u64_lia. }
  rewrite Heq. split; [|split].
  - as_unfold. lia.
  - unfold getSize. simpl. unfold as_wf in Ha. unfold max64.
    case_bool_decide; case_bool_decide; try done; try lia.
    f_equal. rewrite u64_small; [lia|]. unfold in_u64. lia.
  - intros x. as_unfold. lia.
Qed.

Lemma setBaseAddress_translates_witness :
  as_wf (mkAddrSpace 0 15) ∧ as_wf (setBaseAddress 4096 (mkAddrSpace 0 15)).
Proof.
  split; [unfold as_wf; simpl; lia|].
  apply (setBaseAddress_translates (mkAddrSpace 0 15) 4096); [unfold as_wf; simpl; lia|lia|simpl; lia].
Defined.
