(* ===== verification/ModuleParams.v ===== *)
(** * Module parameters ([core/vpsimModule/moduleParameters.cpp])

    The abstract C++ class [ModuleParameter] is the type class [ModuleParameter]
    below: an order, an equality test and an addition, which may throw.  The three
    concrete parameters of the source are its instances.  A simulation time
    ([sc_time]) is its 64-bit tick count; a traversal rate is an abstract type
    [rate], since its only operation beside comparisons, the product of a time and
    a rate, belongs to the SystemC library. *)

From S2P Require Import Prelude.

Class ModuleParameter (A : Type) := {
  mp_lt : A → A → bool;
  mp_eq : A → A → bool;
  mp_add : A → A → result A
}.

(** What the containers of parameters rely on: the equality test decides equality. *)
Class ModuleParameterLaws (A : Type) `{ModuleParameter A} := {
  mp_eq_spec : ∀ a b : A, mp_eq a b = true ↔ a = b
}.

(** ** [BlockingTLMEnabledParameter] *)

Inductive BlockingTLMEnabled := BT_DISABLED | BT_ENABLED.

#[global] Instance bt_eq_dec : EqDecision BlockingTLMEnabled.
Proof. solve_decision. Defined.

Definition bt_value (b : BlockingTLMEnabled) : Z :=
  match b with BT_DISABLED => 0 | BT_ENABLED => 1 end.

Definition bt_of_bool (b : bool) : BlockingTLMEnabled := if b then BT_ENABLED else BT_DISABLED.
Definition bt_to_bool (b : BlockingTLMEnabled) : bool :=
  match b with BT_DISABLED => false | BT_ENABLED => true end.

Definition bt_lt (this that : BlockingTLMEnabled) : bool :=
  bool_decide (bt_value this < bt_value that).
Definition bt_eq (this that : BlockingTLMEnabled) : bool :=
  bool_decide (bt_value this = bt_value that).
(** [operator+=] and [operator+]: the maximum. *)
Definition bt_add (this that : BlockingTLMEnabled) : BlockingTLMEnabled :=
  cpp_max bt_lt this that.

#[global] Instance bt_parameter : ModuleParameter BlockingTLMEnabled := {
  mp_lt := bt_lt;
  mp_eq := bt_eq;
  mp_add := fun a b => Ok (bt_add a b)
}.

(** ** [ApproximateDelayParameter] *)

Record ApproximateDelay := mkDelay { mDelay : Z }.

#[global] Instance delay_eq_dec : EqDecision ApproximateDelay.
Proof. solve_decision. Defined.

Definition delay_lt (this that : ApproximateDelay) : bool :=
  bool_decide (mDelay this > mDelay that).
Definition delay_eq (this that : ApproximateDelay) : bool :=
  bool_decide (mDelay this = mDelay that).
Definition delay_add (this that : ApproximateDelay) : ApproximateDelay :=
  mkDelay (u64 (mDelay this + mDelay that)).

#[global] Instance delay_parameter : ModuleParameter ApproximateDelay := {
  mp_lt := delay_lt;
  mp_eq := delay_eq;
  mp_add := fun a b => Ok (delay_add a b)
}.

(** ** [ApproximateTraversalRateParameter]

    [rate_ltb] and [rate_eqb] are the comparisons of [double]. *)

Record ApproximateTraversalRate (rate : Type) := mkRate { mRate : rate }.
Arguments mkRate {rate} mRate.
Arguments mRate {rate} _.

Definition rate_add {rate} (this that : ApproximateTraversalRate rate) :
    result (ApproximateTraversalRate rate) :=
  Err (Throw "operator + should not be used on ApproximateTraversalRateParameter as it does not propagate").

Definition rate_parameter {rate : Type} (rate_ltb rate_eqb : rate → rate → bool) :
    ModuleParameter (ApproximateTraversalRate rate) := {|
  mp_lt := fun this that => rate_ltb (mRate this) (mRate that);
  mp_eq := fun this that => rate_eqb (mRate this) (mRate that);
  mp_add := rate_add
|}.

(** ** Laws *)

#[global] Instance bt_laws : ModuleParameterLaws BlockingTLMEnabled.
Proof. split. intros [] []; vm_compute; split; done. Qed.

#[global] Instance delay_laws : ModuleParameterLaws ApproximateDelay.
Proof.
  split. intros [a] [b]. unfold mp_eq; simpl. unfold delay_eq; simpl.
  rewrite bool_decide_eq_true. split; congruence.
Qed.

Lemma bt_add_max a b : bt_to_bool (bt_add a b) = bt_to_bool a || bt_to_bool b.
Proof. by destruct a, b. Qed.

Lemma bt_add_comm a b : bt_add a b = bt_add b a.
Proof. by destruct a, b. Qed.

Lemma bt_add_assoc a b c : bt_add a (bt_add b c) = bt_add (bt_add a b) c.
Proof. by destruct a, b, c. Qed.

(** [std::max] on delays picks the shortest: the order of the class is reversed. *)
Lemma delay_max_min a b :
  mDelay (cpp_max delay_lt a b) = Z.min (mDelay a) (mDelay b).
Proof. unfold cpp_max, delay_lt. case_bool_decide; lia. Qed.

(** merging two parameters with [std::max] keeps the enabled value of the
    blocking parameter and the SHORTEST of two delays, since the delay order is
    reversed. *)
Theorem parameter_max_restrictive :
  (∀ a b, bt_to_bool (cpp_max mp_lt a b) = bt_to_bool a || bt_to_bool b) ∧
  (∀ a b, mDelay (cpp_max mp_lt a b) = Z.min (mDelay a) (mDelay b)) ∧
  delay_lt (mkDelay 1) (mkDelay 2) = false.
Proof.
  split; [|split].
  - intros a b. exact (bt_add_max a b).
  - intros a b. exact (delay_max_min a b).
  - reflexivity.
Qed.
