(* ===== verification/ParamContainer.v ===== *)
(** * Containers of parameters ([core/vpsimModule/parameterSet.cpp])

    A [paramContainer] is a vector of (address space, parameter) pairs.  The
    generic functions of [ParameterSet] work on one container whose values have
    one type [A] (the source stores pointers to the abstract class, but the
    dispatch of [setParameter] keeps each container homogeneous).

    The specification of a container is the partial function from addresses to
    parameters it denotes ([pc_lookup]).  The file proves that the recursive
    conflict-splitting insertion implements a point-wise update of that function
    and terminates, and that defragmentation is a canonical form. *)

From S2P Require Import Prelude AddrSpace ModuleParams.

(** ** Definitions *)

Section container.
Context {A : Type} `{ModuleParameter A}.
Abbreviation paramPair := (AddrSpace * A)%type.
Abbreviation paramContainer := (list (AddrSpace * A)).

(** [std::sort] on pairs: spaces first; equal spaces (which a well-formed
    container never holds) keep their order here. *)
Fixpoint sort_insert (p : paramPair) (pc : paramContainer) : paramContainer :=
  match pc with
  | [] => [p]
  | q :: pc' => if as_lt q.1 p.1 then q :: sort_insert p pc' else p :: q :: pc'
  end.

Definition sort_container (pc : paramContainer) : paramContainer := foldr sort_insert [] pc.

(** [getParameterValue]: [T()] is the default parameter. *)
Fixpoint getParameterValue (dflt : A) (pc : paramContainer) (addr : Z) : A :=
  match pc with
  | [] => dflt
  | (a, v) :: pc' =>
      if bool_decide (addr ≤ mEndAddress a ∧ mBaseAddress a ≤ addr) then v
      else getParameterValue dflt pc' addr
  end.

(** The first entry whose space meets [as'], with what precedes and follows it. *)
Fixpoint first_conflict (as' : AddrSpace) (pc : paramContainer) :
    option (paramContainer * paramPair * paramContainer) :=
  match pc with
  | [] => None
  | p :: pc' =>
      if intersect p.1 as' then Some ([], p, pc')
      else match first_conflict as' pc' with
           | Some (pre, q, post) => Some (p :: pre, q, post)
           | None => None
           end
  end.

(** A loop that calls the container update [f] for every element of [l]. *)
Fixpoint foldM_pc {B} (f : paramContainer → B → option paramContainer)
    (pc : paramContainer) (l : list B) : option paramContainer :=
  match l with
  | [] => Some pc
  | x :: l' => match f pc x with Some pc' => foldM_pc f pc' l' | None => None end
  end.

Fixpoint setParameterHelper (fuel : nat) (pick : A → A → A)
    (pc : paramContainer) (as' : AddrSpace) (param : A) : option paramContainer :=
  match fuel with
  | O => None
  | S fuel =>
      match first_conflict as' pc with
      | Some (pre, (curAs, curParam), post) =>
          let inter := intersection curAs as' in
          let oldSpaces := relativeComplement curAs as' in
          let newSpaces := relativeComplement as' curAs in
          match foldM_pc (fun pc nas => setParameterHelper fuel pick pc nas param)
                         (pre ++ post) newSpaces with
          | None => None
          | Some pc1 =>
              match setParameterHelper fuel pick pc1 inter (pick curParam param) with
              | None => None
              | Some pc2 =>
                  foldM_pc (fun pc oas => setParameterHelper fuel pick pc oas curParam)
                           pc2 oldSpaces
              end
          end
      | None => Some (sort_container (pc ++ [(as', param)]))
      end
  end.

(** The recursion is never deeper than the number of entries plus one. *)
Definition helper_fuel (pc : paramContainer) : nat := S (length pc).

Definition pc_set (pick : A → A → A) (pc : paramContainer) (as' : AddrSpace) (param : A) :
    option paramContainer :=
  setParameterHelper (helper_fuel pc) pick pc as' param.

(** The first pair of neighbours that can be merged, merged. *)
Fixpoint defrag_step (pc : paramContainer) : option paramContainer :=
  match pc with
  | (as1, p1) :: (((as2, p2) :: rest) as tl) =>
      if bool_decide (u64 (mEndAddress as1 + 1) = mBaseAddress as2) && mp_eq p1 p2
      then Some ((mkAddrSpace (mBaseAddress as1) (mEndAddress as2), p1) :: rest)
      else match defrag_step tl with
           | Some tl' => Some ((as1, p1) :: tl')
           | None => None
           end
  | _ => None
  end.

Fixpoint defrag_fuel (fuel : nat) (pc : paramContainer) : paramContainer :=
  match fuel with
  | O => pc
  | S fuel => match defrag_step pc with Some pc' => defrag_fuel fuel pc' | None => pc end
  end.

Definition defrag (pc : paramContainer) : paramContainer := defrag_fuel (length pc) pc.

(** [equalHelper] of [operator==]. *)
Fixpoint pc_equal (a b : paramContainer) : bool :=
  match a, b with
  | [], [] => true
  | (as1, p1) :: a', (as2, p2) :: b' =>
      if negb (as_eq as1 as2) || negb (mp_eq p1 p2) then false else pc_equal a' b'
  | _, _ => false
  end.

(** ** Specification vocabulary *)

(** The function a container denotes. *)
Fixpoint pc_lookup (pc : paramContainer) (x : Z) : option A :=
  match pc with
  | [] => None
  | (a, v) :: pc' => if decide (x ∈ a) then Some v else pc_lookup pc' x
  end.

Definition before (p q : paramPair) : Prop := mEndAddress p.1 < mBaseAddress q.1.

(** A well-formed container: well-formed spaces, each entirely before the next. *)
Fixpoint pc_wf (pc : paramContainer) : Prop :=
  match pc with
  | [] => True
  | p :: pc' => as_wf p.1 ∧ (∀ q, q ∈ pc' → before p q) ∧ pc_wf pc'
  end.

(** Well-formed spaces, pairwise disjoint, in any order. *)
Fixpoint pc_disj (pc : paramContainer) : Prop :=
  match pc with
  | [] => True
  | p :: pc' => as_wf p.1 ∧ (∀ q, q ∈ pc' → as_disjoint p.1 q.1) ∧ pc_disj pc'
  end.

(** How many entries meet a space: the measure of the insertion. *)
Definition cnt (b : AddrSpace) (pc : paramContainer) : nat :=
  length (filter (fun p : paramPair => intersect p.1 b = true) pc).

(** The value at an address after a parameter [param] is set over [as']. *)
Definition updated (pick : A → A → A) (as' : AddrSpace) (param : A)
    (f : Z → option A) (x : Z) : option A :=
  if decide (x ∈ as') then
    Some (match f x with Some old => pick old param | None => param end)
  else f x.

Definition defragmented (pc : paramContainer) : Prop := defrag_step pc = None.

End container.
Arguments pc_wf {A} pc.
Arguments pc_disj {A} pc.
Arguments pc_lookup {A} pc x.
Arguments updated {A} pick as' param f x.

(** ** Lookups and order *)

Section lemmas.
Context {A : Type}.
Implicit Types (pc : list (AddrSpace * A)) (p q : AddrSpace * A) (b : AddrSpace).

Lemma before_disjoint p q : as_wf p.1 → as_wf q.1 → before p q → as_disjoint p.1 q.1.
Proof. unfold before. as_unfold. lia. Qed.

Lemma as_disjoint_sym a b : as_disjoint a b → as_disjoint b a.
Proof. unfold as_disjoint. eauto. Qed.

Lemma pc_wf_Forall pc p : pc_wf pc → p ∈ pc → as_wf p.1.
Proof.
  induction pc as [|q pc IH]; [intros _ Hp; by apply elem_of_nil in Hp|].
  intros (Hq & _ & Hwf) [-> | Hp]%elem_of_cons; auto.
Qed.

Lemma pc_disj_Forall pc p : pc_disj pc → p ∈ pc → as_wf p.1.
Proof.
  induction pc as [|q pc IH]; [intros _ Hp; by apply elem_of_nil in Hp|].
  intros (Hq & _ & Hwf) [-> | Hp]%elem_of_cons; auto.
Qed.

Lemma pc_wf_disj pc : pc_wf pc → pc_disj pc.
Proof.
  induction pc as [|p pc IH]; [done|]. intros (Hp & Hb & Hwf). split; [done|].
  split; [|by apply IH]. intros q Hq. apply before_disjoint; [done| |by apply Hb].
  by apply (pc_wf_Forall pc).
Qed.

Lemma pc_disj_app pc1 pc2 :
  pc_disj (pc1 ++ pc2) ↔ pc_disj pc1 ∧ pc_disj pc2 ∧
    ∀ p q, p ∈ pc1 → q ∈ pc2 → as_disjoint p.1 q.1.
Proof.
  induction pc1 as [|r pc1 IH]; simpl.
  - split; [|naive_solver]. intros ?. repeat split; [done|].
    intros p q Hp. by apply elem_of_nil in Hp.
  - rewrite IH. setoid_rewrite elem_of_app. setoid_rewrite elem_of_cons. naive_solver.
Qed.

Lemma pc_disj_perm pc1 pc2 : pc1 ≡ₚ pc2 → pc_disj pc1 → pc_disj pc2.
Proof.
  induction 1 as [|p l1 l2 HP IH|p q l|]; simpl; auto.
  - intros (Hp & Hd & Hw). split; [done|]. split; [|by apply IH].
    intros q Hq. apply Hd. by rewrite HP.
  - setoid_rewrite elem_of_cons. intros (H1 & H2 & H3 & H4 & H5).
    split; [done|]. split; [intros r [-> | Hr]; auto using as_disjoint_sym|].
    split; [done|]. split; [|done]. auto.
Qed.

Lemma pc_lookup_cons a (v : A) pc x :
  pc_lookup ((a, v) :: pc) x = if decide (x ∈ a) then Some v else pc_lookup pc x.
Proof. done. Qed.

Lemma pc_lookup_Some pc x v :
  pc_disj pc → pc_lookup pc x = Some v ↔ ∃ a, (a, v) ∈ pc ∧ x ∈ a.
Proof.
  induction pc as [|[a w] pc IH]; simpl.
  - intros _. split; [done|]. intros (a & Ha & _). by apply elem_of_nil in Ha.
  - intros (Hwf & Hd & Hpc). setoid_rewrite elem_of_cons. case_decide as Hx.
    + split; [intros [= ->]; eauto|]. intros (b & [[= -> ->]|Hb] & Hxb); [done|].
      destruct (Hd (b, v) Hb x Hx Hxb).
    + rewrite IH by done. naive_solver.
Qed.

Lemma pc_lookup_None pc x :
  pc_lookup pc x = None ↔ ∀ p, p ∈ pc → x ∉ p.1.
Proof.
  induction pc as [|[a w] pc IH]; simpl.
  - split; [intros _ p Hp; by apply elem_of_nil in Hp|done].
  - setoid_rewrite elem_of_cons. case_decide as Hx.
    + split; [done|]. intros Hall. by destruct (Hall (a, w)); [left|].
    + rewrite IH. naive_solver.
Qed.

Lemma pc_lookup_perm pc1 pc2 x :
  pc1 ≡ₚ pc2 → pc_disj pc1 → pc_lookup pc1 x = pc_lookup pc2 x.
Proof.
  intros HP Hd. apply option_eq. intros v.
  rewrite !pc_lookup_Some by eauto using pc_disj_perm. by setoid_rewrite HP.
Qed.

Lemma pc_lookup_app pc1 pc2 x :
  pc_lookup (pc1 ++ pc2) x =
    match pc_lookup pc1 x with Some v => Some v | None => pc_lookup pc2 x end.
Proof. induction pc1 as [|[a w] pc1 IH]; simpl; [done|]. by case_decide. Qed.

(** ** Sorting *)

Lemma sort_insert_perm p pc : sort_insert p pc ≡ₚ p :: pc.
Proof.
  induction pc as [|q pc IH]; simpl; [done|]. case_match; [|done].
  rewrite IH. apply Permutation_swap.
Qed.

Lemma sort_container_perm pc : sort_container pc ≡ₚ pc.
Proof.
  induction pc as [|p pc IH]; simpl; [done|]. rewrite sort_insert_perm.
  by apply perm_skip.
Qed.

Lemma sort_insert_wf p pc :
  pc_wf pc → as_wf p.1 → (∀ q, q ∈ pc → as_disjoint p.1 q.1) → pc_wf (sort_insert p pc).
Proof.
  induction pc as [|q pc IH]; simpl.
  - intros _ Hp _. repeat split; try apply Hp. intros q Hq. by apply elem_of_nil in Hq.
  - intros (Hq & Hb & Hwf) Hp Hd. setoid_rewrite elem_of_cons in Hd.
    destruct (as_lt q.1 p.1) eqn:Hlt; simpl.
    + split; [done|]. split; [|apply IH; auto].
      intros r. rewrite sort_insert_perm, elem_of_cons. intros [-> | Hr]; [|auto].
      apply as_lt_disjoint in Hlt; auto using as_disjoint_sym.
    + assert (before p q) as Hpq.
      { destruct (as_lt_total p.1 q.1) as [Hl|[He|Hl]]; [|exfalso..].
        - by apply as_lt_disjoint in Hl; auto.
        - apply (Hd q (or_introl eq_refl) (mBaseAddress p.1)); [|rewrite <- He];
            by apply as_wf_base.
        - congruence. }
      split; [done|]. split; [|done]. intros r [-> | Hr]%elem_of_cons; [done|].
      specialize (Hb r Hr). unfold before, as_wf in *. lia.
Qed.

Lemma sort_container_wf pc : pc_disj pc → pc_wf (sort_container pc).
Proof.
  induction pc as [|p pc IH]; simpl; [done|]. intros (Hp & Hd & Hpc).
  apply sort_insert_wf; [by apply IH|done|]. intros q. rewrite sort_container_perm. auto.
Qed.

(** ** Counting conflicts *)

Lemma cnt_perm b pc1 pc2 : pc1 ≡ₚ pc2 → cnt b pc1 = cnt b pc2.
Proof. intros HP. unfold cnt. by rewrite HP. Qed.

Lemma cnt_app b pc1 pc2 : cnt b (pc1 ++ pc2) = (cnt b pc1 + cnt b pc2)%nat.
Proof. unfold cnt. by rewrite filter_app, length_app. Qed.

Lemma cnt_cons b p pc :
  cnt b (p :: pc) = ((if intersect p.1 b then 1 else 0) + cnt b pc)%nat.
Proof.
  unfold cnt. rewrite filter_cons. case_decide as Hc; [by rewrite Hc|].
  by destruct (intersect p.1 b).
Qed.

Lemma cnt_le_length b pc : (cnt b pc ≤ length pc)%nat.
Proof. apply length_filter. Qed.

Lemma cnt_mono b c pc :
  (∀ p, p ∈ pc → intersect p.1 b = true → intersect p.1 c = true) →
  (cnt b pc ≤ cnt c pc)%nat.
Proof.
  induction pc as [|p pc IH]; intros Hp; [done|]. rewrite !cnt_cons.
  assert (cnt b pc ≤ cnt c pc)%nat by (apply IH; intros q Hq; apply Hp; by right).
  specialize (Hp p (list_elem_of_here _ _)).
  destruct (intersect p.1 b), (intersect p.1 c); lia || naive_solver.
Qed.

Lemma cnt_zero b pc : cnt b pc = 0%nat ↔ ∀ p, p ∈ pc → intersect p.1 b = false.
Proof.
  induction pc as [|p pc IH].
  - split; [intros _ p Hp; by apply elem_of_nil in Hp|done].
  - rewrite cnt_cons. setoid_rewrite elem_of_cons.
    destruct (intersect p.1 b) eqn:Hi; simpl.
    + split; [lia|]. intros Hall. rewrite Hall in Hi; by auto.
    + rewrite IH. naive_solver.
Qed.

(** A sub-space meets at most what the space meets. *)
Lemma cnt_subspace b c pc :
  pc_disj pc → as_wf b → as_wf c → (∀ x, x ∈ b → x ∈ c) → (cnt b pc ≤ cnt c pc)%nat.
Proof.
  intros Hpc Hb Hc Hsub. apply cnt_mono. intros p Hp.
  pose proof (pc_disj_Forall _ _ Hpc Hp). rewrite !intersect_true by done. naive_solver.
Qed.

Lemma first_conflict_None as' pc :
  first_conflict as' pc = None ↔ ∀ p, p ∈ pc → intersect p.1 as' = false.
Proof.
  induction pc as [|p pc IH]; simpl.
  - split; [intros _ p Hp; by apply elem_of_nil in Hp|done].
  - setoid_rewrite elem_of_cons. destruct (intersect p.1 as') eqn:Hi.
    + split; [done|]. intros Hall. rewrite Hall in Hi; by auto.
    + destruct (first_conflict as' pc) as [[[??]?]|]; split; try done.
      * intros Hall. assert (Some (l, p0, l0) = None) as [=]. { apply IH. auto. }
      * intros _ q [-> | Hq]; [done|]. by apply IH.
Qed.

Lemma first_conflict_Some as' pc pre p post :
  first_conflict as' pc = Some (pre, p, post) → pc = pre ++ p :: post ∧ intersect p.1 as' = true.
Proof.
  revert pre. induction pc as [|q pc IH]; simpl; intros pre; [done|].
  destruct (intersect q.1 as') eqn:Hi; [naive_solver|].
  destruct (first_conflict as' pc) as [[[pre' r] post']|] eqn:E; [|done].
  intros [= <- <- <-]. by destruct (IH pre' eq_refl) as [-> ?].
Qed.

End lemmas.

(** ** The insertion *)

Section insertion.
Context {A : Type} (pick : A → A → A).
Implicit Types (pc : list (AddrSpace * A)) (L : list AddrSpace).

(** A list of spaces with one value, as container entries. *)
Definition tagged (v : A) L : list (AddrSpace * A) := (fun b => (b, v)) <$> L.

Lemma elem_of_tagged v L p : p ∈ tagged v L ↔ p.2 = v ∧ p.1 ∈ L.
Proof. unfold tagged. rewrite list_elem_of_fmap. destruct p; naive_solver. Qed.

Lemma pc_lookup_tagged v L x :
  (∀ b, b ∈ L → x ∉ b) ∧ pc_lookup (tagged v L) x = None ∨
  (∃ b, b ∈ L ∧ x ∈ b) ∧ pc_lookup (tagged v L) x = Some v.
Proof.
  induction L as [|b L IH]; simpl.
  - left. split; [|done]. intros b Hb. by apply elem_of_nil in Hb.
  - setoid_rewrite elem_of_cons. case_decide; naive_solver.
Qed.

Lemma relativeComplement_disj v c as' :
  as_wf c → as_wf as' → intersect c as' = true → pc_disj (tagged v (relativeComplement c as')).
Proof.
  intros Hc Has Hm. rewrite relativeComplement_shape by done.
  unfold intersect in Hm. apply bool_decide_eq_true in Hm.
  unfold tagged. repeat case_decide; simpl; setoid_rewrite elem_of_cons || idtac;
    repeat split; try (intros q Hq; apply elem_of_nil in Hq; done);
    try (intros q [-> | Hq]; [|by apply elem_of_nil in Hq]); as_unfold; lia.
Qed.

(** A space disjoint from [as'] meets at most one piece of [c] minus [as']. *)
Lemma cnt_relativeComplement v b c as' :
  as_wf b → as_wf c → as_wf as' → intersect c as' = true → as_disjoint b as' →
  cnt b (tagged v (relativeComplement c as')) = if intersect c b then 1%nat else 0%nat.
Proof.
  intros Hb Hc Has Hm Hd. rewrite relativeComplement_shape by done.
  apply as_disjoint_sym, intersect_false in Hd; [|done..].
  unfold intersect in Hm, Hd. apply bool_decide_eq_true in Hm.
  apply bool_decide_eq_false in Hd. as_unfold. unfold tagged.
  repeat case_decide; simpl; rewrite ?cnt_cons; unfold cnt, intersect; simpl;
    repeat case_bool_decide; lia.
Qed.

Lemma relativeComplement_exact_pieces this that :
  as_wf this → as_wf that → intersect this that = true →
  (∀ p, p ∈ relativeComplement this that → as_wf p) ∧
  (∀ p, p ∈ relativeComplement this that → ∀ x, x ∈ p → x ∈ this ∧ x ∉ that).
Proof.
  intros H1 H2 Hm. split.
  - intros p. by apply relativeComplement_wf.
  - intros p Hp x Hx. apply (elem_of_relativeComplement this that x); eauto.
Qed.

Lemma pc_wf_remove pc1 p pc2 : pc_wf (pc1 ++ p :: pc2) → pc_wf (pc1 ++ pc2).
Proof.
  induction pc1 as [|q pc1 IH]; simpl; [naive_solver|].
  intros (Hq & Hb & Hwf). split; [done|]. split; [|by apply IH].
  intros r Hr. apply Hb. revert Hr. rewrite !elem_of_app, elem_of_cons. naive_solver.
Qed.

Lemma helper_no_conflict fuel pc as' v :
  pc_wf pc → as_wf as' → cnt as' pc = 0%nat →
  ∃ pc', setParameterHelper (S fuel) pick pc as' v = Some pc' ∧ pc_wf pc' ∧
         pc' ≡ₚ (as', v) :: pc.
Proof.
  intros Hpc Has Hcnt. rewrite cnt_zero in Hcnt. simpl.
  destruct (first_conflict as' pc) as [[[??]?]|] eqn:E.
  { rewrite (proj2 (first_conflict_None as' pc)) in E by done. done. }
  eexists. split; [done|].
  split; [|by rewrite sort_container_perm, (comm app)].
  apply sort_container_wf. apply pc_disj_app.
  split; [by apply pc_wf_disj|]. split.
  - simpl. split; [done|]. split; [|done]. intros q Hq. by apply elem_of_nil in Hq.
  - intros p q Hp ->%list_elem_of_singleton. simpl.
    apply intersect_false; [by apply (pc_wf_Forall pc)|done|by apply Hcnt].
Qed.

Lemma foldM_no_conflict fuel L pc v :
  pc_wf pc → pc_disj (tagged v L) → (∀ b, b ∈ L → cnt b pc = 0%nat) →
  ∃ pc', foldM_pc (fun pc b => setParameterHelper (S fuel) pick pc b v) pc L = Some pc' ∧
         pc_wf pc' ∧ pc' ≡ₚ tagged v L ++ pc.
Proof.
  revert pc. induction L as [|b L IH]; intros pc Hpc HL Hcnt; [by exists pc|].
  destruct HL as (Hb & HbL & HL).
  destruct (helper_no_conflict fuel pc b v) as (pc1 & E1 & Hpc1 & HP1); [done..| |].
  { apply Hcnt. by left. }
  cbn [foldM_pc]. rewrite E1. destruct (IH pc1) as (pc2 & E2 & Hpc2 & HP2); [done..| |].
  - intros c Hc. rewrite (cnt_perm c pc1 ((b, v) :: pc)) by done. rewrite cnt_cons.
    rewrite (Hcnt c) by (by right). simpl in HbL |- *.
    assert (intersect b c = false) as ->; [|done]. apply intersect_false; [done| |].
    + apply (pc_disj_Forall (tagged v L) (c, v)); [done|]. by apply elem_of_tagged.
    + apply (HbL (c, v)). by apply elem_of_tagged.
  - exists pc2. split; [done|]. split; [done|]. rewrite HP2, HP1. simpl.
    by rewrite Permutation_middle.
Qed.

(** The contract of one insertion. *)
Definition sets pc as' v pc' : Prop :=
  pc_wf pc' ∧ (∀ x, pc_lookup pc' x = updated pick as' v (pc_lookup pc) x) ∧
  (∀ b, as_wf b → as_disjoint b as' → cnt b pc' = cnt b pc).

Lemma foldM_sets (f : list (AddrSpace * A) → AddrSpace → option (list (AddrSpace * A))) k L pc v :
  (∀ pc b, pc_wf pc → as_wf b → (cnt b pc ≤ k)%nat → ∃ pc', f pc b = Some pc' ∧ sets pc b v pc') →
  pc_wf pc → pc_disj (tagged v L) → (∀ b, b ∈ L → (cnt b pc ≤ k)%nat) →
  ∃ pc', foldM_pc f pc L = Some pc' ∧ pc_wf pc' ∧
    (∀ x b, b ∈ L → x ∈ b →
       pc_lookup pc' x = updated pick b v (pc_lookup pc) x) ∧
    (∀ x, (∀ b, b ∈ L → x ∉ b) → pc_lookup pc' x = pc_lookup pc x) ∧
    (∀ c, as_wf c → (∀ b, b ∈ L → as_disjoint c b) → cnt c pc' = cnt c pc).
Proof.
  intros Hf. revert pc. induction L as [|b L IH]; intros pc Hpc HL Hcnt.
  { exists pc. split; [done|]. split; [done|]. split; [|done].
    intros x b Hb. by apply elem_of_nil in Hb. }
  destruct HL as (Hb & HbL & HL). cbn [foldM_pc].
  assert (∀ c, c ∈ L → as_wf c ∧ as_disjoint b c) as HcL.
  { intros c Hc. split; [apply (pc_disj_Forall (tagged v L) (c, v) HL)|apply (HbL (c, v))];
      by apply elem_of_tagged. }
  destruct (Hf pc b) as (pc1 & -> & Hpc1 & Hlk1 & Hct1); [done..|apply Hcnt; by left|].
  destruct (IH pc1) as (pc2 & -> & Hpc2 & Hin2 & Hout2 & Hct2); [done..| |].
  { intros c Hc. destruct (HcL c Hc) as [Hcw Hbc]. rewrite Hct1; auto using as_disjoint_sym.
    apply Hcnt. by right. }
  exists pc2. split; [done|]. split; [done|]. split; [|split].
  - intros x c [-> | Hc]%elem_of_cons Hx.
    + rewrite Hout2, Hlk1; [done|]. intros d Hd Hxd. destruct (HcL d Hd) as [_ Hdj].
      exact (Hdj x Hx Hxd).
    + rewrite (Hin2 x c) by done. unfold updated. rewrite !decide_True by done.
      rewrite Hlk1. unfold updated. rewrite decide_False; [done|].
      intros Hxb. destruct (HcL c Hc) as [_ Hdj]. exact (Hdj x Hxb Hx).
  - intros x Hx. rewrite Hout2, Hlk1; [|intros c Hc; apply Hx; by right].
    unfold updated. rewrite decide_False; [done|]. apply Hx. by left.
  - intros c Hc Hdj. rewrite Hct2, Hct1; [done|done| |done|].
    + apply Hdj. by left.
    + intros d Hd. apply Hdj. by right.
Qed.

Lemma pc_lookup_split (pre post : list (AddrSpace * A)) c o x :
  pc_wf (pre ++ (c, o) :: post) →
  pc_lookup (pre ++ (c, o) :: post) x =
    if decide (x ∈ c) then Some o else pc_lookup (pre ++ post) x.
Proof.
  intros Hwf. rewrite (pc_lookup_perm _ ((c, o) :: pre ++ post));
    [done|by rewrite Permutation_middle|by apply pc_wf_disj].
Qed.

(** The conflicting branch: what is put back around the first conflict [c]. *)
Lemma helper_conflict fuel pc pre c o post as' v :
  (∀ pc b v, pc_wf pc → as_wf b → (cnt b pc < fuel)%nat →
     ∃ pc', setParameterHelper fuel pick pc b v = Some pc' ∧ sets pc b v pc') →
  pc_wf pc → as_wf as' → (cnt as' pc < S fuel)%nat →
  first_conflict as' pc = Some (pre, (c, o), post) →
  ∃ pc1 pc', setParameterHelper (S fuel) pick pc as' v = Some pc' ∧ pc_wf pc' ∧
    pc' ≡ₚ tagged o (relativeComplement c as') ++ (intersection c as', pick o v) :: pc1 ∧
    (∀ x b, b ∈ relativeComplement as' c → x ∈ b →
       pc_lookup pc1 x = updated pick b v (pc_lookup (pre ++ post)) x) ∧
    (∀ x, (∀ b, b ∈ relativeComplement as' c → x ∉ b) →
       pc_lookup pc1 x = pc_lookup (pre ++ post) x) ∧
    (∀ b, as_wf b → (∀ d, d ∈ relativeComplement as' c → as_disjoint b d) →
       cnt b pc1 = cnt b (pre ++ post)).
Proof.
  intros IH Hpc Has Hfuel E. pose proof E as (Hsplit & Hmeet)%first_conflict_Some.
  simpl in Hmeet. assert (as_wf c) as Hc.
  { apply (pc_wf_Forall pc (c, o)); [done|]. subst pc. apply elem_of_app. right. left. }
  assert (pc_wf (pre ++ post)) as Hpc0 by (subst pc; by eapply pc_wf_remove).
  assert (intersect as' c = true) as Hmeet' by by rewrite intersect_comm.
  assert (∀ b, as_wf b → (∀ x, x ∈ b → x ∈ c) → cnt b (pre ++ post) = 0%nat) as Hzero.
  { intros b Hb Hsub. apply cnt_zero. intros p Hp. apply intersect_false;
      [by apply (pc_wf_Forall (pre ++ post))|done|].
    assert (pc_disj ((c, o) :: pre ++ post)) as (_ & Hd & _).
    { apply (pc_disj_perm pc); [|by apply pc_wf_disj]. subst. by rewrite Permutation_middle. }
    intros x Hx Hxb. exact (Hd p Hp x (Hsub x Hxb) Hx). }
  assert (cnt as' pc = S (cnt as' (pre ++ post))) as Hcnt.
  { rewrite (cnt_perm as' pc ((c, o) :: pre ++ post)) by (subst; by rewrite Permutation_middle).
    rewrite cnt_cons. simpl. by rewrite Hmeet. }
  destruct fuel as [|fuel]; [lia|].
  destruct (relativeComplement_exact_pieces as' c) as (Hnew_wf & Hnew_in); [done..|].
  destruct (relativeComplement_exact_pieces c as') as (Hold_wf & Hold_in); [done..|].
  destruct (foldM_sets (fun pc nas => setParameterHelper (S fuel) pick pc nas v)
    (cnt as' (pre ++ post)) (relativeComplement as' c) (pre ++ post) v)
    as (pc1 & E1 & Hpc1 & Hin1 & Hout1 & Hcnt1); [|done|by apply relativeComplement_disj| |].
  { intros pc' b Hpc' Hb Hle. apply IH; [done..|lia]. }
  { intros b Hb. apply cnt_subspace; [by apply pc_wf_disj|by apply Hnew_wf|done|].
    intros x Hx. apply (Hnew_in b Hb x Hx). }
  destruct (helper_no_conflict fuel pc1 (intersection c as') (pick o v))
    as (pc2 & E2 & Hpc2 & HP2); [done|by apply intersection_wf| |].
  { rewrite Hcnt1; [apply Hzero; [by apply intersection_wf|]|by apply intersection_wf|].
    - intros x. rewrite elem_of_intersection by done. naive_solver.
    - intros d Hd x Hx Hxd. rewrite elem_of_intersection in Hx by done.
      destruct (Hnew_in d Hd x Hxd); naive_solver. }
  destruct (foldM_no_conflict fuel (relativeComplement c as') pc2 o)
    as (pc3 & E3 & Hpc3 & HP3); [done|by apply relativeComplement_disj| |].
  { intros b Hb. rewrite (cnt_perm b pc2 _ HP2), cnt_cons. simpl.
    assert (intersect (intersection c as') b = false) as ->.
    { apply intersect_false; [by apply intersection_wf|by apply Hold_wf|].
      intros x Hx Hxb. rewrite elem_of_intersection in Hx by done.
      destruct (Hold_in b Hb x Hxb); naive_solver. }
    rewrite Hcnt1; [apply Hzero; [by apply Hold_wf|intros x Hx; apply (Hold_in b Hb x Hx)]| |].
    - by apply Hold_wf.
    - intros d Hd x Hx Hxd.
      destruct (Hnew_in d Hd x Hxd), (Hold_in b Hb x Hx). naive_solver. }
  exists pc1, pc3. split.
  { remember (S fuel) as fuel'. cbn [setParameterHelper]. rewrite E. subst fuel'.
    by rewrite E1, E2, E3. }
  split; [done|]. split; [by rewrite HP3, HP2|]. done.
Qed.

Lemma helper_sets fuel pc as' v :
  pc_wf pc → as_wf as' → (cnt as' pc < fuel)%nat →
  ∃ pc', setParameterHelper fuel pick pc as' v = Some pc' ∧ sets pc as' v pc'.
Proof.
  revert pc as' v. induction fuel as [|fuel IH]; intros pc as' v Hpc Has Hfuel; [lia|].
  destruct (first_conflict as' pc) as [[[pre [c o]] post]|] eqn:E.
  - pose proof E as (Hsplit & Hmeet)%first_conflict_Some. simpl in Hmeet.
    destruct (helper_conflict fuel pc pre c o post as' v)
      as (pc1 & pc' & E' & Hpc' & HP & Hin & Hout & Hcnt1); [done..|].
    exists pc'. split; [done|]. split; [done|].
    assert (as_wf c) as Hc.
    { apply (pc_wf_Forall pc (c, o)); [done|]. subst pc. apply elem_of_app. right. left. }
    destruct (relativeComplement_exact_pieces as' c) as (Hnew_wf & Hnew_in);
      [done|done|by rewrite intersect_comm|].
    split.
    + intros x. rewrite (pc_lookup_perm pc' _ x HP) by by apply pc_wf_disj.
      rewrite pc_lookup_app. simpl. unfold updated.
      rewrite Hsplit, pc_lookup_split by (by rewrite <- Hsplit).
      pose proof (elem_of_intersection c as' x Hmeet) as Hinter.
      pose proof (elem_of_relativeComplement c as' x Hc Has Hmeet) as Hold.
      pose proof (elem_of_relativeComplement as' c x Has Hc) as Hnew.
      rewrite intersect_comm in Hnew. specialize (Hnew Hmeet).
      destruct (pc_lookup_tagged o (relativeComplement c as') x) as [[Hno ->]|[Hex ->]].
      * destruct (decide (x ∈ intersection c as')) as [Hi|Hi].
        { apply Hinter in Hi as [Hx1 Hx2]. by rewrite !decide_True by done. }
        assert (x ∉ c) as Hxc.
        { intros Hxc. destruct (decide (x ∈ as')); [by apply Hi, Hinter|].
          destruct (proj2 Hold) as (b & Hb & Hxb); [done|]. exact (Hno b Hb Hxb). }
        rewrite (decide_False (P := x ∈ c)) by done.
        destruct (decide (x ∈ as')) as [Hx|Hx].
        { destruct (proj2 Hnew) as (b & Hb & Hxb); [done|].
          rewrite (Hin x b Hb Hxb). unfold updated. by rewrite decide_True by done. }
        apply Hout. intros b Hb Hxb. apply Hx, (Hnew_in b Hb x Hxb).
      * apply Hold in Hex as [Hx1 Hx2].
        rewrite (decide_False (P := x ∈ as')) by done.
        by rewrite decide_True by done.
    + intros b Hb Hdj. rewrite (cnt_perm b pc' _ HP), cnt_app, cnt_cons. simpl.
      rewrite cnt_relativeComplement by done.
      assert (intersect (intersection c as') b = false) as ->.
      { apply intersect_false; [by apply intersection_wf|done|]. intros x Hx Hxb.
        rewrite elem_of_intersection in Hx by done. apply (Hdj x Hxb), Hx. }
      rewrite Hcnt1; [|done|intros d Hd x Hx Hxd; apply (Hdj x Hx), (Hnew_in d Hd x Hxd)].
      rewrite (cnt_perm b pc ((c, o) :: pre ++ post)) by (subst; by rewrite Permutation_middle).
      by rewrite cnt_cons.
  - rewrite first_conflict_None in E.
    destruct (helper_no_conflict fuel pc as' v) as (pc' & E' & Hpc' & HP);
      [done|done|by apply cnt_zero|].
    exists pc'. split; [done|]. split; [done|]. split.
    + intros x. rewrite (pc_lookup_perm pc' _ x HP) by by apply pc_wf_disj.
      simpl. unfold updated. case_decide as Hx; [|done].
      rewrite (proj2 (pc_lookup_None pc x)); [done|]. intros p Hp Hxp.
      apply (intersect_false p.1 as') with (x := x); auto. by apply (pc_wf_Forall pc).
    + intros b Hb Hdj. rewrite (cnt_perm b pc' _ HP), cnt_cons. simpl.
      rewrite intersect_comm. by rewrite (proj2 (intersect_false b as' Hb Has)).
Qed.
End insertion.

(** ** Defragmentation *)

Section defrag.
Context {A : Type} `{ModuleParameterLaws A}.
Implicit Types (pc : list (AddrSpace * A)).

Lemma mergeable_spec as1 as2 (p1 p2 : A) pc :
  pc_wf ((as1, p1) :: (as2, p2) :: pc) →
  bool_decide (u64 (mEndAddress as1 + 1) = mBaseAddress as2) && mp_eq p1 p2 = true ↔
  mEndAddress as1 + 1 = mBaseAddress as2 ∧ p1 = p2.
Proof.
  intros (H1 & Hb & H2 & _). specialize (Hb (as2, p2) (list_elem_of_here _ _)).
  unfold before, as_wf in *. simpl in *.
  rewrite andb_true_iff, bool_decide_eq_true, mp_eq_spec, u64_small; [done|].
  unfold in_u64. lia.
Qed.

Lemma defrag_step_cons2 as1 as2 (p1 p2 : A) rest :
  defrag_step ((as1, p1) :: (as2, p2) :: rest) =
    if bool_decide (u64 (mEndAddress as1 + 1) = mBaseAddress as2) && mp_eq p1 p2
    then Some ((mkAddrSpace (mBaseAddress as1) (mEndAddress as2), p1) :: rest)
    else match defrag_step ((as2, p2) :: rest) with
         | Some tl' => Some ((as1, p1) :: tl')
         | None => None
         end.
Proof. done. Qed.

Lemma defrag_step_length pc pc' : defrag_step pc = Some pc' → length pc = S (length pc').
Proof.
  revert pc'. induction pc as [|[as1 p1] pc IH]; intros pc'; [done|].
  destruct pc as [|[as2 p2] rest]; [done|]. rewrite defrag_step_cons2.
  case_match; [intros [= <-]; done|].
  destruct (defrag_step _) as [tl'|]; [|done]. intros [= <-].
  simpl. f_equal. by apply IH.
Qed.

Lemma defrag_step_spec pc pc' :
  pc_wf pc → defrag_step pc = Some pc' →
  pc_wf pc' ∧ (∀ x, pc_lookup pc' x = pc_lookup pc x) ∧
  (∀ b, (∀ p, p ∈ pc → b < mBaseAddress p.1) → ∀ p, p ∈ pc' → b < mBaseAddress p.1).
Proof.
  revert pc'. induction pc as [|[as1 p1] pc IH]; intros pc' Hwf; [done|].
  destruct pc as [|[as2 p2] rest]; [done|]. rewrite defrag_step_cons2.
  destruct (bool_decide _ && _) eqn:Em.
  - apply (mergeable_spec _ _ _ _ rest) in Em as [He ->]; [|done].
    intros [= <-]. destruct Hwf as (H1 & Hb1 & H2 & Hb2 & Hr).
    unfold as_wf in *. simpl in *. split; [|split].
    + split; [unfold as_wf; simpl; lia|]. split; [|done]. exact Hb2.
    + intros x. repeat case_decide; as_unfold; done || lia.
    + intros b Hb p [-> | Hp]%elem_of_cons; [apply (Hb (as1, p2)); by left|].
      apply Hb. right. by right.
  - destruct (defrag_step _) as [tl'|] eqn:Es; [|done]. intros [= <-].
    destruct Hwf as (H1 & Hb1 & Hr).
    destruct (IH tl' Hr eq_refl) as (Hwf' & Hlk & Hlow). split; [|split].
    + split; [done|]. split; [|done]. intros q Hq. apply (Hlow (mEndAddress as1)); [|done].
      exact Hb1.
    + intros x. rewrite !(pc_lookup_cons as1 p1), Hlk. done.
    + intros b Hb p [-> | Hp]%elem_of_cons; [apply (Hb (as1, p1)); by left|].
      apply Hlow; [|done]. intros q Hq. apply Hb. by right.
Qed.

Lemma defrag_fuel_spec fuel pc :
  pc_wf pc → (length pc ≤ fuel)%nat →
  pc_wf (defrag_fuel fuel pc) ∧ defragmented (defrag_fuel fuel pc) ∧
  ∀ x, pc_lookup (defrag_fuel fuel pc) x = pc_lookup pc x.
Proof.
  revert pc. induction fuel as [|fuel IH]; intros pc Hwf Hlen.
  - destruct pc; [done|simpl in Hlen; lia].
  - simpl. destruct (defrag_step pc) as [pc'|] eqn:Es; [|done].
    destruct (defrag_step_spec pc pc' Hwf Es) as (Hwf' & Hlk & _).
    apply defrag_step_length in Es.
    destruct (IH pc' Hwf' ltac:(lia)) as (? & ? & Hlk'). split; [done|]. split; [done|].
    intros x. by rewrite Hlk', Hlk.
Qed.

Lemma defrag_spec pc :
  pc_wf pc → pc_wf (defrag pc) ∧ defragmented (defrag pc) ∧
  ∀ x, pc_lookup (defrag pc) x = pc_lookup pc x.
Proof. intros Hwf. by apply defrag_fuel_spec. Qed.

(** ** Canonicity *)

Lemma pc_lookup_below pc x :
  (∀ p, p ∈ pc → x < mBaseAddress p.1) → pc_lookup pc x = None.
Proof. intros Hx. apply pc_lookup_None. intros p Hp. specialize (Hx p Hp). as_unfold. lia. Qed.

Lemma pc_lookup_head a (v : A) pc : as_wf a → pc_lookup ((a, v) :: pc) (mBaseAddress a) = Some v.
Proof. intros Ha. simpl. by rewrite decide_True by by apply as_wf_base. Qed.

Lemma defragmented_tail p pc : defragmented (p :: pc) → defragmented pc.
Proof.
  unfold defragmented. destruct p as [a v], pc as [|[b w] pc]; [done|].
  rewrite defrag_step_cons2. case_match; [done|]. by destruct (defrag_step _).
Qed.

(** In a defragmented container the address after an entry has another value. *)
Lemma defragmented_after a (v : A) pc :
  pc_wf ((a, v) :: pc) → defragmented ((a, v) :: pc) →
  pc_lookup pc (mEndAddress a + 1) ≠ Some v.
Proof.
  intros Hwf Hd Hl. pose proof Hwf as (Ha & Hb & Hpc).
  destruct pc as [|[b w] pc]; [done|]. rewrite pc_lookup_cons in Hl.
  unfold defragmented in Hd. rewrite defrag_step_cons2 in Hd.
  destruct (bool_decide _ && _) eqn:Em; [done|].
  apply not_true_iff_false in Em. rewrite (mergeable_spec _ _ _ _ pc) in Em by done.
  specialize (Hb (b, w) (list_elem_of_here _ _)). unfold before in Hb. simpl in Hb.
  destruct (decide (mEndAddress a + 1 ∈ b)) as [Hin|Hin].
  - apply Em. split; [as_unfold; lia|congruence].
  - destruct Hpc as (Hbw & Hbb & Hpc). rewrite pc_lookup_below in Hl; [done|].
    intros p Hp. specialize (Hbb p Hp). unfold before, as_wf in *. simpl in *. lia.
Qed.

(** Equal functions have equal first entries. *)
Lemma canonical_head a (v : A) pc1 b w pc2 :
  pc_wf ((a, v) :: pc1) → pc_wf ((b, w) :: pc2) →
  defragmented ((a, v) :: pc1) → defragmented ((b, w) :: pc2) →
  (∀ x, pc_lookup ((a, v) :: pc1) x = pc_lookup ((b, w) :: pc2) x) →
  mBaseAddress b ≤ mBaseAddress a ∧
  (mBaseAddress a = mBaseAddress b → v = w ∧ mEndAddress b ≤ mEndAddress a).
Proof.
  intros (Ha & Hb1 & Hw1) (Hb & Hb2 & Hw2) Hd1 Hd2 Heq.
  pose proof (pc_lookup_head a v pc1 Ha) as Hha. rewrite Heq in Hha. split.
  - destruct (decide (mBaseAddress b ≤ mBaseAddress a)); [done|].
    rewrite pc_lookup_below in Hha; [done|]. intros p [-> | Hp]%elem_of_cons; simpl; [lia|].
    specialize (Hb2 p Hp). unfold before, as_wf in *. simpl in *. lia.
  - intros He. rewrite He, pc_lookup_head in Hha by done. injection Hha as ->.
    split; [done|]. destruct (decide (mEndAddress b ≤ mEndAddress a)); [done|]. exfalso.
    apply (defragmented_after a v pc1); [by split|done|].
    specialize (Heq (mEndAddress a + 1)). rewrite !pc_lookup_cons in Heq.
    unfold as_wf in *. simpl in *.
    rewrite decide_False in Heq by (as_unfold; lia).
    rewrite decide_True in Heq by (as_unfold; lia). done.
Qed.

Lemma canonical pc1 pc2 :
  pc_wf pc1 → pc_wf pc2 → defragmented pc1 → defragmented pc2 →
  (∀ x, pc_lookup pc1 x = pc_lookup pc2 x) → pc1 = pc2.
Proof.
  revert pc2. induction pc1 as [|[a v] pc1 IH]; intros [|[b w] pc2] Hw1 Hw2 Hd1 Hd2 Heq; [done|..].
  - specialize (Heq (mBaseAddress b)). rewrite pc_lookup_head in Heq; [done|apply Hw2].
  - specialize (Heq (mBaseAddress a)). rewrite pc_lookup_head in Heq; [done|apply Hw1].
  - destruct (canonical_head a v pc1 b w pc2) as [Hl1 Hs1]; [done..|].
    destruct (canonical_head b w pc2 a v pc1) as [Hl2 Hs2]; [done..|].
    destruct Hs1 as [<- He1]; [lia|]. destruct Hs2 as [_ He2]; [lia|].
    assert (a = b) as <- by (destruct a, b; simpl in *; f_equal; lia).
    f_equal. apply IH; [apply Hw1|apply Hw2|by eapply defragmented_tail..|].
    intros x. specialize (Heq x). rewrite !pc_lookup_cons in Heq. case_decide as Hx; [|done].
    destruct Hw1 as (Hwa & Hb1 & _), Hw2 as (_ & Hb2 & _).
    rewrite !pc_lookup_below; [done|..]; intros p Hp;
      [specialize (Hb2 p Hp)|specialize (Hb1 p Hp)]; unfold before in *; as_unfold; lia.
Qed.

Lemma pc_equal_spec pc1 pc2 : pc_equal pc1 pc2 = true ↔ pc1 = pc2.
Proof.
  revert pc2. induction pc1 as [|[a v] pc1 IH]; intros [|[b w] pc2]; simpl; [done..|].
  unfold as_eq. destruct a as [b1 e1], b as [b2 e2]; simpl.
  case_bool_decide as Hab; simpl.
  - destruct (mp_eq v w) eqn:Hm; simpl.
    + rewrite IH. apply mp_eq_spec in Hm. naive_solver.
    + split; [done|]. intros [= -> -> -> ->]. assert (mp_eq w w = true) by by apply mp_eq_spec.
      congruence.
  - split; [done|]. intros [= -> -> -> ->]. by destruct Hab.
Qed.
End defrag.

Lemma getParameterValue_lookup {A} (dflt : A) pc addr :
  getParameterValue dflt pc addr = default dflt (pc_lookup pc addr).
Proof.
  induction pc as [|[a v] pc IH]; simpl; [done|].
  case_bool_decide; case_decide; try done; as_unfold; lia.
Qed.

(** ** Theorems *)

(** C6: setting a parameter over a space in a well-formed container terminates
    within the fuel used, keeps the container well-formed (sorted, disjoint), and is
    the point-wise update: every address of the space gets the new value, combined
    by [pick] with the value it had, and every other address keeps its value. *)
Theorem pc_set_refines {A : Type} (pick : A → A → A) pc as' v (Hpc : pc_wf pc) (Has : as_wf as') :
  ∃ pc', pc_set pick pc as' v = Some pc' ∧ pc_wf pc' ∧
    ∀ x, pc_lookup pc' x = updated pick as' v (pc_lookup pc) x.
Proof.
  destruct (helper_sets pick (helper_fuel pc) pc as' v) as (pc' & E & Hwf & Hlk & _);
    [done..| |by exists pc'].
  unfold helper_fuel. pose proof (cnt_le_length as' pc). lia.
Qed.

Lemma pc_set_refines_witness :
  ∃ pc', pc_set (fun _ n => n) [(mkAddrSpace 0 9, BT_ENABLED); (mkAddrSpace 20 29, BT_ENABLED)]
           (mkAddrSpace 5 24) BT_DISABLED = Some pc' ∧ pc_wf pc' ∧
    ∀ x, pc_lookup pc' x = updated (fun _ n => n) (mkAddrSpace 5 24) BT_DISABLED
      (pc_lookup [(mkAddrSpace 0 9, BT_ENABLED); (mkAddrSpace 20 29, BT_ENABLED)]) x.
Proof.
  apply (pc_set_refines (fun _ n => n)); [|unfold as_wf; simpl; lia].
  simpl. unfold as_wf, before. simpl.
  split; [lia|]. split; [|split; [lia|]; split; [|done]].
  - intros q ->%list_elem_of_singleton. simpl. lia.
  - intros q Hq. by apply elem_of_nil in Hq.
Defined.

(** defragmentation keeps the function a well-formed container denotes and
    leaves no two neighbours that could still be merged. *)
Theorem defrag_preserves {A : Type} `{ModuleParameterLaws A} (pc : list (AddrSpace * A))
    (Hpc : pc_wf pc) :
  pc_wf (defrag pc) ∧ defrag_step (defrag pc) = None ∧
  (∀ dflt x, getParameterValue dflt (defrag pc) x = getParameterValue dflt pc x).
Proof.
  destruct (defrag_spec pc Hpc) as (? & ? & Hlk). split; [done|]. split; [done|].
  intros dflt x. by rewrite !getParameterValue_lookup, Hlk.
Qed.

Lemma defrag_preserves_witness :
  defrag [(mkAddrSpace 0 9, BT_ENABLED); (mkAddrSpace 10 29, BT_ENABLED)] =
    [(mkAddrSpace 0 29, BT_ENABLED)] ∧
  pc_wf (defrag [(mkAddrSpace 0 9, BT_ENABLED); (mkAddrSpace 10 29, BT_ENABLED)]).
Proof.
  split; [vm_compute; reflexivity|].
  apply (defrag_preserves [(mkAddrSpace 0 9, BT_ENABLED); (mkAddrSpace 10 29, BT_ENABLED)]).
  simpl. unfold as_wf, before. simpl.
  split; [lia|]. split; [|split; [lia|]; split; [|done]].
  - intros q ->%list_elem_of_singleton. simpl. lia.
  - intros q Hq. by apply elem_of_nil in Hq.
Defined.

(** the representation is unique: two well-formed containers have equal
    defragmented forms, which the equality operator tests entry by entry, exactly
    when they give every address the same parameter. *)
Theorem defrag_canonical {A : Type} `{ModuleParameterLaws A} (pc1 pc2 : list (AddrSpace * A))
    (H1 : pc_wf pc1) (H2 : pc_wf pc2) :
  pc_equal (defrag pc1) (defrag pc2) = true ↔ ∀ x, pc_lookup pc1 x = pc_lookup pc2 x.
Proof.
  destruct (defrag_spec pc1 H1) as (? & ? & Hlk1), (defrag_spec pc2 H2) as (? & ? & Hlk2).
  rewrite pc_equal_spec. split.
  - intros Heq x. by rewrite <- Hlk1, <- Hlk2, Heq.
  - intros Heq. apply canonical; [done..|]. intros x. by rewrite Hlk1, Hlk2.
Qed.

Lemma defrag_canonical_witness :
  pc_equal (defrag [(mkAddrSpace 0 9, BT_ENABLED)]) (defrag [(mkAddrSpace 0 9, BT_ENABLED)]) = true.
Proof.
  apply (defrag_canonical [(mkAddrSpace 0 9, BT_ENABLED)] [(mkAddrSpace 0 9, BT_ENABLED)]);
    try done; simpl; unfold as_wf; simpl; (split; [lia|]; split; [|done]);
    intros q Hq; by apply elem_of_nil in Hq.
Defined.
