(* ===== verification/ParameterSet.v ===== *)
(** * Parameter sets ([core/vpsimModule/parameterSet.cpp], [parameterSetModifier.cpp])

    A [ParameterSet] holds one container per kind of parameter.  This file models
    its public operations (set, merge, export, trim, compare, query) and the
    address translation of parameter sets, on top of [ParamContainer].  The type of
    traversal rates and the product of a delay and a rate are SystemC's
    ([sc_time * double]) and are arguments of the model. *)

From S2P Require Import Prelude AddrSpace ModuleParams ParamContainer.

(** ** Definitions *)

Section definitions.
Context {rate : Type}.
(** [sc_time operator* (sc_time, double)]. *)
Context (sc_time_scale : ApproximateDelay → rate → ApproximateDelay).

Record ParameterSet := mkParameterSet {
  mBlockingTLMEnabledParameter : list (AddrSpace * BlockingTLMEnabled);
  mApproximateDelayParameter : list (AddrSpace * ApproximateDelay);
  mApproximateTraversalRateParameter : list (AddrSpace * ApproximateTraversalRate rate)
}.

Definition emptyParameterSet : ParameterSet := mkParameterSet [] [] [].

(** The dynamic type of a [ModuleParameter]. *)
Inductive AnyParameter :=
  | ABlocking (p : BlockingTLMEnabled)
  | ADelay (p : ApproximateDelay)
  | ARate (p : ApproximateTraversalRate rate).

Definition pick_new {A} (_ newMp : A) : A := newMp.

(** [None] would mean that the recursion of the insertion did not end. *)
Definition setParameter (as' : AddrSpace) (param : AnyParameter) (ps : ParameterSet) :
    option ParameterSet :=
  let '(mkParameterSet bt dl tr) := ps in
  match param with
  | ABlocking p => bt' ← pc_set pick_new bt as' p; Some (mkParameterSet bt' dl tr)
  | ADelay p => dl' ← pc_set pick_new dl as' p; Some (mkParameterSet bt dl' tr)
  | ARate p => tr' ← pc_set pick_new tr as' p; Some (mkParameterSet bt dl tr')
  end.

(** The local [helper] of [mergeImportedParam] and [addExportedParam]. *)
Definition import_into {A} `{ModuleParameter A} (pick : A → A → A)
    (from to : list (AddrSpace * A)) : option (list (AddrSpace * A)) :=
  to' ← foldM_pc (fun pc p => pc_set pick pc p.1 p.2) to from; Some (defrag to').

Definition mergeImportedParam (importedParam this : ParameterSet) : option ParameterSet :=
  bt ← import_into (cpp_max mp_lt) (mBlockingTLMEnabledParameter importedParam)
         (mBlockingTLMEnabledParameter this);
  dl ← import_into (cpp_max mp_lt) (mApproximateDelayParameter importedParam)
         (mApproximateDelayParameter this);
  Some (mkParameterSet bt dl (mApproximateTraversalRateParameter this)).

(** [newDelaysHelper]: the entries it appends for one delay. *)
Fixpoint newDelaysHelper (fuel : nat) (trRates : list (AddrSpace * ApproximateTraversalRate rate))
    (as' : AddrSpace) (d : ApproximateDelay) : option (list (AddrSpace * ApproximateDelay)) :=
  match fuel with
  | O => None
  | S fuel =>
      match first_conflict as' trRates with
      | Some (_, (trAs, tr), _) =>
          foldM_pc (fun l oas => l' ← newDelaysHelper fuel trRates oas d; Some (l ++ l'))
            [(intersection as' trAs, sc_time_scale d (mRate tr))]
            (relativeComplement as' trAs)
      | None => Some [(as', d)]
      end
  end.

Definition addExportedParam (exportedParam this : ParameterSet) : option ParameterSet :=
  bt ← import_into bt_add (mBlockingTLMEnabledParameter exportedParam)
         (mBlockingTLMEnabledParameter this);
  let trRates := mApproximateTraversalRateParameter exportedParam in
  newDelays ← foldM_pc
    (fun l d => l' ← newDelaysHelper (S (length trRates)) trRates d.1 d.2; Some (l ++ l'))
    [] (mApproximateDelayParameter this);
  let newDelays := defrag (sort_container newDelays) in
  dl ← import_into delay_add (mApproximateDelayParameter exportedParam) newDelays;
  Some (mkParameterSet bt dl (mApproximateTraversalRateParameter this)).

(** One entry of [trim]: the loop over the sorted restriction set, with its break. *)
Fixpoint trim_entry {A} (p : AddrSpace * A) (restriction : list AddrSpace) : list (AddrSpace * A) :=
  match restriction with
  | [] => []
  | as' :: r =>
      if intersect p.1 as' then (intersection p.1 as', p.2) :: trim_entry p r
      else if bool_decide (mEndAddress p.1 < mBaseAddress as') then []
      else trim_entry p r
  end.

Definition trim_container {A} `{ModuleParameter A} (restriction : list AddrSpace)
    (pc : list (AddrSpace * A)) : list (AddrSpace * A) :=
  defrag (sort_container (flat_map (fun p => trim_entry p restriction) pc)).

(** [trim]; the rate container is compared with the comparisons of [double]. *)
Definition trim `{ModuleParameter (ApproximateTraversalRate rate)}
    (restriction : list AddrSpace) (ps : ParameterSet) : ParameterSet :=
  mkParameterSet (trim_container restriction (mBlockingTLMEnabledParameter ps))
    (trim_container restriction (mApproximateDelayParameter ps))
    (trim_container restriction (mApproximateTraversalRateParameter ps)).

Definition ps_equal `{ModuleParameter (ApproximateTraversalRate rate)} (a b : ParameterSet) : bool :=
  pc_equal (mBlockingTLMEnabledParameter a) (mBlockingTLMEnabledParameter b) &&
  pc_equal (mApproximateDelayParameter a) (mApproximateDelayParameter b) &&
  pc_equal (mApproximateTraversalRateParameter a) (mApproximateTraversalRateParameter b).

Definition getBlockingTLMEnabledParameter (dflt : BlockingTLMEnabled) (ps : ParameterSet) (addr : Z) :
    BlockingTLMEnabled :=
  getParameterValue dflt (mBlockingTLMEnabledParameter ps) addr.

Definition getApproximateDelayParameter (dflt : ApproximateDelay) (ps : ParameterSet) (addr : Z) :
    ApproximateDelay :=
  getParameterValue dflt (mApproximateDelayParameter ps) addr.
End definitions.
Arguments ParameterSet rate : clear implicits.
Arguments AnyParameter rate : clear implicits.

(** [getParameterValForAddrSpace]: the iterator [p] is the suffix of the container
    it points to; [++p] is evaluated once per piece of the complement, and
    incrementing the end iterator is undefined. *)
Fixpoint valForAddrSpace (dflt : BlockingTLMEnabled) (p : list (AddrSpace * BlockingTLMEnabled))
    (as' : AddrSpace) : result BlockingTLMEnabled :=
  match p with
  | [] => Ok dflt
  | (a, v) :: tl =>
      if intersect as' a then
        let acc := bt_add BT_DISABLED v in
        if bt_to_bool acc then Ok acc
        else
          match relativeComplement as' a with
          | [] => Ok acc
          | o1 :: more =>
              result_bind (valForAddrSpace dflt tl o1) (fun r1 =>
              let acc := bt_add acc r1 in
              match more with
              | [] => Ok acc
              | o2 :: _ =>
                  match tl with
                  | [] => Err (UndefinedBehaviour "increment of the end iterator")
                  | _ :: tl' =>
                      result_bind (valForAddrSpace dflt tl' o2) (fun r2 => Ok (bt_add acc r2))
                  end
              end)
          end
      else if bool_decide (mEndAddress as' < mBaseAddress a) then Ok dflt
      else valForAddrSpace dflt tl as'
  end.

(** ** Modifiers

    A [ParameterSetModifier] is a chain: the object and its previous modifiers. *)

Inductive modifier_step :=
  | IdentityModifier
  | AddressTranslator (mOffset : Z) (mPositiveOffset : bool).

Abbreviation modifier := (list modifier_step).

(** The new bounds of one translated space, or the thrown overflow. *)
Definition translate_space (mOffset : Z) (mPositiveOffset : bool) (a : AddrSpace) : result AddrSpace :=
  let newBase := if mPositiveOffset then u64 (mBaseAddress a - mOffset)
                 else u64 (mBaseAddress a + mOffset) in
  let newEnd := if mPositiveOffset then u64 (mEndAddress a - mOffset)
                else u64 (mEndAddress a + mOffset) in
  if (mPositiveOffset && bool_decide (mBaseAddress a < newBase)) ||
     (negb mPositiveOffset && bool_decide (newBase < mBaseAddress a)) ||
     (mPositiveOffset && bool_decide (mEndAddress a < newEnd)) ||
     (negb mPositiveOffset && bool_decide (newEnd < mEndAddress a))
  then Err (Throw "ERROR: Translation caused an overflow.")
  else Ok (mkAddrSpace newBase newEnd).

Fixpoint translate_container {A} (mOffset : Z) (mPositiveOffset : bool)
    (ps : list (AddrSpace * A)) : result (list (AddrSpace * A)) :=
  match ps with
  | [] => Ok []
  | (a, v) :: ps' =>
      result_bind (translate_space mOffset mPositiveOffset a) (fun a' =>
      result_bind (translate_container mOffset mPositiveOffset ps') (fun r => Ok ((a', v) :: r)))
  end.

Definition applyNonRecursive {rate} (m : modifier_step) (ps : ParameterSet rate) :
    result (ParameterSet rate) :=
  match m with
  | IdentityModifier => Ok ps
  | AddressTranslator off pos =>
      result_bind (translate_container off pos (mBlockingTLMEnabledParameter ps)) (fun bt =>
      result_bind (translate_container off pos (mApproximateDelayParameter ps)) (fun dl =>
      result_bind (translate_container off pos (mApproximateTraversalRateParameter ps)) (fun tr =>
      Ok (mkParameterSet bt dl tr))))
  end.

(** The previous modifiers are applied first. *)
Fixpoint applyModifier {rate} (m : modifier) (ps : ParameterSet rate) : result (ParameterSet rate) :=
  match m with
  | [] => Ok ps
  | s :: prev => result_bind (applyModifier prev ps) (applyNonRecursive s)
  end.

Definition attach (m ps : modifier) : modifier := m ++ ps.

(** ** Importing one container into another *)

(** The value at an address after importing [from] into [to]. *)
Definition combined {A} (pick : A → A → A) (from to : Z → option A) (x : Z) : option A :=
  match from x with
  | Some n => Some (match to x with Some o => pick o n | None => n end)
  | None => to x
  end.

Lemma pc_set_spec {A : Type} (pick : A → A → A) pc as' v :
  pc_wf pc → as_wf as' →
  ∃ pc', pc_set pick pc as' v = Some pc' ∧ pc_wf pc' ∧
    ∀ x, pc_lookup pc' x = updated pick as' v (pc_lookup pc) x.
Proof.
  intros Hpc Has.
  destruct (helper_sets pick (helper_fuel pc) pc as' v) as (pc' & E & Hwf & Hlk & _);
    [done..| |by exists pc'].
  unfold helper_fuel. pose proof (cnt_le_length as' pc). lia.
Qed.

Section import.
Context {A : Type} `{ModuleParameterLaws A} (pick : A → A → A).
Implicit Types (pc from to : list (AddrSpace * A)).

Lemma foldM_set_spec from to :
  pc_disj from → pc_wf to →
  ∃ r, foldM_pc (fun pc p => pc_set pick pc p.1 p.2) to from = Some r ∧ pc_wf r ∧
    ∀ x, pc_lookup r x = combined pick (pc_lookup from) (pc_lookup to) x.
Proof.
  revert to. induction from as [|[a v] from IH]; intros to Hfrom Hto; [by exists to|].
  destruct Hfrom as (Ha & Hd & Hfrom). cbn [foldM_pc fst snd].
  destruct (pc_set_spec pick to a v Hto Ha) as (to1 & -> & Hto1 & Hlk1).
  destruct (IH to1 Hfrom Hto1) as (r & -> & Hr & Hlk). exists r. split; [done|]. split; [done|].
  intros x. rewrite Hlk. unfold combined. rewrite Hlk1. unfold updated.
  rewrite pc_lookup_cons. case_decide as Hx; [|done].
  rewrite (proj2 (pc_lookup_None from x)); [done|].
  intros q Hq Hxq. exact (Hd q Hq x Hx Hxq).
Qed.

Lemma import_into_spec from to :
  pc_wf from → pc_wf to →
  ∃ r, import_into pick from to = Some r ∧ pc_wf r ∧ defragmented r ∧
    ∀ x, pc_lookup r x = combined pick (pc_lookup from) (pc_lookup to) x.
Proof.
  intros Hfrom Hto. destruct (foldM_set_spec from to) as (r & E & Hr & Hlk);
    [by apply pc_wf_disj|done|].
  destruct (defrag_spec r Hr) as (Hwf & Hdf & Hlk'). exists (defrag r).
  unfold import_into. rewrite E. split; [done|]. split; [done|]. split; [done|].
  intros x. by rewrite Hlk', Hlk.
Qed.
End import.

(** ** Splitting delays by traversal rates *)

(** [l] gives [f x] to the addresses of [b] and nothing elsewhere. *)
Definition covers {V} (l : list (AddrSpace * V)) (b : AddrSpace) (f : Z → V) : Prop :=
  pc_disj l ∧ ∀ x, pc_lookup l x = if decide (x ∈ b) then Some (f x) else None.

Lemma covers_subset {V} (l : list (AddrSpace * V)) b f p :
  covers l b f → p ∈ l → ∀ x, x ∈ p.1 → x ∈ b.
Proof.
  intros [Hd Hlk] Hp x Hx. specialize (Hlk x). case_decide as Hb; [done|].
  rewrite pc_lookup_None in Hlk. by destruct (Hlk p Hp).
Qed.

(** Appending the covers of disjoint spaces [sp b] for [b] in [L]. *)
Lemma foldM_append {B V} (sp : B → AddrSpace) (f : B → Z → V)
    (g : B → option (list (AddrSpace * V))) (L : list B) (acc : list (AddrSpace * V)) :
  pc_disj acc → pc_disj ((fun b => (sp b, b)) <$> L) →
  (∀ b, b ∈ L → ∃ l, g b = Some l ∧ covers l (sp b) (f b)) →
  (∀ b p, b ∈ L → p ∈ acc → as_disjoint p.1 (sp b)) →
  ∃ r, foldM_pc (fun l b => l' ← g b; Some (l ++ l')) acc L = Some r ∧ pc_disj r ∧
    (∀ x b, b ∈ L → x ∈ sp b → pc_lookup r x = Some (f b x)) ∧
    (∀ x, (∀ b, b ∈ L → x ∉ sp b) → pc_lookup r x = pc_lookup acc x).
Proof.
  revert acc. induction L as [|b L IH]; intros acc Hacc HL Hg Hdj.
  { exists acc. split; [done|]. split; [done|]. split; [|done].
    intros x b Hb. by apply elem_of_nil in Hb. }
  destruct HL as (Hb & HbL & HL). simpl in Hb.
  destruct (Hg b) as (l & Egb & Hcov); [by left|]. cbn [foldM_pc]. rewrite Egb. simpl.
  destruct (IH (acc ++ l)) as (r & Er & Hr & Hin & Hout); [|done| | |].
  - apply pc_disj_app. split; [done|]. split; [apply Hcov|]. intros p q Hp Hq x Hx Hxq.
    apply (Hdj b p (list_elem_of_here _ _) Hp x Hx). by apply (covers_subset l _ _ q Hcov).
  - intros c Hc. apply Hg. by right.
  - intros c p Hc [Hp|Hp]%elem_of_app; [apply (Hdj c p); [by right|done]|].
    intros x Hx Hxc.
    apply (HbL (sp c, c)) with (x := x); [|by apply (covers_subset l _ _ p Hcov)|done].
    apply list_elem_of_fmap. eauto.
  - exists r. split; [done|]. split; [done|]. split.
    + intros x c [-> | Hc]%elem_of_cons Hx; [|by apply Hin].
      rewrite Hout, pc_lookup_app.
      * rewrite (proj2 (pc_lookup_None acc x)).
        -- destruct Hcov as [_ ->]. by rewrite decide_True.
        -- intros p Hp Hxp. exact (Hdj b p (list_elem_of_here _ _) Hp x Hxp Hx).
      * intros c Hc Hxc. apply (HbL (sp c, c)) with (x := x); [|done|done].
        apply list_elem_of_fmap. eauto.
    + intros x Hx. rewrite Hout, pc_lookup_app; [|intros c Hc; apply Hx; by right].
      destruct Hcov as [_ ->]. rewrite decide_False by (apply Hx; by left).
      by destruct (pc_lookup acc x).
Qed.

Section delays.
Context {rate : Type} (scale : ApproximateDelay → rate → ApproximateDelay).
Implicit Types (tr : list (AddrSpace * ApproximateTraversalRate rate)).

(** The delay of an address once its traversal rate, if any, is applied. *)
Definition scaled tr (d : ApproximateDelay) (x : Z) : ApproximateDelay :=
  match pc_lookup tr x with Some r => scale d (mRate r) | None => d end.

Lemma pc_disj_spaces (L : list AddrSpace) :
  pc_disj ((fun b => (b, b)) <$> L) ↔ pc_disj (tagged BT_ENABLED L).
Proof.
  induction L as [|b L IH]; [done|]. simpl. rewrite IH.
  assert ((∀ q : AddrSpace * AddrSpace, q ∈ (fun b => (b, b)) <$> L → as_disjoint b q.1) ↔
          (∀ q : AddrSpace * BlockingTLMEnabled, q ∈ tagged BT_ENABLED L → as_disjoint b q.1)) as ->;
    [|done].
  unfold tagged. setoid_rewrite list_elem_of_fmap. split.
  - intros Hd q (c & -> & Hc). apply (Hd (c, c)). eauto.
  - intros Hd q (c & -> & Hc). apply (Hd (c, BT_ENABLED)). eauto.
Qed.

Lemma newDelaysHelper_spec fuel tr as' d :
  pc_wf tr → as_wf as' → (cnt as' tr < fuel)%nat →
  ∃ l, newDelaysHelper scale fuel tr as' d = Some l ∧ covers l as' (scaled tr d).
Proof.
  intros Htr. revert as'. induction fuel as [|fuel IH]; intros as' Has Hfuel; [lia|].
  cbn [newDelaysHelper]. destruct (first_conflict as' tr) as [[[pre [a r]] post]|] eqn:E.
  - apply first_conflict_Some in E as (Hsplit & Hm). simpl in Hm.
    assert ((a, r) ∈ tr) as Hin by (subst; apply elem_of_app; right; left).
    assert (as_wf a) as Ha by by apply (pc_wf_Forall tr (a, r)).
    rewrite intersect_comm in Hm.
    assert (∀ x, x ∈ a → scaled tr d x = scale d (mRate r)) as Hscale.
    { intros x Hx. unfold scaled. rewrite (proj2 (pc_lookup_Some tr x r ltac:(by apply pc_wf_disj)));
        eauto. }
    destruct (relativeComplement_exact_pieces as' a Has Ha Hm) as (Hwf & Hpc).
    destruct (foldM_append id (fun _ => scaled tr d) (fun b => newDelaysHelper scale fuel tr b d)
      (relativeComplement as' a) [(intersection as' a, scale d (mRate r))])
      as (l & El & Hl & Hil & Hol).
    + split; [by apply intersection_wf|]. split; [|done].
      intros q Hq. by apply elem_of_nil in Hq.
    + apply pc_disj_spaces. by apply relativeComplement_disj.
    + intros b Hb. change (id b) with b. apply IH; [by apply Hwf|].
      assert (cnt b tr < cnt as' tr)%nat; [|lia].
      rewrite Hsplit, !cnt_app, !cnt_cons. simpl.
      assert (intersect a b = false) as ->.
      { apply intersect_false; [done|by apply Hwf|]. intros x Hx Hxb.
        by destruct (Hpc b Hb x Hxb). }
      rewrite (intersect_comm a as'), Hm. pose proof (pc_wf_disj _ Htr) as Hdj.
      rewrite Hsplit in Hdj. apply pc_disj_app in Hdj as (Hd1 & (_ & _ & Hd2) & _).
      assert (∀ x, x ∈ b → x ∈ as') as Hsub by (intros x Hx; apply (Hpc b Hb x Hx)).
      pose proof (cnt_subspace b as' pre Hd1 (Hwf b Hb) Has Hsub).
      pose proof (cnt_subspace b as' post Hd2 (Hwf b Hb) Has Hsub).
      simpl in *. lia.
    + intros b p Hb ->%list_elem_of_singleton x Hx Hxb. simpl in Hx.
      rewrite elem_of_intersection in Hx by done. destruct (Hpc b Hb x Hxb). naive_solver.
    + exists l. split; [exact El|]. split; [done|]. intros x.
      pose proof (elem_of_relativeComplement as' a x Has Ha Hm) as Hrc.
      destruct (decide (x ∈ as')) as [Hx|Hx]; [destruct (decide (x ∈ a)) as [Hxa|Hxa]|].
      * rewrite Hol; [|intros b Hb Hxb; by destruct (Hpc b Hb x Hxb)].
        simpl. rewrite decide_True by (by apply elem_of_intersection). by rewrite Hscale.
      * destruct (proj2 Hrc) as (b & Hb & Hxb); [done|]. by rewrite (Hil x b).
      * rewrite Hol; [|intros b Hb Hxb; by destruct (Hpc b Hb x Hxb)].
        simpl. rewrite decide_False; [done|]. by rewrite elem_of_intersection by done; intros [].
  - rewrite first_conflict_None in E. eexists. split; [done|]. split.
    + split; [done|]. split; [|done]. intros q Hq. by apply elem_of_nil in Hq.
    + intros x. simpl. case_decide as Hx; [|done]. unfold scaled.
      rewrite (proj2 (pc_lookup_None tr x)); [done|]. intros p Hp Hxp.
      specialize (E p Hp). apply intersect_false in E; [|by apply (pc_wf_Forall tr)|done].
      exact (E x Hxp Hx).
Qed.
End delays.

(** ** Trimming *)

Section trim.
Context {A : Type} `{ModuleParameterLaws A}.
Implicit Types (pc : list (AddrSpace * A)) (R : list AddrSpace).

Lemma trim_entry_spec (p : AddrSpace * A) R :
  as_wf p.1 → pc_wf (tagged BT_ENABLED R) →
  pc_disj (trim_entry p R) ∧
  (∀ q, q ∈ trim_entry p R → q.2 = p.2 ∧ (∃ b, b ∈ R ∧ ∀ x, x ∈ q.1 → x ∈ p.1 ∧ x ∈ b)) ∧
  (∀ x b, b ∈ R → x ∈ b → x ∈ p.1 → pc_lookup (trim_entry p R) x = Some p.2).
Proof.
  intros Hp. induction R as [|b R IH]; simpl; intros HR.
  { split; [done|]. split; [intros q Hq; by apply elem_of_nil in Hq|].
    intros x b Hb. by apply elem_of_nil in Hb. }
  destruct HR as (Hb & HbR & HR). simpl in Hb. destruct (IH HR) as (Hd & Hsub & Hlk).
  assert (∀ c, c ∈ R → mEndAddress b < mBaseAddress c) as Hord.
  { intros c Hc. apply (HbR (c, BT_ENABLED)). by apply elem_of_tagged. }
  destruct (intersect p.1 b) eqn:Hm; [|case_bool_decide as Hbreak].
  - split; [|split].
    + simpl. split; [by apply intersection_wf|]. split; [|done]. intros q Hq x Hx Hxq.
      destruct (Hsub q Hq) as (_ & c & Hc & Hqc). specialize (Hord c Hc).
      rewrite elem_of_intersection in Hx by done. destruct (Hqc x Hxq). as_unfold. lia.
    + intros q [-> | Hq]%elem_of_cons; simpl.
      * split; [done|]. exists b. split; [left|]. intros x. by rewrite elem_of_intersection by done.
      * destruct (Hsub q Hq) as (? & c & Hc & Hqc). split; [done|]. exists c. split; [by right|done].
    + intros x c [-> | Hc]%elem_of_cons Hxc Hxp; simpl.
      * by rewrite decide_True by by apply elem_of_intersection.
      * case_decide; [done|]. by apply (Hlk x c).
  - split; [done|]. split; [intros q Hq; by apply elem_of_nil in Hq|].
    intros x c [-> | Hc]%elem_of_cons Hxc Hxp; exfalso; [|specialize (Hord c Hc)];
      as_unfold; lia.
  - split; [done|]. split.
    + intros q Hq. destruct (Hsub q Hq) as (? & c & Hc & Hqc). split; [done|].
      exists c. split; [by right|done].
    + intros x c [-> | Hc]%elem_of_cons Hxc Hxp; [|by apply (Hlk x c)].
      apply intersect_false in Hm; [|done..]. by destruct (Hm x Hxp Hxc).
Qed.

Lemma trim_flat_map pc R :
  pc_disj pc → pc_wf (tagged BT_ENABLED R) →
  pc_disj (flat_map (fun p => trim_entry p R) pc) ∧
  (∀ x b, b ∈ R → x ∈ b →
     pc_lookup (flat_map (fun p => trim_entry p R) pc) x = pc_lookup pc x) ∧
  (∀ x, (∀ b, b ∈ R → x ∉ b) →
     pc_lookup (flat_map (fun p => trim_entry p R) pc) x = None) ∧
  (∀ q, q ∈ flat_map (fun p => trim_entry p R) pc → ∃ p, p ∈ pc ∧ ∀ x, x ∈ q.1 → x ∈ p.1).
Proof.
  intros Hpc HR. induction pc as [|p pc IH]; simpl.
  { split; [done|]. split; [done|]. split; [done|]. intros q Hq. by apply elem_of_nil in Hq. }
  destruct Hpc as (Hp & Hpd & Hpc). destruct (IH Hpc) as (Hd & Hin & Hout & Hsub).
  destruct (trim_entry_spec p R Hp HR) as (Hed & Hesub & Helk). split; [|split; [|split]].
  - apply pc_disj_app. split; [done|]. split; [done|]. intros q r Hq Hr x Hx Hxr.
    destruct (Hesub q Hq) as (_ & b & _ & Hqb). destruct (Hsub r Hr) as (p' & Hp' & Hrp).
    apply (Hpd p' Hp' x); [by apply (Hqb x)|by apply Hrp].
  - intros x b Hb Hx. rewrite pc_lookup_app. destruct p as [a v].
    case_decide as Hxa; [by rewrite (Helk x b)|]. rewrite (proj2 (pc_lookup_None _ x)).
    + by apply (Hin x b).
    + intros q Hq Hxq. destruct (Hesub q Hq) as (_ & c & _ & Hqc). by destruct (Hqc x Hxq).
  - intros x Hx. rewrite pc_lookup_app, Hout by done. rewrite (proj2 (pc_lookup_None _ x)); [done|].
    intros q Hq Hxq. destruct (Hesub q Hq) as (_ & c & Hc & Hqc). by destruct (Hx c Hc), (Hqc x Hxq).
  - intros q [Hq|Hq]%elem_of_app.
    + destruct (Hesub q Hq) as (_ & c & Hc & Hqc). exists p. split; [left|].
      intros x Hx. apply (Hqc x Hx).
    + destruct (Hsub q Hq) as (p' & Hp' & Hqp). exists p'. split; [by right|done].
Qed.
End trim.

(** ** Translation *)

Lemma translate_space_Ok off (pos : bool) a a' :
  as_wf a → in_u64 off → translate_space off pos a = Ok a' →
  let d := if pos then - off else off in
  mBaseAddress a' = mBaseAddress a + d ∧ mEndAddress a' = mEndAddress a + d ∧ as_wf a'.
Proof.
  intros Ha Hoff. unfold translate_space, as_wf in *.
  destruct pos; simpl; repeat case_bool_decide; simpl; try done; intros [= <-]; simpl; u64_lia.
Qed.

Lemma translate_space_fails off (pos : bool) a :
  as_wf a → in_u64 off →
  is_ok (translate_space off pos a) = true ↔
  if pos then off ≤ mBaseAddress a else mEndAddress a + off < 2 ^ 64.
Proof.
  intros Ha Hoff. unfold translate_space, as_wf in *.
  destruct pos; simpl; repeat case_bool_decide; simpl; split; try done; u64_lia.
Qed.

Section translate.
Context {A : Type}.
Implicit Types (pc : list (AddrSpace * A)).

Lemma translate_container_Ok off (pos : bool) pc pc' :
  pc_wf pc → in_u64 off → translate_container off pos pc = Ok pc' →
  let d := if pos then - off else off in
  pc_wf pc' ∧ (∀ x, pc_lookup pc' (x + d) = pc_lookup pc x) ∧
  (∀ q, q ∈ pc' → ∃ p, p ∈ pc ∧ mBaseAddress q.1 = mBaseAddress p.1 + d).
Proof.
  intros Hpc Hoff. revert pc' Hpc.
  induction pc as [|[a v] pc IH]; intros pc' Hpc; simpl.
  { intros [= <-]. split; [done|]. split; [done|]. intros q Hq. by apply elem_of_nil in Hq. }
  destruct (translate_space off pos a) as [a'|] eqn:Ea; [|done]. simpl.
  destruct (translate_container off pos pc) as [r|] eqn:Er; [|done]. simpl. intros [= <-].
  destruct Hpc as (Ha & Hb & Hpc). destruct (IH r Hpc eq_refl) as (Hr & Hlk & Hq).
  destruct (translate_space_Ok off pos a a' Ha Hoff Ea) as (Hb' & He' & Ha').
  split; [|split].
  - split; [done|]. split; [|done]. intros q Hqr. destruct (Hq q Hqr) as (p & Hp & Hqp).
    specialize (Hb p Hp). unfold before in *. simpl in *. lia.
  - intros x. rewrite !pc_lookup_cons, Hlk. repeat case_decide; as_unfold; done || lia.
  - intros q [-> | Hqr]%elem_of_cons; [exists (a, v); split; [left|done]|].
    destruct (Hq q Hqr) as (p & Hp & Hqp). exists p. split; [by right|done].
Qed.

(** Translating down and then up again is the identity. *)
Lemma translate_container_roundtrip off (pos : bool) pc pc' :
  pc_wf pc → in_u64 off → translate_container off pos pc = Ok pc' →
  translate_container off (negb pos) pc' = Ok pc.
Proof.
  intros Hpc Hoff. revert pc' Hpc.
  induction pc as [|[a v] pc IH]; intros pc' Hpc; simpl; [by intros [= <-]|].
  destruct (translate_space off pos a) as [a'|] eqn:Ea; [|done]. simpl.
  destruct (translate_container off pos pc) as [r|] eqn:Er; [|done]. simpl. intros [= <-].
  destruct Hpc as (Ha & _ & Hpc). simpl. rewrite (IH r Hpc eq_refl). simpl.
  destruct (translate_space_Ok off pos a a' Ha Hoff Ea) as (Hb' & He' & Ha').
  destruct (translate_space off (negb pos) a') as [a''|] eqn:Ea'.
  - destruct (translate_space_Ok off (negb pos) a' a'' Ha' Hoff Ea') as (Hb'' & He'' & _).
    simpl. do 3 f_equal. destruct a, a''; simpl in *. f_equal; destruct pos; simpl in *; lia.
  - assert (is_ok (translate_space off (negb pos) a') = true) as Hok.
    { apply translate_space_fails; [done..|]. unfold as_wf in *. destruct pos; simpl in *; lia. }
    by rewrite Ea' in Hok.
Qed.
End translate.

Lemma applyModifier_attach {rate} (m1 m2 : modifier) (ps : ParameterSet rate) :
  applyModifier (attach m1 m2) ps = result_bind (applyModifier m2 ps) (applyModifier m1).
Proof.
  induction m1 as [|s m1 IH]; simpl; [by destruct (applyModifier m2 ps)|].
  rewrite IH. by destruct (applyModifier m2 ps).
Qed.

(** ** Theorems *)

Definition ps_wf {rate} (ps : ParameterSet rate) : Prop :=
  pc_wf (mBlockingTLMEnabledParameter ps) ∧ pc_wf (mApproximateDelayParameter ps) ∧
  pc_wf (mApproximateTraversalRateParameter ps).

(** A concrete parameter set for the examples below. *)
Definition ps_example : ParameterSet nat :=
  mkParameterSet [(mkAddrSpace 0 9, BT_DISABLED)] [(mkAddrSpace 0 19, mkDelay 40)]
    [(mkAddrSpace 5 14, mkRate 2%nat)].

Lemma pc_wf_singleton {A} b e (v : A) :
  0 ≤ b ≤ e → e < 2 ^ 64 → pc_wf [(mkAddrSpace b e, v)].
Proof.
  intros. simpl. unfold as_wf. simpl. split; [lia|]. split; [|done].
  intros q Hq. by apply elem_of_nil in Hq.
Qed.

Lemma ps_example_wf : ps_wf ps_example.
Proof. unfold ps_wf. simpl. split; [|split]; apply pc_wf_singleton; lia. Qed.

Lemma mergeImportedParam_lookup {rate} (imp this : ParameterSet rate)
    (Himp : ps_wf imp) (Hthis : ps_wf this) :
  ∃ r, mergeImportedParam imp this = Some r ∧ ps_wf r ∧
    (∀ x, pc_lookup (mBlockingTLMEnabledParameter r) x =
       combined bt_add (pc_lookup (mBlockingTLMEnabledParameter imp))
         (pc_lookup (mBlockingTLMEnabledParameter this)) x) ∧
    (∀ x, pc_lookup (mApproximateDelayParameter r) x =
       combined (fun a b => mkDelay (Z.min (mDelay a) (mDelay b)))
         (pc_lookup (mApproximateDelayParameter imp))
         (pc_lookup (mApproximateDelayParameter this)) x) ∧
    mApproximateTraversalRateParameter r = mApproximateTraversalRateParameter this.
Proof.
  destruct Himp as (Hib & Hid & Hir), Hthis as (Htb & Htd & Htr).
  destruct (import_into_spec (cpp_max mp_lt) _ _ Hib Htb) as (bt & Eb & Hbw & _ & Hb).
  destruct (import_into_spec (cpp_max mp_lt) _ _ Hid Htd) as (dl & Ed & Hdw & _ & Hd).
  unfold mergeImportedParam. rewrite Eb, Ed. eexists.
  split; [done|]. split; [done|]. split; [exact Hb|]. split; [|done].
  intros x. simpl. rewrite Hd. unfold combined. repeat case_match; try done. f_equal.
  unfold cpp_max, mp_lt. simpl. unfold delay_lt. destruct a0, a. simpl.
  case_bool_decide; f_equal; lia.
Qed.

(** C24: merging an imported parameter set always succeeds on well-formed sets; an
    address both sets define gets the most restrictive value (blocking if either
    blocks, the shorter delay), an address one set defines keeps that value, and the
    traversal rates do not propagate. *)
Theorem mergeImportedParam_spec {rate} (imp this : ParameterSet rate)
    (Himp : ps_wf imp) (Hthis : ps_wf this) :
  ∃ r, mergeImportedParam imp this = Some r ∧ ps_wf r ∧
    (∀ x, pc_lookup (mBlockingTLMEnabledParameter r) x =
       combined bt_add (pc_lookup (mBlockingTLMEnabledParameter imp))
         (pc_lookup (mBlockingTLMEnabledParameter this)) x) ∧
    (∀ x, pc_lookup (mApproximateDelayParameter r) x =
       combined (fun a b => mkDelay (Z.min (mDelay a) (mDelay b)))
         (pc_lookup (mApproximateDelayParameter imp))
         (pc_lookup (mApproximateDelayParameter this)) x) ∧
    mApproximateTraversalRateParameter r = mApproximateTraversalRateParameter this.
Proof. by apply mergeImportedParam_lookup. Qed.

Lemma mergeImportedParam_spec_witness :
  ps_wf ps_example ∧ ∃ r, mergeImportedParam ps_example ps_example = Some r ∧ ps_wf r.
Proof.
  split; [apply ps_example_wf|].
  destruct (mergeImportedParam_spec ps_example ps_example ps_example_wf ps_example_wf)
    as (r & E & Hr & _). exists r. split; [exact E|exact Hr].
Defined.

Lemma addExportedParam_lookup {rate} (scale : ApproximateDelay → rate → ApproximateDelay)
    (exp this : ParameterSet rate) (Hexp : ps_wf exp) (Hthis : ps_wf this) :
  ∃ r, addExportedParam scale exp this = Some r ∧ ps_wf r ∧
    (∀ x, pc_lookup (mBlockingTLMEnabledParameter r) x =
       combined bt_add (pc_lookup (mBlockingTLMEnabledParameter exp))
         (pc_lookup (mBlockingTLMEnabledParameter this)) x) ∧
    (∀ x, pc_lookup (mApproximateDelayParameter r) x =
       combined delay_add (pc_lookup (mApproximateDelayParameter exp))
         (fun x => d ← pc_lookup (mApproximateDelayParameter this) x;
            Some (scaled scale (mApproximateTraversalRateParameter exp) d x)) x).
Proof.
  destruct Hexp as (Heb & Hed & Her), Hthis as (Htb & Htd & Htr).
  destruct (import_into_spec bt_add _ _ Heb Htb) as (bt & Eb & Hbw & _ & Hb).
  set (rates := mApproximateTraversalRateParameter exp) in *.
  destruct (foldM_append fst (fun d => scaled scale rates d.2)
    (fun d => newDelaysHelper scale (S (length rates)) rates d.1 d.2)
    (mApproximateDelayParameter this) []) as (nd & End & Hnd & Hin & Hout);
    [done| | |by intros b p _ Hp; apply elem_of_nil in Hp|].
  { apply pc_wf_disj in Htd. revert Htd. clear.
    induction (mApproximateDelayParameter this) as [|p l IH]; simpl; [done|].
    intros (Hp & Hd & Hl). split; [done|]. split; [|by apply IH].
    intros q (d & -> & Hd')%list_elem_of_fmap. by apply Hd. }
  { intros d Hd. apply newDelaysHelper_spec; [done|by apply (pc_wf_Forall _ _ Htd)|].
    pose proof (cnt_le_length d.1 rates). lia. }
  destruct (defrag_spec (sort_container nd)) as (Hsw & _ & Hslk); [by apply sort_container_wf|].
  destruct (import_into_spec delay_add _ _ Hed Hsw) as (dl & Ed & Hdw & _ & Hd).
  unfold addExportedParam. fold rates. rewrite Eb, End. cbn [mbind option_bind]. rewrite Ed.
  eexists. split; [done|]. split; [done|]. split; [exact Hb|].
  intros x. simpl. rewrite Hd. unfold combined. rewrite Hslk.
  rewrite (pc_lookup_perm (sort_container nd) nd x (sort_container_perm nd)
    (pc_wf_disj _ (sort_container_wf _ Hnd))).
  assert (pc_lookup nd x = d ← pc_lookup (mApproximateDelayParameter this) x;
            Some (scaled scale rates d x)) as ->; [|done].
  destruct (pc_lookup (mApproximateDelayParameter this) x) as [d|] eqn:Ex; simpl.
  - apply pc_lookup_Some in Ex as (a & Ha & Hx); [|by apply pc_wf_disj]. by rewrite (Hin x (a, d)).
  - rewrite pc_lookup_None in Ex. rewrite Hout; [done|]. intros b. apply Ex.
Qed.

(** exporting through a module first multiplies every existing delay by the
    traversal rate of its address, then adds the module's own delays, and takes the
    maximum of the blocking parameters; it succeeds on every well-formed pair. *)
Theorem addExportedParam_spec {rate} (scale : ApproximateDelay → rate → ApproximateDelay)
    (exp this : ParameterSet rate) (Hexp : ps_wf exp) (Hthis : ps_wf this) :
  ∃ r, addExportedParam scale exp this = Some r ∧ ps_wf r ∧
    (∀ x, pc_lookup (mBlockingTLMEnabledParameter r) x =
       combined bt_add (pc_lookup (mBlockingTLMEnabledParameter exp))
         (pc_lookup (mBlockingTLMEnabledParameter this)) x) ∧
    (∀ x, pc_lookup (mApproximateDelayParameter r) x =
       combined delay_add (pc_lookup (mApproximateDelayParameter exp))
         (fun x => d ← pc_lookup (mApproximateDelayParameter this) x;
            Some (scaled scale (mApproximateTraversalRateParameter exp) d x)) x).
Proof. by apply addExportedParam_lookup. Qed.

Lemma addExportedParam_spec_witness :
  ps_wf ps_example ∧
  ∃ r, addExportedParam (fun d n => mkDelay (mDelay d * Z.of_nat n)) ps_example ps_example = Some r ∧
    ps_wf r.
Proof.
  split; [apply ps_example_wf|].
  destruct (addExportedParam_spec (fun d n => mkDelay (mDelay d * Z.of_nat n))
    ps_example ps_example ps_example_wf ps_example_wf) as (r & E & Hr & _).
  exists r. split; [exact E|exact Hr].
Defined.

(** trimming to a sorted set of disjoint spaces keeps the parameter of every
    address in a space of the restriction and removes it everywhere else. *)
Theorem trim_container_spec {A : Type} `{ModuleParameterLaws A} (pc : list (AddrSpace * A)) R
    (Hpc : pc_wf pc) (HR : pc_wf (tagged BT_ENABLED R)) :
  pc_wf (trim_container R pc) ∧
  (∀ x b, b ∈ R → x ∈ b → pc_lookup (trim_container R pc) x = pc_lookup pc x) ∧
  (∀ x, (∀ b, b ∈ R → x ∉ b) → pc_lookup (trim_container R pc) x = None).
Proof.
  destruct (trim_flat_map pc R (pc_wf_disj _ Hpc) HR) as (Hd & Hin & Hout & _).
  destruct (defrag_spec _ (sort_container_wf _ Hd)) as (Hwf & _ & Hlk).
  assert (∀ x, pc_lookup (trim_container R pc) x =
               pc_lookup (flat_map (fun p => trim_entry p R) pc) x) as Heq.
  { intros x. unfold trim_container. rewrite Hlk. apply pc_lookup_perm;
      [apply sort_container_perm|by apply pc_wf_disj, sort_container_wf]. }
  split; [exact Hwf|]. split.
  - intros x b Hb Hx. rewrite Heq. by apply (Hin x b).
  - intros x Hx. rewrite Heq. by apply Hout.
Qed.

Lemma trim_container_spec_witness :
  trim_container [mkAddrSpace 3 5] [(mkAddrSpace 0 9, BT_DISABLED)] = [(mkAddrSpace 3 5, BT_DISABLED)] ∧
  pc_wf (trim_container [mkAddrSpace 3 5] [(mkAddrSpace 0 9, BT_DISABLED)]).
Proof.
  split; [vm_compute; reflexivity|].
  apply (trim_container_spec [(mkAddrSpace 0 9, BT_DISABLED)] [mkAddrSpace 3 5]);
    apply pc_wf_singleton; lia.
Defined.

(** a successful translation of a container moves every parameter by exactly
    the offset, it fails exactly when some bound would leave the 64-bit range (per
    space), and translating back restores the container. *)
Theorem translate_container_exact {A : Type} off (pos : bool) (pc pc' : list (AddrSpace * A))
    (Hpc : pc_wf pc) (Hoff : in_u64 off) (Hok : translate_container off pos pc = Ok pc') :
  pc_wf pc' ∧
  (∀ x, pc_lookup pc' (x + if pos then - off else off) = pc_lookup pc x) ∧
  translate_container off (negb pos) pc' = Ok pc ∧
  (∀ a, as_wf a → is_ok (translate_space off pos a) = true ↔
     if pos then off ≤ mBaseAddress a else mEndAddress a + off < 2 ^ 64).
Proof.
  destruct (translate_container_Ok off pos pc pc') as (Hwf & Hlk & _); [done..|].
  split; [done|]. split; [done|]. split; [by apply translate_container_roundtrip|].
  intros a Ha. by apply translate_space_fails.
Qed.

Lemma translate_container_exact_witness :
  translate_container 16 true [(mkAddrSpace 32 47, BT_ENABLED)] = Ok [(mkAddrSpace 16 31, BT_ENABLED)] ∧
  translate_container 16 false [(mkAddrSpace 16 31, BT_ENABLED)] = Ok [(mkAddrSpace 32 47, BT_ENABLED)].
Proof.
  split; [vm_compute; reflexivity|].
  apply (translate_container_exact 16 true [(mkAddrSpace 32 47, BT_ENABLED)]
    [(mkAddrSpace 16 31, BT_ENABLED)]);
    [apply pc_wf_singleton; lia|unfold in_u64; lia|vm_compute; reflexivity].
Defined.

(** the space-wide query of the blocking parameter is right when the space lies
    inside one entry, but (a) it increments an end iterator when a disabled entry
    lies strictly inside the queried space and is the last one, and (b) it skips the
    entry that follows such an entry, so that an enabled address is reported
    disabled. *)
Theorem valForAddrSpace_defects :
  (∀ dflt pc as' a v, pc_wf pc → as_wf as' → (a, v) ∈ pc → (∀ x, x ∈ as' → x ∈ a) →
     valForAddrSpace dflt pc as' = Ok v) ∧
  valForAddrSpace BT_ENABLED [(mkAddrSpace 5 6, BT_DISABLED)] (mkAddrSpace 0 10) =
    Err (UndefinedBehaviour "increment of the end iterator") ∧
  (let pc := [(mkAddrSpace 5 6, BT_DISABLED); (mkAddrSpace 7 8, BT_ENABLED)] in
   valForAddrSpace BT_DISABLED pc (mkAddrSpace 0 8) = Ok BT_DISABLED ∧
   getParameterValue BT_DISABLED pc 7 = BT_ENABLED).
Proof.
  split; [|split; [|split]; vm_compute; reflexivity].
  intros dflt pc as' a v. induction pc as [|[b w] pc IH]; intros Hpc Has Hin Hsub.
  { by apply elem_of_nil in Hin. }
  destruct Hpc as (Hb & Hord & Hpc). simpl in Hb.
  pose proof (Hsub _ (as_wf_base _ Has)) as Hs1. pose proof (Hsub _ (as_wf_end _ Has)) as Hs2.
  apply elem_of_cons in Hin as [[= -> ->]|Hin]; cbn [valForAddrSpace].
  - assert (intersect as' b = true) as -> by (unfold intersect; apply bool_decide_eq_true; as_unfold; lia).
    destruct w; simpl; [|done].
    assert (relativeComplement as' b = []) as ->; [|done]. unfold relativeComplement.
    rewrite !bool_decide_eq_false_2 by (as_unfold; lia). done.
  - specialize (Hord (a, v) Hin). unfold before in Hord. simpl in Hord.
    assert (intersect as' b = false) as ->.
    { unfold intersect. apply bool_decide_eq_false. as_unfold. lia. }
    rewrite bool_decide_eq_false_2 by (as_unfold; lia). by apply IH.
Qed.
