(* ===== verification/ModuleTree.v ===== *)
(** * The module tree ([core/vpsimModule/vpsimModule.cpp], [paramManager.cpp])

    Every TLM module of a platform has a [VpsimModule] that knows its neighbours and the
    parameters that hold for the addresses behind it.  A module exports to its predecessors
    what its successors export, combined with its own intrinsic parameters and passed through
    its modifiers; a change is propagated against the direction of the transactions.

    The modules are objects that point to each other: the store is a list, a pointer an
    index.  The hooks of a module are identified by a number; what a hook does is a parameter
    of the model that may read the modules and change a world of its own, as the only hooks
    of the source do (they drop direct memory regions).  The file models every operation
    that changes a module, and proves what a propagation establishes on an acyclic platform:
    termination, and that afterwards every module is consistent with its successors. *)

From S2P Require Import Prelude AddrSpace ModuleParams ParamContainer ParameterSet.

Inductive moduleType := memoryMapped | intermediate | dummy.

#[global] Instance moduleType_eq_dec : EqDecision moduleType.
Proof. solve_decision. Defined.

(** ** Sets of address spaces *)

(** [std::set<AddrSpace>::insert]: a sorted list without duplicates. *)
Fixpoint set_insert (a : AddrSpace) (l : list AddrSpace) : list AddrSpace :=
  match l with
  | [] => [a]
  | b :: l' => if as_lt a b then a :: b :: l' else if as_lt b a then b :: set_insert a l' else b :: l'
  end.

(** [applyNonRecursive (const set<AddrSpace>&)]. *)
Fixpoint translate_spaces (mOffset : Z) (mPositiveOffset : bool) (asSet newAsSet : list AddrSpace) :
    result (list AddrSpace) :=
  match asSet with
  | [] => Ok newAsSet
  | p :: asSet' => let* a := translate_space mOffset mPositiveOffset p in
      translate_spaces mOffset mPositiveOffset asSet' (set_insert a newAsSet)
  end.

Definition spacesNonRecursive (m : modifier_step) (asSet : list AddrSpace) : result (list AddrSpace) :=
  match m with
  | IdentityModifier => Ok asSet
  | AddressTranslator off pos => translate_spaces off pos asSet []
  end.

(** [apply (const set<AddrSpace>&)]: the previous modifiers are applied last. *)
Fixpoint applySpaces (m : modifier) (asSet : list AddrSpace) : result (list AddrSpace) :=
  match m with
  | [] => Ok asSet
  | s :: prev => let* l := spacesNonRecursive s asSet in applySpaces prev l
  end.

(** ** Modules *)

Section modules.
Context {rate : Type} `{!ModuleParameter (ApproximateTraversalRate rate)}.
Context (sc_time_scale : ApproximateDelay → rate → ApproximateDelay).
Abbreviation PSet := (ParameterSet rate).

Record VpsimModule := mkModule {
  mName : string;
  mPredecessors : list nat;
  mSuccessors : list (option nat);
  mIntrinsecParameters : PSet;
  mEffectiveParameters : list PSet;
  mExportedParameters : PSet;
  mModifier : modifier;
  mOwnAddrSpace : AddrSpace;
  mModuleType : moduleType;
  mNbOutPorts : Z;
  mUpdateHooks : list nat }.

Definition set_mPredecessors x (s : VpsimModule) : VpsimModule :=
  mkModule (mName s) x (mSuccessors s) (mIntrinsecParameters s) (mEffectiveParameters s)
    (mExportedParameters s) (mModifier s) (mOwnAddrSpace s) (mModuleType s) (mNbOutPorts s)
    (mUpdateHooks s).
Definition set_mSuccessors x (s : VpsimModule) : VpsimModule :=
  mkModule (mName s) (mPredecessors s) x (mIntrinsecParameters s) (mEffectiveParameters s)
    (mExportedParameters s) (mModifier s) (mOwnAddrSpace s) (mModuleType s) (mNbOutPorts s)
    (mUpdateHooks s).
Definition set_mIntrinsecParameters x (s : VpsimModule) : VpsimModule :=
  mkModule (mName s) (mPredecessors s) (mSuccessors s) x (mEffectiveParameters s)
    (mExportedParameters s) (mModifier s) (mOwnAddrSpace s) (mModuleType s) (mNbOutPorts s)
    (mUpdateHooks s).
Definition set_mEffectiveParameters x (s : VpsimModule) : VpsimModule :=
  mkModule (mName s) (mPredecessors s) (mSuccessors s) (mIntrinsecParameters s) x
    (mExportedParameters s) (mModifier s) (mOwnAddrSpace s) (mModuleType s) (mNbOutPorts s)
    (mUpdateHooks s).
Definition set_mExportedParameters x (s : VpsimModule) : VpsimModule :=
  mkModule (mName s) (mPredecessors s) (mSuccessors s) (mIntrinsecParameters s)
    (mEffectiveParameters s) x (mModifier s) (mOwnAddrSpace s) (mModuleType s) (mNbOutPorts s)
    (mUpdateHooks s).
Definition set_mModifier x (s : VpsimModule) : VpsimModule :=
  mkModule (mName s) (mPredecessors s) (mSuccessors s) (mIntrinsecParameters s)
    (mEffectiveParameters s) (mExportedParameters s) x (mOwnAddrSpace s) (mModuleType s)
    (mNbOutPorts s) (mUpdateHooks s).
Definition set_mUpdateHooks x (s : VpsimModule) : VpsimModule :=
  mkModule (mName s) (mPredecessors s) (mSuccessors s) (mIntrinsecParameters s)
    (mEffectiveParameters s) (mExportedParameters s) (mModifier s) (mOwnAddrSpace s)
    (mModuleType s) (mNbOutPorts s) x.

(** The constructor, but for the registration with the manager ([ParamManager]). *)
Definition new_VpsimModule (name : string) (type : moduleType) (as' : AddrSpace) (nbPort : Z) : VpsimModule :=
  mkModule name [] (replicate (Z.to_nat nbPort) None) emptyParameterSet
    (replicate (Z.to_nat nbPort) emptyParameterSet) emptyParameterSet [IdentityModifier] as' type nbPort [].

(** The modules and the world the hooks act on. *)
Context {W : Type}.
Abbreviation modules := (list VpsimModule) (only parsing).
Abbreviation state := (list VpsimModule * W)%type (only parsing).

(** What a hook does. *)
Context (hook : nat → modules → M W unit).

Definition deref (h : modules) (i : nat) : result VpsimModule :=
  match h !! i with Some m => Ok m | None => Err (UndefinedBehaviour "dangling pointer") end.

Definition get_module (i : nat) : M state VpsimModule := fun s => (deref s.1 i, s).
Definition upd_module (i : nat) (f : VpsimModule → VpsimModule) : M state unit := fun '(h, w) =>
  match h !! i with
  | Some m => (Ok tt, (<[i := f m]> h, w))
  | None => (Err (UndefinedBehaviour "dangling pointer"), (h, w))
  end.
Definition call_hook (n : nat) : M state unit := fun '(h, w) =>
  let '(r, w') := hook n h w in (r, (h, w')).

(** The recursion of the insertions of [ParamContainer] has its own fuel. *)
Definition enough {A} (o : option A) : result A :=
  match o with Some a => Ok a | None => Err OutOfFuel end.

Definition addPredecessor (this p : nat) : M state unit :=
  m <- get_module this ;;
  if bool_decide (p ∈ mPredecessors m) then m_ret tt
  else upd_module this (fun m => set_mPredecessors (mPredecessors m ++ [p]) m).

(** [getAllowedSpaces]: [called] is one vector shared by all the calls. *)
Fixpoint getAllowedSpaces (fuel : nat) (h : modules) (this : nat) (called : list nat) :
    result (list AddrSpace * list nat) :=
  match fuel with
  | O => Err OutOfFuel
  | S fuel =>
      let* m := deref h this in
      let fix each (ss : list (option nat)) (allowedSpaces : list AddrSpace) (called : list nat) :
          result (list AddrSpace * list nat) :=
        match ss with
        | [] => Ok (allowedSpaces, called)
        | Some s :: ss' =>
            if bool_decide (s ∈ called) then each ss' allowedSpaces called
            else let* r := getAllowedSpaces fuel h s called in
              each ss' (foldl (fun l a => set_insert a l) allowedSpaces r.1) r.2
        | None :: ss' => each ss' allowedSpaces called
        end in
      let* r := each (mSuccessors m) [] (called ++ [this]) in
      let allowedSpaces :=
        if bool_decide (mModuleType m = memoryMapped) then set_insert (mOwnAddrSpace m) r.1 else r.1 in
      let* l := applySpaces (mModifier m) allowedSpaces in Ok (l, r.2)
  end.

(** A call visits every module once at most. *)
Definition allowed_spaces (h : modules) (this : nat) : result (list AddrSpace) :=
  let* r := getAllowedSpaces (S (length h)) h this [] in Ok r.1.

(** [clearPredecessors], with the shared vector [called] as result. *)
Fixpoint clear_each (clear : nat → list nat → M state (list nat)) (ps : list nat) (called : list nat) :
    M state (list nat) :=
  match ps with
  | [] => m_ret called
  | p :: ps' =>
      if bool_decide (p ∈ called) then clear_each clear ps' called
      else
        upd_module p (set_mExportedParameters emptyParameterSet) ;;;
        called <- clear p called ;;
        clear_each clear ps' called
  end.

Fixpoint clearPredecessors (fuel : nat) (this : nat) (called : list nat) : M state (list nat) :=
  match fuel with
  | O => m_throw OutOfFuel
  | S fuel =>
      m <- get_module this ;;
      clear_each (clearPredecessors fuel) (mPredecessors m) (called ++ [this])
  end.

(** The ports take what the successors export. *)
Fixpoint import_each (h : modules) (ss : list (option nat)) (es : list PSet) : result (list PSet) :=
  match ss, es with
  | Some s :: ss', _ :: es' =>
      let* t := deref h s in let* r := import_each h ss' es' in Ok (mExportedParameters t :: r)
  | None :: ss', e :: es' => let* r := import_each h ss' es' in Ok (e :: r)
  | _, _ => Ok es
  end.
Definition import_ports (h : modules) (m : VpsimModule) : result (list PSet) :=
  import_each h (mSuccessors m) (mEffectiveParameters m).

Fixpoint merge_ports (es : list PSet) (acc : PSet) : result PSet :=
  match es with
  | [] => Ok acc
  | e :: es' => let* acc := enough (mergeImportedParam e acc) in merge_ports es' acc
  end.

(** What a module with ports [es] and trimmed intrinsic parameters [intr] exports. *)
Definition exported (es : list PSet) (intr : PSet) (md : modifier) : result PSet :=
  let* p := merge_ports es emptyParameterSet in
  let* p := enough (addExportedParam sc_time_scale intr p) in
  applyModifier md p.

Definition ps_neq (a b : PSet) : bool := negb (ps_equal a b).

(** [refreshParameters (clear)] and [refreshPredecessors]. *)
Fixpoint refreshParameters (fuel : nat) (clear : bool) (this : nat) : M state unit :=
  match fuel with
  | O => m_throw OutOfFuel
  | S fuel =>
      m_when clear (h <- m_gets fst ;; clearPredecessors (S (length h)) this [] ;;; m_ret tt) ;;;
      m <- get_module this ;;
      h <- m_gets fst ;;
      es <- m_lift (import_ports h m) ;;
      upd_module this (set_mEffectiveParameters es) ;;;
      m_forM (mUpdateHooks m) call_hook ;;;
      p <- m_lift (merge_ports es emptyParameterSet) ;;
      allowed <- m_lift (allowed_spaces h this) ;;
      let intr := trim allowed (mIntrinsecParameters m) in
      upd_module this (set_mIntrinsecParameters intr) ;;;
      p <- m_lift (enough (addExportedParam sc_time_scale intr p)) ;;
      newExportedParam <- m_lift (applyModifier (mModifier m) p) ;;
      m_when (ps_neq newExportedParam (mExportedParameters m))
        (upd_module this (set_mExportedParameters newExportedParam) ;;;
         m_forM (mPredecessors m) (refreshParameters fuel false))
  end.

(** The depth of the recursion is bounded by the number of modules of an acyclic platform. *)
Definition refresh (this : nat) : M state unit :=
  h <- m_gets fst ;; refreshParameters (S (length h)) true this.

Definition addSuccessor (this s : nat) (port : Z) : M state unit :=
  m <- get_module this ;;
  if bool_decide (mNbOutPorts m ≤ port)
  then m_throw (Throw "Trying to add a successor to an non existing port") else
  cur <- m_lift (vec_get (mSuccessors m) port) ;;
  if cur is Some _ then m_throw (Throw "Trying to bind two modules on the same port") else
  l <- m_lift (vec_set (mSuccessors m) port (Some s)) ;;
  upd_module this (set_mSuccessors l) ;;;
  addPredecessor s this ;;;
  refresh this.

Definition addParameterSetModifier (this : nat) (md : modifier) : M state unit :=
  upd_module this (fun m => set_mModifier (attach (mModifier m) md) m) ;;;
  refresh this.

Definition setModuleParameter (this : nat) (as' : AddrSpace) (param : AnyParameter rate) : M state unit :=
  m <- get_module this ;;
  p <- m_lift (enough (setParameter as' param (mIntrinsecParameters m))) ;;
  upd_module this (set_mIntrinsecParameters p) ;;;
  refresh this.

Definition registerUpdateHook (this n : nat) : M state unit :=
  upd_module this (fun m => set_mUpdateHooks (mUpdateHooks m ++ [n]) m).

Definition getBlockingTLMEnabled (dflt : BlockingTLMEnabled) (m : VpsimModule) (port addr : Z) :
    result BlockingTLMEnabled :=
  let* p := vec_get (mEffectiveParameters m) port in Ok (getBlockingTLMEnabledParameter dflt p addr).

Definition getBlockingTLMEnabled_space (dflt : BlockingTLMEnabled) (m : VpsimModule) (port : Z) (addr : AddrSpace) :
    result BlockingTLMEnabled :=
  let* p := vec_get (mEffectiveParameters m) port in
  valForAddrSpace dflt (mBlockingTLMEnabledParameter p) addr.

Definition getApproximateDelay (dflt : ApproximateDelay) (m : VpsimModule) (port addr : Z) :
    result ApproximateDelay :=
  let* p := vec_get (mEffectiveParameters m) port in Ok (getApproximateDelayParameter dflt p addr).
End modules.
Arguments VpsimModule rate : clear implicits.

(** ** What a module exports *)

Section export.
Context {rate : Type} `{!ModuleParameter (ApproximateTraversalRate rate)}
  `{!ModuleParameterLaws (ApproximateTraversalRate rate)}.
Context (scale : ApproximateDelay → rate → ApproximateDelay).
Abbreviation PSet := (ParameterSet rate).
Implicit Types (p q intr : PSet) (es : list PSet) (md : modifier).

Definition step_ok (s : modifier_step) : Prop :=
  match s with IdentityModifier => True | AddressTranslator off _ => in_u64 off end.
Definition overflow : exn := Throw "ERROR: Translation caused an overflow.".

(** A set that defines a parameter somewhere. *)
Definition nonempty p : Prop :=
  ∃ x, is_Some (pc_lookup (mBlockingTLMEnabledParameter p) x)
       ∨ is_Some (pc_lookup (mApproximateDelayParameter p) x).

Lemma empty_not_nonempty : ~ nonempty (@emptyParameterSet rate).
Proof. by intros (x & [[? [=]]|[? [=]]]). Qed.

Lemma empty_wf : ps_wf (@emptyParameterSet rate).
Proof. done. Qed.

Lemma ps_neq_spec p q : ps_neq p q = false ↔ p = q.
Proof.
  unfold ps_neq, ps_equal. rewrite negb_false_iff, !andb_true_iff, !pc_equal_spec.
  destruct p, q. simpl. naive_solver.
Qed.

Lemma combined_is_Some {A} (pick : A → A → A) f g x :
  is_Some (f x) ∨ is_Some (g x) → is_Some (combined pick f g x).
Proof. intros [[v E]|[v E]]; unfold combined; destruct (f x), (g x); simplify_eq; eauto. Qed.

Lemma mergeImportedParam_total p q : ps_wf p → ps_wf q →
  ∃ r, mergeImportedParam p q = Some r ∧ ps_wf r ∧ (nonempty p ∨ nonempty q → nonempty r).
Proof.
  intros Hp Hq. destruct (mergeImportedParam_lookup p q Hp Hq) as (r & E & Hr & Hb & Hd & _).
  exists r. split_and!; [done..|]. intros [(x & Hx)|(x & Hx)]; exists x; rewrite Hb, Hd;
    destruct Hx; [left|right|left|right]; apply combined_is_Some; auto.
Qed.

Lemma merge_ports_total es acc : Forall ps_wf es → ps_wf acc →
  ∃ r, merge_ports es acc = Ok r ∧ ps_wf r ∧ (nonempty acc ∨ Exists nonempty es → nonempty r).
Proof.
  intros Hes. revert acc. induction Hes as [|e es He Hes IH]; intros acc Hacc.
  - exists acc. split_and!; [done..|]. intros [Ha|Ha%Exists_nil]; done.
  - destruct (mergeImportedParam_total e acc He Hacc) as (a1 & E & H1 & Hn1).
    destruct (IH a1 H1) as (r & Er & Hr & Hn). exists r. simpl. rewrite E. simpl.
    split_and!; [done..|]. rewrite Exists_cons. naive_solver.
Qed.

Lemma addExportedParam_total p q : ps_wf p → ps_wf q →
  ∃ r, addExportedParam scale p q = Some r ∧ ps_wf r ∧ (nonempty q → nonempty r).
Proof.
  intros Hp Hq. destruct (addExportedParam_lookup scale p q Hp Hq) as (r & E & Hr & Hb & Hd).
  exists r. split_and!; [done..|]. intros (x & [Hx|[d Hx]]); exists x; rewrite Hb, Hd;
    [left|right]; apply combined_is_Some; [by right|right]. rewrite Hx. eauto.
Qed.

Lemma translate_container_err {A} off pos (pc : list (AddrSpace * A)) e :
  translate_container off pos pc = Err e → e = overflow.
Proof.
  induction pc as [|[a v] pc IH]; simpl; [done|]. unfold translate_space. case_match; simpl.
  - by intros [= <-].
  - destruct (translate_container off pos pc) as [|e']; simpl; [done|]. intros [= <-]. by apply IH.
Qed.

(** What one modifier does to a well-formed set. *)
Lemma applyNonRecursive_spec s p : step_ok s → ps_wf p →
  match applyNonRecursive s p with
  | Ok q => ps_wf q ∧ (nonempty p → nonempty q)
  | Err e => e = overflow ∧ s ≠ IdentityModifier
  end.
Proof.
  intros Hs (Hb & Hd & Hr). destruct s as [|off pos]; simpl; [done|].
  destruct (translate_container off pos (mBlockingTLMEnabledParameter p)) as [bt|e] eqn:Eb; simpl;
    [|split; [by eapply translate_container_err|done]].
  destruct (translate_container off pos (mApproximateDelayParameter p)) as [dl|e] eqn:Ed; simpl;
    [|split; [by eapply translate_container_err|done]].
  destruct (translate_container off pos (mApproximateTraversalRateParameter p)) as [tr|e] eqn:Et; simpl;
    [|split; [by eapply translate_container_err|done]].
  destruct (translate_container_Ok off pos _ _ Hb Hs Eb) as (Wb & Lb & _).
  destruct (translate_container_Ok off pos _ _ Hd Hs Ed) as (Wd & Ld & _).
  destruct (translate_container_Ok off pos _ _ Hr Hs Et) as (Wt & _ & _).
  split; [done|]. intros (x & Hx). exists (x + if pos then - off else off).
  simpl. by rewrite Lb, Ld.
Qed.

Lemma applyModifier_spec md p : Forall step_ok md → ps_wf p →
  match applyModifier md p with
  | Ok q => ps_wf q ∧ (nonempty p → nonempty q)
  | Err e => e = overflow ∧ ~ Forall (eq IdentityModifier) md
  end.
Proof.
  intros Hmd Hp. induction Hmd as [|s md Hs Hmd IH]; simpl; [done|].
  destruct (applyModifier md p) as [q|e]; simpl.
  - destruct IH as [Hq Hn]. pose proof (applyNonRecursive_spec s q Hs Hq) as H'.
    destruct (applyNonRecursive s q); [naive_solver|]. destruct H' as [-> H']. split; [done|].
    intros Hall%Forall_cons. by destruct Hall as [<- _].
  - destruct IH as [-> IH]. split; [done|]. intros [_ Hall]%Forall_cons. by apply IH.
Qed.

Lemma trim_wf L p : ps_wf p → pc_wf (tagged BT_ENABLED L) → ps_wf (trim L p).
Proof.
  intros (Hb & Hd & Hr) HL. split_and!; by apply trim_container_spec.
Qed.
End export.

(** ** Platforms *)

Section propagate.
Context {rate : Type} `{!ModuleParameter (ApproximateTraversalRate rate)}
  `{!ModuleParameterLaws (ApproximateTraversalRate rate)}.
Context (scale : ApproximateDelay → rate → ApproximateDelay).
Context {W : Type} (hook : nat → list (VpsimModule rate) → M W unit).
Implicit Types (h : list (VpsimModule rate)) (m t : VpsimModule rate) (w : W) (S V : gset nat) (i j p s : nat).

(** What a propagation never changes. *)
Definition shape m :=
  (mPredecessors m, mSuccessors m, mModifier m, mOwnAddrSpace m, mModuleType m, mUpdateHooks m).
Definition same_shape h h' : Prop := shape <$> h = shape <$> h'.

Definition exports h i : option (ParameterSet rate) := mExportedParameters <$> h !! i.

(** A module whose ports are what its successors export, and which exports what its ports and
    its own parameters give. *)
Definition consistent h i : Prop := ∃ m, h !! i = Some m
  ∧ import_ports h m = Ok (mEffectiveParameters m)
  ∧ exported scale (mEffectiveParameters m) (mIntrinsecParameters m) (mModifier m) = Ok (mExportedParameters m).

(** Every module but those of [S] is consistent. *)
Definition settled_but S h : Prop := ∀ i, (i < length h)%nat → i ∉ S → consistent h i.

(** An acyclic platform ([r] decreases towards the initiators) with well-formed parameters. *)
Record platform (r : nat → nat) h : Prop := mkPlatform {
  pf_rank : ∀ i m p, h !! i = Some m → p ∈ mPredecessors m → is_Some (h !! p) ∧ (r p < r i)%nat;
  pf_bound : ∀ i, is_Some (h !! i) → (r i < length h)%nat;
  pf_link : ∀ i m s, h !! i = Some m → Some s ∈ mSuccessors m → ∃ t, h !! s = Some t ∧ i ∈ mPredecessors t;
  pf_back : ∀ i m p, h !! i = Some m → p ∈ mPredecessors m → ∃ t, h !! p = Some t ∧ Some i ∈ mSuccessors t;
  pf_ports : ∀ i m, h !! i = Some m → length (mSuccessors m) = length (mEffectiveParameters m);
  pf_sets : ∀ i m, h !! i = Some m → ps_wf (mIntrinsecParameters m) ∧ ps_wf (mExportedParameters m)
              ∧ Forall ps_wf (mEffectiveParameters m);
  pf_mods : ∀ i m, h !! i = Some m → Forall step_ok (mModifier m);
  pf_allowed : ∀ i, is_Some (h !! i) → ∃ L, allowed_spaces h i = Ok L ∧ pc_wf (tagged BT_ENABLED L) }.

Lemma same_shape_lookup h h' i m : same_shape h h' → h !! i = Some m →
  ∃ m', h' !! i = Some m' ∧ shape m' = shape m.
Proof.
  intros E Hi. assert ((shape <$> h') !! i = Some (shape m)) as H'.
  { rewrite <- E. rewrite list_lookup_fmap, Hi. done. }
  rewrite list_lookup_fmap in H'. destruct (h' !! i) as [m'|]; [|done]. apply (inj Some) in H'. eauto.
Qed.

Lemma same_shape_is_Some h h' i : same_shape h h' → is_Some (h !! i) ↔ is_Some (h' !! i).
Proof.
  intros E. rewrite !lookup_lt_is_Some. apply (f_equal length) in E. rewrite !length_fmap in E. by rewrite E.
Qed.

Lemma same_shape_deref h h' i : same_shape h h' →
  match deref h i, deref h' i with
  | Ok m, Ok m' => shape m = shape m'
  | Err e, Err e' => e = e'
  | _, _ => False
  end.
Proof.
  intros E. unfold deref. pose proof (same_shape_is_Some h h' i E) as Hs.
  destruct (h !! i) as [m|] eqn:Hi.
  - destruct (same_shape_lookup h h' i m E Hi) as (m' & -> & ->). done.
  - destruct (h' !! i); [|done]. destruct Hs as [_ Hs]. by destruct Hs.
Qed.

Lemma getAllowedSpaces_shape h h' fuel i called : same_shape h h' →
  getAllowedSpaces fuel h i called = getAllowedSpaces fuel h' i called.
Proof.
  intros E. revert i called. induction fuel as [|fuel IH]; intros i called; [done|]. cbn [getAllowedSpaces].
  pose proof (same_shape_deref h h' i E) as Hd.
  destruct (deref h i) as [m|e], (deref h' i) as [m'|e']; try done; [|by subst]. cbn [result_bind].
  injection Hd as Hp Hs Hm Ho Ht Hu. rewrite <- Hs, <- Hm, <- Ho, <- Ht. f_equal. clear -IH.
  generalize (@nil AddrSpace) as acc. generalize (called ++ [i]) as c.
  induction (mSuccessors m) as [|[s|] ss IHss]; intros c acc; simpl; [done| |apply IHss].
  case_bool_decide; [apply IHss|]. rewrite IH. destruct (getAllowedSpaces fuel h' s c); simpl; [apply IHss|done].
Qed.

Lemma allowed_spaces_shape h h' i : same_shape h h' → allowed_spaces h i = allowed_spaces h' i.
Proof.
  intros E. unfold allowed_spaces. rewrite (getAllowedSpaces_shape h h' _ _ _ E).
  apply (f_equal length) in E. rewrite !length_fmap in E. by rewrite E.
Qed.

Lemma same_shape_insert h i m m' : h !! i = Some m → shape m' = shape m → same_shape h (<[i := m']> h).
Proof.
  intros Hi E. unfold same_shape. rewrite list_fmap_insert, E. symmetry. apply list_insert_id.
  by rewrite list_lookup_fmap, Hi.
Qed.

Lemma same_shape_trans h h' h'' : same_shape h h' → same_shape h' h'' → same_shape h h''.
Proof. unfold same_shape. by intros -> ->. Qed.

(** A change of the parameters of one module keeps the platform. *)
Lemma platform_insert r h i m m' : platform r h → h !! i = Some m → shape m' = shape m →
  length (mEffectiveParameters m') = length (mEffectiveParameters m) →
  ps_wf (mIntrinsecParameters m') → ps_wf (mExportedParameters m') → Forall ps_wf (mEffectiveParameters m') →
  platform r (<[i := m']> h).
Proof.
  intros H Hi E Hlen H1 H2 H3. assert (E' := E). injection E' as Ep Es Em Eo Et Eu.
  assert (∀ j t, <[i := m']> h !! j = Some t → ∃ t0, h !! j = Some t0 ∧ shape t = shape t0
    ∧ (j = i ∧ t = m' ∧ t0 = m ∨ t = t0)) as Hold.
  { intros j t [(<- & <- & _)|(_ & Hj)]%list_lookup_insert_Some; eauto 10. }
  assert (∀ j t, h !! j = Some t → ∃ t1, <[i := m']> h !! j = Some t1 ∧ shape t1 = shape t) as Hnew.
  { intros j t. apply same_shape_lookup. by apply (same_shape_insert _ _ m). }
  assert (∀ j, is_Some (<[i := m']> h !! j) ↔ is_Some (h !! j)) as Hsome.
  { intros j. symmetry. apply same_shape_is_Some. by apply (same_shape_insert _ _ m). }
  split.
  - intros j t p (t0 & Hj & Es0 & _)%Hold Hp. injection Es0 as Es0 _ _ _ _ _. rewrite Es0 in Hp.
    rewrite Hsome. by apply (pf_rank _ _ H j t0).
  - intros j Hj. rewrite length_insert. apply (pf_bound _ _ H). by apply Hsome.
  - intros j t s (t0 & Hj & Es0 & _)%Hold Hs. injection Es0 as _ Es0 _ _ _ _. rewrite Es0 in Hs.
    destruct (pf_link _ _ H j t0 s Hj Hs) as (u & Hu & Hin). destruct (Hnew s u Hu) as (u1 & Hu1 & Eu1).
    injection Eu1 as Eu1 _ _ _ _ _. exists u1. by rewrite Eu1.
  - intros j t p (t0 & Hj & Es0 & _)%Hold Hp. injection Es0 as Es0 _ _ _ _ _. rewrite Es0 in Hp.
    destruct (pf_back _ _ H j t0 p Hj Hp) as (u & Hu & Hin). destruct (Hnew p u Hu) as (u1 & Hu1 & Eu1).
    injection Eu1 as _ Eu1 _ _ _ _. exists u1. by rewrite Eu1.
  - intros j t (t0 & Hj & Es0 & [( -> & -> & -> )| ->])%Hold; [|by apply (pf_ports _ _ H j)].
    rewrite Hlen, Es. by apply (pf_ports _ _ H i).
  - intros j t (t0 & Hj & Es0 & [( -> & -> & -> )| ->])%Hold; [done|by apply (pf_sets _ _ H j)].
  - intros j t (t0 & Hj & Es0 & _)%Hold. injection Es0 as _ _ -> _ _ _. by apply (pf_mods _ _ H j).
  - intros j Hj%Hsome. rewrite <- (allowed_spaces_shape h); [by apply (pf_allowed _ _ H)|].
    by apply (same_shape_insert _ _ m).
Qed.

(** *** One module *)

(** The ports depend on the exports of the successors only. *)
Lemma import_ports_ext h h' m : (∀ s, Some s ∈ mSuccessors m → exports h s = exports h' s) →
  import_ports h m = import_ports h' m.
Proof.
  unfold import_ports. generalize (mEffectiveParameters m) as es.
  induction (mSuccessors m) as [|o ss IH]; intros es Hs; [done|].
  assert (∀ s, Some s ∈ ss → exports h s = exports h' s) as Hs' by (intros s Hin; apply Hs; by right).
  destruct o as [s|], es as [|e es]; try done; simpl; [|by rewrite IH].
  specialize (Hs s (list_elem_of_here _ _)). unfold exports, deref in *.
  rewrite IH by done. destruct (h !! s), (h' !! s); simplify_eq/=; try done. by rewrite Hs.
Qed.

Lemma import_ports_total r h i m : platform r h → h !! i = Some m →
  ∃ es, import_ports h m = Ok es ∧ length es = length (mEffectiveParameters m) ∧ Forall ps_wf es
    ∧ ∀ s q, Some s ∈ mSuccessors m → exports h s = Some q → q ∈ es.
Proof.
  intros H Hi. pose proof (pf_ports _ _ H i m Hi) as Hlen. destruct (pf_sets _ _ H i m Hi) as (_ & _ & Hes).
  assert (∀ s, Some s ∈ mSuccessors m → ∃ t, h !! s = Some t ∧ ps_wf (mExportedParameters t)) as Hs.
  { intros s Hin. destruct (pf_link _ _ H i m s Hi Hin) as (t & Ht & _). exists t. split; [done|].
    by apply (pf_sets _ _ H s t). }
  unfold import_ports. clear H Hi. revert Hlen Hes Hs. generalize (mEffectiveParameters m) as es.
  induction (mSuccessors m) as [|o ss IH]; intros [|e es] Hlen Hes Hs; try done.
  { exists []. split_and!; [done..|]. intros s q Hin. by apply elem_of_nil in Hin. }
  apply Forall_cons in Hes as [He Hes].
  destruct (IH es) as (es' & E & Hl' & Hw & Hin); [by injection Hlen|done|intros s Hs'; apply Hs; by right|].
  destruct o as [s|].
  - destruct (Hs s) as (t & Ht & Hwt); [left|]. exists (mExportedParameters t :: es').
    simpl. unfold deref. rewrite Ht. simpl. rewrite E. simpl. split_and!; [done|by rewrite Hl'|by constructor|].
    intros s' q [[= ->]|Hs']%elem_of_cons Hq; [|right; by apply (Hin s')].
    unfold exports in Hq. rewrite Ht in Hq. simplify_eq/=. left.
  - exists (e :: es'). simpl. rewrite E. simpl. split_and!; [done|by rewrite Hl'|by constructor|].
    intros s' q [[=]|Hs']%elem_of_cons Hq. right. by apply (Hin s').
Qed.

Lemma call_hooks_frame l h w :
  ∃ r w', m_forM l (call_hook hook) (h, w) = (r, (h, w'))
    ∧ ∀ e, r = Err e → ∃ n h w, (hook n h w).1 = Err e.
Proof.
  revert w. induction l as [|n l IH]; intros w; [by exists (Ok tt), w|].
  cbn [m_forM]. unfold m_bind at 1, call_hook. destruct (hook n h w) as [r w1] eqn:E.
  destruct r as [[]|e]; [apply IH|]. exists (Err e), w1. split; [done|].
  intros ? [= <-]. exists n, h, w. by rewrite E.
Qed.

(** The errors a propagation may end with: those of the hooks, and the overflow of a translation. *)
Definition refused h (e : exn) : Prop :=
  (∃ n h' w, (hook n h' w).1 = Err e)
  ∨ e = overflow ∧ ∃ i m, h !! i = Some m ∧ ~ Forall (eq IdentityModifier) (mModifier m).

Lemma refused_shape h h' e : same_shape h h' → refused h' e → refused h e.
Proof.
  intros E [Hh|(-> & i & m & Hi & Hm)]; [by left|]. right. split; [done|].
  destruct (same_shape_lookup h' h i m (eq_sym E) Hi) as (m' & Hi' & Es). exists i, m'.
  injection Es as _ _ -> _ _ _. done.
Qed.

(** The module [m] after a refresh. *)
Definition refreshed m es L q : VpsimModule rate :=
  set_mExportedParameters q
    (set_mIntrinsecParameters (trim L (mIntrinsecParameters m)) (set_mEffectiveParameters es m)).

(** A refresh without clearing ends early, or it updates the module and calls the predecessors. *)
Lemma refresh_unfold r h w i m fuel : platform r h → h !! i = Some m →
  (∃ e h' w', refreshParameters scale hook (Datatypes.S fuel) false i (h, w) = (Err e, (h', w'))
     ∧ refused h e ∧ same_shape h h')
  ∨ ∃ es L q w1, import_ports h m = Ok es
    ∧ exported scale es (trim L (mIntrinsecParameters m)) (mModifier m) = Ok q
    ∧ (Exists nonempty es → nonempty q) ∧ platform r (<[i := refreshed m es L q]> h)
    ∧ refreshParameters scale hook (Datatypes.S fuel) false i (h, w)
      = m_when (ps_neq q (mExportedParameters m))
          (m_forM (mPredecessors m) (refreshParameters scale hook fuel false))
          (<[i := refreshed m es L q]> h, w1).
Proof.
  intros H Hi. destruct (import_ports_total r h i m H Hi) as (es & Ees & Hlen & Hwes & _).
  destruct (pf_allowed _ _ H i (mk_is_Some _ _ Hi)) as (L & EL & HL).
  destruct (pf_sets _ _ H i m Hi) as (Hwi & Hwe & _).
  destruct (call_hooks_frame (mUpdateHooks m) (<[i := set_mEffectiveParameters es m]> h) w)
    as (rh & w1 & Eh & Hrh).
  destruct (merge_ports_total es emptyParameterSet Hwes empty_wf) as (p & Ep & Hwp & Hnp).
  assert (ps_wf (trim L (mIntrinsecParameters m))) as Hwt by by apply trim_wf.
  destruct (addExportedParam_total scale _ p Hwt Hwp) as (q1 & Eq1 & Hwq1 & Hnq1).
  pose proof (applyModifier_spec (mModifier m) q1 (pf_mods _ _ H i m Hi) Hwq1) as Hmod.
  assert (<[i := set_mEffectiveParameters es m]> h !! i = Some (set_mEffectiveParameters es m)) as Hi1.
  { apply list_lookup_insert_eq. by eapply lookup_lt_Some. }
  remember (refreshParameters scale hook (Datatypes.S fuel) false i (h, w)) as run eqn:Erun.
  cbn [refreshParameters] in Erun. unfold m_when at 1 in Erun.
  erewrite m_bind_ok in Erun by reflexivity.
  erewrite m_bind_ok in Erun by (unfold get_module, deref; simpl; by rewrite Hi).
  erewrite m_bind_ok in Erun by reflexivity. cbn [fst] in Erun.
  erewrite m_bind_ok in Erun by (unfold m_lift; by rewrite Ees).
  erewrite m_bind_ok in Erun by (unfold upd_module; by rewrite Hi).
  destruct rh as [[]|e].
  2: { rewrite (m_bind_err _ _ _ _ _ Eh) in Erun. left. eexists _, _, _. split; [done|].
       split; [left; by apply Hrh|]. by apply (same_shape_insert _ _ m). }
  erewrite (m_bind_ok _ _ _ _ _ Eh) in Erun. clear Eh.
  erewrite m_bind_ok in Erun by (unfold m_lift; by rewrite Ep).
  erewrite m_bind_ok in Erun by (unfold m_lift; by rewrite EL).
  erewrite m_bind_ok in Erun by (unfold upd_module; by rewrite Hi1).
  rewrite list_insert_insert_eq in Erun. erewrite m_bind_ok in Erun by (unfold m_lift; by rewrite Eq1).
  destruct (applyModifier (mModifier m) q1) as [q|e] eqn:Eq.
  2: { left. eexists _, _, _. split; [by apply Erun|]. destruct Hmod as [-> Hmod].
       split; [right; eauto|]. by apply (same_shape_insert _ _ m). }
  right. destruct Hmod as [Hwq Hnq]. exists es, L, q, w1. split; [done|]. split.
  { unfold exported. rewrite Ep. simpl. rewrite Eq1. simpl. done. }
  split; [intros Hex; apply Hnq, Hnq1, Hnp; by right|].
  split; [by apply (platform_insert r h i m)|]. erewrite m_bind_ok in Erun by reflexivity. subst run.
  unfold m_when. destruct (ps_neq q (mExportedParameters m)) eqn:Hneq.
  - erewrite m_bind_ok; [|unfold upd_module; rewrite list_lookup_insert_eq by (by eapply lookup_lt_Some); done].
    by rewrite list_insert_insert_eq.
  - apply ps_neq_spec in Hneq as ->. unfold refreshed, m_ret. by destruct m.
Qed.

(** *** The propagation *)

Definition pred_of h j p : Prop := ∃ m, h !! j = Some m ∧ p ∈ mPredecessors m.

(** [s] feeds [i]: it is a successor that exports something. *)
Definition feeds h s i : Prop :=
  ∃ m q, h !! i = Some m ∧ Some s ∈ mSuccessors m ∧ exports h s = Some q ∧ nonempty q.

Lemma pred_of_shape h h' j p : same_shape h h' → pred_of h j p → pred_of h' j p.
Proof.
  intros E (m & Hj & Hp). destruct (same_shape_lookup h h' j m E Hj) as (m' & Hj' & Es).
  injection Es as Es _ _ _ _ _. exists m'. by rewrite Es.
Qed.

Lemma feeds_shape h h' s i : same_shape h h' → exports h s = exports h' s → feeds h s i → feeds h' s i.
Proof.
  intros E Ex (m & q & Hi & Hs & Hq & Hn). destruct (same_shape_lookup h h' i m E Hi) as (m' & Hi' & Es).
  injection Es as _ Es _ _ _ _. exists m', q. rewrite Es, <- Ex. done.
Qed.

Lemma import_each_idem h ss es es' : import_each h ss es = Ok es' → import_each h ss es' = Ok es'.
Proof.
  revert es es'. induction ss as [|[s|] ss IH]; intros [|e es] es'; simpl; try (by intros [= <-]).
  - destruct (deref h s) as [t|]; [|done]. simpl. destruct (import_each h ss es) as [r|] eqn:E; [|done].
    simpl. intros [= <-]. by rewrite (IH _ _ E).
  - destruct (import_each h ss es) as [r|] eqn:E; [|done]. simpl. intros [= <-]. by rewrite (IH _ _ E).
Qed.

(** What a refresh without clearing of [i] does: it visits the modules of [V]. *)
Record visit (r : nat → nat) S h i V h' : Prop := mkVisit {
  v_self : i ∈ V;
  v_settled : settled_but (S ∖ V) h';
  v_frame : ∀ j, j ∉ V → h' !! j = h !! j;
  v_rank : ∀ j, j ∈ V → (r j ≤ r i)%nat;
  v_changed : exports h' i ≠ exports h i → ∀ p, pred_of h i p → p ∈ V;
  v_fed : ∀ s, feeds h s i → ∃ q, exports h' i = Some q ∧ nonempty q;
  v_closed : ∀ q, exports h' i = Some q → nonempty q →
               ∀ j p, j ∈ V → exports h j = Some emptyParameterSet → pred_of h j p → p ∈ V }.

Record visits (r : nat → nat) S h (ps : list nat) V h' : Prop := mkVisits {
  vs_self : ∀ p, p ∈ ps → p ∈ V;
  vs_settled : settled_but (S ∖ V) h';
  vs_frame : ∀ j, j ∉ V → h' !! j = h !! j;
  vs_rank : ∀ j, j ∈ V → ∃ p, p ∈ ps ∧ (r j ≤ r p)%nat;
  vs_fed : ∀ s, (∀ p, p ∈ ps → feeds h s p ∧ (r p < r s)%nat) →
             ∀ j p, j ∈ V → exports h j = Some emptyParameterSet → pred_of h j p → p ∈ V }.

Definition outcome r h (good : list (VpsimModule rate) → Prop) (o : result unit * (list (VpsimModule rate) * W)) : Prop :=
  same_shape h o.2.1 ∧ match o.1 with Ok _ => platform r o.2.1 ∧ good o.2.1 | Err e => refused h e end.

Lemma refresh_loop r fuel :
  (∀ h w S i, platform r h → is_Some (h !! i) → (r i < fuel)%nat → settled_but S h →
     outcome r h (fun h' => ∃ V, visit r S h i V h') (refreshParameters scale hook fuel false i (h, w))) →
  ∀ ps h w S, platform r h → (∀ p, p ∈ ps → is_Some (h !! p) ∧ (r p < fuel)%nat) → settled_but S h →
    outcome r h (fun h' => ∃ V, visits r S h ps V h')
      (m_forM ps (refreshParameters scale hook fuel false) (h, w)).
Proof.
  intros IH ps. induction ps as [|p ps IHps]; intros h w S H Hps HS.
  { split; [done|]. split; [done|]. exists ∅. split; try set_solver. simpl. by rewrite difference_empty_L. }
  destruct (Hps p) as [Hp Hrp]; [left|]. cbn [m_forM]. unfold m_bind.
  pose proof (IH h w S p H Hp Hrp HS) as H1.
  destruct (refreshParameters scale hook fuel false p (h, w)) as [[[]|e] [h1 w1]]; [|done].
  destruct H1 as (Hsh1 & H1 & V1 & Hv1). simpl in *.
  assert (∀ q, q ∈ ps → is_Some (h1 !! q) ∧ (r q < fuel)%nat) as Hps1.
  { intros q Hq. rewrite <- (same_shape_is_Some h h1) by done. apply Hps. by right. }
  pose proof (IHps h1 w1 (S ∖ V1) H1 Hps1 (v_settled _ _ _ _ _ _ Hv1)) as H2.
  destruct (m_forM ps _ (h1, w1)) as [[[]|e] [h2 w2]]; destruct H2 as (Hsh2 & H2).
  - destruct H2 as (H2 & V2 & Hv2). split; [by eapply same_shape_trans|]. split; [done|].
    exists (V1 ∪ V2). split.
    + intros q [->|Hq]%elem_of_cons; apply elem_of_union; [left; apply Hv1|right; by apply Hv2].
    + rewrite <- difference_difference_l_L. apply Hv2.
    + intros j Hj. rewrite (vs_frame _ _ _ _ _ _ Hv2), (v_frame _ _ _ _ _ _ Hv1); set_solver.
    + intros j [Hj|Hj]%elem_of_union; [exists p; split; [left|by apply Hv1]|].
      destruct (vs_rank _ _ _ _ _ _ Hv2 j Hj) as (q & Hq & Hr). exists q. split; [by right|done].
    + intros s Hs j q Hj Hex Hq. destruct (Hs p (list_elem_of_here _ _)) as [Hfp Hrs].
      destruct (decide (j ∈ V1)) as [Hj1|Hj1].
      { apply elem_of_union_l. destruct (v_fed _ _ _ _ _ _ Hv1 s Hfp) as (q0 & Eq0 & Hq0).
        by apply (v_closed _ _ _ _ _ _ Hv1 q0 Eq0 Hq0 j). }
      assert (s ∉ V1) as Hs1 by (intros Hin%(v_rank _ _ _ _ _ _ Hv1); lia).
      apply elem_of_union_r. apply (vs_fed _ _ _ _ _ _ Hv2 s) with (j := j); [|set_solver| |].
      * intros p' Hp'. destruct (Hs p') as [Hf Hr]; [by right|]. split; [|done].
        apply (feeds_shape h); [done| |done]. unfold exports. by rewrite (v_frame _ _ _ _ _ _ Hv1).
      * unfold exports. by rewrite (v_frame _ _ _ _ _ _ Hv1).
      * by apply (pred_of_shape h).
  - simpl in *. split; [by eapply same_shape_trans|]. by apply (refused_shape h h1).
Qed.

Lemma exports_insert_ne h i m j : i ≠ j → exports (<[i := m]> h) j = exports h j.
Proof. intros Hne. unfold exports. by rewrite list_lookup_insert_ne. Qed.

Lemma exports_insert_eq h i m m' : h !! i = Some m → exports (<[i := m']> h) i = Some (mExportedParameters m').
Proof. intros Hi. unfold exports. by rewrite list_lookup_insert_eq by by eapply lookup_lt_Some. Qed.

(** Changing one module upsets its predecessors only, and only when its exports change. *)
Lemma settled_update r S D h i m m' : platform r h → h !! i = Some m → shape m' = shape m →
  import_ports h m' = Ok (mEffectiveParameters m') →
  exported scale (mEffectiveParameters m') (mIntrinsecParameters m') (mModifier m') = Ok (mExportedParameters m') →
  (mExportedParameters m' ≠ mExportedParameters m → ∀ p, p ∈ mPredecessors m → p ∈ D) →
  settled_but S h → settled_but ((S ∪ D) ∖ {[i]}) (<[i := m']> h).
Proof.
  intros H Hi Esh Himp Hexp HD HS j Hj HjS. rewrite length_insert in Hj.
  assert (∀ t s, h !! j = Some t → Some s ∈ mSuccessors t → (s = i → j = i ∨ j ∉ D) →
            exports (<[i := m']> h) s = exports h s) as Hext.
  { intros t s Ht Hs Hsi. destruct (decide (s = i)) as [->|Hne]; [|by apply exports_insert_ne].
    destruct (pf_link _ _ H j t i Ht Hs) as (m0 & Hm0 & Hin). rewrite Hi in Hm0. injection Hm0 as <-.
    rewrite (exports_insert_eq h i m) by done. unfold exports. rewrite Hi. simpl. f_equal.
    destruct (ps_neq (mExportedParameters m') (mExportedParameters m)) eqn:Hne; [|by apply ps_neq_spec].
    assert (mExportedParameters m' ≠ mExportedParameters m) as Hne' by (intros E%ps_neq_spec; congruence).
    destruct (Hsi eq_refl) as [->|Hj']; [|by destruct Hj'; apply HD].
    destruct (pf_rank _ _ H i m i Hi Hin). lia. }
  destruct (decide (j = i)) as [->|Hne].
  - exists m'. rewrite list_lookup_insert_eq by done. split_and!; [done| |done].
    rewrite <- Himp. apply import_ports_ext. intros s Hs. injection Esh as _ Es _ _ _ _.
    rewrite Es in Hs. apply (Hext m s Hi Hs). by left.
  - destruct (HS j Hj) as (t & Ht & Eimp & Eexp); [set_solver|]. exists t.
    rewrite list_lookup_insert_ne by done. split_and!; [done| |done]. rewrite <- Eimp.
    apply import_ports_ext. intros s Hs. apply (Hext t s Ht Hs). intros ->. right. set_solver.
Qed.

Lemma settled_but_mono S S' h : S ⊆ S' → settled_but S h → settled_but S' h.
Proof. intros Hsub HS j Hj Hn. apply HS; [done|]. set_solver. Qed.

Lemma feeds_ports r h s i m es : platform r h → h !! i = Some m → import_ports h m = Ok es →
  feeds h s i → Exists nonempty es.
Proof.
  intros H Hi Ees (m0 & q & Hi0 & Hs & Hq & Hn). rewrite Hi in Hi0. injection Hi0 as <-.
  destruct (import_ports_total r h i m H Hi) as (es' & Ees' & _ & _ & Hin). rewrite Ees in Ees'.
  injection Ees' as <-. apply Exists_exists. exists q. split; [by apply (Hin s)|done].
Qed.

Lemma refresh_spec r fuel h w S i : platform r h → is_Some (h !! i) → (r i < fuel)%nat → settled_but S h →
  outcome r h (fun h' => ∃ V, visit r S h i V h') (refreshParameters scale hook fuel false i (h, w)).
Proof.
  revert h w S i. induction fuel as [|fuel IH]; intros h w S i H [m Hi] Hr HS; [lia|].
  destruct (refresh_unfold r h w i m fuel H Hi)
    as [(e & h' & w' & -> & He & Hsh)|(es & L & q & w1 & Ees & Eq & Hn & H2 & ->)]; [done|].
  set (m2 := refreshed m es L q) in *. set (h2 := <[i := m2]> h) in *.
  assert (same_shape h h2) as Hsh by by apply (same_shape_insert _ _ m).
  assert (i < length h)%nat as Hlt by by eapply lookup_lt_Some.
  set (D := if ps_neq q (mExportedParameters m) then list_to_set (mPredecessors m) else ∅ : gset nat).
  assert (settled_but ((S ∪ D) ∖ {[i]}) h2) as HS2.
  { apply (settled_update r S D h i m m2); try done.
    - unfold import_ports. by apply (import_each_idem _ _ (mEffectiveParameters m)).
    - intros Hne p Hp. unfold D. destruct (ps_neq q (mExportedParameters m)) eqn:Hneq.
      + by apply elem_of_list_to_set.
      + by apply ps_neq_spec in Hneq. }
  assert (∀ s, feeds h s i → nonempty q) as Hfed.
  { intros s Hs. apply Hn. by apply (feeds_ports r h s i m). }
  assert (exports h2 i = Some q) as Eq2 by (unfold h2; by rewrite (exports_insert_eq h i m)).
  assert (exports h i = Some (mExportedParameters m)) as Eq0 by (unfold exports; by rewrite Hi).
  unfold m_when. destruct (ps_neq q (mExportedParameters m)) eqn:Hneq.
  2: { split; [done|]. split; [done|]. apply ps_neq_spec in Hneq. exists {[i]}. split; simpl.
    - set_solver.
    - by apply (settled_but_mono ((S ∪ D) ∖ {[i]})); [set_solver|].
    - intros j Hj. apply list_lookup_insert_ne. set_solver.
    - intros j ->%elem_of_singleton. done.
    - rewrite Eq2, Eq0, Hneq. done.
    - eauto.
    - intros q' Eq' Hq'. rewrite Eq2 in Eq'. injection Eq' as <-. intros j p ->%elem_of_singleton.
      rewrite Eq0, <- Hneq. intros [= E]. rewrite E in Hq'. by apply empty_not_nonempty in Hq'. }
  assert (∀ p, p ∈ mPredecessors m → is_Some (h2 !! p) ∧ (r p < fuel)%nat) as Hps.
  { intros p Hp. rewrite <- (same_shape_is_Some h) by done. destruct (pf_rank _ _ H i m p Hi Hp).
    split; [done|lia]. }
  pose proof (refresh_loop r fuel IH (mPredecessors m) h2 w1 _ H2 Hps HS2) as Hloop.
  destruct (m_forM _ _ _) as [[[]|e] [h3 w3]]; destruct Hloop as (Hsh3 & Hloop); simpl in *;
    (split; [by eapply same_shape_trans|]); [|by apply (refused_shape h h2)].
  destruct Hloop as (H3 & V & Hv). split; [done|]. exists ({[i]} ∪ V).
  assert (i ∉ V) as HiV.
  { intros (p & Hp & Hr')%(vs_rank _ _ _ _ _ _ Hv). destruct (pf_rank _ _ H i m p Hi Hp). lia. }
  assert (∀ p, p ∈ mPredecessors m → p ∈ V) as HpV by apply Hv.
  split.
  - set_solver.
  - eapply settled_but_mono; [|apply Hv]. unfold D. intros x Hx.
    apply elem_of_difference in Hx as [Hx HxV]. apply elem_of_difference in Hx as [Hx Hxi].
    apply elem_of_union in Hx as [Hx|Hx%elem_of_list_to_set]; [set_solver|by destruct HxV; apply HpV].
  - intros j Hj. rewrite (vs_frame _ _ _ _ _ _ Hv) by set_solver. apply list_lookup_insert_ne. set_solver.
  - intros j [->%elem_of_singleton|Hj]%elem_of_union; [done|].
    destruct (vs_rank _ _ _ _ _ _ Hv j Hj) as (p & Hp & Hr'). destruct (pf_rank _ _ H i m p Hi Hp). lia.
  - intros _ p (m' & Hm' & Hp). rewrite Hi in Hm'. injection Hm' as <-. apply elem_of_union_r. by apply HpV.
  - intros s Hs. exists q. split; [|by apply (Hfed s)]. unfold exports in *. by rewrite (vs_frame _ _ _ _ _ _ Hv).
  - intros q' Eq' Hq'. assert (q' = q) as ->.
    { unfold exports in *. rewrite (vs_frame _ _ _ _ _ _ Hv) in Eq' by done. congruence. }
    intros j p [->%elem_of_singleton|Hj]%elem_of_union Hex Hp.
    { destruct Hp as (m' & Hm' & Hp). rewrite Hi in Hm'. injection Hm' as <-. apply elem_of_union_r. by apply HpV. }
    apply elem_of_union_r. apply (vs_fed _ _ _ _ _ _ Hv i) with (j := j); [|done| |].
    + intros p' Hp'. destruct (pf_rank _ _ H i m p' Hi Hp') as [_ Hlt']. split; [|done].
      destruct (pf_back _ _ H i m p' Hi Hp') as (t & Ht & Hin).
      exists t, q. split_and!; [|done..].
      unfold h2. rewrite list_lookup_insert_ne; [done|]. intros ->. lia.
    + unfold h2. rewrite exports_insert_ne; [done|]. intros ->. done.
    + by apply (pred_of_shape h).
Qed.

(** *** Clearing *)

(** The modules from which [i] is reached. *)
Inductive upstream h i : nat → Prop :=
  | up_self : upstream h i i
  | up_pred j p : upstream h i j → pred_of h j p → upstream h i p.

Lemma upstream_shape h h' i j : same_shape h h' → upstream h i j → upstream h' i j.
Proof. intros E. induction 1; econstructor; [done|by apply (pred_of_shape h)]. Qed.

Lemma upstream_trans h i j k : upstream h i j → upstream h j k → upstream h i k.
Proof. intros H1. induction 1; [done|by econstructor]. Qed.

Lemma upstream_rank r h i j : platform r h → upstream h i j → (r j ≤ r i)%nat.
Proof. intros H. induction 1 as [|j p _ IH (m & Hj & Hp)]; [done|]. destruct (pf_rank _ _ H j m p Hj Hp). lia. Qed.

Definition blank m : VpsimModule rate := set_mExportedParameters emptyParameterSet m.

(** The modules [called'] were reached from one of [roots]; the new ones of them are cleared. *)
Record cleared (r : nat → nat) h (roots called called' : list nat) (kept : list nat) h' : Prop := mkCleared {
  c_platform : platform r h';
  c_shape : same_shape h h';
  c_sub : ∀ j, j ∈ called → j ∈ called';
  c_roots : ∀ j, j ∈ roots → j ∈ called';
  c_closed : ∀ j p, j ∈ called' → j ∉ called → pred_of h j p → p ∈ called';
  c_up : ∀ j, j ∈ called' → j ∉ called → ∃ i, i ∈ roots ∧ upstream h i j;
  c_same : ∀ j, j ∈ called ∨ j ∉ called' ∨ j ∈ kept → h' !! j = h !! j;
  c_blank : ∀ j, j ∈ called' → j ∉ called → j ∉ kept → h' !! j = blank <$> h !! j }.

Lemma platform_blank r h i m : platform r h → h !! i = Some m → platform r (<[i := blank m]> h).
Proof.
  intros H Hi. destruct (pf_sets _ _ H i m Hi) as (? & ? & ?). by apply (platform_insert r h i m).
Qed.

Lemma clear_loop r fuel :
  (∀ h w i called, platform r h → is_Some (h !! i) → (r i < fuel)%nat → i ∉ called →
     ∃ called' h', clearPredecessors fuel i called (h, w) = (Ok called', (h', w))
       ∧ cleared r h [i] called called' [i] h') →
  ∀ ps h w called, platform r h → (∀ p, p ∈ ps → is_Some (h !! p) ∧ (r p < fuel)%nat) →
    ∃ called' h', clear_each (clearPredecessors fuel) ps called (h, w) = (Ok called', (h', w))
      ∧ cleared r h ps called called' [] h'.
Proof.
  intros IH ps. induction ps as [|p ps IHps]; intros h w called H Hps.
  { exists called, h. split; [done|]. split; try done; set_solver. }
  destruct (Hps p) as [[m Hp] Hrp]; [left|].
  assert (∀ q, q ∈ ps → is_Some (h !! q) ∧ (r q < fuel)%nat) as Hps' by (intros q Hq; apply Hps; by right).
  cbn [clear_each]. case_bool_decide as Hc.
  { destruct (IHps h w called H Hps') as (called' & h' & E & Hcl). exists called', h'. split; [done|].
    destruct Hcl as [? ? Hs Hr ? Hu ? ?]. split; try done.
    - intros j [->|Hj]%elem_of_cons; [by apply Hs|by apply Hr].
    - intros j Hj Hn. destruct (Hu j Hj Hn) as (i & Hi & Hup). exists i. split; [by right|done]. }
  erewrite m_bind_ok by (unfold upd_module; by rewrite Hp). cbv beta.
  set (h1 := <[p := blank m]> h). assert (platform r h1) as H1 by by apply platform_blank.
  assert (same_shape h h1) as Hsh1 by by apply (same_shape_insert _ _ m).
  assert (h1 !! p = Some (blank m)) as Hp1 by (apply list_lookup_insert_eq; by eapply lookup_lt_Some).
  destruct (IH h1 w p called H1 (mk_is_Some _ _ Hp1) Hrp Hc) as (c2 & h2 & E2 & Hcl2).
  fold (blank m). fold h1. m_exec_by E2.
  destruct (IHps h2 w c2 (c_platform _ _ _ _ _ _ _ Hcl2)) as (c3 & h3 & E3 & Hcl3).
  { intros q Hq. rewrite <- (same_shape_is_Some h1) by apply Hcl2. rewrite <- (same_shape_is_Some h) by done.
    by apply Hps'. }
  exists c3, h3. split; [done|].
  pose proof (same_shape_trans _ _ _ Hsh1 (c_shape _ _ _ _ _ _ _ Hcl2)) as Hsh2.
  assert (∀ j, j ≠ p → h1 !! j = h !! j) as Hne by (intros j Hj; apply list_lookup_insert_ne; done).
  destruct Hcl2 as [H2 _ Hs2 Hr2 Hcl2 Hu2 Hk2 Hb2], Hcl3 as [H3 Hsh3 Hs3 Hr3 Hcl3 Hu3 Hk3 Hb3]. split.
  - done.
  - by eapply same_shape_trans.
  - intros j Hj. by apply Hs3, Hs2.
  - intros j [->|Hj]%elem_of_cons; [apply Hs3, Hr2; left|by apply Hr3].
  - intros j q Hj Hn Hq. destruct (decide (j ∈ c2)) as [Hj2|Hj2].
    + apply Hs3. apply (Hcl2 j); [done..|by apply (pred_of_shape h)].
    + apply (Hcl3 j); [done..|by apply (pred_of_shape h)].
  - intros j Hj Hn. destruct (decide (j ∈ c2)) as [Hj2|Hj2].
    + destruct (Hu2 j Hj2 Hn) as (i & ->%list_elem_of_singleton & Hup). exists p. split; [left|].
      by apply (upstream_shape h1).
    + destruct (Hu3 j Hj Hj2) as (i & Hi & Hup). exists i. split; [by right|]. by apply (upstream_shape h2).
  - intros j Hj. assert (j ≠ p) as Hjp.
    { intros ->. destruct Hj as [Hj|[Hj|Hj]]; [done| |set_solver]. apply Hj, Hs3, Hr2. left. }
    rewrite Hk3, Hk2, Hne; [done..| |].
    + destruct Hj as [Hj|[Hj|Hj]]; [by left| |set_solver]. right. left. intros Hin. by apply Hj, Hs3.
    + destruct Hj as [Hj|[Hj|Hj]]; [left; by apply Hs2| |set_solver]. right. by left.
  - intros j Hj Hn _. destruct (decide (j ∈ c2)) as [Hj2|Hj2].
    + rewrite Hk3 by by left. destruct (decide (j = p)) as [->|Hjp].
      * rewrite Hk2 by (right; right; left). by rewrite Hp1, Hp.
      * rewrite Hb2; [|done..|set_solver]. by rewrite Hne.
    + rewrite Hb3; [|done..|set_solver]. rewrite Hk2 by (right; by left). rewrite Hne; [done|].
      intros ->. apply Hj2, Hr2. left.
Qed.

Lemma clear_spec r fuel h w i called : platform r h → is_Some (h !! i) → (r i < fuel)%nat → i ∉ called →
  ∃ called' h', clearPredecessors fuel i called (h, w) = (Ok called', (h', w))
    ∧ cleared r h [i] called called' [i] h'.
Proof.
  revert h w i called. induction fuel as [|fuel IH]; intros h w i called H [m Hi] Hr Hc; [lia|].
  destruct (clear_loop r fuel IH (mPredecessors m) h w (called ++ [i]) H) as (c' & h' & E & Hcl).
  { intros p Hp. destruct (pf_rank _ _ H i m p Hi Hp). split; [done|lia]. }
  exists c', h'. cbn [clearPredecessors].
  erewrite m_bind_ok by (unfold get_module, deref; simpl; by rewrite Hi). split; [done|].
  destruct Hcl as [H' Hsh Hs Hr' Hcl Hu Hk Hb].
  assert (i ∈ c') as Hic by (apply Hs; set_solver).
  split; try done.
  - intros j Hj. apply Hs. set_solver.
  - intros j ->%list_elem_of_singleton. done.
  - intros j p Hj Hn Hp. destruct (decide (j = i)) as [->|Hne]; [|apply (Hcl j); [done|set_solver|done]].
    destruct Hp as (m' & Hm' & Hp). rewrite Hi in Hm'. injection Hm' as <-. by apply Hr'.
  - intros j Hj Hn. exists i. split; [left|]. destruct (decide (j = i)) as [->|Hne]; [constructor|].
    destruct (Hu j Hj) as (p & Hp & Hup); [set_solver|]. apply (upstream_trans h i p); [|done].
    econstructor; [constructor|]. by exists m.
  - intros j Hj. apply Hk. destruct Hj as [Hj|[Hj|Hj]]; [left; set_solver|by right; left|left; set_solver].
  - intros j Hj Hn Hni. apply Hb; [done|set_solver|set_solver].
Qed.

(** *** A whole propagation *)

Lemma exports_same h h' i : h' !! i = h !! i → exports h' i = exports h i.
Proof. unfold exports. by intros ->. Qed.

(** Clearing upsets the cleared modules only. *)
Lemma cleared_settled r h i called' h' S : platform r h → cleared r h [i] [] called' [i] h' →
  settled_but S h → settled_but (S ∪ list_to_set called') h'.
Proof.
  intros H Hc HS j Hj Hn. assert (j ∉ called') as Hjc by set_solver.
  destruct (HS j) as (t & Ht & Eimp & Eexp); [|set_solver|].
  { pose proof (c_shape _ _ _ _ _ _ _ Hc) as E%(f_equal length). rewrite !length_fmap in E. by rewrite E. }
  exists t. rewrite (c_same _ _ _ _ _ _ _ Hc) by (right; by left). split_and!; [done| |done].
  rewrite <- Eimp. apply import_ports_ext. intros s Hs. apply exports_same.
  destruct (decide (s ∈ called')) as [Hsc|Hsc]; [|by apply (c_same _ _ _ _ _ _ _ Hc); right; left].
  destruct (pf_link _ _ H j t s Ht Hs) as (u & Hu & Hin). destruct Hjc.
  apply (c_closed _ _ _ _ _ _ _ Hc s); [done|set_solver|by exists u].
Qed.

Lemma refreshParameters_clear fuel i (st : list (VpsimModule rate) * W) :
  refreshParameters scale hook (Datatypes.S fuel) true i st
  = (h <- m_gets fst ;; clearPredecessors (Datatypes.S (length h)) i [] ;;;
     refreshParameters scale hook (Datatypes.S fuel) false i) st.
Proof.
  cbn [refreshParameters]. cbv [m_bind m_gets m_when m_ret].
  by destruct (clearPredecessors _ _ _ _) as [[c|e] s'].
Qed.

(** What a propagation from [i] establishes when only [i] was not consistent. *)
Lemma refresh_settles r h w i : platform r h → is_Some (h !! i) → settled_but {[i]} h →
  outcome r h (fun h' => consistent h' i
      ∧ ∀ q, exports h' i = Some q → nonempty q → Some q ≠ exports h i → settled_but ∅ h')
    (refresh scale hook i (h, w)).
Proof.
  intros H Hi HS. unfold refresh. m_exec. cbn [fst]. rewrite refreshParameters_clear. m_exec. cbn [fst].
  pose proof (pf_bound _ _ H i Hi) as Hb.
  destruct (clear_spec r (Datatypes.S (length h)) h w i [] H Hi) as (c & h1 & E & Hc); [lia|set_solver|].
  m_exec_by E. assert (Hsh1 := c_shape _ _ _ _ _ _ _ Hc). assert (H1 := c_platform _ _ _ _ _ _ _ Hc).
  assert (i ∈ c) as Hic by (apply (c_roots _ _ _ _ _ _ _ Hc); left).
  assert (h1 !! i = h !! i) as Ei by (apply (c_same _ _ _ _ _ _ _ Hc); right; right; left).
  pose proof (refresh_spec r (Datatypes.S (length h)) h1 w ({[i]} ∪ list_to_set c) i H1) as Hv.
  rewrite Ei in Hv. specialize (Hv Hi ltac:(lia) (cleared_settled r h i c h1 _ H Hc HS)).
  destruct (refreshParameters _ _ _ _ _ _) as [[[]|e] [h2 w2]]; destruct Hv as (Hsh & Hv); simpl in *;
    (split; [by eapply same_shape_trans|]); [|by apply (refused_shape h h1)].
  destruct Hv as (H2 & V & Hv). assert (i < length h2)%nat as Hlt.
  { apply lookup_lt_is_Some. apply (same_shape_is_Some h1 h2); [done|]. by rewrite Ei. }
  split; [done|]. split; [apply (v_settled _ _ _ _ _ _ Hv); [done|]; pose proof (v_self _ _ _ _ _ _ Hv); set_solver|].
  cbn [fst snd]. intros q Eq Hq Hne.
  assert (∀ j, upstream h i j → j ∈ V) as Hup.
  { intros j Hj. assert (upstream h i j ∧ j ∈ c ∧ j ∈ V) as (_ & _ & ?); [|done].
    induction Hj as [|j p Hj (_ & Hjc & HjV) Hp]; [split_and!; [constructor|done|apply Hv]|].
    split; [by econstructor|]. split; [apply (c_closed _ _ _ _ _ _ _ Hc j); [done|set_solver|done]|].
    assert (pred_of h1 j p) as Hp1 by by apply (pred_of_shape h).
    destruct (decide (j = i)) as [->|Hji].
    - apply (v_changed _ _ _ _ _ _ Hv); [|done]. rewrite Eq. by rewrite (exports_same h h1).
    - apply (v_closed _ _ _ _ _ _ Hv q Eq Hq j); [done| |done]. unfold exports.
      rewrite (c_blank _ _ _ _ _ _ _ Hc j) by set_solver. destruct Hp as (t & -> & _). done. }
  apply (settled_but_mono (({[i]} ∪ list_to_set c) ∖ V)); [|apply Hv]. intros j [Hj HjV]%elem_of_difference.
  destruct HjV. apply Hup. apply elem_of_union in Hj as [->%elem_of_singleton|Hj%elem_of_list_to_set]; [constructor|].
  destruct (c_up _ _ _ _ _ _ _ Hc j Hj) as (k & ->%list_elem_of_singleton & ?); [set_solver|done].
Qed.

(** *** Setting a parameter *)

Lemma setParameter_total as' (param : AnyParameter rate) (p : ParameterSet rate) : as_wf as' → ps_wf p →
  ∃ q, setParameter as' param p = Some q ∧ ps_wf q.
Proof.
  intros Has (Hb & Hd & Hr). destruct p as [bt dl tr], param as [v|v|v]; simpl in *;
    [destruct (pc_set_spec pick_new bt as' v Hb Has) as (c & -> & Hc & _)
    |destruct (pc_set_spec pick_new dl as' v Hd Has) as (c & -> & Hc & _)
    |destruct (pc_set_spec pick_new tr as' v Hr Has) as (c & -> & Hc & _)]; simpl; eexists; done.
Qed.

(** Replacing the parameters of a module and propagating. *)
Lemma change_settles r h w i m m' : platform r h → h !! i = Some m → shape m' = shape m →
  mEffectiveParameters m' = mEffectiveParameters m → mExportedParameters m' = mExportedParameters m →
  ps_wf (mIntrinsecParameters m') → settled_but ∅ h →
  outcome r h (fun h' => consistent h' i
      ∧ ∀ q, exports h' i = Some q → nonempty q → Some q ≠ exports h i → settled_but ∅ h')
    (refresh scale hook i (<[i := m']> h, w)).
Proof.
  intros H Hi Esh Ee Ex Hw HS. destruct (pf_sets _ _ H i m Hi) as (_ & Hwx & Hwe).
  assert (same_shape h (<[i := m']> h)) as Hsh by by apply (same_shape_insert _ _ m).
  assert (platform r (<[i := m']> h)) as H1.
  { apply (platform_insert r h i m); try done; by rewrite ?Ee, ?Ex. }
  assert (∀ j, exports (<[i := m']> h) j = exports h j) as Hex.
  { intros j. destruct (decide (i = j)) as [<-|Hne]; [|by apply exports_insert_ne].
    rewrite (exports_insert_eq h i m) by done. unfold exports. rewrite Hi. simpl. by rewrite Ex. }
  destruct (refresh_settles r (<[i := m']> h) w i H1) as [Hsh' Hres].
  - apply (same_shape_is_Some h); [done|eauto].
  - intros j Hj Hn. rewrite length_insert in Hj. destruct (HS j Hj) as (t & Ht & Ei & Eo); [set_solver|].
    exists t. rewrite list_lookup_insert_ne by set_solver. split_and!; [done| |done]. rewrite <- Ei.
    by apply import_ports_ext.
  - split; [by eapply same_shape_trans|]. rewrite Hex in Hres.
    destruct (refresh scale hook i (<[i := m']> h, w)) as [[[]|e] st]; [done|]. simpl in *.
    by apply (refused_shape h (<[i := m']> h)).
Qed.

Lemma set_outcome r h w i m as' (param : AnyParameter rate) :
  platform r h → h !! i = Some m → settled_but ∅ h → as_wf as' →
  outcome r h (fun h' => consistent h' i
      ∧ ∀ q, exports h' i = Some q → nonempty q → Some q ≠ exports h i → settled_but ∅ h')
    (setModuleParameter scale hook i as' param (h, w)).
Proof.
  intros H Hi HS Has. destruct (pf_sets _ _ H i m Hi) as (Hw & _ & _).
  destruct (setParameter_total as' param _ Has Hw) as (p & Ep & Hp).
  unfold setModuleParameter. erewrite m_bind_ok by (unfold get_module, deref; simpl; by rewrite Hi).
  erewrite m_bind_ok by (unfold m_lift; by rewrite Ep).
  erewrite m_bind_ok by (unfold upd_module; by rewrite Hi).
  by apply (change_settles r h w i m).
Qed.

(** C17: setting a parameter of a module of an acyclic, settled platform: the propagation always
    ends, and it can only fail with the exception of a hook or with the overflow of an address
    translation.  Afterwards the module is consistent with its successors, and if it exports
    parameters that it did not export before then every module of the platform is consistent
    with its successors: each port holds what the module behind it exports, and each module
    exports what its ports and its own parameters give. *)
Theorem setParameter_settles r h w i m as' (param : AnyParameter rate) :
  platform r h → h !! i = Some m → settled_but ∅ h → as_wf as' →
  match setModuleParameter scale hook i as' param (h, w) with
  | (Ok _, (h', _)) => platform r h' ∧ consistent h' i
      ∧ ∀ q, exports h' i = Some q → nonempty q → Some q ≠ exports h i →
          ∀ j, (j < length h)%nat → consistent h' j
  | (Err e, _) => refused h e
  end.
Proof.
  intros H Hi HS Has. destruct (set_outcome r h w i m as' param H Hi HS Has) as [Hsh Hres].
  destruct (setModuleParameter scale hook i as' param (h, w)) as [[[]|e] [h' w']]; [|done]. simpl in *.
  destruct Hres as (H' & Hc & Hq). split_and!; [done..|]. intros q Eq Hn Hne j Hj.
  apply (Hq q Eq Hn Hne); [|set_solver]. apply (f_equal length) in Hsh. rewrite !length_fmap in Hsh. lia.
Qed.
End propagate.

(** ** What the operations leave alone *)

Section views.
Context {rate : Type} `{!ModuleParameter (ApproximateTraversalRate rate)}.
Context (scale : ApproximateDelay → rate → ApproximateDelay).
Context {W : Type} (hook : nat → list (VpsimModule rate) → M W unit).
(** A view of a module that does not depend on its parameters. *)
Context {X : Type} (g : VpsimModule rate → X).

Definition view (s : list (VpsimModule rate) * W) : list X := g <$> s.1.

Definition static : Prop := ∀ x m, g (set_mExportedParameters x m) = g m
  ∧ g (set_mIntrinsecParameters x m) = g m ∧ ∀ xs, g (set_mEffectiveParameters xs m) = g m.
Hypothesis Hg : static.

Lemma view_upd i f : (∀ m, g (f m) = g m) → preserves view (upd_module i f).
Proof.
  intros Hf [h w]. unfold view, upd_module. destruct (h !! i) as [m|] eqn:E; [|done]. simpl.
  rewrite list_fmap_insert, Hf. apply list_insert_id. by rewrite list_lookup_fmap, E.
Qed.

Lemma view_hook (k : nat → list (VpsimModule rate) → M W unit) n : preserves view (call_hook k n).
Proof. intros [h w]. unfold call_hook. by destruct (k n h w). Qed.

Lemma view_clear fuel i called : preserves view (clearPredecessors fuel i called).
Proof.
  induction fuel as [|fuel IH] in i, called |- *; [done|]. simpl. apply preserves_bind; [done|]. intros m.
  generalize (called ++ [i]). induction (mPredecessors m) as [|p ps IHps]; intros l; simpl; [done|].
  case_bool_decide; [apply IHps|].
  apply preserves_bind; [by apply view_upd; intros; apply Hg|]. intros _. by apply preserves_bind.
Qed.

Ltac keeps_view := repeat first [ apply view_clear | apply preserves_when | apply preserves_bind; [|intros ?]
  | apply preserves_if | by apply view_upd; intros ?; first [done | apply Hg; exact emptyParameterSet | apply Hg]
  | apply preserves_forM; intros ? | apply view_hook | done ].

Lemma view_refresh fuel b i : preserves view (refreshParameters scale hook fuel b i).
Proof. induction fuel as [|fuel IH] in b, i |- *; [done|]. cbn [refreshParameters]. keeps_view; apply IH. Qed.

Lemma view_set i a param : preserves view (setModuleParameter scale hook i a param).
Proof. unfold setModuleParameter, refresh. keeps_view. apply view_refresh. Qed.

Lemma view_modifier i md : (∀ x m, g (set_mModifier x m) = g m) → preserves view (addParameterSetModifier scale hook i md).
Proof. intros Hm. unfold addParameterSetModifier, refresh. keeps_view. apply view_refresh. Qed.

Lemma view_connect i j port : (∀ x m, g (set_mSuccessors x m) = g m) → (∀ x m, g (set_mPredecessors x m) = g m) →
  preserves view (addSuccessor scale hook i j port).
Proof.
  intros Hs Hp. unfold addSuccessor, addPredecessor, refresh. apply preserves_bind; [done|]. intros m.
  apply preserves_if; [done|]. apply preserves_bind; [done|]. intros [k|]; [done|].
  keeps_view. apply view_refresh.
Qed.
End views.

(** ** A concrete platform: a CPU, a bus and a memory *)

#[global] Instance nat_rate : ModuleParameter (ApproximateTraversalRate nat) := rate_parameter Nat.ltb Nat.eqb.
#[global] Instance nat_rate_laws : ModuleParameterLaws (ApproximateTraversalRate nat).
Proof.
  split. intros [a] [b]. unfold mp_eq; simpl. rewrite Nat.eqb_eq. split; congruence.
Qed.

Definition nat_scale (d : ApproximateDelay) (n : nat) : ApproximateDelay := mkDelay (mDelay d * Z.of_nat n).
Definition no_hook (n : nat) (h : list (VpsimModule nat)) : M unit unit := m_ret tt.

Abbreviation sim := (M (list (VpsimModule nat) * unit) unit) (only parsing).
Definition connect (i s : nat) : sim := addSuccessor nat_scale no_hook i s 0.
Definition set_blocking (i : nat) (a : AddrSpace) (b : BlockingTLMEnabled) : sim :=
  setModuleParameter nat_scale no_hook i a (ABlocking b).

Definition three_modules : list (VpsimModule nat) :=
  [new_VpsimModule "cpu" intermediate maxRange 1; new_VpsimModule "bus" intermediate maxRange 1;
   new_VpsimModule "memory" memoryMapped (mkAddrSpace 0x1000 0x1FFF) 0].

(** The CPU (0) is connected to the bus (1), the bus to the memory (2), and the memory blocks. *)
Definition built : list (VpsimModule nat) :=
  Eval vm_compute in
  (m_forM [connect 0 1; connect 1 2; set_blocking 2 (mkAddrSpace 0x1000 0x1FFF) BT_ENABLED] (fun c => c)
     (three_modules, tt)).2.1.

Lemma built_ok : (m_forM [connect 0 1; connect 1 2; set_blocking 2 (mkAddrSpace 0x1000 0x1FFF) BT_ENABLED]
  (fun c => c) (three_modules, tt)) = (Ok tt, (built, tt)).
Proof. vm_compute. done. Qed.

(** One goal per module of a concrete platform. *)
Lemma three_cases {A} (a b c m : A) i : [a; b; c] !! i = Some m →
  i = 0%nat ∧ m = a ∨ i = 1%nat ∧ m = b ∨ i = 2%nat ∧ m = c.
Proof. destruct i as [|[|[|i]]]; naive_solver. Qed.
Ltac by_module Hi := apply three_cases in Hi as [[-> ->]|[[-> ->]|[-> ->]]].

Lemma pc_wf_one {A} (a : AddrSpace) (v : A) : as_wf a → pc_wf [(a, v)].
Proof. intros Ha. split; [done|]. split; [|done]. intros q Hq. by apply elem_of_nil in Hq. Qed.

Lemma built_platform : platform (fun i => i) built.
Proof.
  assert (as_wf (mkAddrSpace 0x1000 0x1FFF)) as Hm by (unfold as_wf; simpl; lia).
  split.
  - intros i m p Hi Hp. by_module Hi; simpl in Hp; [by apply elem_of_nil in Hp|..];
      apply list_elem_of_singleton in Hp as ->; (split; [by eexists|lia]).
  - intros i [m Hi]. by_module Hi; simpl; lia.
  - intros i m s Hi Hs. by_module Hi; simpl in Hs; [..|by apply elem_of_nil in Hs];
      apply list_elem_of_singleton in Hs as [= ->]; (eexists; split; [done|left]).
  - intros i m p Hi Hp. by_module Hi; simpl in Hp; [by apply elem_of_nil in Hp|..];
      apply list_elem_of_singleton in Hp as ->; (eexists; split; [done|left]).
  - intros i m Hi. by_module Hi; done.
  - intros i m Hi. by_module Hi; split_and!; repeat constructor; simpl; try done; apply (pc_wf_one _ _ Hm).
  - intros i m Hi. by_module Hi; by repeat constructor.
  - intros i [m Hi]. exists [mkAddrSpace 0x1000 0x1FFF]. split; [|by apply pc_wf_one].
    by_module Hi; vm_compute; done.
Qed.

Lemma built_settled : settled_but nat_scale ∅ built.
Proof.
  intros i Hi _. do 3 (destruct i as [|i]; [eexists; split; [reflexivity|vm_compute; done]|]).
  simpl in Hi. lia.
Qed.

Definition blocked_half : AddrSpace := mkAddrSpace 0x1800 0x1FFF.

Lemma setParameter_settles_witness :
  match set_blocking 2 blocked_half BT_DISABLED (built, tt) with
  | (Ok _, (h', _)) => platform (fun i => i) h' ∧ consistent nat_scale h' 2
      ∧ ∀ q, exports h' 2 = Some q → nonempty q → Some q ≠ exports built 2 →
          ∀ j, (j < 3)%nat → consistent nat_scale h' j
  | (Err e, _) => refused no_hook built e
  end.
Proof.
  eapply (setParameter_settles nat_scale no_hook (fun i => i) built tt 2).
  - apply built_platform.
  - reflexivity.
  - apply built_settled.
  - unfold blocked_half, as_wf. simpl. lia.
Defined.

(** ** What an initiator sees *)

Section seen.
Context {rate : Type} `{!ModuleParameter (ApproximateTraversalRate rate)}
  `{!ModuleParameterLaws (ApproximateTraversalRate rate)}.
Context (scale : ApproximateDelay → rate → ApproximateDelay).
Implicit Types (h : list (VpsimModule rate)) (m t : VpsimModule rate) (p q intr : ParameterSet rate) (x : Z).

(** The blocking parameter of an address: whether the set defines it, and whether it is enabled. *)
Definition defined x p : Prop := is_Some (pc_lookup (mBlockingTLMEnabledParameter p) x).
Definition enabled x p : Prop := pc_lookup (mBlockingTLMEnabledParameter p) x = Some BT_ENABLED.

Lemma combined_blocking (f g : Z → option BlockingTLMEnabled) x :
  (is_Some (combined bt_add f g x) ↔ is_Some (f x) ∨ is_Some (g x))
  ∧ (combined bt_add f g x = Some BT_ENABLED ↔ f x = Some BT_ENABLED ∨ g x = Some BT_ENABLED).
Proof.
  unfold combined. destruct (f x) as [[]|], (g x) as [[]|]; vm_compute; split; split; intros; naive_solver.
Qed.

Lemma merge_ports_blocking x es acc r : Forall ps_wf es → ps_wf acc → merge_ports es acc = Ok r →
  (defined x r ↔ defined x acc ∨ Exists (defined x) es) ∧ (enabled x r ↔ enabled x acc ∨ Exists (enabled x) es).
Proof.
  intros Hes. revert acc. induction Hes as [|e es He Hes IH]; intros acc Hacc.
  { intros [= <-]. rewrite !Exists_nil. naive_solver. }
  simpl. destruct (mergeImportedParam_lookup e acc He Hacc) as (a1 & E & H1 & Hb & _).
  rewrite E. simpl. intros Er. destruct (IH a1 H1 Er) as [Hd Hen]. rewrite Hd, Hen, !Exists_cons.
  unfold defined, enabled. rewrite Hb.
  destruct (combined_blocking (pc_lookup (mBlockingTLMEnabledParameter e))
    (pc_lookup (mBlockingTLMEnabledParameter acc)) x) as [-> ->]. tauto.
Qed.

Lemma applyModifier_plain md p : Forall (eq IdentityModifier) md → applyModifier md p = Ok p.
Proof. induction 1 as [|s md <- Hmd IH]; simpl; [done|]. by rewrite IH. Qed.

Lemma exported_blocking x es intr md q : Forall ps_wf es → ps_wf intr → Forall (eq IdentityModifier) md →
  exported scale es intr md = Ok q →
  (defined x q ↔ defined x intr ∨ Exists (defined x) es) ∧ (enabled x q ↔ enabled x intr ∨ Exists (enabled x) es).
Proof.
  intros Hes Hi Hmd. unfold exported.
  destruct (merge_ports_total es emptyParameterSet Hes empty_wf) as (p & Ep & Hp & _). rewrite Ep. simpl.
  destruct (addExportedParam_lookup scale intr p Hi Hp) as (r & Er & _ & Hb & _). rewrite Er. simpl.
  rewrite applyModifier_plain by done. intros [= <-].
  destruct (merge_ports_blocking x es emptyParameterSet p Hes empty_wf Ep) as [Hd Hen].
  unfold defined, enabled in *. rewrite Hb.
  destruct (combined_blocking (pc_lookup (mBlockingTLMEnabledParameter intr))
    (pc_lookup (mBlockingTLMEnabledParameter p)) x) as [-> ->]. rewrite Hd, Hen.
  assert (~ is_Some (pc_lookup (mBlockingTLMEnabledParameter (@emptyParameterSet rate)) x)) by by intros [].
  assert (pc_lookup (mBlockingTLMEnabledParameter (@emptyParameterSet rate)) x ≠ Some BT_ENABLED) by done. tauto.
Qed.

(** Ports that are not connected define nothing. *)
Definition idle_ports h : Prop := ∀ i m k, h !! i = Some m →
  mSuccessors m !! k = Some None → mEffectiveParameters m !! k = Some emptyParameterSet.
Definition no_translation h : Prop := ∀ i m, h !! i = Some m → Forall (eq IdentityModifier) (mModifier m).

Lemma import_each_lookup h ss es es' k : import_each h ss es = Ok es' → length ss = length es →
  es' !! k = match ss !! k with Some (Some s) => exports h s | Some None => es !! k | None => None end.
Proof.
  revert es es' k. induction ss as [|o ss IH]; intros [|e es] es' k; simpl; try done; [by intros [= <-]|].
  intros E Hlen. destruct o as [s|]; simpl in E.
  - unfold deref in E. destruct (h !! s) as [t|] eqn:Hs; [|done]. simpl in E.
    destruct (import_each h ss es) as [r|] eqn:Er; [|done]. simplify_eq/=.
    destruct k as [|k]; simpl; [unfold exports; by rewrite Hs|]. rewrite (IH es r k Er) by lia. done.
  - destruct (import_each h ss es) as [r|] eqn:Er; [|done]. simplify_eq/=.
    destruct k as [|k]; simpl; [done|]. rewrite (IH es r k Er) by lia. done.
Qed.

(** The ports of a settled module: what is at one of them is at the export of a successor. *)
Lemma settled_ports r h i m (P : ParameterSet rate → Prop) : platform r h → settled_but scale ∅ h → idle_ports h →
  h !! i = Some m → ~ P emptyParameterSet →
  Exists P (mEffectiveParameters m) ↔ ∃ s t, Some s ∈ mSuccessors m ∧ h !! s = Some t ∧ P (mExportedParameters t).
Proof.
  intros H HS Hidle Hi HP. destruct (HS i) as (m' & Hm' & Eimp & _); [by eapply lookup_lt_Some|set_solver|].
  rewrite Hi in Hm'. injection Hm' as <-. pose proof (pf_ports _ _ H i m Hi) as Hlen.
  rewrite Exists_exists. split.
  - intros (e & [k Hk]%list_elem_of_lookup & He). pose proof (import_each_lookup _ _ _ _ k Eimp Hlen) as El.
    rewrite Hk in El. destruct (mSuccessors m !! k) as [[s|]|] eqn:Hs; [| |done].
    + unfold exports in El. destruct (h !! s) as [t|] eqn:Ht; [|done]. injection El as ->.
      exists s, t. split; [by eapply list_elem_of_lookup_2|done].
    + rewrite (Hidle i m k Hi Hs) in Hk. by injection Hk as <-.
  - intros (s & t & [k Hs]%list_elem_of_lookup & Ht & He). exists (mExportedParameters t). split; [|done].
    apply (list_elem_of_lookup_2 _ k). rewrite (import_each_lookup _ _ _ _ k Eimp Hlen), Hs.
    unfold exports. by rewrite Ht.
Qed.

(** What a module of a settled platform exports is defined by the modules behind it. *)
Lemma settled_export r h i m x : platform r h → settled_but scale ∅ h → idle_ports h → no_translation h →
  h !! i = Some m →
  (defined x (mExportedParameters m) ↔ ∃ j t, upstream h j i ∧ h !! j = Some t ∧ defined x (mIntrinsecParameters t))
  ∧ (enabled x (mExportedParameters m) ↔ ∃ j t, upstream h j i ∧ h !! j = Some t ∧ enabled x (mIntrinsecParameters t)).
Proof.
  intros H HS Hidle Hplain. remember (length h - r i)%nat as n eqn:Hn. revert i m Hn.
  induction (lt_wf n) as [n _ IH]; intros i m -> Hi.
  destruct (HS i) as (m' & Hm' & _ & Eexp); [by eapply lookup_lt_Some|set_solver|].
  rewrite Hi in Hm'. injection Hm' as <-. destruct (pf_sets _ _ H i m Hi) as (Hwi & _ & Hwe).
  destruct (exported_blocking x _ _ _ _ Hwe Hwi (Hplain i m Hi) Eexp) as [Hd He].
  assert (∀ (P : ParameterSet rate → Prop),
    (∀ s t, Some s ∈ mSuccessors m → h !! s = Some t → P (mExportedParameters t) ↔
       ∃ j u, upstream h j s ∧ h !! j = Some u ∧ P (mIntrinsecParameters u)) →
    (P (mIntrinsecParameters m) ∨ ∃ s t, Some s ∈ mSuccessors m ∧ h !! s = Some t ∧ P (mExportedParameters t))
    ↔ ∃ j t, upstream h j i ∧ h !! j = Some t ∧ P (mIntrinsecParameters t)) as Hstep.
  { intros P HP. split.
    - intros [Hm|(s & t & Hs & Ht & HPt)]; [exists i, m; split; [constructor|done]|].
      apply (HP s t Hs Ht) in HPt as (j & u & Hup & Hj & Hu). exists j, u. split; [|done].
      destruct (pf_link _ _ H i m s Hi Hs) as (t' & Ht' & Hin). econstructor; [done|by exists t'].
    - intros (j & u & Hup & Hj & Hu). inversion Hup as [|s p Hs Hp]; subst.
      + left. rewrite Hi in Hj. by injection Hj as <-.
      + right. destruct Hp as (t & Ht & Hin). destruct (pf_back _ _ H s t i Ht Hin) as (m' & Hm' & Hs').
        rewrite Hi in Hm'. injection Hm' as <-. exists s, t. split_and!; [done..|].
        apply (HP s t Hs' Ht). by exists j, u. }
  assert (∀ s t, Some s ∈ mSuccessors m → h !! s = Some t → (length h - r s < length h - r i)%nat) as Hlt.
  { intros s t Hs Ht. destruct (pf_link _ _ H i m s Hi Hs) as (t' & Ht' & Hin).
    destruct (pf_rank _ _ H s t' i Ht' Hin). pose proof (pf_bound _ _ H s (mk_is_Some _ _ Ht)). lia. }
  rewrite Hd, He, !(settled_ports r h i m) by (done || by intros []). split; apply Hstep; intros s t Hs Ht;
    by apply (IH _ (Hlt s t Hs Ht) s t).
Qed.

(** on a settled, acyclic platform without address translation, an initiator finds the
    blocking parameter of an address enabled at a port exactly when some module that can be
    reached through the port enables it there, or when no such module defines it and the
    default is enabled. *)
Theorem blocking_seen r h i m (k : nat) s (dflt : BlockingTLMEnabled) x :
  platform r h → settled_but scale ∅ h → idle_ports h → no_translation h →
  h !! i = Some m → mSuccessors m !! k = Some (Some s) →
  ∃ b, getBlockingTLMEnabled dflt m (Z.of_nat k) x = Ok b
    ∧ (b = BT_ENABLED ↔
        (∃ j t, upstream h j s ∧ h !! j = Some t ∧ enabled x (mIntrinsecParameters t))
        ∨ dflt = BT_ENABLED ∧ ~ ∃ j t, upstream h j s ∧ h !! j = Some t ∧ defined x (mIntrinsecParameters t)).
Proof.
  intros H HS Hidle Hplain Hi Hk. destruct (HS i) as (m' & Hm' & Eimp & _); [by eapply lookup_lt_Some|set_solver|].
  rewrite Hi in Hm'. injection Hm' as <-.
  destruct (pf_link _ _ H i m s Hi) as (t & Ht & _); [by eapply list_elem_of_lookup_2|].
  pose proof (import_each_lookup _ _ _ _ k Eimp (pf_ports _ _ H i m Hi)) as El. rewrite Hk in El.
  unfold exports in El. rewrite Ht in El. simpl in El.
  exists (getBlockingTLMEnabledParameter dflt (mExportedParameters t) x). split.
  { unfold getBlockingTLMEnabled, vec_get. rewrite decide_True by lia. by rewrite Nat2Z.id, El. }
  destruct (settled_export r h s t x H HS Hidle Hplain Ht) as [<- <-].
  unfold getBlockingTLMEnabledParameter. rewrite getParameterValue_lookup. unfold defined, enabled.
  destruct (pc_lookup (mBlockingTLMEnabledParameter (mExportedParameters t)) x) as [b|]; simpl.
  - split; [by intros ->; left|]. intros [[= ->]|[_ []]]; [done|by eexists].
  - split; [intros ->; right; split; [done|by intros []]|]. by intros [[=]|[-> _]].
Qed.
End seen.

Lemma blocking_seen_witness :
  ∃ b, getBlockingTLMEnabled BT_DISABLED (nth 0 built (new_VpsimModule "" dummy maxRange 0)) 0 0x1004 = Ok b
    ∧ (b = BT_ENABLED ↔
        (∃ j t, upstream built j 1 ∧ built !! j = Some t ∧ enabled 0x1004 (mIntrinsecParameters t))
        ∨ BT_DISABLED = BT_ENABLED ∧ ~ ∃ j t, upstream built j 1 ∧ built !! j = Some t ∧ defined 0x1004 (mIntrinsecParameters t)).
Proof.
  apply (blocking_seen nat_scale (fun i => i) built 0 _ 0 1 BT_DISABLED 0x1004).
  - apply built_platform.
  - apply built_settled.
  - intros i m k Hi Hk. by_module Hi; destruct k as [|[|k]]; done.
  - intros i m Hi. by_module Hi; by repeat constructor.
  - reflexivity.
  - reflexivity.
Defined.


(** a parameter set on a module that has no successor yet is lost: its allowed spaces are
    empty, so that the refresh trims the intrinsic parameters to nothing, and connecting the
    module afterwards does not bring them back; set after the connection it is exported. *)
Theorem early_parameter_lost :
  let early := set_blocking 1 (mkAddrSpace 0x1000 0x1FFF) BT_ENABLED ;;; connect 1 2 ;;; connect 0 1 in
  let late := connect 1 2 ;;; connect 0 1 ;;; set_blocking 1 (mkAddrSpace 0x1000 0x1FFF) BT_ENABLED in
  let seen (h : list (VpsimModule nat)) :=
    let* m := deref h 0 in getBlockingTLMEnabled BT_DISABLED m 0 0x1004 in
  (early (three_modules, tt)).1 = Ok tt ∧ seen (early (three_modules, tt)).2.1 = Ok BT_DISABLED
  ∧ (late (three_modules, tt)).1 = Ok tt ∧ seen (late (three_modules, tt)).2.1 = Ok BT_ENABLED.
Proof. vm_compute. split_and!; done. Qed.

(** The expectations of the repository's own test of modules in a loop
    ([core/vpsimModule/test/vpsimModule_test.cpp], [loopModules]), run on the model. *)
Definition loop_modules : list (VpsimModule nat) :=
  [new_VpsimModule "modmm1" memoryMapped (mkAddrSpace 0 0x2000) 0;
   new_VpsimModule "modmm2" memoryMapped (mkAddrSpace 0x2001 0x4000) 0;
   new_VpsimModule "modi1" intermediate maxRange 1; new_VpsimModule "modi2" intermediate maxRange 1;
   new_VpsimModule "modd1" dummy maxRange 2; new_VpsimModule "modd2" dummy maxRange 2].

Definition loop_run : result unit * (list (VpsimModule nat) * unit) :=
  let succ := addSuccessor nat_scale no_hook in
  let set := setModuleParameter nat_scale no_hook in
  m_forM [succ 4%nat 0%nat 0; succ 5%nat 1%nat 0; succ 2%nat 3%nat 0; succ 3%nat 4%nat 0; succ 4%nat 5%nat 1; succ 5%nat 4%nat 1;
    set 0%nat (mkAddrSpace 0 0x100) (ABlocking BT_ENABLED);
    set 1%nat (mkAddrSpace 0x2001 0x3000) (ABlocking BT_DISABLED);
    set 4%nat maxRange (ABlocking BT_DISABLED); set 5%nat maxRange (ABlocking BT_ENABLED);
    addParameterSetModifier nat_scale no_hook 3%nat [AddressTranslator 0x1000 false];
    set 1%nat (mkAddrSpace 0x2500 0x3500) (ADelay (mkDelay 10))] (fun c => c) (loop_modules, tt).

Example loopModules_test :
  let blocking i k a := let* m := deref loop_run.2.1 i in getBlockingTLMEnabled BT_DISABLED m k a in
  let delay i k a := let* m := deref loop_run.2.1 i in getApproximateDelay (mkDelay 0) m k a in
  loop_run.1 = Ok tt
  ∧ (blocking 2%nat 0 <$> [0x10; 0xfff; 0x1000; 0x1250; u64 (- 1)])
    = Ok <$> [BT_DISABLED; BT_DISABLED; BT_ENABLED; BT_ENABLED; BT_DISABLED]
  ∧ (blocking 3%nat 0 <$> [0; 0x250; 0xfff; 0x5500]) = Ok <$> [BT_ENABLED; BT_ENABLED; BT_ENABLED; BT_DISABLED]
  ∧ (blocking 4%nat 1 <$> [0x150; 0x30000; 0x1000]) = Ok <$> [BT_ENABLED; BT_DISABLED; BT_ENABLED]
  ∧ [delay 2%nat 0 0x4000; delay 3%nat 0 0x6000; delay 4%nat 0 0; delay 5%nat 1 0x3000]
    = [Ok (mkDelay 10); Ok (mkDelay 0); Ok (mkDelay 0); Ok (mkDelay 10)].
Proof. vm_compute. done. Qed.
