(* ===== verification/Schedule.v ===== *)
(** * Appointments ([core/vpsimModule/paramScheduler.cpp], [paramAppointment.cpp],
      [core/logger/loggerScheduler.cpp], [appointment.cpp])

    Two SystemC modules change settings at given dates of the simulation: the parameter
    scheduler and the logger scheduler.  Each keeps the appointments to come in the order of
    their dates, and a thread that waits for the first one or for a new one to be added.  The
    two have the same thread and differ in where a new appointment is inserted: the multiset
    of the parameter scheduler puts it after those of the same date, the list of the logger
    scheduler before them.

    The model is a step relation: other processes add appointments, the thread runs, and the
    SystemC kernel delivers the notification of the event, the timeout of the wait, and the
    advance of time.  The file shows that the parameter scheduler applies every appointment
    once, at its date, in order; that the logger scheduler does so too when the dates differ;
    and that it can lose an appointment when they do not. *)

From S2P Require Import Prelude.
From Stdlib Require Import Sorted.

Section appointments.
Context {A : Type} (mDate : A → Z).

(** ** Appointments and schedules *)

Definition isPassed (now : Z) (a : A) : bool := bool_decide (mDate a < now).
Definition isNow (now : Z) (a : A) : bool := bool_decide (mDate a = now).
Definition timeTo (now : Z) (a : A) : Z := u64 (mDate a - now).

(** [std::multiset::insert]: after the elements that are not greater. *)
Fixpoint multiset_insert (a : A) (l : list A) : list A :=
  match l with
  | [] => [a]
  | b :: l' => if bool_decide (mDate a < mDate b) then a :: b :: l' else b :: multiset_insert a l'
  end.

(** The loop of [LoggerScheduler::addAppointment]: before the first that is not earlier. *)
Fixpoint list_insert (now : Z) (a : A) (l : list A) : list A :=
  match l with
  | [] => [a]
  | b :: l' => if bool_decide (timeTo now b < timeTo now a) then b :: list_insert now a l' else a :: b :: l'
  end.

(** Where the thread is: not started, in [wait (event)], or in [wait (time, event)] with the
    appointment it has taken and the time of its timeout. *)
Inductive thread := Starting | Idle | Waiting (next : A) (timeout : Z).

(** The scheduler, the time, the pending notification, and what was applied and when. *)
Record scheduler := mkScheduler {
  now : Z;
  mSchedule : list A;
  waits : thread;
  notified : bool;
  applied : list (Z * A) }.

Definition new_scheduler : scheduler := mkScheduler 0 [] Starting false [].

(** The head of the loops of [schedule], up to a [wait]. *)
Definition enter (s : scheduler) : scheduler :=
  mkScheduler (now s) (mSchedule s)
    (match mSchedule s with [] => Idle | a :: _ => Waiting a (now s + timeTo (now s) a) end)
    (notified s) (applied s).

(** The rest of the loop after the [wait]: the first appointment is removed, whichever it is. *)
Definition resume (s : scheduler) : scheduler :=
  enter (match waits s with
         | Waiting a _ =>
             if isNow (now s) a
             then mkScheduler (now s) (tail (mSchedule s)) (waits s) (notified s) (applied s ++ [(now s, a)])
             else s
         | _ => s
         end).

Definition add_with (ins : Z → A → list A → list A) (a : A) (s : scheduler) : scheduler :=
  if isPassed (now s) a then s
  else mkScheduler (now s) (ins (now s) a (mSchedule s)) (waits s) true (applied s).

Definition addAppointment (a : A) (s : scheduler) : scheduler := add_with (fun _ => multiset_insert) a s.
Definition logger_addAppointment (a : A) (s : scheduler) : scheduler := add_with list_insert a s.

(** ** The kernel *)

Definition clear_event (s : scheduler) : scheduler :=
  mkScheduler (now s) (mSchedule s) (waits s) false (applied s).
Definition set_now (t : Z) (s : scheduler) : scheduler :=
  mkScheduler t (mSchedule s) (waits s) (notified s) (applied s).

Inductive kernel_step : scheduler → scheduler → Prop :=
  | k_start s : waits s = Starting → kernel_step s (resume s)
  | k_notify s : notified s = true → waits s ≠ Starting → kernel_step s (resume (clear_event s))
  | k_timeout s a : waits s = Waiting a (now s) → kernel_step s (resume s)
  | k_advance s t : notified s = false → waits s ≠ Starting → now s < t < 2 ^ 64 →
      (∀ a T, waits s = Waiting a T → t ≤ T) → kernel_step s (set_now t s).

(** A run: the kernel and the processes that add appointments, with the accepted ones. *)
Inductive run (add : A → scheduler → scheduler) : list A → scheduler → Prop :=
  | run_start : run add [] new_scheduler
  | run_kernel acc s s' : run add acc s → kernel_step s s' → run add acc s'
  | run_add acc s a : run add acc s → 0 ≤ mDate a < 2 ^ 64 →
      run add (if isPassed (now s) a then acc else acc ++ [a]) (add a s).

(** ** The invariant of the parameter scheduler *)

Definition sorted (l : list A) : Prop := StronglySorted (fun a b => mDate a ≤ mDate b) l.

(** The schedule is sorted, nothing in it is overdue, what was applied was applied at its date,
    and the appointments of a date were and will be applied in the order they were added. *)
Record sched_core (acc : list A) (s : scheduler) : Prop := mkSchedCore {
  si_now : 0 ≤ now s < 2 ^ 64;
  si_sorted : sorted (mSchedule s);
  si_dates : ∀ a, a ∈ mSchedule s → now s ≤ mDate a < 2 ^ 64;
  si_applied : ∀ t a, (t, a) ∈ applied s → t = mDate a ∧ t ≤ now s;
  si_order : ∀ d, filter (fun a => mDate a = d) ((applied s).*2 ++ mSchedule s) = filter (fun a => mDate a = d) acc }.

(** The thread waits for the first appointment, unless it is about to be notified. *)
Record sched_inv (acc : list A) (s : scheduler) : Prop := mkSchedInv {
  si_core : sched_core acc s;
  si_idle : waits s = Idle → notified s = false → mSchedule s = [];
  si_waiting : ∀ a T, waits s = Waiting a T → T = mDate a ∧ now s ≤ T
                 ∧ ∃ b l, mSchedule s = b :: l ∧ (b = a ∨ notified s = true ∧ mDate b < mDate a) }.

Lemma timeTo_future t a : 0 ≤ t → t ≤ mDate a < 2 ^ 64 → t + timeTo t a = mDate a.
Proof. intros. unfold timeTo. rewrite u64_small by (unfold in_u64; lia). lia. Qed.

Lemma enter_inv acc s : sched_core acc s → sched_inv acc (enter s).
Proof.
  intros [Hn Hs Hd Ha Ho]. split; [done|..]; unfold enter; simpl.
  - by destruct (mSchedule s).
  - destruct (mSchedule s) as [|b l] eqn:E; [done|]. intros a T [= <- <-].
    assert (now s ≤ mDate b < 2 ^ 64) by (apply Hd; left). rewrite timeTo_future by lia.
    split_and!; [done|lia|]. eauto.
Qed.

Lemma resume_inv acc s : sched_core acc s →
  (∀ a T, waits s = Waiting a T → mDate a = now s → ∃ l, mSchedule s = a :: l) → sched_inv acc (resume s).
Proof.
  intros H Hhead. unfold resume. apply enter_inv. destruct (waits s) as [| |a T] eqn:Ew; [done..|].
  unfold isNow. case_bool_decide as Hnow; [|done].
  destruct (Hhead a T eq_refl Hnow) as (l & El). destruct H as [Hn Hs Hd Ha Ho]. rewrite El in *. split; simpl; try done.
  - by apply StronglySorted_inv in Hs as [Hs _].
  - intros b Hb. apply Hd. by right.
  - intros t b [Hb|[= -> ->]%list_elem_of_singleton]%elem_of_app; [by apply Ha|]. split; [done|lia].
  - intros d. rewrite <- Ho. by rewrite fmap_app, <- app_assoc.
Qed.

(** When the appointment the thread waits for is due, it is the first of the schedule. *)
Lemma due_is_first acc s a T : sched_inv acc s → waits s = Waiting a T → mDate a = now s →
  ∃ l, mSchedule s = a :: l.
Proof.
  intros H E Hnow. destruct (si_waiting _ _ H a T E) as (_ & _ & b & l & El & [->|[_ Hlt]]); [eauto|].
  assert (now s ≤ mDate b < 2 ^ 64) by (apply (si_dates _ _ (si_core _ _ H)); rewrite El; left). lia.
Qed.

Lemma kernel_inv acc s s' : sched_inv acc s → kernel_step s s' → sched_inv acc s'.
Proof.
  intros H Hstep. destruct Hstep as [s Ew|s Ev Ew|s a Ew|s t Ev Ew Ht HT].
  - apply resume_inv; [apply H|]. by rewrite Ew.
  - apply resume_inv; [by destruct H as [[] _ _]|]. intros a T. by apply (due_is_first acc s).
  - apply resume_inv; [apply H|]. intros b T. by apply (due_is_first acc s).
  - destruct H as [[Hn Hs Hd Ha Ho] Hi Hw]. split; [split|..]; simpl; try done; [lia| | |].
    + intros a Hin. specialize (Hd a Hin). destruct (waits s) as [| |b T] eqn:E; [done| |].
      * rewrite (Hi eq_refl Ev) in Hin. by apply elem_of_nil in Hin.
      * destruct (Hw b T eq_refl) as (HTb & _ & c & l & El & [->|[Hne _]]); [|congruence].
        specialize (HT b T eq_refl). rewrite El in Hs, Hin. apply StronglySorted_inv in Hs as [_ Hall].
        rewrite Forall_forall in Hall. apply elem_of_cons in Hin as [->|Hin]; [lia|]. specialize (Hall a Hin). lia.
    + intros t' a Hin. destruct (Ha t' a Hin). split; [done|lia].
    + intros a T E. destruct (Hw a T E) as (-> & _ & Hx). split_and!; [done|by apply (HT a)|done].
Qed.

(** *** Adding an appointment *)

Lemma filter_none (P : A → Prop) `{!∀ a, Decision (P a)} l : (∀ a, a ∈ l → ~ P a) → filter P l = [].
Proof.
  intros Hn. induction l as [|a l IH]; [done|]. rewrite filter_cons, decide_False by (apply Hn; left).
  apply IH. intros b Hb. apply Hn. by right.
Qed.

Lemma elem_of_multiset_insert a b l : b ∈ multiset_insert a l ↔ b = a ∨ b ∈ l.
Proof.
  induction l as [|c l IH]; simpl; [by rewrite list_elem_of_singleton, elem_of_nil; tauto|].
  case_bool_decide; rewrite !elem_of_cons, ?IH; tauto.
Qed.

Lemma multiset_insert_sorted a l : sorted l → sorted (multiset_insert a l).
Proof.
  induction 1 as [|b l Hl IH Hb]; simpl; [repeat constructor|]. rewrite Forall_forall in Hb.
  case_bool_decide as Hlt.
  - constructor; [constructor; [done|by apply Forall_forall]|]. constructor; [lia|].
    apply Forall_forall. intros c Hc. specialize (Hb c Hc). lia.
  - constructor; [done|]. apply Forall_forall. intros c [->|Hc]%elem_of_multiset_insert; [lia|by apply Hb].
Qed.

(** Among the appointments of a date the new one is the last. *)
Lemma multiset_insert_filter a l d : sorted l →
  filter (fun b => mDate b = d) (multiset_insert a l)
  = filter (fun b => mDate b = d) l ++ (if decide (mDate a = d) then [a] else []).
Proof.
  induction 1 as [|b l Hl IH Hb]; simpl; [rewrite filter_cons; by repeat case_decide|]. rewrite Forall_forall in Hb.
  case_bool_decide as Hlt; [|rewrite !filter_cons, IH; by destruct (decide (mDate b = d))].
  rewrite filter_cons. case_decide as Ha; [|by rewrite app_nil_r].
  assert (filter (fun b => mDate b = d) (b :: l) = []) as ->; [|done].
  apply filter_none. intros c [->|Hc]%elem_of_cons; [lia|]. specialize (Hb c Hc). lia.
Qed.

Lemma multiset_insert_head a l : ∃ b l', multiset_insert a l = b :: l'
  ∧ match l with [] => b = a | c :: _ => b = c ∨ b = a ∧ mDate a < mDate c end.
Proof. destruct l as [|c l]; simpl; [eauto|]. case_bool_decide; eauto 10. Qed.

Lemma add_inv acc s a : sched_inv acc s → 0 ≤ mDate a < 2 ^ 64 → isPassed (now s) a = false →
  sched_inv (acc ++ [a]) (addAppointment a s).
Proof.
  intros [[Hn Hs Hd Ha Ho] Hi Hw] Hda Hp. unfold addAppointment, add_with. rewrite Hp.
  unfold isPassed in Hp. apply bool_decide_eq_false in Hp. split; [split|..]; simpl; try done.
  - by apply multiset_insert_sorted.
  - intros b [->|Hb]%elem_of_multiset_insert; [lia|by apply Hd].
  - intros d. rewrite !filter_app, multiset_insert_filter by done.
    rewrite app_assoc, <- filter_app, Ho. by rewrite filter_cons.
  - intros b T E. destruct (Hw b T E) as (-> & HT & c & l & El & Hc). split_and!; [done..|].
    destruct (multiset_insert_head a (mSchedule s)) as (e & l' & E' & He). exists e, l'. split; [done|].
    rewrite El in He. destruct Hc as [->|[_ Hc]], He as [->|[-> He]]; [by left|right; split; [done|lia]..].
Qed.

Lemma run_inv acc s : run addAppointment acc s → sched_inv acc s.
Proof.
  induction 1 as [|acc s s' _ IH Hk|acc s a _ IH Ha].
  - split; [split|..]; simpl; try done; [constructor| |].
    + intros a Ha. by apply elem_of_nil in Ha.
    + intros t a Ha. by apply elem_of_nil in Ha.
  - by eapply kernel_inv.
  - destruct (isPassed (now s) a) eqn:E; [|by apply add_inv]. unfold addAppointment, add_with. by rewrite E.
Qed.

(** *** Progress *)

Definition due (s : scheduler) : Z := foldr (fun a d => Z.max (mDate a) d) (now s) (mSchedule s).

(** What is left to do: two steps per appointment, one for the event, one to start, and the
    time up to the last appointment. *)
Definition effort (s : scheduler) : nat :=
  (2 * length (mSchedule s) + (if notified s then 1 else 0)
   + (if waits s is Starting then 1 else 0) + Z.to_nat (due s - now s))%nat.

Lemma due_le s a : a ∈ mSchedule s → mDate a ≤ due s.
Proof.
  unfold due. induction (mSchedule s) as [|b l IH]; simpl; [by intros H%elem_of_nil|].
  intros [->|H]%elem_of_cons; [lia|]. specialize (IH H). lia.
Qed.

Lemma due_now s : now s ≤ due s.
Proof. unfold due. induction (mSchedule s); simpl; lia. Qed.

Lemma due_tail s : due (mkScheduler (now s) (tail (mSchedule s)) (waits s) (notified s) (applied s)) ≤ due s.
Proof. unfold due. destruct (mSchedule s); simpl; lia. Qed.

Lemma effort_resume s : (effort (resume s) + (if waits s is Starting then 1 else 0)%nat ≤ effort s)%nat
  ∧ (∀ a T l, waits s = Waiting a T → mDate a = now s → mSchedule s = a :: l → effort (resume s) < effort s)%nat.
Proof.
  assert (∀ s', effort (enter s') + (if waits s' is Starting then 1 else 0) = effort s')%nat as Hen.
  { intros s'. unfold effort, enter, due. simpl. destruct (mSchedule s'); simpl; lia. }
  unfold resume. destruct (waits s) as [| |a T] eqn:E.
  - pose proof (Hen s) as H. rewrite E in H. split; [lia|done].
  - pose proof (Hen s) as H. rewrite E in H. split; [lia|done].
  - unfold isNow. case_bool_decide as Hn.
    + set (s1 := mkScheduler _ _ _ _ _). pose proof (Hen s1) as H. unfold s1 in H at 2. simpl in H.
      assert (effort s1 ≤ effort s ∧ (∀ l, mSchedule s = a :: l → effort s1 < effort s))%nat as [H1 H2].
      { pose proof (due_tail s) as Hd. unfold s1, effort. simpl. rewrite E. unfold due in *. simpl in Hd.
        destruct (mSchedule s) as [|b l]; simpl in *; [split; [lia|done]|]. split; [|intros _ _]; lia. }
      split; [lia|]. intros ? ? l [= <- <-] _ Hl. specialize (H2 l Hl). lia.
    + pose proof (Hen s) as H. rewrite E in H. split; [lia|]. intros ? ? l [= <- <-]. done.
Qed.

Lemma kernel_effort acc s s' : sched_inv acc s → kernel_step s s' → mSchedule s ≠ [] → (effort s' < effort s)%nat.
Proof.
  intros H Hstep Hne. destruct Hstep as [s Ew|s Ev Ew|s a Ew|s t Ev Ew Ht HT].
  - destruct (effort_resume s) as [He _]. rewrite Ew in He. lia.
  - destruct (effort_resume (clear_event s)) as [He _]. assert (effort (clear_event s) < effort s)%nat; [|lia].
    unfold effort, clear_event, due. simpl. rewrite Ev. lia.
  - assert (mDate a = now s) as Ha by (destruct (si_waiting _ _ H a (now s) Ew); lia).
    destruct (due_is_first acc s a _ H Ew Ha) as (l & El). by apply (proj2 (effort_resume s) a (now s) l).
  - destruct (waits s) as [| |a T] eqn:E; [done| |].
    + by destruct Hne; apply H.
    + destruct (si_waiting _ _ H a T E) as (HTa & HT' & b & l & El & Hb).
      specialize (HT a T eq_refl). assert (mDate b = mDate a) as Hba.
      { destruct Hb as [->|[Hno _]]; [done|congruence]. }
      assert (mDate b ≤ due s) as Hdb by (apply due_le; rewrite El; left).
      unfold effort, set_now, due in *. simpl. rewrite El in *. simpl in *. rewrite E.
      assert (∀ x y l0, x ≤ y → foldr (fun c d => Z.max (mDate c) d) x l0 ≤ foldr (fun c d => Z.max (mDate c) d) y l0
        ∧ foldr (fun c d => Z.max (mDate c) d) y l0 ≤ Z.max y (foldr (fun c d => Z.max (mDate c) d) x l0)) as Hmono.
      { intros x y l0 Hxy. induction l0; simpl; lia. }
      destruct (Hmono (now s) t l ltac:(lia)). lia.
Qed.

Lemma kernel_progress acc s : sched_inv acc s → mSchedule s ≠ [] → ∃ s', kernel_step s s'.
Proof.
  intros H Hne. destruct (waits s) as [| |a T] eqn:E; [by eexists; apply k_start| |].
  - destruct (notified s) eqn:Ev; [eexists; apply k_notify; [done|congruence]|]. by destruct Hne; apply H.
  - destruct (notified s) eqn:Ev; [eexists; apply k_notify; [done|congruence]|].
    destruct (si_waiting _ _ H a T E) as (HTa & HT & b & l & El & Hb).
    destruct (decide (now s = T)) as [Heq|Hlt]; [eexists; apply (k_timeout s a); by rewrite Heq|].
    assert (now s ≤ mDate b < 2 ^ 64) by (apply (si_dates _ _ (si_core _ _ H)); rewrite El; left).
    destruct (si_now _ _ (si_core _ _ H)).
    eexists. apply (k_advance s T); [done|congruence| |].
    + destruct Hb as [->|[Hno _]]; [lia|congruence].
    + intros a' T' E'. rewrite E in E'. injection E' as _ ->. done.
Qed.

(** A step of the kernel while there are appointments. *)
Definition busy_step (s s' : scheduler) : Prop := mSchedule s ≠ [] ∧ kernel_step s s'.

(** C19: the parameter scheduler.  Whatever the processes that add appointments do and however
    the kernel schedules them, every appointment that was applied was applied at its date, no
    appointment is overdue, and among the appointments of a date those already applied
    followed by those to come are the accepted ones in the order they were added.  Once nothing
    more is added, the kernel can always go on while the schedule is not empty, and it empties
    it within [effort s] steps. *)
Theorem scheduler_applies acc s :
  run addAppointment acc s →
  (∀ t a, (t, a) ∈ applied s → t = mDate a) ∧ (∀ a, a ∈ mSchedule s → now s ≤ mDate a)
  ∧ (∀ d, filter (fun a => mDate a = d) ((applied s).*2 ++ mSchedule s) = filter (fun a => mDate a = d) acc)
  ∧ (mSchedule s ≠ [] → ∃ s', kernel_step s s')
  ∧ ∀ n s', nsteps busy_step n s s' → (n ≤ effort s)%nat.
Proof.
  intros Hrun. pose proof (run_inv acc s Hrun) as H. split_and!.
  - intros t a Hin. by apply (si_applied _ _ (si_core _ _ H)).
  - intros a Hin. by apply (si_dates _ _ (si_core _ _ H)).
  - apply H.
  - by apply (kernel_progress acc).
  - intros n s' Hn. clear Hrun. induction Hn as [s|n s s1 s' [Hne Hk] Hn IH] in H |- *; [lia|].
    pose proof (kernel_effort acc s s1 H Hk Hne). specialize (IH (kernel_inv acc s s1 H Hk)). lia.
Qed.

(** ** The logger scheduler *)

Lemma list_insert_distinct t a l : 0 ≤ t → (∀ b, b ∈ a :: l → t ≤ mDate b < 2 ^ 64) →
  (∀ b, b ∈ l → mDate b ≠ mDate a) → list_insert t a l = multiset_insert a l.
Proof.
  intros Ht. induction l as [|b l IH]; intros Hd Hne; [done|]. simpl.
  assert (t ≤ mDate a < 2 ^ 64) by (apply Hd; left). assert (t ≤ mDate b < 2 ^ 64) by (apply Hd; right; left).
  assert (mDate b ≠ mDate a) by (apply Hne; left).
  unfold timeTo. rewrite !u64_small by (unfold in_u64; lia).
  case_bool_decide; [rewrite bool_decide_false by lia|by rewrite bool_decide_true by lia].
  f_equal. apply IH.
  - intros c [->|Hc]%elem_of_cons; apply Hd; [left|by right; right].
  - intros c Hc. apply Hne. by right.
Qed.

(** the logger scheduler does what the parameter scheduler does as long as no two
    appointments have the same date: every run of it with distinct dates is a run of the
    parameter scheduler. *)
Theorem logger_scheduler_distinct acc s :
  run logger_addAppointment acc s → NoDup (mDate <$> acc) → run addAppointment acc s.
Proof.
  induction 1 as [|acc s s' _ IH Hk|acc s a _ IH Ha]; intros Hnd; [constructor|by eapply run_kernel; eauto|].
  destruct (isPassed (now s) a) eqn:E.
  - specialize (IH Hnd). pose proof (run_add addAppointment acc s a IH Ha) as H. rewrite E in H.
    unfold logger_addAppointment, add_with. unfold addAppointment, add_with in H. by rewrite E in *.
  - rewrite fmap_app in Hnd. apply NoDup_app in Hnd as (Hnd & Hfresh & _). specialize (IH Hnd).
    pose proof (run_add addAppointment acc s a IH Ha) as H. rewrite E in H.
    unfold logger_addAppointment, add_with. unfold addAppointment, add_with in H. rewrite E in *.
    destruct (si_core _ _ (run_inv acc s IH)) as [Hn Hs Hd _ Ho].
    unfold isPassed in E. apply bool_decide_eq_false in E. rewrite list_insert_distinct; [done|lia| |].
    + intros b [->|Hb]%elem_of_cons; [lia|by apply Hd].
    + intros b Hb Heq. apply (Hfresh (mDate b)).
      * apply list_elem_of_fmap. exists b. split; [done|].
        assert (b ∈ filter (fun a => mDate a = mDate b) acc) as Hin; [|by apply list_elem_of_filter in Hin as [_ ?]].
        rewrite <- Ho. apply list_elem_of_filter. split; [done|]. apply elem_of_app. by right.
      * rewrite Heq. apply list_elem_of_singleton. done.
Qed.
End appointments.

(** ** Concrete runs *)

(** An appointment for a test: what to do and when. *)
Abbreviation job := (nat * Z)%type (only parsing).
Definition job_a : job := (1%nat, 10).
Definition job_b : job := (2%nat, 10).


Lemma one_job (add : job → scheduler → scheduler) (ins : Z → job → list job → list job) :
  add = add_with snd ins → (∀ t, ins t job_a [] = [job_a]) →
  run snd add [job_a] (mkScheduler 10 [job_a] (Waiting job_a 10) false []).
Proof.
  intros -> Hins. apply (run_kernel snd _ _ (mkScheduler 0 [job_a] (Waiting job_a 10) false [])).
  2: { apply (k_advance snd (mkScheduler 0 [job_a] (Waiting job_a 10) false []) 10); [done|done|simpl; lia|]. intros a T [= <- <-]. lia. }
  apply (run_kernel snd _ _ (mkScheduler 0 [job_a] (Waiting job_a 10) true [])).
  2: { apply (k_notify snd (mkScheduler 0 [job_a] (Waiting job_a 10) true [])); done. }
  apply (run_kernel snd _ _ (mkScheduler 0 [job_a] Starting true [])).
  2: { apply (k_start snd (mkScheduler 0 [job_a] Starting true [])); done. }
  pose proof (run_add snd (add_with snd ins) [] new_scheduler job_a (run_start _ _)) as H.
  unfold add_with in H. simpl in H. rewrite Hins in H. apply H. lia.
Qed.

Lemma scheduler_applies_witness :
  (∀ n s', nsteps (busy_step snd) n (mkScheduler 10 [job_a] (Waiting job_a 10) false []) s' → (n ≤ 2)%nat)
  ∧ ∃ s', kernel_step snd (mkScheduler 10 [job_a] (Waiting job_a 10) false []) s'.
Proof.
  destruct (scheduler_applies snd [job_a] (mkScheduler 10 [job_a] (Waiting job_a 10) false []))
    as (_ & _ & _ & Hp & He).
  - by apply (one_job _ (fun _ => multiset_insert snd)).
  - split; [exact He|by apply Hp].
Defined.

Lemma logger_scheduler_distinct_witness :
  run snd (addAppointment snd) [job_a] (mkScheduler 10 [job_a] (Waiting job_a 10) false []).
Proof.
  apply (logger_scheduler_distinct snd).
  - by apply (one_job _ (list_insert snd)).
  - apply NoDup_singleton.
Defined.

(** the logger scheduler loses an appointment that is added for the present date while the
    thread is about to wake for another appointment of that date: the new one is put in front,
    the thread applies the appointment it has a copy of and removes the one in front; then it
    applies the first appointment a second time, and the new one never. *)
Theorem logger_scheduler_loses :
  run snd (logger_addAppointment snd) [job_a; job_b]
    (mkScheduler 10 [] Idle true [(10, job_a); (10, job_a)]).
Proof.
  apply (run_kernel snd _ _ (mkScheduler 10 [job_a] (Waiting job_a 10) true [(10, job_a)])).
  2: { apply (k_timeout snd (mkScheduler 10 [job_a] (Waiting job_a 10) true [(10, job_a)]) job_a). done. }
  apply (run_kernel snd _ _ (mkScheduler 10 [job_b; job_a] (Waiting job_a 10) true [])).
  2: { apply (k_timeout snd (mkScheduler 10 [job_b; job_a] (Waiting job_a 10) true []) job_a). done. }
  apply (run_add snd (logger_addAppointment snd) [job_a]
    (mkScheduler 10 [job_a] (Waiting job_a 10) false []) job_b); [|simpl; lia].
  by apply (one_job _ (list_insert snd)).
Qed.
