(* ===== verification/HybridList.v ===== *)
(** * The hybrid list ([core/include/core/HybridList.hpp])

    A list of blocks of a fixed size, to which elements are appended without moving those that
    are there.  The file shows that the blocks hold the appended elements in order, that
    appending moves none of them, and what the iterators of the class do: they visit the
    elements in order, except when the last block is full, where the last increment goes past
    the last block. *)

From S2P Require Import Prelude.

Section hybrid.
Context {value_t : Type} (value : value_t) (array_size : nat).
(** [static_assert (array_size > 0)]; [value] is the value of an element before it is assigned. *)
Context (size_pos : (0 < array_size)%nat).

Record HybridList := mkHybridList { mContainer : list (list value_t); mCurrentIdx : nat }.

Definition new_block : list value_t := replicate array_size value.
Definition new_HybridList : HybridList := mkHybridList [new_block] 0.

(** The last block is written at the current index. *)
Definition emplace_back (val : value_t) : M HybridList unit :=
  h <- m_get ;;
  m_when (bool_decide (array_size ≤ mCurrentIdx h)%nat) (m_modify (fun h => mkHybridList (mContainer h ++ [new_block]) 0)) ;;;
  h <- m_get ;;
  match last (mContainer h) with
  | Some array =>
      if bool_decide (mCurrentIdx h < array_size)%nat
      then m_modify (fun h => mkHybridList (take (length (mContainer h) - 1) (mContainer h) ++ [<[mCurrentIdx h := val]> array]) (S (mCurrentIdx h)))
      else m_throw (UndefinedBehaviour "index out of range")
  | None => m_throw (UndefinedBehaviour "dereference of an end iterator")
  end.

(** An iterator: a block and a place in it, which may be the end of the block. *)
Definition iterator : Type := nat * nat.
Definition begin_of (h : HybridList) : iterator := (0%nat, 0%nat).
Definition end_of (h : HybridList) : iterator := ((length (mContainer h) - 1)%nat, mCurrentIdx h).

(** The step of both [operator++]: from the end of a block to the begin of the next one, which must exist. *)
Definition next (h : HybridList) (it : iterator) : result iterator :=
  let '(i, j) := it in
  if bool_decide (S j = array_size) then
    if bool_decide (S i < length (mContainer h))%nat then Ok (S i, 0%nat) else Err (UndefinedBehaviour "dereference of an end iterator")
  else Ok (i, S j).
(** [operator++()] and [operator++(int)], as the iterator afterwards and the iterator returned: the prefix form returns
    the old iterator and the postfix form the new one. *)
Definition pre_increment (h : HybridList) (it : iterator) : result (iterator * iterator) := let* it' := next h it in Ok (it', it).
Definition post_increment (h : HybridList) (it : iterator) : result (iterator * iterator) := let* it' := next h it in Ok (it', it').
Definition deref (h : HybridList) (it : iterator) : result value_t :=
  match mContainer h !! it.1 ≫= (fun b => b !! it.2) with Some v => Ok v | None => Err (UndefinedBehaviour "read outside a block") end.

(** [for (it = begin(); it != end(); ++it) use( *it )]. *)
Fixpoint iterate (fuel : nat) (h : HybridList) (it : iterator) : result (list value_t) :=
  if decide (it = end_of h) then Ok [] else
  match fuel with
  | O => Err OutOfFuel
  | S fuel =>
      let* v := deref h it in
      let* its := pre_increment h it in
      let* l := iterate fuel h its.1 in
      Ok (v :: l)
  end.
(** There are no more places than blocks times their size. *)
Definition traverse (h : HybridList) : result (list value_t) := iterate (length (mContainer h) * array_size) h (begin_of h).

Definition append_all (l : list value_t) : M HybridList unit := m_forM l emplace_back.

(** ** What the blocks hold *)

(** Full blocks, then one with the rest. *)
Record holds_list (h : HybridList) (l : list value_t) : Prop := mkHoldsList {
  hl_blocks : Forall (fun b => length b = array_size) (mContainer h);
  hl_index : (mCurrentIdx h ≤ array_size)%nat;
  hl_some : mContainer h ≠ [];
  hl_length : length l = ((length (mContainer h) - 1) * array_size + mCurrentIdx h)%nat;
  hl_at i j v : (j < array_size)%nat → l !! (i * array_size + j)%nat = Some v → mContainer h !! i ≫= (fun b => b !! j) = Some v }.

Lemma new_holds : holds_list new_HybridList [].
Proof. clear. split; simpl; try done; [|lia]. constructor; [apply length_replicate|done]. Qed.

Lemma place_unique i j i' j' : (j < array_size)%nat → (j' < array_size)%nat → (i * array_size + j = i' * array_size + j')%nat → i = i' ∧ j = j'.
Proof. intros. assert (i = i') as -> by nia. lia. Qed.

(** The blocks but the last, and the last. *)
Lemma last_split (c : list (list value_t)) b : last c = Some b → c = take (length c - 1) c ++ [b].
Proof.
  intros H. apply last_Some in H as [l' ->]. rewrite length_app. simpl. replace (length l' + 1 - 1)%nat with (length l') by lia.
  by rewrite take_app_length.
Qed.

Lemma write_last h l b val : holds_list h l → last (mContainer h) = Some b → (mCurrentIdx h < array_size)%nat →
  holds_list (mkHybridList (take (length (mContainer h) - 1) (mContainer h) ++ [<[mCurrentIdx h := val]> b]) (S (mCurrentIdx h))) (l ++ [val]).
Proof.
  intros [Hb Hi Hs Hl Hat] Hlast Hidx. pose proof (last_split _ _ Hlast) as Hc. set (c := mContainer h) in *. set (k := mCurrentIdx h) in *.
  assert (length c ≠ 0%nat) as Hne by (by destruct c).
  assert (length (take (length c - 1) c) = (length c - 1)%nat) as Ht by (rewrite length_take; lia).
  assert (length b = array_size) as Hbl by (rewrite Hc, Forall_app in Hb; destruct Hb as [_ Hb]; by inversion Hb).
  split; simpl.
  - rewrite Hc, Forall_app in Hb. destruct Hb as [Hb _]. rewrite Forall_app. split; [exact Hb|]. constructor; [by rewrite length_insert|done].
  - lia.
  - intros [_ ?]%app_eq_nil. done.
  - rewrite !length_app, Ht. simpl. rewrite Hl. nia.
  - intros i j v Hj Hv. rewrite lookup_app in Hv. destruct (l !! (i * array_size + j)%nat) as [v'|] eqn:Ev.
    + injection Hv as ->. pose proof (Hat i j v Hj Ev) as Hold. apply lookup_lt_Some in Ev. rewrite Hl in Ev.
      destruct (decide (i < length c - 1)%nat) as [Hlt|Hge].
      * rewrite lookup_app_l by lia. by rewrite lookup_take_lt by lia.
      * assert (i = (length c - 1)%nat) as -> by nia. rewrite lookup_app_r, Ht, Nat.sub_diag by lia. simpl.
        rewrite list_lookup_insert_ne by nia. rewrite last_lookup, <- Nat.sub_1_r in Hlast. rewrite Hlast in Hold. exact Hold.
    + apply list_lookup_singleton_Some in Hv as [Hv ->]. apply lookup_ge_None in Ev. rewrite Hl in Hv, Ev.
      destruct (place_unique i j (length c - 1) k) as [-> ->]; [done|lia|lia|]. rewrite lookup_app_r, Ht, Nat.sub_diag by lia. simpl.
      apply list_lookup_insert_eq. lia.
Qed.

Lemma grow_holds h l : holds_list h l → mCurrentIdx h = array_size → holds_list (mkHybridList (mContainer h ++ [new_block]) 0) l.
Proof.
  intros [Hb Hi Hs Hl Hat] Hidx. assert (length (mContainer h) ≠ 0%nat) by (by destruct (mContainer h)). split; simpl.
  - rewrite Forall_app. split; [done|]. constructor; [apply length_replicate|done].
  - lia.
  - intros [_ ?]%app_eq_nil. done.
  - rewrite length_app. simpl. nia.
  - intros i j v Hj Hv. pose proof (lookup_lt_Some _ _ _ Hv). rewrite lookup_app_l by nia. eauto.
Qed.

(** Appending never fails; afterwards the current block is not empty. *)
Lemma emplace_back_holds h l val : holds_list h l →
  runs (emplace_back val) h (fun _ h' => holds_list h' (l ++ [val]) ∧ mCurrentIdx h' ≠ 0%nat).
Proof.
  assert (∀ h, holds_list h l → (mCurrentIdx h < array_size)%nat →
    runs (h <- m_get ;; match last (mContainer h) with
      | Some array => if bool_decide (mCurrentIdx h < array_size)%nat
        then m_modify (fun h => mkHybridList (take (length (mContainer h) - 1) (mContainer h) ++ [<[mCurrentIdx h := val]> array]) (S (mCurrentIdx h)))
        else m_throw (UndefinedBehaviour "index out of range")
      | None => m_throw (UndefinedBehaviour "dereference of an end iterator") end) h
      (fun _ h' => holds_list h' (l ++ [val]) ∧ mCurrentIdx h' ≠ 0%nat)) as Hwrite.
  { intros h' Hh Hidx. do 2 wp_step. destruct (last (mContainer h')) as [b|] eqn:Eb.
    - rewrite bool_decide_true by done. wp_step. split; [by apply write_last|done].
    - apply last_None in Eb. by destruct (hl_some _ _ Hh). }
  intros Hh. unfold emplace_back. do 2 wp_step. wp_step. wp_step.
  - wp_step. apply Hwrite; simpl; [|done]. apply grow_holds; [done|]. apply bool_decide_eq_true_1 in H. pose proof (hl_index _ _ Hh). lia.
  - apply Hwrite; [done|]. apply bool_decide_eq_false_1 in H. lia.
Qed.

Lemma append_all_holds l : ∀ h l0, holds_list h l0 →
  runs (append_all l) h (fun _ h' => holds_list h' (l0 ++ l) ∧ (l = [] → h' = h) ∧ (l ≠ [] → mCurrentIdx h' ≠ 0%nat)).
Proof.
  unfold append_all. induction l as [|v l IH]; intros h l0 Hh; cbn [m_forM].
  - wp_step. by rewrite app_nil_r.
  - wp_step. eapply runs_conseq; [by apply emplace_back_holds|]. intros [] h1 [H1 Hn]. eapply runs_conseq; [by apply IH|].
    intros [] h2 (H2 & He & Hne). rewrite <- app_assoc in H2. split; [exact H2|]. split; [done|]. intros _.
    destruct (decide (l = [])) as [->|]; [by rewrite He|auto].
Qed.

(** ** Iteration *)

Lemma deref_holds h l i j v : holds_list h l → (j < array_size)%nat → l !! (i * array_size + j)%nat = Some v → deref h (i, j) = Ok v.
Proof. intros Hh Hj Hv. unfold deref. simpl. by rewrite (hl_at _ _ Hh i j v Hj Hv). Qed.

(** A place before the last element is followed by the place of the next one. *)
Lemma next_place h l i j : holds_list h l → (j < array_size)%nat → (S (i * array_size + j) < length l)%nat ∨
    (S (i * array_size + j) = length l ∧ mCurrentIdx h < array_size)%nat →
  ∃ i' j', next h (i, j) = Ok (i', j') ∧ (j' < array_size)%nat ∧ (i' * array_size + j' = S (i * array_size + j))%nat.
Proof.
  intros Hh Hj Hp. pose proof (hl_length _ _ Hh). pose proof (hl_index _ _ Hh). unfold next. destruct (decide (S j = array_size)) as [E|E].
  - rewrite (bool_decide_true (S j = array_size)), bool_decide_true by (done || nia). eexists _, _. split; [done|]. lia.
  - rewrite bool_decide_false by done. eexists _, _. split; [done|]. lia.
Qed.

(** The end is the place after the last element. *)
Lemma at_end h l i j : holds_list h l → (mCurrentIdx h < array_size)%nat → (j < array_size)%nat →
  (i, j) = end_of h ↔ (i * array_size + j = length l)%nat.
Proof.
  intros Hh Hi Hj. pose proof (hl_length _ _ Hh). unfold end_of. split; [intros [= -> ->]; lia|].
  intros E. destruct (place_unique i j (length (mContainer h) - 1) (mCurrentIdx h)) as [-> ->]; [done|done|lia|done].
Qed.

Lemma visit_ok h l : holds_list h l → (mCurrentIdx h < array_size)%nat → ∀ k fuel i j, (j < array_size)%nat →
  (i * array_size + j + k = length l)%nat → (k ≤ fuel)%nat → iterate fuel h (i, j) = Ok (drop (i * array_size + j) l).
Proof.
  intros Hh Hidx k. induction k as [|k IH]; intros fuel i j Hj Hk Hf.
  - destruct fuel; cbn [iterate]; rewrite decide_True by (apply at_end with l; (done || lia)); by rewrite drop_ge by lia.
  - destruct fuel as [|fuel]; [lia|]. cbn [iterate]. rewrite decide_False by (rewrite (at_end h l) by done; lia).
    destruct (lookup_lt_is_Some_2 l (i * array_size + j)) as [v Hv]; [lia|]. rewrite (deref_holds h l i j v) by done. cbn [result_bind]. unfold pre_increment.
    destruct (next_place h l i j) as (i' & j' & -> & Hj' & E); [done|done|lia|]. cbn [result_bind fst]. rewrite IH by lia. cbn [result_bind fst]. by rewrite E, (drop_S l v (i * array_size + j)) by done.
Qed.

Lemma visit_past h l : holds_list h l → mCurrentIdx h = array_size → ∀ k fuel i j, (j < array_size)%nat →
  (i * array_size + j + S k = length l)%nat → (S k ≤ fuel)%nat → iterate fuel h (i, j) = Err (UndefinedBehaviour "dereference of an end iterator").
Proof.
  intros Hh Hidx k. pose proof (hl_length _ _ Hh). induction k as [|k IH]; intros fuel i j Hj Hk Hf; (destruct fuel as [|fuel]; [lia|]); cbn [iterate];
    (rewrite decide_False by (unfold end_of; rewrite Hidx; intros [= ? ?]; lia));
    (destruct (lookup_lt_is_Some_2 l (i * array_size + j)) as [v Hv]; [lia|]); rewrite (deref_holds h l i j v) by done; cbn [result_bind]; unfold pre_increment.
  - destruct (place_unique i j (length (mContainer h) - 1) (array_size - 1)) as [-> ->]; [lia|lia|lia|].
    unfold next. by rewrite bool_decide_true, bool_decide_false by lia.
  - destruct (next_place h l i j) as (i' & j' & -> & Hj' & E); [done|done|lia|]. cbn [result_bind fst]. by rewrite IH by lia.
Qed.

Lemma traverse_holds h l : holds_list h l → (mCurrentIdx h = 0%nat → l = []) →
  traverse h = if decide (l = [] ∨ length l mod array_size ≠ 0)%nat then Ok l else Err (UndefinedBehaviour "dereference of an end iterator").
Proof.
  intros Hh H0. pose proof (hl_length _ _ Hh) as Hl. pose proof (hl_index _ _ Hh) as Hi.
  assert (length (mContainer h) ≠ 0%nat) by (pose proof (hl_some _ _ Hh); by destruct (mContainer h)).
  assert (length l ≤ length (mContainer h) * array_size)%nat by nia.
  destruct (decide (mCurrentIdx h < array_size)%nat) as [Hlt|Hge].
  - assert (length l mod array_size = mCurrentIdx h)%nat as Hm by (rewrite Hl, Nat.add_comm, Nat.Div0.mod_add; by apply Nat.mod_small).
    rewrite decide_True by (rewrite Hm; destruct (decide (mCurrentIdx h = 0%nat)); auto).
    unfold traverse, begin_of. by rewrite (visit_ok h l Hh Hlt (length l)) by (simpl; lia).
  - assert (mCurrentIdx h = array_size) as Hidx by lia.
    assert (length l = length (mContainer h) * array_size)%nat as Hf by nia.
    rewrite decide_False. 2:{ rewrite Hf, Nat.Div0.mod_mul. intros [->|?]; [|done]. simpl in Hf. nia. }
    unfold traverse, begin_of. apply (visit_past h l Hh Hidx (length l - 1)); simpl; nia.
Qed.

(** Appending the elements of [l] to a new list never fails, and iterating from [begin()] to [end()] then visits
    exactly the elements of [l] in order when [l] is empty or its length is not a multiple of the size of a block; when
    the last block is full the last increment leaves the last block and dereferences the end of the list of blocks. *)
Theorem hybrid_list_iteration l :
  runs (append_all l) new_HybridList (fun _ h => traverse h =
    if decide (l = [] ∨ length l mod array_size ≠ 0)%nat then Ok l else Err (UndefinedBehaviour "dereference of an end iterator")).
Proof.
  eapply runs_conseq; [apply append_all_holds, new_holds|]. intros [] h (Hh & He & Hn). apply (traverse_holds h l Hh).
  intros H0. destruct (decide (l = [])); [done|]. by destruct Hn.
Qed.
End hybrid.

Lemma hybrid_list_iteration_witness :
  runs (append_all 0%Z 3 [1; 2; 3; 4]%Z) (new_HybridList 0%Z 3) (fun _ h => traverse 3 h = Ok [1; 2; 3; 4]%Z)
  ∧ runs (append_all 0%Z 2 [1; 2; 3; 4]%Z) (new_HybridList 0%Z 2) (fun _ h => traverse 2 h = Err (UndefinedBehaviour "dereference of an end iterator")).
Proof. split; [apply (hybrid_list_iteration 0%Z 3); lia | apply (hybrid_list_iteration 0%Z 2); lia]. Defined.
