(* ===== verification/SortedMap.v ===== *)
(** * Ordered maps

    [std::map] with strings as keys: a list sorted by key, which is the order of iteration.
    Strings are compared byte by byte, as [std::string::operator<] does. *)

From S2P Require Import Prelude.
From Stdlib Require Import Sorted.

Definition name_lt (a b : string) : Prop := String.compare a b = Lt.

Lemma name_lt_trans a b c : name_lt a b → name_lt b c → name_lt a c.
Proof.
  unfold name_lt. induction a as [|x a IH] in b, c |- *; destruct b as [|y b], c as [|z c]; simpl; try done.
  unfold Ascii.compare. destruct (N.compare_spec (Ascii.N_of_ascii x) (Ascii.N_of_ascii y)) as [->|Hxy|Hxy]; try done.
  - destruct (Ascii.N_of_ascii y ?= Ascii.N_of_ascii z)%N; try done. apply IH.
  - intros _. destruct (N.compare_spec (Ascii.N_of_ascii y) (Ascii.N_of_ascii z)) as [<-|Hyz|Hyz]; try done.
    + intros _. by apply N.compare_lt_iff in Hxy as ->.
    + intros _. by assert (Ascii.N_of_ascii x < Ascii.N_of_ascii z)%N as ->%N.compare_lt_iff by lia.
Qed.

Lemma compare_refl a : String.compare a a = Eq.
Proof. induction a as [|x a IH]; simpl; [done|]. unfold Ascii.compare. by rewrite N.compare_refl. Qed.

Lemma name_lt_irrefl a : ~ name_lt a a.
Proof. unfold name_lt. by rewrite compare_refl. Qed.

Section maps.
Context {V : Type}.
Implicit Types (l : list (string * V)) (p q : string * V).

(** [emplace] and [insert] keep an element that is already there. *)
Fixpoint map_emplace (name : string) (v : V) l : list (string * V) :=
  match l with
  | [] => [(name, v)]
  | (n, w) :: l' =>
      match String.compare name n with
      | Lt => (name, v) :: (n, w) :: l'
      | Eq => (n, w) :: l'
      | Gt => (n, w) :: map_emplace name v l'
      end
  end.

Definition map_erase (name : string) l : list (string * V) := filter (fun p => p.1 ≠ name) l.

Fixpoint map_find (name : string) l : option V :=
  match l with
  | [] => None
  | (n, w) :: l' => if decide (n = name) then Some w else map_find name l'
  end.

(** The element under a key is changed. *)
Definition map_update (name : string) (f : V → V) l : list (string * V) :=
  (fun p => if decide (p.1 = name) then (p.1, f p.2) else p) <$> l.

Definition map_sorted l : Prop := StronglySorted (fun p q => name_lt p.1 q.1) l.

Lemma elem_of_emplace n v l p : p ∈ map_emplace n v l → p = (n, v) ∨ p ∈ l.
Proof.
  induction l as [|[m w] l IH]; simpl; [by rewrite list_elem_of_singleton; left|].
  destruct (String.compare n m); rewrite ?elem_of_cons; naive_solver.
Qed.

Lemma emplace_sorted n v l : map_sorted l → map_sorted (map_emplace n v l).
Proof.
  induction 1 as [|[m w] l Hl IH Hm]; simpl; [repeat constructor|].
  assert (map_sorted ((m, w) :: l)) as Hs by by constructor.
  destruct (String.compare n m) eqn:E; [done|..]; constructor; try done; rewrite Forall_forall in Hm.
  - constructor; [done|]. apply Forall_forall. intros q Hq. by apply (name_lt_trans _ m); [|apply Hm].
  - apply Forall_forall. intros q [->|Hq]%elem_of_emplace; [|by apply Hm]. simpl. unfold name_lt.
    by rewrite String.compare_antisym, E.
Qed.

Lemma emplace_new n v l : map_find n l = None → map_emplace n v l ≡ₚ (n, v) :: l.
Proof.
  induction l as [|[m w] l IH]; simpl; [done|]. case_decide as E; [done|]. intros H.
  destruct (String.compare n m) eqn:Ec; [by apply String.compare_eq_iff in Ec as ->|done|]. by rewrite IH, Permutation_swap.
Qed.

Lemma map_sorted_keys l : map_sorted l → NoDup l.*1.
Proof.
  induction 1 as [|[n v] l Hl IH Hn]; [constructor|]. apply NoDup_cons. split; [|done].
  intros (q & Eq & Hq)%list_elem_of_fmap. rewrite Forall_forall in Hn. apply (name_lt_irrefl n). rewrite Eq at 2. by apply (Hn q Hq).
Qed.

Lemma update_keys n f l : (map_update n f l).*1 = l.*1.
Proof. unfold map_update. rewrite <-list_fmap_compose. apply list_fmap_ext. intros i [k v] _. simpl. by case_decide. Qed.

Lemma update_absent n f l : n ∉ l.*1 → map_update n f l = l.
Proof.
  induction l as [|[k v] l IH]; [done|]. rewrite fmap_cons, not_elem_of_cons. intros [Hk Hl]. unfold map_update in *.
  rewrite fmap_cons, IH by done. simpl. by rewrite decide_False.
Qed.

Lemma update_sorted n f l : map_sorted l → map_sorted (map_update n f l).
Proof.
  induction 1 as [|q l Hl IH Hq]; [constructor|]. constructor; [done|]. apply Forall_fmap. apply (Forall_impl _ _ _ Hq).
  intros r Hr. simpl. by repeat case_decide.
Qed.

Lemma filter_sorted {A} (R : A → A → Prop) (P : A → Prop) `{!∀ a, Decision (P a)} (l : list A) :
  StronglySorted R l → StronglySorted R (filter P l).
Proof.
  induction 1 as [|a l Hl IH Ha]; [constructor|]. rewrite filter_cons. case_decide; [|done].
  constructor; [done|]. rewrite Forall_forall in *. intros b [_ Hb]%list_elem_of_filter. by apply Ha.
Qed.

Lemma erase_sorted n l : map_sorted l → map_sorted (map_erase n l).
Proof. apply filter_sorted. Qed.

Lemma map_find_elem n l v : map_sorted l → map_find n l = Some v ↔ (n, v) ∈ l.
Proof.
  induction 1 as [|[m w] l Hl IH Hm]; simpl; [by rewrite elem_of_nil|]. rewrite elem_of_cons.
  rewrite Forall_forall in Hm. case_decide as E.
  - subst m. split; [intros [= ->]; by left|]. intros [[= <-]|Hin]; [done|]. by destruct (name_lt_irrefl n); apply (Hm _ Hin).
  - rewrite IH. split; [by right|]. intros [[= -> ->]|?]; done.
Qed.

Lemma map_find_None n l : map_find n l = None ↔ ∀ v, (n, v) ∉ l.
Proof.
  induction l as [|[m w] l IH]; simpl.
  - split; [|done]. intros _ v. apply not_elem_of_nil.
  - setoid_rewrite elem_of_cons. case_decide as E; [|rewrite IH; naive_solver].
    split; [done|]. intros H. destruct (H w). left. by rewrite E.
Qed.

Lemma map_find_emplace n m v l : map_sorted l → map_find n (map_emplace m v l)
  = if decide (m = n) then (if map_find m l is Some w then Some w else Some v) else map_find n l.
Proof.
  induction 1 as [|[k w] l Hl IH Hk]; simpl; [done|]. rewrite Forall_forall in Hk.
  destruct (String.compare m k) eqn:E.
  - apply String.compare_eq_iff in E as ->. simpl. rewrite (decide_True (P := k = k)) by done. by destruct (decide (k = n)).
  - simpl. destruct (decide (m = n)) as [->|]; [|done]. rewrite decide_False.
    2: { intros ->. by rewrite compare_refl in E. }
    rewrite (proj2 (map_find_None n l)); [done|]. intros u Hin. apply (name_lt_irrefl n).
    apply (name_lt_trans n k n); [done|]. apply (Hk _ Hin).
  - simpl. rewrite IH. destruct (decide (m = n)) as [->|Hn]; [|done].
    destruct (decide (k = n)) as [->|]; [by rewrite compare_refl in E|done].
Qed.
End maps.
