(* ===== verification/ParamManager.v ===== *)
(** * The parameter manager ([core/vpsimModule/paramManager.cpp], [paramAppointment.cpp])

    The manager finds modules by name: scripts set parameters through it, at once or by
    appointment, and it calls the update handlers after each change.  It is the composition of
    the module tree ([ModuleTree]) and of the parameter scheduler ([Schedule]): an appointment
    that becomes due sets a parameter of the module it names, and the tree propagates it. *)

From S2P Require Import Prelude AddrSpace ModuleParams ParamContainer ParameterSet ModuleTree Schedule SortedMap.
From stdpp Require Import gmap strings.
#[local] Open Scope Z_scope.

Section manager.
Context {rate : Type} `{!ModuleParameter (ApproximateTraversalRate rate)} `{!ModuleParameterLaws (ApproximateTraversalRate rate)}.
Context (scale : ApproximateDelay → rate → ApproximateDelay).
Context {W : Type} (hook handler : nat → list (VpsimModule rate) → M W unit).

(** ** Data *)

(** Without an address space the parameter is set on the whole range. *)
Record ParamAppointment := mkParamAppointment {
  pa_module : string;
  pa_space : option AddrSpace;
  pa_param : AnyParameter rate;
  pa_date : Z }.

(** The manager with the modules it refers to (by their places) and the world the hooks and
    handlers act on.  The handlers are in the order of their names, as [std::map] keeps them. *)
Record ParamManager := mkManager {
  mods : list (VpsimModule rate);
  world : W;
  mVpsimModules : gmap string nat;
  mUpdateHandlers : list (string * nat);
  mParamScheduler : @scheduler ParamAppointment }.

Definition with_modules (h : list (VpsimModule rate)) (w : W) (s : ParamManager) : ParamManager :=
  mkManager h w (mVpsimModules s) (mUpdateHandlers s) (mParamScheduler s).
Definition with_registry (r : gmap string nat) (l : list (string * nat)) (s : ParamManager) : ParamManager :=
  mkManager (mods s) (world s) r l (mParamScheduler s).
Definition with_schedule (c : @scheduler ParamAppointment) (s : ParamManager) : ParamManager :=
  mkManager (mods s) (world s) (mVpsimModules s) (mUpdateHandlers s) c.

(** ** Operations *)

Definition on_modules (m : M (list (VpsimModule rate) * W) unit) : M ParamManager unit := fun s =>
  let '(r, (h, w)) := m (mods s, world s) in (r, with_modules h w s).

Definition callParamUpdateHandlers : M ParamManager unit :=
  s <- m_get ;; on_modules (m_forM (mUpdateHandlers s).*2 (call_hook handler)).

Definition map_at : exn := Throw "map::at".

Definition setParameter_in (module : string) (a : AddrSpace) (param : AnyParameter rate) : M ParamManager unit :=
  s <- m_get ;;
  match mVpsimModules s !! module with
  | None => m_throw map_at
  | Some i => on_modules (setModuleParameter scale hook i a param) ;;; callParamUpdateHandlers
  end.

Definition setParameter_whole (module : string) (param : AnyParameter rate) : M ParamManager unit :=
  setParameter_in module maxRange param.

Definition apply_param (p : ParamAppointment) : M ParamManager unit :=
  match pa_space p with
  | None => setParameter_whole (pa_module p) (pa_param p)
  | Some a => setParameter_in (pa_module p) a (pa_param p)
  end.

Definition addParamAppointment (p : ParamAppointment) : M ParamManager unit :=
  m_modify (fun s => with_schedule (addAppointment pa_date p (mParamScheduler s)) s).

(** [registerModule] and [unregisterModule]. *)
Definition registerModule (i : nat) : M ParamManager unit :=
  s <- m_get ;;
  m <- m_lift (ModuleTree.deref (mods s) i) ;;
  match mVpsimModules s !! mName m with
  | Some _ => m_throw (Throw "Trying to register a second module with the same name.")
  | None => m_modify (fun s => with_registry (<[mName m := i]> (mVpsimModules s)) (mUpdateHandlers s) s)
  end.

Definition unregisterModule (name : string) : M ParamManager unit :=
  m_modify (fun s => with_registry (delete name (mVpsimModules s)) (map_erase name (mUpdateHandlers s)) s).

Definition registerParamHook (name : string) (f : nat) : M ParamManager unit :=
  m_modify (fun s => with_registry (mVpsimModules s) (map_emplace name f (map_erase name (mUpdateHandlers s))) s).

(** The constructor of a module, which registers it. *)
Definition construct_module (name : string) (type : moduleType) (a : AddrSpace) (nbPort : Z) : M ParamManager unit :=
  fun s => registerModule (length (mods s))
    (with_modules (mods s ++ [new_VpsimModule name type a nbPort]) (world s) s).

(** A step of the kernel: the appointments that become due are applied. *)
Definition kernel_tick (c : @scheduler ParamAppointment) : M ParamManager unit :=
  s <- m_get ;;
  m_modify (with_schedule c) ;;;
  m_forM (drop (length (applied (mParamScheduler s))) (applied c)).*2 apply_param.

(** ** Invariant *)

Record manager_inv (s : ParamManager) : Prop := mkManagerInv {
  mi_named : ∀ n i, mVpsimModules s !! n = Some i → ∃ m, mods s !! i = Some m ∧ mName m = n;
  mi_handlers : map_sorted (mUpdateHandlers s) }.

(** ** Names are kept *)

Abbreviation names := (view (W := W) (@mName rate)).

Lemma names_static : static (@mName rate).
Proof. done. Qed.

(** ** The invariant is kept *)

(** What setting parameters never changes. *)
Definition registry (s : ParamManager) := (mVpsimModules s, mUpdateHandlers s, mParamScheduler s, mName <$> mods s).

Lemma registry_inv s s' : registry s' = registry s → manager_inv s → manager_inv s'.
Proof.
  intros E [Hn Hh]. injection E as Em Eh _ En. split; [|by rewrite Eh]. rewrite Em. intros n i Hi.
  destruct (Hn n i Hi) as (m & Hm & Hname). assert ((mName <$> mods s') !! i = Some n) as Hl.
  { by rewrite En, list_lookup_fmap, Hm, <- Hname. }
  rewrite list_lookup_fmap in Hl. destruct (mods s' !! i) as [m'|]; [|done]. injection Hl as Hl. eauto.
Qed.

Lemma registry_on_modules m : preserves names m → preserves registry (on_modules m).
Proof.
  intros Hm s. specialize (Hm (mods s, world s)). unfold on_modules. destruct (m (mods s, world s)) as [r [h w]].
  unfold view in Hm. simpl in Hm. unfold registry. simpl. by rewrite Hm.
Qed.

Lemma registry_handlers : preserves registry callParamUpdateHandlers.
Proof.
  apply preserves_bind; [done|]. intros s. apply registry_on_modules, preserves_forM. intros n. apply view_hook.
Qed.

Lemma registry_set n a param : preserves registry (setParameter_in n a param).
Proof.
  apply preserves_bind; [done|]. intros s. destruct (mVpsimModules s !! n); [|done].
  apply preserves_bind; [by apply registry_on_modules, view_set|]. intros _. apply registry_handlers.
Qed.

(** ** Operations on the manager *)

Inductive manager_op :=
  | NewModule (name : string) (type : moduleType) (a : AddrSpace) (nbPort : Z)
  | Connect (i j : nat) (port : Z)
  | Modify (i : nat) (md : modifier)
  | ModuleHook (i n : nat)
  | DropModule (name : string)
  | SetIn (name : string) (a : AddrSpace) (param : AnyParameter rate)
  | SetWhole (name : string) (param : AnyParameter rate)
  | OnUpdate (name : string) (f : nat)
  | Appoint (p : ParamAppointment)
  | Tick (c : @scheduler ParamAppointment).

Definition manager_exec (o : manager_op) : M ParamManager unit :=
  match o with
  | NewModule name type a nbPort => construct_module name type a nbPort
  | Connect i j port => on_modules (addSuccessor scale hook i j port)
  | Modify i md => on_modules (addParameterSetModifier scale hook i md)
  | ModuleHook i n => on_modules (registerUpdateHook i n)
  | DropModule name => unregisterModule name
  | SetIn name a param => setParameter_in name a param
  | SetWhole name param => setParameter_whole name param
  | OnUpdate name f => registerParamHook name f
  | Appoint p => addParamAppointment p
  | Tick c => kernel_tick c
  end.

Lemma registry_apply p : preserves registry (apply_param p).
Proof. unfold apply_param, setParameter_whole. destruct (pa_space p); apply registry_set. Qed.

Lemma exec_inv o s : manager_inv s → manager_inv (manager_exec o s).2.
Proof.
  intros H. destruct o as [name type a0 nb|i j port|i md|i n|n|n a param|n param|n f|p|c]; cbn [manager_exec].
  - unfold construct_module, registerModule. set (m := new_VpsimModule _ _ _ _). set (s1 := with_modules _ _ s). assert (manager_inv s1) as H1.
    { destruct H as [Hn Hh]. split; [|done]. intros n i Hi. destruct (Hn n i Hi) as (m' & Hm' & Hname).
      exists m'. split; [|done]. simpl. by apply lookup_app_l_Some. }
    assert (mods s1 !! length (mods s) = Some m) as Hm by (by apply list_lookup_middle).
    erewrite m_bind_ok by done. erewrite m_bind_ok by (unfold m_lift, ModuleTree.deref; by rewrite Hm).
    destruct (mVpsimModules s1 !! mName m) as [j|] eqn:E; [done|]. destruct H1 as [Hn Hh]. split; [|done].
    simpl. intros n i. rewrite lookup_insert. case_decide as Hnm; [|apply Hn]. intros [= <-]. subst n. by exists m.
  - by apply (registry_inv s); [by apply registry_on_modules, view_connect|].
  - by apply (registry_inv s); [by apply registry_on_modules, view_modifier|].
  - by apply (registry_inv s); [by apply registry_on_modules, view_upd|].
  - destruct H as [Hn Hh]. split; simpl; [|by apply erase_sorted]. intros m i [_ Hi]%lookup_delete_Some. by apply Hn.
  - by apply (registry_inv s); [apply registry_set|].
  - by apply (registry_inv s); [apply registry_set|].
  - destruct H as [Hn Hh]. split; [done|]. by apply emplace_sorted, erase_sorted.
  - by destruct H.
  - unfold kernel_tick. erewrite !m_bind_ok by done. apply (registry_inv (with_schedule c s)); [|by destruct H].
    apply preserves_forM. intros p. apply registry_apply.
Qed.

Definition new_manager (w : W) : ParamManager := mkManager [] w ∅ [] new_scheduler.

Inductive manager_reachable (w : W) : ParamManager → Prop :=
  | mr_start : manager_reachable w (new_manager w)
  | mr_step s o : manager_reachable w s → manager_reachable w (manager_exec o s).2.

Lemma manager_reachable_inv w s : manager_reachable w s → manager_inv s.
Proof. induction 1 as [|s o _ IH]; [split; [done|constructor]|by apply exec_inv]. Qed.

(** parameters by name.  Whatever was done with the manager before, setting a parameter
    under a name that is not registered throws and changes nothing; under a registered name it
    sets it on the module of that name: on an acyclic, settled platform the propagation ends,
    leaves the module consistent with its successors, and the whole platform if the module's
    exports change to something new; the registered names and handlers stay.  The only other
    errors are those of a hook or a handler and the overflow of an address translation. *)
Theorem parameter_by_name w0 r s n a param : manager_reachable w0 s →
  platform r (mods s) → settled_but scale ∅ (mods s) → as_wf a →
  match setParameter_in n a param s with
  | (Ok _, s') => ∃ i m, mVpsimModules s !! n = Some i ∧ mods s !! i = Some m ∧ mName m = n
      ∧ registry s' = registry s ∧ platform r (mods s') ∧ consistent scale (mods s') i
      ∧ ∀ q, exports (mods s') i = Some q → nonempty q → Some q ≠ exports (mods s) i → settled_but scale ∅ (mods s')
  | (Err e, s') => mVpsimModules s !! n = None ∧ e = map_at ∧ s' = s
      ∨ mVpsimModules s !! n ≠ None ∧ registry s' = registry s
        ∧ (refused hook (mods s) e ∨ ∃ f h w, (handler f h w).1 = Err e)
  end.
Proof.
  intros Hr Hp HS Ha. pose proof (manager_reachable_inv w0 s Hr) as H. pose proof (registry_set n a param s) as Hreg.
  unfold setParameter_in in *. erewrite (m_bind_ok m_get) in * by done.
  destruct (mVpsimModules s !! n) as [i|] eqn:E; [|by left]. destruct (mi_named s H n i E) as (m & Hm & Hname).
  destruct (set_outcome scale hook r (mods s) (world s) i m a param Hp Hm HS Ha) as [_ Hres].
  unfold m_bind, on_modules in *. destruct (setModuleParameter _ _ _ _ _ _) as [[[]|e] [h' w']]; simpl in *.
  - unfold callParamUpdateHandlers, m_bind, m_get, on_modules in *. simpl in *.
    destruct (call_hooks_frame handler (mUpdateHandlers s).*2 h' w') as (res & w1 & Eh & He). rewrite Eh in *. simpl in *.
    destruct Hres as (H' & Hc & Hq). destruct res as [[]|e]; [by exists i, m; split_and!|]. right. split_and!; [done..|].
    right. by apply He.
  - right. split_and!; [done..|by left].
Qed.
End manager.

(** ** A concrete run: the platform of [ModuleTree], built through the manager *)

Abbreviation exec_nat := (manager_exec nat_scale no_hook no_hook) (only parsing).

Definition built_ops : list (@manager_op nat) :=
  [NewModule "cpu" intermediate maxRange 1; NewModule "bus" intermediate maxRange 1;
   NewModule "memory" memoryMapped (mkAddrSpace 0x1000 0x1FFF) 0; Connect 0 1 0; Connect 1 2 0;
   OnUpdate "handler" 0; SetIn "memory" (mkAddrSpace 0x1000 0x1FFF) (ABlocking BT_ENABLED)].

Definition built_manager : @ParamManager nat unit :=
  foldl (fun s o => (exec_nat o s).2) (new_manager tt) built_ops.

Lemma built_manager_reachable : manager_reachable nat_scale no_hook no_hook tt built_manager.
Proof.
  unfold built_manager. assert (manager_reachable nat_scale no_hook no_hook tt (new_manager tt)) as H by constructor.
  revert H. generalize (@new_manager nat unit tt). induction built_ops as [|o l IH]; intros s H; [done|].
  simpl. apply IH. by constructor.
Qed.

Lemma built_manager_mods : mods built_manager = built.
Proof. vm_compute. done. Qed.

Lemma built_manager_platform : platform (fun i => i) (mods built_manager).
Proof. rewrite built_manager_mods. apply built_platform. Qed.
Lemma built_manager_settled : settled_but nat_scale ∅ (mods built_manager).
Proof. rewrite built_manager_mods. apply built_settled. Qed.
Lemma built_manager_disk : mVpsimModules built_manager !! "disk" = None.
Proof. vm_compute. done. Qed.
Lemma maxRange_wf : as_wf maxRange.
Proof. unfold as_wf, maxRange. simpl. split_and!; by vm_compute. Qed.

(** A name that is not registered, and one that is. *)
Lemma parameter_by_name_witness :
  (setParameter_in nat_scale no_hook no_hook "disk" maxRange (ABlocking BT_ENABLED) built_manager).1 = Err map_at
  ∧ is_ok (setParameter_in nat_scale no_hook no_hook "memory" blocked_half (ABlocking BT_DISABLED) built_manager).1 = true.
Proof.
  split.
  - pose proof (parameter_by_name nat_scale no_hook no_hook tt (fun i => i) built_manager "disk" maxRange
      (ABlocking BT_ENABLED) built_manager_reachable built_manager_platform built_manager_settled maxRange_wf) as H.
    revert H. destruct (setParameter_in _ _ _ _ _ _ _) as [[[]|e] s'].
    + intros (i & m & Hi & _). rewrite built_manager_disk in Hi. done.
    + intros [(_ & -> & _)|(Hi & _)]; [done|]. by destruct (Hi built_manager_disk).
  - by vm_compute.
Defined.
