(* ===== verification/SmartUart.v ===== *)
(** * Text triggers of the smart UART ([components/clean_components/SmartUart.cpp], [SmartUart.hpp])

    Characters written to the UART are compared with patterns; a complete pattern sets a parameter
    of a module through the parameter manager and closes a segment of the statistics.  The file shows what
    a sequence of writes does: the triggers fire in order for the patterns that complete, a trigger
    only fires after its pattern was written, and it fires for a pattern whose first character was not
    written before; a pattern that starts inside a failed match is missed. *)

From S2P Require Import Prelude AddrSpace ModuleParams ParamContainer ParameterSet ModuleTree ParamManager.

Section uart.
(** A descriptor is a module, an address space and a parameter; [fire] is the call of
    [setParameter] and [pushStatistics] on the rest of the program. *)
Context {D P : Type} (fire : D → M P unit).

(** A trigger: the number of characters that match, the pattern and the descriptor. *)
Record trigger := mkTrigger { pos : nat; pattern : list Z; descriptor : D }.

Record SmartUart := mkSmartUart { mWriteAccesses : Z; mReadAccesses : Z; mTriggers : list trigger; program : P }.

(** The counters are not initialised. *)
Definition new_SmartUart (writes reads : Z) (p : P) : SmartUart := mkSmartUart writes reads [] p.

Definition read : M SmartUart unit :=
  m_modify (fun u => mkSmartUart (mWriteAccesses u) (u64 (mReadAccesses u + 1)) (mTriggers u) (program u)).

Definition regStringParamTrigger (t : list Z) (d : D) : M SmartUart unit :=
  if bool_decide (t = []) then m_throw (Throw "The pattern cannot be empty.")
  else m_modify (fun u => mkSmartUart (mWriteAccesses u) (mReadAccesses u) (mTriggers u ++ [mkTrigger 0 t d]) (program u)).

(** [std::string::operator[]]: at the end of the string there is a null character. *)
Definition char_at (s : list Z) (i : nat) : result Z :=
  match s !! i with
  | Some c => Ok c
  | None => if bool_decide (i = length s) then Ok 0 else Err (UndefinedBehaviour "string index out of range")
  end.

Definition set_pos (k i : nat) (u : SmartUart) : SmartUart :=
  mkSmartUart (mWriteAccesses u) (mReadAccesses u) (alter (fun t => mkTrigger i (pattern t) (descriptor t)) k (mTriggers u)) (program u).
Definition fire_on (d : D) : M SmartUart unit := fun u =>
  let '(r, p) := fire d (program u) in (r, mkSmartUart (mWriteAccesses u) (mReadAccesses u) (mTriggers u) p).

(** The body of the loop over the triggers, for the [k]-th one. *)
Definition write_trigger (c : Z) (k : nat) : M SmartUart unit :=
  u <- m_get ;;
  match mTriggers u !! k with
  | None => m_ret tt
  | Some t =>
      x <- m_lift (char_at (pattern t) (pos t)) ;;
      m_modify (set_pos k (S (pos t))) ;;;
      if bool_decide (x = c)
      then m_when (bool_decide (S (pos t) = length (pattern t))) (fire_on (descriptor t) ;;; m_modify (set_pos k 0))
      else m_modify (set_pos k 0)
  end.

Definition write (c : Z) : M SmartUart unit :=
  m_modify (fun u => mkSmartUart (u64 (mWriteAccesses u + 1)) (mReadAccesses u) (mTriggers u) (program u)) ;;;
  u <- m_get ;;
  m_when (negb (bool_decide (c = 0))) (m_forM (seq 0 (length (mTriggers u))) (write_trigger c)).

(** ** What the patterns do *)

(** The new position after a character, and whether the pattern is complete. *)
Definition advance (p : list Z) (i : nat) (c : Z) : nat * bool :=
  if bool_decide (p !! i = Some c) then if bool_decide (S i = length p) then (0%nat, true) else (S i, false) else (0%nat, false).

Definition after (c : Z) (t : trigger) : trigger := mkTrigger (advance (pattern t) (pos t) c).1 (pattern t) (descriptor t).
Definition completes (c : Z) (t : trigger) : bool := (advance (pattern t) (pos t) c).2.

(** The descriptors that a text fires, in order. *)
Fixpoint fired (ts : list trigger) (text : list Z) : list D :=
  match text with
  | [] => []
  | c :: text => if bool_decide (c = 0) then fired ts text else (descriptor <$> filter (fun t => completes c t = true) ts) ++ fired (after c <$> ts) text
  end.

Definition trigger_ok (t : trigger) : Prop := (pos t < length (pattern t))%nat.

Lemma after_ok c t : trigger_ok t → trigger_ok (after c t).
Proof.
  unfold trigger_ok, after, advance. simpl. intros H. case_bool_decide as E; [|simpl; lia]. case_bool_decide; simpl; [lia|].
  apply lookup_lt_Some in E. lia.
Qed.

(** ** A write *)

Hypothesis fire_total : ∀ d p, is_ok (fire d p).1 = true.

Definition fire_all (l : list D) (p : P) : P := (m_forM l fire p).2.

Lemma fire_all_app l1 l2 p : fire_all (l1 ++ l2) p = fire_all l2 (fire_all l1 p).
Proof.
  unfold fire_all. induction l1 as [|d l1 IH] in p |- *; [done|]. simpl. unfold m_bind. pose proof (fire_total d p) as H.
  destruct (fire d p) as [[[]|e] p1]; [apply IH|done].
Qed.

Lemma set_pos_middle w r l1 t l2 p i :
  set_pos (length l1) i (mkSmartUart w r (l1 ++ t :: l2) p) = mkSmartUart w r (l1 ++ mkTrigger i (pattern t) (descriptor t) :: l2) p.
Proof. unfold set_pos. simpl. f_equal. rewrite <- (Nat.add_0_r (length l1)). by rewrite alter_app_r. Qed.

(** The triggers before [t] are done. *)
Lemma write_trigger_spec c w r l1 t l2 p : trigger_ok t →
  write_trigger c (length l1) (mkSmartUart w r (l1 ++ t :: l2) p)
  = (Ok tt, mkSmartUart w r (l1 ++ after c t :: l2) (fire_all (if completes c t then [descriptor t] else []) p)).
Proof.
  intros Ht. unfold write_trigger. m_exec. cbn [mTriggers]. rewrite (list_lookup_middle l1) by done.
  destruct (lookup_lt_is_Some_2 (pattern t) (pos t) Ht) as [x Ex]. unfold char_at. rewrite Ex. m_exec. m_exec. rewrite set_pos_middle.
  unfold completes, after, advance. rewrite Ex. destruct (decide (x = c)) as [->|Hx].
  2:{ rewrite (bool_decide_false (x = c)), (bool_decide_false (Some x = _)) by congruence. unfold m_modify. by rewrite set_pos_middle. }
  rewrite (bool_decide_true (c = c)), (bool_decide_true (Some c = _)) by done. case_bool_decide as Hl; cbn [m_when]; [|done].
  unfold m_bind, fire_on. cbn [program]. pose proof (fire_total (descriptor t) p) as Hf. unfold fire_all. cbn. unfold m_bind.
  destruct (fire (descriptor t) p) as [[[]|e] p1]; [|done]. cbn. unfold m_modify. by rewrite set_pos_middle.
Qed.

Lemma write_loop_spec c w r l2 : ∀ l1 p, Forall trigger_ok l2 →
  m_forM (seq (length l1) (length l2)) (write_trigger c) (mkSmartUart w r (l1 ++ l2) p)
  = (Ok tt, mkSmartUart w r (l1 ++ (after c <$> l2)) (fire_all (descriptor <$> filter (fun t => completes c t = true) l2) p)).
Proof.
  induction l2 as [|t l2 IH]; intros l1 p Hok; [done|]. inversion Hok as [|? ? Ht Hl]; subst. cbn [seq length m_forM]. unfold m_bind.
  rewrite write_trigger_spec by done. replace (S (length l1)) with (length (l1 ++ [after c t])) by (rewrite length_app; simpl; lia).
  change (l1 ++ after c t :: l2) with (l1 ++ [after c t] ++ l2). rewrite app_assoc, IH by done. rewrite <- app_assoc. cbn [fmap list_fmap app].
  do 2 f_equal. rewrite <- fire_all_app. f_equal. rewrite filter_cons. by destruct (completes c t).
Qed.

Lemma write_spec c u : Forall trigger_ok (mTriggers u) →
  write c u = (Ok tt, mkSmartUart (u64 (mWriteAccesses u + 1)) (mReadAccesses u)
    (if bool_decide (c = 0) then mTriggers u else after c <$> mTriggers u)
    (fire_all (if bool_decide (c = 0) then [] else descriptor <$> filter (fun t => completes c t = true) (mTriggers u)) (program u))).
Proof.
  intros Hok. unfold write. m_exec. m_exec. case_bool_decide; [done|]. cbn [negb m_when mTriggers].
  apply (write_loop_spec c _ _ (mTriggers u) [] (program u) Hok).
Qed.

End uart.

(** ** Which patterns are found *)

(** After how many characters of a text without nulls a pattern completes, from position [i]. *)
Fixpoint hits (p : list Z) (i : nat) (text : list Z) : list nat :=
  match text with
  | [] => []
  | c :: text => (if (advance p i c).2 then [1%nat] else []) ++ (S <$> hits p (advance p i c).1 text)
  end.

Lemma fired_hits {D} p (d : D) text : ∀ i, fired [mkTrigger i p d] text = replicate (length (hits p i (filter (fun c => c ≠ 0) text))) d.
Proof.
  induction text as [|c text IH]; intros i; [done|]. cbn [fired]. case_bool_decide as Hc.
  - rewrite (filter_cons_False (fun c => c ≠ 0)) by congruence. apply IH.
  - rewrite (filter_cons_True (fun c => c ≠ 0)) by exact Hc. cbn [hits]. rewrite length_app, length_fmap, replicate_add, filter_cons, filter_nil. unfold completes, after. cbn [pattern pos].
    f_equal; [by destruct (advance p i c) as [i' []]|]. apply IH.
Qed.

Lemma advance_cases p i c : (i < length p)%nat →
  p !! i = Some c ∧ (advance p i c = (0%nat, true) ∧ S i = length p ∨ advance p i c = (S i, false) ∧ (S i < length p)%nat)
  ∨ p !! i ≠ Some c ∧ advance p i c = (0%nat, false).
Proof.
  intros Hi. unfold advance. case_bool_decide as E; [left|by right]. split; [done|]. case_bool_decide; [by left|]. right. split; [done|lia].
Qed.

Lemma hits_sound p text : ∀ i seen, (i < length p)%nat → (∃ pre, seen = pre ++ take i p) → ∀ h, h ∈ hits p i text → ∃ pre, seen ++ take h text = pre ++ p.
Proof.
  induction text as [|c text IH]; intros i seen Hi Hseen h Hh; [by apply elem_of_nil in Hh|]. cbn [hits] in Hh.
  assert (∀ i' g, (i' < length p)%nat → (∃ pre, seen ++ [c] = pre ++ take i' p) → g ∈ hits p i' text → ∃ pre, seen ++ take (S g) (c :: text) = pre ++ p) as Hnext.
  { intros i' g Hi' Hs Hg. destruct (IH i' (seen ++ [c]) Hi' Hs g Hg) as [pre E]. exists pre. rewrite <- E, <- app_assoc. done. }
  destruct (advance_cases p i c Hi) as [[Ec [[Ea El]|[Ea El]]]|[Ec Ea]]; rewrite Ea in Hh; cbn [fst snd] in Hh;
    [apply elem_of_app in Hh as [->%list_elem_of_singleton|Hh]; [|apply list_elem_of_fmap in Hh as (g & -> & Hg)]|cbn [app] in Hh; apply list_elem_of_fmap in Hh as (g & -> & Hg)..].
  - destruct Hseen as [pre ->]. exists pre. rewrite <- app_assoc. f_equal. simpl. rewrite take_0. rewrite <- (take_S_r _ _ _ Ec). by rewrite El, firstn_all.
  - apply (Hnext 0%nat); [lia|by exists (seen ++ [c]); rewrite take_0, app_nil_r|done].
  - apply (Hnext (S i)); [done| |done]. destruct Hseen as [pre ->]. exists pre. by rewrite (take_S_r _ _ _ Ec), app_assoc.
  - apply (Hnext 0%nat); [lia|by exists (seen ++ [c]); rewrite take_0, app_nil_r|done].
Qed.

Lemma hits_pattern p post : ∀ i, (i < length p)%nat → (length p - i)%nat ∈ hits p i (drop i p ++ post).
Proof.
  intros i Hi. remember (length p - i)%nat as m eqn:Em. induction m as [|m IH] in i, Hi, Em |- *; [lia|].
  destruct (lookup_lt_is_Some_2 p i Hi) as [c Ec]. rewrite (drop_S p c i Ec). cbn [app hits].
  destruct (advance_cases p i c Hi) as [[_ [[Ea El]|[Ea El]]]|[? _]]; [..|done]; rewrite Ea; cbn [fst snd].
  - assert (m = 0%nat) as -> by lia. left.
  - cbn [app]. apply list_elem_of_fmap. exists m. split; [done|]. apply IH; lia.
Qed.

Lemma hits_skip a p pre text h : a ∉ pre → h ∈ hits (a :: p) 0 text → (length pre + h)%nat ∈ hits (a :: p) 0 (pre ++ text).
Proof.
  induction pre as [|c pre IH]; intros Ha Hh; [done|]. apply not_elem_of_cons in Ha as [Hc Ha]. cbn [app hits].
  destruct (advance_cases (a :: p) 0 c) as [[[= ->] _]|[_ ->]]; [simpl; lia|done|]. cbn [fst snd app]. apply list_elem_of_fmap. exists (length pre + h)%nat.
  split; [done|]. by apply IH.
Qed.

(** the triggers of a pattern.  A text fires a trigger once for every [hits] of its characters that are not null; a hit
    comes right after the pattern was written; and a pattern is hit when its first character does not occur in what was
    written before it. *)
Theorem smart_uart_patterns {D} a p (d : D) text :
  fired [mkTrigger 0 (a :: p) d] text = replicate (length (hits (a :: p) 0 (filter (fun c => c ≠ 0) text))) d
  ∧ (∀ h, h ∈ hits (a :: p) 0 text → ∃ pre, take h text = pre ++ a :: p)
  ∧ (∀ pre post, text = pre ++ (a :: p) ++ post → a ∉ pre → (length pre + length (a :: p))%nat ∈ hits (a :: p) 0 text).
Proof.
  split_and!; [apply fired_hits| |].
  - intros h Hh. apply (hits_sound (a :: p) text 0 []); [simpl; lia|by exists []|done].
  - intros pre post -> Ha. apply hits_skip; [done|]. apply (hits_pattern (a :: p) post 0). simpl. lia.
Qed.

(** A pattern that starts inside a failed match is missed: "aab" does not trigger "ab". *)
Example pattern_missed : hits [97; 98] 0 [97; 97; 98] = [].
Proof. done. Qed.

(** ** The action of a trigger *)

(** [ParamManager::setParameter] and [VpsimIp::pushStatistics]. *)
Definition trigger_action {rate W} `{!ModuleParameter (ApproximateTraversalRate rate)} (scale : ApproximateDelay → rate → ApproximateDelay)
    (hook handler : nat → list (VpsimModule rate) → M W unit) (pushStatistics : M (@ParamManager.ParamManager rate W) unit)
    (d : string * AddrSpace * AnyParameter rate) : M (@ParamManager.ParamManager rate W) unit :=
  setParameter_in scale hook handler d.1.1 d.1.2 d.2 ;;; pushStatistics.


Lemma smart_uart_patterns_witness : 4%nat ∈ hits [97; 98] 0 [98; 98; 97; 98] ∧ fired [mkTrigger 0 [97; 98] 7%nat] [97; 0; 98] = [7%nat].
Proof.
  destruct (smart_uart_patterns 97 [98] 7%nat [98; 98; 97; 98]) as (_ & _ & H).
  destruct (smart_uart_patterns 97 [98] 7%nat [97; 0; 98]) as (-> & _).
  split; [|by vm_compute]. apply (H [98; 98] []); [done|]. by apply (bool_decide_eq_true_1 _); vm_compute.
Defined.
