(* ===== verification/VpsimIp.v ===== *)
(** * Components of a platform ([core/vpsimModule/include/vpsimModule/VpsimIp.hpp])

    Every component of a platform description is a [VpsimIp]: it has attributes, some of them
    required, ports that are created as they are asked for, and a module of the module tree
    through which its parameters travel.  Containers have children and forward some of their
    ports.  The components are kept by class and name; connecting an output port to an input
    port connects their modules ([ModuleTree]) and binds their sockets.

    Components are indices into a list.  What a class of components provides (its number of
    ports, whether it is memory mapped, its attributes) is the record [ip_class]: functions of
    the attributes, which may throw.  A socket is a component and a number.  The file shows that attributes are
    complete after they are checked, that output ports always fit the ports of the module, and
    which components are told about which memories. *)

From S2P Require Import Prelude Attributes AddrSpace ModuleParams ParamContainer ParameterSet ModuleTree Schedule SortedMap ParamManager.
From stdpp Require Import gmap strings pretty.
#[local] Open Scope Z_scope.

(** ** Data *)

(** The type of an object, what its virtual functions return, and what its constructor
    registers.  Most depend on the attributes, and on the name where it is part of a message;
    the next free socket depends on whether [make] was called and on the number of ports so
    far. *)
Record ip_class := mkIpClass {
  c_type : string;
  isContainer : bool;
  getMaxInPortCount : attrs → result Z;
  getMaxOutPortCount : attrs → result Z;
  getNextInPort : string → bool → Z → result Z;
  getNextOutPort : string → bool → Z → result Z;
  isMemoryMapped : attrs → result bool;
  needsDmiAccess : bool;
  isCached : bool;
  hasDmi : attrs → result bool;
  isIdMapped : bool;
  isProcessor : bool;
  getBaseAddress : string → attrs → result Z;
  getIpSize : string → attrs → result Z;
  c_required : list string;
  c_optional : list (string * string) }.

(** A socket: a component and the number of the socket there. *)
Abbreviation socket := (nat * Z)%type (only parsing).

(** A socket with its module, and the number of the port for an output. *)
Record WrappedInSock := mkInSock { in_sock : socket; in_module : option nat }.
Record WrappedOutSock := mkOutSock { out_sock : socket; out_module : option nat; out_port : Z }.

(** The arguments of [addDmiAddress]. *)
Record dmi_address := mkDmiAddress {
  d_name : string;
  d_base : Z;
  d_size : Z;
  d_cached : bool;
  d_hasDmi : bool }.

(** A component.  [mMade]: [make] has created the object behind it ([mModulePtr]). *)
Record Ip := mkIp {
  mIpName : string;
  mClass : ip_class;
  mInPortCounter : Z;
  mOutPortCounter : Z;
  mInPorts : gmap string WrappedInSock;
  mOutPorts : gmap string WrappedOutSock;
  mAttributes : attrs;
  mOptionalAttrs : attrs;
  mRequiredAttrs : list string;
  mVpsimModule : option nat;
  mChildIps : gmap string nat;
  mDmi : list dmi_address;
  mId : Z;
  mMade : bool }.

Definition set_mIpName x (p : Ip) : Ip :=
  mkIp x (mClass p) (mInPortCounter p) (mOutPortCounter p) (mInPorts p) (mOutPorts p)
    (mAttributes p) (mOptionalAttrs p) (mRequiredAttrs p) (mVpsimModule p) (mChildIps p) (mDmi
    p) (mId p) (mMade p).
Definition set_mClass x (p : Ip) : Ip :=
  mkIp (mIpName p) x (mInPortCounter p) (mOutPortCounter p) (mInPorts p) (mOutPorts p)
    (mAttributes p) (mOptionalAttrs p) (mRequiredAttrs p) (mVpsimModule p) (mChildIps p) (mDmi
    p) (mId p) (mMade p).
Definition set_mInPortCounter x (p : Ip) : Ip :=
  mkIp (mIpName p) (mClass p) x (mOutPortCounter p) (mInPorts p) (mOutPorts p) (mAttributes p)
    (mOptionalAttrs p) (mRequiredAttrs p) (mVpsimModule p) (mChildIps p) (mDmi p) (mId p) (mMade
    p).
Definition set_mOutPortCounter x (p : Ip) : Ip :=
  mkIp (mIpName p) (mClass p) (mInPortCounter p) x (mInPorts p) (mOutPorts p) (mAttributes p)
    (mOptionalAttrs p) (mRequiredAttrs p) (mVpsimModule p) (mChildIps p) (mDmi p) (mId p) (mMade
    p).
Definition set_mInPorts x (p : Ip) : Ip :=
  mkIp (mIpName p) (mClass p) (mInPortCounter p) (mOutPortCounter p) x (mOutPorts p)
    (mAttributes p) (mOptionalAttrs p) (mRequiredAttrs p) (mVpsimModule p) (mChildIps p) (mDmi
    p) (mId p) (mMade p).
Definition set_mOutPorts x (p : Ip) : Ip :=
  mkIp (mIpName p) (mClass p) (mInPortCounter p) (mOutPortCounter p) (mInPorts p) x
    (mAttributes p) (mOptionalAttrs p) (mRequiredAttrs p) (mVpsimModule p) (mChildIps p) (mDmi
    p) (mId p) (mMade p).
Definition set_mAttributes x (p : Ip) : Ip :=
  mkIp (mIpName p) (mClass p) (mInPortCounter p) (mOutPortCounter p) (mInPorts p) (mOutPorts
    p) x (mOptionalAttrs p) (mRequiredAttrs p) (mVpsimModule p) (mChildIps p) (mDmi p) (mId p)
    (mMade p).
Definition set_mOptionalAttrs x (p : Ip) : Ip :=
  mkIp (mIpName p) (mClass p) (mInPortCounter p) (mOutPortCounter p) (mInPorts p) (mOutPorts
    p) (mAttributes p) x (mRequiredAttrs p) (mVpsimModule p) (mChildIps p) (mDmi p) (mId p)
    (mMade p).
Definition set_mRequiredAttrs x (p : Ip) : Ip :=
  mkIp (mIpName p) (mClass p) (mInPortCounter p) (mOutPortCounter p) (mInPorts p) (mOutPorts
    p) (mAttributes p) (mOptionalAttrs p) x (mVpsimModule p) (mChildIps p) (mDmi p) (mId p)
    (mMade p).
Definition set_mVpsimModule x (p : Ip) : Ip :=
  mkIp (mIpName p) (mClass p) (mInPortCounter p) (mOutPortCounter p) (mInPorts p) (mOutPorts
    p) (mAttributes p) (mOptionalAttrs p) (mRequiredAttrs p) x (mChildIps p) (mDmi p) (mId p)
    (mMade p).
Definition set_mChildIps x (p : Ip) : Ip :=
  mkIp (mIpName p) (mClass p) (mInPortCounter p) (mOutPortCounter p) (mInPorts p) (mOutPorts
    p) (mAttributes p) (mOptionalAttrs p) (mRequiredAttrs p) (mVpsimModule p) x (mDmi p) (mId p)
    (mMade p).
Definition set_mDmi x (p : Ip) : Ip :=
  mkIp (mIpName p) (mClass p) (mInPortCounter p) (mOutPortCounter p) (mInPorts p) (mOutPorts
    p) (mAttributes p) (mOptionalAttrs p) (mRequiredAttrs p) (mVpsimModule p) (mChildIps p) x
    (mId p) (mMade p).
Definition set_mId x (p : Ip) : Ip :=
  mkIp (mIpName p) (mClass p) (mInPortCounter p) (mOutPortCounter p) (mInPorts p) (mOutPorts
    p) (mAttributes p) (mOptionalAttrs p) (mRequiredAttrs p) (mVpsimModule p) (mChildIps p)
    (mDmi p) x (mMade p).
Definition set_mMade x (p : Ip) : Ip :=
  mkIp (mIpName p) (mClass p) (mInPortCounter p) (mOutPortCounter p) (mInPorts p) (mOutPorts
    p) (mAttributes p) (mOptionalAttrs p) (mRequiredAttrs p) (mVpsimModule p) (mChildIps p)
    (mDmi p) (mId p) x.

Section platforms.
Context {rate : Type} `{!ModuleParameter (ApproximateTraversalRate rate)}.
Context (scale : ApproximateDelay → rate → ApproximateDelay).
Context {W : Type} (hook : nat → list (VpsimModule rate) → M W unit).

(** The components, the parameter manager with the modules, the sockets bound, the classes and
    the instances by class. *)
Record Platform := mkPlatform {
  ips : list Ip;
  manager : @ParamManager rate W;
  binds : list (socket * socket);
  RegisteredClasses : gmap string ip_class;
  AllInstances : list (string * list (string * nat)) }.

Definition with_ips (l : list Ip) (s : Platform) : Platform :=
  mkPlatform l (manager s) (binds s) (RegisteredClasses s) (AllInstances s).
Definition with_manager (m : @ParamManager rate W) (s : Platform) : Platform :=
  mkPlatform (ips s) m (binds s) (RegisteredClasses s) (AllInstances s).
Definition with_binds (l : list (socket * socket)) (s : Platform) : Platform :=
  mkPlatform (ips s) (manager s) l (RegisteredClasses s) (AllInstances s).
Definition with_instances (l : list (string * list (string * nat))) (s : Platform) : Platform :=
  mkPlatform (ips s) (manager s) (binds s) (RegisteredClasses s) l.

Definition get_ip (i : nat) : M Platform Ip := fun s =>
  (match ips s !! i with Some p => Ok p | None => Err (UndefinedBehaviour "dangling pointer") end, s).
Definition upd_ip (i : nat) (f : Ip → Ip) : M Platform unit :=
  m_modify (fun s => with_ips (alter f i (ips s)) s).
Definition on_manager (m : M (@ParamManager rate W) unit) : M Platform unit := fun s =>
  let '(r, c) := m (manager s) in (r, with_manager c s).

(** ** Attributes *)

Definition registerRequiredAttribute (attrName : string) (p : Ip) : Ip :=
  set_mRequiredAttrs (mRequiredAttrs p ++ [attrName]) p.
Definition registerOptionalAttribute (attrName defaultValue : string) (p : Ip) : Ip :=
  set_mOptionalAttrs (<[attrName := defaultValue]> (mOptionalAttrs p)) p.
Definition setAttribute (key value : string) (p : Ip) : Ip :=
  set_mAttributes (<[key := value]> (mAttributes p)) p.

Definition getAttr (attrName : string) (p : Ip) : result string := find_attr attrName (mAttributes p).

(** The required attributes in the order they were registered. *)
Fixpoint check_required (l : list string) (p : Ip) : result unit :=
  match l with
  | [] => Ok tt
  | a :: l' => if mAttributes p !! a is Some _ then check_required l' p
               else Err (Throw (a ++ " : Required attribute not provided !"))
  end.

(** The defaults of the optional ones. *)
Fixpoint fill_optional (l : list (string * string)) (p : Ip) : Ip :=
  match l with
  | [] => p
  | (a, v) :: l' => fill_optional l' (if mAttributes p !! a is Some _ then p else setAttribute a v p)
  end.

Definition checkAttributes (p : Ip) : result Ip :=
  let* _ := check_required (mRequiredAttrs p) p in
  Ok (fill_optional (map_to_list (mOptionalAttrs p)) p).

(** The constructor: that of [VpsimIp], then that of the class. *)
Definition new_VpsimIp (name : string) (c : ip_class) : Ip :=
  foldl (fun p a => registerOptionalAttribute a.1 a.2 p)
    (foldl (fun p a => registerRequiredAttribute a p)
      (registerRequiredAttribute "domain" (mkIp name c 0 0 ∅ ∅ ∅ ∅ [] None ∅ [] (-1) false)) (c_required c))
    (c_optional c).

Definition setId (id : Z) (p : Ip) : Ip := if isIdMapped (mClass p) then set_mId id p else p.

(** ** Ports *)

(** The module of a component, created when it is first asked for. *)
Definition getVpsimModule (i : nat) : M Platform nat :=
  p <- get_ip i ;;
  match mVpsimModule p with
  | Some j => m_ret j
  | None =>
      s <- m_get ;;
      let c := mClass p in
      let a := mAttributes p in
      let j := length (mods (manager s)) in
      mapped <- m_lift (isMemoryMapped c a) ;;
      space <- m_lift (if mapped : bool
        then let* b := getBaseAddress c (mIpName p) a in let* size := getIpSize c (mIpName p) a in Ok (mkAddrSpace b (u64 (b + size - 1)))
        else Ok maxRange) ;;
      nb <- m_lift (getMaxOutPortCount c a) ;;
      on_manager (construct_module (mIpName p) (if mapped then memoryMapped else intermediate) space nb) ;;;
      upd_ip i (set_mVpsimModule (Some j)) ;;;
      m_ret j
  end.

Definition container_port (p : Ip) : exn :=
  Throw (mIpName p ++ " : Container should not be calling addPort(). Please use forwardChild(In/Out)Port().").

(** [addPort] of a component that is no container: the alias of a new port; a generated one is printed into a buffer of 128. *)
Definition addPort (p : Ip) (portAlias : string) (maxi counter : Z) (size : nat) (taken : string → bool) : result string :=
  if bool_decide (maxi ≤ Z.of_nat size)
  then Err (Throw (portAlias ++ " : Cannot add port because maximum interface size reached."))
  else
    let generated := (mIpName p ++ "_" ++ pretty counter)%string in
    if bool_decide (portAlias = "") && bool_decide (128 ≤ Z.of_nat (String.length generated))
    then Err (UndefinedBehaviour "overflow of the buffer of the alias")
    else
      let alias := if bool_decide (portAlias = "") then generated else portAlias in
      if taken alias then Err (Throw (alias ++ " : Port alias already exists.")) else Ok alias.

Definition addInPort (i : nat) (portAlias : string) (inP : option socket) : M Platform string :=
  p <- get_ip i ;;
  let c := mClass p in
  m_when (isContainer c) (m_throw (container_port p)) ;;;
  maxi <- m_lift (getMaxInPortCount c (mAttributes p)) ;;
  newName <- m_lift (addPort p portAlias maxi (mInPortCounter p) (size (mInPorts p))
    (fun a => bool_decide (is_Some (mInPorts p !! a)))) ;;
  sock <- m_lift (match inP with Some sock => Ok sock
                  | None => let* k := getNextInPort c (mIpName p) (mMade p) (mInPortCounter p) in Ok (i, k) end) ;;
  j <- getVpsimModule i ;;
  upd_ip i (fun q => set_mInPortCounter (u32 (mInPortCounter q + 1))
    (set_mInPorts (<[newName := mkInSock sock (Some j)]> (mInPorts q)) q)) ;;;
  m_ret newName.

Definition addOutPort (i : nat) (portAlias : string) (outP : option socket) : M Platform string :=
  p <- get_ip i ;;
  let c := mClass p in
  m_when (isContainer c) (m_throw (container_port p)) ;;;
  maxi <- m_lift (getMaxOutPortCount c (mAttributes p)) ;;
  newName <- m_lift (addPort p portAlias maxi (mOutPortCounter p) (size (mOutPorts p))
    (fun a => bool_decide (is_Some (mOutPorts p !! a)))) ;;
  sock <- m_lift (match outP with Some sock => Ok sock
                  | None => let* k := getNextOutPort c (mIpName p) (mMade p) (mOutPortCounter p) in Ok (i, k) end) ;;
  j <- getVpsimModule i ;;
  upd_ip i (fun q => set_mOutPortCounter (u32 (mOutPortCounter q + 1))
    (set_mOutPorts (<[newName := mkOutSock sock (Some j) (mOutPortCounter q)]> (mOutPorts q)) q)) ;;;
  m_ret newName.

Definition port_not_found (p : Ip) : exn :=
  Throw (mIpName p ++ " Port not found. Have you forwarded child ports ?").

(** [getInPort] and [getOutPort]; a container does not create ports. *)
Definition getInPort (i : nat) (portAlias : string) : M Platform WrappedInSock :=
  p <- get_ip i ;;
  match mInPorts p !! portAlias with
  | Some w => m_ret w
  | None =>
      if isContainer (mClass p) then m_throw (port_not_found p)
      else
        alias <- addInPort i portAlias None ;;
        q <- get_ip i ;;
        m_lift (if mInPorts q !! alias is Some w then Ok w else Err AssertionFailed)
  end.

Definition getOutPort (i : nat) (portAlias : string) : M Platform WrappedOutSock :=
  p <- get_ip i ;;
  match mOutPorts p !! portAlias with
  | Some w => m_ret w
  | None =>
      if isContainer (mClass p) then m_throw (port_not_found p)
      else
        alias <- addOutPort i portAlias None ;;
        q <- get_ip i ;;
        m_lift (if mOutPorts q !! alias is Some w then Ok w else Err AssertionFailed)
  end.

Definition connect_ips (i : nat) (outPortAlias : string) (other : nat) (inPortAlias : string) : M Platform unit :=
  thisSock <- getOutPort i outPortAlias ;;
  thatSock <- getInPort other inPortAlias ;;
  match out_module thisSock, in_module thatSock with
  | Some a, Some b => on_manager (on_modules (addSuccessor scale hook a b (out_port thisSock)))
  | _, _ => m_ret tt
  end ;;;
  m_modify (fun s => with_binds (binds s ++ [(out_sock thisSock, in_sock thatSock)]) s).

(** ** Containers *)

Definition getChild (i : nat) (name : string) : M Platform nat :=
  p <- get_ip i ;;
  if isContainer (mClass p)
  then m_lift (if mChildIps p !! name is Some c then Ok c else Err (Throw (name ++ " : Child not found.")))
  else m_throw (Throw "Calling getChild() from non-container.").

Definition addChild (i child : nat) : M Platform unit :=
  p <- get_ip i ;;
  c <- get_ip child ;;
  if isContainer (mClass p)
  then if mChildIps p !! mIpName c is Some _ then m_throw (Throw (mIpName c ++ " : Child already exists."))
       else upd_ip i (fun q => set_mChildIps (<[mIpName c := child]> (mChildIps q)) q)
  else m_throw (Throw "Calling addChild() from non-container.").

Definition forwardChildInPort (i : nat) (childName childPortAlias myPortAlias : string) : M Platform unit :=
  p <- get_ip i ;;
  if negb (isContainer (mClass p)) then m_throw (Throw (mIpName p ++ " : Forwarding in child port from non-container."))
  else if mInPorts p !! myPortAlias is Some _ then m_throw (Throw (mIpName p ++ " : Alias for child port already exists."))
  else
    c <- getChild i childName ;;
    w <- getInPort c childPortAlias ;;
    upd_ip i (fun q => set_mInPorts (<[myPortAlias := w]> (mInPorts q)) q).

Definition forwardChildOutPort (i : nat) (childName childPortAlias myPortAlias : string) : M Platform unit :=
  p <- get_ip i ;;
  if negb (isContainer (mClass p)) then m_throw (Throw (mIpName p ++ " : Forwarding out child port from non-container."))
  else if mOutPorts p !! myPortAlias is Some _ then m_throw (Throw (mIpName p ++ " : Alias for child port already exists."))
  else
    c <- getChild i childName ;;
    w <- getOutPort c childPortAlias ;;
    upd_ip i (fun q => set_mOutPorts (<[myPortAlias := w]> (mOutPorts q)) q).

(** ** The registry of components *)

Definition IsNameUsed (instanceName : string) (s : Platform) : bool :=
  existsb (fun objs => if map_find instanceName objs.2 is Some _ then true else false) (AllInstances s).

Definition NewByName (className instanceName : string) : M Platform nat :=
  s <- m_get ;;
  match RegisteredClasses s !! className with
  | None => m_throw (Throw (className ++ " : Class is not registered."))
  | Some c =>
      if IsNameUsed instanceName s then m_throw (Throw (instanceName ++ " : Name already used by another IP."))
      else
        let i := length (ips s) in
        m_modify (with_ips (ips s ++ [new_VpsimIp instanceName c])) ;;;
        m_modify (fun s => with_instances
          (map_update className (map_emplace instanceName i) (map_emplace className [] (AllInstances s))) s) ;;;
        m_ret i
  end.

(** [Find] and [FindWithType]. *)
Fixpoint find_with_type (instanceName : string) (l : list (string * list (string * nat))) : option (string * nat) :=
  match l with
  | [] => None
  | (c, objs) :: l' => if map_find instanceName objs is Some i then Some (c, i) else find_with_type instanceName l'
  end.
Definition Find (instanceName : string) (s : Platform) : option nat := snd <$> find_with_type instanceName (AllInstances s).

(** The components in the order of the maps. *)
Definition all_instances (s : Platform) : list nat := (flat_map snd (AllInstances s)).*2.

Definition MapIf (filterCond : Ip → result bool) (callback : nat → M Platform unit) : M Platform unit :=
  s <- m_get ;;
  m_forM (all_instances s) (fun i =>
    p <- get_ip i ;;
    if isContainer (mClass p) then m_ret tt
    else b <- m_lift (filterCond p) ;; m_when b (callback i)).

Definition addDmiAddress (d : dmi_address) (i : nat) : M Platform unit :=
  p <- get_ip i ;;
  if needsDmiAccess (mClass p) then upd_ip i (fun q => set_mDmi (mDmi q ++ [d]) q)
  else m_throw (Throw (mIpName p ++ " : Providing DMI address to wrong IP.")).

(** What a memory tells. *)
Definition dmi_of (p : Ip) : result dmi_address :=
  let c := mClass p in
  let a := mAttributes p in
  let* base := getBaseAddress c (mIpName p) a in
  let* size := getIpSize c (mIpName p) a in
  let* dmi := hasDmi c a in
  Ok (mkDmiAddress (mIpName p) base size (isCached c) dmi).

(** The test of the inner loop: the domains are compared only for components that need it. *)
Definition wants (p other : Ip) : result bool :=
  if needsDmiAccess (mClass other)
  then let* d := getAttr "domain" other in let* e := getAttr "domain" p in Ok (bool_decide (d = e))
  else Ok false.

Definition NotifyDmiAddresses : M Platform unit :=
  MapIf (fun p => isMemoryMapped (mClass p) (mAttributes p))
    (fun i => p <- get_ip i ;;
      MapIf (wants p) (fun other => d <- m_lift (dmi_of p) ;; addDmiAddress d other)).

(** ** Statistics *)

(** [pushStatistics], the time of a segment: the time minus what the last entry says. *)
Definition push_segment (now : Z) (l : list Z) : list Z :=
  let l := match l with [] => [0] | _ => l end in l ++ [now - List.last l 0].


(** ** Attributes are complete *)

Lemma check_required_spec l p :
  (check_required l p = Ok tt ∧ ∀ a, a ∈ l → is_Some (mAttributes p !! a))
  ∨ ∃ l1 a l2, l = l1 ++ a :: l2 ∧ mAttributes p !! a = None ∧ (∀ b, b ∈ l1 → is_Some (mAttributes p !! b))
      ∧ check_required l p = Err (Throw (a ++ " : Required attribute not provided !")).
Proof.
  induction l as [|a l IH]; simpl; [left; split; [done|]; intros a Ha; by apply elem_of_nil in Ha|].
  destruct (mAttributes p !! a) as [v|] eqn:E.
  - destruct IH as [[-> Hall]|(l1 & b & l2 & -> & Hb & Hall & ->)].
    + left. split; [done|]. intros b [->|Hb]%elem_of_cons; [by eexists|by apply Hall].
    + right. exists (a :: l1), b, l2. split_and!; [done..| |done]. intros c [->|Hc]%elem_of_cons; [by eexists|by apply Hall].
  - right. exists [], a, l. split_and!; [done..| |done]. intros b Hb. by apply elem_of_nil in Hb.
Qed.

Lemma fill_optional_spec l p : NoDup l.*1 →
  fill_optional l p = set_mAttributes (mAttributes p ∪ list_to_map l) p.
Proof.
  induction l as [|[a v] l IH] in p |- *; intros Hnd; simpl.
  - rewrite (right_id_L ∅ (∪)). by destruct p.
  - apply NoDup_cons in Hnd as [Ha Hnd]. rewrite IH by done.
    destruct (mAttributes p !! a) as [w|] eqn:E; simpl.
    + f_equal. apply map_eq. intros b. rewrite !lookup_union. simpl. rewrite lookup_insert.
      case_decide as Hb; [|done]. subst b. rewrite E. by destruct (list_to_map l !! a).
    + unfold setAttribute, set_mAttributes. simpl. f_equal. apply map_eq. intros b.
      rewrite !lookup_union, !lookup_insert. case_decide as Hb; [|done]. subst b.
      rewrite (not_elem_of_list_to_map_1 l a) by done. by rewrite E.
Qed.

(** attributes.  If a required attribute is missing, [checkAttributes] throws for the first
    one missing, in the order they were registered; otherwise it returns, every attribute that
    was set keeps its value, every optional one that was not has its default, nothing else of
    the component changes, and so every registered attribute can be read. *)
Theorem checkAttributes_spec p :
  (∀ l1 a l2, mRequiredAttrs p = l1 ++ a :: l2 → (∀ b, b ∈ l1 → is_Some (mAttributes p !! b)) →
     mAttributes p !! a = None → checkAttributes p = Err (Throw (a ++ " : Required attribute not provided !")))
  ∧ ((∀ a, a ∈ mRequiredAttrs p → is_Some (mAttributes p !! a)) →
     checkAttributes p = Ok (set_mAttributes (mAttributes p ∪ mOptionalAttrs p) p)
     ∧ ∀ a, a ∈ mRequiredAttrs p ∨ is_Some (mOptionalAttrs p !! a) →
         is_ok (getAttr a (set_mAttributes (mAttributes p ∪ mOptionalAttrs p) p)) = true).
Proof.
  unfold checkAttributes. split.
  - intros l1 a l2 El Hall Ha. destruct (check_required_spec (mRequiredAttrs p) p) as [[_ Hok]|(k1 & b & k2 & Ek & Hb & Hk & ->)].
    + destruct (Hok a) as [v Hv]; [rewrite El; set_solver|congruence].
    + simpl. do 2 f_equal. rewrite El in Ek. clear El.
      induction l1 as [|x l1 IH] in k1, Hall, Hk, Ek |- *; destruct k1 as [|y k1]; simpl in Ek; injection Ek as Exy Ek.
      * by rewrite Exy.
      * subst y. destruct (Hk a) as [v Hv]; [left|congruence].
      * subst x. destruct (Hall b) as [v Hv]; [left|congruence].
      * apply IH with (k1 := k1); [|done|]; intros c Hc; [apply Hall|apply Hk]; by right.
  - intros Hall. destruct (check_required_spec (mRequiredAttrs p) p) as [[-> _]|(k1 & b & k2 & Ek & Hb & _)].
    2: { destruct (Hall b) as [v Hv]; [rewrite Ek; set_solver|congruence]. }
    simpl. rewrite fill_optional_spec by apply NoDup_fst_map_to_list. rewrite list_to_map_to_list.
    split; [done|]. intros a Ha. unfold getAttr, find_attr. simpl. rewrite lookup_union.
    destruct (mAttributes p !! a) as [v|] eqn:E; [by destruct (mOptionalAttrs p !! a)|].
    destruct Ha as [Ha|[v ->]]; [|done]. destruct (Hall a Ha). congruence.
Qed.

(** ** Statistics *)

(** the time of the third segment is wrong.  A segment records the time minus the last
    entry, which is the time at the end of the segment before only for the second one: after
    three segments that end at [t1], [t2] and [t3] the third entry is [t3 - (t2 - t1)], which
    is the duration [t3 - t2] only when the first segment was empty. *)
Theorem segments_drift t1 t2 t3 :
  foldl (fun l t => push_segment t l) [] [t1; t2; t3] = [0; t1; t2 - t1; t3 - (t2 - t1)]
  ∧ (t3 - (t2 - t1) = t3 - t2 ↔ t1 = 0).
Proof. split; [|lia]. unfold push_segment. simpl. by rewrite Z.sub_0_r. Qed.

(** ** Output ports *)

(** The numbers of ports of the modules. *)
Definition ports_of (s : Platform) : list Z := mNbOutPorts <$> mods (manager s).

(** A component against these: its module has the ports its class now allows, the ports of a
    leaf are numbered from zero without a gap, and every port is one of its module. *)
Definition class_ok (c : ip_class) : Prop := ∀ a n, getMaxOutPortCount c a = Ok n → 0 ≤ n < 2 ^ 32.

Record ip_ok (nb : list Z) (p : Ip) : Prop := mkIpOk {
  ok_class : class_ok (mClass p);
  ok_module : ∀ j, mVpsimModule p = Some j →
    ∃ n, getMaxOutPortCount (mClass p) (mAttributes p) = Ok n ∧ nb !! j = Some n;
  ok_ports : ∀ a w, mOutPorts p !! a = Some w →
    ∃ j n, out_module w = Some j ∧ nb !! j = Some n ∧ 0 ≤ out_port w < n;
  ok_counter : isContainer (mClass p) = false → Z.of_nat (size (mOutPorts p)) = mOutPortCounter p
    ∧ (0 < mOutPortCounter p → is_Some (mVpsimModule p))
    ∧ (∀ n, getMaxOutPortCount (mClass p) (mAttributes p) = Ok n → mOutPortCounter p ≤ n);
  ok_below : isContainer (mClass p) = false → ∀ a w, mOutPorts p !! a = Some w → out_port w < mOutPortCounter p;
  ok_distinct : isContainer (mClass p) = false → ∀ a b w w', a ≠ b →
    mOutPorts p !! a = Some w → mOutPorts p !! b = Some w' → out_port w ≠ out_port w' }.

Record platform_ok (s : Platform) : Prop := mkPlatformOk {
  po_ips : Forall (ip_ok (ports_of s)) (ips s);
  po_classes : ∀ n c, RegisteredClasses s !! n = Some c → class_ok c }.

(** The modules of a later state extend those of an earlier one; the components stay. *)
Record grows (s s' : Platform) : Prop := mkGrows {
  gr_ports : ports_of s `prefix_of` ports_of s';
  gr_classes : RegisteredClasses s' = RegisteredClasses s }.

Lemma ip_ok_mono nb nb' p : nb `prefix_of` nb' → ip_ok nb p → ip_ok nb' p.
Proof.
  intros Hp [Hc Hm Hw Hn Hb Hd]. split; try done.
  - intros j Hj. destruct (Hm j Hj) as (n & Hn' & Hj'). exists n. split; [done|]. by eapply prefix_lookup_Some.
  - intros a w Ha. destruct (Hw a w Ha) as (j & n & Hj & Hn' & Hr). exists j, n. split; [done|]. split; [|done].
    by eapply prefix_lookup_Some.
Qed.

(** The invariant is kept whatever the outcome. *)
Definition keeps_ok {A} (m : M Platform A) : Prop := ∀ s, platform_ok s → platform_ok (m s).2.

Lemma keeps_ok_bind {A B} (m : M Platform A) (k : A → M Platform B) :
  keeps_ok m → (∀ a, keeps_ok (k a)) → keeps_ok (m_bind m k).
Proof.
  intros Hm Hk s Hs. specialize (Hm s Hs). unfold m_bind. destruct (m s) as [[a|e] s']; [|done]. by apply Hk.
Qed.
Lemma keeps_ok_pure {A} (m : M Platform A) : (∀ s, (m s).2 = s) → keeps_ok m.
Proof. intros Hm s Hs. by rewrite Hm. Qed.

Lemma keeps_ips (f : nat → Ip → Ip) i : (∀ nb p, ip_ok nb p → ip_ok nb (f i p)) → keeps_ok (upd_ip i (f i)).
Proof.
  intros Hf s [Hi Hc]. split; [|done]. simpl. change (ports_of _) with (ports_of s).
  apply Forall_forall. intros p (k & Hk)%list_elem_of_lookup. rewrite list_lookup_alter in Hk.
  rewrite Forall_lookup in Hi. case_decide as E; [|by eapply Hi].
  subst k. destruct (ips s !! i) as [q|] eqn:Eq; [|done]. injection Hk as <-. by apply Hf, (Hi i).
Qed.

Lemma keeps_modules m : preserves (view mNbOutPorts) m → keeps_ok (on_manager (on_modules m)).
Proof.
  intros Hm s [Hi Hc]. unfold on_manager, on_modules. specialize (Hm (mods (manager s), world (manager s))).
  destruct (m _) as [r [h w]]. unfold view in Hm. simpl in *.
  split; [|done]. unfold ports_of. simpl. by rewrite Hm.
Qed.

Lemma nb_static : static (@mNbOutPorts rate).
Proof. done. Qed.

(** A new module is the last one, with the ports of its class. *)
Lemma construct_ports name type a nb (s : @ParamManager rate W) : ∃ r s', construct_module name type a nb s = (r, s')
  ∧ mNbOutPorts <$> mods s' = (mNbOutPorts <$> mods s) ++ [nb].
Proof.
  unfold construct_module, registerModule. set (s1 := with_modules _ _ s).
  assert (mods s1 !! length (mods s) = Some (new_VpsimModule name type a nb)) as Hm by (by apply list_lookup_middle).
  erewrite m_bind_ok by done. erewrite m_bind_ok by (unfold m_lift, ModuleTree.deref; by rewrite Hm).
  assert (mNbOutPorts <$> mods s1 = (mNbOutPorts <$> mods s) ++ [nb]) as Hnb by (unfold s1; simpl; by rewrite fmap_app).
  destruct (mVpsimModules s1 !! _); eexists _, _; by split.
Qed.

Lemma get_ip_ok i s p : ips s !! i = Some p → get_ip i s = (Ok p, s).
Proof. intros H. unfold get_ip. by rewrite H. Qed.

Lemma upd_ip_lookup i f s p : ips s !! i = Some p → ips (upd_ip i f s).2 !! i = Some (f p).
Proof. intros H. simpl. rewrite list_lookup_alter, decide_True, H by done. done. Qed.

(** Creating the module: what it reads may throw, then the manager may. *)
Lemma getVpsimModule_runs i s p : platform_ok s → ips s !! i = Some p →
  platform_ok (getVpsimModule i s).2
  ∧ ∀ j, (getVpsimModule i s).1 = Ok j → ips (getVpsimModule i s).2 !! i = Some (set_mVpsimModule (Some j) p).
Proof.
  intros Hs Hp. remember (getVpsimModule i s) as o eqn:Eo. unfold getVpsimModule in Eo.
  erewrite m_bind_ok in Eo by (by apply get_ip_ok).
  destruct (mVpsimModule p) as [j|] eqn:Ej.
  { subst o. split; [done|]. intros j' [= <-]. simpl. rewrite Hp. f_equal. destruct p. simpl in *. by subst. }
  erewrite m_bind_ok in Eo by reflexivity. unfold m_bind at 1, m_lift at 1 in Eo.
  destruct (isMemoryMapped _ _) as [mapped|e]; [|by subst o]. unfold m_bind at 1, m_lift at 1 in Eo.
  destruct (if mapped : bool then _ else _) as [space|e]; [|by subst o]. unfold m_bind at 1, m_lift at 1 in Eo.
  destruct (getMaxOutPortCount _ _) as [nb|e] eqn:Enb; [|by subst o]. unfold m_bind at 1, on_manager in Eo.
  destruct (construct_ports (mIpName p) (if mapped then memoryMapped else intermediate) space nb (manager s)) as (r & c' & Eb & Hnb).
  rewrite Eb in Eo. assert (platform_ok (with_manager c' s)) as Hs'.
  { destruct Hs as [Hi Hc]. split; [|done]. unfold ports_of at 1. simpl. rewrite Hnb.
    apply (Forall_impl _ _ _ Hi). intros q. apply ip_ok_mono. by apply prefix_app_r. }
  destruct r as [[]|e]; [|by subst o]. unfold m_bind, m_ret in Eo.
  assert (platform_ok (upd_ip i (set_mVpsimModule (Some (length (mods (manager s))))) (with_manager c' s)).2) as Hs2.
  { destruct Hs' as [Hi Hc]. split; [|done]. rewrite Forall_lookup in Hi |- *. intros k q. simpl.
    rewrite list_lookup_alter. case_decide as E; [|apply Hi]. subst k. simpl. rewrite Hp. intros [= <-].
    destruct (Hi i p Hp) as [H1 _ H3 H4 H5 H6]. split; try done; simpl.
    - intros j [= <-]. exists nb. split; [done|]. unfold ports_of. simpl. rewrite Hnb.
      rewrite (lookup_app_r (mNbOutPorts <$> _)) by (rewrite length_fmap; lia). by rewrite length_fmap, Nat.sub_diag.
    - intros Hc'. destruct (H4 Hc') as (? & _ & ?). split_and!; [done| |done]. intros _. by eexists. }
  subst o. split; [exact Hs2|]. intros j [= <-]. by apply (upd_ip_lookup i _ (with_manager c' s)).
Qed.

(** Updates of the other members. *)
Lemma ip_ok_frame nb p q : ip_ok nb p → mClass q = mClass p → mAttributes q = mAttributes p →
  mVpsimModule q = mVpsimModule p → mOutPorts q = mOutPorts p → mOutPortCounter q = mOutPortCounter p → ip_ok nb q.
Proof.
  intros [H1 H2 H3 H4 H5 H6] Ec Ea Em Eo En. by split; rewrite ?Ec, ?Ea, ?Em, ?Eo, ?En.
Qed.

Lemma keeps_other i f : (∀ p, mClass (f p) = mClass p ∧ mAttributes (f p) = mAttributes p ∧ mVpsimModule (f p) = mVpsimModule p
    ∧ mOutPorts (f p) = mOutPorts p ∧ mOutPortCounter (f p) = mOutPortCounter p) → keeps_ok (upd_ip i f).
Proof.
  intros Hf. apply (keeps_ips (fun _ => f)). intros nb p Hp. destruct (Hf p) as (? & ? & ? & ? & ?). by apply (ip_ok_frame nb p).
Qed.

(** Before the module exists there is no port, and the attributes are free. *)
Lemma ip_ok_attributes nb p a : ip_ok nb p → mVpsimModule p = None → ip_ok nb (set_mAttributes a p).
Proof.
  intros [H1 H2 H3 H4 H5 H6] Hm. split; simpl; try done; [by rewrite Hm|].
  intros Hc. destruct (H4 Hc) as (Hs & Hi & _). split_and!; [done..|]. intros n Hn. apply H1 in Hn.
  destruct (decide (0 < mOutPortCounter p)) as [Hlt|Hge]; [|lia]. destruct (Hi Hlt). congruence.
Qed.

Lemma keeps_module i : keeps_ok (getVpsimModule i).
Proof.
  intros s Hs. destruct (ips s !! i) as [p|] eqn:E; [by apply (getVpsimModule_runs i s p)|].
  unfold getVpsimModule, m_bind, get_ip. by rewrite E.
Qed.

Lemma addPort_ok p a maxi c n taken alias : addPort p a maxi c n taken = Ok alias →
  Z.of_nat n < maxi ∧ taken alias = false.
Proof.
  unfold addPort. case_bool_decide; [done|].
  destruct (bool_decide (a = "") && _); [done|]. destruct (taken _) eqn:E; [done|]. intros [= <-]. split; [lia|done].
Qed.

(** A port is added to a leaf. *)
Lemma new_port_ok nb p j n alias sock : ip_ok nb p → isContainer (mClass p) = false → mVpsimModule p = Some j →
  getMaxOutPortCount (mClass p) (mAttributes p) = Ok n → Z.of_nat (size (mOutPorts p)) < n → mOutPorts p !! alias = None →
  ip_ok nb (set_mOutPortCounter (u32 (mOutPortCounter p + 1))
    (set_mOutPorts (<[alias := mkOutSock sock (Some j) (mOutPortCounter p)]> (mOutPorts p)) p)).
Proof.
  intros [H1 H2 H3 H4 H5 H6] Hc Hj Hn Hsz Ha. destruct (H4 Hc) as (H4' & _ & Hmax). specialize (H5 Hc). specialize (H6 Hc).
  pose proof (H1 _ _ Hn) as Hr. specialize (Hmax _ Hn). destruct (H2 _ Hj) as (n' & Hn' & Hnb).
  assert (n' = n) as -> by congruence.
  assert (u32 (mOutPortCounter p + 1) = mOutPortCounter p + 1) as Eu by (apply u32_small; unfold in_u32; lia).
  split; simpl; try done; try (intros _); rewrite ?Eu.
  - intros b w. rewrite lookup_insert. case_decide; [|apply H3]. intros [= <-]. exists j, n.
    simpl. split_and!; [done..|lia|lia].
  - rewrite map_size_insert_None by done. split_and!; [lia|by rewrite Hj|]. intros m Hm. assert (m = n) by congruence. lia.
  - intros b w. rewrite lookup_insert. case_decide; [intros [= <-]; simpl; lia|]. intros Hb. specialize (H5 b w Hb). lia.
  - intros b d w w' Hbd. rewrite !lookup_insert. repeat case_decide; try congruence.
    + intros [= <-] Hd. specialize (H5 d w' Hd). simpl. lia.
    + intros Hb [= <-]. specialize (H5 b w Hb). simpl. lia.
    + by apply H6.
Qed.

Lemma keeps_addOutPort i a sock : keeps_ok (addOutPort i a sock).
Proof.
  intros s Hs. unfold addOutPort. destruct (ips s !! i) as [p|] eqn:Ep.
  2: { unfold m_bind, get_ip. by rewrite Ep. }
  erewrite m_bind_ok by (by apply get_ip_ok). destruct (isContainer (mClass p)) eqn:Hc; [done|].
  erewrite m_bind_ok by reflexivity. unfold m_bind at 1, m_lift at 1.
  destruct (getMaxOutPortCount _ _) as [n|e] eqn:En; [|done]. unfold m_bind at 1, m_lift at 1.
  destruct (addPort p _ _ _ _ _) as [alias|e] eqn:Ea; [|done].
  apply addPort_ok in Ea as (Hsz & Ht). apply bool_decide_eq_false, eq_None_not_Some in Ht.
  unfold m_bind at 1, m_lift at 1. destruct (match sock with Some _ => _ | None => _ end) as [sk|e]; [|done].
  destruct (getVpsimModule_runs i s p Hs Ep) as [Hs1 Hj]. unfold m_bind at 1.
  destruct (getVpsimModule i s) as [[j|e] s1]; [|done]. specialize (Hj j eq_refl). simpl in Hs1, Hj.
  unfold m_bind. destruct Hs1 as [Hi Hcl]. split; [|done]. rewrite Forall_lookup in Hi |- *. intros k q. simpl.
  rewrite list_lookup_alter. case_decide as E; [|apply Hi]. subst k. rewrite Hj. intros [= <-].
  by apply (new_port_ok _ _ j n alias _ (Hi i _ Hj)).
Qed.

Lemma keeps_addInPort i a sock : keeps_ok (addInPort i a sock).
Proof.
  apply keeps_ok_bind; [by apply keeps_ok_pure|]. intros p. cbv zeta.
  apply keeps_ok_bind; [apply keeps_ok_pure; by destruct (isContainer (mClass p))|]. intros _.
  do 3 (apply keeps_ok_bind; [by apply keeps_ok_pure|]; intros ?).
  apply keeps_ok_bind; [apply keeps_module|]. intros j. apply keeps_ok_bind; [by apply keeps_other|by intros; apply keeps_ok_pure].
Qed.

Lemma keeps_getInPort i a : keeps_ok (getInPort i a).
Proof.
  apply keeps_ok_bind; [by apply keeps_ok_pure|]. intros p. destruct (mInPorts p !! a); [by apply keeps_ok_pure|].
  destruct (isContainer (mClass p)); [by apply keeps_ok_pure|]. apply keeps_ok_bind; [apply keeps_addInPort|]. intros n.
  apply keeps_ok_bind; [by apply keeps_ok_pure|]. intros q. by apply keeps_ok_pure.
Qed.

Lemma keeps_getOutPort i a : keeps_ok (getOutPort i a).
Proof.
  apply keeps_ok_bind; [by apply keeps_ok_pure|]. intros p. destruct (mOutPorts p !! a); [by apply keeps_ok_pure|].
  destruct (isContainer (mClass p)); [by apply keeps_ok_pure|]. apply keeps_ok_bind; [apply keeps_addOutPort|]. intros n.
  apply keeps_ok_bind; [by apply keeps_ok_pure|]. intros q. by apply keeps_ok_pure.
Qed.

(** The port found is a port of the component. *)
Lemma getOutPort_found i a s w s' : getOutPort i a s = (Ok w, s') →
  ∃ q b, ips s' !! i = Some q ∧ mOutPorts q !! b = Some w.
Proof.
  unfold getOutPort. unfold m_bind at 1, get_ip. destruct (ips s !! i) as [p|] eqn:Ep; [|done].
  destruct (mOutPorts p !! a) as [w0|] eqn:Ea; [by intros [= <- <-]; eauto|].
  destruct (isContainer (mClass p)); [done|]. unfold m_bind at 1. destruct (addOutPort i a None s) as [[n|e] s1]; [|done].
  unfold m_bind, m_lift, get_ip. destruct (ips s1 !! i) as [q|] eqn:Eq; [|done].
  destruct (mOutPorts q !! n) as [w1|] eqn:En; [|done]. intros [= <- <-]. eauto.
Qed.

Lemma keeps_connect i a k b : keeps_ok (connect_ips i a k b).
Proof.
  apply keeps_ok_bind; [apply keeps_getOutPort|]. intros w. apply keeps_ok_bind; [apply keeps_getInPort|]. intros v.
  apply keeps_ok_bind.
  - destruct (out_module w) as [x|]; [|by apply keeps_ok_pure]. destruct (in_module v) as [y|]; [|by apply keeps_ok_pure].
    by apply keeps_modules, view_connect.
  - intros _ s [Hi Hc]. by split.
Qed.

(** The classes of the components never change. *)
Definition classes (s : Platform) : list ip_class := mClass <$> ips s.

Lemma classes_upd i f : (∀ p, mClass (f p) = mClass p) → preserves classes (upd_ip i f).
Proof.
  intros Hf s. unfold classes. simpl. apply list_eq. intros k. rewrite !list_lookup_fmap, list_lookup_alter.
  case_decide as E; [|done]. subst k. destruct (ips s !! i); [|done]. simpl. by rewrite Hf.
Qed.

Lemma classes_manager m : preserves classes (on_manager m).
Proof. intros s. unfold on_manager. by destruct (m (manager s)). Qed.

Ltac keeps_classes := repeat first [ apply preserves_bind; [|intros ?] | apply preserves_if | by apply classes_upd
  | apply classes_manager | done | case_match ].

Lemma classes_getOutPort i a : preserves classes (getOutPort i a).
Proof. unfold getOutPort, addOutPort, getVpsimModule. keeps_classes. Qed.

Lemma keeps_forwardOut i c a b : keeps_ok (forwardChildOutPort i c a b).
Proof.
  intros s Hs. unfold forwardChildOutPort. destruct (ips s !! i) as [p|] eqn:Ep.
  2: { unfold m_bind, get_ip. by rewrite Ep. }
  erewrite m_bind_ok by (by apply get_ip_ok). destruct (isContainer (mClass p)) eqn:Ec; [|done]. cbn [negb].
  destruct (mOutPorts p !! b); [done|]. unfold getChild. unfold m_bind at 1 2. rewrite (get_ip_ok i s p Ep), Ec. unfold m_lift.
  destruct (mChildIps p !! c) as [k|]; [|done]. unfold m_bind at 1.
  pose proof (keeps_getOutPort k a s Hs) as Hk. pose proof (classes_getOutPort k a s) as Hcl.
  destruct (getOutPort k a s) as [[w|e] s1] eqn:Eg; [|done]. simpl in Hk, Hcl.
  apply getOutPort_found in Eg as (q & b' & Hq & Hw). destruct Hk as [Hi Hc]. split; [|done].
  rewrite Forall_lookup in Hi |- *. intros k' q'. simpl. rewrite list_lookup_alter. case_decide as E; [|apply Hi]. subst k'.
  destruct (ips s1 !! i) as [p1|] eqn:E1; [|done]. intros [= <-].
  assert (mClass p1 = mClass p) as Ecl.
  { assert (classes s1 !! i = classes s !! i) as Ex by (by rewrite Hcl). unfold classes in Ex.
    rewrite !list_lookup_fmap, E1, Ep in Ex. by injection Ex. }
  destruct (Hi i p1 E1) as [H1 H2 H3 H4 H5 H6]. split; simpl; try done; try (by rewrite Ecl, Ec).
  intros a' w'. rewrite lookup_insert. case_decide; [|apply H3]. intros [= <-]. by apply (ok_ports _ _ (Hi k q Hq) b').
Qed.

Lemma keeps_forwardIn i c a b : keeps_ok (forwardChildInPort i c a b).
Proof.
  apply keeps_ok_bind; [by apply keeps_ok_pure|]. intros p. destruct (negb _); [by apply keeps_ok_pure|].
  destruct (mInPorts p !! b); [by apply keeps_ok_pure|]. apply keeps_ok_bind.
  - apply keeps_ok_pure. intros s. unfold getChild, m_bind, get_ip. destruct (ips s !! i) as [q|]; [|done].
    by destruct (isContainer (mClass q)).
  - intros k. apply keeps_ok_bind; [apply keeps_getInPort|]. intros w. by apply keeps_other.
Qed.

Lemma keeps_addChild i c : keeps_ok (addChild i c).
Proof.
  apply keeps_ok_bind; [by apply keeps_ok_pure|]. intros p. apply keeps_ok_bind; [by apply keeps_ok_pure|]. intros q.
  destruct (isContainer (mClass p)); [|by apply keeps_ok_pure]. destruct (mChildIps p !! mIpName q); [by apply keeps_ok_pure|].
  by apply keeps_other.
Qed.

Lemma new_VpsimIp_frame name c : let p := new_VpsimIp name c in
  mClass p = c ∧ mVpsimModule p = None ∧ mOutPorts p = ∅ ∧ mOutPortCounter p = 0.
Proof.
  unfold new_VpsimIp. set (p0 := registerRequiredAttribute _ _).
  assert (mClass p0 = c ∧ mVpsimModule p0 = None ∧ mOutPorts p0 = ∅ ∧ mOutPortCounter p0 = 0) as H0 by done.
  clearbody p0. revert p0 H0. generalize (c_optional c).
  assert (∀ l p0, mClass p0 = c ∧ mVpsimModule p0 = None ∧ mOutPorts p0 = ∅ ∧ mOutPortCounter p0 = 0 →
    let p := foldl (fun p a => registerOptionalAttribute a.1 a.2 p) p0 l in
    mClass p = c ∧ mVpsimModule p = None ∧ mOutPorts p = ∅ ∧ mOutPortCounter p = 0) as Hopt.
  { induction l as [|a l IH]; intros p0 H0; [done|]. by apply IH. }
  intros l. induction (c_required c) as [|a r IH]; intros p0 H0; [by apply Hopt|]. by apply IH.
Qed.

Lemma keeps_NewByName c n : keeps_ok (NewByName c n).
Proof.
  intros s Hs. unfold NewByName. erewrite m_bind_ok by reflexivity.
  destruct (RegisteredClasses s !! c) as [cl|] eqn:E; [|done]. destruct (IsNameUsed n s); [done|].
  destruct Hs as [Hi Hc]. split; [|done]. simpl. change (ports_of _) with (ports_of s).
  apply Forall_app. split; [done|]. apply Forall_singleton. destruct (new_VpsimIp_frame n cl) as (E1 & E2 & E3 & E4).
  pose proof (Hc c cl E) as Hcl. split; rewrite ?E1, ?E2, ?E3, ?E4; try done.
  intros _. split_and!; [done|lia|]. intros m Hm. by apply Hcl in Hm as [Hm _].
Qed.

Lemma keeps_MapIf cond callback : (∀ i, keeps_ok (callback i)) → keeps_ok (MapIf cond callback).
Proof.
  intros Hcb. apply keeps_ok_bind; [by apply keeps_ok_pure|]. intros s. induction (all_instances s) as [|i l IH]; [by apply keeps_ok_pure|].
  apply keeps_ok_bind; [|done]. apply keeps_ok_bind; [by apply keeps_ok_pure|]. intros p.
  destruct (isContainer (mClass p)); [by apply keeps_ok_pure|]. apply keeps_ok_bind; [by apply keeps_ok_pure|]. intros [|]; [apply Hcb|by apply keeps_ok_pure].
Qed.

Lemma keeps_notify : keeps_ok NotifyDmiAddresses.
Proof.
  apply keeps_MapIf. intros i. apply keeps_ok_bind; [by apply keeps_ok_pure|]. intros p. apply keeps_MapIf. intros k.
  apply keeps_ok_bind; [by apply keeps_ok_pure|]. intros d.
  apply keeps_ok_bind; [by apply keeps_ok_pure|]. intros q. destruct (needsDmiAccess (mClass q)); [by apply keeps_other|by apply keeps_ok_pure].
Qed.

(** Operations of the manager only add modules. *)
Definition nbs (c : @ParamManager rate W) : list Z := mNbOutPorts <$> mods c.

Lemma nbs_on_modules m : preserves (view mNbOutPorts) m → preserves nbs (on_modules m).
Proof.
  intros Hm c. specialize (Hm (mods c, world c)). unfold on_modules. destruct (m (mods c, world c)) as [r [h w]]. exact Hm.
Qed.

Lemma nbs_set handler n a param : preserves nbs (setParameter_in scale hook handler n a param).
Proof.
  apply preserves_bind; [done|]. intros c. destruct (mVpsimModules c !! n); [|done].
  apply preserves_bind; [by apply nbs_on_modules, view_set|]. intros _. apply preserves_bind; [done|]. intros c'.
  apply nbs_on_modules, preserves_forM. intros k. apply view_hook.
Qed.

Lemma manager_ports (handler : nat → list (VpsimModule rate) → M W unit) o c :
  nbs c `prefix_of` nbs (manager_exec scale hook handler o c).2.
Proof.
  assert (∀ m : M (@ParamManager rate W) unit, preserves nbs m → nbs c `prefix_of` nbs (m c).2) as Hsame by (intros m ->; done).
  destruct o as [n t a nb|i j port|i md|i n|n|n a param|n param|n f|q|sc]; cbn [manager_exec].
  - destruct (construct_ports n t a nb c) as (r & c' & -> & E). unfold nbs. simpl. rewrite E. by apply prefix_app_r.
  - by apply Hsame, nbs_on_modules, view_connect.
  - by apply Hsame, nbs_on_modules, view_modifier.
  - by apply Hsame, nbs_on_modules, view_upd.
  - done.
  - apply Hsame, nbs_set.
  - apply Hsame, nbs_set.
  - done.
  - done.
  - apply Hsame. unfold kernel_tick. apply preserves_bind; [done|]. intros c0. apply preserves_bind; [done|]. intros _.
    apply preserves_forM. intros p. unfold apply_param, setParameter_whole. destruct (pa_space p); apply nbs_set.
Qed.

Lemma keeps_manager handler o : keeps_ok (on_manager (manager_exec scale hook handler o)).
Proof.
  intros s [Hi Hc]. unfold on_manager. pose proof (manager_ports handler o (manager s)) as Hpre.
  destruct (manager_exec _ _ _ o (manager s)) as [r c]. split; [|done]. unfold ports_of at 1. simpl.
  apply (Forall_impl _ _ _ Hi). intros q. by apply ip_ok_mono.
Qed.

(** ** Building a platform *)

Inductive build_op :=
  | New (className instanceName : string)
  | SetAttribute (i : nat) (key value : string)
  | CheckAttributes (i : nat)
  | Made (i : nat)
  | SetId (i : nat) (id : Z)
  | AddInPort (i : nat) (alias : string) (sock : option socket)
  | AddOutPort (i : nat) (alias : string) (sock : option socket)
  | ConnectIps (i : nat) (out : string) (j : nat) (in' : string)
  | AddChild (i c : nat)
  | ForwardIn (i : nat) (child alias mine : string)
  | ForwardOut (i : nat) (child alias mine : string)
  | NotifyDmi
  | Manager (o : @manager_op rate).

Context (handler : nat → list (VpsimModule rate) → M W unit).

Definition build (o : build_op) : M Platform unit :=
  match o with
  | New c n => NewByName c n ;;; m_ret tt
  | SetAttribute i k v => upd_ip i (setAttribute k v)
  | CheckAttributes i => p <- get_ip i ;; q <- m_lift (checkAttributes p) ;; upd_ip i (fun _ => q)
  | Made i => upd_ip i (set_mMade true)
  | SetId i id => upd_ip i (setId id)
  | AddInPort i a k => addInPort i a k ;;; m_ret tt
  | AddOutPort i a k => addOutPort i a k ;;; m_ret tt
  | ConnectIps i a j b => connect_ips i a j b
  | AddChild i c => addChild i c
  | ForwardIn i c a b => forwardChildInPort i c a b
  | ForwardOut i c a b => forwardChildOutPort i c a b
  | NotifyDmi => NotifyDmiAddresses
  | Manager o => on_manager (manager_exec scale hook handler o)
  end.

Lemma checkAttributes_frame p q : checkAttributes p = Ok q → ∃ a, q = set_mAttributes a p.
Proof.
  unfold checkAttributes. destruct (check_required _ p) as [|e]; [|done]. simpl. intros [= <-].
  rewrite fill_optional_spec by apply NoDup_fst_map_to_list. by eexists.
Qed.

(** Attributes are set before the module of the component exists: [make], and with it the
    check of the attributes, is called when all are set and before any connection is made. *)
Definition settled (o : build_op) (s : Platform) : Prop :=
  match o with
  | SetAttribute i _ _ | CheckAttributes i => ∀ p, ips s !! i = Some p → mVpsimModule p = None
  | _ => True
  end.

Lemma keeps_attributes i f s : (∀ p, ips s !! i = Some p → mVpsimModule p = None) →
  (∀ p, ips s !! i = Some p → ∃ a, f p = set_mAttributes a p) → platform_ok s → platform_ok (upd_ip i f s).2.
Proof.
  intros Hm Hf [Hi Hc]. split; [|done]. rewrite Forall_lookup in Hi |- *. intros k q. simpl. rewrite list_lookup_alter.
  case_decide as E; [|apply Hi]. subst k. destruct (ips s !! i) as [p|] eqn:Ep; [|done]. intros [= <-].
  destruct (Hf p eq_refl) as [a ->]. by apply ip_ok_attributes; [apply (Hi i)|apply Hm].
Qed.

Lemma build_keeps o s : settled o s → platform_ok s → platform_ok (build o s).2.
Proof.
  assert (∀ m : M Platform unit, keeps_ok m → settled o s → platform_ok s → platform_ok (m s).2) as Hk by (intros m Hm _; apply Hm).
  destruct o as [c n|i k v|i|i|i id|i a k|i a k|i a j b|i c|i c a b|i c a b| |o]; cbn [build].
  - apply Hk, keeps_ok_bind; [apply keeps_NewByName|by intros; apply keeps_ok_pure].
  - intros Hm. apply keeps_attributes; [done|]. by eexists.
  - intros Hm Hs. unfold m_bind, get_ip, m_lift. destruct (ips s !! i) as [p|] eqn:Ep; [|done].
    destruct (checkAttributes p) as [q|e] eqn:Eq; [|done]. apply keeps_attributes; [done|rewrite Ep; intros ? [= <-]|done].
    by apply checkAttributes_frame.
  - by apply Hk, keeps_other.
  - apply Hk, keeps_other. intros p. unfold setId. by destruct (isIdMapped (mClass p)).
  - apply Hk, keeps_ok_bind; [apply keeps_addInPort|by intros; apply keeps_ok_pure].
  - apply Hk, keeps_ok_bind; [apply keeps_addOutPort|by intros; apply keeps_ok_pure].
  - apply Hk, keeps_connect.
  - apply Hk, keeps_addChild.
  - apply Hk, keeps_forwardIn.
  - apply Hk, keeps_forwardOut.
  - apply Hk, keeps_notify.
  - apply Hk, keeps_manager.
Qed.

(** A platform from which nothing is built yet. *)
Definition empty_platform (w : W) (cs : gmap string ip_class) : Platform := mkPlatform [] (new_manager w) [] cs [].

Inductive built_from (w : W) (cs : gmap string ip_class) : Platform → Prop :=
  | built_start : built_from w cs (empty_platform w cs)
  | built_step s o : built_from w cs s → settled o s → built_from w cs (build o s).2.

Definition classes_ok (cs : gmap string ip_class) : Prop :=
  ∀ n c, cs !! n = Some c → class_ok c.

Lemma built_platform_ok w cs s : classes_ok cs → built_from w cs s → platform_ok s.
Proof. intros Hcs. induction 1 as [|s o _ IH Ho]; [by split|by apply build_keeps]. Qed.

(** C34: output ports.  However a platform is built, exceptions included, as long as the
    attributes of a component are set before its module exists, every output port of every
    component, forwarded ones included, leads to an existing port of an existing module, so
    that connecting it is never refused for its number; a leaf never has more output ports than
    its class allows for its attributes, and its aliases lead to different ports. *)
Theorem out_ports_fit w cs s i p : classes_ok cs → built_from w cs s → ips s !! i = Some p →
  (∀ a k, mOutPorts p !! a = Some k →
     ∃ j m, out_module k = Some j ∧ mods (manager s) !! j = Some m ∧ 0 ≤ out_port k < mNbOutPorts m)
  ∧ (isContainer (mClass p) = false → (∀ n, getMaxOutPortCount (mClass p) (mAttributes p) = Ok n → Z.of_nat (size (mOutPorts p)) ≤ n)
     ∧ ∀ a b k k', a ≠ b → mOutPorts p !! a = Some k → mOutPorts p !! b = Some k' → out_port k ≠ out_port k').
Proof.
  intros Hcs Hb Hp. pose proof (built_platform_ok w cs s Hcs Hb) as [Hi _]. rewrite Forall_lookup in Hi.
  destruct (Hi i p Hp) as [H1 H2 H3 H4 H5 H6]. split.
  - intros a k Ha. destruct (H3 a k Ha) as (j & n & Hj & Hn & Hr). unfold ports_of in Hn. rewrite list_lookup_fmap in Hn.
    destruct (mods (manager s) !! j) as [m|] eqn:Em; [|done]. injection Hn as <-. eauto.
  - intros Hc. destruct (H4 Hc) as (-> & _ & Hmax). split; [done|by apply H6].
Qed.

(** ** The registry *)

Lemma instances_upd i f : preserves AllInstances (upd_ip i f).
Proof. done. Qed.
Lemma instances_manager m : preserves AllInstances (on_manager m).
Proof. intros s. unfold on_manager. by destruct (m (manager s)). Qed.

Ltac keeps_instances := repeat first [ apply preserves_bind; [|intros ?] | apply preserves_if | apply preserves_when
  | apply instances_upd | apply instances_manager | apply preserves_forM; intros ? | done | case_match ].

Lemma build_instances o : (∀ c n, o ≠ New c n) → preserves AllInstances (build o).
Proof.
  intros Hne. destruct o as [c n|i k v|i|i|i id|i a k|i a k|i a j b|i c|i c a b|i c a b| |o]; cbn [build];
    [by destruct (Hne c n)|..]; try done; try apply instances_manager;
    unfold connect_ips, getOutPort, getInPort, addOutPort, addInPort, getVpsimModule, addChild, forwardChildInPort,
      forwardChildOutPort, getChild, NotifyDmiAddresses, MapIf, addDmiAddress;
    keeps_instances.
Qed.

Abbreviation instances := (list (string * list (string * nat))) (only parsing).

Definition inner_sorted (l : instances) : Prop := Forall (fun e => map_sorted e.2) l.

Lemma inner_sorted_new c n i (l : instances) : inner_sorted l →
  inner_sorted (map_update c (map_emplace n i) (map_emplace c [] l)).
Proof.
  intros H. apply Forall_forall. intros e (e0 & -> & He0)%list_elem_of_fmap. unfold inner_sorted in H. rewrite Forall_forall in H.
  assert (map_sorted e0.2) as Hs by (apply elem_of_emplace in He0 as [->|He0]; [constructor|by apply H]).
  case_decide; [|done]. by apply emplace_sorted.
Qed.

(** The two ways a creation goes. *)
Lemma NewByName_runs c n s :
  (∃ cl, RegisteredClasses s !! c = Some cl ∧ IsNameUsed n s = false
     ∧ NewByName c n s = (Ok (length (ips s)), mkPlatform (ips s ++ [new_VpsimIp n cl]) (manager s) (binds s) (RegisteredClasses s)
         (map_update c (map_emplace n (length (ips s))) (map_emplace c [] (AllInstances s)))))
  ∨ (RegisteredClasses s !! c = None ∨ IsNameUsed n s = true) ∧ ∃ e, NewByName c n s = (Err e, s).
Proof.
  unfold NewByName. erewrite m_bind_ok by reflexivity. destruct (RegisteredClasses s !! c) as [cl|] eqn:E; [|eauto].
  destruct (IsNameUsed n s) eqn:En; [eauto|]. left. exists cl. done.
Qed.

Lemma built_inner_sorted w cs s : built_from w cs s → inner_sorted (AllInstances s).
Proof.
  induction 1 as [|s o _ IH _]; [constructor|].
  destruct o as [c n| | | | | | | | | | | |]; [|by rewrite build_instances..].
  cbn [build]. unfold m_bind. destruct (NewByName_runs c n s) as [(cl & _ & _ & ->)|(_ & e & ->)]; [|done].
  simpl. by apply inner_sorted_new.
Qed.

Lemma IsNameUsed_find n s : IsNameUsed n s = false ↔ find_with_type n (AllInstances s) = None.
Proof.
  unfold IsNameUsed. induction (AllInstances s) as [|[c objs] l IH]; simpl; [done|]. destruct (map_find n objs); simpl; [|done].
  split; done.
Qed.

Lemma find_emplace_nil c n (l : instances) : find_with_type n (map_emplace c [] l) = find_with_type n l.
Proof.
  induction l as [|[d objs] l IH]; simpl; [done|]. destruct (String.compare c d); simpl; [done..|]. by rewrite IH.
Qed.

Lemma find_update_other c n i m (l : instances) : inner_sorted l → m ≠ n →
  find_with_type m (map_update c (map_emplace n i) l) = find_with_type m l.
Proof.
  intros Hl Hne. induction Hl as [|[d objs] l Hd Hl IH]; [done|]. unfold map_update in *. rewrite fmap_cons.
  simpl. simpl in IH. case_decide as E; simpl; [|by rewrite IH].
  rewrite map_find_emplace, decide_False by done. by rewrite IH.
Qed.

Lemma find_update_new c n i (l : instances) : inner_sorted l → find_with_type n l = None → (∃ objs, (c, objs) ∈ l) →
  find_with_type n (map_update c (map_emplace n i) l) = Some (c, i).
Proof.
  intros Hl. induction Hl as [|[d objs] l Hd Hl IH]; intros Hn [o Ho]; [by apply elem_of_nil in Ho|].
  simpl in Hn. destruct (map_find n objs) eqn:En; [done|]. unfold map_update in *. rewrite fmap_cons. simpl.
  case_decide as E; simpl.
  - rewrite map_find_emplace, decide_True, En by done. by rewrite E.
  - rewrite En. apply IH; [done|]. exists o. apply elem_of_cons in Ho as [[= -> ->]|Ho]; done.
Qed.

Lemma emplace_key c (l : instances) : ∃ objs, (c, objs) ∈ map_emplace c [] l.
Proof.
  induction l as [|[d objs] l (o & Ho)]; simpl; [exists []; left|]. destruct (String.compare c d) eqn:E.
  - apply String.compare_eq_iff in E as ->. exists objs. left.
  - exists []. left.
  - exists o. by right.
Qed.

(** the registry of components.  However a platform is built, creating a component of a
    registered class under a name that is free gives a new component of that class, found under
    that name, and every other name is found as before; otherwise the creation throws and
    nothing changes. *)
Theorem NewByName_registers w cs s c n : built_from w cs s →
  match NewByName c n s with
  | (Ok i, s') => Find n s = None ∧ Find n s' = Some i ∧ (∀ m, m ≠ n → Find m s' = Find m s)
      ∧ ∃ cl, RegisteredClasses s !! c = Some cl ∧ ips s' = ips s ++ [new_VpsimIp n cl] ∧ i = length (ips s)
  | (Err _, s') => s' = s ∧ (RegisteredClasses s !! c = None ∨ Find n s ≠ None)
  end.
Proof.
  intros Hb. pose proof (built_inner_sorted w cs s Hb) as Hs. unfold Find.
  assert (inner_sorted (map_emplace c [] (AllInstances s))) as Hs1.
  { apply Forall_forall. intros e [->|He]%elem_of_emplace; [constructor|]. unfold inner_sorted in Hs.
    rewrite Forall_forall in Hs. by apply Hs. }
  destruct (NewByName_runs c n s) as [(cl & Hc & Hn & ->)|(Hx & e & ->)].
  - apply IsNameUsed_find in Hn. split; [by rewrite Hn|]. split; [|split].
    + simpl. rewrite find_update_new; [done|done|by rewrite find_emplace_nil|apply emplace_key].
    + intros m Hm. simpl. by rewrite find_update_other, find_emplace_nil.
    + by exists cl.
  - split; [done|]. destruct Hx as [Hx|Hx]; [by left|]. right.
    destruct (find_with_type n (AllInstances s)) eqn:E; [done|]. apply IsNameUsed_find in E. congruence.
Qed.
(** ** Which memories a component is told about *)

(** Every component is registered once. *)
Lemma instances_update c n i (l : instances) objs : NoDup l.*1 → (c, objs) ∈ l → map_find n objs = None →
  (flat_map snd (map_update c (map_emplace n i) l)).*2 ≡ₚ i :: (flat_map snd l).*2.
Proof.
  induction l as [|[d o] l IH]; intros Hnd Hin Hn; [by apply elem_of_nil in Hin|].
  apply NoDup_cons in Hnd as [Hd Hnd].
  change (map_update c (map_emplace n i) ((d, o) :: l)) with
    ((if decide (d = c) then (d, map_emplace n i o) else (d, o)) :: map_update c (map_emplace n i) l).
  cbn [flat_map]. rewrite !fmap_app. apply elem_of_cons in Hin as [[= <- <-]|Hin].
  - rewrite decide_True, update_absent by done. cbn [snd]. by rewrite (emplace_new n i objs Hn).
  - assert (d ≠ c) as Hdc by (intros ->; apply Hd; by apply (list_elem_of_fmap_2 fst _ (c, objs))).
    rewrite decide_False by done. cbn [snd]. rewrite (IH Hnd Hin Hn). by rewrite Permutation_middle.
Qed.

Lemma built_sorted w cs s : built_from w cs s → map_sorted (AllInstances s).
Proof.
  induction 1 as [|s o _ IH _]; [constructor|].
  destruct o as [c n| | | | | | | | | | | |]; [|by rewrite build_instances..].
  cbn [build]. unfold m_bind. destruct (NewByName_runs c n s) as [(cl & _ & _ & ->)|(_ & e & ->)]; [|done].
  simpl. by apply update_sorted, emplace_sorted.
Qed.

Lemma flat_emplace_nil c (l : instances) : flat_map snd (map_emplace c [] l) = flat_map snd l.
Proof.
  induction l as [|[d o] l IH]; simpl; [done|]. destruct (String.compare c d); simpl; [done..|]. by rewrite IH.
Qed.

Lemma find_inner c n objs (l : instances) : find_with_type n l = None → (c, objs) ∈ l → map_find n objs = None.
Proof.
  induction l as [|[d o] l IH]; intros Hf Hin; [by apply elem_of_nil in Hin|]. simpl in Hf.
  destruct (map_find n o) eqn:E; [done|]. apply elem_of_cons in Hin as [[= -> ->]|Hin]; [done|]. by apply IH.
Qed.

Lemma length_ips_upd i f : preserves (fun s => length (ips s)) (upd_ip i f).
Proof. intros s. simpl. by rewrite length_alter. Qed.
Lemma length_ips_manager m : preserves (fun s => length (ips s)) (on_manager m).
Proof. intros s. unfold on_manager. by destruct (m (manager s)). Qed.

Lemma build_length o : (∀ c n, o ≠ New c n) → preserves (fun s => length (ips s)) (build o).
Proof.
  intros Hne. destruct o as [c n|i k v|i|i|i id|i a k|i a k|i a j b|i c|i c a b|i c a b| |o]; cbn [build];
    [by destruct (Hne c n)|..]; try apply length_ips_upd; try apply length_ips_manager;
    unfold connect_ips, getOutPort, getInPort, addOutPort, addInPort, getVpsimModule, addChild, forwardChildInPort,
      forwardChildOutPort, getChild, NotifyDmiAddresses, MapIf, addDmiAddress;
    repeat first [ apply preserves_bind; [|intros ?] | apply preserves_if | apply preserves_when
      | apply length_ips_upd | apply length_ips_manager | apply preserves_forM; intros ? | done | case_match ].
Qed.

Lemma built_registered w cs s : built_from w cs s → all_instances s ≡ₚ seq 0 (length (ips s)).
Proof.
  induction 1 as [|s o Hb IH Ho]; [done|].
  destruct o as [c n| | | | | | | | | | | |].
  2-13: (unfold all_instances; rewrite build_instances by done; rewrite build_length by done; exact IH).
  cbn [build]. unfold m_bind. destruct (NewByName_runs c n s) as [(cl & _ & Hn & ->)|(_ & e & ->)]; [|done].
  unfold all_instances. simpl. destruct (emplace_key c (AllInstances s)) as [objs Hobjs].
  rewrite (instances_update c n _ _ objs); [|by apply map_sorted_keys, emplace_sorted, (built_sorted w cs)|done|].
  - rewrite flat_emplace_nil, length_app, seq_app. fold (all_instances s). rewrite IH. simpl. by rewrite Permutation_cons_append.
  - apply (find_inner c n objs (map_emplace c [] (AllInstances s))); [|done]. rewrite find_emplace_nil. by apply IsNameUsed_find.
Qed.

(** The memories, and who hears about one. *)
Definition memory_mapped (p : Ip) : bool :=
  negb (isContainer (mClass p)) && (if isMemoryMapped (mClass p) (mAttributes p) is Ok true then true else false).
Definition receives (p other : Ip) : bool :=
  negb (isContainer (mClass other)) && needsDmiAccess (mClass other)
    && bool_decide (mAttributes other !! "domain" = mAttributes p !! "domain").

(** What a component is told, in the order of the registry. *)
Definition told_one (s : Platform) (other : Ip) (j : nat) : option dmi_address :=
  match ips s !! j with
  | Some p => if memory_mapped p && receives p other then (if dmi_of p is Ok d then Some d else None) else None
  | None => None
  end.
Definition told (s : Platform) (other : Ip) : list dmi_address := omap (told_one s other) (all_instances s).

(** A leaf has a domain, and a memory can say where it is. *)
Definition notify_ready (p : Ip) : Prop := isContainer (mClass p) = false →
  is_Some (mAttributes p !! "domain")
  ∧ ∃ b, isMemoryMapped (mClass p) (mAttributes p) = Ok b ∧ (b = true → ∃ d, dmi_of p = Ok d).

(** The components with what they were told added. *)
Definition told_state (ds : nat → list dmi_address) (s : Platform) : Platform :=
  with_ips (imap (fun k p => set_mDmi (mDmi p ++ ds k) p) (ips s)) s.

Lemma told_state_lookup ds s k : ips (told_state ds s) !! k = (fun p => set_mDmi (mDmi p ++ ds k) p) <$> ips s !! k.
Proof. unfold told_state. simpl. by rewrite list_lookup_imap. Qed.

Lemma told_state_ext ds ds' s : (∀ k p, ips s !! k = Some p → ds k = ds' k) → told_state ds s = told_state ds' s.
Proof. intros H. unfold told_state. f_equal. apply imap_ext. intros k p Hp. by rewrite (H k p Hp). Qed.

Lemma told_state_none s : told_state (fun _ => []) s = s.
Proof.
  unfold told_state. destruct s. unfold with_ips. simpl. f_equal. apply list_eq. intros k. rewrite list_lookup_imap.
  destruct (ips0 !! k) as [[]|]; [|done]. simpl. unfold set_mDmi. simpl. by rewrite app_nil_r.
Qed.

Lemma tell_one d k ds s : upd_ip k (fun q => set_mDmi (mDmi q ++ [d]) q) (told_state ds s)
  = (Ok tt, told_state (fun j => ds j ++ if decide (j = k) then [d] else []) s).
Proof.
  unfold upd_ip, m_modify, told_state, with_ips. simpl. do 2 f_equal. apply list_eq. intros j.
  rewrite list_lookup_alter, !list_lookup_imap. destruct (decide (k = j)) as [->|E].
  - destruct (ips s !! j); [|done]. simpl. rewrite decide_True by done. unfold set_mDmi. simpl. by rewrite app_assoc.
  - destruct (ips s !! j); [|done]. simpl. by rewrite decide_False, app_nil_r.
Qed.

(** The domains decide who wants the address. *)
Lemma wants_receives p q : is_Some (mAttributes p !! "domain") → is_Some (mAttributes q !! "domain") →
  isContainer (mClass q) = false → wants p q = Ok (receives p q).
Proof.
  intros [d Hd] [e He] Hc. unfold wants, receives, getAttr, find_attr. rewrite Hd, He, Hc. cbn [negb andb result_bind].
  destruct (needsDmiAccess (mClass q)); [|done]. simpl. f_equal. apply bool_decide_ext. naive_solver.
Qed.

Definition hears (s : Platform) (p : Ip) (k : nat) : bool := if ips s !! k is Some q then receives p q else false.

(** One memory is announced to the components of a list. *)
Lemma announce s p d l : NoDup l → (∀ k, k ∈ l → ∃ q, ips s !! k = Some q ∧ notify_ready q) →
  is_Some (mAttributes p !! "domain") → dmi_of p = Ok d → ∀ ds,
  m_forM l (fun i => q <- get_ip i ;; if isContainer (mClass q) then m_ret tt
      else b <- m_lift (wants p q) ;; m_when b (d <- m_lift (dmi_of p) ;; addDmiAddress d i)) (told_state ds s)
  = (Ok tt, told_state (fun k => ds k ++ if bool_decide (k ∈ l) && hears s p k then [d] else []) s).
Proof.
  intros Hnd Hl Hp Hd. induction l as [|i l IH]; intros ds.
  { simpl. unfold m_ret. f_equal. apply told_state_ext. intros k q _. by rewrite app_nil_r. }
  apply NoDup_cons in Hnd as [Hi Hnd]. destruct (Hl i) as (q & Hq & Hr); [left|].
  assert (∀ k, k ∈ l → ∃ q, ips s !! k = Some q ∧ notify_ready q) as Hl' by (intros k Hk; apply Hl; by right).
  specialize (IH Hnd Hl'). cbn [m_forM].
  assert (∀ ds', (∀ k, ds' k = ds k ++ if decide (k = i) then (if hears s p i then [d] else []) else []) →
    told_state (fun k => ds' k ++ if bool_decide (k ∈ l) && hears s p k then [d] else []) s
    = told_state (fun k => ds k ++ if bool_decide (k ∈ i :: l) && hears s p k then [d] else []) s) as Hext.
  { intros ds' Hds. apply told_state_ext. intros k q' _. rewrite Hds. case_decide as E.
    - subst k. rewrite (bool_decide_false (i ∈ l)), (bool_decide_true (i ∈ i :: l)) by (done || left). simpl. by rewrite app_nil_r.
    - assert (bool_decide (k ∈ i :: l) = bool_decide (k ∈ l)) as -> by (apply bool_decide_ext; rewrite elem_of_cons; naive_solver).
      by rewrite app_nil_r. }
  set (q' := set_mDmi (mDmi q ++ ds i) q).
  assert (ips (told_state ds s) !! i = Some q') as Hq' by (by rewrite told_state_lookup, Hq).
  erewrite m_bind_ok; [rewrite IH; f_equal; by apply Hext|].
  assert (hears s p i = receives p q) as Hh by (unfold hears; by rewrite Hq). rewrite Hh.
  assert (receives p q = false → told_state (fun k => ds k ++ if decide (k = i) then (if receives p q then [d] else []) else []) s
    = told_state ds s) as Hno.
  { intros ->. apply told_state_ext. intros k q0 _. case_decide; by rewrite app_nil_r. }
  unfold m_bind at 1. rewrite (get_ip_ok _ _ _ Hq'). cbn [mClass set_mDmi q'].
  destruct (isContainer (mClass q)) eqn:Ec.
  { rewrite Hno; [done|]. unfold receives. by rewrite Ec. }
  destruct (Hr Ec) as (Hdq & _). unfold m_bind at 1, m_lift at 1.
  change (wants p q') with (wants p q). rewrite (wants_receives p q Hp Hdq Ec).
  destruct (receives p q) eqn:Er; cbn [m_when]; [|by rewrite Hno].
  rewrite Hd. unfold m_bind at 1, m_lift at 1, addDmiAddress, m_bind at 1. rewrite (get_ip_ok _ _ _ Hq').
  cbn [mClass set_mDmi q']. assert (needsDmiAccess (mClass q) = true) as ->; [|apply tell_one].
  unfold receives in Er. by destruct (needsDmiAccess (mClass q)); [|rewrite andb_false_r in Er].
Qed.

(** All memories of a list are announced. *)
Lemma announce_all s l0 : NoDup l0 → all_instances s = l0 → (∀ k, k ∈ l0 → ∃ q, ips s !! k = Some q ∧ notify_ready q) →
  ∀ l, (∀ k, k ∈ l → k ∈ l0) → ∀ ds,
  m_forM l (fun i => p <- get_ip i ;; if isContainer (mClass p) then m_ret tt
      else b <- m_lift (isMemoryMapped (mClass p) (mAttributes p)) ;;
        m_when b (p <- get_ip i ;; MapIf (wants p) (fun other => d <- m_lift (dmi_of p) ;; addDmiAddress d other))) (told_state ds s)
  = (Ok tt, told_state (fun k => ds k ++
      if bool_decide (k ∈ l0) then (if ips s !! k is Some other then omap (told_one s other) l else []) else []) s).
Proof.
  intros Hnd Hall Hready. induction l as [|i l IH]; intros Hl ds.
  { simpl. unfold m_ret. f_equal. apply told_state_ext. intros k q Hq. rewrite Hq. case_bool_decide; by rewrite app_nil_r. }
  destruct (Hready i) as (p & Hp & Hr); [apply Hl; left|]. cbn [m_forM].
  set (p' := set_mDmi (mDmi p ++ ds i) p).
  assert (ips (told_state ds s) !! i = Some p') as Hp' by (by rewrite told_state_lookup, Hp).
  assert (∀ k, k ∈ l → k ∈ l0) as Hl' by (intros k Hk; apply Hl; by right).
  assert (∀ ds', (∀ k, ds' k = ds k ++ if bool_decide (k ∈ l0) then
      (if ips s !! k is Some other then option_list (told_one s other i) else []) else []) →
    told_state (fun k => ds' k ++ if bool_decide (k ∈ l0) then (if ips s !! k is Some other then omap (told_one s other) l else []) else []) s
    = told_state (fun k => ds k ++ if bool_decide (k ∈ l0) then (if ips s !! k is Some other then omap (told_one s other) (i :: l) else []) else []) s) as Hext.
  { intros ds' Hds. apply told_state_ext. intros k other Ho. rewrite Hds, Ho. case_bool_decide; [|by rewrite !app_nil_r].
    cbn [omap list_omap]. rewrite <-app_assoc. by destruct (told_one s other i). }
  erewrite m_bind_ok; [rewrite (IH Hl'); f_equal; by apply Hext|].
  assert (memory_mapped p = false → told_state (fun k => ds k ++
      if bool_decide (k ∈ l0) then (if ips s !! k is Some other then option_list (told_one s other i) else []) else []) s
    = told_state ds s) as Hno.
  { intros Hm. apply told_state_ext. intros k other ->. unfold told_one. rewrite Hp, Hm. simpl. case_bool_decide; by rewrite app_nil_r. }
  unfold m_bind at 1. rewrite (get_ip_ok _ _ _ Hp'). cbn [mClass set_mDmi p'].
  destruct (isContainer (mClass p)) eqn:Ec.
  { rewrite Hno; [done|]. unfold memory_mapped. by rewrite Ec. }
  destruct (Hr Ec) as (Hdom & b & Hb & Hdmi). unfold m_bind at 1, m_lift at 1. cbn [mAttributes set_mDmi p']. rewrite Hb.
  assert (memory_mapped p = b) as Hmm by (unfold memory_mapped; rewrite Ec, Hb; by destruct b).
  destruct b; cbn [m_when]; [|by rewrite Hno].
  destruct (Hdmi eq_refl) as [d Hd]. unfold m_bind at 1. rewrite (get_ip_ok _ _ _ Hp'). unfold MapIf, m_bind at 1, m_get.
  change (all_instances (told_state ds s)) with (all_instances s). rewrite Hall.
  rewrite (announce s p' d l0 Hnd Hready Hdom Hd ds). f_equal. apply told_state_ext. intros k other Ho.
  unfold told_one, hears. rewrite Hp, Ho, Hmm. cbn [andb]. change (receives p' other) with (receives p other).
  case_bool_decide; cbn [andb]; [|done]. rewrite Hd. by destruct (receives p other).
Qed.

End platforms.

(** ** A concrete platform: a bus with a memory behind it *)

Definition plain_class (maxIn maxOut : Z) (mapped dmi : bool) : ip_class :=
  mkIpClass "" false (fun _ => Ok maxIn) (fun _ => Ok maxOut) (fun _ _ c => Ok c) (fun _ _ c => Ok c) (fun _ => Ok mapped) dmi false
    (fun _ => Ok false) false false (fun _ _ => Ok 0x1000) (fun _ _ => Ok 0x1000) ["clock"] [("latency", "10")].

Definition test_classes : gmap string ip_class :=
  {[ "Bus" := plain_class 2 2 false false; "Memory" := plain_class 1 0 true false; "Cpu" := plain_class 0 1 false true ]}.

Abbreviation build_nat := (build nat_scale no_hook no_hook) (only parsing).

Definition test_ops : list (@build_op nat) :=
  [New "Bus" "bus"; New "Memory" "ram"; New "Cpu" "cpu"; SetAttribute 1 "domain" "0"; SetAttribute 2 "domain" "0";
   ConnectIps 2 "" 0 "in"; ConnectIps 0 "" 1 "in"; NotifyDmi].

Definition test_platform : @Platform nat unit :=
  foldl (fun s o => (build_nat o s).2) (empty_platform tt test_classes) test_ops.

Abbreviation built_nat := (built_from nat_scale no_hook no_hook) (only parsing).

Lemma test_platform_built : built_nat tt test_classes test_platform.
Proof.
  unfold test_platform, test_ops. cbn [foldl]. repeat apply built_step; try exact I; try constructor.
  all: intros p H; vm_compute in H; by injection H as <-.
Qed.

Lemma test_classes_ok : classes_ok test_classes.
Proof.
  intros n c Hc. unfold test_classes in Hc. do 2 (apply lookup_insert_Some in Hc as [[_ <-]|[_ Hc]]; [intros a m [= <-]; lia|]).
  apply lookup_singleton_Some in Hc as [_ <-]. intros a m [= <-]. lia.
Qed.

(** The bus has one output, port 0 of its module; the CPU was told about the memory. *)
Lemma out_ports_fit_witness : ∃ p k, ips test_platform !! 0%nat = Some p ∧ mOutPorts p !! "bus_0" = Some k ∧ out_port k = 0
  ∧ ∃ j m, out_module k = Some j ∧ mods (manager test_platform) !! j = Some m ∧ 0 ≤ out_port k < mNbOutPorts m.
Proof.
  destruct (ips test_platform !! 0%nat) as [p|] eqn:Ep; [|by vm_compute in Ep].
  exists p. destruct (out_ports_fit nat_scale no_hook no_hook tt test_classes test_platform 0 p
    test_classes_ok test_platform_built Ep) as [H _].
  vm_compute in Ep. injection Ep as <-. eexists. split; [done|]. split; [by vm_compute|]. split; [done|]. apply (H "bus_0"). by vm_compute.
Defined.

Example dmi_told : (mDmi <$> ips test_platform !! 2%nat) = Some [mkDmiAddress "ram" 0x1000 0x1000 false false].
Proof. by vm_compute. Qed.

Lemma NewByName_registers_witness : (NewByName "Memory" "ram" test_platform).2 = test_platform
  ∧ is_ok (NewByName "Memory" "rom" test_platform).1 = true.
Proof.
  split; [|by vm_compute].
  pose proof (NewByName_registers nat_scale no_hook no_hook tt test_classes test_platform
    "Memory" "ram" test_platform_built) as H.
  destruct (NewByName "Memory" "ram" test_platform) as [[i|e] s'] eqn:E; [|by destruct H].
  destruct H as (Hn & _). by vm_compute in Hn.
Defined.

(** Two memories of the domain of the processor and one of another; the bus hears nothing. *)
Definition dmi_ops : list (@build_op nat) :=
  [New "Bus" "bus"; New "Memory" "ram"; New "Memory" "rom"; New "Cpu" "cpu"; New "Memory" "far"; SetAttribute 0 "domain" "0";
   SetAttribute 1 "domain" "0"; SetAttribute 2 "domain" "0"; SetAttribute 3 "domain" "0"; SetAttribute 4 "domain" "1"].
Definition dmi_platform : @Platform nat unit :=
  foldl (fun s o => (build_nat o s).2) (empty_platform tt test_classes) dmi_ops.

Lemma dmi_platform_built : built_nat tt test_classes dmi_platform.
Proof.
  unfold dmi_platform, dmi_ops. cbn [foldl]. repeat apply built_step; try exact I; try constructor.
  all: intros p H; vm_compute in H; by injection H as <-.
Qed.

Lemma dmi_platform_ready i p : ips dmi_platform !! i = Some p → notify_ready p.
Proof.
  intros H. do 5 (destruct i as [|i]; [vm_compute in H; injection H as <-; intros _; split;
    [eexists; vm_compute; reflexivity|eexists; split; [reflexivity|intros _; eexists; reflexivity]]|]).
  vm_compute in H. done.
Qed.

