(* ===== verification/Logger.v ===== *)
(** * The logging system ([core/logger/logger.cpp], [loggerCore.cpp], [appointment.cpp], [log.hpp])

    Every module of the simulator inherits from [Logger]; the [LoggerCore] keeps the
    registered loggers by name, turns logging on and off, and sets the level of debug messages
    each logger lets through, at once or at a date given in advance (the scheduler of
    [Schedule]).  Loggers are objects that come and go: they are modelled by a store indexed
    by their addresses, and reaching one that is gone is an error.

    The file relates this to a table of the names in use with the level of each, and shows
    that no operation reaches a logger that is gone. *)

From S2P Require Import Prelude Schedule.
From stdpp Require Import gmap strings.
#[local] Open Scope Z_scope.

(** ** Data *)

Inductive DebugLvl := dbg0 | dbg1 | dbg2 | dbg3 | dbg4 | dbg5 | dbg6.

Definition lvl_value (l : DebugLvl) : Z :=
  match l with dbg0 => 0 | dbg1 => 1 | dbg2 => 2 | dbg3 => 3 | dbg4 => 4 | dbg5 => 5 | dbg6 => 6 end.

(** A logger; [mOfstream] names the stream it writes to, which several loggers may share. *)
Record Logger := mkLogger {
  mName : string;
  mLogName : string;
  mDebugLvl : DebugLvl;
  mOfstream : nat;
  mEnabled : bool }.

Definition with_debug (lvl : DebugLvl) (l : Logger) : Logger :=
  mkLogger (mName l) (mLogName l) lvl (mOfstream l) (mEnabled l).
Definition with_enabled (b : bool) (l : Logger) : Logger :=
  mkLogger (mName l) (mLogName l) (mDebugLvl l) (mOfstream l) b.

(** An appointment refers to its logger by address. *)
Record Appointment := mkAppointment { mLogger : nat; appDate : Z; appLvl : DebugLvl }.

(** The logger core with the objects it refers to: the loggers alive, the streams that have
    their fail bit set, and what was written to the streams. *)
Record LoggerCore := mkLoggerCore {
  objects : gmap nat Logger;
  failed : gset nat;
  written : list (nat * string);
  mLoggers : gmap string nat;
  mLoggerScheduler : @scheduler Appointment;
  mLoggingEnabled : bool;
  mLoggingImpossible : bool;
  mGlobalDebugLvl : DebugLvl }.

Definition new_LoggerCore : LoggerCore :=
  mkLoggerCore ∅ ∅ [] ∅ new_scheduler false false dbg0.

Definition with_objects (o : gmap nat Logger) (c : LoggerCore) : LoggerCore :=
  mkLoggerCore o (failed c) (written c) (mLoggers c) (mLoggerScheduler c) (mLoggingEnabled c)
    (mLoggingImpossible c) (mGlobalDebugLvl c).
Definition with_loggers (m : gmap string nat) (c : LoggerCore) : LoggerCore :=
  mkLoggerCore (objects c) (failed c) (written c) m (mLoggerScheduler c) (mLoggingEnabled c)
    (mLoggingImpossible c) (mGlobalDebugLvl c).
Definition with_scheduler (s : @scheduler Appointment) (c : LoggerCore) : LoggerCore :=
  mkLoggerCore (objects c) (failed c) (written c) (mLoggers c) s (mLoggingEnabled c)
    (mLoggingImpossible c) (mGlobalDebugLvl c).
Definition with_logging (b : bool) (c : LoggerCore) : LoggerCore :=
  mkLoggerCore (objects c) (failed c) (written c) (mLoggers c) (mLoggerScheduler c) b
    (mLoggingImpossible c) (mGlobalDebugLvl c).
Definition with_global (l : DebugLvl) (c : LoggerCore) : LoggerCore :=
  mkLoggerCore (objects c) (failed c) (written c) (mLoggers c) (mLoggerScheduler c) (mLoggingEnabled c)
    (mLoggingImpossible c) l.
Definition with_streams (f : gset nat) (w : list (nat * string)) (c : LoggerCore) : LoggerCore :=
  mkLoggerCore (objects c) f w (mLoggers c) (mLoggerScheduler c) (mLoggingEnabled c)
    (mLoggingImpossible c) (mGlobalDebugLvl c).

(** A reference to a logger is followed. *)
Definition deref (a : nat) (c : LoggerCore) : result Logger :=
  match objects c !! a with
  | Some l => Ok l
  | None => Err (UndefinedBehaviour "use of a logger after its destruction")
  end.

(** A member of the logger at an address is assigned. *)
Definition assign (f : Logger → Logger) (a : nat) (c : LoggerCore) : result LoggerCore :=
  let* l := deref a c in Ok (with_objects (<[a := f l]> (objects c)) c).

Fixpoint for_each {A} (f : A → LoggerCore → result LoggerCore) (l : list A) (c : LoggerCore) : result LoggerCore :=
  match l with
  | [] => Ok c
  | a :: l' => let* c1 := f a c in for_each f l' c1
  end.

(** ** [LoggerCore] *)

Definition loggingEnabled (c : LoggerCore) : bool := mLoggingEnabled c && negb (mLoggingImpossible c).

Definition isRegistered (a : nat) (c : LoggerCore) : bool :=
  existsb (fun p => bool_decide (p.2 = a)) (map_to_list (mLoggers c)).

Definition enableLogging (enable : bool) (c : LoggerCore) : result LoggerCore :=
  let c1 := with_logging (if enable && mLoggingImpossible c then false else enable) c in
  for_each (fun p c => assign (with_enabled (loggingEnabled c)) p.2 c) (map_to_list (mLoggers c1)) c1.

Definition registerLogger (a : nat) (c : LoggerCore) : result LoggerCore :=
  let* l := deref a c in
  match mLoggers c !! mName l with
  | Some _ => enableLogging false c
  | None =>
      let c1 := with_loggers (<[mName l := a]> (mLoggers c)) c in
      let* c2 := assign (with_enabled (loggingEnabled c1)) a c1 in
      assign (with_debug (mGlobalDebugLvl c2)) a c2
  end.

Definition unregisterLogger (a : nat) (c : LoggerCore) : result LoggerCore :=
  if isRegistered a c
  then let* l := deref a c in Ok (with_loggers (delete (mName l) (mLoggers c)) c)
  else Ok c.

Definition setDebugLvl_name (logger : string) (lvl : DebugLvl) (c : LoggerCore) : result LoggerCore :=
  match mLoggers c !! logger with
  | None => Ok c
  | Some a => assign (with_debug lvl) a c
  end.

Definition setDebugLvl_ref (a : nat) (lvl : DebugLvl) (c : LoggerCore) : result LoggerCore :=
  if isRegistered a c then let* l := deref a c in setDebugLvl_name (mName l) lvl c else Ok c.

Definition setDebugLvl_all (lvl : DebugLvl) (c : LoggerCore) : result LoggerCore :=
  let c1 := with_global lvl c in
  for_each (fun p => setDebugLvl_ref p.2 lvl) (map_to_list (mLoggers c1)) c1.

Definition addAppointment_name (logger : string) (date : Z) (lvl : DebugLvl) (c : LoggerCore) : LoggerCore :=
  match mLoggers c !! logger with
  | None => c
  | Some a => with_scheduler (logger_addAppointment appDate (mkAppointment a date lvl) (mLoggerScheduler c)) c
  end.

Definition addAppointment_ref (a : nat) (date : Z) (lvl : DebugLvl) (c : LoggerCore) : result LoggerCore :=
  if isRegistered a c then let* l := deref a c in Ok (addAppointment_name (mName l) date lvl c) else Ok c.

(** [Appointment::apply]. *)
Definition apply_appointment (p : Appointment) (c : LoggerCore) : result LoggerCore :=
  if isRegistered (mLogger p) c
  then let* l := deref (mLogger p) c in setDebugLvl_name (mName l) (appLvl p) c
  else Ok c.

(** ** [Logger] *)

Definition construct (a : nat) (name : string) (stream : nat) (c : LoggerCore) : result LoggerCore :=
  registerLogger a (with_objects (<[a := mkLogger name (name ++ ".log") dbg0 stream false]> (objects c)) c).

Definition destroy (a : nat) (c : LoggerCore) : result LoggerCore :=
  let* c1 := unregisterLogger a c in Ok (with_objects (delete a (objects c1)) c1).

Definition canLogInfo (l : Logger) : bool := mEnabled l.
Definition canLogDebug (lvl : DebugLvl) (l : Logger) : bool :=
  mEnabled l && bool_decide (lvl_value lvl ≤ lvl_value (mDebugLvl l)).

(** [logInfo], [logWarning], [logError] and [logDebug]: the stream is cleared or made to fail. *)
Definition logStream (can : bool) (l : Logger) (c : LoggerCore) : LoggerCore :=
  with_streams (if can then failed c ∖ {[mOfstream l]} else failed c ∪ {[mOfstream l]}) (written c) c.

(** A stream that fails swallows what is written to it. *)
Definition write_stream (s : nat) (text : string) (c : LoggerCore) : LoggerCore :=
  if bool_decide (s ∈ failed c) then c else with_streams (failed c) (written c ++ [(s, text)]) c.

(** The macros of [log.hpp]. *)
Definition LOG_INFO (a : nat) (text : string) (c : LoggerCore) : result LoggerCore :=
  let* l := deref a c in
  Ok (if canLogInfo l
      then write_stream (mOfstream l) ("[Info] " ++ text) (logStream (canLogInfo l) l c) else c).

Definition lvl_digit (l : DebugLvl) : string :=
  match l with dbg0 => "0" | dbg1 => "1" | dbg2 => "2" | dbg3 => "3" | dbg4 => "4" | dbg5 => "5" | dbg6 => "6" end.

Definition LOG_DEBUG (lvl : DebugLvl) (a : nat) (text : string) (c : LoggerCore) : result LoggerCore :=
  let* l := deref a c in
  Ok (if canLogDebug lvl l
      then write_stream (mOfstream l) ("[Debug" ++ lvl_digit lvl ++ "] " ++ text)
             (logStream (canLogDebug lvl l) l c)
      else c).

(** ** What the programs that log do *)

Inductive op :=
  | Construct (a : nat) (name : string) (stream : nat)
  | Destroy (a : nat)
  | Enable (b : bool)
  | SetName (name : string) (lvl : DebugLvl)
  | SetRef (a : nat) (lvl : DebugLvl)
  | SetAll (lvl : DebugLvl)
  | AddName (name : string) (date : Z) (lvl : DebugLvl)
  | AddRef (a : nat) (date : Z) (lvl : DebugLvl)
  | Kernel (s : @scheduler Appointment).

(** A kernel step of the scheduler applies the appointments it records. *)
Definition newly_applied (s s' : @scheduler Appointment) : list Appointment :=
  (drop (length (applied s)) (applied s')).*2.

Definition exec (o : op) (c : LoggerCore) : result LoggerCore :=
  match o with
  | Construct a n s => construct a n s c
  | Destroy a => destroy a c
  | Enable b => enableLogging b c
  | SetName n l => setDebugLvl_name n l c
  | SetRef a l => setDebugLvl_ref a l c
  | SetAll l => setDebugLvl_all l c
  | AddName n d l => Ok (addAppointment_name n d l c)
  | AddRef a d l => addAppointment_ref a d l c
  | Kernel s' => for_each apply_appointment (newly_applied (mLoggerScheduler c) s') (with_scheduler s' c)
  end.

(** A constructor runs at a free address, the other operations on loggers that are alive. *)
Definition legal (o : op) (c : LoggerCore) : Prop :=
  match o with
  | Construct a _ _ => objects c !! a = None
  | Destroy a | SetRef a _ | AddRef a _ _ => is_Some (objects c !! a)
  | Kernel s' => kernel_step appDate (mLoggerScheduler c) s'
  | _ => True
  end.

Inductive reachable : LoggerCore → Prop :=
  | reach_start : reachable new_LoggerCore
  | reach_step c o c' : reachable c → legal o c → exec o c = Ok c' → reachable c'.

(** ** The specification: the names in use, with their loggers and levels *)

Record table := mkTable {
  t_on : bool;
  t_default : DebugLvl;
  t_level : gmap string (nat * DebugLvl);
  t_sched : @scheduler Appointment }.

Definition set_level (lvl : DebugLvl) (e : nat * DebugLvl) : nat * DebugLvl := (e.1, lvl).

Definition set_level_of (a : nat) (lvl : DebugLvl) (m : gmap string (nat * DebugLvl)) : gmap string (nat * DebugLvl) :=
  (fun e => if decide (e.1 = a) then set_level lvl e else e) <$> m.

Definition spec_step (o : op) (t : table) : table :=
  match t with
  | mkTable on lvl0 m s =>
    match o with
    | Construct a n _ =>
        if m !! n is Some _ then mkTable false lvl0 m s else mkTable on lvl0 (<[n := (a, lvl0)]> m) s
    | Destroy a => mkTable on lvl0 (filter (fun e => e.2.1 ≠ a) m) s
    | Enable b => mkTable b lvl0 m s
    | SetName n l => mkTable on lvl0 (alter (set_level l) n m) s
    | SetRef a l => mkTable on lvl0 (set_level_of a l m) s
    | SetAll l => mkTable on l (set_level l <$> m) s
    | AddName n d l =>
        if m !! n is Some e then mkTable on lvl0 m (logger_addAppointment appDate (mkAppointment e.1 d l) s) else t
    | AddRef a d l =>
        if decide (map_Exists (fun _ e => e.1 = a) m)
        then mkTable on lvl0 m (logger_addAppointment appDate (mkAppointment a d l) s) else t
    | Kernel s' => mkTable on lvl0 (foldl (fun m p => set_level_of (mLogger p) (appLvl p) m) m (newly_applied s s')) s'
    end
  end.

(** The table a logger core stands for. *)
Definition abstract_core (c : LoggerCore) : table :=
  mkTable (loggingEnabled c) (mGlobalDebugLvl c)
    (omap (fun a => (fun l => (a, mDebugLvl l)) <$> objects c !! a) (mLoggers c)) (mLoggerScheduler c).

(** The loggers registered are alive and under their own names; they are enabled exactly when
    logging is, and those that could not be registered never are. *)
Record core_inv (c : LoggerCore) : Prop := mkCoreInv {
  ci_alive : ∀ n a, mLoggers c !! n = Some a → ∃ l, objects c !! a = Some l ∧ mName l = n ∧ mEnabled l = loggingEnabled c;
  ci_other : ∀ a l, objects c !! a = Some l → mLoggers c !! mName l ≠ Some a → mEnabled l = false;
  ci_possible : mLoggingImpossible c = false }.

(** ** The loops *)

Lemma for_each_runs {A} (P : list A → LoggerCore → Prop) f (l : list A) c :
  P [] c → (∀ l1 a c, a ∈ l → P l1 c → ∃ c', f a c = Ok c' ∧ P (l1 ++ [a]) c') →
  ∃ c', for_each f l c = Ok c' ∧ P l c'.
Proof.
  intros H0 Hstep. assert (∀ l0, P l0 c → ∃ c', for_each f l c = Ok c' ∧ P (l0 ++ l) c') as Hl; [|by apply (Hl [])].
  clear H0. induction l as [|a l IH] in c, Hstep |- *; intros l0 H; simpl.
  - exists c. by rewrite app_nil_r.
  - destruct (Hstep l0 a c) as (c1 & -> & H1); [left|done|]. simpl.
    destruct (IH c1) with (l0 := l0 ++ [a]) as (c' & -> & H'); [|done|].
    + intros l1 b c2 Hb. apply Hstep. by right.
    + exists c'. by rewrite <- app_assoc in H'.
Qed.

Lemma elem_of_registry c p : p ∈ map_to_list (mLoggers c) ↔ mLoggers c !! p.1 = Some p.2.
Proof. destruct p. apply elem_of_map_to_list. Qed.

Lemma isRegistered_true a c : isRegistered a c = true ↔ ∃ n, mLoggers c !! n = Some a.
Proof.
  unfold isRegistered. rewrite existsb_exists. split.
  - intros (p & Hp & Ha). apply bool_decide_eq_true in Ha. subst a. exists p.1.
    apply elem_of_registry. by apply list_elem_of_In.
  - intros (n & Hn). exists (n, a). split; [|by apply bool_decide_eq_true].
    apply list_elem_of_In. by apply elem_of_registry.
Qed.

Definition upd (f : Logger → Logger) (a : nat) (c : LoggerCore) : LoggerCore :=
  with_objects (alter f a (objects c)) c.

Lemma assign_alive f a c l : objects c !! a = Some l → assign f a c = Ok (upd f a c).
Proof.
  intros H. unfold assign, deref, upd. rewrite H. simpl. do 2 f_equal.
  apply map_eq. intros b. rewrite lookup_insert, lookup_alter, H. by case_decide.
Qed.

(** ** Setting levels *)

Definition levels (c : LoggerCore) : gmap string (nat * DebugLvl) := t_level (abstract_core c).

Lemma lookup_levels c n :
  levels c !! n = (mLoggers c !! n) ≫= (fun a => (fun l => (a, mDebugLvl l)) <$> objects c !! a).
Proof. unfold levels. simpl. by rewrite lookup_omap. Qed.

Lemma levels_Some c n a k : levels c !! n = Some (a, k) ↔
  mLoggers c !! n = Some a ∧ ∃ l, objects c !! a = Some l ∧ mDebugLvl l = k.
Proof.
  rewrite lookup_levels. destruct (mLoggers c !! n) as [b|]; simpl; [|naive_solver].
  rewrite fmap_Some. naive_solver.
Qed.

Lemma levels_None c n : core_inv c → levels c !! n = None ↔ mLoggers c !! n = None.
Proof.
  intros H. rewrite lookup_levels. destruct (mLoggers c !! n) as [a|] eqn:E; simpl; [|done].
  destruct (ci_alive c H n a E) as (l & -> & _). naive_solver.
Qed.

(** The registered loggers have different addresses, and each is under its own name. *)
Lemma registered_name c a l : core_inv c → objects c !! a = Some l →
  isRegistered a c = bool_decide (mLoggers c !! mName l = Some a).
Proof.
  intros H Hl. apply eq_true_iff_eq. rewrite isRegistered_true, bool_decide_eq_true. split; [|by eauto].
  intros (n & Hn). destruct (ci_alive c H n a Hn) as (l' & Hl' & <- & _). congruence.
Qed.

Lemma registered_unique c n m a : core_inv c → mLoggers c !! n = Some a → mLoggers c !! m = Some a → n = m.
Proof.
  intros H Hn Hm. destruct (ci_alive c H n a Hn) as (l & Hl & <- & _).
  destruct (ci_alive c H m a Hm) as (l' & Hl' & <- & _). congruence.
Qed.

Lemma upd_levels lvl a c : levels (upd (with_debug lvl) a c) = set_level_of a lvl (levels c).
Proof.
  apply map_eq. intros n. unfold set_level_of. rewrite lookup_fmap, !lookup_levels. simpl.
  destruct (mLoggers c !! n) as [b|]; simpl; [|done]. rewrite lookup_alter.
  destruct (decide (a = b)) as [<-|Hne]; destruct (objects c !! _); simpl; try done.
  - by rewrite decide_True.
  - by rewrite decide_False.
Qed.

Lemma upd_inv lvl a c : core_inv c → core_inv (upd (with_debug lvl) a c).
Proof.
  intros [Ha Ho Hp]. split; [..|done]; simpl.
  - intros n b Hn. destruct (Ha n b Hn) as (l & Hl & Hname & He). rewrite lookup_alter.
    case_decide as Hab; [subst b|by eauto]. rewrite Hl. exists (with_debug lvl l). done.
  - intros b l. rewrite lookup_alter. case_decide as Hab; [subst b|apply Ho].
    destruct (objects c !! a) as [l0|] eqn:E; [|done]. intros [= <-] Hne. by apply (Ho a l0).
Qed.

Lemma set_level_of_other c a lvl : isRegistered a c = false → set_level_of a lvl (levels c) = levels c.
Proof.
  intros Hr. unfold set_level_of. rewrite <- (map_fmap_id (levels c)) at 2. apply map_fmap_ext.
  intros n [b k] Hn. apply levels_Some in Hn as [Hn _]. rewrite decide_False; [done|]. intros Hab. simpl in Hab. subst b.
  assert (isRegistered a c = true) by (apply isRegistered_true; eauto). congruence.
Qed.

(** What [setDebugLvl] does for a logger given by reference. *)
Lemma setDebugLvl_ref_runs a lvl c : core_inv c → ∃ c', setDebugLvl_ref a lvl c = Ok c' ∧ core_inv c'
  ∧ mLoggers c' = mLoggers c
  ∧ abstract_core c' = mkTable (loggingEnabled c) (mGlobalDebugLvl c) (set_level_of a lvl (levels c)) (mLoggerScheduler c).
Proof.
  intros H. unfold setDebugLvl_ref. destruct (isRegistered a c) eqn:Er.
  - apply isRegistered_true in Er as (n & Hn). destruct (ci_alive c H n a Hn) as (l & Hl & <- & _).
    unfold deref. rewrite Hl. simpl. unfold setDebugLvl_name. rewrite Hn, (assign_alive _ a c l Hl).
    exists (upd (with_debug lvl) a c). split_and!; [done|by apply upd_inv|done|].
    rewrite <- upd_levels. done.
  - exists c. split_and!; [done..|]. by rewrite set_level_of_other.
Qed.

Lemma setDebugLvl_name_runs n lvl c : core_inv c → ∃ c', setDebugLvl_name n lvl c = Ok c' ∧ core_inv c'
  ∧ abstract_core c' = spec_step (SetName n lvl) (abstract_core c).
Proof.
  intros H. unfold setDebugLvl_name. destruct (mLoggers c !! n) as [a|] eqn:E.
  - destruct (ci_alive c H n a E) as (l & Hl & Hname & _). rewrite (assign_alive _ a c l Hl).
    exists (upd (with_debug lvl) a c). split_and!; [done|by apply upd_inv|].
    change (abstract_core (upd (with_debug lvl) a c)) with
      (mkTable (loggingEnabled c) (mGlobalDebugLvl c) (levels (upd (with_debug lvl) a c)) (mLoggerScheduler c)).
    rewrite upd_levels. simpl. f_equal. apply map_eq. intros m. unfold set_level_of.
    change (omap _ _) with (levels c). rewrite lookup_fmap, lookup_alter.
    case_decide as Hnm; [rewrite Hnm|]; destruct (levels c !! m) as [[b k]|] eqn:Em; try done; simpl;
      apply levels_Some in Em as [Em _].
    + rewrite <- Hnm, E in Em. injection Em as ->. by rewrite decide_True.
    + rewrite decide_False; [done|]. intros ->. by apply Hnm, (registered_unique c n m a).
  - exists c. split_and!; [done..|]. simpl. unfold abstract_core. f_equal.
    change (omap _ _) with (levels c). symmetry. apply alter_id. intros x Hx. apply (levels_None c n H) in E. congruence.
Qed.

(** A loop of [setDebugLvl] sets the levels one after the other. *)
Lemma for_each_levels {A} (fa : A → nat) (fl : A → DebugLvl) l c : core_inv c →
  ∃ c', for_each (fun x => setDebugLvl_ref (fa x) (fl x)) l c = Ok c' ∧ core_inv c'
  ∧ abstract_core c' = mkTable (loggingEnabled c) (mGlobalDebugLvl c)
      (foldl (fun m x => set_level_of (fa x) (fl x) m) (levels c) l) (mLoggerScheduler c).
Proof.
  intros H. apply (for_each_runs (fun l1 c1 => core_inv c1 ∧ abstract_core c1 = mkTable (loggingEnabled c) (mGlobalDebugLvl c)
      (foldl (fun m x => set_level_of (fa x) (fl x) m) (levels c) l1) (mLoggerScheduler c))); [done|].
  intros l1 x c1 _ [H1 E1]. destruct (setDebugLvl_ref_runs (fa x) (fl x) c1 H1) as (c2 & E2 & H2 & _ & Ea).
  exists c2. split_and!; [done..|]. rewrite Ea, foldl_app. simpl. unfold levels at 1. rewrite E1.
  by injection E1 as -> -> _ ->.
Qed.

Lemma foldl_set_level lvl (l : list (string * nat)) m :
  foldl (fun m x => set_level_of x.2 lvl m) m l
  = (fun e => if decide (e.1 ∈ l.*2) then set_level lvl e else e) <$> m.
Proof.
  induction l as [|p l IH] in m |- *.
  - simpl. rewrite <- (map_fmap_id m) at 1. apply map_fmap_ext. done.
  - cbn [foldl]. rewrite IH. unfold set_level_of. rewrite <- map_fmap_compose. apply map_fmap_ext. intros n [a k] _.
    rewrite fmap_cons. unfold set_level. cbn. destruct (decide (a = p.2)) as [->|Hne]; simpl.
    + destruct (decide (p.2 ∈ p.2 :: l.*2)) as [_|Hn]; [by case_decide|by destruct Hn; left].
    + destruct (decide (a ∈ p.2 :: l.*2)) as [[->|Hin]%elem_of_cons|Hn]; [done|by rewrite decide_True|].
      rewrite decide_False; [done|]. intros ?. by destruct Hn; right.
Qed.

Lemma setDebugLvl_all_runs lvl c : core_inv c → ∃ c', setDebugLvl_all lvl c = Ok c' ∧ core_inv c'
  ∧ abstract_core c' = spec_step (SetAll lvl) (abstract_core c).
Proof.
  intros H. unfold setDebugLvl_all.
  assert (core_inv (with_global lvl c)) as H1 by (by destruct H).
  destruct (for_each_levels (fun p => p.2) (fun _ => lvl) (map_to_list (mLoggers (with_global lvl c))) _ H1)
    as (c' & -> & Hinv & Ha). exists c'. split_and!; [done..|]. rewrite Ha. simpl. f_equal.
  change (levels (with_global lvl c)) with (levels c). rewrite foldl_set_level. change (omap _ _) with (levels c).
  apply map_fmap_ext. intros n [a k] Hn. apply levels_Some in Hn as [Hn _]. rewrite decide_True; [done|].
  apply list_elem_of_fmap. exists (n, a). split; [done|]. by apply elem_of_map_to_list.
Qed.

(** ** Switching logging on and off *)

Lemma enableLogging_runs b c :
  (∀ n a, mLoggers c !! n = Some a → ∃ l, objects c !! a = Some l ∧ mName l = n) →
  (∀ a l, objects c !! a = Some l → mLoggers c !! mName l ≠ Some a → mEnabled l = false) →
  mLoggingImpossible c = false →
  ∃ c', enableLogging b c = Ok c' ∧ core_inv c' ∧ abstract_core c' = spec_step (Enable b) (abstract_core c).
Proof.
  intros Halive Hother Hp. unfold enableLogging. rewrite Hp, andb_false_r.
  set (c1 := with_logging b c).
  destruct (for_each_runs (fun (l : list (string * nat)) c2 => ∃ o, c2 = with_objects o c1
      ∧ ∀ a, o !! a = if decide (a ∈ l.*2) then with_enabled b <$> objects c !! a else objects c !! a)
    (fun p c => assign (with_enabled (loggingEnabled c)) p.2 c) (map_to_list (mLoggers c1)) c1)
    as (c' & -> & o & -> & Ho).
  - exists (objects c). by split; [destruct c|].
  - intros l [n a] c2 Hin (o & -> & Ho). apply elem_of_map_to_list in Hin.
    destruct (Halive n a Hin) as (lg & Hl & _).
    assert (∃ lg', o !! a = Some lg' ∧ with_enabled b lg' = with_enabled b lg) as (lg' & Hl' & Hb).
    { rewrite Ho, Hl. case_decide; simpl; eauto. }
    rewrite (assign_alive _ a _ lg') by done. eexists. split; [done|].
    exists (alter (with_enabled b) a o). split.
    { unfold upd, loggingEnabled. simpl. by rewrite Hp, andb_true_r. }
    intros a'. rewrite fmap_app, lookup_alter. simpl. destruct (decide (a = a')) as [<-|Hne].
    + rewrite decide_True by (apply elem_of_app; right; by apply list_elem_of_singleton). rewrite Hl', Hl. simpl. by rewrite Hb.
    + rewrite Ho. destruct (decide (a' ∈ l.*2)); [by rewrite decide_True by (apply elem_of_app; by left)|].
      rewrite decide_False; [done|]. by rewrite elem_of_app, list_elem_of_singleton; intros [?| ->].
  - assert (∀ a, a ∈ (map_to_list (mLoggers c)).*2 ↔ ∃ n, mLoggers c !! n = Some a) as Hreg.
    { intros a. rewrite list_elem_of_fmap. split.
      - intros ([n a'] & -> & Hin%elem_of_map_to_list). eauto.
      - intros (n & Hn). exists (n, a). split; [done|by apply elem_of_map_to_list]. }
    change (mLoggers c1) with (mLoggers c) in Ho.
    exists (with_objects o c1). split; [done|]. split; [split; [..|done]|]; simpl.
    + intros n a Hn. rewrite Ho, decide_True by (apply Hreg; eauto). destruct (Halive n a Hn) as (l & -> & Hname).
      exists (with_enabled b l). split_and!; [done..|]. unfold loggingEnabled. simpl. by rewrite Hp, andb_true_r.
    + intros a l. rewrite Ho. case_decide as Hd; [|apply Hother].
      intros (l0 & Hl0 & ->)%fmap_Some Hne. apply Hreg in Hd as (n & Hn).
      destruct (Halive n a Hn) as (l1 & Hl1 & <-). simplify_eq.
    + unfold abstract_core, loggingEnabled. simpl. rewrite Hp, andb_true_r. f_equal.
      apply map_eq. intros n. rewrite !lookup_omap. destruct (mLoggers c !! n) as [a|]; simpl; [|done].
      rewrite Ho. case_decide; [|done]. by destruct (objects c !! a).
Qed.

(** ** Loggers come and go *)

Lemma construct_runs a n s c : core_inv c → objects c !! a = None →
  ∃ c', construct a n s c = Ok c' ∧ core_inv c' ∧ abstract_core c' = spec_step (Construct a n s) (abstract_core c).
Proof.
  intros H Hfree. unfold construct, registerLogger. set (l0 := mkLogger _ _ _ _ _). set (c1 := with_objects _ c).
  assert (∀ m b, mLoggers c !! m = Some b → b ≠ a) as Hne.
  { intros m b Hm ->. destruct (ci_alive c H m a Hm) as (l & Hl & _). congruence. }
  assert (abstract_core c1 = abstract_core c) as Eabs.
  { unfold abstract_core. f_equal. apply map_eq. intros m. rewrite !lookup_omap. simpl.
    destruct (mLoggers c !! m) as [b|] eqn:E; [|done]. simpl. by rewrite lookup_insert_ne by (by apply not_eq_sym, (Hne m)). }
  unfold deref. simpl. rewrite lookup_insert_eq. simpl. destruct (mLoggers c !! n) as [b|] eqn:En.
  - destruct (enableLogging_runs false c1) as (c' & -> & Hinv & Ha).
    + intros m b' Hm. simpl. rewrite lookup_insert_ne by (by apply not_eq_sym, (Hne m)).
      destruct (ci_alive c H m b' Hm) as (l & Hl & Hname & _). eauto.
    + intros a' l. simpl. rewrite lookup_insert. case_decide; [by intros [= <-]|apply H].
    + apply H.
    + exists c'. split_and!; [done..|]. rewrite Ha, Eabs. simpl. change (omap _ _) with (levels c).
      destruct (levels c !! n) eqn:E; [done|]. apply (levels_None c n H) in E. congruence.
  - assert (levels c !! n = None) as El by (by apply (levels_None c n H)).
    erewrite assign_alive by (simpl; apply lookup_insert_eq). cbn [result_bind].
    erewrite assign_alive by (simpl; rewrite lookup_alter_eq, lookup_insert_eq; reflexivity).
    eexists. split; [done|]. unfold upd, c1. simpl. rewrite !alter_insert_eq. split; [split; [..|apply H]|]; simpl.
    + intros m b. rewrite lookup_insert. case_decide as Hm; intros E.
      * injection E as <-. subst m. rewrite lookup_insert_eq. eexists. by split_and!.
      * rewrite lookup_insert_ne by (by apply not_eq_sym, (Hne m)). by apply H.
    + intros a' l. rewrite lookup_insert. case_decide as Ha.
      * intros [= <-] Hx. destruct Hx. simpl. rewrite lookup_insert_eq. by rewrite Ha.
      * intros Hl Hx. apply (ci_other c H a' l Hl). intros E. destruct Hx. rewrite lookup_insert_ne; [done|].
        intros Heq. rewrite <- Heq in E. congruence.
    + unfold abstract_core at 1. simpl. change (omap _ (mLoggers c)) with (levels c) at 1. rewrite El.
      unfold loggingEnabled. simpl. f_equal. apply map_eq. intros m. rewrite lookup_omap, !lookup_insert.
      case_decide as Hm; simpl; [by rewrite lookup_insert_eq|]. rewrite lookup_omap.
      destruct (mLoggers c !! m) as [b|] eqn:E; [|done]. simpl. by rewrite lookup_insert_ne by (by apply not_eq_sym, (Hne m)).
Qed.

Lemma destroy_runs a c : core_inv c → is_Some (objects c !! a) →
  ∃ c', destroy a c = Ok c' ∧ core_inv c' ∧ abstract_core c' = spec_step (Destroy a) (abstract_core c).
Proof.
  intros H (l & Hl). unfold destroy, unregisterLogger. rewrite (registered_name c a l H Hl).
  assert (∃ m, (if bool_decide (mLoggers c !! mName l = Some a)
    then let* l := deref a c in Ok (with_loggers (delete (mName l) (mLoggers c)) c) else Ok c) = Ok (with_loggers m c)
    ∧ ∀ n b, m !! n = Some b ↔ mLoggers c !! n = Some b ∧ b ≠ a) as (m & -> & Hm).
  { case_bool_decide as Hr.
    - unfold deref. rewrite Hl. simpl. eexists. split; [done|]. intros n b. rewrite lookup_delete_Some.
      split; [intros [Hne Hn]; split; [done|]; intros ->; by apply Hne, (registered_unique c _ n a)|].
      intros [Hn Hne]. split; [|done]. intros <-. congruence.
    - exists (mLoggers c). split; [by destruct c|]. intros n b. split; [|naive_solver].
      intros Hn. split; [done|]. intros ->. destruct (ci_alive c H n a Hn) as (l' & Hl' & <- & _). congruence. }
  simpl. eexists. split; [done|]. split; [split; [..|apply H]|]; simpl.
  - intros n b [Hn Hne]%Hm. rewrite lookup_delete_ne by done. by apply H.
  - intros b l' [Hne Hl']%lookup_delete_Some Hx. apply (ci_other c H b l' Hl'). intros E. apply Hx, Hm. done.
  - unfold abstract_core. simpl. f_equal. apply map_eq. intros n. apply option_eq. intros [b k].
    rewrite map_lookup_filter_Some, !lookup_omap. simpl. specialize (Hm n b).
    destruct (m !! n) as [b'|] eqn:E; destruct (mLoggers c !! n) as [b''|] eqn:E'; simpl.
    all: rewrite ?fmap_Some; naive_solver (rewrite ?lookup_delete_Some in *; naive_solver).
Qed.

Lemma registered_levels c a : core_inv c →
  isRegistered a c = bool_decide (map_Exists (fun _ e => e.1 = a) (levels c)).
Proof.
  intros H. apply eq_true_iff_eq. rewrite isRegistered_true, bool_decide_eq_true. split.
  - intros (n & Hn). destruct (ci_alive c H n a Hn) as (l & Hl & _). exists n, (a, mDebugLvl l).
    split; [|done]. apply levels_Some. eauto.
  - intros (n & [b k] & Hn & <-). apply levels_Some in Hn as [Hn _]. eauto.
Qed.

Lemma addAppointment_name_runs n d l c : core_inv c → core_inv (addAppointment_name n d l c)
  ∧ abstract_core (addAppointment_name n d l c) = spec_step (AddName n d l) (abstract_core c).
Proof.
  intros H. unfold addAppointment_name. simpl. change (omap _ _) with (levels c).
  destruct (mLoggers c !! n) as [a|] eqn:E.
  - split; [by destruct H|]. destruct (ci_alive c H n a E) as (lg & Hl & _).
    assert (levels c !! n = Some (a, mDebugLvl lg)) as -> by (apply levels_Some; eauto). done.
  - split; [done|]. by rewrite (proj2 (levels_None c n H) E).
Qed.

(** ** The refinement *)

Lemma exec_refines o c : core_inv c → legal o c →
  ∃ c', exec o c = Ok c' ∧ core_inv c' ∧ abstract_core c' = spec_step o (abstract_core c).
Proof.
  intros H Hlegal. destruct o as [a n s|a|b|n l|a l|l|n d l|a d l|s']; simpl in Hlegal; unfold exec.
  - by apply construct_runs.
  - by apply destroy_runs.
  - apply enableLogging_runs; [|apply H..]. intros n a Hn. destruct (ci_alive c H n a Hn) as (l & Hl & Hname & _). eauto.
  - by apply setDebugLvl_name_runs.
  - destruct (setDebugLvl_ref_runs a l c H) as (c' & -> & Hinv & _ & Ha). eauto.
  - by apply setDebugLvl_all_runs.
  - eexists. split; [done|]. by apply addAppointment_name_runs.
  - unfold addAppointment_ref. rewrite (registered_levels c a H). simpl. change (omap _ _) with (levels c).
    case_bool_decide as Hr; [rewrite decide_True by done|rewrite decide_False by done; by exists c].
    destruct Hlegal as (lg & Hl). unfold deref. rewrite Hl. simpl. eexists. split; [done|].
    destruct (addAppointment_name_runs (mName lg) d l c H) as [Hinv ->]. split; [done|]. simpl.
    change (omap _ _) with (levels c). destruct Hr as (n & [b k] & Hn & Hb). simpl in Hb. subst b.
    pose proof Hn as Hn'. apply levels_Some in Hn as [Hn _]. destruct (ci_alive c H n a Hn) as (lg' & Hl' & <- & _).
    rewrite Hl in Hl'. injection Hl' as <-. by rewrite Hn'.
  - assert (core_inv (with_scheduler s' c)) as H1 by (by destruct H).
    destruct (for_each_levels mLogger appLvl (newly_applied (mLoggerScheduler c) s') _ H1) as (c' & E & Hinv & Ha).
    exists c'. split_and!; [exact E|done|exact Ha].
Qed.

Lemma reachable_inv c : reachable c → core_inv c.
Proof.
  induction 1 as [|c o c' _ IH Hlegal E].
  - by split; simpl.
  - destruct (exec_refines o c IH Hlegal) as (c1 & E1 & H1 & _). congruence.
Qed.

(** C20: the logging system implements its table.  In every state the program can reach, every
    operation on live loggers succeeds (no logger that is gone is used, appointments with
    destroyed loggers included), and has on the table of names, loggers and levels the effect
    the specification gives: a new name is entered with the global level, a name in use
    switches logging off instead, a level is set under a name, for a logger or for all. *)
Theorem logger_refines o c : reachable c → legal o c →
  ∃ c', exec o c = Ok c' ∧ reachable c' ∧ abstract_core c' = spec_step o (abstract_core c).
Proof.
  intros Hr Hlegal. destruct (exec_refines o c (reachable_inv c Hr) Hlegal) as (c' & E & _ & Ha).
  exists c'. split_and!; [done|by eapply reach_step|done].
Qed.

(** a debug message of a live logger is written exactly when logging is on, the logger is
    the one registered under its name, and the message's level is not above the level the
    table has for it; otherwise nothing is written.  The stream is usable afterwards. *)
Theorem debug_message lvl a text c l : reachable c → objects c !! a = Some l →
  ∃ c', LOG_DEBUG lvl a text c = Ok c' ∧ abstract_core c' = abstract_core c
  ∧ ((t_on (abstract_core c) = true ∧ ∃ k, t_level (abstract_core c) !! mName l = Some (a, k) ∧ lvl_value lvl ≤ lvl_value k)
       ∧ written c' = written c ++ [(mOfstream l, "[Debug" ++ lvl_digit lvl ++ "] " ++ text)%string]
       ∧ mOfstream l ∉ failed c'
     ∨ ~ (t_on (abstract_core c) = true ∧ ∃ k, t_level (abstract_core c) !! mName l = Some (a, k) ∧ lvl_value lvl ≤ lvl_value k)
       ∧ c' = c).
Proof.
  intros Hr Hl. pose proof (reachable_inv c Hr) as H.
  assert (canLogDebug lvl l = true ↔ t_on (abstract_core c) = true
    ∧ ∃ k, t_level (abstract_core c) !! mName l = Some (a, k) ∧ lvl_value lvl ≤ lvl_value k) as Hcan.
  { unfold canLogDebug. rewrite andb_true_iff, bool_decide_eq_true. change (t_level (abstract_core c)) with (levels c). simpl.
    destruct (decide (mLoggers c !! mName l = Some a)) as [Hreg|Hreg].
    - destruct (ci_alive c H _ _ Hreg) as (l' & Hl' & _ & He). rewrite Hl in Hl'. injection Hl' as <-. rewrite He.
      split; [intros [? ?]; split; [done|]; exists (mDebugLvl l); split; [|done]; apply levels_Some; eauto|].
      intros (? & k & Hk & ?). split; [done|]. apply levels_Some in Hk as (_ & l' & Hl' & <-). congruence.
    - rewrite (ci_other c H a l Hl Hreg). split; [by intros [? _]|]. intros (_ & k & Hk & _).
      by apply levels_Some in Hk as [Hk _]. }
  unfold LOG_DEBUG, deref. rewrite Hl. simpl. eexists. split; [done|].
  destruct (canLogDebug lvl l) eqn:Ec.
  - unfold logStream, write_stream. simpl. rewrite bool_decide_false by set_solver.
    split; [done|]. left. split; [by apply Hcan|]. simpl. split; [done|set_solver].
  - split; [done|]. right. split; [|done]. intros Hx. apply Hcan in Hx. done.
Qed.

(** ** Concrete runs *)

Definition exec_all (l : list op) (c : LoggerCore) : result LoggerCore := for_each exec l c.

(** After [enableLogging] of [loggerCore_test.cpp], and a second logger with a name in use. *)
Definition test_core : LoggerCore :=
  match exec_all [Construct 0 "logger1" 0; Enable false; Construct 1 "logger2" 0; Enable true] new_LoggerCore with
  | Ok c => c | Err _ => new_LoggerCore end.

Example enableLogging_test :
  (fun c => (canLogInfo <$> objects c !! 0%nat, canLogInfo <$> objects c !! 2%nat)) <$>
    (match exec (Construct 2 "logger3" 0) test_core with Ok c => Some c | Err _ => None end)
  = Some (Some true, Some true).
Proof. by vm_compute. Qed.

Fixpoint legal_all (l : list op) (c : LoggerCore) : Prop :=
  match l with
  | [] => True
  | o :: l' => legal o c ∧ match exec o c with Ok c1 => legal_all l' c1 | Err _ => False end
  end.

Lemma exec_all_reachable l c : reachable c → legal_all l c → ∃ c', exec_all l c = Ok c' ∧ reachable c'.
Proof.
  induction l as [|o l IH] in c |- *; intros Hr Hl; simpl in *; [by exists c|].
  destruct Hl as [Ho Hl]. destruct (exec o c) as [c1|] eqn:E; [|done].
  unfold exec_all. simpl. rewrite E. simpl. apply IH; [by eapply reach_step|done].
Qed.

Lemma test_core_reachable : reachable test_core.
Proof.
  unfold test_core. set (l := [_; _; _; _]).
  destruct (exec_all_reachable l new_LoggerCore) as (c & -> & Hc); [constructor| |done].
  vm_compute. done.
Qed.

(** A logger whose name is in use switches logging off. *)
Lemma logger_refines_witness : ∃ c', exec (Construct 2 "logger1" 0) test_core = Ok c'
  ∧ t_on (abstract_core test_core) = true ∧ t_on (abstract_core c') = false.
Proof.
  destruct (logger_refines (Construct 2 "logger1" 0) test_core) as (c' & E & _ & Ha).
  - apply test_core_reachable.
  - by vm_compute.
  - exists c'. split_and!; [done|by vm_compute|]. by rewrite Ha.
Defined.

Lemma debug_message_witness : ∃ c', LOG_DEBUG dbg1 1 "late" test_core = Ok c' ∧ written c' = [].
Proof.
  destruct (debug_message dbg1 1 "late" test_core (mkLogger "logger2" "logger2.log" dbg0 0 true))
    as (c' & E & _ & [[Hx _]|[_ ->]]).
  - apply test_core_reachable.
  - by vm_compute.
  - destruct Hx as (_ & k & Hk & Hle). vm_compute in Hk. injection Hk as <-. simpl in Hle. lia.
  - eexists. split; [exact E|by vm_compute].
Defined.
