(* ===== verification/Tlm.v ===== *)
(** * The part of TLM-2.0 that the models exchange

    Commands and response statuses of [tlm_generic_payload] (IEEE 1666 SystemC,
    [tlm_gp.h]); they are the vocabulary of every transaction in the program. *)

From S2P Require Import Prelude.

Inductive tlm_command := TLM_READ_COMMAND | TLM_WRITE_COMMAND | TLM_IGNORE_COMMAND.

Inductive tlm_response_status :=
  | TLM_OK_RESPONSE
  | TLM_INCOMPLETE_RESPONSE
  | TLM_GENERIC_ERROR_RESPONSE
  | TLM_ADDRESS_ERROR_RESPONSE
  | TLM_COMMAND_ERROR_RESPONSE
  | TLM_BURST_ERROR_RESPONSE
  | TLM_BYTE_ENABLE_ERROR_RESPONSE.

#[global] Instance tlm_command_eq_dec : EqDecision tlm_command.
Proof. solve_decision. Defined.
#[global] Instance tlm_response_status_eq_dec : EqDecision tlm_response_status.
Proof. solve_decision. Defined.

(** [idx_t] and [NULL_IDX] ([CoherenceExtension.hpp]). *)
Definition NULL_IDX : Z := 4294967295.

(** [CoherenceCommand] ([CoherenceExtension.hpp]). *)
Inductive CoherenceCommand :=
  | GetS | GetM | FwdGetS | FwdGetM | PutS | PutM | PutI
  | Read | Write | Evict | Invalidate | InvS | InvM | ReadBack.

#[global] Instance CoherenceCommand_eq_dec : EqDecision CoherenceCommand.
Proof. solve_decision. Defined.
