(* ===== verification/CacheSet.v ===== *)
(** * Cache lines and cache sets
    ([components/memory/include/memory/CacheLine.hpp], [CacheSet.hpp])

    A cache set is an array of lines with the data of the replacement policy.  The
    file models the lookup, the three replacement policies and their shared update
    of [NextVictim], and proves that the LRU ages implement a recency list. *)

From S2P Require Import Prelude.

(** ** Cache lines *)

Inductive CoherenceState := Modified | Shared | Invalid.

#[global] Instance CoherenceState_eq_dec : EqDecision CoherenceState.
Proof. solve_decision. Defined.

(** [Tag] is an [unsigned] (32 bits), [Address] a 64-bit address; the data pointer
    of every line is [NULL] and is not represented; [handle] is an opaque pointer. *)
Record CacheLine := mkCacheLine {
  Address : Z;
  LineSize : Z;
  Tag : Z;
  State : CoherenceState;
  handle : Z
}.

#[global] Instance CacheLine_eq_dec : EqDecision CacheLine.
Proof. solve_decision. Defined.

Definition newCacheLine (lineSize : Z) : CacheLine := mkCacheLine 0 lineSize 0 Invalid 0.

Definition setState (state : CoherenceState) (l : CacheLine) : CacheLine :=
  mkCacheLine (Address l) (LineSize l) (Tag l) state (handle l).

Definition setNewLine (address tag : Z) (l : CacheLine) : CacheLine :=
  mkCacheLine address (LineSize l) (u32 tag) Invalid (handle l).

Definition setHandle (h : Z) (l : CacheLine) : CacheLine :=
  mkCacheLine (Address l) (LineSize l) (Tag l) (State l) h.

(** ** Cache sets *)

Inductive CacheReplacementPolicy := FIFO | LRU | MRU.

#[global] Instance CacheReplacementPolicy_eq_dec : EqDecision CacheReplacementPolicy.
Proof. solve_decision. Defined.

Record LineWrapper := mkLineWrapper { line : CacheLine; repl_data : Z }.

Record CacheSet := mkCacheSet {
  Associativity : Z;
  Policy : CacheReplacementPolicy;
  Lines : list LineWrapper;
  NextVictim : Z;
  CountUntilRepl : Z
}.

Definition setLines (ls : list LineWrapper) (s : CacheSet) : CacheSet :=
  mkCacheSet (Associativity s) (Policy s) ls (NextVictim s) (CountUntilRepl s).
Definition setNextVictim (v : Z) (s : CacheSet) : CacheSet :=
  mkCacheSet (Associativity s) (Policy s) (Lines s) v (CountUntilRepl s).
Definition setCountUntilRepl (c : Z) (s : CacheSet) : CacheSet :=
  mkCacheSet (Associativity s) (Policy s) (Lines s) (NextVictim s) c.

(** [Lines[i]] and assignments to a field of it. *)
Definition lines_at (i : Z) : M CacheSet LineWrapper :=
  s <- m_get ;; m_lift (vec_get (Lines s) i).
Definition lines_put (i : Z) (w : LineWrapper) : M CacheSet unit :=
  s <- m_get ;; ls <- m_lift (vec_set (Lines s) i w) ;; m_modify (setLines ls).
Definition set_repl_data (i r : Z) : M CacheSet unit :=
  w <- lines_at i ;; lines_put i (mkLineWrapper (line w) r).

(** [initSet]: the array has [lineSize] entries and [Associativity] of them are
    written; the entries after them are never read. *)
Definition initial_repl_data (pol : CacheReplacementPolicy) (assoc i : Z) : Z :=
  match pol with
  | LRU | MRU => u32 (assoc - i - 1)
  | FIFO => 0
  end.

Definition initSet (lineSize : Z) (s : CacheSet) : result CacheSet :=
  if bool_decide (Associativity s ≤ lineSize) then
    Ok (setLines ((fun i => mkLineWrapper (newCacheLine lineSize)
                              (initial_repl_data (Policy s) (Associativity s) i))
                  <$> seqZ 0 (Associativity s)) s)
  else Err (UndefinedBehaviour "write past the end of Lines").

(** The constructor; [Associativity] is narrowed to 32 bits. *)
Definition newCacheSet (lineSize assoc : Z) (pol : CacheReplacementPolicy) : result CacheSet :=
  initSet (u32 lineSize) (mkCacheSet (u32 assoc) pol [] 0 0).

Definition updateReplacementData (line_id : Z) : M CacheSet unit :=
  s <- m_get ;;
  let assoc := Associativity s in
  match Policy s with
  | LRU =>
      m_forM (seqZ 0 assoc) (fun i =>
        wi <- lines_at i ;;
        wl <- lines_at line_id ;;
        m_when (bool_decide (repl_data wi < repl_data wl))
          (set_repl_data i (u32 (repl_data wi + 1))) ;;;
        wi <- lines_at i ;;
        m_when (bool_decide (repl_data wi = u32 (assoc - 1))) (m_modify (setNextVictim i))) ;;;
      set_repl_data line_id 0
  | MRU =>
      m_assert (bool_decide (CountUntilRepl s < assoc)) ;;;
      m_forM (seqZ 0 assoc) (fun i =>
        wi <- lines_at i ;;
        wl <- lines_at line_id ;;
        m_when (bool_decide (repl_data wl < repl_data wi))
          (set_repl_data i (u32 (repl_data wi - 1))) ;;;
        wi <- lines_at i ;;
        m_when (bool_decide (repl_data wi = u32 (assoc - 1)) &&
                bool_decide (u32 (assoc - 1) ≤ CountUntilRepl s))
          (m_modify (setNextVictim i))) ;;;
      m_when (bool_decide (CountUntilRepl s < u32 (assoc - 1)))
        (nv <- m_gets NextVictim ;;
         m_modify (setNextVictim (nv + 1)) ;;;
         m_modify (setCountUntilRepl (CountUntilRepl s + 1))) ;;;
      set_repl_data line_id (u32 (assoc - 1))
  | FIFO =>
      if bool_decide (assoc = 0) then m_throw (UndefinedBehaviour "division by zero")
      else nv <- m_gets NextVictim ;; m_modify (setNextVictim ((nv + 1) mod assoc))
  end.

(** The first valid line with this tag, or [-1]. *)
Fixpoint locate_from (ls : list LineWrapper) (i tag : Z) : Z :=
  match ls with
  | [] => -1
  | w :: ls =>
      if bool_decide (Tag (line w) = tag) && negb (bool_decide (State (line w) = Invalid))
      then i else locate_from ls (i + 1) tag
  end.

Definition locateLineInSet (tag : Z) (s : CacheSet) : Z := locate_from (Lines s) 0 tag.

(** [accessSet]: whether the tag hits, and the way [linePtrAddr] is made to point
    to ([None]: the pointer is left unset). *)
Definition accessSet (line_tag : Z) : M CacheSet (bool * option Z) :=
  s <- m_get ;;
  let lineIndex := locateLineInSet line_tag s in
  let lineInCache := bool_decide (-1 < lineIndex) && bool_decide (lineIndex < Associativity s) in
  match Policy s with
  | LRU | MRU =>
      if lineInCache then
        updateReplacementData lineIndex ;;; m_ret (true, Some lineIndex)
      else
        updateReplacementData (NextVictim s) ;;; m_ret (false, Some (NextVictim s))
  | FIFO => m_ret (lineInCache, None)
  end.

(** [incrementCountUntilRepl]. *)
Definition incrementCountUntilRepl (s : CacheSet) : CacheSet :=
  if bool_decide (CountUntilRepl s < Associativity s) &&
     existsb (fun w => bool_decide (Tag (line w) = 0)) (Lines s)
  then setCountUntilRepl (CountUntilRepl s + 1) s else s.

(** [electNextVictim]. *)
Definition electNextVictim : M CacheSet unit :=
  s <- m_get ;;
  let assoc := Associativity s in
  let elect := m_forM (seqZ 0 assoc) (fun i =>
        wi <- lines_at i ;;
        m_when (bool_decide (repl_data wi = u32 (assoc - 1))) (m_modify (setNextVictim i))) in
  match Policy s with
  | LRU => elect
  | MRU =>
      m_assert (bool_decide (CountUntilRepl s < assoc)) ;;;
      if bool_decide (CountUntilRepl s < u32 (assoc - 1)) then
        m_modify (setNextVictim (NextVictim s + 1)) ;;;
        m_modify (setCountUntilRepl (CountUntilRepl s + 1))
      else elect
  | FIFO =>
      if bool_decide (assoc = 0) then m_throw (UndefinedBehaviour "division by zero")
      else m_modify (setNextVictim ((NextVictim s + 1) mod assoc))
  end.

(** ** Specification vocabulary *)

(** The addresses, tags and states of a set, without the replacement data. *)
Definition contents (s : CacheSet) : list CacheLine := line <$> Lines s.
Definition ages (s : CacheSet) : list Z := repl_data <$> Lines s.

(** The order of the ways that the ages encode: the age of a way is its position.
    Under LRU the most recently used way is first, under MRU it is last. *)
Definition age_rep (rec : list Z) (s : CacheSet) : Prop :=
  rec ≡ₚ seqZ 0 (Associativity s) ∧
  ∀ pos i, rec !! pos = Some i → ages s !! Z.to_nat i = Some (Z.of_nat pos).

Definition touch (i : Z) (rec : list Z) : list Z := i :: filter (fun j => j ≠ i) rec.
Definition touch_last (i : Z) (rec : list Z) : list Z := filter (fun j => j ≠ i) rec ++ [i].

(** What every operation on a set preserves, for the two policies with ages. *)
Record set_wf (s : CacheSet) : Prop := {
  wf_policy : Policy s ≠ FIFO;
  wf_assoc : 0 < Associativity s < 2 ^ 32;
  wf_length : length (Lines s) = Z.to_nat (Associativity s);
  wf_ages : ∃ rec, age_rep rec s;
  wf_victim : 0 ≤ NextVictim s < Associativity s;
  wf_count : Policy s = MRU →
    0 ≤ CountUntilRepl s < Associativity s ∧
    (CountUntilRepl s < Associativity s - 1 → NextVictim s = CountUntilRepl s)
}.

(** [v'] is the last index of [0..n) satisfying [P], or [v] if there is none. *)
Definition last_index (P : Z → Prop) (n v v' : Z) : Prop :=
  (0 ≤ v' < n ∧ P v' ∧ ∀ j, v' < j < n → ¬ P j) ∨ (v' = v ∧ ∀ j, 0 ≤ j < n → ¬ P j).

(** ** The loops over the lines *)

Definition map_repl (f : Z → Z) (w : LineWrapper) : LineWrapper :=
  mkLineWrapper (line w) (f (repl_data w)).

Definition partial (f : Z → Z) (k : Z) (ls : list LineWrapper) : list LineWrapper :=
  (map_repl f <$> take (Z.to_nat k) ls) ++ drop (Z.to_nat k) ls.

Section loop.
Context (f : Z → Z) (ls : list LineWrapper).

Lemma partial_0 : partial f 0 ls = ls.
Proof. done. Qed.

Lemma partial_all k : (length ls ≤ Z.to_nat k)%nat → partial f k ls = map_repl f <$> ls.
Proof.
  intros Hk. unfold partial. rewrite take_ge by done. rewrite drop_ge by done. by rewrite app_nil_r.
Qed.

Lemma partial_length k : length (partial f k ls) = length ls.
Proof. unfold partial. rewrite length_app, length_fmap, length_take, length_drop. lia. Qed.

Lemma partial_lookup_ge k j : 0 ≤ k ≤ j →
  partial f k ls !! Z.to_nat j = ls !! Z.to_nat j.
Proof.
  intros Hk. unfold partial. destruct (decide (length ls ≤ Z.to_nat k)%nat).
  - rewrite take_ge, drop_ge, app_nil_r by done. rewrite !lookup_ge_None_2; [done|lia|].
    rewrite length_fmap. lia.
  - rewrite lookup_app_r by (rewrite length_fmap, length_take; lia).
    rewrite length_fmap, length_take, lookup_drop. f_equal. lia.
Qed.

Lemma partial_lookup_lt k j : 0 ≤ j < k →
  partial f k ls !! Z.to_nat j = map_repl f <$> (ls !! Z.to_nat j).
Proof.
  intros Hk. unfold partial. destruct (decide (length ls ≤ Z.to_nat j)%nat).
  - rewrite !lookup_ge_None_2; [done|lia|].
    rewrite length_app, length_fmap, length_take, length_drop. lia.
  - rewrite lookup_app_l by (rewrite length_fmap, length_take; lia).
    rewrite list_lookup_fmap, lookup_take_lt by lia. done.
Qed.

Lemma partial_step k w : 0 ≤ k → ls !! Z.to_nat k = Some w →
  <[Z.to_nat k := map_repl f w]> (partial f k ls) = partial f (k + 1) ls.
Proof.
  intros Hk Hw. pose proof (lookup_lt_Some _ _ _ Hw) as Hlt.
  unfold partial. replace (Z.to_nat (k + 1)) with (S (Z.to_nat k)) by lia.
  rewrite (take_S_r _ _ _ Hw), fmap_app.
  rewrite insert_app_r_alt by (rewrite length_fmap, length_take; lia).
  rewrite length_fmap, length_take.
  replace (Z.to_nat k - Z.to_nat k `min` length ls)%nat with 0%nat by lia.
  rewrite (drop_S ls w (Z.to_nat k) Hw), <- app_assoc. done.
Qed.

Lemma partial_step_id k w : 0 ≤ k → ls !! Z.to_nat k = Some w → f (repl_data w) = repl_data w →
  partial f (k + 1) ls = partial f k ls.
Proof.
  intros Hk Hw Hf. rewrite <- (partial_step k w) by done. apply list_insert_id.
  rewrite partial_lookup_ge by lia. rewrite Hw. unfold map_repl. rewrite Hf. by destruct w.
Qed.
End loop.

Lemma last_index_step (P : Z → Prop) k v v' : 0 ≤ k → last_index P k v v' →
  (P k → last_index P (k + 1) v k) ∧ (¬ P k → last_index P (k + 1) v v').
Proof.
  intros Hk Hl. split; intros HP.
  - left. split; [lia|]. split; [done|]. intros j Hj. lia.
  - destruct Hl as [(Hv & HPv & Hl)|[-> Hl]]; [left|right].
    + split; [lia|]. split; [done|]. intros j Hj. destruct (decide (j = k)); [congruence|].
      apply Hl. lia.
    + split; [done|]. intros j Hj. destruct (decide (j = k)); [congruence|]. apply Hl. lia.
Qed.

Lemma runs_lines_at s i w (Q : LineWrapper → CacheSet → Prop) :
  0 ≤ i → Lines s !! Z.to_nat i = Some w → Q w s → runs (lines_at i) s Q.
Proof.
  intros Hi Hw HQ. unfold lines_at. apply runs_bind, runs_get, (runs_lift_Ok _ w); [|done].
  by apply vec_get_Some.
Qed.

Lemma runs_set_repl_data s i w r (Q : unit → CacheSet → Prop) :
  0 ≤ i → Lines s !! Z.to_nat i = Some w →
  Q tt (setLines (<[Z.to_nat i := mkLineWrapper (line w) r]> (Lines s)) s) →
  runs (set_repl_data i r) s Q.
Proof.
  intros Hi Hw HQ. unfold set_repl_data. apply runs_bind. eapply runs_lines_at; [done..|].
  unfold lines_put. apply runs_bind, runs_get, runs_bind.
  eapply runs_lift_Ok; [|by apply runs_modify].
  apply vec_set_Ok. split; [|done]. apply lookup_lt_Some in Hw. lia.
Qed.

(** The loop shared by the policies: every line is updated against the accessed one
    and the last line satisfying [cond] becomes the victim. *)
Lemma repl_loop_spec (test : Z → Z → bool) (upd : Z → Z) (cond : Z → bool) (line_id : Z) wl s :
  let f := fun x => if test x (repl_data wl) then upd x else x in
  length (Lines s) = Z.to_nat (Associativity s) → 0 ≤ Associativity s → 0 ≤ line_id →
  Lines s !! Z.to_nat line_id = Some wl → f (repl_data wl) = repl_data wl →
  runs (m_forM (seqZ 0 (Associativity s)) (fun i =>
          wi <- lines_at i ;;
          wl <- lines_at line_id ;;
          m_when (test (repl_data wi) (repl_data wl)) (set_repl_data i (upd (repl_data wi))) ;;;
          wi <- lines_at i ;;
          m_when (cond (repl_data wi)) (m_modify (setNextVictim i)))) s
    (fun _ s' => ∃ v, s' = setNextVictim v (setLines (map_repl f <$> Lines s) s) ∧
       last_index (fun k => ∃ w, Lines s !! Z.to_nat k = Some w ∧ cond (f (repl_data w)) = true)
         (Associativity s) (NextVictim s) v).
Proof.
  intros f Hlen Hassoc Hid Hwl Hfix.
  set (P := fun k => ∃ w, Lines s !! Z.to_nat k = Some w ∧ cond (f (repl_data w)) = true).
  eapply runs_conseq.
  - apply (runs_forM_seqZ (Associativity s) _ s (fun i s' =>
      ∃ v, s' = setNextVictim v (setLines (partial f i (Lines s)) s) ∧
           last_index P i (NextVictim s) v)); [done| |].
    + exists (NextVictim s). split; [by destruct s|]. right. split; [done|]. intros j Hj. lia.
    + intros i s' Hi (v & -> & Hv).
      destruct (lookup_lt_is_Some_2 (Lines s) (Z.to_nat i)) as [wi Hwi]; [lia|].
      assert (partial f i (Lines s) !! Z.to_nat line_id = Some wl) as Hwl'.
      { destruct (decide (line_id < i)).
        - rewrite partial_lookup_lt by lia. rewrite Hwl. simpl. unfold map_repl.
          rewrite Hfix. by destruct wl.
        - by rewrite partial_lookup_ge by lia. }
      assert (partial f i (Lines s) !! Z.to_nat i = Some wi) as Hwi'
        by by rewrite partial_lookup_ge by lia.
      apply runs_bind. eapply runs_lines_at; [lia|exact Hwi'|].
      apply runs_bind. eapply runs_lines_at; [lia|exact Hwl'|].
      apply runs_bind.
      assert (runs (wi <- lines_at i ;; m_when (cond (repl_data wi)) (m_modify (setNextVictim i)))
        (setNextVictim v (setLines (partial f (i + 1) (Lines s)) s))
        (fun _ s' => ∃ v, s' = setNextVictim v (setLines (partial f (i + 1) (Lines s)) s) ∧
           last_index P (i + 1) (NextVictim s) v)) as Hrest.
      { apply runs_bind. apply (runs_lines_at _ _ (map_repl f wi)); [lia| |].
        { simpl. rewrite partial_lookup_lt by lia. by rewrite Hwi. }
        destruct (last_index_step P i (NextVictim s) v) as [Hyes Hno]; [lia|done|].
        apply runs_when; intros Hc.
        - apply runs_modify. exists i. split; [done|]. apply Hyes. by exists wi.
        - exists v. split; [done|]. apply Hno. intros (w & Hw & Hc').
          simplify_eq. simpl in Hc. congruence. }
      apply runs_when; intros Ht.
      * eapply runs_set_repl_data; [lia|exact Hwi'|]. simpl.
        replace (upd (repl_data wi)) with (f (repl_data wi)) by (unfold f; by rewrite Ht).
        fold (map_repl f wi). rewrite partial_step by (done || lia). exact Hrest.
      * rewrite <- (partial_step_id f (Lines s) i wi) by (done || lia || (unfold f; by rewrite Ht)).
        exact Hrest.
  - intros [] s' (v & -> & Hv). exists v. split; [|done].
    by rewrite partial_all by lia.
Qed.

(** ** Orders of ways *)

Section orders.
Context (s : CacheSet) (rec : list Z).
Hypothesis (Hrep : age_rep rec s).
Hypothesis (Hassoc : 0 < Associativity s < 2 ^ 32).
Hypothesis (Hlen : length (Lines s) = Z.to_nat (Associativity s)).

Lemma rep_NoDup : NoDup rec.
Proof. destruct Hrep as [HP _]. rewrite HP. apply NoDup_seqZ. Qed.

Lemma rep_elem i : i ∈ rec ↔ 0 ≤ i < Associativity s.
Proof. destruct Hrep as [HP _]. rewrite HP, elem_of_seqZ. lia. Qed.

Lemma rep_length : Z.of_nat (length rec) = Associativity s.
Proof. destruct Hrep as [HP _]. rewrite HP, length_seqZ. lia. Qed.

Lemma rep_age i : 0 ≤ i < Associativity s →
  ∃ pos w, rec !! pos = Some i ∧ Lines s !! Z.to_nat i = Some w ∧ repl_data w = Z.of_nat pos ∧
    0 ≤ repl_data w < Associativity s.
Proof.
  intros Hi. apply rep_elem in Hi as [pos Hpos]%list_elem_of_lookup.
  destruct Hrep as [_ Hage]. pose proof (Hage _ _ Hpos) as Ha. unfold ages in Ha.
  rewrite list_lookup_fmap in Ha. destruct (Lines s !! Z.to_nat i) as [w|] eqn:Hw; [|done].
  simpl in Ha. injection Ha as Ha. exists pos, w. pose proof rep_length.
  apply lookup_lt_Some in Hpos as Hlt. repeat split; done || lia.
Qed.

Lemma rep_split i : 0 ≤ i < Associativity s →
  ∃ l1 l2 w, rec = l1 ++ i :: l2 ∧ (i ∉ l1) ∧ (i ∉ l2) ∧
    Lines s !! Z.to_nat i = Some w ∧ repl_data w = Z.of_nat (length l1) ∧
    touch i rec = i :: l1 ++ l2 ∧ touch_last i rec = l1 ++ l2 ++ [i].
Proof.
  intros Hi. destruct (rep_age i Hi) as (pos & w & Hpos & Hw & Hr & _).
  destruct (list_elem_of_split_length _ _ _ Hpos) as (l1 & l2 & Heq & Hl1).
  pose proof rep_NoDup as Hnd. rewrite Heq in Hnd.
  apply NoDup_app in Hnd as (_ & Hd & [Hi2 _]%NoDup_cons).
  assert (i ∉ l1) as Hi1 by (intros Hin; by apply (Hd i Hin), elem_of_cons; left).
  assert (∀ l : list Z, i ∉ l → filter (fun j => j ≠ i) l = l) as Hfilter.
  { intros l Hl. induction l as [|j l IH]; [done|]. rewrite filter_cons_True by set_solver.
    f_equal. apply IH. set_solver. }
  exists l1, l2, w. repeat split; [done|done|done|done|congruence| |];
    unfold touch, touch_last; rewrite Heq, filter_app, filter_cons_False by (by intros []);
    rewrite !Hfilter by done; [done|by rewrite <- app_assoc].
Qed.

(** Any reordering of the ways is represented by the ages that are its positions. *)
Lemma rep_update f r rec' s' i :
  rec' ≡ₚ rec → Associativity s' = Associativity s → 0 ≤ i < Associativity s →
  Lines s' = <[Z.to_nat i := r]> (map_repl f <$> Lines s) →
  (∀ pos' j, rec' !! pos' = Some j → if decide (j = i) then repl_data r = Z.of_nat pos' else
     ∃ pos, rec !! pos = Some j ∧ f (Z.of_nat pos) = Z.of_nat pos') →
  age_rep rec' s'.
Proof.
  intros HP HA Hi HL Hpos. destruct Hrep as [HP0 Hage]. split; [by rewrite HA, HP|].
  intros pos' j Hj. specialize (Hpos _ _ Hj). unfold ages. rewrite list_lookup_fmap, HL.
  assert (0 ≤ j < Associativity s) as Hjr.
  { apply list_elem_of_lookup_2 in Hj. rewrite HP in Hj. by apply rep_elem. }
  case_decide as Hji.
  - subst j. rewrite list_lookup_insert_eq by (rewrite length_fmap; lia). simpl. by rewrite Hpos.
  - rewrite list_lookup_insert_ne by lia. destruct Hpos as (pos & Hp & Hf).
    specialize (Hage _ _ Hp). unfold ages in Hage.
    rewrite list_lookup_fmap. rewrite list_lookup_fmap in Hage.
    destruct (Lines s !! Z.to_nat j) as [w|]; [|done]. simpl in *. injection Hage as ->.
    by rewrite Hf.
Qed.
End orders.

(** ** The update of the replacement data *)

Definition bump (r x : Z) : Z := if bool_decide (x < r) then u32 (x + 1) else x.
Definition unbump (r x : Z) : Z := if bool_decide (r < x) then u32 (x - 1) else x.

(** Which positions reach the greatest age when the way at position [length l1] is
    accessed: that way itself if it was the oldest, and the oldest of the others. *)
Lemma bump_last l1 (i : Z) l2 pos k :
  NoDup (l1 ++ i :: l2) → Z.of_nat (length (l1 ++ i :: l2)) < 2 ^ 32 →
  (l1 ++ i :: l2) !! pos = Some k →
  bump (Z.of_nat (length l1)) (Z.of_nat pos) = Z.of_nat (length (l1 ++ i :: l2)) - 1 ↔
  (k = i ∧ l2 = []) ∨ last (i :: l1 ++ l2) = Some k.
Proof.
  intros Hnd Hn Hpos. rewrite length_app in *. simpl in *. pose proof (lookup_lt_Some _ _ _ Hpos) as Hlt.
  rewrite length_app in Hlt. simpl in Hlt.
  assert (∀ p, (l1 ++ i :: l2) !! p = Some k ↔ p = pos) as Huniq.
  { intros p. split; [|by intros ->]. intros Hp. by apply (NoDup_lookup _ _ _ _ Hnd Hp Hpos). }
  assert (bump (Z.of_nat (length l1)) (Z.of_nat pos) =
    if bool_decide (pos < length l1)%nat then Z.of_nat pos + 1 else Z.of_nat pos) as ->.
  { unfold bump. repeat case_bool_decide; try lia. apply u32_small. unfold in_u32. lia. }
  assert (k = i ↔ length l1 = pos) as Hki.
  { rewrite <- (Huniq (length l1)), lookup_app_r by lia. rewrite Nat.sub_diag. simpl. naive_solver. }
  destruct l2 as [|y l2 _] using rev_ind; [destruct l1 as [|y l1 _] using rev_ind|].
  - simpl in *. destruct pos; [|lia]. simpl. naive_solver.
  - rewrite app_nil_r, app_comm_cons, last_snoc. rewrite length_app in *. simpl in *.
    assert (k = y ↔ length l1 = pos) as Hky.
    { rewrite <- (Huniq (length l1)), <- app_assoc, lookup_app_r by lia. rewrite Nat.sub_diag. simpl. naive_solver. }
    case_bool_decide; split.
    + intros. right. f_equal. symmetry. apply Hky. lia.
    + intros [[Hk _]|[= Hk]]; [apply Hki in Hk; lia|symmetry in Hk; apply Hky in Hk; lia].
    + intros. left. split; [|done]. apply Hki. lia.
    + intros [[Hk _]|[= Hk]]; [apply Hki in Hk; lia|symmetry in Hk; apply Hky in Hk; lia].
  - rewrite app_assoc, app_comm_cons, last_snoc. rewrite length_app in *. simpl in *.
    assert (k = y ↔ (length l1 + S (length l2))%nat = pos) as Hky.
    { rewrite <- (Huniq (length l1 + S (length l2))%nat).
      rewrite lookup_app_r by lia. replace (_ - _)%nat with (S (length l2)) by lia. simpl.
      rewrite lookup_app_r by lia. rewrite Nat.sub_diag. simpl. naive_solver. }
    case_bool_decide; split; try lia.
    + intros [[_ Hk]|[= Hk]]; [by destruct l2|]. symmetry in Hk. apply Hky in Hk. lia.
    + intros. right. f_equal. symmetry. apply Hky. lia.
    + intros [[_ Hk]|[= Hk]]; [by destruct l2|]. symmetry in Hk. apply Hky in Hk. lia.
Qed.

(** The last line reaching the greatest age: the oldest of the other ways, unless the
    accessed way was the oldest and has a greater index. *)
Lemma lru_victim s rec i w v v' :
  age_rep rec s → 0 < Associativity s < 2 ^ 32 →
  length (Lines s) = Z.to_nat (Associativity s) → 0 ≤ i < Associativity s →
  Lines s !! Z.to_nat i = Some w →
  last_index (fun k => ∃ w', Lines s !! Z.to_nat k = Some w' ∧
      bool_decide (bump (repl_data w) (repl_data w') = u32 (Associativity s - 1)) = true)
    (Associativity s) v v' →
  ∃ v0, last (touch i rec) = Some v0 ∧
    v' = if decide (last rec = Some i) then Z.max i v0 else v0.
Proof.
  intros Hrep Hassoc Hlen Hi Hw Hidx. pose proof (rep_length _ _ Hrep Hassoc Hlen) as Hrl.
  destruct (rep_split s rec Hrep Hassoc Hlen i Hi) as (l1 & l2 & w0 & Hrec & Hi1 & Hi2 & Hw0 & Hr & Ht & _).
  simplify_eq/=. pose proof (rep_NoDup _ _ Hrep) as Hnd.
  destruct (last (touch i (l1 ++ i :: l2))) as [v0|] eqn:Hlast; [|by rewrite last_None in Hlast].
  exists v0. split; [done|]. rewrite Ht in Hlast.
  assert (∀ k, 0 ≤ k < Associativity s →
    (∃ w', Lines s !! Z.to_nat k = Some w' ∧
       bool_decide (bump (repl_data w) (repl_data w') = u32 (Associativity s - 1)) = true) ↔
    (k = i ∧ l2 = []) ∨ v0 = k) as HP.
  { intros k Hk. destruct (rep_age s _ Hrep Hassoc Hlen k Hk) as (pos & w' & Hpos & Hw' & Hr' & _).
    rewrite u32_small by (unfold in_u32; lia).
    pose proof (bump_last l1 i l2 pos k Hnd ltac:(lia) Hpos) as Hb. rewrite Hlast in Hb.
    rewrite Hw'. setoid_rewrite bool_decide_eq_true. rewrite Hr, <- Hrl.
    split; [intros (? & [= <-] & E); rewrite Hr' in E|intros E; exists w'; split; [done|rewrite Hr']].
    - apply Hb in E. naive_solver.
    - apply Hb. naive_solver. }
  assert (0 ≤ v0 < Associativity s) as Hv0.
  { apply (rep_elem s _ Hrep Hlen). apply last_Some_elem_of in Hlast. set_solver. }
  assert (last (l1 ++ i :: l2) = Some i ↔ l2 = []) as Hlast2.
  { rewrite last_app_cons. destruct l2 as [|y l2 _] using rev_ind; [done|].
    rewrite app_comm_cons, last_snoc. split; [intros [= ->]; set_solver|by destruct l2]. }
  destruct Hidx as [(Hv' & HPv & Hmax)|[_ Hno]].
  2: { destruct (Hno v0 Hv0). apply HP; [done|by right]. }
  rewrite HP in HPv by done. case_decide as Hl2; rewrite Hlast2 in Hl2.
  - destruct (decide (v' < i)); [destruct (Hmax i); [lia|apply HP; [done|by left]]|].
    destruct (decide (v' < v0)); [destruct (Hmax v0); [lia|apply HP; [done|by right]]|].
    naive_solver lia.
  - naive_solver.
Qed.

(** LRU: the ways are reordered by moving the accessed one to the front. *)
Lemma lru_update_spec s rec i :
  Policy s = LRU → age_rep rec s → 0 < Associativity s < 2 ^ 32 →
  length (Lines s) = Z.to_nat (Associativity s) → 0 ≤ i < Associativity s →
  runs (updateReplacementData i) s (fun _ s' =>
    age_rep (touch i rec) s' ∧ contents s' = contents s ∧
    Associativity s' = Associativity s ∧ Policy s' = Policy s ∧
    CountUntilRepl s' = CountUntilRepl s ∧ length (Lines s') = length (Lines s) ∧
    ∃ v, last (touch i rec) = Some v ∧
      NextVictim s' = if decide (last rec = Some i) then Z.max i v else v).
Proof.
  intros Hpol Hrep Hassoc Hlen Hi. pose proof (rep_length _ _ Hrep Hassoc Hlen) as Hrl.
  destruct (rep_split s rec Hrep Hassoc Hlen i Hi) as (l1 & l2 & w & Hrec & Hi1 & Hi2 & Hw & Hr & Ht & _).
  unfold updateReplacementData. apply runs_bind, runs_get. rewrite Hpol.
  pose proof (repl_loop_spec (fun x r : Z => bool_decide (x < r)) (fun x => u32 (x + 1))
    (fun x : Z => bool_decide (x = u32 (Associativity s - 1))) i w s) as Hloop.
  apply runs_bind. eapply runs_conseq.
  { apply Hloop; [lia|lia|lia|done|]. by rewrite bool_decide_eq_false_2 by lia. }
  intros [] s1 (v & -> & Hv). fold (bump (repl_data w)) in *.
  eapply runs_set_repl_data; [lia| |].
  { simpl. rewrite list_lookup_fmap, Hw. done. }
  simpl. split_and!; try done.
  - apply (rep_update s rec Hrep Hassoc Hlen (bump (repl_data w)) (mkLineWrapper (line w) 0) _ _ i);
      [rewrite Ht, Hrec; by rewrite Permutation_middle|done|done|done|].
    intros pos' j Hj. rewrite Ht in Hj. destruct pos' as [|pos']; simpl in Hj.
    { injection Hj as <-. by rewrite decide_True by done. }
    rewrite decide_False.
    2: { intros ->. apply list_elem_of_lookup_2, elem_of_app in Hj. tauto. }
    rewrite Hrec. apply lookup_app_Some in Hj as [Hj|[Hge Hj]].
    + exists pos'. pose proof (lookup_lt_Some _ _ _ Hj). split; [by apply lookup_app_l_Some|].
      unfold bump. rewrite bool_decide_eq_true_2 by lia.
      rewrite Hrec, length_app in Hrl. rewrite u32_small; [lia|unfold in_u32; lia].
    + exists (S pos'). split.
      { rewrite lookup_app_r by lia. replace (S pos' - length l1)%nat with (S (pos' - length l1)) by lia.
        done. }
      unfold bump. by rewrite bool_decide_eq_false_2 by lia.
  - unfold contents. simpl. rewrite list_fmap_insert, <- list_fmap_compose. simpl.
    replace (line ∘ map_repl (bump (repl_data w))) with line by done.
    apply list_insert_id. rewrite list_lookup_fmap, Hw. done.
  - rewrite length_insert, length_fmap. done.
  - by apply (lru_victim s rec i w (NextVictim s) v).
Qed.

(** MRU: the accessed way moves to the end of the order. *)
Lemma mru_update_spec s i : Policy s = MRU → set_wf s → 0 ≤ i < Associativity s →
  runs (updateReplacementData i) s (fun _ s' =>
    set_wf s' ∧ contents s' = contents s ∧
    Associativity s' = Associativity s ∧ Policy s' = Policy s).
Proof.
  intros Hpol [_ Hassoc Hlen [rec Hrep] Hv Hcount] Hi. specialize (Hcount Hpol) as [Hc Hcv].
  pose proof (rep_length _ _ Hrep Hassoc Hlen) as Hrl.
  destruct (rep_split s rec Hrep Hassoc Hlen i Hi) as (l1 & l2 & w & Hrec & Hi1 & Hi2 & Hw & Hr & _ & Ht).
  unfold updateReplacementData. apply runs_bind, runs_get. rewrite Hpol.
  apply runs_bind, runs_assert; [apply bool_decide_eq_true_2; lia|].
  pose proof (repl_loop_spec (fun x r : Z => bool_decide (r < x)) (fun x => u32 (x - 1))
    (fun x : Z => bool_decide (x = u32 (Associativity s - 1)) &&
                  bool_decide (u32 (Associativity s - 1) ≤ CountUntilRepl s)) i w s) as Hloop.
  apply runs_bind. eapply runs_conseq.
  { apply Hloop; [lia|lia|lia|done|]. by rewrite bool_decide_eq_false_2 by lia. }
  clear Hloop. intros [] s1 (v & -> & Hidx). fold (unbump (repl_data w)) in *.
  rewrite u32_small in * by (unfold in_u32; lia).
  assert (0 ≤ v < Associativity s ∧ (CountUntilRepl s < Associativity s - 1 → v = NextVictim s)) as [Hvr Hvc].
  { destruct Hidx as [(Hv' & (w' & _ & Hcond) & _)|[-> _]]; [|done].
    apply andb_prop in Hcond as [_ Hcond]. apply bool_decide_eq_true in Hcond. split; lia. }
  set (s1 := setNextVictim v (setLines (map_repl (unbump (repl_data w)) <$> Lines s) s)).
  assert (∀ nv c, 0 ≤ nv < Associativity s → 0 ≤ c < Associativity s →
    (c < Associativity s - 1 → nv = c) →
    runs (set_repl_data i (Associativity s - 1)) (setNextVictim nv (setCountUntilRepl c s1))
      (fun _ s' => set_wf s' ∧ contents s' = contents s ∧
         Associativity s' = Associativity s ∧ Policy s' = MRU)) as Hlast.
  { intros nv c Hnv Hc' Hcnv. eapply runs_set_repl_data; [lia| |].
    { simpl. rewrite list_lookup_fmap, Hw. done. }
    simpl. split_and!; try done.
    - split; simpl; [congruence|done| |exists (touch_last i rec)|done|done].
      { by rewrite length_insert, length_fmap. }
      apply (rep_update s rec Hrep Hassoc Hlen (unbump (repl_data w))
        (mkLineWrapper (line w) (Associativity s - 1)) _ _ i);
        [rewrite Ht, Hrec; apply Permutation_app_head; symmetry; apply Permutation_cons_append|done..|].
      intros pos' j Hj. rewrite Ht, app_assoc in Hj. rewrite Hrec in Hrl |- *.
      rewrite length_app in Hrl. simpl in Hrl.
      apply lookup_app_Some in Hj as [Hj|[Hge Hj]].
      + rewrite decide_False.
        2: { intros ->. apply list_elem_of_lookup_2, elem_of_app in Hj. tauto. }
        apply lookup_app_Some in Hj as [Hj|[Hge Hj]].
        * exists pos'. pose proof (lookup_lt_Some _ _ _ Hj). split; [by apply lookup_app_l_Some|].
          unfold unbump. by rewrite bool_decide_eq_false_2 by lia.
        * exists (S pos'). pose proof (lookup_lt_Some _ _ _ Hj). split.
          { rewrite lookup_app_r by lia.
            replace (S pos' - length l1)%nat with (S (pos' - length l1)) by lia. done. }
          unfold unbump. rewrite bool_decide_eq_true_2 by lia. rewrite u32_small; [lia|unfold in_u32; lia].
      + rewrite length_app in Hge, Hj.
        destruct (pos' - (length l1 + length l2))%nat eqn:E; [|done]. injection Hj as <-.
        rewrite decide_True by done. simpl. lia.
    - unfold contents. simpl. rewrite list_fmap_insert, <- list_fmap_compose.
      apply list_insert_id. rewrite list_lookup_fmap, Hw. done. }
  apply runs_bind, runs_when; intros Hb;
    [apply bool_decide_eq_true in Hb|apply bool_decide_eq_false in Hb].
  - apply runs_bind, runs_gets, runs_bind, runs_modify, runs_modify. simpl.
    apply (Hlast (v + 1) (CountUntilRepl s + 1)); lia.
  - apply (Hlast v (CountUntilRepl s)); lia.
Qed.

Lemma lru_update_wf s i : Policy s = LRU → set_wf s → 0 ≤ i < Associativity s →
  runs (updateReplacementData i) s (fun _ s' =>
    set_wf s' ∧ contents s' = contents s ∧
    Associativity s' = Associativity s ∧ Policy s' = Policy s).
Proof.
  intros Hpol [_ Hassoc Hlen [rec Hrep] Hv _] Hi.
  eapply runs_conseq; [by eapply lru_update_spec|].
  intros [] s' (Hrep' & Hc & HA & HP & _ & Hl & v & Hlast & HV). rewrite Hpol in *.
  assert (0 ≤ v < Associativity s) as Hvr.
  { rewrite <- HA. apply (rep_elem s' _ Hrep'); [by rewrite Hl, HA|]. by apply last_Some_elem_of. }
  split_and!; try done. split; [congruence|by rewrite HA|by rewrite Hl, HA|by eexists| |congruence].
  rewrite HV, HA. case_decide; lia.
Qed.

Lemma update_wf s i : set_wf s → 0 ≤ i < Associativity s →
  runs (updateReplacementData i) s (fun _ s' =>
    set_wf s' ∧ contents s' = contents s ∧
    Associativity s' = Associativity s ∧ Policy s' = Policy s).
Proof.
  intros Hwf Hi. destruct (Policy s) eqn:Hpol.
  - by destruct (wf_policy s Hwf).
  - rewrite <- Hpol. by apply lru_update_wf.
  - rewrite <- Hpol. by apply mru_update_spec.
Qed.

(** ** Lookup *)

Definition line_matches (tag : Z) (l : CacheLine) : Prop := Tag l = tag ∧ State l ≠ Invalid.

Lemma locate_from_spec ls k tag :
  (locate_from ls k tag = -1 ∧ ∀ w, w ∈ ls → ¬ line_matches tag (line w)) ∨
  ∃ n w, locate_from ls k tag = k + Z.of_nat n ∧ ls !! n = Some w ∧ line_matches tag (line w) ∧
    ∀ m w', (m < n)%nat → ls !! m = Some w' → ¬ line_matches tag (line w').
Proof.
  revert k. induction ls as [|w ls IH]; intros k; simpl.
  { left. split; [done|]. intros w Hw. by apply elem_of_nil in Hw. }
  destruct (bool_decide (Tag (line w) = tag) && negb (bool_decide (State (line w) = Invalid))) eqn:E.
  - right. exists 0%nat, w. split; [lia|]. split; [done|].
    apply andb_prop in E as [E1 E2]. apply bool_decide_eq_true in E1. apply negb_true_iff in E2.
    apply bool_decide_eq_false in E2. split; [done|]. intros m w' Hm. lia.
  - assert (¬ line_matches tag (line w)) as Hno.
    { intros [H1 H2]. rewrite bool_decide_eq_true_2, bool_decide_eq_false_2 in E; done. }
    destruct (IH (k + 1)) as [[-> Hall]|(n & w1 & -> & Hn & Hm & Hmin)]; [left|right].
    + split; [done|]. intros w' [-> | Hw']%elem_of_cons; [done|by apply Hall].
    + exists (S n), w1. split; [lia|]. split; [done|]. split; [done|].
      intros [|m] w' Hlt Hw'; simpl in Hw'; [by simplify_eq|]. apply (Hmin m); [lia|done].
Qed.

(** The outcome of a lookup, shared by the two policies. *)
Definition lookup_result (tag : Z) (s : CacheSet) (hit : bool) (way : Z) : Prop :=
  0 ≤ way < Associativity s ∧
  if hit then
    (∃ l, contents s !! Z.to_nat way = Some l ∧ line_matches tag l) ∧
    ∀ m l, 0 ≤ m < way → contents s !! Z.to_nat m = Some l → ¬ line_matches tag l
  else way = NextVictim s ∧ ∀ l, l ∈ contents s → ¬ line_matches tag l.

Lemma accessSet_unfold tag s : set_wf s →
  ∃ hit way, lookup_result tag s hit way ∧
    accessSet tag s = (updateReplacementData way ;;; m_ret (hit, Some way)) s.
Proof.
  intros [Hpol Hassoc Hlen _ Hv _]. unfold accessSet, locateLineInSet. unfold m_bind at 1, m_get.
  destruct (locate_from_spec (Lines s) 0 tag) as [[-> Hall]|(n & w & -> & Hn & Hm & Hmin)].
  - exists false, (NextVictim s). split.
    { split; [done|]. split; [done|]. unfold contents. intros l (w & -> & Hw)%list_elem_of_fmap. by apply Hall. }
    rewrite bool_decide_eq_false_2 by lia. by destruct (Policy s).
  - pose proof (lookup_lt_Some _ _ _ Hn). exists true, (Z.of_nat n). split.
    { split; [lia|]. unfold contents. split.
      - exists (line w). by rewrite Nat2Z.id, list_lookup_fmap, Hn.
      - intros m l Hm' Hl. rewrite list_lookup_fmap in Hl.
        destruct (Lines s !! Z.to_nat m) as [w'|] eqn:Hw'; [|done]. injection Hl as <-.
        apply (Hmin (Z.to_nat m)); [lia|done]. }
    rewrite !bool_decide_eq_true_2 by lia. rewrite Z.add_0_l. by destruct (Policy s).
Qed.

(** An access to a well-formed set returns, keeps the set well formed and its lines
    unchanged, and gives the way that [lookup_result] describes. *)
Lemma accessSet_wf tag s : set_wf s →
  runs (accessSet tag) s (fun r s' => set_wf s' ∧ contents s' = contents s ∧
    Associativity s' = Associativity s ∧ Policy s' = Policy s ∧
    ∃ hit way, r = (hit, Some way) ∧ lookup_result tag s hit way).
Proof.
  intros Hwf. destruct (accessSet_unfold tag s Hwf) as (hit & way & Hres & E).
  unfold runs. rewrite E. change (runs (updateReplacementData way ;;; m_ret (hit, Some way)) s
    (fun r s' => set_wf s' ∧ contents s' = contents s ∧ Associativity s' = Associativity s ∧
       Policy s' = Policy s ∧ ∃ hit way, r = (hit, Some way) ∧ lookup_result tag s hit way)).
  apply runs_bind. eapply runs_conseq; [apply update_wf; [done|apply Hres]|].
  intros [] s' (H1 & H2 & H3 & H4). apply runs_ret. split_and!; try done. by exists hit, way.
Qed.

(** ** The constructor *)

Lemma age_rep_initial n s :
  0 ≤ n < 2 ^ 32 → Associativity s = n → Policy s ≠ FIFO →
  ages s = (fun i => initial_repl_data (Policy s) n i) <$> seqZ 0 n →
  age_rep (reverse (seqZ 0 n)) s.
Proof.
  intros Hn HA HP Hages. split; [by rewrite HA, reverse_Permutation|].
  intros pos i Hpos. pose proof (lookup_lt_Some _ _ _ Hpos) as Hlt.
  rewrite length_reverse, length_seqZ in Hlt.
  rewrite reverse_lookup in Hpos by (rewrite length_seqZ; lia). rewrite length_seqZ in Hpos.
  apply lookup_seqZ in Hpos as [-> Hlt']. rewrite Hages, list_lookup_fmap.
  replace (Z.to_nat (0 + Z.of_nat (Z.to_nat n - S pos))) with (Z.to_nat n - S pos)%nat by lia.
  rewrite lookup_seqZ_lt by lia. simpl. f_equal. unfold initial_repl_data.
  destruct (Policy s); [done|..]; rewrite u32_small by (unfold in_u32; lia); lia.
Qed.

Lemma newCacheSet_Ok lineSize assoc pol :
  0 < assoc < 2 ^ 32 → 0 ≤ lineSize < 2 ^ 32 → pol ≠ FIFO → assoc ≤ lineSize →
  ∃ s, newCacheSet lineSize assoc pol = Ok s ∧ set_wf s ∧ Policy s = pol ∧ Associativity s = assoc ∧
    ∀ l, l ∈ contents s → l = newCacheLine lineSize.
Proof.
  intros Ha Hl Hp Hle. unfold newCacheSet, initSet. simpl.
  rewrite !u32_small by (unfold in_u32; lia). rewrite bool_decide_eq_true_2 by lia.
  eexists. split; [done|]. split_and!; simpl; try done.
  - split; simpl; [done|lia|by rewrite length_fmap, length_seqZ| |lia|lia].
    eexists. apply (age_rep_initial assoc); simpl; [lia|done|done|].
    unfold ages. simpl. by rewrite <- list_fmap_compose.
  - unfold contents. simpl. intros l (w & -> & (i & -> & _)%list_elem_of_fmap)%list_elem_of_fmap. done.
Qed.

(** ** Theorems *)

Definition example_set : CacheSet :=
  match newCacheSet 64 4 LRU with Ok s => s | Err _ => mkCacheSet 0 LRU [] 0 0 end.

Lemma example_set_wf : set_wf example_set.
Proof.
  destruct (newCacheSet_Ok 64 4 LRU) as (s & E & Hwf & _); [lia|lia|done|lia|].
  unfold example_set. by rewrite E.
Qed.

(** the constructor builds a well-formed set of invalid lines for every
    associativity up to the line size, and writes past its array for every larger
    one, because the array is allocated with [lineSize] elements. *)
Theorem newCacheSet_allocation lineSize assoc pol
    (Ha : 0 < assoc < 2 ^ 32) (Hl : 0 ≤ lineSize < 2 ^ 32) (Hp : pol ≠ FIFO) :
  if decide (assoc ≤ lineSize) then
    ∃ s, newCacheSet lineSize assoc pol = Ok s ∧ set_wf s ∧ Policy s = pol ∧
      Associativity s = assoc ∧ (∀ l, l ∈ contents s → l = newCacheLine lineSize)
  else newCacheSet lineSize assoc pol = Err (UndefinedBehaviour "write past the end of Lines").
Proof.
  case_decide; [by apply newCacheSet_Ok|]. unfold newCacheSet, initSet. simpl.
  rewrite !u32_small by (unfold in_u32; lia). by rewrite bool_decide_eq_false_2 by lia.
Qed.

Lemma newCacheSet_allocation_witness :
  newCacheSet 16 32 LRU = Err (UndefinedBehaviour "write past the end of Lines").
Proof. apply (newCacheSet_allocation 16 32 LRU); [lia|lia|done]. Defined.

(** an access to a well-formed set always returns (no assertion fails and no
    index is out of range), keeps the set well formed (the ages stay a permutation
    and the victim in range) and every line unchanged; it reports a hit exactly when
    a valid line has the tag, and points to the first such line, or else to
    [NextVictim]. *)
Theorem accessSet_spec tag s (Hwf : set_wf s) :
  runs (accessSet tag) s (fun r s' => set_wf s' ∧ contents s' = contents s ∧
    ∃ hit way, r = (hit, Some way) ∧ lookup_result tag s hit way ∧
      (hit = true ↔ ∃ l, l ∈ contents s ∧ line_matches tag l)).
Proof.
  eapply runs_conseq; [by apply accessSet_wf|].
  intros r s' (H1 & H2 & _ & _ & hit & way & -> & Hres). split_and!; [done..|].
  exists hit, way. split; [done|]. split; [done|]. destruct Hres as [_ Hres]. destruct hit.
  - split; [|done]. intros _. destruct Hres as [(l & Hl & Hm) _]. exists l.
    split; [by eapply list_elem_of_lookup_2|done].
  - split; [done|]. intros (l & Hl & Hm). by destruct (proj2 Hres l Hl).
Qed.

Lemma accessSet_spec_witness :
  runs (accessSet 7) example_set (fun r s' => set_wf s' ∧ contents s' = contents example_set ∧
    ∃ hit way, r = (hit, Some way) ∧ lookup_result 7 example_set hit way ∧
      (hit = true ↔ ∃ l, l ∈ contents example_set ∧ line_matches 7 l)).
Proof. apply (accessSet_spec 7 example_set). apply example_set_wf. Defined.

(** C21: under LRU the ages implement a recency list: updating way [i] is moving it to
    the front of the list.  The elected victim is the least recently used way, except
    when the updated way was itself the oldest and has a greater index than the new
    oldest way: then the victim is the way just used. *)
Theorem lru_refines_recency_list s rec i (Hpol : Policy s = LRU) (Hwf : set_wf s)
    (Hrep : age_rep rec s) (Hi : 0 ≤ i < Associativity s) :
  runs (updateReplacementData i) s (fun _ s' =>
    set_wf s' ∧ age_rep (touch i rec) s' ∧ contents s' = contents s ∧
    ∃ v, last (touch i rec) = Some v ∧
      NextVictim s' = if decide (last rec = Some i ∧ v < i) then i else v).
Proof.
  pose proof (lru_update_wf s i Hpol Hwf Hi) as H1.
  destruct Hwf as [_ Hassoc Hlen _ _ _].
  pose proof (lru_update_spec s rec i Hpol Hrep Hassoc Hlen Hi) as H2.
  unfold runs in *. destruct (updateReplacementData i s) as [[[]|e] s']; [|done].
  destruct H1 as (Hwf' & Hc & _). destruct H2 as (Hr & _ & _ & _ & _ & _ & v & Hv & HV).
  split_and!; try done. exists v. split; [done|]. rewrite HV.
  destruct (decide (last rec = Some i)) as [Hl|Hl].
  - destruct (decide (v < i)); [rewrite decide_True by done|rewrite decide_False by tauto]; lia.
  - by rewrite decide_False by tauto.
Qed.

Lemma lru_refines_recency_list_witness :
  runs (updateReplacementData 2) example_set (fun _ s' => age_rep [2; 3; 1; 0] s' ∧ NextVictim s' = 0).
Proof.
  assert (age_rep [3; 2; 1; 0] example_set) as Hrep.
  { apply (age_rep_initial 4); [lia|vm_compute; reflexivity|vm_compute; discriminate|vm_compute; reflexivity]. }
  pose proof (lru_refines_recency_list example_set [3; 2; 1; 0] 2 eq_refl example_set_wf Hrep) as H.
  assert (0 ≤ 2 < Associativity example_set) as Hi by (vm_compute; split; [discriminate|reflexivity]).
  specialize (H Hi). eapply runs_conseq; [exact H|].
  intros [] s' (_ & Hrep' & _ & v & Hv & ->). split; [exact Hrep'|].
  vm_compute in Hv. injection Hv as <-. rewrite decide_False; [done|].
  intros [Hl _]. vm_compute in Hl. discriminate.
Defined.

(** in a two-way LRU set, after two misses that fill the two ways the next victim
    is the way that was filled last; and under FIFO an access leaves the line pointer
    of the caller unset. *)
Theorem lru_victim_most_recent :
  (∃ s, newCacheSet 64 2 LRU = Ok s ∧
     runs (r1 <- accessSet 1 ;;
           m_modify (fun s => setLines (<[0%nat := mkLineWrapper (mkCacheLine 0 64 1 Shared 0) 0]> (Lines s)) s) ;;;
           r2 <- accessSet 2 ;; m_ret (r1, r2)) s
       (fun r s' => r = ((false, Some 0), (false, Some 1)) ∧ NextVictim s' = 1)) ∧
  (∀ s tag, newCacheSet 64 2 FIFO = Ok s → (accessSet tag s).1 = Ok (false, None)).
Proof.
  split.
  - eexists. split; [vm_compute; reflexivity|]. vm_compute. done.
  - intros s tag [= <-]. unfold accessSet, m_bind, m_get. simpl. unfold locateLineInSet. simpl.
    rewrite !andb_false_r. done.
Qed.
