(* ===== verification/CacheBase.v ===== *)
(** * The cache controller ([components/memory/include/memory/CacheBase.hpp])

    The state of a cache (sets, directory, sharer lists, counters), its geometry and
    the four access routines: non-coherent caches, the private L1 and L2 of the MSI
    protocol, and the home directory.  The virtual methods by which a cache sends
    requests to other caches and to memory are a parameter: [respond] gives the
    status they return (or the assertion that fails in them) and the trace records
    the calls in order.  The model covers environments that do not call back into
    the same cache during such a call.  Delays and time stamps are only passed on
    by these routines and are left out, and so are the data: the data pointer of
    every line is [NULL], so that a cache with [DataSupport] copies through it. *)

From S2P Require Import Prelude Tlm CacheSet.

(** ** Configuration *)

Inductive CacheWritePolicy := WThrough | WBack.
Inductive CacheAllocPolicy := WAllocate | WAround.
Inductive CacheInclusionPolicy := NINE | Inclusive | Exclusive.

#[global] Instance CacheWritePolicy_eq_dec : EqDecision CacheWritePolicy.
Proof. solve_decision. Defined.
#[global] Instance CacheAllocPolicy_eq_dec : EqDecision CacheAllocPolicy.
Proof. solve_decision. Defined.
#[global] Instance CacheInclusionPolicy_eq_dec : EqDecision CacheInclusionPolicy.
Proof. solve_decision. Defined.

(** The constant members of a cache. *)
Record config := mkConfig {
  CacheLineSize : Z; CacheSize : Z; NbLines : Z; NbSets : Z;
  OffsetBits : Z; InterleaveBits : Z; IndexBits : Z; TagBits : Z;
  OffsetMask : Z; IndexMask : Z; TagMask : Z; IndexShift : Z; TagShift : Z;
  Assoc : Z; ReplPolicy : CacheReplacementPolicy;
  WritePolicy : CacheWritePolicy; AllocPolicy : CacheAllocPolicy;
  DataSupport : bool; Level : Z; IsHome : bool; IsCoherent : bool;
  InclusionOfHigher : CacheInclusionPolicy; InclusionOfLower : CacheInclusionPolicy;
  NotifyEvictions : bool; Id : Z
}.

(** [constexpr log2]: at most 64 halvings of a 64-bit number. *)
Fixpoint log2_fuel (fuel : nat) (n : Z) : Z :=
  match fuel with
  | O => 0
  | S fuel => if bool_decide (n < 2) then 0 else 1 + log2_fuel fuel (n / 2)
  end.
Definition log2 (n : Z) : Z := log2_fuel 64 n.

(** [(1ULL << n) - 1]; shifting by 64 or more is undefined. *)
Definition mask (n : Z) : result Z :=
  if bool_decide (n < 64) then Ok (Z.shiftl 1 n - 1)
  else Err (UndefinedBehaviour "shift by the width of the type").

(** The policies a cache is built with. *)
Record params := mkParams {
  p_repl : CacheReplacementPolicy; p_write : CacheWritePolicy; p_alloc : CacheAllocPolicy;
  p_data : bool; p_level : Z; p_higher : CacheInclusionPolicy; p_lower : CacheInclusionPolicy;
  p_home : bool; p_coherent : bool; p_notify : bool; p_id : Z
}.

(** The geometry computed by the constructor. *)
Definition new_config (cacheSize cacheLineSize associativity nbInterleavedCaches : Z)
    (p : params) : result config :=
  if bool_decide (cacheLineSize = 0) || bool_decide (associativity = 0) then
    Err (UndefinedBehaviour "division by zero")
  else
    let nbLines := cacheSize / cacheLineSize in
    let nbSets := nbLines / associativity in
    if bool_decide (associativity ≤ nbLines) then
      let offsetBits := log2 cacheLineSize in
      let interleaveBits := if bool_decide (0 < nbInterleavedCaches) then log2 nbInterleavedCaches else 0 in
      let indexBits := log2 nbSets in
      let tagBits := u64 (64 - indexBits - interleaveBits - offsetBits) in
      result_bind (mask offsetBits) (fun offsetMask =>
      result_bind (mask indexBits) (fun indexMask =>
      result_bind (mask tagBits) (fun tagMask =>
      Ok (mkConfig cacheLineSize cacheSize nbLines nbSets offsetBits interleaveBits indexBits tagBits
            offsetMask indexMask tagMask (offsetBits + interleaveBits)
            (indexBits + offsetBits + interleaveBits) associativity (p_repl p) (p_write p) (p_alloc p)
            (p_data p) (p_level p) (p_home p) (p_coherent p) (p_higher p) (p_lower p)
            (p_notify p) (p_id p)))))
    else Err AssertionFailed.

(** ** State *)

Record DirectoryEntry := mkEntry { DState : CoherenceState; Owner : Z; DSharers : gset Z }.

(** The value [std::map::operator[]] inserts for a missing key. *)
Definition default_entry : DirectoryEntry := mkEntry Modified 0 ∅.

Inductive Counter :=
  | MissCount | HitCount | NReads | NWrites | NInvals | NTotalInvals | NBackInvals | NEvicts
  | WriteBacks | EvictBacks | NPutS | NPutM | NPutI | NGetS | NGetM | NFwdGetS | NFwdGetM | ReadBacks.

#[global] Instance Counter_eq_dec : EqDecision Counter.
Proof. solve_decision. Defined.

(** The virtual methods of the cache, with the arguments that matter here. *)
Inductive Call :=
  | ForwardReadData (addr size requesterId : Z)
  | ForwardWriteData (addr size requesterId : Z)
  | ForwardEvict (addr size requesterId : Z)
  | BackwardRead (addr size requesterId : Z) (sharerIds : gset Z)
  | BackInvalidate (addr : Z) (sharerIds : gset Z)
  | SendGetS (addr size requesterId : Z)
  | SendGetM (addr size requesterId : Z)
  | SendPutS (addr size requesterId : Z)
  | SendPutM (addr size requesterId : Z)
  | SendFwdGetS (addr size requesterId : Z) (targetIds : gset Z)
  | SendFwdGetM (addr size requesterId : Z) (targetIds : gset Z)
  | SendPutI (addr size requesterId : Z) (targetIds : gset Z).

#[global] Instance Call_eq_dec : EqDecision Call.
Proof. solve_decision. Defined.

Inductive Event := Called (c : Call) | NotifiedEviction (handle : Z).

Record cache := mkCache {
  CacheLines : list CacheSet;
  Directory : gmap Z DirectoryEntry;
  Sharers : gmap Z (gset Z);
  counters : Counter → Z;
  trace : list Event
}.

Definition set_CacheLines (v : list CacheSet) (s : cache) : cache :=
  mkCache v (Directory s) (Sharers s) (counters s) (trace s).
Definition set_Directory (v : gmap Z DirectoryEntry) (s : cache) : cache :=
  mkCache (CacheLines s) v (Sharers s) (counters s) (trace s).
Definition set_Sharers (v : gmap Z (gset Z)) (s : cache) : cache :=
  mkCache (CacheLines s) (Directory s) v (counters s) (trace s).
Definition count (c : Counter) (s : cache) : cache :=
  mkCache (CacheLines s) (Directory s) (Sharers s)
    (fun d => if decide (d = c) then u64 (counters s d + 1) else counters s d) (trace s).
Definition emit (e : Event) (s : cache) : cache :=
  mkCache (CacheLines s) (Directory s) (Sharers s) (counters s) (trace s ++ [e]).

(** The constructor: every set is built with the line size and the associativity. *)
Definition new_cache (cfg : config) : result cache :=
  result_bind (newCacheSet (CacheLineSize cfg) (Assoc cfg) (ReplPolicy cfg)) (fun set =>
  Ok (mkCache (replicate (Z.to_nat (NbSets cfg)) set) ∅ ∅ (fun _ => 0) [])).

(** ** Operations *)

Section operations.
Context (cfg : config).
Context (respond : Call → result tlm_response_status).

(** [if (b) stat = m;] *)
Definition assign_if {A} (b : bool) (m : M cache A) (stat : A) : M cache A :=
  if b then m else m_ret stat.

Definition send (c : Call) : M cache tlm_response_status :=
  m_modify (emit (Called c)) ;;; m_lift (respond c).

(** Fields of an address. *)
Definition offset_of (addr : Z) : Z := Z.land addr (OffsetMask cfg).
Definition index_of (addr : Z) : Z := Z.land (Z.shiftr addr (IndexShift cfg)) (IndexMask cfg).
Definition tag_of (addr : Z) : Z := Z.land (Z.shiftr addr (TagShift cfg)) (TagMask cfg).

(** A [CacheLineType*]: the set and the way it points to, if it was set. *)
Definition line_ptr : Type := Z * option Z.

(** [set.accessSet (tag, &line)]; the tag is narrowed to 32 bits. *)
Definition access_set (index tag : Z) : M cache (bool * line_ptr) :=
  s <- m_get ;;
  set <- m_lift (vec_get (CacheLines s) index) ;;
  match accessSet (u32 tag) set with
  | (Ok (isHit, way), set') =>
      m_modify (set_CacheLines (<[Z.to_nat index := set']> (CacheLines s))) ;;;
      m_ret (isHit, (index, way))
  | (Err e, set') =>
      m_modify (set_CacheLines (<[Z.to_nat index := set']> (CacheLines s))) ;;; m_throw e
  end.

Definition deref (p : line_ptr) : M cache Z :=
  match p.2 with
  | Some way => m_ret way
  | None => m_throw (UndefinedBehaviour "dereference of an unset line pointer")
  end.

Definition getLine (p : line_ptr) : M cache CacheLine :=
  way <- deref p ;;
  s <- m_get ;;
  set <- m_lift (vec_get (CacheLines s) p.1) ;;
  w <- m_lift (vec_get (Lines set) way) ;;
  m_ret (line w).

Definition updLine (p : line_ptr) (f : CacheLine → CacheLine) : M cache unit :=
  way <- deref p ;;
  s <- m_get ;;
  set <- m_lift (vec_get (CacheLines s) p.1) ;;
  w <- m_lift (vec_get (Lines set) way) ;;
  ls <- m_lift (vec_set (Lines set) way (mkLineWrapper (f (line w)) (repl_data w))) ;;
  m_modify (set_CacheLines (<[Z.to_nat p.1 := setLines ls set]> (CacheLines s))).

(** [Directory.find (a) != Directory.end ()] and [Directory[a]]. *)
Definition in_directory (a : Z) : M cache bool :=
  m_gets (fun s => bool_decide (is_Some (Directory s !! a))).
Definition dir_at (a : Z) : M cache DirectoryEntry :=
  s <- m_get ;;
  match Directory s !! a with
  | Some e => m_ret e
  | None => m_modify (set_Directory (<[a := default_entry]> (Directory s))) ;;; m_ret default_entry
  end.
Definition dir_set (a : Z) (e : DirectoryEntry) : M cache unit :=
  m_modify (fun s => set_Directory (<[a := e]> (Directory s)) s).

(** [Sharers[a]]. *)
Definition sharers_at (a : Z) : M cache (gset Z) :=
  s <- m_get ;;
  match Sharers s !! a with
  | Some e => m_ret e
  | None => m_modify (set_Sharers (<[a := ∅]> (Sharers s))) ;;; m_ret ∅
  end.
Definition sharers_set (a : Z) (e : gset Z) : M cache unit :=
  m_modify (fun s => set_Sharers (<[a := e]> (Sharers s)) s).
(** [Sharers.find (a) != Sharers.end () && Sharers[a].size () != 0]. *)
Definition has_sharers (a : Z) : M cache bool :=
  m_gets (fun s => match Sharers s !! a with Some e => negb (bool_decide (e = ∅)) | None => false end).

(** [cacheMemcpy]: one of the two pointers is an offset of a line's null data pointer. *)
Definition cacheMemcpy : M cache unit :=
  if DataSupport cfg then m_throw (UndefinedBehaviour "memcpy through a null pointer") else m_ret tt.

(** The notification of an eviction on a miss. *)
Definition notify_eviction (isHit : bool) (line : line_ptr) : M cache unit :=
  if isHit then m_ret tt else
  l <- getLine line ;;
  m_when (bool_decide (State l = Shared) && NotifyEvictions cfg)
    (m_modify (emit (NotifiedEviction (handle l)))).

Definition is_state (l : CacheLine) (st : CoherenceState) : bool := bool_decide (State l = st).

(** [line->setNewLine (a, tag); line->handle = handle;] *)
Definition prepare_line (line : line_ptr) (a tag hdl : Z) : M cache unit :=
  updLine line (fun l => setHandle hdl (setNewLine a tag l)).

(** *** Non-coherent caches *)

(** The body of the [switch] of [accessNonCoherentCache]. *)
Definition nonCoherentSwitch (accessMode : CoherenceCommand) (isHit : bool) (line : line_ptr)
    (addr accessSize requesterId initiatorId : Z) (stat : tlm_response_status) :
    M cache tlm_response_status :=
  l <- getLine line ;;
  let la := Address l in
  match accessMode with
  | Read =>
      m_assert (negb (bool_decide (InclusionOfHigher cfg = Exclusive)) || isHit) ;;;
      sh <- sharers_at la ;; sharers_set la ({[initiatorId]} ∪ sh) ;;;
      stat <- (if negb isHit then
                 st <- send (ForwardReadData la (CacheLineSize cfg) requesterId) ;;
                 updLine line (setState Shared) ;;; m_ret st
               else if bool_decide (InclusionOfHigher cfg = Exclusive) then
                 updLine line (setState Invalid) ;;; m_ret stat
               else m_ret stat) ;;
      cacheMemcpy ;;; m_modify (count NReads) ;;; m_ret stat
  | Write =>
      sh <- sharers_at la ;; sharers_set la (sh ∖ {[initiatorId]}) ;;;
      stat <- (if bool_decide (InclusionOfHigher cfg = Exclusive) && negb isHit then
                 b <- has_sharers la ;;
                 if b then updLine line (setState Invalid) ;;; m_ret stat
                 else
                   st <- send (ForwardReadData la (CacheLineSize cfg) requesterId) ;;
                   cacheMemcpy ;;; updLine line (setState Modified) ;;; m_ret st
               else if bool_decide (WritePolicy cfg = WThrough) then
                 send (ForwardWriteData addr accessSize requesterId)
               else
                 st <- assign_if (negb isHit)
                         (send (ForwardReadData la (CacheLineSize cfg) requesterId)) stat ;;
                 cacheMemcpy ;;; updLine line (setState Modified) ;;; m_ret st) ;;
      stat <- assign_if (bool_decide (InclusionOfLower cfg = Inclusive))
                (send (ForwardWriteData la (CacheLineSize cfg) requesterId)) stat ;;
      m_modify (count NWrites) ;;; m_ret stat
  | Evict =>
      m_assert (bool_decide (InclusionOfHigher cfg = Exclusive)) ;;;
      cacheMemcpy ;;;
      sh <- sharers_at la ;; sharers_set la (sh ∖ {[initiatorId]}) ;;;
      m_assert (negb isHit || is_state l Modified) ;;;
      (if bool_decide (sh ∖ {[initiatorId]} = ∅) then updLine line (setState Shared)
       else updLine line (setState Invalid)) ;;;
      m_modify (count NEvicts) ;;; m_ret stat
  | _ => m_throw AssertionFailed
  end.

(** What is done to the victim of a miss and to the requested line before the
    [switch]: write-back, eviction, back-invalidation, new line. *)
Definition nonCoherentPrepare (isHit : bool) (line : line_ptr) (addr requesterId hdl : Z)
    (stat : tlm_response_status) : M cache tlm_response_status :=
  l <- getLine line ;;
  m_assert (negb isHit || (bool_decide (Address l ≤ addr) &&
              bool_decide (u64 (addr - Address l) < CacheLineSize cfg))) ;;;
  stat <- assign_if (negb isHit && is_state l Modified && bool_decide (WritePolicy cfg = WBack))
            (m_modify (count WriteBacks) ;;;
             st <- send (ForwardWriteData (Address l) (CacheLineSize cfg) requesterId) ;;
             updLine line (setState Invalid) ;;; m_ret st) stat ;;
  l <- getLine line ;;
  stat <- assign_if (negb isHit && is_state l Shared && bool_decide (InclusionOfLower cfg = Exclusive))
            (st <- send (ForwardEvict (Address l) (CacheLineSize cfg) requesterId) ;;
             m_modify (count EvictBacks) ;;; m_ret st) stat ;;
  stat <- (if bool_decide (InclusionOfHigher cfg = Inclusive) && negb isHit then
             sh <- sharers_at (Address l) ;;
             assign_if (negb (bool_decide (sh = ∅)))
               (st <- send (BackInvalidate (Address l) sh) ;;
                sharers_set (Address l) ∅ ;;; m_modify (count NBackInvals) ;;; m_ret st) stat
           else m_ret stat) ;;
  m_when (negb isHit && bool_decide (AllocPolicy cfg = WAllocate))
    (prepare_line line (u64 (addr - offset_of addr)) (tag_of addr) hdl) ;;;
  m_ret stat.

(** [accessNonCoherentCache]: a request that crosses the end of a line recurses on
    the rest of it. *)
Fixpoint accessNonCoherentCache (fuel : nat) (accessMode : CoherenceCommand)
    (size addr requesterId initiatorId hdl : Z) : M cache tlm_response_status :=
  match fuel with
  | O => m_throw OutOfFuel
  | S fuel =>
    r <- access_set (index_of addr) (tag_of addr) ;;
    let isHit := r.1 in
    let line := r.2 in
    m_when isHit (l <- getLine line ;; m_assert (negb (is_state l Invalid))) ;;;
    m_when ((bool_decide (Level cfg = 1) &&
              (bool_decide (accessMode = Read) || bool_decide (accessMode = Write))) ||
            (negb (bool_decide (Level cfg = 1)) && bool_decide (accessMode = Read)))
      (m_modify (count (if isHit then HitCount else MissCount))) ;;;
    notify_eviction isHit line ;;;
    match accessMode with
    | Invalidate =>
        m_modify (count NTotalInvals) ;;;
        if isHit then
          l <- getLine line ;;
          stat <- assign_if (is_state l Modified)
                    (send (ForwardWriteData (Address l) (CacheLineSize cfg) requesterId)) TLM_OK_RESPONSE ;;
          updLine line (setState Invalid) ;;; m_modify (count NInvals) ;;; m_ret stat
        else m_ret TLM_OK_RESPONSE
    | ReadBack => m_assert isHit ;;; m_modify (count ReadBacks) ;;; m_ret TLM_OK_RESPONSE
    | _ =>
        if negb isHit && bool_decide (InclusionOfHigher cfg = Exclusive) && bool_decide (accessMode = Read)
        then
          m_assert (negb (bool_decide (Level cfg = 1))) ;;;
          m_modify (count NReads) ;;;
          b <- has_sharers addr ;;
          stat <- (if b then
                     sh <- sharers_at addr ;; send (BackwardRead addr (CacheLineSize cfg) requesterId sh)
                   else send (ForwardReadData addr (CacheLineSize cfg) requesterId)) ;;
          sh <- sharers_at addr ;; sharers_set addr ({[initiatorId]} ∪ sh) ;;; m_ret stat
        else
          stat <- nonCoherentPrepare isHit line addr requesterId hdl TLM_OK_RESPONSE ;;
          l <- getLine line ;;
          let alignment := bool_decide (CacheLineSize cfg < u64 (u64 (addr - Address l) + size)) in
          let accessSize := if alignment then u64 (CacheLineSize cfg - u64 (addr - Address l)) else size in
          m_assert (bool_decide (accessSize ≤ CacheLineSize cfg)) ;;;
          stat <- nonCoherentSwitch accessMode isHit line addr accessSize requesterId initiatorId stat ;;
          if alignment then
            accessNonCoherentCache fuel accessMode (u64 (size - accessSize)) (u64 (addr + accessSize))
              requesterId initiatorId hdl
          else m_ret stat
    end
  end.

(** *** The private L1 of a CPU in coherent mode *)

(** Write-back of the victim and preparation of the new line. *)
Definition cpuPrepare (isHit : bool) (line : line_ptr) (addr requesterId hdl : Z)
    (stat : tlm_response_status) : M cache tlm_response_status :=
  l <- getLine line ;;
  stat <- assign_if (negb isHit && negb (is_state l Invalid) && bool_decide (WritePolicy cfg = WBack))
            (m_modify (count WriteBacks) ;;;
             st <- (match State l with
                    | Modified => send (SendPutM (Address l) (CacheLineSize cfg) requesterId)
                    | Shared => send (SendPutS (Address l) (CacheLineSize cfg) requesterId)
                    | Invalid => m_throw AssertionFailed
                    end) ;;
             updLine line (setState Invalid) ;;; m_ret st) stat ;;
  l <- getLine line ;;
  m_when (negb isHit && is_state l Shared && bool_decide (InclusionOfLower cfg = Exclusive))
    (m_assert false) ;;;
  m_when (negb isHit && bool_decide (AllocPolicy cfg = WAllocate))
    (prepare_line line (u64 (addr - offset_of addr)) (tag_of addr) hdl) ;;;
  m_ret stat.

Fixpoint accessCpuCache (fuel : nat) (accessMode : CoherenceCommand)
    (size addr requesterId initiatorId hdl : Z) : M cache tlm_response_status :=
  match fuel with
  | O => m_throw OutOfFuel
  | S fuel =>
    r <- access_set (index_of addr) (tag_of addr) ;;
    let isHit := r.1 in
    let line := r.2 in
    (match accessMode with
     | Read => m_modify (count (if isHit then HitCount else MissCount))
     | Write =>
         if isHit then
           l <- getLine line ;; m_modify (count (if is_state l Modified then HitCount else MissCount))
         else m_modify (count MissCount)
     | _ => m_ret tt
     end) ;;;
    notify_eviction isHit line ;;;
    m_when isHit
      (l <- getLine line ;;
       m_assert (bool_decide (Address l ≤ addr) && bool_decide (u64 (addr - Address l) < CacheLineSize cfg))) ;;;
    match accessMode with
    | ReadBack => m_throw AssertionFailed
    | FwdGetS =>
        m_assert (negb (bool_decide (initiatorId = NULL_IDX))) ;;;
        m_assert isHit ;;;
        updLine line (setState Shared) ;;; m_modify (count NFwdGetS) ;;; m_ret TLM_OK_RESPONSE
    | FwdGetM =>
        m_assert (negb (bool_decide (initiatorId = NULL_IDX))) ;;;
        m_assert isHit ;;;
        updLine line (setState Invalid) ;;; m_modify (count NFwdGetM) ;;; m_ret TLM_OK_RESPONSE
    | PutI =>
        m_assert isHit ;;;
        l <- getLine line ;; m_assert (is_state l Shared) ;;;
        updLine line (setState Invalid) ;;; m_modify (count NPutI) ;;; m_ret TLM_OK_RESPONSE
    | _ =>
        stat <- cpuPrepare isHit line addr requesterId hdl TLM_OK_RESPONSE ;;
        l <- getLine line ;;
        m_assert (bool_decide (u64 (addr - offset_of addr) = Address l)) ;;;
        let alignment := bool_decide (CacheLineSize cfg < u64 (u64 (addr - Address l) + size)) in
        let accessSize := if alignment then u64 (CacheLineSize cfg - u64 (addr - Address l)) else size in
        stat <- (match accessMode with
                 | Read =>
                     st <- assign_if (negb isHit)
                             (st <- send (SendGetS (u64 (addr - offset_of addr)) (CacheLineSize cfg) requesterId) ;;
                              updLine line (setState Shared) ;;; m_ret st) stat ;;
                     m_modify (count NReads) ;;; m_ret st
                 | Write =>
                     st <- assign_if (negb (is_state l Modified))
                             (st <- send (SendGetM (Address l) (CacheLineSize cfg) requesterId) ;;
                              updLine line (setState Modified) ;;; m_ret st) stat ;;
                     m_modify (count NWrites) ;;; m_ret st
                 | _ => m_throw AssertionFailed
                 end) ;;
        if alignment then
          accessCpuCache fuel accessMode (u64 (size - accessSize)) (u64 (addr + accessSize))
            requesterId initiatorId hdl
        else m_ret stat
    end
  end.

(** *** The private L2 of a CPU in coherent mode *)

Definition is_dstate (e : DirectoryEntry) (st : CoherenceState) : bool := bool_decide (DState e = st).
Definition no_sharers (e : DirectoryEntry) : bool := bool_decide (DSharers e = ∅).
Definition owner_is (e : DirectoryEntry) (i : Z) : bool := bool_decide (Owner e = i).

Definition invalid_entry : DirectoryEntry := mkEntry Invalid NULL_IDX ∅.
Definition shared_entry (ids : gset Z) : DirectoryEntry := mkEntry Shared NULL_IDX ids.
Definition modified_entry (i : Z) : DirectoryEntry := mkEntry Modified i ∅.

(** The consistency test of a directory entry at the end of [accessL2Cache] and
    [accessCoherentHome]. *)
Definition entry_ok (e : DirectoryEntry) : bool :=
  (is_dstate e Invalid && owner_is e NULL_IDX && no_sharers e) ||
  (is_dstate e Shared && owner_is e NULL_IDX && negb (no_sharers e)) ||
  (is_dstate e Modified && negb (owner_is e NULL_IDX) && no_sharers e).

Definition check_entry (line : line_ptr) (addr : Z) : M cache unit :=
  l <- getLine line ;;
  b <- in_directory (Address l) ;;
  m_when b (e <- dir_at addr ;; m_assert (entry_ok e)).

(** The tests at the beginning of [accessL2Cache] and [accessCoherentHome]. *)
Definition check_request (isHit : bool) (line : line_ptr) (size addr : Z) : M cache unit :=
  m_assert (bool_decide (offset_of addr = 0)) ;;;
  m_assert (bool_decide (size = CacheLineSize cfg)) ;;;
  m_when isHit
    (l <- getLine line ;;
     m_assert (bool_decide (Address l ≤ addr) && bool_decide (u64 (addr - Address l) < CacheLineSize cfg)) ;;;
     m_assert (bool_decide (addr = Address l)) ;;;
     m_when (is_state l Modified)
       (e <- dir_at addr ;; m_assert (negb (is_dstate e Modified)))).

(** The counting of hits and misses of [GetS] and [GetM]. *)
Definition count_request (accessMode : CoherenceCommand) (isHit : bool) (line : line_ptr) : M cache unit :=
  match accessMode with
  | GetS => m_modify (count (if isHit then HitCount else MissCount))
  | GetM =>
      if isHit then
        l <- getLine line ;; m_modify (count (if is_state l Modified then HitCount else MissCount))
      else m_modify (count MissCount)
  | _ => m_ret tt
  end.

(** The first [switch] of [accessL2Cache]: requests that do not allocate. *)
Definition l2FwdGetS (isHit : bool) (line : line_ptr) (addr requesterId initiatorId : Z) :
    M cache tlm_response_status :=
  m_assert (negb (bool_decide (initiatorId = NULL_IDX))) ;;;
  b <- in_directory addr ;; m_assert b ;;;
  e <- dir_at addr ;;
  m_assert (isHit || negb (is_dstate e Invalid)) ;;;
  dirty <- (if isHit then l <- getLine line ;; m_ret (is_state l Modified) else m_ret false) ;;
  m_assert (bool_decide (InclusionOfLower cfg = Exclusive) || (dirty || is_dstate e Modified)) ;;;
  m_when dirty (updLine line (setState Shared)) ;;;
  stat <- assign_if (negb isHit && is_dstate e Shared)
            (send (SendFwdGetS addr (CacheLineSize cfg) requesterId (DSharers e))) TLM_OK_RESPONSE ;;
  stat <- assign_if (is_dstate e Modified)
            (st <- send (SendFwdGetS addr (CacheLineSize cfg) requesterId {[Owner e]}) ;;
             dir_set addr (shared_entry {[Owner e]}) ;;; m_ret st) stat ;;
  e <- dir_at addr ;;
  m_assert (negb (is_dstate e Modified)) ;;;
  m_assert (owner_is e NULL_IDX) ;;;
  m_when isHit (l <- getLine line ;; m_assert (is_state l Shared)) ;;;
  m_modify (count NFwdGetS) ;;; m_ret stat.

Definition l2FwdGetM (isHit : bool) (line : line_ptr) (addr requesterId initiatorId : Z) :
    M cache tlm_response_status :=
  m_assert (negb (bool_decide (initiatorId = NULL_IDX))) ;;;
  b <- in_directory addr ;; m_assert b ;;;
  dirty <- (if isHit then l <- getLine line ;; m_ret (is_state l Modified) else m_ret false) ;;
  e <- dir_at addr ;;
  m_assert (dirty || is_dstate e Modified) ;;;
  m_when isHit (updLine line (setState Invalid)) ;;;
  stat <- (match DState e with
           | Shared =>
               st <- send (SendFwdGetM addr (CacheLineSize cfg) requesterId (DSharers e)) ;;
               dir_set addr invalid_entry ;;; m_ret st
           | Modified =>
               st <- send (SendFwdGetM addr (CacheLineSize cfg) requesterId {[Owner e]}) ;;
               dir_set addr invalid_entry ;;; m_ret st
           | Invalid => m_ret TLM_OK_RESPONSE
           end) ;;
  m_modify (count NFwdGetM) ;;;
  e <- dir_at addr ;;
  m_assert (is_dstate e Invalid) ;;; m_assert (owner_is e NULL_IDX) ;;; m_assert (no_sharers e) ;;;
  m_when isHit (l <- getLine line ;; m_assert (is_state l Invalid)) ;;;
  m_ret stat.

Definition l2PutS (isHit : bool) (addr initiatorId : Z) : M cache tlm_response_status :=
  b <- in_directory addr ;; m_assert b ;;;
  e <- dir_at addr ;;
  m_assert (is_dstate e Shared) ;;;
  let sh := DSharers e ∖ {[initiatorId]} in
  dir_set addr (mkEntry (DState e) (Owner e) sh) ;;;
  stat <- assign_if (bool_decide (sh = ∅))
            (dir_set addr invalid_entry ;;;
             assign_if (negb isHit) (send (SendPutS addr (CacheLineSize cfg) (Id cfg))) TLM_OK_RESPONSE)
            TLM_OK_RESPONSE ;;
  e <- dir_at addr ;;
  m_assert (negb (is_dstate e Modified)) ;;; m_assert (owner_is e NULL_IDX) ;;;
  m_modify (count NPutS) ;;; m_ret stat.

Definition l2PutI (isHit : bool) (line : line_ptr) (addr requesterId : Z) : M cache tlm_response_status :=
  b <- in_directory addr ;; m_assert b ;;;
  clean <- (if isHit then l <- getLine line ;; m_ret (is_state l Shared) else m_ret false) ;;
  e <- dir_at addr ;;
  m_assert (clean || is_dstate e Shared) ;;;
  m_when isHit (l <- getLine line ;; m_assert (negb (is_state l Modified) && negb (is_dstate e Modified))) ;;;
  m_when isHit (updLine line (setState Invalid)) ;;;
  stat <- assign_if (is_dstate e Shared)
            (st <- send (SendPutI addr (CacheLineSize cfg) requesterId (DSharers e)) ;;
             dir_set addr invalid_entry ;;; m_ret st) TLM_OK_RESPONSE ;;
  m_modify (count NPutI) ;;;
  e <- dir_at addr ;;
  m_assert (is_dstate e Invalid) ;;; m_assert (owner_is e NULL_IDX) ;;; m_assert (no_sharers e) ;;;
  m_when isHit (l <- getLine line ;; m_assert (is_state l Invalid)) ;;;
  m_ret stat.

(** Write-back of the victim (clean or dirty) and preparation of the new line. *)
Definition l2Prepare (isHit : bool) (line : line_ptr) (addr hdl : Z) (stat : tlm_response_status) :
    M cache tlm_response_status :=
  l <- getLine line ;;
  stat <- assign_if (negb isHit && negb (is_state l Invalid) && bool_decide (WritePolicy cfg = WBack))
            (b <- in_directory (Address l) ;; m_assert b ;;;
             m_modify (count WriteBacks) ;;;
             e <- dir_at (Address l) ;;
             st <- (match DState e with
                    | Invalid =>
                        if is_state l Shared then send (SendPutS (Address l) (CacheLineSize cfg) (Id cfg))
                        else send (SendPutM (Address l) (CacheLineSize cfg) (Id cfg))
                    | Shared =>
                        assign_if (is_state l Modified)
                          (send (SendGetS (Address l) (CacheLineSize cfg) (Id cfg))) stat
                    | Modified => m_ret stat
                    end) ;;
             updLine line (setState Invalid) ;;; m_ret st) stat ;;
  m_when (negb isHit && bool_decide (AllocPolicy cfg = WAllocate))
    (prepare_line line addr (tag_of addr) hdl ;;;
     l <- getLine line ;; m_assert (is_state l Invalid)) ;;;
  m_ret stat.

(** The cases of the second [switch]; [la] is the address of the line. *)
Definition l2PutM (line : line_ptr) (la initiatorId : Z) (stat : tlm_response_status) :
    M cache tlm_response_status :=
  b <- in_directory la ;; m_assert b ;;;
  e <- dir_at la ;;
  match DState e with
  | Invalid | Shared => m_throw AssertionFailed
  | Modified =>
      m_assert (bool_decide (initiatorId = Owner e)) ;;;
      updLine line (setState Modified) ;;; dir_set la invalid_entry
  end ;;;
  m_modify (count NPutM) ;;; m_ret stat.

Definition l2GetS (isHit : bool) (line : line_ptr) (la addr requesterId initiatorId : Z)
    (stat : tlm_response_status) : M cache tlm_response_status :=
  b <- in_directory la ;;
  stat <- (if negb b then
             m_assert (negb isHit) ;;;
             st <- send (SendGetS addr (CacheLineSize cfg) (Id cfg)) ;;
             updLine line (setState Shared) ;;; dir_set la (shared_entry {[initiatorId]}) ;;; m_ret st
           else
             e <- dir_at la ;;
             match DState e with
             | Invalid =>
                 st <- assign_if (negb isHit)
                         (st <- send (SendGetS addr (CacheLineSize cfg) (Id cfg)) ;;
                          updLine line (setState Shared) ;;; m_ret st) stat ;;
                 dir_set la (shared_entry {[initiatorId]}) ;;; m_ret st
             | Shared =>
                 m_assert (negb (bool_decide (initiatorId ∈ DSharers e))) ;;;
                 st <- assign_if (negb isHit)
                         (st <- send (SendFwdGetS la (CacheLineSize cfg) requesterId (DSharers e)) ;;
                          updLine line (setState Shared) ;;; m_ret st) stat ;;
                 dir_set la (mkEntry (DState e) (Owner e) ({[initiatorId]} ∪ DSharers e)) ;;; m_ret st
             | Modified =>
                 m_assert (negb (bool_decide (initiatorId = Owner e))) ;;;
                 st <- send (SendFwdGetS la (CacheLineSize cfg) requesterId {[Owner e]}) ;;
                 dir_set la (shared_entry {[initiatorId; Owner e]}) ;;;
                 updLine line (setState Modified) ;;; m_ret st
             end) ;;
  e <- dir_at la ;;
  m_assert (is_dstate e Shared) ;;; m_assert (owner_is e NULL_IDX) ;;; m_assert (negb (no_sharers e)) ;;;
  m_modify (count NGetS) ;;; m_ret stat.

Definition l2GetM (isHit : bool) (line : line_ptr) (la addr requesterId initiatorId : Z)
    (stat : tlm_response_status) : M cache tlm_response_status :=
  b <- in_directory la ;;
  l <- getLine line ;;
  stat <- (if negb b then
             m_assert (negb isHit) ;;;
             st <- send (SendGetM addr (CacheLineSize cfg) (Id cfg)) ;;
             dir_set la (modified_entry initiatorId) ;;; m_ret st
           else
             e <- dir_at la ;;
             match DState e with
             | Invalid =>
                 st <- assign_if (negb (is_state l Modified))
                         (send (SendGetM addr (CacheLineSize cfg) (Id cfg))) stat ;;
                 dir_set la (modified_entry initiatorId) ;;; m_ret st
             | Shared =>
                 st <- assign_if (negb (is_state l Modified))
                         (send (SendGetM addr (CacheLineSize cfg) (Id cfg))) stat ;;
                 let sh := DSharers e ∖ {[initiatorId]} in
                 dir_set la (mkEntry (DState e) (Owner e) sh) ;;;
                 st <- assign_if (negb (bool_decide (sh = ∅)))
                         (send (SendPutI addr (CacheLineSize cfg) requesterId sh)) st ;;
                 dir_set la (modified_entry initiatorId) ;;; m_ret st
             | Modified =>
                 m_assert (negb (bool_decide (initiatorId = Owner e))) ;;;
                 st <- send (SendFwdGetM la (CacheLineSize cfg) requesterId {[Owner e]}) ;;
                 dir_set la (mkEntry (DState e) initiatorId (DSharers e)) ;;; m_ret st
             end) ;;
  updLine line (setState Shared) ;;;
  e <- dir_at la ;;
  m_assert (is_dstate e Modified) ;;; m_assert (owner_is e initiatorId) ;;; m_assert (no_sharers e) ;;;
  m_modify (count NGetM) ;;; m_ret stat.

Definition accessL2Cache (accessMode : CoherenceCommand) (size addr requesterId initiatorId hdl : Z) :
    M cache tlm_response_status :=
  r <- access_set (index_of addr) (tag_of addr) ;;
  let isHit := r.1 in
  let line := r.2 in
  check_request isHit line size addr ;;;
  count_request accessMode isHit line ;;;
  notify_eviction isHit line ;;;
  match accessMode with
  | FwdGetS => l2FwdGetS isHit line addr requesterId initiatorId
  | FwdGetM => l2FwdGetM isHit line addr requesterId initiatorId
  | PutS => l2PutS isHit addr initiatorId
  | PutI => l2PutI isHit line addr requesterId
  | _ =>
      stat <- l2Prepare isHit line addr hdl TLM_OK_RESPONSE ;;
      l <- getLine line ;;
      stat <- (match accessMode with
               | PutM => l2PutM line (Address l) initiatorId stat
               | GetS => l2GetS isHit line (Address l) addr requesterId initiatorId stat
               | GetM => l2GetM isHit line (Address l) addr requesterId initiatorId stat
               | _ => m_throw AssertionFailed
               end) ;;
      check_entry line addr ;;; m_ret stat
  end.

(** *** The home directory *)

(** A [GetS] or [GetM] that misses in an exclusive home allocates nothing. *)
Definition homeMissGetS (addr requesterId initiatorId : Z) : M cache tlm_response_status :=
  b <- in_directory addr ;;
  stat <- (if negb b then
             st <- send (ForwardReadData addr (CacheLineSize cfg) requesterId) ;;
             dir_set addr (shared_entry {[initiatorId]}) ;;; m_ret st
           else
             e <- dir_at addr ;;
             match DState e with
             | Invalid =>
                 st <- send (ForwardReadData addr (CacheLineSize cfg) requesterId) ;;
                 dir_set addr (shared_entry {[initiatorId]}) ;;; m_ret st
             | Shared =>
                 st <- send (SendFwdGetS addr (CacheLineSize cfg) requesterId (DSharers e)) ;;
                 dir_set addr (mkEntry (DState e) (Owner e) ({[initiatorId]} ∪ DSharers e)) ;;; m_ret st
             | Modified =>
                 st <- assign_if (negb (owner_is e initiatorId))
                         (send (SendFwdGetS addr (CacheLineSize cfg) requesterId {[Owner e]}))
                         TLM_OK_RESPONSE ;;
                 dir_set addr (shared_entry {[initiatorId; Owner e]}) ;;; m_ret st
             end) ;;
  e <- dir_at addr ;;
  m_assert (is_dstate e Shared) ;;; m_assert (owner_is e NULL_IDX) ;;; m_assert (negb (no_sharers e)) ;;;
  m_modify (count NGetS) ;;; m_ret stat.

Definition homeMissGetM (addr requesterId initiatorId : Z) : M cache tlm_response_status :=
  b <- in_directory addr ;;
  stat <- (if negb b then
             st <- send (ForwardReadData addr (CacheLineSize cfg) requesterId) ;;
             dir_set addr (modified_entry initiatorId) ;;; m_ret st
           else
             e <- dir_at addr ;;
             match DState e with
             | Invalid =>
                 st <- send (ForwardReadData addr (CacheLineSize cfg) requesterId) ;;
                 dir_set addr (modified_entry initiatorId) ;;; m_ret st
             | Shared =>
                 m_assert (negb (no_sharers e)) ;;;
                 let sh := DSharers e ∖ {[initiatorId]} in
                 dir_set addr (mkEntry (DState e) (Owner e) sh) ;;;
                 st <- assign_if (negb (bool_decide (sh = ∅)))
                         (send (SendPutI addr (CacheLineSize cfg) requesterId sh)) TLM_OK_RESPONSE ;;
                 dir_set addr (modified_entry initiatorId) ;;; m_ret st
             | Modified =>
                 m_assert (negb (owner_is e NULL_IDX)) ;;;
                 m_assert (negb (owner_is e initiatorId)) ;;;
                 st <- send (SendFwdGetM addr (CacheLineSize cfg) requesterId {[Owner e]}) ;;
                 dir_set addr (mkEntry (DState e) initiatorId (DSharers e)) ;;; m_ret st
             end) ;;
  e <- dir_at addr ;;
  m_assert (is_dstate e Modified) ;;; m_assert (owner_is e initiatorId) ;;; m_assert (no_sharers e) ;;;
  m_modify (count NGetM) ;;; m_ret stat.

(** Write-back of a dirty victim and preparation of the new line. *)
Definition homePrepare (isHit : bool) (line : line_ptr) (addr requesterId hdl : Z)
    (stat : tlm_response_status) : M cache tlm_response_status :=
  l <- getLine line ;;
  stat <- assign_if (negb isHit && is_state l Modified && bool_decide (WritePolicy cfg = WBack))
            (m_modify (count WriteBacks) ;;;
             send (ForwardWriteData (Address l) (CacheLineSize cfg) requesterId)) stat ;;
  m_when (negb isHit && bool_decide (AllocPolicy cfg = WAllocate))
    (prepare_line line addr (tag_of addr) hdl) ;;;
  l <- getLine line ;;
  m_assert (bool_decide (addr = Address l)) ;;; m_ret stat.

Definition exclusive : bool := bool_decide (InclusionOfHigher cfg = Exclusive).

(** After [homePrepare] the address of the line is [addr]. *)
Definition homePutS (isHit : bool) (line : line_ptr) (addr initiatorId : Z) (stat : tlm_response_status) :
    M cache tlm_response_status :=
  b <- in_directory addr ;; m_assert b ;;;
  e <- dir_at addr ;;
  m_assert (is_dstate e Shared) ;;;
  m_assert (negb (no_sharers e)) ;;;
  m_assert (owner_is e NULL_IDX) ;;;
  m_assert (negb exclusive || negb isHit) ;;;
  let sh := DSharers e ∖ {[initiatorId]} in
  dir_set addr (mkEntry (DState e) (Owner e) sh) ;;;
  m_when (bool_decide (sh = ∅))
    (dir_set addr invalid_entry ;;; m_when exclusive (updLine line (setState Shared))) ;;;
  e <- dir_at addr ;;
  m_assert (negb (is_dstate e Modified)) ;;; m_assert (owner_is e NULL_IDX) ;;;
  m_modify (count NPutS) ;;; m_ret stat.

Definition homePutM (line : line_ptr) (addr initiatorId : Z) (stat : tlm_response_status) :
    M cache tlm_response_status :=
  updLine line (setState Modified) ;;;
  b <- in_directory addr ;; m_assert b ;;;
  e <- dir_at addr ;;
  match DState e with
  | Invalid | Shared => m_throw AssertionFailed
  | Modified =>
      m_assert (negb (owner_is e NULL_IDX)) ;;;
      m_assert (no_sharers e) ;;;
      m_assert (bool_decide (initiatorId = Owner e)) ;;;
      dir_set addr invalid_entry
  end ;;;
  m_modify (count NPutM) ;;; m_ret stat.

Definition homeGetS (isHit : bool) (line : line_ptr) (addr requesterId initiatorId : Z)
    (stat : tlm_response_status) : M cache tlm_response_status :=
  b <- in_directory addr ;;
  l <- getLine line ;;
  let fetch := st <- send (ForwardReadData addr (CacheLineSize cfg) requesterId) ;;
               updLine line (setState Shared) ;;; m_ret st in
  let clean_and_drop :=
    st <- assign_if (is_state l Modified)
            (send (ForwardWriteData addr (CacheLineSize cfg) requesterId)) stat ;;
    updLine line (setState Invalid) ;;; m_ret st in
  stat <- (if negb b then
             m_assert (negb isHit) ;;; m_assert (negb exclusive) ;;;
             st <- fetch ;;
             dir_set addr (shared_entry {[initiatorId]}) ;;; m_ret st
           else
             e <- dir_at addr ;;
             match DState e with
             | Invalid =>
                 m_assert (no_sharers e) ;;; m_assert (owner_is e NULL_IDX) ;;;
                 st <- (if negb isHit then m_assert (negb exclusive) ;;; fetch
                        else if exclusive then clean_and_drop else m_ret stat) ;;
                 dir_set addr (shared_entry {[initiatorId]}) ;;; m_ret st
             | Shared =>
                 m_assert (owner_is e NULL_IDX) ;;; m_assert (negb (no_sharers e)) ;;;
                 st <- (if negb isHit then
                          m_assert (negb exclusive) ;;;
                          st <- send (SendFwdGetS addr (CacheLineSize cfg) requesterId (DSharers e)) ;;
                          updLine line (setState Shared) ;;; m_ret st
                        else if exclusive then clean_and_drop else m_ret stat) ;;
                 dir_set addr (mkEntry (DState e) (Owner e) ({[initiatorId]} ∪ DSharers e)) ;;; m_ret st
             | Modified =>
                 m_assert (no_sharers e) ;;; m_assert (negb (owner_is e NULL_IDX)) ;;;
                 st <- assign_if (negb (owner_is e initiatorId))
                         (send (SendFwdGetS addr (CacheLineSize cfg) requesterId {[Owner e]})) stat ;;
                 dir_set addr (shared_entry {[initiatorId; Owner e]}) ;;;
                 if exclusive then
                   m_assert isHit ;;;
                   st <- send (ForwardWriteData addr (CacheLineSize cfg) requesterId) ;;
                   updLine line (setState Invalid) ;;; m_ret st
                 else updLine line (setState Modified) ;;; m_ret st
             end) ;;
  m_modify (count NGetS) ;;;
  e <- dir_at addr ;;
  m_assert (is_dstate e Shared) ;;; m_assert (owner_is e NULL_IDX) ;;; m_assert (negb (no_sharers e)) ;;;
  m_ret stat.

Definition homeGetM (isHit : bool) (line : line_ptr) (addr requesterId initiatorId : Z)
    (stat : tlm_response_status) : M cache tlm_response_status :=
  b <- in_directory addr ;;
  l <- getLine line ;;
  let fetch := st <- send (ForwardReadData addr (CacheLineSize cfg) requesterId) ;;
               updLine line (setState Shared) ;;; m_ret st in
  let clean_and_drop :=
    st <- send (ForwardWriteData addr (CacheLineSize cfg) requesterId) ;;
    updLine line (setState Invalid) ;;; m_ret st in
  stat <- (if negb b then
             m_assert (negb isHit) ;;; m_assert (negb exclusive) ;;;
             st <- fetch ;;
             dir_set addr (modified_entry initiatorId) ;;; m_ret st
           else
             e <- dir_at addr ;;
             match DState e with
             | Invalid =>
                 m_assert (no_sharers e) ;;; m_assert (owner_is e NULL_IDX) ;;;
                 st <- (if negb isHit then m_assert (negb exclusive) ;;; fetch
                        else if exclusive && is_state l Modified then clean_and_drop
                        else m_ret stat) ;;
                 dir_set addr (modified_entry initiatorId) ;;; m_ret st
             | Shared =>
                 m_assert (owner_is e NULL_IDX) ;;; m_assert (negb (no_sharers e)) ;;;
                 st <- (if negb isHit then
                          m_assert (negb exclusive) ;;;
                          st <- send (SendFwdGetS addr (CacheLineSize cfg) requesterId (DSharers e)) ;;
                          updLine line (setState Shared) ;;; m_ret st
                        else if exclusive && is_state l Modified then clean_and_drop
                        else m_ret stat) ;;
                 let sh := DSharers e ∖ {[initiatorId]} in
                 dir_set addr (mkEntry (DState e) (Owner e) sh) ;;;
                 st <- assign_if (negb (bool_decide (sh = ∅)))
                         (send (SendPutI addr (CacheLineSize cfg) requesterId sh)) st ;;
                 dir_set addr (modified_entry initiatorId) ;;; m_ret st
             | Modified =>
                 m_assert (negb (owner_is e NULL_IDX)) ;;;
                 m_assert (negb (owner_is e initiatorId)) ;;;
                 m_assert (no_sharers e) ;;;
                 st <- send (SendFwdGetM addr (CacheLineSize cfg) requesterId {[Owner e]}) ;;
                 dir_set addr (mkEntry (DState e) initiatorId (DSharers e)) ;;;
                 m_when exclusive (updLine line (setState Invalid)) ;;; m_ret st
             end) ;;
  m_modify (count NGetM) ;;;
  e <- dir_at addr ;;
  m_assert (is_dstate e Modified) ;;; m_assert (owner_is e initiatorId) ;;; m_assert (no_sharers e) ;;;
  m_ret stat.

Definition accessCoherentHome (accessMode : CoherenceCommand) (size addr requesterId initiatorId hdl : Z) :
    M cache tlm_response_status :=
  r <- access_set (index_of addr) (tag_of addr) ;;
  let isHit := r.1 in
  let line := r.2 in
  m_assert (negb (bool_decide (initiatorId = NULL_IDX))) ;;;
  check_request isHit line size addr ;;;
  count_request accessMode isHit line ;;;
  notify_eviction isHit line ;;;
  match accessMode, exclusive && negb isHit with
  | GetS, true => homeMissGetS addr requesterId initiatorId
  | GetM, true => homeMissGetM addr requesterId initiatorId
  | _, _ =>
      stat <- homePrepare isHit line addr requesterId hdl TLM_OK_RESPONSE ;;
      stat <- (match accessMode with
               | PutS => homePutS isHit line addr initiatorId stat
               | PutM => homePutM line addr initiatorId stat
               | GetS => homeGetS isHit line addr requesterId initiatorId stat
               | GetM => homeGetM isHit line addr requesterId initiatorId stat
               | _ => m_throw AssertionFailed
               end) ;;
      check_entry line addr ;;; m_ret stat
  end.

(** *** Dispatch *)

(** A request of [size] bytes touches at most [size + 1] lines. *)
Definition request_fuel (size : Z) : nat := S (Z.to_nat size).

Definition accessCache (accessMode : CoherenceCommand) (size addr requesterId initiatorId hdl : Z) :
    M cache tlm_response_status :=
  if negb (IsCoherent cfg) then
    accessNonCoherentCache (request_fuel size) accessMode size addr requesterId initiatorId hdl
  else if IsHome cfg then accessCoherentHome accessMode size addr requesterId initiatorId hdl
  else if bool_decide (Level cfg = 1) then
    accessCpuCache (request_fuel size) accessMode size addr requesterId initiatorId hdl
  else if bool_decide (Level cfg = 2) then
    accessL2Cache accessMode size addr requesterId initiatorId hdl
  else m_throw AssertionFailed.

(** The public methods: [ReadData], [WriteData], [EvictLine] and the [Access...]
    methods differ in the command only; [InvalidateLine] fixes the other arguments. *)
Definition InvalidateLine (addr : Z) : M cache tlm_response_status :=
  accessCache Invalidate (CacheLineSize cfg) addr NULL_IDX NULL_IDX 0.
End operations.
