(* ===== verification/CacheGeometry.v ===== *)
(** * Geometry of a cache and the lines it holds

    Address decomposition of [CacheBase] and the invariant of its line array: a valid
    line sits in the set of its address, carries its tag, and is the only line of
    that address.  The lemmas describe lookups and line updates through the view
    [holds s a st]: a valid line of address [a] is present in state [st]. *)

From S2P Require Import Prelude Tlm CacheSet CacheBase.

(** ** Address fields *)

Lemma log2_fuel_spec fuel n : 0 < n < 2 ^ Z.of_nat fuel → log2_fuel fuel n = Z.log2 n.
Proof.
  revert n. induction fuel as [|fuel IH]; intros n Hn; [simpl in Hn; lia|]. cbn [log2_fuel].
  case_bool_decide as H2; [by assert (n = 1) as -> by lia|].
  rewrite Nat2Z.inj_succ, Z.pow_succ_r in Hn by lia.
  rewrite IH by (split; [apply Z.div_str_pos; lia|apply Z.div_lt_upper_bound; lia]).
  assert (n / 2 = Z.shiftr n 1) as -> by (rewrite Z.shiftr_div_pow2 by lia; done).
  rewrite Z.log2_shiftr by lia. pose proof (Z.log2_pos n). lia.
Qed.

Lemma log2_spec n : 0 < n < 2 ^ 64 → log2 n = Z.log2 n.
Proof. apply (log2_fuel_spec 64). Qed.

Lemma log2_range n : 0 ≤ n < 2 ^ 64 → 0 ≤ log2 n < 64 ∧ (0 < n → 2 ^ log2 n ≤ n).
Proof.
  intros Hn. destruct (decide (n = 0)) as [-> | ?]; [by vm_compute|].
  rewrite log2_spec by lia. pose proof (Z.log2_nonneg n). pose proof (Z.log2_spec n ltac:(lia)).
  split; [|lia]. split; [done|]. apply Z.log2_lt_pow2; lia.
Qed.

(** What the constructor establishes about the constant members. *)
Record config_wf (cfg : config) : Prop := {
  cw_line : 0 < CacheLineSize cfg;
  cw_bits : 0 ≤ OffsetBits cfg < 64 ∧ 0 ≤ InterleaveBits cfg ∧ 0 ≤ IndexBits cfg ∧ 0 ≤ TagBits cfg < 64;
  cw_sum : TagBits cfg + TagShift cfg = 64;
  cw_index_shift : IndexShift cfg = OffsetBits cfg + InterleaveBits cfg;
  cw_tag_shift : TagShift cfg = IndexBits cfg + OffsetBits cfg + InterleaveBits cfg;
  cw_offset_mask : OffsetMask cfg = 2 ^ OffsetBits cfg - 1;
  cw_index_mask : IndexMask cfg = 2 ^ IndexBits cfg - 1;
  cw_tag_mask : TagMask cfg = 2 ^ TagBits cfg - 1;
  cw_sets : 2 ^ IndexBits cfg ≤ NbSets cfg;
  cw_offset_line : 2 ^ OffsetBits cfg ≤ CacheLineSize cfg
}.

Lemma mask_Ok n m : 0 ≤ n → mask n = Ok m → n < 64 ∧ m = 2 ^ n - 1.
Proof.
  intros Hn. unfold mask. case_bool_decide; [|done]. intros [= <-]. split; [done|].
  by rewrite Z.shiftl_1_l.
Qed.

Lemma new_config_wf cacheSize cacheLineSize associativity nb p cfg :
  in_u64 cacheSize → in_u64 cacheLineSize → in_u64 associativity → in_u64 nb →
  new_config cacheSize cacheLineSize associativity nb p = Ok cfg → config_wf cfg.
Proof.
  unfold in_u64. intros Hcs Hls Has Hnb. unfold new_config.
  destruct (bool_decide (cacheLineSize = 0) || bool_decide (associativity = 0)) eqn:E0; [done|].
  apply orb_false_iff in E0 as [E1%bool_decide_eq_false E2%bool_decide_eq_false].
  case_bool_decide as Hle; [|done].
  set (nbSets := cacheSize / cacheLineSize / associativity).
  set (ib := if bool_decide (0 < nb) then log2 nb else 0).
  assert (0 < nbSets < 2 ^ 64) as Hsets.
  { unfold nbSets. pose proof (Z.div_le_upper_bound cacheSize cacheLineSize cacheSize ltac:(lia)).
    split; [apply Z.div_str_pos; lia|].
    apply Z.div_lt_upper_bound; [lia|]. nia. }
  pose proof (log2_range cacheLineSize Hls) as [Ho Ho'].
  pose proof (log2_range nbSets ltac:(lia)) as [Hi Hi'].
  assert (0 ≤ ib < 64) as Hib by (unfold ib; case_bool_decide; [by apply log2_range|lia]).
  destruct (mask (log2 cacheLineSize)) as [om|] eqn:Eo; [|done]. simpl.
  destruct (mask (log2 nbSets)) as [im|] eqn:Ei; [|done]. simpl.
  destruct (mask (u64 (64 - log2 nbSets - ib - log2 cacheLineSize))) as [tm|] eqn:Et; [|done]. simpl.
  intros [= <-].
  apply mask_Ok in Eo as [_ ->]; [|lia]. apply mask_Ok in Ei as [_ ->]; [|lia].
  apply mask_Ok in Et as [Ht ->]; [|apply u64_bound].
  assert (u64 (64 - log2 nbSets - ib - log2 cacheLineSize) = 64 - log2 nbSets - ib - log2 cacheLineSize) as Hu.
  { destruct (decide (0 ≤ 64 - log2 nbSets - ib - log2 cacheLineSize)); [apply u64_small; unfold in_u64; lia|].
    exfalso. u64_lia. }
  pose proof (u64_bound (64 - log2 nbSets - ib - log2 cacheLineSize)) as Hub. unfold in_u64 in Hub.
  split; simpl; rewrite ?Hu in *; try done; lia.
Qed.

Definition interleave_of (cfg : config) (a : Z) : Z :=
  (a / 2 ^ OffsetBits cfg) mod 2 ^ InterleaveBits cfg.

Lemma land_mask x n : 0 ≤ n → Z.land x (2 ^ n - 1) = x mod 2 ^ n.
Proof. intros Hn. rewrite <- Z.land_ones by done. by rewrite Z.ones_equiv, Z.sub_1_r. Qed.

Section fields.
Context (cfg : config) (Hcfg : config_wf cfg).

Lemma offset_eq a : offset_of cfg a = a mod 2 ^ OffsetBits cfg.
Proof. destruct Hcfg. unfold offset_of. rewrite cw_offset_mask0. apply land_mask. lia. Qed.

Lemma index_eq a : index_of cfg a = (a / 2 ^ IndexShift cfg) mod 2 ^ IndexBits cfg.
Proof.
  destruct Hcfg. unfold index_of. rewrite cw_index_mask0, Z.shiftr_div_pow2 by lia. apply land_mask. lia.
Qed.

Lemma tag_eq a : in_u64 a → tag_of cfg a = a / 2 ^ TagShift cfg.
Proof.
  destruct Hcfg. intros Ha. unfold tag_of. rewrite cw_tag_mask0, Z.shiftr_div_pow2 by lia.
  rewrite land_mask by lia. apply Z.mod_small. unfold in_u64 in Ha.
  split; [apply Z.div_pos; lia|]. apply Z.div_lt_upper_bound; [lia|].
  rewrite <- Z.pow_add_r by lia. replace (TagShift cfg + TagBits cfg) with 64 by lia. lia.
Qed.

Lemma index_range a : 0 ≤ index_of cfg a < NbSets cfg.
Proof.
  rewrite index_eq. destruct Hcfg.
  pose proof (Z.mod_pos_bound (a / 2 ^ IndexShift cfg) (2 ^ IndexBits cfg) ltac:(lia)). lia.
Qed.

(** An address is the concatenation of its fields. *)
Lemma address_fields a : in_u64 a →
  a = tag_of cfg a * 2 ^ TagShift cfg + index_of cfg a * 2 ^ IndexShift cfg +
      interleave_of cfg a * 2 ^ OffsetBits cfg + offset_of cfg a.
Proof.
  intros Ha. rewrite tag_eq, index_eq, offset_eq by done. unfold interleave_of. destruct Hcfg.
  pose proof (Z.div_mod a (2 ^ OffsetBits cfg) ltac:(lia)) as H1.
  pose proof (Z.div_mod (a / 2 ^ OffsetBits cfg) (2 ^ InterleaveBits cfg) ltac:(lia)) as H2.
  pose proof (Z.div_mod (a / 2 ^ IndexShift cfg) (2 ^ IndexBits cfg) ltac:(lia)) as H3.
  rewrite Z.div_div, <- Z.pow_add_r in H2 by lia. rewrite <- cw_index_shift0 in H2.
  rewrite Z.div_div, <- Z.pow_add_r in H3 by lia.
  replace (IndexShift cfg + IndexBits cfg) with (TagShift cfg) in H3 by lia.
  replace (2 ^ TagShift cfg) with (2 ^ IndexShift cfg * 2 ^ IndexBits cfg) at 2
    by (rewrite <- Z.pow_add_r by lia; f_equal; lia).
  rewrite cw_index_shift0, Z.pow_add_r in * by lia. nia.
Qed.
End fields.

(** ** The line array *)

Definition cell (sets : list CacheSet) (i w : Z) : option CacheLine :=
  if decide (0 ≤ i ∧ 0 ≤ w) then set ← sets !! Z.to_nat i; contents set !! Z.to_nat w else None.

(** Replace the line at a location, keeping its replacement data. *)
Definition put_line (i w : Z) (l : CacheLine) (sets : list CacheSet) : list CacheSet :=
  alter (fun set => setLines (alter (fun x => mkLineWrapper l (repl_data x)) (Z.to_nat w) (Lines set)) set)
    (Z.to_nat i) sets.

(** A valid line of address [a] in state [st] is present. *)
Definition holds (sets : list CacheSet) (a : Z) (st : CoherenceState) : Prop :=
  ∃ i w l, cell sets i w = Some l ∧ State l = st ∧ st ≠ Invalid ∧ Address l = a.

(** The addresses a cache is used for: line-aligned, with a tag that fits the 32-bit
    tag of a line, and in the interleaving slice [il] of the cache. *)
Record fits (cfg : config) (il a : Z) : Prop := {
  fits_u64 : in_u64 a;
  fits_offset : offset_of cfg a = 0;
  fits_tag : in_u32 (tag_of cfg a);
  fits_slice : interleave_of cfg a = il
}.

Definition line_ok (cfg : config) (il i : Z) (l : CacheLine) : Prop :=
  fits cfg il (Address l) ∧ index_of cfg (Address l) = i ∧ Tag l = u32 (tag_of cfg (Address l)).

Record lines_wf (cfg : config) (il : Z) (sets : list CacheSet) : Prop := {
  lw_length : length sets = Z.to_nat (NbSets cfg);
  lw_sets : ∀ set, set ∈ sets → set_wf set;
  lw_lines : ∀ i w l, cell sets i w = Some l → State l ≠ Invalid → line_ok cfg il i l;
  lw_unique : ∀ i w w' l l', cell sets i w = Some l → cell sets i w' = Some l' →
    State l ≠ Invalid → State l' ≠ Invalid → Address l = Address l' → w = w'
}.

Lemma fits_inj cfg il a b : config_wf cfg → fits cfg il a → fits cfg il b →
  index_of cfg a = index_of cfg b → u32 (tag_of cfg a) = u32 (tag_of cfg b) → a = b.
Proof.
  intros Hcfg [Ha Hoa Hta Hsa] [Hb Hob Htb Hsb] Hi Ht. rewrite !u32_small in Ht by done.
  rewrite (address_fields cfg Hcfg a), (address_fields cfg Hcfg b) by done. congruence.
Qed.

Section cells.
Implicit Types sets : list CacheSet.

Lemma cell_nonneg sets i w l : cell sets i w = Some l → 0 ≤ i ∧ 0 ≤ w.
Proof. unfold cell. by case_decide. Qed.

Lemma cell_put sets i w l l' i' w' : cell sets i w = Some l →
  cell (put_line i w l' sets) i' w' = if decide (i' = i ∧ w' = w) then Some l' else cell sets i' w'.
Proof.
  intros Hl. pose proof (cell_nonneg _ _ _ _ Hl) as [Hi Hw]. unfold cell in *.
  rewrite decide_True in Hl by done. unfold put_line.
  destruct (decide (0 ≤ i' ∧ 0 ≤ w')) as [[Hi' Hw']|Hneg].
  2: { rewrite decide_False; [done|]. intros [-> ->]. by apply Hneg. }
  destruct (decide (i' = i)) as [-> | Hne].
  - rewrite list_lookup_alter_eq. destruct (sets !! Z.to_nat i) as [set|] eqn:Hset; [|done].
    simpl in *. unfold contents in *. simpl. rewrite list_lookup_fmap in Hl |- *.
    destruct (decide (w' = w)) as [-> | Hnw].
    + rewrite decide_True by done. rewrite list_lookup_alter_eq.
      by destruct (Lines set !! Z.to_nat w) in Hl |- *.
    + rewrite decide_False by tauto. rewrite list_lookup_alter_ne by lia. by rewrite list_lookup_fmap.
  - rewrite list_lookup_alter_ne by lia. by rewrite decide_False by tauto.
Qed.

Lemma put_line_length sets i w l : length (put_line i w l sets) = length sets.
Proof. apply length_alter. Qed.

Lemma set_wf_put set w l :
  set_wf set → set_wf (setLines (alter (fun x => mkLineWrapper l (repl_data x)) w (Lines set)) set).
Proof.
  intros [H1 H2 H3 (rec & HP & Hrec) H5 H6]. split; simpl; try done.
  - by rewrite length_alter.
  - exists rec. split; [done|]. intros pos i Hpos. rewrite <- (Hrec _ _ Hpos).
    unfold ages. simpl. rewrite !list_lookup_fmap. destruct (decide (w = Z.to_nat i)) as [-> | ?].
    + rewrite list_lookup_alter_eq. by destruct (Lines set !! Z.to_nat i).
    + by rewrite list_lookup_alter_ne.
Qed.
End cells.

(** ** Line updates seen through [holds] *)

Section holds.
Context (cfg : config) (il : Z).
Implicit Types sets : list CacheSet.

Lemma holds_cell sets i w l : cell sets i w = Some l → State l ≠ Invalid → holds sets (Address l) (State l).
Proof. intros Hl Hs. by exists i, w, l. Qed.

(** Replacing a line: the new line is present if it is valid, and the other valid
    lines are those that were present, less the old line. *)
Lemma holds_put sets i w l l' a st : lines_wf cfg il sets → cell sets i w = Some l →
  holds (put_line i w l' sets) a st ↔
  (Address l' = a ∧ State l' = st ∧ st ≠ Invalid) ∨
  (holds sets a st ∧ (State l = Invalid ∨ Address l ≠ a)).
Proof.
  intros [_ _ Hok Huniq] Hl. split.
  - intros (i1 & w1 & l1 & Hc & Hst & Hne & Ha). rewrite (cell_put _ _ _ l) in Hc by done.
    case_decide as Hd; [simplify_eq; by left|right]. split; [by exists i1, w1, l1|].
    destruct (decide (State l = Invalid)); [by left|right]. intros Heq. apply Hd.
    assert (i1 = i) as ->.
    { destruct (Hok _ _ _ Hc) as (_ & <- & _); [congruence|]. destruct (Hok _ _ _ Hl) as (_ & <- & _); [done|].
      congruence. }
    split; [done|]. apply (Huniq i _ _ l1 l); [done|done|congruence|done|congruence].
  - intros [(Ha & Hst & Hne)|[(i1 & w1 & l1 & Hc & Hst & Hne & Ha) Hd]].
    + exists i, w, l'. rewrite (cell_put _ _ _ l) by done. by rewrite decide_True.
    + exists i1, w1, l1. rewrite (cell_put _ _ _ l) by done. rewrite decide_False; [done|].
      intros [-> ->]. simplify_eq. destruct Hd; congruence.
Qed.

(** An address is held in one state. *)
Lemma holds_functional sets i w l x : lines_wf cfg il sets → cell sets i w = Some l →
  State l ≠ Invalid → holds sets (Address l) x → x = State l.
Proof.
  intros Hwf Hc Hne (i' & w' & l' & Hc' & Hst' & Hne' & Ha').
  destruct (lw_lines _ _ _ Hwf _ _ _ Hc') as (_ & Hi' & _); [congruence|].
  destruct (lw_lines _ _ _ Hwf _ _ _ Hc Hne) as (_ & Hi & _).
  assert (i' = i) as -> by congruence.
  assert (w' = w) as -> by (eapply (lw_unique _ _ _ Hwf); [exact Hc'|exact Hc|congruence..]). congruence.
Qed.

Lemma lines_wf_put sets i w l l' : lines_wf cfg il sets → cell sets i w = Some l →
  (State l' ≠ Invalid → line_ok cfg il i l' ∧
     (∀ st, holds sets (Address l') st → State l ≠ Invalid ∧ Address l = Address l')) →
  lines_wf cfg il (put_line i w l' sets).
Proof.
  intros [Hlen Hsets Hok Huniq] Hl Hl'. split.
  - by rewrite put_line_length.
  - intros set (j & Hj)%list_elem_of_lookup. unfold put_line in Hj.
    destruct (decide (j = Z.to_nat i)) as [-> | Hne].
    + rewrite list_lookup_alter_eq in Hj. destruct (sets !! Z.to_nat i) as [set0|] eqn:E; [|done].
      injection Hj as <-. apply set_wf_put, Hsets. by eapply list_elem_of_lookup_2.
    + rewrite list_lookup_alter_ne in Hj by done. apply Hsets. by eapply list_elem_of_lookup_2.
  - intros i1 w1 l1 Hc Hst. rewrite (cell_put _ _ _ l) in Hc by done. case_decide as Hd; [|by eapply Hok].
    destruct Hd as [-> ->]. simplify_eq. by apply Hl'.
  - intros i1 w1 w2 l1 l2 H1 H2 Hs1 Hs2 Ha. rewrite (cell_put _ _ _ l) in H1, H2 by done.
    assert (∀ w3 l3, cell sets i w3 = Some l3 → State l3 ≠ Invalid → State l' ≠ Invalid →
      Address l3 = Address l' → w3 = w) as Hnew.
    { intros w3 l3 H3 Hs3 Hs' Ha3. destruct (Hl' Hs') as [_ Hh].
      destruct (Hh (State l3)) as [Hsl Hal]; [rewrite <- Ha3; by apply (holds_cell sets i w3)|].
      apply (Huniq i _ _ l3 l); [done..|congruence]. }
    repeat case_decide; simplify_eq; naive_solver.
Qed.

Lemma runs_getLine s i w l (Q : CacheLine → cache → Prop) :
  cell (CacheLines s) i w = Some l → Q l s → runs (getLine (i, Some w)) s Q.
Proof.
  intros Hl HQ. pose proof (cell_nonneg _ _ _ _ Hl) as [Hi Hw]. unfold cell in Hl.
  rewrite decide_True in Hl by done.
  destruct (CacheLines s !! Z.to_nat i) as [set|] eqn:Hset; [|done]. simpl in Hl.
  unfold contents in Hl. rewrite list_lookup_fmap in Hl.
  destruct (Lines set !! Z.to_nat w) as [x|] eqn:Hx; [|done]. injection Hl as <-.
  unfold getLine, deref. simpl. apply runs_bind, runs_ret, runs_bind, runs_get, runs_bind.
  apply (runs_lift_Ok _ set); [by apply vec_get_Some|].
  apply runs_bind, (runs_lift_Ok _ x); [by apply vec_get_Some|]. done.
Qed.

Lemma runs_updLine s i w l f (Q : unit → cache → Prop) :
  cell (CacheLines s) i w = Some l →
  Q tt (set_CacheLines (put_line i w (f l) (CacheLines s)) s) → runs (updLine (i, Some w) f) s Q.
Proof.
  intros Hl HQ. pose proof (cell_nonneg _ _ _ _ Hl) as [Hi Hw]. unfold cell in Hl.
  rewrite decide_True in Hl by done.
  destruct (CacheLines s !! Z.to_nat i) as [set|] eqn:Hset; [|done]. simpl in Hl.
  unfold contents in Hl. rewrite list_lookup_fmap in Hl.
  destruct (Lines set !! Z.to_nat w) as [x|] eqn:Hx; [|done]. injection Hl as <-.
  unfold updLine, deref. simpl. apply runs_bind, runs_ret, runs_bind, runs_get, runs_bind.
  apply (runs_lift_Ok _ set); [by apply vec_get_Some|].
  apply runs_bind, (runs_lift_Ok _ x); [by apply vec_get_Some|].
  apply runs_bind. eapply runs_lift_Ok.
  { apply vec_set_Ok. split; [|done]. apply lookup_lt_Some in Hx. lia. }
  apply runs_modify. unfold put_line in HQ.
  replace (<[Z.to_nat i:=setLines (<[Z.to_nat w:=mkLineWrapper (f (line x)) (repl_data x)]> (Lines set)) set]> (CacheLines s))
    with (alter (fun set => setLines (alter (fun y => mkLineWrapper (f (line x)) (repl_data y)) (Z.to_nat w) (Lines set)) set)
      (Z.to_nat i) (CacheLines s)); [done|].
  apply list_eq. intros j. destruct (decide (j = Z.to_nat i)) as [-> | Hj].
  - rewrite list_lookup_alter_eq, Hset, list_lookup_insert_eq by (by eapply lookup_lt_Some). simpl. do 2 f_equal.
    apply list_eq. intros k. destruct (decide (k = Z.to_nat w)) as [-> | Hk].
    + rewrite list_lookup_alter_eq, Hx, list_lookup_insert_eq by (by eapply lookup_lt_Some). done.
    + by rewrite list_lookup_alter_ne, list_lookup_insert_ne by done.
  - by rewrite list_lookup_alter_ne, list_lookup_insert_ne by done.
Qed.
End holds.

(** ** Lookup *)

Lemma holds_ext sets sets' : (∀ i w, cell sets' i w = cell sets i w) →
  ∀ a st, holds sets' a st ↔ holds sets a st.
Proof. intros Hc a st. unfold holds. by setoid_rewrite Hc. Qed.

Lemma cell_insert sets i set set' : sets !! Z.to_nat i = Some set → contents set' = contents set →
  ∀ i' w', cell (<[Z.to_nat i := set']> sets) i' w' = cell sets i' w'.
Proof.
  intros Hset Hc i' w'. unfold cell. case_decide; [|done].
  destruct (decide (Z.to_nat i' = Z.to_nat i)) as [-> | Hne].
  - rewrite Hset, list_lookup_insert_eq by (by eapply lookup_lt_Some). simpl. by rewrite Hc.
  - by rewrite list_lookup_insert_ne.
Qed.

Lemma lines_wf_insert cfg il sets i set set' : lines_wf cfg il sets → sets !! Z.to_nat i = Some set →
  contents set' = contents set → set_wf set' → lines_wf cfg il (<[Z.to_nat i := set']> sets).
Proof.
  intros [Hlen Hsets Hok Huniq] Hset Hc Hwf. pose proof (cell_insert sets i set set' Hset Hc) as Hcell.
  split.
  - by rewrite length_insert.
  - intros x (j & Hj)%list_elem_of_lookup. destruct (decide (j = Z.to_nat i)) as [-> | Hne].
    + rewrite list_lookup_insert_eq in Hj by (by eapply lookup_lt_Some). by simplify_eq.
    + rewrite list_lookup_insert_ne in Hj by done. apply Hsets. by eapply list_elem_of_lookup_2.
  - intros i1 w1 l1. rewrite Hcell. apply Hok.
  - intros i1 w1 w2 l1 l2. rewrite !Hcell. apply Huniq.
Qed.

(** What a lookup of address [a] gives its caller: a location in the set of [a], with
    the line of [a] on a hit, and no valid line of [a] on a miss. *)
Definition looked_up (sets : list CacheSet) (a : Z) (isHit : bool) (i w : Z) (l : CacheLine) : Prop :=
  cell sets i w = Some l ∧
  if isHit then Address l = a ∧ State l ≠ Invalid else ∀ st, ¬ holds sets a st.

Lemma runs_access_set cfg il s a (Q : bool * line_ptr → cache → Prop) :
  config_wf cfg → lines_wf cfg il (CacheLines s) → fits cfg il a →
  (∀ sets isHit w l, lines_wf cfg il sets →
     (∀ b st, holds sets b st ↔ holds (CacheLines s) b st) →
     looked_up sets a isHit (index_of cfg a) w l →
     Q (isHit, (index_of cfg a, Some w)) (set_CacheLines sets s)) →
  runs (access_set (index_of cfg a) (tag_of cfg a)) s Q.
Proof.
  intros Hcfg Hwf Hfits HQ. pose proof (index_range cfg Hcfg a) as Hi.
  destruct (lookup_lt_is_Some_2 (CacheLines s) (Z.to_nat (index_of cfg a))) as [set Hset].
  { rewrite (lw_length _ _ _ Hwf). lia. }
  assert (set_wf set) as Hsw by (eapply (lw_sets _ _ _ Hwf), list_elem_of_lookup_2; done).
  unfold access_set. apply runs_bind, runs_get, runs_bind.
  apply (runs_lift_Ok _ set); [by apply vec_get_Some; [lia|]|].
  pose proof (accessSet_wf (u32 (tag_of cfg a)) set Hsw) as Hacc. unfold runs in Hacc.
  destruct (accessSet (u32 (tag_of cfg a)) set) as [[[h p]|e] set']; [|done].
  destruct Hacc as (Hsw' & Hc & HA & _ & hit & way & [= -> ->] & Hway & Hres).
  apply runs_bind, runs_modify, runs_ret.
  set (sets := <[Z.to_nat (index_of cfg a) := set']> (CacheLines s)).
  assert (∀ i w, cell sets i w = cell (CacheLines s) i w) as Hcell by by apply (cell_insert _ _ set).
  assert (∀ w, 0 ≤ w → cell (CacheLines s) (index_of cfg a) w = contents set !! Z.to_nat w) as Hcs.
  { intros w Hw. unfold cell. rewrite decide_True by lia. by rewrite Hset. }
  assert (lines_wf cfg il sets) as Hwf' by by apply (lines_wf_insert _ _ _ _ set).
  destruct (lookup_lt_is_Some_2 (contents set) (Z.to_nat way)) as [l Hl].
  { unfold contents. rewrite length_fmap, (wf_length _ Hsw). lia. }
  apply (HQ sets hit way l Hwf' (holds_ext _ _ Hcell)). split; [by rewrite Hcell, Hcs by lia|].
  destruct hit.
  - destruct Hres as [(l0 & Hl0 & Htag & Hst) _]. simplify_eq. split; [|done].
    destruct (lw_lines _ _ _ Hwf (index_of cfg a) way l0) as (Hf & Hidx & Ht); [by rewrite Hcs by lia|done|].
    apply (fits_inj cfg il); [done..|congruence].
  - intros st (i & w & l0 & Hl0 & Hst & Hne & Ha).
    destruct (lw_lines _ _ _ Hwf' i w l0 Hl0) as (Hf & Hidx & Ht); [congruence|].
    rewrite Ha in Hidx, Ht. subst i. pose proof (cell_nonneg _ _ _ _ Hl0) as [_ Hw].
    rewrite Hcell, Hcs in Hl0 by done. apply list_elem_of_lookup_2 in Hl0.
    apply (proj2 Hres l0 Hl0). split; [done|congruence].
Qed.

(** ** A new cache *)

Lemma new_cache_wf cfg il s :
  ReplPolicy cfg ≠ FIFO → 0 < Assoc cfg < 2 ^ 32 → 0 ≤ CacheLineSize cfg < 2 ^ 32 →
  new_cache cfg = Ok s →
  lines_wf cfg il (CacheLines s) ∧ (∀ a st, ¬ holds (CacheLines s) a st) ∧
  Directory s = ∅ ∧ Sharers s = ∅ ∧ trace s = [].
Proof.
  intros Hpol Ha Hl. unfold new_cache. destruct (decide (Assoc cfg ≤ CacheLineSize cfg)) as [Hle|Hgt].
  2: { unfold newCacheSet, initSet. simpl. rewrite !u32_small by (unfold in_u32; lia).
       by rewrite bool_decide_eq_false_2 by lia. }
  destruct (newCacheSet_Ok (CacheLineSize cfg) (Assoc cfg) (ReplPolicy cfg)) as (set & -> & Hwf & _ & _ & Hc);
    [lia|lia|done|done|]. intros [= <-]. simpl.
  assert (∀ i w l, cell (replicate (Z.to_nat (NbSets cfg)) set) i w = Some l → State l = Invalid) as Hinv.
  { intros i w l. unfold cell. case_decide; [|done].
    destruct (replicate _ set !! Z.to_nat i) as [x|] eqn:E; [|done]. simpl.
    apply lookup_replicate in E as [-> _]. intros Hx%list_elem_of_lookup_2. by rewrite (Hc _ Hx). }
  split_and!; [|by intros a st (i & w & l & Hcell & <- & Hne & _); apply Hne, (Hinv i w)|done..].
  split.
  - by rewrite length_replicate.
  - intros x (j & Hj)%list_elem_of_lookup. apply lookup_replicate in Hj as [-> _]. done.
  - intros i w l Hcell Hne. by destruct Hne; apply (Hinv i w).
  - intros i w w' l l' Hcell _ Hne. by destruct Hne; apply (Hinv i w).
Qed.

(** ** Theorems *)

(** the constructor's masks and shifts cut every 64-bit address into four
    fields (tag, index, interleaving slice, offset) that determine it, and every
    index they give is the index of a set. *)
Theorem cache_geometry cacheSize cacheLineSize associativity nb p cfg a
    (H1 : in_u64 cacheSize) (H2 : in_u64 cacheLineSize) (H3 : in_u64 associativity) (H4 : in_u64 nb)
    (Hcfg : new_config cacheSize cacheLineSize associativity nb p = Ok cfg) (Ha : in_u64 a) :
  0 ≤ index_of cfg a < NbSets cfg ∧
  a = tag_of cfg a * 2 ^ TagShift cfg + index_of cfg a * 2 ^ IndexShift cfg +
      interleave_of cfg a * 2 ^ OffsetBits cfg + offset_of cfg a ∧
  0 ≤ offset_of cfg a < 2 ^ OffsetBits cfg ∧ 2 ^ OffsetBits cfg ≤ CacheLineSize cfg.
Proof.
  pose proof (new_config_wf _ _ _ _ _ _ H1 H2 H3 H4 Hcfg) as Hwf.
  split; [by apply index_range|]. split; [by apply address_fields|].
  destruct Hwf as [? Hb]. split; [|done]. rewrite offset_eq by (by split).
  apply Z.mod_pos_bound. apply Z.pow_pos_nonneg; lia.
Qed.

Definition example_params : params := mkParams LRU WBack WAllocate false 3 Exclusive NINE true true false 0.

Lemma cache_geometry_witness :
  ∃ cfg, new_config 1024 64 2 0 example_params = Ok cfg ∧ index_of cfg 6144 = 0 ∧
    6144 = tag_of cfg 6144 * 2 ^ TagShift cfg + index_of cfg 6144 * 2 ^ IndexShift cfg +
      interleave_of cfg 6144 * 2 ^ OffsetBits cfg + offset_of cfg 6144.
Proof.
  eexists. split; [vm_compute; reflexivity|]. split; [vm_compute; reflexivity|].
  apply (cache_geometry 1024 64 2 0 example_params); [done..|vm_compute; reflexivity|done].
Defined.

(** the tag kept in a line is 32 bits wide while the tag field of an address is
    wider: two different line addresses of the same set and slice can have the same
    stored tag, and the second then hits on the line of the first, which an
    assertion of the coherent caches rejects. *)
Theorem tag_truncation_aliases :
  ∃ cfg, new_config 1024 64 2 0 example_params = Ok cfg ∧
    let a := 2 ^ 41 in
    index_of cfg a = index_of cfg 0 ∧ u32 (tag_of cfg a) = u32 (tag_of cfg 0) ∧
    ∃ s, new_cache cfg = Ok s ∧
      let s := mkCache (put_line 0 0 (mkCacheLine 0 64 0 Shared 0) (CacheLines s))
                 (Directory s) (Sharers s) (counters s) (trace s) in
      (accessCoherentHome cfg (fun _ => Ok TLM_OK_RESPONSE) GetS 64 a 0 0 0 s).1 = Err AssertionFailed.
Proof.
  eexists. split; [vm_compute; reflexivity|]. split; [vm_compute; reflexivity|].
  split; [vm_compute; reflexivity|]. eexists. split; [vm_compute; reflexivity|]. vm_compute. reflexivity.
Qed.
