(* ===== verification/CacheHome.v ===== *)
(** * The home directory ([CacheBase::accessCoherentHome]) against its protocol

    The abstract protocol [home_next] says how a request of a cache changes the
    directory entry of one line.  An exclusive home whose line array and directory
    satisfy [home_inv] serves every legal request without failing an assertion and
    changes the directory exactly as the protocol says. *)

From S2P Require Import Prelude Tlm CacheSet CacheBase CacheGeometry.

(** ** The abstract protocol *)

(** The directory entry after a request of cache [i], [None] when the request is not
    legal in the current entry. *)
Definition home_next (cmd : CoherenceCommand) (i : Z) (e : DirectoryEntry) : option DirectoryEntry :=
  match cmd, DState e with
  | GetS, Invalid => Some (shared_entry {[i]})
  | GetS, Shared => Some (shared_entry ({[i]} ∪ DSharers e))
  | GetS, Modified => Some (shared_entry {[i; Owner e]})
  | GetM, Invalid | GetM, Shared => Some (modified_entry i)
  | GetM, Modified => if decide (Owner e = i) then None else Some (modified_entry i)
  | PutS, Shared =>
      Some (if decide (DSharers e ∖ {[i]} = ∅) then invalid_entry else shared_entry (DSharers e ∖ {[i]}))
  | PutM, Modified => if decide (Owner e = i) then Some invalid_entry else None
  | _, _ => None
  end.

(** The caches that have a copy according to an entry. *)
Definition copies (e : DirectoryEntry) : gset Z :=
  match DState e with
  | Invalid => ∅
  | Shared => DSharers e
  | Modified => {[Owner e]}
  end.

(** An address that was never requested is in no cache. *)
Definition dir_entry (d : gmap Z DirectoryEntry) (a : Z) : DirectoryEntry := default invalid_entry (d !! a).

(** The events that take the copy of [a] away from cache [j]. *)
Definition invalidates (a j : Z) (ev : Event) : Prop :=
  match ev with
  | Called (SendPutI b _ _ ids) | Called (SendFwdGetM b _ _ ids) => b = a ∧ j ∈ ids
  | _ => False
  end.

(** ** Invariant *)

Record home_inv (cfg : config) (il : Z) (s : cache) : Prop := {
  hi_lines : lines_wf cfg il (CacheLines s);
  hi_entries : ∀ a e, Directory s !! a = Some e → entry_ok e = true;
  hi_exclusive : ∀ a st, holds (CacheLines s) a st →
    ∃ e, Directory s !! a = Some e ∧ DState e ≠ Shared ∧ (st = Modified → DState e = Invalid)
}.

(** ** Entries *)

Lemma entry_ok_cases e : entry_ok e = true →
  e = invalid_entry ∨ (∃ ids, e = shared_entry ids ∧ ids ≠ ∅) ∨ (∃ o, e = modified_entry o ∧ o ≠ NULL_IDX).
Proof.
  destruct e as [st o ids]. unfold entry_ok, is_dstate, owner_is, no_sharers. simpl.
  rewrite !orb_true_iff, !andb_true_iff, !negb_true_iff, !bool_decide_eq_true, !bool_decide_eq_false.
  intros [[[[-> ->] ->]|[[-> ->] Hne]]|[[-> Hne] ->]]; [by left|right; left|right; right]; eauto.
Qed.

Lemma entry_ok_shared ids : ids ≠ ∅ → entry_ok (shared_entry ids) = true.
Proof.
  intros H. unfold entry_ok, no_sharers. simpl. by rewrite bool_decide_eq_false_2 by done.
Qed.

Lemma entry_ok_modified i : i ≠ NULL_IDX → entry_ok (modified_entry i) = true.
Proof.
  intros H. unfold entry_ok, owner_is. simpl. by rewrite (bool_decide_eq_false_2 (i = NULL_IDX)) by done.
Qed.

Lemma home_next_ok cmd i e e' : i ≠ NULL_IDX → entry_ok e = true → home_next cmd i e = Some e' →
  entry_ok e' = true.
Proof.
  intros Hi He Hn. unfold home_next in Hn.
  destruct (entry_ok_cases e He) as [-> | [(ids & -> & Hids)|(o & -> & Ho)]]; destruct cmd; simpl in Hn;
    try discriminate; repeat case_decide; simplify_eq;
    first [done|by apply entry_ok_modified|apply entry_ok_shared; set_solver].
Qed.

(** ** Symbolic steps *)

(** The calls that the virtual methods accept: a request to higher caches has a target. *)
Definition call_ok (c : Call) : Prop :=
  match c with
  | SendFwdGetS _ _ _ ids | SendFwdGetM _ _ _ ids | SendPutI _ _ _ ids
  | BackwardRead _ _ _ ids | BackInvalidate _ ids => ids ≠ ∅
  | _ => True
  end.

Section steps.
Context (respond : Call → result tlm_response_status).
Context (Hresp : ∀ c, call_ok c → ∃ r, respond c = Ok r).
Implicit Types s : cache.

Lemma runs_send s c (Q : tlm_response_status → cache → Prop) :
  call_ok c → (∀ r, Q r (emit (Called c) s)) → runs (send respond c) s Q.
Proof.
  intros Hok HQ. destruct (Hresp c Hok) as [r Hr]. unfold send. apply runs_bind, runs_modify.
  by apply (runs_lift_Ok _ r).
Qed.

Lemma runs_in_directory s a o (Q : bool → cache → Prop) :
  Directory s !! a = o → Q (if o is Some _ then true else false) s → runs (in_directory a) s Q.
Proof.
  intros <- HQ. unfold in_directory. apply runs_gets.
  destruct (Directory s !! a); [by rewrite bool_decide_eq_true_2|].
  rewrite bool_decide_eq_false_2; [done|]. by intros [? ?].
Qed.

Lemma runs_dir_at s a e (Q : DirectoryEntry → cache → Prop) :
  Directory s !! a = Some e → Q e s → runs (dir_at a) s Q.
Proof. intros He HQ. unfold dir_at. apply runs_bind, runs_get. by rewrite He. Qed.

Lemma runs_dir_set s a e (Q : unit → cache → Prop) :
  Q tt (set_Directory (<[a := e]> (Directory s)) s) → runs (dir_set a e) s Q.
Proof. done. Qed.
End steps.

Lemma runs_seq_assoc {S A B C} (m : M S A) (n : M S B) (k : M S C) s Q :
  runs ((m ;;; n) ;;; k) s Q → runs (m ;;; n ;;; k) s Q.
Proof. unfold runs, m_bind. by destruct (m s) as [[?|?] ?]. Qed.

(** [assert]s on entries and lines, decided by the known values. *)
Ltac solve_check :=
  unfold is_dstate, owner_is, no_sharers, is_state; cbn [DState Owner DSharers State negb
    invalid_entry shared_entry modified_entry orb andb];
  lazymatch goal with
  | |- negb (bool_decide _) = true => apply negb_true_iff, bool_decide_eq_false_2
  | |- bool_decide _ = true => apply bool_decide_eq_true_2
  | |- _ => idtac
  end;
  first [reflexivity | assumption | discriminate | congruence
        | lazymatch goal with |- context [∅] => set_solver end ].

Ltac solve_call :=
  cbn [call_ok]; first
    [ exact I | assumption
    | match goal with E : bool_decide (_ = ∅) = false |- _ => by apply bool_decide_eq_false in E end
    | set_solver ].

Ltac home_lookup :=
  cbn [Directory set_Directory set_CacheLines emit count];
  first [eassumption | apply lookup_insert_eq].

Ltac home_step Hresp :=
  lazymatch goal with
  | |- runs (m_assert _) _ _ => apply runs_assert; [solve_check|]
  | |- runs (send _ _) _ _ => apply (runs_send _ Hresp); [solve_call|intros ?]
  | |- runs (dir_set _ _) _ _ => apply runs_dir_set
  | |- runs (in_directory _) _ _ => eapply runs_in_directory; [home_lookup|]; cbn [negb]
  | |- runs (dir_at _) _ _ =>
      eapply runs_dir_at; [home_lookup|];
      cbn [DState Owner DSharers shared_entry modified_entry invalid_entry]
  | |- runs (assign_if ?b _ _) _ _ => unfold assign_if
  | |- runs (if true then _ else _) _ _ => cbv iota
  | |- runs (if false then _ else _) _ _ => cbv iota
  | |- runs (if negb true then _ else _) _ _ => cbn [negb]
  | |- runs (if negb false then _ else _) _ _ => cbn [negb]
  | |- runs (if negb ?b then _ else _) _ _ => let E := fresh "E" in destruct b eqn:E; cbn [negb]
  | |- runs (if ?b then _ else _) _ _ => let E := fresh "E" in destruct b eqn:E; cbn [andb] in E
  | |- runs (m_when true ?c) ?s ?Q => change (runs c s Q)
  | |- runs (m_when false ?c) ?s ?Q => change (Q tt s); cbv beta
  | |- runs (m_when _ _) _ _ => apply runs_when; intros ?
  | |- runs (getLine _) _ _ =>
      eapply runs_getLine;
      [cbn [CacheLines set_CacheLines set_Directory emit count]; eassumption|]
  | |- runs _ _ _ => wp_step
  end.
Ltac home_steps Hresp := repeat home_step Hresp.

(** What a request does to the directory and to the caches that have a copy. *)
Definition home_effect (cmd : CoherenceCommand) (a i : Z) (e' : DirectoryEntry) (s s' : cache) : Prop :=
  Directory s' = <[a := e']> (Directory s) ∧
  ∃ evs, trace s' = trace s ++ evs ∧
    (cmd = GetM → ∀ j, j ∈ copies (dir_entry (Directory s) a) → j ≠ i → Exists (invalidates a j) evs).

Section home.
Context (cfg : config) (il : Z) (respond : Call → result tlm_response_status).
Context (Hcfg : config_wf cfg) (Hresp : ∀ c, call_ok c → ∃ r, respond c = Ok r).
Implicit Types s : cache.

(** Close a goal [home_effect]: the directory was written once or twice at [a]. *)
Ltac close_effect :=
  split; [cbn [Directory set_Directory set_CacheLines emit count];
          rewrite ?insert_insert_eq; reflexivity|];
  cbn [trace set_Directory set_CacheLines emit count]; rewrite <- ?app_assoc;
  first [exists []; split; [by rewrite app_nil_r|] | eexists; split; [reflexivity|]].

Lemma homeMissGetS_spec s a req i e' :
  (∀ e, Directory s !! a = Some e → entry_ok e = true) →
  home_next GetS i (dir_entry (Directory s) a) = Some e' →
  runs (homeMissGetS cfg respond a req i) s (fun _ s' =>
    CacheLines s' = CacheLines s ∧ home_effect GetS a i e' s s').
Proof.
  intros Hok Hn. unfold homeMissGetS, home_effect, dir_entry in *.
  destruct (Directory s !! a) as [e|] eqn:He; simpl in Hn.
  - specialize (Hok e eq_refl).
    destruct (entry_ok_cases e Hok) as [-> | [(ids & -> & Hids)|(o & -> & Ho)]]; simpl in Hn; simplify_eq;
      home_steps Hresp; (split; [reflexivity|]); close_effect; discriminate.
  - simplify_eq. home_steps Hresp; (split; [reflexivity|]); close_effect; discriminate.
Qed.

Lemma homeMissGetM_spec s a req i e' :
  (∀ e, Directory s !! a = Some e → entry_ok e = true) →
  home_next GetM i (dir_entry (Directory s) a) = Some e' →
  runs (homeMissGetM cfg respond a req i) s (fun _ s' =>
    CacheLines s' = CacheLines s ∧ home_effect GetM a i e' s s').
Proof.
  intros Hok Hn. unfold homeMissGetM, home_effect, dir_entry in *.
  destruct (Directory s !! a) as [e|] eqn:He; simpl in Hn.
  - specialize (Hok e eq_refl).
    destruct (entry_ok_cases e Hok) as [-> | [(ids & -> & Hids)|(o & -> & Ho)]]; simpl in Hn;
      repeat case_decide; simplify_eq; home_steps Hresp;
      (split; [reflexivity|]); close_effect; intros _ j Hj Hne; simpl in Hj; [set_solver|..].
    + apply bool_decide_eq_true in E. exfalso. clear -Hj Hne E. set_solver.
    + apply Exists_cons. left. simpl. split; [done|]. clear -Hj Hne. set_solver.
    + apply Exists_cons. left. simpl. split; [done|]. exact Hj.
  - simplify_eq. home_steps Hresp; (split; [reflexivity|]); close_effect; set_solver.
Qed.

(** ** The line of a request *)

(** The line of address [a] is at way [w] of its set; if it is invalid, no other line
    of [a] is valid. *)
Record at_line (sets : list CacheSet) (a w : Z) (l : CacheLine) : Prop := {
  al_cell : cell sets (index_of cfg a) w = Some l;
  al_ok : line_ok cfg il (index_of cfg a) l;
  al_address : Address l = a;
  al_invalid : State l = Invalid → ∀ st, ¬ holds sets a st
}.

(** Setting the state of that line changes nothing else. *)
Lemma put_state sets a w l st : lines_wf cfg il sets → at_line sets a w l →
  let sets' := put_line (index_of cfg a) w (setState st l) sets in
  lines_wf cfg il sets' ∧
  ∀ b x, holds sets' b x ↔ (b = a ∧ x = st ∧ st ≠ Invalid) ∨ (b ≠ a ∧ holds sets b x).
Proof.
  intros Hwf [Hc Hok Ha Hinv]. simpl. split.
  - apply (lines_wf_put _ _ _ _ _ l); [done|done|]. intros Hst. split; [done|].
    intros x Hx. simpl in *. split; [|done]. intros HI. rewrite Ha in Hx. by apply (Hinv HI x).
  - intros b x. rewrite (holds_put cfg il _ _ _ l) by done. simpl. rewrite Ha. split.
    + intros [(-> & -> & Hne)|[Hh [HI|Hne]]]; [by left|right|right]; (split; [|done]); [|done].
      intros ->. by apply (Hinv HI x).
    + intros [(-> & -> & Hne)|[Hne Hh]]; [by left|right]. split; [done|]. right. congruence.
Qed.

(** What a request leaves in the line array, for the new entry [e']. *)
Definition lines_effect (a : Z) (e' : DirectoryEntry) (sets sets' : list CacheSet) : Prop :=
  lines_wf cfg il sets' ∧
  (∀ b st, b ≠ a → holds sets' b st → holds sets b st) ∧
  (∀ st, holds sets' a st → DState e' ≠ Shared ∧ (st = Modified → DState e' = Invalid)).

Lemma lines_effect_put sets sets0 a w l st e' : lines_wf cfg il sets → at_line sets a w l →
  (∀ b st, b ≠ a → holds sets b st → holds sets0 b st) →
  (st ≠ Invalid → DState e' ≠ Shared ∧ (st = Modified → DState e' = Invalid)) →
  lines_effect a e' sets0 (put_line (index_of cfg a) w (setState st l) sets).
Proof.
  intros Hwf Hat Hsub He. destruct (put_state sets a w l st Hwf Hat) as [Hwf' Hh].
  split; [done|]. split; [intros b x Hb; rewrite Hh; naive_solver|]. intros x. rewrite Hh. naive_solver.
Qed.

Lemma lines_effect_same sets sets0 a w l e' : lines_wf cfg il sets → at_line sets a w l →
  (∀ b st, b ≠ a → holds sets b st → holds sets0 b st) →
  (State l ≠ Invalid → DState e' ≠ Shared ∧ (State l = Modified → DState e' = Invalid)) →
  lines_effect a e' sets0 sets.
Proof.
  intros Hwf [Hc Hok Ha Hinv] Hsub He. split; [done|]. split; [done|].
  intros st (i & w' & l' & Hc' & Hst & Hne & Ha'). destruct (decide (State l = Invalid)) as [HI|HI].
  { destruct (Hinv HI st). by exists i, w', l'. }
  assert (l' = l) as ->.
  { destruct (lw_lines _ _ _ Hwf _ _ _ Hc') as (_ & Hi & _); [congruence|]. rewrite Ha' in Hi. subst i.
    assert (w' = w) as -> by (apply (lw_unique _ _ _ Hwf (index_of cfg a) _ _ l' l); congruence). congruence. }
  subst st. by apply He.
Qed.

Lemma home_inv_step s s' a e' : home_inv cfg il s → Directory s' = <[a := e']> (Directory s) →
  entry_ok e' = true → lines_effect a e' (CacheLines s) (CacheLines s') → home_inv cfg il s'.
Proof.
  intros [Hl He Hx] HD Hok (Hwf & Hsub & Ha). split; [done|..]; rewrite HD.
  - intros b e. destruct (decide (a = b)) as [<- | Hne].
    + rewrite lookup_insert_eq. by intros [= <-].
    + rewrite lookup_insert_ne by done. apply He.
  - intros b st Hh. destruct (decide (a = b)) as [<- | Hne].
    + rewrite lookup_insert_eq. exists e'. split; [done|]. by apply Ha.
    + rewrite lookup_insert_ne by done. apply Hx. by apply Hsub.
Qed.

(** ** Requests on a hit, and allocating requests *)

Context (Hexcl : InclusionOfHigher cfg = Exclusive) (Halloc : AllocPolicy cfg = WAllocate).

Lemma exclusive_true : exclusive cfg = true.
Proof. unfold exclusive. by rewrite bool_decide_eq_true_2. Qed.

Lemma lines_effect_sub a e' sets0 sets sets' :
  (∀ b st, b ≠ a → holds sets b st → holds sets0 b st) →
  lines_effect a e' sets sets' → lines_effect a e' sets0 sets'.
Proof. intros Hsub (H1 & H2 & H3). split; [done|]. split; [|done]. intros b st Hb Hh. by apply Hsub, H2. Qed.

Lemma home_effect_after cmd a i e' s0 s s' evs :
  Directory s = Directory s0 → trace s = trace s0 ++ evs →
  home_effect cmd a i e' s s' → home_effect cmd a i e' s0 s'.
Proof.
  intros HD HT [HD' (evs' & HT' & Hinv)]. split; [by rewrite HD', HD|].
  exists (evs ++ evs'). split; [by rewrite HT', HT, app_assoc|].
  intros Hc j Hj Hne. apply Exists_app. right. rewrite HD in Hinv. by apply Hinv.
Qed.

(** The post-condition of the cases of the second [switch]. *)
Definition request_post (cmd : CoherenceCommand) (a w i : Z) (e' : DirectoryEntry) (s s' : cache) : Prop :=
  home_effect cmd a i e' s s' ∧ lines_effect a e' (CacheLines s) (CacheLines s') ∧
  ∃ l, cell (CacheLines s') (index_of cfg a) w = Some l ∧ Address l = a.

Lemma at_line_cell_put sets a w l st : at_line sets a w l →
  ∃ l', cell (put_line (index_of cfg a) w (setState st l) sets) (index_of cfg a) w = Some l' ∧ Address l' = a.
Proof.
  intros [Hc _ Ha _]. exists (setState st l). rewrite (cell_put _ _ _ l) by done.
  by rewrite decide_True.
Qed.

(** Close a goal [request_post] after the line was set to a state, or left alone. *)
Ltac close_request Hwf Hat :=
  split; [close_effect|split;
    [cbn [CacheLines set_CacheLines set_Directory emit count];
     first [eapply lines_effect_put; [exact Hwf|exact Hat|done|]
           |eapply lines_effect_same; [exact Hwf|exact Hat|done|]]
    |cbn [CacheLines set_CacheLines set_Directory emit count];
     first [by apply at_line_cell_put|destruct Hat; eauto]]].

(** The state kept by the home is compatible with the new entry. *)
Ltac solve_kept :=
  lazymatch goal with
  | |- _ ≠ Invalid → _ =>
      let Hx := fresh in
      intros Hx; first
        [ by destruct Hx
        | split; [discriminate|]; intros ?; exfalso;
          match goal with E : is_state _ _ = false |- _ =>
            unfold is_state in E; apply bool_decide_eq_false in E; congruence end ]
  end.

Ltac upd_step Hat :=
  eapply runs_updLine; [cbn [CacheLines set_CacheLines set_Directory emit count]; exact (al_cell _ _ _ _ Hat)|].

Lemma homePrepare_spec s a isHit w l req hdl stat :
  fits cfg il a → lines_wf cfg il (CacheLines s) → looked_up (CacheLines s) a isHit (index_of cfg a) w l →
  runs (homePrepare cfg respond isHit (index_of cfg a, Some w) a req hdl stat) s (fun _ s' =>
    Directory s' = Directory s ∧ (∃ evs, trace s' = trace s ++ evs) ∧ lines_wf cfg il (CacheLines s') ∧
    (∀ b st, b ≠ a → holds (CacheLines s') b st → holds (CacheLines s) b st) ∧
    ∃ l', at_line (CacheLines s') a w l' ∧ if isHit then l' = l else State l' = Invalid).
Proof.
  intros Hfits Hwf [Hc Hl]. unfold homePrepare. apply runs_bind. eapply runs_getLine; [exact Hc|].
  destruct isHit; cbn [negb andb].
  - destruct Hl as [Ha Hst]. home_steps Hresp. split_and!; try done; [by exists []; rewrite app_nil_r|].
    exists l. split; [|done]. destruct (lw_lines _ _ _ Hwf _ _ _ Hc Hst) as (H1 & H2 & H3).
    split; [done|by split_and!|done|by intros].
  - apply runs_bind. eapply runs_conseq with (Q := fun _ s1 =>
      CacheLines s1 = CacheLines s ∧ Directory s1 = Directory s ∧ ∃ evs, trace s1 = trace s ++ evs).
    { home_steps Hresp; split_and!; try done; [by eexists|by exists []; rewrite app_nil_r]. }
    intros stat' s1 (HL & HD & HT). rewrite Halloc, bool_decide_eq_true_2 by done. unfold m_when.
    apply runs_bind. unfold prepare_line. rewrite <- HL in Hc, Hwf, Hl. eapply runs_updLine; [exact Hc|].
    set (l' := setHandle hdl (setNewLine a (tag_of cfg a) l)).
    assert (cell (put_line (index_of cfg a) w l' (CacheLines s1)) (index_of cfg a) w = Some l') as Hc'.
    { rewrite (cell_put _ _ _ l) by done. by rewrite decide_True. }
    apply runs_bind. eapply runs_getLine; [exact Hc'|]. home_steps Hresp. simpl.
    split_and!; [done|done| |..].
    + by apply (lines_wf_put _ _ _ _ _ l).
    + intros b st Hb. rewrite (holds_put cfg il _ _ _ l) by done. simpl. rewrite <- HL.
      intros [(? & ? & ?)|[Hh _]]; [congruence|done].
    + exists l'. split; [|done]. split; [done| |done|].
      * split_and!; [done|done|]. by simpl.
      * intros _ st. rewrite (holds_put cfg il _ _ _ l) by done. simpl.
        intros [(_ & ? & ?)|[Hh _]]; [congruence|by apply (Hl st)].
Qed.

Lemma homePutS_spec s a w l i stat e' :
  (∀ e, Directory s !! a = Some e → entry_ok e = true) → lines_wf cfg il (CacheLines s) →
  at_line (CacheLines s) a w l → State l = Invalid →
  home_next PutS i (dir_entry (Directory s) a) = Some e' →
  runs (homePutS cfg false (index_of cfg a, Some w) a i stat) s
    (fun _ s' => request_post PutS a w i e' s s').
Proof.
  intros Hok Hwf Hat Hl Hn. unfold homePutS, dir_entry in *. rewrite exclusive_true.
  destruct (Directory s !! a) as [e|] eqn:He; simpl in Hn; [|done]. specialize (Hok e eq_refl).
  destruct (entry_ok_cases e Hok) as [-> | [(ids & -> & Hids)|(o & -> & Ho)]]; simpl in Hn; simplify_eq.
  home_steps Hresp;
    match goal with H : bool_decide _ = _ |- _ =>
      first [apply bool_decide_eq_true in H; rewrite H; rewrite decide_True by done
            |apply bool_decide_eq_false in H; rewrite decide_False by done] end.
  - upd_step Hat. home_steps Hresp. close_request Hwf Hat; [discriminate|]. by intros.
  - home_steps Hresp. close_request Hwf Hat; [discriminate|]. congruence.
Qed.

Lemma homePutM_spec s a w l i stat e' :
  (∀ e, Directory s !! a = Some e → entry_ok e = true) → lines_wf cfg il (CacheLines s) →
  at_line (CacheLines s) a w l →
  home_next PutM i (dir_entry (Directory s) a) = Some e' →
  runs (homePutM (index_of cfg a, Some w) a i stat) s (fun _ s' => request_post PutM a w i e' s s').
Proof.
  intros Hok Hwf Hat Hn. unfold homePutM, dir_entry in *.
  destruct (Directory s !! a) as [e|] eqn:He; simpl in Hn; [|done]. specialize (Hok e eq_refl).
  destruct (entry_ok_cases e Hok) as [-> | [(ids & -> & Hids)|(o & -> & Ho)]]; simpl in Hn;
    repeat case_decide; simplify_eq.
  apply runs_bind. upd_step Hat. home_steps Hresp. close_request Hwf Hat; [discriminate|]. by intros.
Qed.

(** On a hit in an exclusive home the entry is not [Shared]. *)
Lemma homeGetS_spec s a w l req i stat e e' :
  Directory s !! a = Some e → entry_ok e = true → lines_wf cfg il (CacheLines s) →
  at_line (CacheLines s) a w l →
  home_next GetS i e = Some e' →
  runs (homeGetS cfg respond true (index_of cfg a, Some w) a req i stat) s
    (fun _ s' => request_post GetS a w i e' s s').
Proof.
  intros He Hok Hwf Hat Hn. unfold homeGetS. rewrite exclusive_true. pose proof (al_cell _ _ _ _ Hat) as Hc.
  destruct (entry_ok_cases e Hok) as [-> | [(ids & -> & Hids)|(o & -> & Ho)]]; simpl in Hn; simplify_eq;
    home_steps Hresp; upd_step Hat; home_steps Hresp; close_request Hwf Hat;
    first [discriminate|congruence].
Qed.

Lemma homeGetM_spec s a w l req i stat e e' :
  Directory s !! a = Some e → entry_ok e = true → lines_wf cfg il (CacheLines s) →
  at_line (CacheLines s) a w l →
  home_next GetM i e = Some e' →
  runs (homeGetM cfg respond true (index_of cfg a, Some w) a req i stat) s
    (fun _ s' => request_post GetM a w i e' s s').
Proof.
  intros He Hok Hwf Hat Hn. unfold homeGetM. rewrite exclusive_true. pose proof (al_cell _ _ _ _ Hat) as Hc.
  destruct (entry_ok_cases e Hok) as [-> | [(ids & -> & Hids)|(o & -> & Ho)]]; simpl in Hn;
    repeat case_decide; simplify_eq; home_steps Hresp; try (upd_step Hat; home_steps Hresp);
    close_request Hwf Hat; try solve_kept; intros _ j; unfold dir_entry; rewrite He; simpl; intros Hj Hne;
    first
      [ exfalso; clear -Hj Hne; set_solver
      | match goal with E : bool_decide (_ ∖ _ = ∅) = true |- _ =>
          apply bool_decide_eq_true in E; exfalso; clear -Hj Hne E; set_solver end
      | repeat first [apply Exists_cons_hd; simpl; split; [done|]; clear -Hj Hne; set_solver
                     |apply Exists_cons_tl] ].
Qed.

(** ** One request *)

Lemma check_request_runs s a isHit w l (Q : unit → cache → Prop) :
  fits cfg il a → home_inv cfg il s → looked_up (CacheLines s) a isHit (index_of cfg a) w l →
  Q tt s → runs (check_request cfg isHit (index_of cfg a, Some w) (CacheLineSize cfg) a) s Q.
Proof.
  intros Hfits Hinv [Hc Hl] HQ. unfold check_request.
  apply runs_bind, runs_assert; [by rewrite (fits_offset _ _ _ Hfits)|].
  apply runs_bind, runs_assert; [by rewrite bool_decide_eq_true_2|].
  destruct isHit; [|done]. destruct Hl as [Ha Hst]. home_steps Hresp. apply runs_assert.
  { rewrite Ha, Z.sub_diag, !bool_decide_eq_true_2; [done|apply (cw_line _ Hcfg)|lia]. }
  home_steps Hresp; [|done]. unfold is_state in H. apply bool_decide_eq_true in H.
  destruct (hi_exclusive _ _ _ Hinv a Modified) as (e & He & _ & Hinvd).
  { rewrite <- Ha, <- H. by apply (holds_cell _ (index_of cfg a) w). }
  eapply runs_dir_at; [done|]. apply runs_assert; [|done]. unfold is_dstate. by rewrite Hinvd.
Qed.

(** Counting and notifying touch neither the lines nor the directory. *)
Lemma count_notify_runs s cmd a isHit w l (Q : unit → cache → Prop) :
  cell (CacheLines s) a w = Some l →
  (∀ s', CacheLines s' = CacheLines s → Directory s' = Directory s →
     (∃ evs, trace s' = trace s ++ evs) → Q tt s') →
  runs (count_request cmd isHit (a, Some w) ;;; notify_eviction cfg isHit (a, Some w)) s Q.
Proof.
  intros Hc HQ.
  assert (∀ s1 Q, CacheLines s1 = CacheLines s →
    (∀ s', CacheLines s' = CacheLines s1 → Directory s' = Directory s1 →
       (∃ evs, trace s' = trace s1 ++ evs) → Q tt s') →
    runs (notify_eviction cfg isHit (a, Some w)) s1 Q) as Hnotify.
  { intros s1 Q1 HL HQ1. rewrite <- HL in Hc. unfold notify_eviction.
    destruct isHit; home_steps Hresp; apply HQ1; try done; solve [by eexists|exists []; by rewrite app_nil_r]. }
  apply runs_bind. unfold count_request.
  destruct cmd; try destruct isHit; home_steps Hresp; apply Hnotify; try done; intros s' H1 H2 H3; by apply HQ.
Qed.

(** The part of a request from the preparation of the line to the final test. *)
Lemma allocating_runs s cmd a w l isHit req hdl i e' (m : tlm_response_status → M cache tlm_response_status) :
  fits cfg il a → lines_wf cfg il (CacheLines s) → looked_up (CacheLines s) a isHit (index_of cfg a) w l →
  entry_ok e' = true →
  (∀ stat s3 l', Directory s3 = Directory s → lines_wf cfg il (CacheLines s3) →
     at_line (CacheLines s3) a w l' → (if isHit then l' = l else State l' = Invalid) →
     runs (m stat) s3 (fun _ s' => request_post cmd a w i e' s3 s')) →
  runs (stat <- homePrepare cfg respond isHit (index_of cfg a, Some w) a req hdl TLM_OK_RESPONSE ;;
        stat <- m stat ;; check_entry (index_of cfg a, Some w) a ;;; m_ret stat) s
    (fun _ s' => home_effect cmd a i e' s s' ∧ lines_effect a e' (CacheLines s) (CacheLines s')).
Proof.
  intros Hfits Hwf Hlook Hok' Hm. apply runs_bind.
  eapply runs_conseq; [by apply (homePrepare_spec s a isHit w l)|].
  intros stat s3 (HD3 & [evs3 HT3] & Hwf3 & Hsub & l' & Hat & Hl').
  apply runs_bind. eapply runs_conseq; [by apply (Hm stat s3 l')|].
  intros stat' s4 (Heff & Hle & l4 & Hc4 & Ha4). unfold check_entry.
  assert (Directory s4 !! a = Some e') as He4 by (rewrite (proj1 Heff); apply lookup_insert_eq).
  apply runs_bind, runs_bind. eapply runs_getLine; [exact Hc4|]. rewrite Ha4.
  home_steps Hresp. split; [by eapply home_effect_after|by eapply lines_effect_sub].
Qed.

Lemma accessCoherentHome_runs s cmd a req i hdl e' :
  fits cfg il a → i ≠ NULL_IDX → home_inv cfg il s →
  home_next cmd i (dir_entry (Directory s) a) = Some e' →
  runs (accessCoherentHome cfg respond cmd (CacheLineSize cfg) a req i hdl) s (fun _ s' =>
    home_inv cfg il s' ∧ home_effect cmd a i e' s s').
Proof.
  intros Hfits Hi Hinv Hn. unfold accessCoherentHome. apply runs_bind.
  apply (runs_access_set cfg il); [done|apply Hinv|done|].
  intros sets isHit w l Hwf Hsame Hlook. cbn [fst snd].
  apply runs_bind, runs_assert; [by rewrite bool_decide_eq_false_2|].
  assert (home_inv cfg il (set_CacheLines sets s)) as Hinv1.
  { destruct Hinv as [_ H2 H3]. split; [done|done|]. intros b st. simpl. rewrite Hsame. apply H3. }
  apply runs_bind. eapply check_request_runs; [done|done|exact Hlook|].
  apply runs_seq_assoc, runs_bind. eapply count_notify_runs; [exact (proj1 Hlook)|].
  intros s2 HL2 HD2 [evs2 HT2]. simpl in HL2, HD2, HT2.
  assert (home_inv cfg il s2) as Hinv2.
  { destruct Hinv1 as [H1 H2 H3]. split; rewrite ?HL2, ?HD2; done. }
  assert (∀ e, Directory s2 !! a = Some e → entry_ok e = true) as Hok by apply Hinv2.
  rewrite <- HD2 in Hn. rewrite <- HL2 in Hlook, Hwf. clear Hinv1.
  assert (entry_ok (dir_entry (Directory s2) a) = true) as Hoke.
  { unfold dir_entry. destruct (Directory s2 !! a) eqn:E; [by apply Hok|done]. }
  pose proof (home_next_ok _ _ _ _ Hi Hoke Hn) as Hok'.
  apply (runs_conseq _ _ (fun _ s3 => home_effect cmd a i e' s2 s3 ∧
    lines_effect a e' (CacheLines s2) (CacheLines s3))).
  2: { intros _ s3 [Heff Hle]. split; [|by eapply home_effect_after].
       by apply (home_inv_step s2 s3 a e'); [|apply Heff|..]. }
  assert (isHit = true → ∃ e, Directory s2 !! a = Some e ∧ DState e ≠ Shared) as Hhit.
  { intros ->. destruct Hlook as [Hc [Ha Hst]].
    destruct (hi_exclusive _ _ _ Hinv2 a (State l)) as (e & He & Hne & _); [|by exists e].
    rewrite <- Ha. by apply (holds_cell _ (index_of cfg a) w). }
  assert (isHit = false → ∀ s3, CacheLines s3 = CacheLines s2 → lines_effect a e' (CacheLines s2) (CacheLines s3))
    as Hmiss.
  { intros -> s3 ->. split; [done|]. split; [done|]. intros st Hh. by destruct (proj2 Hlook st). }
  rewrite exclusive_true. destruct cmd; try done; destruct isHit; cbn [andb negb].
  - eapply allocating_runs; try done. intros stat s3 l' HD Hwf3 Hat _. destruct (Hhit eq_refl) as (e & He & _).
    unfold dir_entry in Hn. rewrite He in Hn. apply (homeGetS_spec _ _ _ l' _ _ _ e); try done; [by rewrite HD|by apply Hok].
  - eapply runs_conseq; [by apply homeMissGetS_spec|]. intros _ s3 [HL Heff]. split; [done|by apply Hmiss].
  - eapply allocating_runs; try done. intros stat s3 l' HD Hwf3 Hat _. destruct (Hhit eq_refl) as (e & He & _).
    unfold dir_entry in Hn. rewrite He in Hn. apply (homeGetM_spec _ _ _ l' _ _ _ e); try done; [by rewrite HD|by apply Hok].
  - eapply runs_conseq; [by apply homeMissGetM_spec|]. intros _ s3 [HL Heff]. split; [done|by apply Hmiss].
  - destruct (Hhit eq_refl) as (e & He & Hne). unfold dir_entry in Hn. rewrite He in Hn.
    unfold home_next in Hn. simpl in Hn. by destruct (DState e).
  - eapply allocating_runs; try done. intros stat s3 l' HD Hwf3 Hat Hl'. eapply homePutS_spec; rewrite ?HD; done.
  - eapply allocating_runs; try done. intros stat s3 l' HD Hwf3 Hat Hl'. eapply homePutM_spec; rewrite ?HD; done.
  - eapply allocating_runs; try done. intros stat s3 l' HD Hwf3 Hat Hl'. eapply homePutM_spec; rewrite ?HD; done.
Qed.
End home.

(** ** Sequences of requests *)

(** A request: command, line address, requesting cache. *)
Definition request : Type := CoherenceCommand * Z * Z.

(** The abstract directory after a sequence of requests, [None] if one is illegal. *)
Fixpoint home_run (reqs : list request) (d : gmap Z DirectoryEntry) : option (gmap Z DirectoryEntry) :=
  match reqs with
  | [] => Some d
  | (cmd, a, i) :: reqs => e ← home_next cmd i (dir_entry d a); home_run reqs (<[a := e]> d)
  end.

(** The home serving them one after the other. *)
Definition serve (cfg : config) (respond : Call → result tlm_response_status) (reqs : list request) :
    M cache unit :=
  m_forM reqs (fun '(cmd, a, i) =>
    accessCoherentHome cfg respond cmd (CacheLineSize cfg) a i i 0 ;;; m_ret tt).

Lemma serve_runs cfg il respond reqs s d :
  config_wf cfg → (∀ c, call_ok c → ∃ r, respond c = Ok r) →
  InclusionOfHigher cfg = Exclusive → AllocPolicy cfg = WAllocate →
  (∀ cmd a i, (cmd, a, i) ∈ reqs → fits cfg il a ∧ i ≠ NULL_IDX) →
  home_inv cfg il s → home_run reqs (Directory s) = Some d →
  runs (serve cfg respond reqs) s (fun _ s' => home_inv cfg il s' ∧ Directory s' = d).
Proof.
  intros Hcfg Hresp Hex Hal. revert s.
  induction reqs as [|[[cmd a] i] reqs IH]; intros s Hreqs Hinv Hrun; [by simplify_eq/=|].
  cbn [home_run] in Hrun. destruct (home_next cmd i (dir_entry (Directory s) a)) as [e|] eqn:Hn; [|done].
  simpl in Hrun. destruct (Hreqs cmd a i) as [Hfits Hi]; [left|].
  unfold serve. cbn [m_forM]. apply runs_bind, runs_bind.
  eapply runs_conseq; [by eapply (accessCoherentHome_runs cfg il)|].
  intros stat s' [Hinv' [HD _]]. apply runs_ret. apply IH; [|done|by rewrite HD].
  intros cmd' a' i' Hin. apply (Hreqs cmd'). by right.
Qed.

(** ** Theorems *)

Definition home_example : config :=
  match new_config 1024 64 2 0 example_params with Ok c => c | Err _ =>
    mkConfig 0 0 0 0 0 0 0 0 0 0 0 0 0 0 LRU WBack WAllocate false 0 false false NINE NINE false 0 end.

Lemma home_example_wf : config_wf home_example.
Proof. by apply (new_config_wf 1024 64 2 0 example_params). Qed.

Lemma fits_example a : in_u64 a → offset_of home_example a = 0 → in_u32 (tag_of home_example a) →
  fits home_example 0 a.
Proof. intros H1 H2 H3. split; try done. unfold interleave_of. simpl. by rewrite Z.mod_1_r. Qed.

Definition home_example_state : cache :=
  match new_cache home_example with Ok s => s | Err _ => mkCache [] ∅ ∅ (fun _ => 0) [] end.

Lemma home_example_inv : home_inv home_example 0 home_example_state.
Proof.
  destruct (new_cache_wf home_example 0 home_example_state) as (H1 & H2 & H3 & _);
    [done|done|done|vm_compute; reflexivity|].
  split; [done|by rewrite H3|]. intros a st Hh. by destruct (H2 a st).
Qed.

(** C1: an exclusive home in a consistent state serves every request that the
    protocol allows: no assertion fails, the invariant is kept, the directory entry
    of the line becomes the one of the protocol and no other entry changes, and on a
    [GetM] every other cache with a copy is sent an invalidation. *)
Theorem home_exclusive_refines cfg il respond s cmd a req i hdl e'
    (Hcfg : config_wf cfg) (Hresp : ∀ c, call_ok c → ∃ r, respond c = Ok r)
    (Hexcl : InclusionOfHigher cfg = Exclusive) (Halloc : AllocPolicy cfg = WAllocate)
    (Hfits : fits cfg il a) (Hi : i ≠ NULL_IDX) (Hinv : home_inv cfg il s)
    (Hlegal : home_next cmd i (dir_entry (Directory s) a) = Some e') :
  runs (accessCoherentHome cfg respond cmd (CacheLineSize cfg) a req i hdl) s (fun _ s' =>
    home_inv cfg il s' ∧ dir_entry (Directory s') a = e' ∧
    (∀ b, b ≠ a → Directory s' !! b = Directory s !! b) ∧
    ∃ evs, trace s' = trace s ++ evs ∧
      (cmd = GetM → ∀ j, j ∈ copies (dir_entry (Directory s) a) → j ≠ i → Exists (invalidates a j) evs)).
Proof.
  eapply runs_conseq; [by apply (accessCoherentHome_runs cfg il respond Hcfg Hresp Hexcl Halloc)|].
  intros stat s' [Hinv' [HD Hevs]]. split; [done|]. unfold dir_entry at 1. rewrite HD, lookup_insert_eq.
  split; [done|]. split; [|done]. intros b Hb. by rewrite lookup_insert_ne.
Qed.

Lemma home_exclusive_refines_witness :
  runs (accessCoherentHome home_example (fun _ => Ok TLM_OK_RESPONSE) GetM 64 128 3 3 0) home_example_state
    (fun _ s' => home_inv home_example 0 s' ∧ dir_entry (Directory s') 128 = modified_entry 3).
Proof.
  eapply runs_conseq.
  - apply (home_exclusive_refines home_example 0 (fun _ => Ok TLM_OK_RESPONSE) home_example_state GetM 128 3 3 0
      (modified_entry 3)); [apply home_example_wf|by eexists|reflexivity|reflexivity| |discriminate
      |apply home_example_inv|reflexivity].
    apply fits_example; [done|reflexivity|done].
  - intros stat s' (H1 & H2 & _). by split.
Defined.

(** C2: from a new exclusive home, every sequence of requests that is legal in the
    abstract protocol is served to its end, and the directory is then the abstract
    one. *)
Theorem home_serves_legal_sequences cfg il respond reqs s d
    (Hcfg : config_wf cfg) (Hresp : ∀ c, call_ok c → ∃ r, respond c = Ok r)
    (Hexcl : InclusionOfHigher cfg = Exclusive) (Halloc : AllocPolicy cfg = WAllocate)
    (Hpol : ReplPolicy cfg ≠ FIFO) (Hassoc : 0 < Assoc cfg < 2 ^ 32) (Hline : 0 ≤ CacheLineSize cfg < 2 ^ 32)
    (Hnew : new_cache cfg = Ok s)
    (Hreqs : ∀ cmd a i, (cmd, a, i) ∈ reqs → fits cfg il a ∧ i ≠ NULL_IDX)
    (Hrun : home_run reqs ∅ = Some d) :
  runs (serve cfg respond reqs) s (fun _ s' => home_inv cfg il s' ∧ Directory s' = d).
Proof.
  destruct (new_cache_wf cfg il s Hpol Hassoc Hline Hnew) as (H1 & H2 & H3 & _).
  apply serve_runs; try done; [|by rewrite H3].
  split; [done|by rewrite H3|]. intros a st Hh. by destruct (H2 a st).
Qed.

Definition example_requests : list request :=
  [(GetM, 0, 1); (GetS, 0, 2); (PutS, 0, 1); (PutS, 0, 2); (GetM, 0, 3); (PutM, 0, 3); (GetS, 0, 1)].

Lemma home_serves_legal_sequences_witness :
  runs (serve home_example (fun _ => Ok TLM_OK_RESPONSE) example_requests) home_example_state
    (fun _ s' => Directory s' = {[0 := shared_entry {[1]}]}).
Proof.
  eapply runs_conseq.
  - apply (home_serves_legal_sequences home_example 0 (fun _ => Ok TLM_OK_RESPONSE) example_requests
      home_example_state {[0 := shared_entry {[1]}]});
      [apply home_example_wf|by eexists|reflexivity|reflexivity|discriminate|done|done
      |vm_compute; reflexivity| |vm_compute; reflexivity].
    intros cmd a i Hin. unfold example_requests in Hin.
    assert (a = 0 ∧ i ≠ NULL_IDX) as [-> Hi] by set_solver.
    split; [|done]. apply fits_example; [done|reflexivity|done].
  - by intros stat s' [_ H].
Defined.

(** a home that is not exclusive does not clean its line when it hands the line
    out for modification: after [GetM], [PutM] of one cache and [GetM] of a second
    one, the [PutM] of the second (its legal write-back) fails the assertion that the
    line is not dirty in both places. *)
Theorem home_nine_assertion_fails :
  ∃ cfg s, new_config 1024 64 2 0 (mkParams LRU WBack WAllocate false 3 NINE NINE true true false 0) = Ok cfg ∧
    new_cache cfg = Ok s ∧
    let reqs := [(GetM, 0, 1); (PutM, 0, 1); (GetM, 0, 2)] in
    is_Some (home_run (reqs ++ [(PutM, 0, 2)]) ∅) ∧
    is_ok (serve cfg (fun _ => Ok TLM_OK_RESPONSE) reqs s).1 = true ∧
    (serve cfg (fun _ => Ok TLM_OK_RESPONSE) (reqs ++ [(PutM, 0, 2)]) s).1 = Err AssertionFailed.
Proof.
  eexists. eexists. split; [vm_compute; reflexivity|]. split; [vm_compute; reflexivity|].
  split; [by eexists|]. split; vm_compute; reflexivity.
Qed.
