(* ===== verification/CacheCpu.v ===== *)
(** * The private first-level cache in coherent mode ([CacheBase::accessCpuCache])

    Reads and writes of a CPU, with requests that cross lines, and the forwarded
    requests of the lower cache.  The theorems show that an access always ends, that
    the line is then held in the right state, and that every line that leaves the
    cache was announced to the lower cache with the message for its state. *)

From S2P Require Import Prelude Tlm CacheSet CacheBase CacheGeometry CacheHome.

(** The write-back message for a line in a given state. *)
Definition put_call (cfg : config) (req : Z) (st : CoherenceState) (a : Z) : Call :=
  match st with
  | Modified => SendPutM a (CacheLineSize cfg) req
  | _ => SendPutS a (CacheLineSize cfg) req
  end.

(** The base address of the line of [addr]. *)
Definition base_of (cfg : config) (addr : Z) : Z := addr - offset_of cfg addr.

Section cpu.
Context (cfg : config) (respond : Call → result tlm_response_status).
Context (Hcfg : config_wf cfg) (Hresp : ∀ c, call_ok c → ∃ r, respond c = Ok r).
Context (Hline : CacheLineSize cfg = 2 ^ OffsetBits cfg) (Hslice : InterleaveBits cfg = 0).
Context (Halloc : AllocPolicy cfg = WAllocate) (Hwb : WritePolicy cfg = WBack).
Implicit Types s : cache.

(** The addresses whose tags fit a line. *)
Definition addressable (addr : Z) : Prop := 0 ≤ addr < 2 ^ 64 ∧ addr < 2 ^ (TagShift cfg + 32).

Lemma offset_range addr : 0 ≤ offset_of cfg addr < CacheLineSize cfg.
Proof. rewrite offset_eq, Hline by done. apply Z.mod_pos_bound. destruct Hcfg. lia. Qed.

Lemma base_div addr k : OffsetBits cfg ≤ k → base_of cfg addr / 2 ^ k = addr / 2 ^ k.
Proof.
  intros Hk. unfold base_of. rewrite offset_eq by done. destruct Hcfg as [_ (Ho & _)].
  pose proof (Z.div_mod addr (2 ^ OffsetBits cfg) ltac:(lia)) as Hd.
  replace (addr - addr mod 2 ^ OffsetBits cfg) with (addr / 2 ^ OffsetBits cfg * 2 ^ OffsetBits cfg) by lia.
  replace k with (OffsetBits cfg + (k - OffsetBits cfg)) by lia. rewrite Z.pow_add_r by lia.
  rewrite <- !Z.div_div by lia. by rewrite Z.div_mul by lia.
Qed.

Lemma base_range addr : addressable addr → 0 ≤ base_of cfg addr ≤ addr.
Proof.
  intros [Ha _]. pose proof (offset_range addr). unfold base_of.
  rewrite offset_eq in * by done. destruct Hcfg as [_ (Ho & _)].
  pose proof (Z.mod_le addr (2 ^ OffsetBits cfg) ltac:(lia) ltac:(lia)). lia.
Qed.

(** The fields of an address and of the base of its line. *)
Lemma base_fields addr : addressable addr →
  index_of cfg (base_of cfg addr) = index_of cfg addr ∧ tag_of cfg (base_of cfg addr) = tag_of cfg addr ∧
  fits cfg 0 (base_of cfg addr).
Proof.
  intros Ha. pose proof (base_range addr Ha) as Hb. destruct Ha as [Ha Ht].
  pose proof Hcfg as [_ (Ho & Hi & Hx & _) _ His Hts _ _ _ _ _].
  assert (tag_of cfg (base_of cfg addr) = tag_of cfg addr) as Htag.
  { rewrite !tag_eq by (done || unfold in_u64; lia). apply base_div. lia. }
  split; [rewrite !index_eq, base_div by (done || lia); done|]. split; [done|]. split.
  - unfold in_u64. lia.
  - rewrite offset_eq by done. unfold base_of. rewrite offset_eq by done.
    rewrite Zminus_mod_idemp_r, Z.sub_diag. apply Z.mod_0_l. lia.
  - rewrite Htag, tag_eq by (done || unfold in_u64; lia). unfold in_u32.
    split; [apply Z.div_pos; lia|]. apply Z.div_lt_upper_bound; [lia|].
    rewrite <- Z.pow_add_r by lia. lia.
  - unfold interleave_of. rewrite Hslice. by rewrite Z.mod_1_r.
Qed.

Lemma u64_base addr : addressable addr → u64 (addr - offset_of cfg addr) = base_of cfg addr.
Proof. intros Ha. pose proof (base_range addr Ha). destruct Ha. apply u64_small. unfold in_u64, base_of in *. lia. Qed.

(** What a call does to the lines other than that of [b]: none appears, and each one
    that disappears was written back with the message for its state. *)
Definition accounted (req b : Z) (s s' : cache) (evs : list Event) : Prop :=
  (∀ c x, c ≠ b → holds (CacheLines s') c x → holds (CacheLines s) c x) ∧
  (∀ c x, c ≠ b → holds (CacheLines s) c x →
     holds (CacheLines s') c x ∨ Called (put_call cfg req x c) ∈ evs).

Definition same_requests (s s' : cache) : Prop :=
  counters s' NReads = counters s NReads ∧ counters s' NWrites = counters s NWrites.

Lemma cpuPrepare_spec s addr isHit w l req hdl stat :
  let b := base_of cfg addr in
  addressable addr → lines_wf cfg 0 (CacheLines s) →
  looked_up (CacheLines s) b isHit (index_of cfg b) w l →
  runs (cpuPrepare cfg respond isHit (index_of cfg b, Some w) addr req hdl stat) s (fun _ s' =>
    lines_wf cfg 0 (CacheLines s') ∧ same_requests s s' ∧
    (∃ evs, trace s' = trace s ++ evs ∧ accounted req b s s' evs) ∧
    ∃ l', at_line cfg 0 (CacheLines s') b w l' ∧ if isHit then l' = l ∧ s' = s else State l' = Invalid).
Proof.
  intros b Haddr Hwf [Hc Hl]. destruct (base_fields addr Haddr) as (Hidx & Htag & Hfits).
  unfold cpuPrepare. apply runs_bind. eapply runs_getLine; [exact Hc|].
  destruct isHit; cbn [negb andb].
  - destruct Hl as [Ha Hst]. home_steps Hresp. split_and!; try done.
    { exists []. split; [by rewrite app_nil_r|]. split; [done|]. by left. }
    exists l. split; [|done]. destruct (lw_lines _ _ _ Hwf _ _ _ Hc Hst) as (H1 & H2 & H3).
    split; [done|by split_and!|done|by intros].
  - apply runs_bind. rewrite (u64_base addr Haddr), Hwb, (bool_decide_eq_true_2 (WBack = WBack)) by done.
    rewrite andb_true_r.
    set (l1 := setState Invalid l).
    apply (runs_conseq _ _ (fun _ s1 => same_requests s s1 ∧
      ((State l = Invalid ∧ s1 = s) ∨
       (State l ≠ Invalid ∧ CacheLines s1 = put_line (index_of cfg b) w l1 (CacheLines s) ∧
        trace s1 = trace s ++ [Called (put_call cfg req (State l) (Address l))])))).
    { unfold is_state, assign_if. case_bool_decide as Hst; cbn [negb].
      - home_steps Hresp. split; [done|by left].
      - destruct (State l) eqn:E; [..|done]; home_steps Hresp;
          (eapply runs_updLine; [exact Hc|]); apply runs_ret; (split; [done|right]); by split_and!. }
    intros stat' s1 (Hcnt & Hs1).
    assert (∃ l1', cell (CacheLines s1) (index_of cfg b) w = Some l1' ∧ State l1' = Invalid ∧
      lines_wf cfg 0 (CacheLines s1) ∧ (∀ c x, holds (CacheLines s1) c x ↔
        holds (CacheLines s) c x ∧ (State l = Invalid ∨ Address l ≠ c))) as (l1' & Hc1 & Hinv1 & Hwf1 & Hh1).
    { destruct Hs1 as [[HI ->]|(Hne & HL & _)].
      - exists l. split_and!; try done. intros c x. tauto.
      - exists l1. rewrite HL. split_and!; [by rewrite (cell_put _ _ _ l), decide_True|done| |].
        + by apply (lines_wf_put _ _ _ _ _ l).
        + intros c x. rewrite (holds_put cfg 0 _ _ _ l) by done. simpl. split; [|tauto].
          intros [(_ & <- & ?)|?]; done. }
    apply runs_bind. eapply runs_getLine; [exact Hc1|].
    assert (is_state l1' Shared = false) as -> by (unfold is_state; by rewrite Hinv1).
    apply runs_bind, runs_ret. rewrite Halloc, (bool_decide_eq_true_2 (WAllocate = WAllocate)) by done.
    apply runs_bind. eapply runs_updLine; [exact Hc1|]. apply runs_ret. fold b. simpl.
    set (l2 := setHandle hdl (setNewLine b (tag_of cfg addr) l1')).
    assert (∀ c x, holds (put_line (index_of cfg b) w l2 (CacheLines s1)) c x ↔
      holds (CacheLines s) c x ∧ (State l = Invalid ∨ Address l ≠ c)) as Hh2.
    { intros c x. rewrite (holds_put cfg 0 _ _ _ l1') by done. simpl. rewrite Hh1. naive_solver. }
    split_and!; [by apply (lines_wf_put _ _ _ _ _ l1')|done| |].
    + exists (if decide (State l = Invalid) then [] else [Called (put_call cfg req (State l) (Address l))]).
      split; [|split].
      * destruct Hs1 as [[HI ->]|(Hne & _ & ->)]; case_decide; done || by rewrite app_nil_r.
      * intros c x _. simpl. rewrite Hh2. tauto.
      * intros c x Hcb Hh. simpl. rewrite Hh2. case_decide as HI; [tauto|].
        destruct (decide (Address l = c)) as [Hac|]; [right|tauto].
        subst c. rewrite (holds_functional cfg 0 _ _ _ l x Hwf Hc HI Hh). by apply list_elem_of_singleton.
    + exists l2. split; [|done]. split; [by rewrite (cell_put _ _ _ l1'), decide_True| |done|].
      * split_and!; [done|done|]. simpl. unfold b. by rewrite Htag.
      * intros _ x. rewrite Hh2. intros [Hh _]. by apply (Hl x).
Qed.

(** The request a miss or an upgrade sends to the lower cache. *)
Definition get_call (mode : CoherenceCommand) (req b : Z) : Call :=
  if decide (mode = Write) then SendGetM b (CacheLineSize cfg) req else SendGetS b (CacheLineSize cfg) req.

(** The line is already held in a state that serves the request. *)
Definition served (mode : CoherenceCommand) (sets : list CacheSet) (b : Z) : Prop :=
  if decide (mode = Write) then holds sets b Modified else ∃ x, holds sets b x.

Definition request_counter (mode : CoherenceCommand) : Counter :=
  if decide (mode = Write) then NWrites else NReads.

(** What the access to one line does. *)
Record line_post (mode : CoherenceCommand) (req b : Z) (s s' : cache) (evs : list Event) : Prop := {
  lp_wf : lines_wf cfg 0 (CacheLines s');
  lp_trace : trace s' = trace s ++ evs;
  lp_others : accounted req b s s' evs;
  lp_line : served mode (CacheLines s') b;
  lp_silent : served mode (CacheLines s) b → evs = [] ∧ (∀ x, holds (CacheLines s') b x ↔ holds (CacheLines s) b x);
  lp_request : ¬ served mode (CacheLines s) b → Called (get_call mode req b) ∈ evs;
  lp_count : counters s' (request_counter mode) = u64 (counters s (request_counter mode) + 1)
}.

Lemma notify_runs s i isHit w l (Q : unit → cache → Prop) :
  cell (CacheLines s) i w = Some l →
  (∀ s' evs, CacheLines s' = CacheLines s → counters s' = counters s → trace s' = trace s ++ evs →
     (isHit = true → evs = []) → Q tt s') →
  runs (notify_eviction cfg isHit (i, Some w)) s Q.
Proof.
  intros Hc HQ. unfold notify_eviction. destruct isHit; home_steps Hresp.
  - apply (HQ s []); try done. by rewrite app_nil_r.
  - by eapply HQ.
  - apply (HQ s []); try done. by rewrite app_nil_r.
Qed.

(** The last part: the line is brought to the state the request needs. *)
Lemma cpu_serve_read s b (isHit : bool) w l req stat : lines_wf cfg 0 (CacheLines s) → at_line cfg 0 (CacheLines s) b w l →
  (if isHit then State l ≠ Invalid else State l = Invalid) →
  runs (st <- assign_if (negb isHit)
                (st <- send respond (SendGetS b (CacheLineSize cfg) req) ;;
                 updLine (index_of cfg b, Some w) (setState Shared) ;;; m_ret st) stat ;;
        m_modify (count NReads) ;;; m_ret st) s
    (fun _ s' => ∃ st, lines_wf cfg 0 (CacheLines s') ∧ holds (CacheLines s') b st ∧
       (∀ c x, c ≠ b → holds (CacheLines s') c x ↔ holds (CacheLines s) c x) ∧
       counters s' NReads = u64 (counters s NReads + 1) ∧
       if isHit then CacheLines s' = CacheLines s ∧ trace s' = trace s
       else trace s' = trace s ++ [Called (SendGetS b (CacheLineSize cfg) req)]).
Proof.
  intros Hwf Hat Hl. destruct isHit; home_steps Hresp.
  - exists (State l). split_and!; try done. rewrite <- (al_address _ _ _ _ _ _ Hat).
    apply (holds_cell _ (index_of cfg b) w); [apply Hat|done].
  - eapply runs_updLine; [exact (al_cell _ _ _ _ _ _ Hat)|]. home_steps Hresp. simpl.
    destruct (put_state cfg 0 _ _ _ _ Shared Hwf Hat) as [Hwf' Hh].
    exists Shared. split_and!; try done; [apply Hh; by left|]. intros c x Hne. rewrite Hh. naive_solver.
Qed.

Lemma cpu_serve_write s b w l req stat : lines_wf cfg 0 (CacheLines s) → at_line cfg 0 (CacheLines s) b w l →
  runs (st <- assign_if (negb (is_state l Modified))
                (st <- send respond (SendGetM b (CacheLineSize cfg) req) ;;
                 updLine (index_of cfg b, Some w) (setState Modified) ;;; m_ret st) stat ;;
        m_modify (count NWrites) ;;; m_ret st) s
    (fun _ s' => lines_wf cfg 0 (CacheLines s') ∧ holds (CacheLines s') b Modified ∧
       (∀ c x, c ≠ b → holds (CacheLines s') c x ↔ holds (CacheLines s) c x) ∧
       counters s' NWrites = u64 (counters s NWrites + 1) ∧
       if decide (State l = Modified) then CacheLines s' = CacheLines s ∧ trace s' = trace s
       else trace s' = trace s ++ [Called (SendGetM b (CacheLineSize cfg) req)]).
Proof.
  intros Hwf Hat. pose proof (al_address _ _ _ _ _ _ Hat) as Ha. unfold is_state. case_bool_decide as Hst; home_steps Hresp.
  - rewrite decide_True by done. split_and!; try done. rewrite <- Ha, <- Hst.
    apply (holds_cell _ (index_of cfg b) w); [by apply Hat|congruence].
  - eapply runs_updLine; [exact (al_cell _ _ _ _ _ _ Hat)|]. home_steps Hresp. simpl.
    destruct (put_state cfg 0 _ _ _ _ Modified Hwf Hat) as [Hwf' Hh]. rewrite decide_False by done.
    split_and!; try done; [apply Hh; by left|]. intros c x Hne. rewrite Hh. naive_solver.
Qed.

(** Composition of the effects of the parts of one access. *)
Lemma accounted_trans req b s0 s1 s2 s3 evs0 evs1 evs2 :
  (∀ c x, holds (CacheLines s1) c x ↔ holds (CacheLines s0) c x) →
  accounted req b s1 s2 evs1 →
  (∀ c x, c ≠ b → holds (CacheLines s3) c x ↔ holds (CacheLines s2) c x) →
  accounted req b s0 s3 (evs0 ++ evs1 ++ evs2).
Proof.
  intros H01 [H1 H2] H23. split; intros c x Hne.
  - rewrite H23 by done. intros Hh. apply H01. by apply H1.
  - intros Hh%H01. destruct (H2 c x Hne Hh) as [Hh'|Hin]; [left; by apply H23|right]. set_solver.
Qed.

Lemma cpu_align addr size L (off := offset_of cfg addr) :
  addressable addr → 0 ≤ size → addr + size < 2 ^ 64 → L = CacheLineSize cfg →
  u64 (addr - base_of cfg addr) = off ∧ u64 (off + size) = off + size ∧ u64 (L - off) = L - off ∧
  (L < off + size → u64 (size - (L - off)) = size - (L - off) ∧ u64 (addr + (L - off)) = addr + (L - off)).
Proof.
  intros [Ha _] Hs Hsum ->. pose proof (offset_range addr) as Ho. fold off in Ho.
  assert (off ≤ addr) as Hle.
  { unfold off. rewrite offset_eq by done. destruct Hcfg as [_ (Hb & _)]. apply Z.mod_le; lia. }
  assert (CacheLineSize cfg < 2 ^ 64) as HL.
  { rewrite Hline. destruct Hcfg. apply Z.pow_lt_mono_r; lia. }
  unfold base_of. fold off. replace (addr - (addr - off)) with off by lia.
  rewrite (u64_small off), (u64_small (off + size)), (u64_small (_ - off)) by (unfold in_u64; lia).
  split; [done|]. split; [done|]. split; [done|]. intros Hlt.
  by rewrite !u64_small by (unfold in_u64; lia).
Qed.

Lemma trace_nil {A} (l k : list A) : l = l ++ k → k = [].
Proof. intros H. apply (app_inv_head l). by rewrite app_nil_r. Qed.

(** The effect of one line, from the effects of the lookup ([s0] to [s1]), of the
    preparation ([s1] to [s2]) and of the service ([s2] to [s3]). *)
Lemma line_post_read req b (isHit : bool) w i l s0 s1 s2 s3 evs0 evs1 st :
  looked_up (CacheLines s1) b isHit i w l →
  (∀ c x, holds (CacheLines s1) c x ↔ holds (CacheLines s0) c x) →
  trace s1 = trace s0 ++ evs0 → (isHit = true → evs0 = []) → counters s1 NReads = counters s0 NReads →
  trace s2 = trace s1 ++ evs1 → accounted req b s1 s2 evs1 → counters s2 NReads = counters s1 NReads →
  (if isHit then s2 = s1 else True) →
  lines_wf cfg 0 (CacheLines s3) → holds (CacheLines s3) b st →
  (∀ c x, c ≠ b → holds (CacheLines s3) c x ↔ holds (CacheLines s2) c x) →
  counters s3 NReads = u64 (counters s2 NReads + 1) →
  (if isHit then CacheLines s3 = CacheLines s2 ∧ trace s3 = trace s2
   else trace s3 = trace s2 ++ [Called (SendGetS b (CacheLineSize cfg) req)]) →
  ∃ evs, line_post Read req b s0 s3 evs.
Proof.
  intros Hlook H01 HT1 Hq HC1 HT2 Hacc HC2 Hs2 Hwf Hst H23 HC3 Hend.
  exists (evs0 ++ evs1 ++ if isHit then [] else [Called (SendGetS b (CacheLineSize cfg) req)]).
  destruct Hlook as [Hcell Hl]. split; [done| |by eapply accounted_trans|by exists st| | |].
  - destruct isHit; [destruct Hend as [_ ->]; rewrite app_nil_r|rewrite Hend];
      rewrite HT2, HT1, <- ?app_assoc; done.
  - intros [x Hx]. destruct isHit; [|by destruct (Hl x); apply H01]. subst s2.
    destruct Hend as [HL _]. rewrite (Hq eq_refl), (trace_nil _ _ HT2). split; [done|].
    intros y. by rewrite HL, H01.
  - intros Hno. destruct isHit; [|set_solver]. destruct Hno. destruct Hl as [<- Hne].
    exists (State l). apply H01. by apply (holds_cell _ i w).
  - unfold request_counter. simpl. congruence.
Qed.

Lemma line_post_write req b (isHit : bool) w i l l' s0 s1 s2 s3 evs0 evs1 :
  lines_wf cfg 0 (CacheLines s1) →
  looked_up (CacheLines s1) b isHit i w l →
  (∀ c x, holds (CacheLines s1) c x ↔ holds (CacheLines s0) c x) →
  trace s1 = trace s0 ++ evs0 → (isHit = true → evs0 = []) → counters s1 NWrites = counters s0 NWrites →
  trace s2 = trace s1 ++ evs1 → accounted req b s1 s2 evs1 → counters s2 NWrites = counters s1 NWrites →
  (if isHit then l' = l ∧ s2 = s1 else State l' = Invalid) →
  lines_wf cfg 0 (CacheLines s3) → holds (CacheLines s3) b Modified →
  (∀ c x, c ≠ b → holds (CacheLines s3) c x ↔ holds (CacheLines s2) c x) →
  counters s3 NWrites = u64 (counters s2 NWrites + 1) →
  (if decide (State l' = Modified) then CacheLines s3 = CacheLines s2 ∧ trace s3 = trace s2
   else trace s3 = trace s2 ++ [Called (SendGetM b (CacheLineSize cfg) req)]) →
  ∃ evs, line_post Write req b s0 s3 evs.
Proof.
  intros Hwf1 Hlook H01 HT1 Hq HC1 HT2 Hacc HC2 Hs2 Hwf Hst H23 HC3 Hend.
  exists (evs0 ++ evs1 ++ if decide (State l' = Modified) then [] else [Called (SendGetM b (CacheLineSize cfg) req)]).
  destruct Hlook as [Hcell Hl]. split; [done| |by eapply accounted_trans|done| | |].
  - case_decide; [destruct Hend as [_ ->]; rewrite app_nil_r|rewrite Hend];
      rewrite HT2, HT1, <- ?app_assoc; done.
  - unfold served. simpl. intros Hx%H01. destruct isHit; [|by destruct (Hl Modified)].
    destruct Hs2 as [-> ->]. destruct Hl as [Ha Hne].
    assert (State l = Modified) as Hm by (symmetry; apply (holds_functional cfg 0 (CacheLines s1) i w); congruence).
    rewrite decide_True in Hend by done. rewrite decide_True by done. destruct Hend as [HL _].
    rewrite (Hq eq_refl), (trace_nil _ _ HT2). split; [done|]. intros y. by rewrite HL, H01.
  - unfold served. simpl. intros Hno. case_decide as Hm; [|set_solver]. destruct Hno.
    destruct isHit; [|congruence]. destruct Hs2 as [-> _]. destruct Hl as [<- Hne].
    apply H01. rewrite <- Hm. by apply (holds_cell _ i w).
  - unfold request_counter. simpl. congruence.
Qed.

(** One line of an access, and then the rest of it. *)
Lemma cpu_step fuel mode size addr req ini hdl s Q :
  mode = Read ∨ mode = Write → addressable addr → 0 ≤ size → addr + size < 2 ^ 64 →
  lines_wf cfg 0 (CacheLines s) →
  (∀ stat s' evs, line_post mode req (base_of cfg addr) s s' evs →
     let off := offset_of cfg addr in
     if decide (off + size ≤ CacheLineSize cfg) then Q stat s'
     else runs (accessCpuCache cfg respond fuel mode (size - (CacheLineSize cfg - off))
                  (addr + (CacheLineSize cfg - off)) req ini hdl) s' Q) →
  runs (accessCpuCache cfg respond (S fuel) mode size addr req ini hdl) s Q.
Proof.
  intros Hmode Haddr Hsize Hsum Hwf HQ. destruct (base_fields addr Haddr) as (Hidx & Htag & Hfits).
  destruct (cpu_align addr size _ Haddr Hsize Hsum eq_refl) as (Hu1 & Hu2 & Hu3 & Hu4).
  cbn [accessCpuCache]. apply runs_bind. rewrite <- Hidx, <- Htag.
  apply (runs_access_set cfg 0); [done..|].
  intros sets isHit w l Hwf1 Hsame Hlook. cbn [fst snd]. set (b := base_of cfg addr) in *.
  set (s1 := set_CacheLines sets s). pose proof (proj1 Hlook) as Hc.
  (* counting of hits and misses *)
  apply runs_bind, (runs_conseq _ _ (fun _ s2 => CacheLines s2 = sets ∧ trace s2 = trace s ∧ same_requests s s2)).
  { destruct Hmode as [-> | ->]; [|destruct isHit; [apply runs_bind; eapply runs_getLine; [exact Hc|]|]];
      apply runs_modify; (split; [done|split; [done|]]).
    all: unfold same_requests; simpl; repeat case_match; try done. }
  intros [] s2 (HL2 & HT2 & Hcnt2). rewrite <- HL2 in Hlook, Hc, Hwf1, Hsame.
  apply runs_bind. eapply notify_runs; [exact Hc|]. intros s3 evs0 HL3 HC3 HT3 Hquiet.
  apply runs_bind. rewrite <- HL3 in Hlook, Hc, Hwf1, Hsame.
  apply (runs_conseq _ _ (fun _ s' => s' = s3)).
  { destruct isHit; [|done]. home_steps Hresp. apply runs_assert; [|done]. destruct Hlook as [_ [-> _]].
    pose proof (base_range addr Haddr). pose proof (offset_range addr). fold b in Hu1. rewrite Hu1.
    by rewrite !bool_decide_eq_true_2 by (unfold b; lia). }
  intros [] ? ->.
  assert (same_requests s s3) as Hcnt3 by (unfold same_requests in *; by rewrite HC3).
  assert (∀ (stat : tlm_response_status) s5, (∃ evs, line_post mode req b s s5 evs) →
    runs (if bool_decide (CacheLineSize cfg < u64 (u64 (addr - b) + size)) then
            accessCpuCache cfg respond fuel mode
              (u64 (size - if bool_decide (CacheLineSize cfg < u64 (u64 (addr - b) + size))
                           then u64 (CacheLineSize cfg - u64 (addr - b)) else size))
              (u64 (addr + if bool_decide (CacheLineSize cfg < u64 (u64 (addr - b) + size))
                           then u64 (CacheLineSize cfg - u64 (addr - b)) else size)) req ini hdl
          else m_ret stat) s5 Q) as Hfinish.
  { intros stat s5 [evs Hpost]. specialize (HQ stat s5 evs Hpost). simpl in HQ.
    fold b in Hu1. rewrite Hu1, Hu2, Hu3. case_bool_decide as Hlt.
    - rewrite decide_False in HQ by lia. destruct (Hu4 Hlt) as [-> ->]. done.
    - rewrite decide_True in HQ by lia. by apply runs_ret. }
  assert (∀ k, (∀ stat s4 l' evs1, lines_wf cfg 0 (CacheLines s4) → same_requests s3 s4 →
      trace s4 = trace s3 ++ evs1 → accounted req b s3 s4 evs1 → at_line cfg 0 (CacheLines s4) b w l' →
      (if isHit then l' = l ∧ s4 = s3 else State l' = Invalid) → runs (k stat l') s4 Q) →
    runs (stat <- cpuPrepare cfg respond isHit (index_of cfg b, Some w) addr req hdl TLM_OK_RESPONSE ;;
          l <- getLine (index_of cfg b, Some w) ;; 
          m_assert (bool_decide (u64 (addr - offset_of cfg addr) = Address l)) ;;; k stat l) s3 Q) as Hprep.
  { intros k Hk. apply runs_bind. eapply runs_conseq; [by apply (cpuPrepare_spec s3 addr isHit w l)|].
    intros stat s4 (Hwf4 & Hcnt4 & (evs1 & HT4 & Hacc) & l' & Hat & Hl'). apply runs_bind.
    eapply runs_getLine; [apply Hat|]. apply runs_bind, runs_assert; [|by eapply Hk].
    rewrite (u64_base addr Haddr), (al_address _ _ _ _ _ _ Hat). by apply bool_decide_eq_true_2. }
  destruct Hmode as [-> | ->]; apply Hprep; intros stat s4 l' evs1 Hwf4 [Hr4 Hw4] HT4 Hacc Hat Hl';
    apply runs_bind; cbv zeta; rewrite (al_address _ _ _ _ _ _ Hat), ?(u64_base addr Haddr); fold b.
  - eapply runs_conseq; [apply (cpu_serve_read s4 b isHit w l'); [done|done|]|].
    { destruct isHit; [|done]. destruct Hl' as [-> _]. apply Hlook. }
    intros stat' s5 (st & Hwf5 & Hh5 & Hoth & HC5 & Hend). apply Hfinish.
    apply (line_post_read req b isHit w (index_of cfg b) l s s3 s4 s5 evs0 evs1 st); try done;
      [by rewrite HT3, HT2|by destruct Hcnt3|by destruct isHit; [destruct Hl'|]].
  - eapply runs_conseq; [by apply (cpu_serve_write s4 b w l')|].
    intros stat' s5 (Hwf5 & Hh5 & Hoth & HC5 & Hend). apply Hfinish.
    apply (line_post_write req b isHit w (index_of cfg b) l l' s s3 s4 s5 evs0 evs1); try done;
      [by rewrite HT3, HT2|by destruct Hcnt3].
Qed.

(** The number of lines an access touches. *)
Definition touched (off size : Z) : Z := Z.max 1 ((off + size + CacheLineSize cfg - 1) / CacheLineSize cfg).

Lemma touched_one off size : 0 ≤ off → 0 ≤ size → off + size ≤ CacheLineSize cfg → touched off size = 1.
Proof.
  intros Ho Hs Hle. pose proof (cw_line _ Hcfg). unfold touched.
  assert ((off + size + CacheLineSize cfg - 1) / CacheLineSize cfg < 2); [|lia].
  apply Z.div_lt_upper_bound; lia.
Qed.

Lemma touched_more off size : 0 ≤ off < CacheLineSize cfg → CacheLineSize cfg < off + size →
  touched off size = 1 + touched 0 (size - (CacheLineSize cfg - off)).
Proof.
  intros Ho Hlt. pose proof (cw_line _ Hcfg). unfold touched.
  replace (off + size + CacheLineSize cfg - 1) with (off + size - 1 + 1 * CacheLineSize cfg) by lia.
  replace (0 + (size - (CacheLineSize cfg - off)) + CacheLineSize cfg - 1) with (off + size - 1) by lia.
  rewrite Z.div_add by lia.
  assert (1 ≤ (off + size - 1) / CacheLineSize cfg) by (apply Z.div_le_lower_bound; lia). lia.
Qed.

Lemma offset_next addr : offset_of cfg (addr + (CacheLineSize cfg - offset_of cfg addr)) = 0.
Proof.
  rewrite !offset_eq, Hline by done. destruct Hcfg as [_ (Hb & _)].
  pose proof (Z.div_mod addr (2 ^ OffsetBits cfg) ltac:(lia)).
  replace (addr + (2 ^ OffsetBits cfg - addr mod 2 ^ OffsetBits cfg))
    with ((addr / 2 ^ OffsetBits cfg + 1) * 2 ^ OffsetBits cfg) by lia.
  apply Z.mod_mul. lia.
Qed.

Lemma u64_add_l a b : u64 (u64 a + b) = u64 (a + b).
Proof. unfold u64, wrap. by rewrite Z.add_mod_idemp_l. Qed.

Lemma cpu_access_runs fuel mode size addr req ini hdl s :
  mode = Read ∨ mode = Write → 0 ≤ addr → 0 ≤ size → addr + size < 2 ^ 64 →
  addr + size < 2 ^ (TagShift cfg + 32) → (Z.to_nat size < fuel)%nat → lines_wf cfg 0 (CacheLines s) →
  runs (accessCpuCache cfg respond fuel mode size addr req ini hdl) s (fun _ s' =>
    lines_wf cfg 0 (CacheLines s') ∧
    counters s' (request_counter mode) =
      u64 (counters s (request_counter mode) + touched (offset_of cfg addr) size)).
Proof.
  intros Hmode. revert size addr s.
  induction fuel as [|fuel IH]; intros size addr s Haddr Hsize H64 Htag Hfuel Hwf; [lia|].
  assert (addressable addr) as Ha by (unfold addressable; lia).
  apply cpu_step; try done. intros stat s' evs [Hwf' _ _ _ _ _ HC]. pose proof (offset_range addr) as Ho.
  cbv zeta. case_decide as Hd.
  - by rewrite touched_one by lia.
  - eapply runs_conseq; [apply IH; try done; lia|]. intros stat' s'' [Hwf'' HC'']. split; [done|].
    rewrite HC'', HC, u64_add_l, offset_next, (touched_more (offset_of cfg addr)) by lia. f_equal. lia.
Qed.

Lemma cpu_forward_runs fuel mode size addr req ini hdl s st :
  addressable addr → lines_wf cfg 0 (CacheLines s) → ini ≠ NULL_IDX →
  holds (CacheLines s) (base_of cfg addr) st →
  mode = FwdGetS ∨ mode = FwdGetM ∨ (mode = PutI ∧ st = Shared) →
  runs (accessCpuCache cfg respond (S fuel) mode size addr req ini hdl) s (fun r s' =>
    r = TLM_OK_RESPONSE ∧ lines_wf cfg 0 (CacheLines s') ∧ trace s' = trace s ∧
    ∀ c x, holds (CacheLines s') c x ↔
      (c = base_of cfg addr ∧ mode = FwdGetS ∧ x = Shared) ∨
      (c ≠ base_of cfg addr ∧ holds (CacheLines s) c x)).
Proof.
  intros Haddr Hwf Hini Hst Hmode. destruct (base_fields addr Haddr) as (Hidx & Htag & Hfits).
  cbn [accessCpuCache]. apply runs_bind. rewrite <- Hidx, <- Htag.
  apply (runs_access_set cfg 0); [done..|]. intros sets isHit w l Hwf1 Hsame [Hc Hl].
  destruct isHit; [|by destruct (Hl st); apply Hsame]. destruct Hl as [Hbl Hne].
  assert (at_line cfg 0 sets (base_of cfg addr) w l) as Hat.
  { destruct (lw_lines _ _ _ Hwf1 _ _ _ Hc Hne) as (H1 & H2 & H3). by split. }
  assert (State l = st) as HSl.
  { symmetry. apply (holds_functional cfg 0 sets (index_of cfg (base_of cfg addr)) w); try done.
    apply Hsame. by rewrite Hbl. }
  assert (bool_decide (Address l ≤ addr) && bool_decide (u64 (addr - Address l) < CacheLineSize cfg) = true) as Hin.
  { pose proof (offset_range addr). pose proof (base_range addr Haddr). rewrite Hbl. unfold base_of in *.
    rewrite (u64_small (addr - _)) by (destruct Haddr; unfold in_u64; lia).
    by rewrite !bool_decide_eq_true_2 by lia. }
  cbn [fst snd]. unfold notify_eviction.
  destruct Hmode as [-> | [-> | [-> ->]]]; home_steps Hresp;
    (eapply runs_updLine; [exact (al_cell _ _ _ _ _ _ Hat)|]); home_steps Hresp; simpl.
  all: match goal with Hat0 : at_line _ _ _ _ _ ?l0 |- context [setState ?x ?l0] =>
         destruct (put_state cfg 0 _ _ _ _ x Hwf1 Hat) as [Hwf' Hh] end;
    (split; [done|]); (split; [done|]); (split; [done|]); intros c x; rewrite Hh, Hsame; naive_solver.
Qed.
End cpu.

(** ** Theorems *)

Definition cpu_example : config :=
  match new_config 1024 64 2 0 (mkParams LRU WBack WAllocate false 1 NINE NINE false true false 5) with
  | Ok c => c
  | Err _ => home_example
  end.

Lemma cpu_example_wf : config_wf cpu_example.
Proof. by apply (new_config_wf 1024 64 2 0 (mkParams LRU WBack WAllocate false 1 NINE NINE false true false 5)). Qed.

Definition cpu_example_state : cache :=
  match new_cache cpu_example with Ok s => s | Err _ => mkCache [] ∅ ∅ (fun _ => 0) [] end.

Lemma cpu_example_lines : lines_wf cpu_example 0 (CacheLines cpu_example_state).
Proof.
  by destruct (new_cache_wf cpu_example 0 cpu_example_state) as (H1 & _);
    [done|done|done|vm_compute; reflexivity|].
Qed.

Definition all_ok : Call → result tlm_response_status := fun _ => Ok TLM_OK_RESPONSE.

Lemma all_ok_ok : ∀ c, call_ok c → ∃ r, all_ok c = Ok r.
Proof. by eexists. Qed.

(** C4: a read or a write within one line of a well-formed write-back L1 returns; the
    line is then held (modified after a write); if it was already held in a state
    that serves the request nothing is sent, otherwise the request ([GetS], [GetM])
    is sent to the lower cache; and no other line appears, nor leaves the cache
    without the [PutS] or [PutM] that its state requires. *)
Theorem cpu_single_line cfg respond mode size addr req ini hdl s
    (Hcfg : config_wf cfg) (Hresp : ∀ c, call_ok c → ∃ r, respond c = Ok r)
    (Hline : CacheLineSize cfg = 2 ^ OffsetBits cfg) (Hslice : InterleaveBits cfg = 0)
    (Halloc : AllocPolicy cfg = WAllocate) (Hwb : WritePolicy cfg = WBack)
    (Hmode : mode = Read ∨ mode = Write) (Haddr : addressable cfg addr) (Hsize : 0 ≤ size)
    (Hin : offset_of cfg addr + size ≤ CacheLineSize cfg) (Hsum : addr + size < 2 ^ 64)
    (Hwf : lines_wf cfg 0 (CacheLines s)) :
  runs (accessCpuCache cfg respond (request_fuel size) mode size addr req ini hdl) s
    (fun _ s' => ∃ evs, line_post cfg mode req (base_of cfg addr) s s' evs).
Proof.
  apply cpu_step; try done. intros stat s' evs Hpost. cbv zeta. rewrite decide_True by done. by exists evs.
Qed.

Lemma cpu_single_line_witness :
  runs (accessCpuCache cpu_example all_ok (request_fuel 4) Write 4 260 5 5 0) cpu_example_state
    (fun _ s' => ∃ evs, line_post cpu_example Write 5 256 cpu_example_state s' evs).
Proof.
  apply (cpu_single_line cpu_example all_ok Write 4 260 5 5 0);
    [apply cpu_example_wf|apply all_ok_ok|reflexivity|reflexivity|reflexivity|reflexivity|by right
    |unfold addressable; vm_compute; by split_and!|done|done|done|apply cpu_example_lines].
Defined.

(** C38: a read or a write of any size, also across lines, returns when the recursion
    is given one unit of fuel per byte, keeps the lines well formed, and is counted
    once per line it touches. *)
Theorem cpu_access_total cfg respond mode size addr req ini hdl s
    (Hcfg : config_wf cfg) (Hresp : ∀ c, call_ok c → ∃ r, respond c = Ok r)
    (Hline : CacheLineSize cfg = 2 ^ OffsetBits cfg) (Hslice : InterleaveBits cfg = 0)
    (Halloc : AllocPolicy cfg = WAllocate) (Hwb : WritePolicy cfg = WBack)
    (Hmode : mode = Read ∨ mode = Write) (Haddr : 0 ≤ addr) (Hsize : 0 ≤ size)
    (H64 : addr + size < 2 ^ 64) (Htag : addr + size < 2 ^ (TagShift cfg + 32))
    (Hwf : lines_wf cfg 0 (CacheLines s)) :
  runs (accessCpuCache cfg respond (request_fuel size) mode size addr req ini hdl) s (fun _ s' =>
    lines_wf cfg 0 (CacheLines s') ∧
    counters s' (request_counter mode) =
      u64 (counters s (request_counter mode) + touched cfg (offset_of cfg addr) size)).
Proof. apply cpu_access_runs; try done. unfold request_fuel. lia. Qed.

Lemma cpu_access_total_witness :
  runs (accessCpuCache cpu_example all_ok (request_fuel 130) Read 130 60 5 5 0) cpu_example_state
    (fun _ s' => counters s' NReads = 3).
Proof.
  eapply runs_conseq.
  - apply (cpu_access_total cpu_example all_ok Read 130 60 5 5 0 cpu_example_state);
      [apply cpu_example_wf|apply all_ok_ok|reflexivity|reflexivity|reflexivity|reflexivity|by left
      |done|done|done|done|apply cpu_example_lines].
  - intros stat s' [_ H]. exact H.
Defined.

(** a forwarded request for a held line changes that line only: [FwdGetS] leaves
    it shared, [FwdGetM] and [PutI] remove it; nothing is sent. *)
Theorem cpu_forwarded_requests cfg respond mode size addr req ini hdl s st
    (Hcfg : config_wf cfg) (Hresp : ∀ c, call_ok c → ∃ r, respond c = Ok r)
    (Hline : CacheLineSize cfg = 2 ^ OffsetBits cfg) (Hslice : InterleaveBits cfg = 0)
    (Haddr : addressable cfg addr) (Hwf : lines_wf cfg 0 (CacheLines s)) (Hini : ini ≠ NULL_IDX)
    (Hst : holds (CacheLines s) (base_of cfg addr) st)
    (Hmode : mode = FwdGetS ∨ mode = FwdGetM ∨ (mode = PutI ∧ st = Shared)) :
  runs (accessCpuCache cfg respond (request_fuel size) mode size addr req ini hdl) s (fun r s' =>
    r = TLM_OK_RESPONSE ∧ lines_wf cfg 0 (CacheLines s') ∧ trace s' = trace s ∧
    ∀ c x, holds (CacheLines s') c x ↔
      (c = base_of cfg addr ∧ mode = FwdGetS ∧ x = Shared) ∨
      (c ≠ base_of cfg addr ∧ holds (CacheLines s) c x)).
Proof. by apply (cpu_forward_runs cfg respond) with (st := st). Qed.

Definition cpu_example_held : cache :=
  mkCache (put_line 4 0 (mkCacheLine 256 64 0 Modified 0) (CacheLines cpu_example_state)) ∅ ∅ (fun _ => 0) [].

Lemma cpu_forwarded_requests_witness :
  runs (accessCpuCache cpu_example all_ok (request_fuel 64) FwdGetS 64 256 5 9 0) cpu_example_held
    (fun _ s' => holds (CacheLines s') 256 Shared).
Proof.
  eapply runs_conseq.
  - apply (cpu_forwarded_requests cpu_example all_ok FwdGetS 64 256 5 9 0 cpu_example_held Modified);
      [apply cpu_example_wf|apply all_ok_ok|reflexivity|reflexivity|unfold addressable; vm_compute; by split_and!
      | |discriminate| |by left].
    + apply (lines_wf_put cpu_example 0 _ _ _ (newCacheLine 64)); [apply cpu_example_lines|reflexivity|].
      intros _. split; [split_and!; [|reflexivity|reflexivity]|].
      * split; [done|reflexivity|done|reflexivity].
      * intros st Hh. exfalso.
        destruct (new_cache_wf cpu_example 0 cpu_example_state) as (_ & H2 & _);
          [done|done|done|vm_compute; reflexivity|]. by apply (H2 256 st).
    + exists 4, 0, (mkCacheLine 256 64 0 Modified 0). by split_and!.
  - intros r s' (_ & _ & _ & Hh). apply Hh. by left.
Defined.
