(* ===== verification/Cache.v ===== *)
(** * The TLM wrapper of a cache ([components/memory/include/memory/Cache.hpp])

    How the calls of the controller become transactions on the initiator sockets, and
    how an incoming transaction is dispatched to the controller.  The socket bound to
    a port is a parameter: it gives the response status of each transaction. *)

From S2P Require Import Prelude Tlm CacheSet CacheBase CacheGeometry CacheHome.

(** ** Outgoing transactions *)

(** A transaction with its [CoherencePayloadExtension]: [send_transaction] leaves the
    command of the extension unset. *)
Record transaction := mkTransaction {
  t_port : Z;
  t_command : tlm_command;
  t_coherence : option CoherenceCommand;
  t_address : Z;
  t_length : Z;
  t_initiator : Z;
  t_requester : Z;
  t_targets : gset Z;
  t_toHome : bool
}.

Section cache.
Context (cfg : config).
(** [NUM_PORT_OUT], and the target bound to each initiator socket. *)
Context (num_port_out : Z) (socket : transaction → tlm_response_status).

Definition send_transaction (addr size requesterId : Z) (command : tlm_command) : result transaction :=
  if bool_decide (command = TLM_IGNORE_COMMAND) then Err AssertionFailed
  else Ok (mkTransaction 0 command None addr size (Id cfg) requesterId ∅ (negb (IsHome cfg))).

Definition is_upstream (command : CoherenceCommand) : bool :=
  match command with
  | FwdGetS | FwdGetM | PutI | InvS | InvM => true
  | _ => false
  end.

Definition send_coherence_transaction (addr size requesterId initiatorId : Z) (targetIds : gset Z)
    (command : CoherenceCommand) : result transaction :=
  if is_upstream command && IsHome cfg && bool_decide (targetIds = ∅) then Err AssertionFailed
  else
    Ok (mkTransaction
          (match command with
           | Read | Write | GetS | GetM | PutS | PutM | Evict => 0
           | FwdGetS | FwdGetM | PutI | InvS | InvM => if IsHome cfg then 0 else 1
           | Invalidate | ReadBack => 1
           end)
          TLM_IGNORE_COMMAND (Some command) addr size initiatorId requesterId
          (if is_upstream command then targetIds else ∅) (negb (IsHome cfg))).

Definition send_invalidate_transaction (addr : Z) (targetIds : gset Z) : result transaction :=
  if IsHome cfg && bool_decide (targetIds = ∅) then Err AssertionFailed
  else Ok (mkTransaction (if IsHome cfg then 0 else 1) TLM_IGNORE_COMMAND (Some Invalidate) addr 0
             (Id cfg) NULL_IDX targetIds (negb (IsHome cfg))).

(** The requester of an eviction is not passed on. *)
Definition send_evict_transaction (addr size : Z) : result transaction :=
  Ok (mkTransaction 0 TLM_IGNORE_COMMAND (Some Evict) addr size (Id cfg) NULL_IDX ∅ (negb (IsHome cfg))).

Definition send_readback_transaction (addr size : Z) (targetIds : gset Z) : result transaction :=
  if IsHome cfg && bool_decide (targetIds = ∅) then Err AssertionFailed
  else Ok (mkTransaction (if IsHome cfg then 0 else 1) TLM_IGNORE_COMMAND (Some ReadBack) addr size
             (Id cfg) NULL_IDX targetIds (negb (IsHome cfg))).

(** The overridden virtual methods of the controller. *)
Definition transaction_of (c : Call) : result transaction :=
  match c with
  | ForwardReadData addr size req => send_transaction addr size req TLM_READ_COMMAND
  | ForwardWriteData addr size req => send_transaction addr size req TLM_WRITE_COMMAND
  | ForwardEvict addr size _ => send_evict_transaction addr size
  | BackwardRead addr size _ ids => send_readback_transaction addr size ids
  | BackInvalidate addr ids => send_invalidate_transaction addr ids
  | SendGetS addr size req => send_coherence_transaction addr size req (Id cfg) ∅ GetS
  | SendGetM addr size req => send_coherence_transaction addr size req (Id cfg) ∅ GetM
  | SendPutS addr size req => send_coherence_transaction addr size req (Id cfg) ∅ PutS
  | SendPutM addr size req => send_coherence_transaction addr size req (Id cfg) ∅ PutM
  | SendFwdGetS addr size req ids => send_coherence_transaction addr size req (Id cfg) ids FwdGetS
  | SendFwdGetM addr size req ids => send_coherence_transaction addr size req (Id cfg) ids FwdGetM
  | SendPutI addr size req ids =>
      if bool_decide (ids = ∅) then Err AssertionFailed
      else send_coherence_transaction addr size req (Id cfg) ids PutI
  end.

(** The transaction goes out on [socket_out[t_port]]. *)
Definition respond (c : Call) : result tlm_response_status :=
  result_bind (transaction_of c) (fun t =>
  if bool_decide (t_port t < num_port_out) then Ok (socket t)
  else Err (UndefinedBehaviour "socket_out index out of range")).

(** ** Incoming transactions *)

(** The extensions: initiator, requester and command of a coherence request, and the
    identifier of the CPU. *)
Record incoming := mkIncoming {
  in_command : tlm_command;
  in_address : Z;
  in_length : Z;
  in_ext : option (Z * Z * CoherenceCommand);
  in_cpu : option Z
}.

(** [b_transport]: the response status, and whether [Latency] is added to the delay. *)
Definition b_transport (t : incoming) : M cache (tlm_response_status * bool) :=
  match in_cpu t with
  | None => m_throw (UndefinedBehaviour "null SourceCpuExtension")
  | Some cpu_id =>
      ids <- (if bool_decide (Level cfg = 1) && negb (bool_decide (in_command t = TLM_IGNORE_COMMAND))
              then m_ret (cpu_id, NULL_IDX)
              else match in_ext t with
                   | Some (initiator, requester, _) => m_ret (initiator, requester)
                   | None => m_throw AssertionFailed
                   end) ;;
      let srcId := ids.1 in
      let requesterId := ids.2 in
      let access (command : CoherenceCommand) :=
        accessCache cfg respond command (in_length t) (in_address t) requesterId srcId 0 in
      match in_command t with
      | TLM_WRITE_COMMAND =>
          rsp <- access Write ;; m_ret (rsp, bool_decide (Level cfg = 1))
      | TLM_READ_COMMAND => rsp <- access Read ;; m_ret (rsp, true)
      | TLM_IGNORE_COMMAND =>
          match in_ext t with
          | None => m_throw AssertionFailed
          | Some (_, _, command) =>
              match command with
              | GetS | GetM | FwdGetS | FwdGetM | ReadBack => rsp <- access command ;; m_ret (rsp, true)
              | PutS | PutM | PutI | Evict | InvS | InvM => rsp <- access command ;; m_ret (rsp, false)
              | Invalidate =>
                  rsp <- InvalidateLine cfg respond (in_address t) ;; m_ret (rsp, false)
              | Read | Write => m_throw AssertionFailed
              end
          end
      end
  end.
End cache.

(** ** Lemmas *)

(** A home reaches its targets through port 0 and announces that the request does not
    go to a home. *)
Lemma respond_home_ok cfg num socket c : IsHome cfg = true → 0 < num → call_ok c →
  ∃ t, transaction_of cfg c = Ok t ∧ t_port t = 0 ∧ t_toHome t = false ∧
    respond cfg num socket c = Ok (socket t).
Proof.
  intros Hhome Hnum Hok. unfold respond.
  destruct c; simpl in *; unfold send_transaction, send_evict_transaction, send_readback_transaction,
    send_invalidate_transaction, send_coherence_transaction; rewrite ?Hhome; simpl;
    rewrite ?(bool_decide_eq_false_2 (_ = ∅)) by done; simpl;
    (eexists; split; [reflexivity|]); simpl; rewrite bool_decide_eq_true_2 by done; done.
Qed.

(** ** Theorems *)

(** C37: end to end, a home cache that receives a coherence transaction allowed by the
    protocol answers it: the assertions of the wrapper (targets of forwarded
    requests) and of the controller hold, the directory follows the protocol, and the
    latency of the home is charged to [GetS] and [GetM] only. *)
Theorem home_transport_refines cfg il num socket s cmd a req i cpu e'
    (Hcfg : config_wf cfg) (Hcoh : IsCoherent cfg = true) (Hhome : IsHome cfg = true) (Hnum : 0 < num)
    (Hexcl : InclusionOfHigher cfg = Exclusive) (Halloc : AllocPolicy cfg = WAllocate)
    (Hfits : fits cfg il a) (Hi : i ≠ NULL_IDX) (Hinv : home_inv cfg il s)
    (Hlegal : home_next cmd i (dir_entry (Directory s) a) = Some e') :
  runs (b_transport cfg num socket
          (mkIncoming TLM_IGNORE_COMMAND a (CacheLineSize cfg) (Some (i, req, cmd)) (Some cpu))) s
    (fun r s' => home_inv cfg il s' ∧ Directory s' = <[a := e']> (Directory s) ∧
       (r.2 = true ↔ cmd = GetS ∨ cmd = GetM)).
Proof.
  assert (∀ c, call_ok c → ∃ r, respond cfg num socket c = Ok r) as Hresp.
  { intros c Hc. destruct (respond_home_ok cfg num socket c Hhome Hnum Hc) as (t & _ & _ & _ & ->). by eexists. }
  pose proof (accessCoherentHome_runs cfg il _ Hcfg Hresp Hexcl Halloc s cmd a req i 0 e' Hfits Hi Hinv Hlegal) as Hrun.
  unfold b_transport. cbn [in_cpu in_command in_ext in_length in_address].
  rewrite (bool_decide_eq_true_2 (TLM_IGNORE_COMMAND = TLM_IGNORE_COMMAND)), andb_false_r by done.
  apply runs_bind, runs_ret. cbn [fst snd]. unfold accessCache. rewrite Hcoh, Hhome. cbn [negb].
  destruct cmd; try (unfold home_next in Hlegal; by destruct (DState (dir_entry (Directory s) a)));
    apply runs_bind; (eapply runs_conseq; [exact Hrun|]); intros stat s' [H1 [H2 _]];
    (split; [done|]); (split; [done|]); cbn [snd]; naive_solver.
Qed.

Lemma home_transport_refines_witness :
  runs (b_transport home_example 1 (fun _ => TLM_OK_RESPONSE)
          (mkIncoming TLM_IGNORE_COMMAND 128 64 (Some (3, 3, GetS)) (Some 3))) home_example_state
    (fun _ s' => Directory s' = <[128 := shared_entry {[3]}]> (Directory home_example_state)).
Proof.
  eapply runs_conseq.
  - apply (home_transport_refines home_example 0 1 (fun _ => TLM_OK_RESPONSE) home_example_state GetS 128 3 3 3
      (shared_entry {[3]})); [apply home_example_wf|reflexivity|reflexivity|lia|reflexivity|reflexivity|
      |discriminate|apply home_example_inv|reflexivity].
    apply fits_example; [done|reflexivity|done].
  - intros r s' (_ & H & _). exact H.
Defined.
