(* ===== verification/CoherenceInterconnect.v ===== *)
(** * The coherence interconnect ([components/connect/CoherenceInterconnect.cpp])

    Registration of the ports and of the mesh positions, routing of transactions to
    homes, caches and memory-mapped targets, the distance model and the XY routes of
    the mesh, the contention model, and the transport functions.  Times are integers
    (multiples of the time resolution).  Two things are parameters: the delay after a
    target has been called, and [QueueWaitingTime], which is floating-point arithmetic. *)

From stdpp Require Import sorting.
From S2P Require Import Prelude Tlm.

(** ** State *)

Record mesh_pos := mkPos { x_id : Z; y_id : Z }.

#[global] Instance mesh_pos_eq_dec : EqDecision mesh_pos.
Proof. solve_decision. Defined.

(** [None] is a member that no constructor or setter has written. *)
Record id_struct := mkId { i_name : string; i_id : option Z; i_port : option Z; i_position : option Z }.
Record addr_struct := mkAddr { a_base : Z; a_end : Z; a_offset : Z; a_port : Z }.
Record id_addr_struct := mkIdAddr { h_id : Z; h_base : Z; h_end : Z; h_offset : Z; h_port : Z }.

(** A hop of a route: router and output port ([E], [W], [N], [S], [L]). *)
Inductive out_port := PE | PW | PN | PS | PL.

#[global] Instance out_port_eq_dec : EqDecision out_port.
Proof. solve_decision. Defined.
#[global] Instance out_port_countable : Countable out_port.
Proof.
  refine (inj_countable' (fun p => match p with PE => 0 | PW => 1 | PN => 2 | PS => 3 | PL => 4 end)
    (fun n => match n with 0 => PE | 1 => PW | 2 => PN | 3 => PS | _ => PL end) _). by intros [].
Defined.

Abbreviation hop := (Z * Z * out_port)%type.
Abbreviation route := (list hop).

(** A call on an initiator socket: the socket, the address and the length. *)
Inductive socket_out := CacheSocket (n : Z) | HomeSocket (n : Z) | MMappedSocket (n : Z).
Record delivery := mkDelivery { d_socket : socket_out; d_address : Z; d_length : Z }.

(** Statistics of an initiator: position, packets, distance, latency. *)
Record init_stat := mkStat { st_pos : mesh_pos; st_packets : Z; st_dist : Z; st_lat : Z }.

(** What the constructor and the configuration setters fix. *)
Record ic_config := mkIcConfig {
  NUM_CACHE_OUT : Z; NUM_HOME_OUT : Z; NUM_MMAPPED : Z;
  FlitSize : Z; MWordLengthInByte : Z; IcCoherent : bool;
  MemoryInterleaveLength : Z; SLCInterleaveLength : Z;
  ACCESS_LATENCY : Z; mIsMesh : bool; mWithContention : bool;
  mRouterLatency : Z; mLinkLatency : Z; mContentionInterval : Z;
  mBufferSize : Z; mVirtualChannels : Z; mNoc_stats_per_initiator_on : bool
}.

Record ic := mkIc {
  CacheOutputs : list id_struct; MMappedOutputs : list addr_struct; HomeOutputs : list id_addr_struct;
  CacheCount : Z; HomeCount : Z; MMappedCount : Z;
  mAddressIDs : list (Z * Z * mesh_pos); mReadCount : list Z; mWriteCount : list Z;
  mCpuIDs : list (Z * mesh_pos); mDeviceIDs : list (Z * mesh_pos); mHomeIDs : list (Z * Z * mesh_pos);
  mX : Z; mY : Z;
  RamBaseAddr : Z; RamLastAddr : Z; IndexFirstMemoryController : Z;
  TotalDistance : Z; TotalLatency : Z; PacketsCount : Z;
  RouterTotalLatency : list Z; RouterPacketsCount : list Z;
  noc : gmap (Z * Z * out_port) (gmap Z Z);
  packetBuffer : list (Z * route * Z);
  totalFlits : Z; interval_start : Z; interval_end : Z;
  AverageLatency : Z; packet_latency : Z;
  initTotalStats : gmap Z init_stat;
  sent : list delivery
}.

(** Assignments to one member. *)
Definition set_CacheOutputs v (s : ic) : ic := mkIc v (MMappedOutputs s) (HomeOutputs s) (CacheCount s)
  (HomeCount s) (MMappedCount s) (mAddressIDs s) (mReadCount s) (mWriteCount s) (mCpuIDs s) (mDeviceIDs s)
  (mHomeIDs s) (mX s) (mY s) (RamBaseAddr s) (RamLastAddr s) (IndexFirstMemoryController s)
  (TotalDistance s) (TotalLatency s) (PacketsCount s) (RouterTotalLatency s) (RouterPacketsCount s) (noc s)
  (packetBuffer s) (totalFlits s) (interval_start s) (interval_end s) (AverageLatency s) (packet_latency s)
  (initTotalStats s) (sent s).
Definition set_MMappedOutputs v (s : ic) : ic := mkIc (CacheOutputs s) v (HomeOutputs s) (CacheCount s)
  (HomeCount s) (MMappedCount s) (mAddressIDs s) (mReadCount s) (mWriteCount s) (mCpuIDs s) (mDeviceIDs s)
  (mHomeIDs s) (mX s) (mY s) (RamBaseAddr s) (RamLastAddr s) (IndexFirstMemoryController s)
  (TotalDistance s) (TotalLatency s) (PacketsCount s) (RouterTotalLatency s) (RouterPacketsCount s) (noc s)
  (packetBuffer s) (totalFlits s) (interval_start s) (interval_end s) (AverageLatency s) (packet_latency s)
  (initTotalStats s) (sent s).
Definition set_HomeOutputs v (s : ic) : ic := mkIc (CacheOutputs s) (MMappedOutputs s) v (CacheCount s)
  (HomeCount s) (MMappedCount s) (mAddressIDs s) (mReadCount s) (mWriteCount s) (mCpuIDs s) (mDeviceIDs s)
  (mHomeIDs s) (mX s) (mY s) (RamBaseAddr s) (RamLastAddr s) (IndexFirstMemoryController s)
  (TotalDistance s) (TotalLatency s) (PacketsCount s) (RouterTotalLatency s) (RouterPacketsCount s) (noc s)
  (packetBuffer s) (totalFlits s) (interval_start s) (interval_end s) (AverageLatency s) (packet_latency s)
  (initTotalStats s) (sent s).
Definition set_CacheCount v (s : ic) : ic := mkIc (CacheOutputs s) (MMappedOutputs s) (HomeOutputs s) v
  (HomeCount s) (MMappedCount s) (mAddressIDs s) (mReadCount s) (mWriteCount s) (mCpuIDs s) (mDeviceIDs s)
  (mHomeIDs s) (mX s) (mY s) (RamBaseAddr s) (RamLastAddr s) (IndexFirstMemoryController s)
  (TotalDistance s) (TotalLatency s) (PacketsCount s) (RouterTotalLatency s) (RouterPacketsCount s) (noc s)
  (packetBuffer s) (totalFlits s) (interval_start s) (interval_end s) (AverageLatency s) (packet_latency s)
  (initTotalStats s) (sent s).
Definition set_HomeCount v (s : ic) : ic := mkIc (CacheOutputs s) (MMappedOutputs s) (HomeOutputs s)
  (CacheCount s) v (MMappedCount s) (mAddressIDs s) (mReadCount s) (mWriteCount s) (mCpuIDs s)
  (mDeviceIDs s) (mHomeIDs s) (mX s) (mY s) (RamBaseAddr s) (RamLastAddr s) (IndexFirstMemoryController s)
  (TotalDistance s) (TotalLatency s) (PacketsCount s) (RouterTotalLatency s) (RouterPacketsCount s) (noc s)
  (packetBuffer s) (totalFlits s) (interval_start s) (interval_end s) (AverageLatency s) (packet_latency s)
  (initTotalStats s) (sent s).
Definition set_MMappedCount v (s : ic) : ic := mkIc (CacheOutputs s) (MMappedOutputs s) (HomeOutputs s)
  (CacheCount s) (HomeCount s) v (mAddressIDs s) (mReadCount s) (mWriteCount s) (mCpuIDs s) (mDeviceIDs s)
  (mHomeIDs s) (mX s) (mY s) (RamBaseAddr s) (RamLastAddr s) (IndexFirstMemoryController s)
  (TotalDistance s) (TotalLatency s) (PacketsCount s) (RouterTotalLatency s) (RouterPacketsCount s) (noc s)
  (packetBuffer s) (totalFlits s) (interval_start s) (interval_end s) (AverageLatency s) (packet_latency s)
  (initTotalStats s) (sent s).
Definition set_mAddressIDs v (s : ic) : ic := mkIc (CacheOutputs s) (MMappedOutputs s) (HomeOutputs s)
  (CacheCount s) (HomeCount s) (MMappedCount s) v (mReadCount s) (mWriteCount s) (mCpuIDs s) (mDeviceIDs s)
  (mHomeIDs s) (mX s) (mY s) (RamBaseAddr s) (RamLastAddr s) (IndexFirstMemoryController s)
  (TotalDistance s) (TotalLatency s) (PacketsCount s) (RouterTotalLatency s) (RouterPacketsCount s) (noc s)
  (packetBuffer s) (totalFlits s) (interval_start s) (interval_end s) (AverageLatency s) (packet_latency s)
  (initTotalStats s) (sent s).
Definition set_mReadCount v (s : ic) : ic := mkIc (CacheOutputs s) (MMappedOutputs s) (HomeOutputs s)
  (CacheCount s) (HomeCount s) (MMappedCount s) (mAddressIDs s) v (mWriteCount s) (mCpuIDs s) (mDeviceIDs s)
  (mHomeIDs s) (mX s) (mY s) (RamBaseAddr s) (RamLastAddr s) (IndexFirstMemoryController s)
  (TotalDistance s) (TotalLatency s) (PacketsCount s) (RouterTotalLatency s) (RouterPacketsCount s) (noc s)
  (packetBuffer s) (totalFlits s) (interval_start s) (interval_end s) (AverageLatency s) (packet_latency s)
  (initTotalStats s) (sent s).
Definition set_mWriteCount v (s : ic) : ic := mkIc (CacheOutputs s) (MMappedOutputs s) (HomeOutputs s)
  (CacheCount s) (HomeCount s) (MMappedCount s) (mAddressIDs s) (mReadCount s) v (mCpuIDs s) (mDeviceIDs s)
  (mHomeIDs s) (mX s) (mY s) (RamBaseAddr s) (RamLastAddr s) (IndexFirstMemoryController s)
  (TotalDistance s) (TotalLatency s) (PacketsCount s) (RouterTotalLatency s) (RouterPacketsCount s) (noc s)
  (packetBuffer s) (totalFlits s) (interval_start s) (interval_end s) (AverageLatency s) (packet_latency s)
  (initTotalStats s) (sent s).
Definition set_mCpuIDs v (s : ic) : ic := mkIc (CacheOutputs s) (MMappedOutputs s) (HomeOutputs s)
  (CacheCount s) (HomeCount s) (MMappedCount s) (mAddressIDs s) (mReadCount s) (mWriteCount s) v
  (mDeviceIDs s) (mHomeIDs s) (mX s) (mY s) (RamBaseAddr s) (RamLastAddr s) (IndexFirstMemoryController s)
  (TotalDistance s) (TotalLatency s) (PacketsCount s) (RouterTotalLatency s) (RouterPacketsCount s) (noc s)
  (packetBuffer s) (totalFlits s) (interval_start s) (interval_end s) (AverageLatency s) (packet_latency s)
  (initTotalStats s) (sent s).
Definition set_mDeviceIDs v (s : ic) : ic := mkIc (CacheOutputs s) (MMappedOutputs s) (HomeOutputs s)
  (CacheCount s) (HomeCount s) (MMappedCount s) (mAddressIDs s) (mReadCount s) (mWriteCount s) (mCpuIDs s) v
  (mHomeIDs s) (mX s) (mY s) (RamBaseAddr s) (RamLastAddr s) (IndexFirstMemoryController s)
  (TotalDistance s) (TotalLatency s) (PacketsCount s) (RouterTotalLatency s) (RouterPacketsCount s) (noc s)
  (packetBuffer s) (totalFlits s) (interval_start s) (interval_end s) (AverageLatency s) (packet_latency s)
  (initTotalStats s) (sent s).
Definition set_mHomeIDs v (s : ic) : ic := mkIc (CacheOutputs s) (MMappedOutputs s) (HomeOutputs s)
  (CacheCount s) (HomeCount s) (MMappedCount s) (mAddressIDs s) (mReadCount s) (mWriteCount s) (mCpuIDs s)
  (mDeviceIDs s) v (mX s) (mY s) (RamBaseAddr s) (RamLastAddr s) (IndexFirstMemoryController s)
  (TotalDistance s) (TotalLatency s) (PacketsCount s) (RouterTotalLatency s) (RouterPacketsCount s) (noc s)
  (packetBuffer s) (totalFlits s) (interval_start s) (interval_end s) (AverageLatency s) (packet_latency s)
  (initTotalStats s) (sent s).
Definition set_mX v (s : ic) : ic := mkIc (CacheOutputs s) (MMappedOutputs s) (HomeOutputs s) (CacheCount s)
  (HomeCount s) (MMappedCount s) (mAddressIDs s) (mReadCount s) (mWriteCount s) (mCpuIDs s) (mDeviceIDs s)
  (mHomeIDs s) v (mY s) (RamBaseAddr s) (RamLastAddr s) (IndexFirstMemoryController s) (TotalDistance s)
  (TotalLatency s) (PacketsCount s) (RouterTotalLatency s) (RouterPacketsCount s) (noc s) (packetBuffer s)
  (totalFlits s) (interval_start s) (interval_end s) (AverageLatency s) (packet_latency s)
  (initTotalStats s) (sent s).
Definition set_mY v (s : ic) : ic := mkIc (CacheOutputs s) (MMappedOutputs s) (HomeOutputs s) (CacheCount s)
  (HomeCount s) (MMappedCount s) (mAddressIDs s) (mReadCount s) (mWriteCount s) (mCpuIDs s) (mDeviceIDs s)
  (mHomeIDs s) (mX s) v (RamBaseAddr s) (RamLastAddr s) (IndexFirstMemoryController s) (TotalDistance s)
  (TotalLatency s) (PacketsCount s) (RouterTotalLatency s) (RouterPacketsCount s) (noc s) (packetBuffer s)
  (totalFlits s) (interval_start s) (interval_end s) (AverageLatency s) (packet_latency s)
  (initTotalStats s) (sent s).
Definition set_RamBaseAddr v (s : ic) : ic := mkIc (CacheOutputs s) (MMappedOutputs s) (HomeOutputs s)
  (CacheCount s) (HomeCount s) (MMappedCount s) (mAddressIDs s) (mReadCount s) (mWriteCount s) (mCpuIDs s)
  (mDeviceIDs s) (mHomeIDs s) (mX s) (mY s) v (RamLastAddr s) (IndexFirstMemoryController s)
  (TotalDistance s) (TotalLatency s) (PacketsCount s) (RouterTotalLatency s) (RouterPacketsCount s) (noc s)
  (packetBuffer s) (totalFlits s) (interval_start s) (interval_end s) (AverageLatency s) (packet_latency s)
  (initTotalStats s) (sent s).
Definition set_RamLastAddr v (s : ic) : ic := mkIc (CacheOutputs s) (MMappedOutputs s) (HomeOutputs s)
  (CacheCount s) (HomeCount s) (MMappedCount s) (mAddressIDs s) (mReadCount s) (mWriteCount s) (mCpuIDs s)
  (mDeviceIDs s) (mHomeIDs s) (mX s) (mY s) (RamBaseAddr s) v (IndexFirstMemoryController s)
  (TotalDistance s) (TotalLatency s) (PacketsCount s) (RouterTotalLatency s) (RouterPacketsCount s) (noc s)
  (packetBuffer s) (totalFlits s) (interval_start s) (interval_end s) (AverageLatency s) (packet_latency s)
  (initTotalStats s) (sent s).
Definition set_IndexFirstMemoryController v (s : ic) : ic := mkIc (CacheOutputs s) (MMappedOutputs s)
  (HomeOutputs s) (CacheCount s) (HomeCount s) (MMappedCount s) (mAddressIDs s) (mReadCount s)
  (mWriteCount s) (mCpuIDs s) (mDeviceIDs s) (mHomeIDs s) (mX s) (mY s) (RamBaseAddr s) (RamLastAddr s) v
  (TotalDistance s) (TotalLatency s) (PacketsCount s) (RouterTotalLatency s) (RouterPacketsCount s) (noc s)
  (packetBuffer s) (totalFlits s) (interval_start s) (interval_end s) (AverageLatency s) (packet_latency s)
  (initTotalStats s) (sent s).
Definition set_TotalDistance v (s : ic) : ic := mkIc (CacheOutputs s) (MMappedOutputs s) (HomeOutputs s)
  (CacheCount s) (HomeCount s) (MMappedCount s) (mAddressIDs s) (mReadCount s) (mWriteCount s) (mCpuIDs s)
  (mDeviceIDs s) (mHomeIDs s) (mX s) (mY s) (RamBaseAddr s) (RamLastAddr s) (IndexFirstMemoryController s) v
  (TotalLatency s) (PacketsCount s) (RouterTotalLatency s) (RouterPacketsCount s) (noc s) (packetBuffer s)
  (totalFlits s) (interval_start s) (interval_end s) (AverageLatency s) (packet_latency s)
  (initTotalStats s) (sent s).
Definition set_TotalLatency v (s : ic) : ic := mkIc (CacheOutputs s) (MMappedOutputs s) (HomeOutputs s)
  (CacheCount s) (HomeCount s) (MMappedCount s) (mAddressIDs s) (mReadCount s) (mWriteCount s) (mCpuIDs s)
  (mDeviceIDs s) (mHomeIDs s) (mX s) (mY s) (RamBaseAddr s) (RamLastAddr s) (IndexFirstMemoryController s)
  (TotalDistance s) v (PacketsCount s) (RouterTotalLatency s) (RouterPacketsCount s) (noc s)
  (packetBuffer s) (totalFlits s) (interval_start s) (interval_end s) (AverageLatency s) (packet_latency s)
  (initTotalStats s) (sent s).
Definition set_PacketsCount v (s : ic) : ic := mkIc (CacheOutputs s) (MMappedOutputs s) (HomeOutputs s)
  (CacheCount s) (HomeCount s) (MMappedCount s) (mAddressIDs s) (mReadCount s) (mWriteCount s) (mCpuIDs s)
  (mDeviceIDs s) (mHomeIDs s) (mX s) (mY s) (RamBaseAddr s) (RamLastAddr s) (IndexFirstMemoryController s)
  (TotalDistance s) (TotalLatency s) v (RouterTotalLatency s) (RouterPacketsCount s) (noc s)
  (packetBuffer s) (totalFlits s) (interval_start s) (interval_end s) (AverageLatency s) (packet_latency s)
  (initTotalStats s) (sent s).
Definition set_RouterTotalLatency v (s : ic) : ic := mkIc (CacheOutputs s) (MMappedOutputs s)
  (HomeOutputs s) (CacheCount s) (HomeCount s) (MMappedCount s) (mAddressIDs s) (mReadCount s)
  (mWriteCount s) (mCpuIDs s) (mDeviceIDs s) (mHomeIDs s) (mX s) (mY s) (RamBaseAddr s) (RamLastAddr s)
  (IndexFirstMemoryController s) (TotalDistance s) (TotalLatency s) (PacketsCount s) v
  (RouterPacketsCount s) (noc s) (packetBuffer s) (totalFlits s) (interval_start s) (interval_end s)
  (AverageLatency s) (packet_latency s) (initTotalStats s) (sent s).
Definition set_RouterPacketsCount v (s : ic) : ic := mkIc (CacheOutputs s) (MMappedOutputs s)
  (HomeOutputs s) (CacheCount s) (HomeCount s) (MMappedCount s) (mAddressIDs s) (mReadCount s)
  (mWriteCount s) (mCpuIDs s) (mDeviceIDs s) (mHomeIDs s) (mX s) (mY s) (RamBaseAddr s) (RamLastAddr s)
  (IndexFirstMemoryController s) (TotalDistance s) (TotalLatency s) (PacketsCount s) (RouterTotalLatency s)
  v (noc s) (packetBuffer s) (totalFlits s) (interval_start s) (interval_end s) (AverageLatency s)
  (packet_latency s) (initTotalStats s) (sent s).
Definition set_noc v (s : ic) : ic := mkIc (CacheOutputs s) (MMappedOutputs s) (HomeOutputs s)
  (CacheCount s) (HomeCount s) (MMappedCount s) (mAddressIDs s) (mReadCount s) (mWriteCount s) (mCpuIDs s)
  (mDeviceIDs s) (mHomeIDs s) (mX s) (mY s) (RamBaseAddr s) (RamLastAddr s) (IndexFirstMemoryController s)
  (TotalDistance s) (TotalLatency s) (PacketsCount s) (RouterTotalLatency s) (RouterPacketsCount s) v
  (packetBuffer s) (totalFlits s) (interval_start s) (interval_end s) (AverageLatency s) (packet_latency s)
  (initTotalStats s) (sent s).
Definition set_packetBuffer v (s : ic) : ic := mkIc (CacheOutputs s) (MMappedOutputs s) (HomeOutputs s)
  (CacheCount s) (HomeCount s) (MMappedCount s) (mAddressIDs s) (mReadCount s) (mWriteCount s) (mCpuIDs s)
  (mDeviceIDs s) (mHomeIDs s) (mX s) (mY s) (RamBaseAddr s) (RamLastAddr s) (IndexFirstMemoryController s)
  (TotalDistance s) (TotalLatency s) (PacketsCount s) (RouterTotalLatency s) (RouterPacketsCount s) (noc s)
  v (totalFlits s) (interval_start s) (interval_end s) (AverageLatency s) (packet_latency s)
  (initTotalStats s) (sent s).
Definition set_totalFlits v (s : ic) : ic := mkIc (CacheOutputs s) (MMappedOutputs s) (HomeOutputs s)
  (CacheCount s) (HomeCount s) (MMappedCount s) (mAddressIDs s) (mReadCount s) (mWriteCount s) (mCpuIDs s)
  (mDeviceIDs s) (mHomeIDs s) (mX s) (mY s) (RamBaseAddr s) (RamLastAddr s) (IndexFirstMemoryController s)
  (TotalDistance s) (TotalLatency s) (PacketsCount s) (RouterTotalLatency s) (RouterPacketsCount s) (noc s)
  (packetBuffer s) v (interval_start s) (interval_end s) (AverageLatency s) (packet_latency s)
  (initTotalStats s) (sent s).
Definition set_interval_start v (s : ic) : ic := mkIc (CacheOutputs s) (MMappedOutputs s) (HomeOutputs s)
  (CacheCount s) (HomeCount s) (MMappedCount s) (mAddressIDs s) (mReadCount s) (mWriteCount s) (mCpuIDs s)
  (mDeviceIDs s) (mHomeIDs s) (mX s) (mY s) (RamBaseAddr s) (RamLastAddr s) (IndexFirstMemoryController s)
  (TotalDistance s) (TotalLatency s) (PacketsCount s) (RouterTotalLatency s) (RouterPacketsCount s) (noc s)
  (packetBuffer s) (totalFlits s) v (interval_end s) (AverageLatency s) (packet_latency s)
  (initTotalStats s) (sent s).
Definition set_interval_end v (s : ic) : ic := mkIc (CacheOutputs s) (MMappedOutputs s) (HomeOutputs s)
  (CacheCount s) (HomeCount s) (MMappedCount s) (mAddressIDs s) (mReadCount s) (mWriteCount s) (mCpuIDs s)
  (mDeviceIDs s) (mHomeIDs s) (mX s) (mY s) (RamBaseAddr s) (RamLastAddr s) (IndexFirstMemoryController s)
  (TotalDistance s) (TotalLatency s) (PacketsCount s) (RouterTotalLatency s) (RouterPacketsCount s) (noc s)
  (packetBuffer s) (totalFlits s) (interval_start s) v (AverageLatency s) (packet_latency s)
  (initTotalStats s) (sent s).
Definition set_AverageLatency v (s : ic) : ic := mkIc (CacheOutputs s) (MMappedOutputs s) (HomeOutputs s)
  (CacheCount s) (HomeCount s) (MMappedCount s) (mAddressIDs s) (mReadCount s) (mWriteCount s) (mCpuIDs s)
  (mDeviceIDs s) (mHomeIDs s) (mX s) (mY s) (RamBaseAddr s) (RamLastAddr s) (IndexFirstMemoryController s)
  (TotalDistance s) (TotalLatency s) (PacketsCount s) (RouterTotalLatency s) (RouterPacketsCount s) (noc s)
  (packetBuffer s) (totalFlits s) (interval_start s) (interval_end s) v (packet_latency s)
  (initTotalStats s) (sent s).
Definition set_packet_latency v (s : ic) : ic := mkIc (CacheOutputs s) (MMappedOutputs s) (HomeOutputs s)
  (CacheCount s) (HomeCount s) (MMappedCount s) (mAddressIDs s) (mReadCount s) (mWriteCount s) (mCpuIDs s)
  (mDeviceIDs s) (mHomeIDs s) (mX s) (mY s) (RamBaseAddr s) (RamLastAddr s) (IndexFirstMemoryController s)
  (TotalDistance s) (TotalLatency s) (PacketsCount s) (RouterTotalLatency s) (RouterPacketsCount s) (noc s)
  (packetBuffer s) (totalFlits s) (interval_start s) (interval_end s) (AverageLatency s) v
  (initTotalStats s) (sent s).
Definition set_initTotalStats v (s : ic) : ic := mkIc (CacheOutputs s) (MMappedOutputs s) (HomeOutputs s)
  (CacheCount s) (HomeCount s) (MMappedCount s) (mAddressIDs s) (mReadCount s) (mWriteCount s) (mCpuIDs s)
  (mDeviceIDs s) (mHomeIDs s) (mX s) (mY s) (RamBaseAddr s) (RamLastAddr s) (IndexFirstMemoryController s)
  (TotalDistance s) (TotalLatency s) (PacketsCount s) (RouterTotalLatency s) (RouterPacketsCount s) (noc s)
  (packetBuffer s) (totalFlits s) (interval_start s) (interval_end s) (AverageLatency s) (packet_latency s)
  v (sent s).
Definition set_sent v (s : ic) : ic := mkIc (CacheOutputs s) (MMappedOutputs s) (HomeOutputs s)
  (CacheCount s) (HomeCount s) (MMappedCount s) (mAddressIDs s) (mReadCount s) (mWriteCount s) (mCpuIDs s)
  (mDeviceIDs s) (mHomeIDs s) (mX s) (mY s) (RamBaseAddr s) (RamLastAddr s) (IndexFirstMemoryController s)
  (TotalDistance s) (TotalLatency s) (PacketsCount s) (RouterTotalLatency s) (RouterPacketsCount s) (noc s)
  (packetBuffer s) (totalFlits s) (interval_start s) (interval_end s) (AverageLatency s) (packet_latency s)
  (initTotalStats s) v.

(** ** Registration *)

Definition zero_id : id_struct := mkId "" (Some 0) (Some 0) (Some 0).
Definition zero_addr : addr_struct := mkAddr 0 0 0 0.
Definition zero_home : id_addr_struct := mkIdAddr 0 0 0 0 0.

(** The constructor: the output tables are value-initialised. *)
Definition new_ic (cfg : ic_config) : ic :=
  mkIc (replicate (Z.to_nat (NUM_CACHE_OUT cfg)) zero_id)
    (replicate (Z.to_nat (NUM_MMAPPED cfg)) zero_addr)
    (replicate (Z.to_nat (NUM_HOME_OUT cfg)) zero_home)
    0 0 0 [] [] [] [] [] [] 0 0 max64 0 4294967295 0 0 0 [] [] ∅ [] 0 0 0 0 0 ∅ [].

Section registration.
Context (cfg : ic_config).

(** [set_cache_output] writes the identifier and the port and leaves the position unset. *)
Definition set_cache_output (num_port id : Z) : M ic unit :=
  s <- m_get ;;
  m_assert (bool_decide (CacheCount s < NUM_CACHE_OUT cfg)) ;;;
  m_assert (bool_decide (CacheCount s = num_port)) ;;;
  m_assert (negb (bool_decide (id = NULL_IDX))) ;;;
  l <- m_lift (vec_set (CacheOutputs s) num_port (mkId "" (Some id) (Some num_port) None)) ;;
  m_modify (set_CacheOutputs l) ;;; m_modify (set_CacheCount (CacheCount s + 1)).

Definition set_mmapped_output (num_port base_addr offset : Z) : M ic unit :=
  s <- m_get ;;
  m_assert (bool_decide (MMappedCount s < NUM_MMAPPED cfg)) ;;;
  l <- m_lift (vec_set (MMappedOutputs s) (MMappedCount s)
                 (mkAddr base_addr (u64 (base_addr + offset - 1)) offset num_port)) ;;
  m_modify (set_MMappedOutputs l) ;;; m_modify (set_MMappedCount (MMappedCount s + 1)).

Definition set_home_output (num_port id base_addr offset : Z) : M ic unit :=
  s <- m_get ;;
  m_assert (bool_decide (HomeCount s < NUM_HOME_OUT cfg)) ;;;
  m_assert (negb (bool_decide (id = NULL_IDX))) ;;;
  l <- m_lift (vec_set (HomeOutputs s) (HomeCount s)
                 (mkIdAddr id base_addr (u64 (base_addr + offset - 1)) offset num_port)) ;;
  m_modify (set_HomeOutputs l) ;;; m_modify (set_HomeCount (HomeCount s + 1)).

(** The first output of this name gets the identifier and the port. *)
Fixpoint set_id_of (name : string) (num_port id : Z) (l : list id_struct) : list id_struct :=
  match l with
  | [] => []
  | o :: l =>
      if String.eqb (i_name o) name then mkId (i_name o) (Some id) (Some num_port) (i_position o) :: l
      else o :: set_id_of name num_port id l
  end.

Definition set_cache_id (num_port id : Z) (name : string) : M ic unit :=
  m_assert (negb (bool_decide (id = NULL_IDX))) ;;;
  m_modify (fun s => set_CacheOutputs (set_id_of name num_port id (CacheOutputs s)) s).

Definition set_cache_pos (name : string) (pos : Z) : M ic unit :=
  s <- m_get ;;
  l <- m_lift (vec_set (CacheOutputs s) pos (mkId name None None (Some pos))) ;;
  m_modify (set_CacheOutputs l).

(** [vector::resize (n, 0)]. *)
Definition resize0 (n : Z) (l : list Z) : list Z :=
  take (Z.to_nat n) l ++ replicate (Z.to_nat n - length l) 0.

Definition set_mesh_coord (x y : Z) (s : ic) : ic :=
  set_RouterPacketsCount (resize0 (u32 (x * y)) (RouterPacketsCount s))
    (set_RouterTotalLatency (resize0 (u32 (x * y)) (RouterTotalLatency s)) (set_mX x (set_mY y s))).

Definition set_first_memory_controller (s : ic) : ic :=
  if bool_decide (IndexFirstMemoryController s = 4294967295)
  then set_IndexFirstMemoryController (Z.of_nat (length (mAddressIDs s))) s else s.

Definition register_mem_ctrl (base size x y : Z) : M ic unit :=
  m_assert (negb (bool_decide (x = NULL_IDX)) && negb (bool_decide (y = NULL_IDX))) ;;;
  s <- m_get ;;
  if bool_decide (mX s < x) || bool_decide (mY s < y) then m_throw (Throw "Incorrect memory/LLC mesh coordinates.")
  else
    m_modify (set_mAddressIDs (mAddressIDs s ++ [(base, size, mkPos x y)])) ;;;
    m_modify (set_mReadCount (mReadCount s ++ [0])) ;;;
    m_modify (set_mWriteCount (mWriteCount s ++ [0])).

Definition register_cpu_ctrl (id x y : Z) : M ic unit :=
  m_assert (negb (IcCoherent cfg) || negb (bool_decide (id = NULL_IDX))) ;;;
  s <- m_get ;;
  if bool_decide (mX s < x) || bool_decide (mY s < y) then m_throw (Throw "Incorrect cache mesh coordinates.")
  else m_modify (set_mCpuIDs (mCpuIDs s ++ [(id, mkPos x y)])).

Definition register_device_ctrl (id x y : Z) : M ic unit :=
  m_assert (negb (IcCoherent cfg) || negb (bool_decide (id = NULL_IDX))) ;;;
  s <- m_get ;;
  if bool_decide (mX s < x) || bool_decide (mY s < y) then m_throw (Throw "Incorrect device mesh coordinates.")
  else m_modify (set_mDeviceIDs (mDeviceIDs s ++ [(id, mkPos x y)])).

Definition register_home_ctrl (base size x y : Z) : M ic unit :=
  m_assert (negb (bool_decide (x = NULL_IDX)) && negb (bool_decide (y = NULL_IDX))) ;;;
  s <- m_get ;;
  if bool_decide (mX s < x) || bool_decide (mY s < y) then m_throw (Throw "Incorrect memory/LLC mesh coordinates.")
  else m_modify (set_mHomeIDs (mHomeIDs s ++ [(base, size, mkPos x y)])).
End registration.

(** ** Positions *)

Definition in_window (addr base size : Z) : bool :=
  bool_decide (base ≤ addr) && bool_decide (addr < u64 (size + base)).

(** The loop over a table of address windows: position and index of the first match. *)
Fixpoint find_window (addr : Z) (l : list (Z * Z * mesh_pos)) (index : Z) : result (mesh_pos * Z) :=
  match l with
  | [] => Err (Throw "Unknown Address")
  | (base, size, pos) :: l =>
      if in_window addr base size then Ok (pos, index) else find_window addr l (index + 1)
  end.

Definition get_noc_pos_by_address_without_interleave (addr : Z) (s : ic) : result (mesh_pos * Z) :=
  find_window addr (mAddressIDs s) 0.

Section positions.
Context (cfg : ic_config).

(** [index] comes in as the index of the first memory controller. *)
Definition get_noc_pos_by_address_with_interleave (addr index : Z) (s : ic) : result (mesh_pos * Z) :=
  if bool_decide (RamBaseAddr s ≤ addr) && bool_decide (addr < RamLastAddr s) then
    if bool_decide (mAddressIDs s = []) then Err (UndefinedBehaviour "division by zero")
    else
      let index := u64 (index + ((addr - RamBaseAddr s) / MemoryInterleaveLength cfg) mod
                                 Z.of_nat (length (mAddressIDs s))) in
      result_bind (vec_get (mAddressIDs s) index) (fun m => Ok (m.2, index))
  else get_noc_pos_by_address_without_interleave addr s.

(** The function pointer chosen by the constructor. *)
Definition get_noc_pos_by_address (addr index : Z) (s : ic) : result (mesh_pos * Z) :=
  if bool_decide (MemoryInterleaveLength cfg = 0) then get_noc_pos_by_address_without_interleave addr s
  else get_noc_pos_by_address_with_interleave addr index s.

Fixpoint find_id (id : Z) (l : list (Z * mesh_pos)) : option mesh_pos :=
  match l with
  | [] => None
  | (i, pos) :: l => if bool_decide (id = i) then Some pos else find_id id l
  end.

Definition get_noc_pos_by_id (id : Z) (s : ic) : result mesh_pos :=
  if bool_decide (id = NULL_IDX) then Err AssertionFailed
  else match find_id id (mCpuIDs s) with Some p => Ok p | None => Err (Throw "Unknown ID") end.

Definition get_device_noc_pos_by_id (id : Z) (s : ic) : result mesh_pos :=
  if bool_decide (id = NULL_IDX) then Err AssertionFailed
  else match find_id id (mDeviceIDs s) with Some p => Ok p | None => Err (Throw "Unknown Device ID") end.

Definition get_home_pos_by_address_without_interleave (addr : Z) (s : ic) : result mesh_pos :=
  result_bind (find_window addr (mHomeIDs s) 0) (fun r => Ok r.1).

(** The home of an interleaved RAM address. *)
Definition home_index (addr : Z) (s : ic) : Z :=
  ((addr - RamBaseAddr s) / SLCInterleaveLength cfg) mod Z.of_nat (length (mHomeIDs s)).

Definition in_ram (addr : Z) (s : ic) : bool :=
  bool_decide (RamBaseAddr s ≤ addr) && bool_decide (addr < RamLastAddr s).

Definition get_home_pos_by_address_with_interleave (addr : Z) (s : ic) : result mesh_pos :=
  if in_ram addr s then
    if bool_decide (mHomeIDs s = []) then Err (UndefinedBehaviour "division by zero")
    else result_bind (vec_get (mHomeIDs s) (home_index addr s)) (fun m => Ok m.2)
  else Err (Throw "Unknown Address").

Definition get_home_pos_by_address (addr : Z) (s : ic) : result mesh_pos :=
  if bool_decide (SLCInterleaveLength cfg = 0) then get_home_pos_by_address_without_interleave addr s
  else get_home_pos_by_address_with_interleave addr s.

(** ** Distances *)

Definition distance (src dst : mesh_pos) : Z :=
  Z.abs (x_id src - x_id dst) + Z.abs (y_id src - y_id dst) + 1.

(** The greatest distance to the given caches. *)
Fixpoint max_distance (src : mesh_pos) (ids : list Z) (dist : Z) (s : ic) : result Z :=
  match ids with
  | [] => Ok dist
  | id :: ids =>
      result_bind (get_noc_pos_by_id id s) (fun dst => max_distance src ids (Z.max dist (distance src dst)) s)
  end.

(** The identifiers of the outputs; reading an unset one is undefined. *)
Fixpoint output_ids (l : list id_struct) : result (list Z) :=
  match l with
  | [] => Ok []
  | o :: l =>
      match i_id o with
      | Some id => result_bind (output_ids l) (fun ids => Ok (id :: ids))
      | None => Err (UndefinedBehaviour "read of an unset id")
      end
  end.

(** [dst_ids] lists the elements of the set in increasing order. *)
Definition computeNoCLatency (isHome isIdMapped : bool) (addr src_id : Z) (dst_ids : list Z) (s : ic) : result Z :=
  result_bind (get_noc_pos_by_id src_id s) (fun src =>
  if negb isIdMapped then
    if negb isHome then
      result_bind (get_noc_pos_by_address addr 0 s) (fun r => Ok (distance src r.1))
    else result_bind (get_home_pos_by_address addr s) (fun dst => Ok (distance src dst))
  else if IcCoherent cfg then max_distance src dst_ids 0 s
  else result_bind (output_ids (CacheOutputs s)) (fun ids => max_distance src ids 0 s)).
End positions.

(** ** Routes *)

(** The XY route: along the row of the source to the column of the destination, then
    along that column, then out of the local port. *)
Definition x_leg (src dst : mesh_pos) : route :=
  if bool_decide (x_id dst < x_id src) then
    (fun k => (x_id src - k, y_id src, PW)) <$> seqZ 0 (x_id src - x_id dst)
  else if bool_decide (x_id src < x_id dst) then
    (fun k => (x_id src + k, y_id src, PE)) <$> seqZ 0 (x_id dst - x_id src)
  else [].

Definition y_leg (src dst : mesh_pos) : route :=
  if bool_decide (y_id dst < y_id src) then
    (fun k => (x_id dst, y_id src - k, PN)) <$> seqZ 0 (y_id src - y_id dst)
  else if bool_decide (y_id src < y_id dst) then
    (fun k => (x_id dst, y_id src + k, PS)) <$> seqZ 0 (y_id dst - y_id src)
  else [].

Definition xy_route (src dst : mesh_pos) : route :=
  x_leg src dst ++ y_leg src dst ++ [(x_id dst, y_id dst, PL)].

(** One hop: the flits enter the output buffer ([map::insert] keeps an existing key)
    and the packet counter of the router is increased. *)
Definition enter_buffer (id nbFlits : Z) (b : gmap Z Z) : gmap Z Z :=
  foldl (fun b count => let k := u32 (id + count) in if b !! k is Some _ then b else <[k := 0]> b)
    b (seqZ 0 nbFlits).

Definition visit (id nbFlits : Z) (h : hop) : M ic unit :=
  s <- m_get ;;
  let '(x, y, _) := h in
  m_modify (set_noc (<[h := enter_buffer id nbFlits (default ∅ (noc s !! h))]> (noc s))) ;;;
  let i := u32 (x + u32 (y * mX s)) in
  n <- m_lift (vec_get (RouterPacketsCount s) i) ;;
  l <- m_lift (vec_set (RouterPacketsCount s) i (u64 (n + nbFlits))) ;;
  m_modify (set_RouterPacketsCount l).

Definition ComputeRouteAndUpdateRouters (src dst : mesh_pos) (id nbFlits : Z) : M ic route :=
  m_forM (xy_route src dst) (visit id nbFlits) ;;; m_ret (xy_route src dst).

Definition SavePacket (id : Z) (path : route) (nbFlits : Z) (s : ic) : ic :=
  set_packetBuffer (packetBuffer s ++ ((fun count => (u32 (id + count), path, 0)) <$> seqZ 0 nbFlits)) s.

(** [PacketLatency], with integer times. *)
Definition PacketLatency (total_wait router_latency link_latency nbr_hops : Z) : Z :=
  nbr_hops * router_latency + (nbr_hops + 1) * link_latency + total_wait.

(** ** Contention *)

(** An output buffer is a [std::map]: its keys in increasing order are what an iterator
    visits, and an iterator is an index into them ([length] is [end ()]). *)
Definition buffer_keys (b : gmap Z Z) : list Z := merge_sort Z.le (map_to_list b).*1.

Fixpoint index_of (k : Z) (l : list Z) : nat :=
  match l with
  | [] => 0
  | x :: l => if bool_decide (x = k) then 0 else S (index_of k l)
  end.

(** [prev (it, n)], undefined before the first element. *)
Definition iter_prev (keys : list Z) (i n : nat) : option Z :=
  if bool_decide (n ≤ i)%nat then keys !! (i - n)%nat else None.

(** [next (find (path, rt))]. *)
Fixpoint next_after (rt : hop) (path : route) : option hop :=
  match path with
  | [] => None
  | h :: path => if bool_decide (h = rt) then head path else next_after rt path
  end.

Definition buffer_at (rt : hop) (s : ic) : gmap Z Z := default ∅ (noc s !! rt).

(** [noc[..][port][pkt] = wait]. *)
Definition store_wait (rt : hop) (pkt wait : Z) (s : ic) : ic :=
  set_noc (<[rt := <[pkt := wait]> (buffer_at rt s)]> (noc s)) s.

(** [RouterTotalLatency[x + (y * mX)] += wait]. *)
Definition add_router_latency (rt : hop) (wait : Z) : M ic unit :=
  s <- m_get ;;
  let i := u32 (rt.1.1 + u32 (rt.1.2 * mX s)) in
  n <- m_lift (vec_get (RouterTotalLatency s) i) ;;
  l <- m_lift (vec_set (RouterTotalLatency s) i (n + wait)) ;;
  m_modify (set_RouterTotalLatency l).

Definition or_undefined {A} (o : option A) : M ic A :=
  match o with Some a => m_ret a | None => m_throw (UndefinedBehaviour "iterator out of range") end.

Section contention.
Context (cfg : ic_config).
(** [QueueWaitingTime] is floating-point arithmetic: the wait of the previous packet
    and the number of packets in the queue to a waiting time. *)
Context (QueueWaitingTime : Z → Z → Z).

(** Head-of-line blocking: the previous packet [pk] leaves [rt] for another buffer than
    this one, and is queued there beyond the capacity of that buffer. *)
Definition hol_blocking (pkt pk : Z) (rt : hop) (rest : route) : M ic Z :=
  s <- m_get ;;
  rt1 <- or_undefined (head rest) ;;
  p <- m_lift (vec_get (packetBuffer s) (u64 (pk - 1))) ;;
  rt3 <- or_undefined (next_after rt p.1.2) ;;
  if bool_decide (rt1 = rt3) then m_ret 0
  else
    let b3 := buffer_at rt3 s in
    let capacity := u32 (mBufferSize cfg * mVirtualChannels cfg) in
    if bool_decide (Z.of_nat (index_of pk (buffer_keys b3)) < capacity) then m_ret 0
    else
      let keys := buffer_keys (buffer_at rt s) in
      k <- (if bool_decide (1 < mBufferSize cfg)
            then or_undefined (iter_prev keys (index_of pk keys) (Z.to_nat (u32 (capacity - 1))))
            else m_ret pk) ;;
      let wait := default 0 (b3 !! k) in
      m_modify (store_wait rt3 k wait) ;;;
      m_modify (fun s => store_wait rt pkt (default 0 (buffer_at rt s !! pkt) + wait) s) ;;;
      add_router_latency rt wait ;;; m_ret wait.

(** One router of a packet's path.  The locals are [total_wait], [prev_pkt] and [prev_wait]. *)
Definition hop_wait (pkt : Z) (rt : hop) (rest : route) (locals : Z * Z * Z) : M ic (Z * Z * Z) :=
  s <- m_get ;;
  let '(total_wait, prev_pkt, prev_wait) := locals in
  let b := buffer_at rt s in
  let keys := buffer_keys b in
  first <- or_undefined (head keys) ;;
  if bool_decide (pkt = first) then
    m_modify (store_wait rt pkt 0) ;;; add_router_latency rt 0 ;;; m_ret locals
  else
    pk <- or_undefined (iter_prev keys (index_of pkt keys) 1) ;;
    let pw := default 0 (b !! pk) in
    let serialized := bool_decide (pk = prev_pkt) in
    let wait := if serialized then (if bool_decide (pw = prev_wait) then 0 else pw)
                else QueueWaitingTime pw (Z.of_nat (size b)) in
    m_modify (store_wait rt pkt wait) ;;; add_router_latency rt wait ;;;
    hol <- (if bool_decide (rt.2 = PL) then m_ret 0 else hol_blocking pkt pk rt rest) ;;
    m_ret (total_wait + wait + hol, pk, if serialized then prev_wait else pw).

Fixpoint path_wait (pkt : Z) (path : route) (locals : Z * Z * Z) : M ic (Z * Z * Z) :=
  match path with
  | [] => m_ret locals
  | rt :: rest => locals <- hop_wait pkt rt rest locals ;; path_wait pkt rest locals
  end.

(** The loop over the packets; [i] is the index of the first of [l] in the packet buffer. *)
Fixpoint packets_latency (l : list (Z * route * Z)) (i : nat) (avg_latency : Z) : M ic Z :=
  match l with
  | [] => m_ret avg_latency
  | (pkt, path, _) :: l =>
      locals <- path_wait pkt path (0, max64, 0) ;;
      let lat := PacketLatency locals.1.1 (mRouterLatency cfg) (mLinkLatency cfg) (Z.of_nat (length path)) in
      m_modify (set_packet_latency lat) ;;;
      m_modify (fun s => set_packetBuffer (alter (fun p => (p.1, lat)) i (packetBuffer s)) s) ;;;
      packets_latency l (S i) (avg_latency + lat)
  end.

Definition ComputePacketLatency : M ic Z :=
  s <- m_get ;; packets_latency (packetBuffer s) 0 0.
End contention.

(** ** Transport *)

(** The extension of a transaction; the command is unset in reads and writes. *)
Record ic_ext := mkExt {
  e_command : option CoherenceCommand;
  e_toHome : bool;
  e_initiator : Z;
  e_targets : list Z
}.

Record ic_trans := mkTrans { g_command : tlm_command; g_address : Z; g_length : Z }.

Section transport.
Context (cfg : ic_config).
(** The delay after the target behind a socket has been called. *)
Context (target : socket_out → ic_trans → Z → Z).
Context (QueueWaitingTime : Z → Z → Z).

Definition call (sock : socket_out) (t : ic_trans) (delay : Z) : M ic Z :=
  let ok := match sock with
            | CacheSocket n => bool_decide (0 ≤ n < NUM_CACHE_OUT cfg)
            | HomeSocket n => bool_decide (0 ≤ n < NUM_HOME_OUT cfg)
            | MMappedSocket n => bool_decide (0 ≤ n < NUM_MMAPPED cfg)
            end in
  if ok then
    m_modify (fun s => set_sent (sent s ++ [mkDelivery sock (g_address t) (g_length t)]) s) ;;;
    m_ret (target sock t delay)
  else m_throw (UndefinedBehaviour "socket index out of range").

(** [addr >= base && addr + length - 1 <= end]. *)
Definition covers (t : ic_trans) (base last : Z) : bool :=
  bool_decide (base ≤ g_address t) && bool_decide (u64 (g_address t + g_length t - 1) ≤ last).

Fixpoint find_home (t : ic_trans) (l : list id_addr_struct) : option id_addr_struct :=
  match l with
  | [] => None
  | h :: l => if covers t (h_base h) (h_end h) then Some h else find_home t l
  end.

Definition sendTransactionToHome (t : ic_trans) (delay : Z) : M ic Z :=
  s <- m_get ;;
  if bool_decide (length (HomeOutputs s) = 1%nat) then call (HomeSocket 0) t delay
  else if negb (bool_decide (SLCInterleaveLength cfg = 0)) then
    if in_ram (g_address t) s then
      if bool_decide (mHomeIDs s = []) then m_throw (UndefinedBehaviour "division by zero")
      else call (HomeSocket (home_index cfg (g_address t) s)) t delay
    else m_throw AssertionFailed
  else
    match find_home t (HomeOutputs s) with
    | Some h => call (HomeSocket (h_port h)) t delay
    | None => m_throw AssertionFailed
    end.

(** The position of an output, read when the output is called. *)
Definition call_cache (o : id_struct) (t : ic_trans) (delay : Z) : M ic Z :=
  match i_position o with
  | Some n => call (CacheSocket n) t delay
  | None => m_throw (UndefinedBehaviour "read of an unset position")
  end.

Fixpoint broadcast (l : list id_struct) (t : ic_trans) (delay : Z) : M ic Z :=
  match l with
  | [] => m_ret delay
  | o :: l => delay <- call_cache o t delay ;; broadcast l t delay
  end.

Fixpoint call_if_target (o : id_struct) (ids : list Z) (t : ic_trans) (delay : Z) : M ic Z :=
  match ids with
  | [] => m_ret delay
  | id :: ids =>
      match i_id o with
      | None => m_throw (UndefinedBehaviour "read of an unset id")
      | Some i =>
          delay <- (if bool_decide (i = id) then call_cache o t delay else m_ret delay) ;;
          call_if_target o ids t delay
      end
  end.

Fixpoint multicast (l : list id_struct) (ids : list Z) (t : ic_trans) (delay : Z) : M ic Z :=
  match l with
  | [] => m_ret delay
  | o :: l => delay <- call_if_target o ids t delay ;; multicast l ids t delay
  end.

Definition sendTransactionToCache (t : ic_trans) (targetIds : list Z) (delay : Z) : M ic Z :=
  s <- m_get ;;
  match targetIds with
  | [] => broadcast (CacheOutputs s) t delay
  | _ => multicast (CacheOutputs s) targetIds t delay
  end.

Fixpoint find_mmapped (t : ic_trans) (l : list addr_struct) : option addr_struct :=
  match l with
  | [] => None
  | a :: l => if covers t (a_base a) (a_end a) then Some a else find_mmapped t l
  end.

Definition sendTransactionToMMapped (t : ic_trans) (delay : Z) : M ic Z :=
  m_assert (negb (bool_decide (g_command t = TLM_IGNORE_COMMAND))) ;;;
  s <- m_get ;;
  match find_mmapped t (MMappedOutputs s) with
  | Some a => call (MMappedSocket (a_port a)) t delay
  | None => m_throw AssertionFailed
  end.

Definition computeNoCPerformance (dist latency : Z) (s : ic) : ic :=
  set_PacketsCount (u64 (PacketsCount s + 1))
    (set_TotalLatency (TotalLatency s + latency) (set_TotalDistance (u64 (TotalDistance s + dist)) s)).

Fixpoint positions_of (ids : list Z) (s : ic) : result (list mesh_pos) :=
  match ids with
  | [] => Ok []
  | id :: ids =>
      result_bind (get_noc_pos_by_id id s) (fun p =>
      result_bind (positions_of ids s) (fun ps => Ok (p :: ps)))
  end.

(** [GetDestinations]; the memory controller counters are updated. *)
Definition GetDestinations (t : ic_trans) (isHome isIdMapped : bool) (dst_ids : list Z) : M ic (list mesh_pos) :=
  s <- m_get ;;
  if negb isIdMapped then
    if negb isHome then
      r <- m_lift (get_noc_pos_by_address cfg (g_address t) (IndexFirstMemoryController s) s) ;;
      let index := r.2 in
      (match g_command t with
       | TLM_READ_COMMAND =>
           n <- m_lift (vec_get (mReadCount s) index) ;;
           l <- m_lift (vec_set (mReadCount s) index (u64 (n + g_length t))) ;; m_modify (set_mReadCount l)
       | TLM_WRITE_COMMAND =>
           n <- m_lift (vec_get (mWriteCount s) index) ;;
           l <- m_lift (vec_set (mWriteCount s) index (u64 (n + g_length t))) ;; m_modify (set_mWriteCount l)
       | TLM_IGNORE_COMMAND => m_ret tt
       end) ;;;
      m_ret [r.1]
    else p <- m_lift (get_home_pos_by_address cfg (g_address t) s) ;; m_ret [p]
  else if IcCoherent cfg then m_lift (positions_of dst_ids s)
  else m_lift (result_bind (output_ids (CacheOutputs s)) (fun ids => positions_of ids s)).

(** The body of the three loops over the destinations. *)
Definition inject (src : mesh_pos) (nbFlits : Z) (dst : mesh_pos) : M ic unit :=
  s <- m_get ;;
  let id := u32 (totalFlits s + 1) in
  path <- ComputeRouteAndUpdateRouters src dst id nbFlits ;;
  m_modify (fun s => set_TotalDistance (u64 (TotalDistance s + nbFlits * Z.of_nat (length path))) s) ;;;
  m_modify (SavePacket id path nbFlits) ;;;
  m_modify (fun s => set_totalFlits (u64 (totalFlits s + nbFlits)) s).

Definition NetworkTimingModel (t : ic_trans) (ts time_interval : Z) (isHome isIdMapped : bool) (nbFlits : Z)
    (src_pos : mesh_pos) (dst_ids : list Z) (device : bool) : M ic unit :=
  r <- (if device && bool_decide (g_command t = TLM_READ_COMMAND) then
          s <- m_get ;;
          p <- m_lift (get_noc_pos_by_address cfg (g_address t) (IndexFirstMemoryController s) s) ;;
          m_ret (p.1, [src_pos])
        else dest <- GetDestinations t isHome isIdMapped dst_ids ;; m_ret (src_pos, dest)) ;;
  let src := r.1 in
  let dest := r.2 in
  s <- m_get ;;
  if bool_decide (totalFlits s = 0) then
    m_modify (set_interval_start ts) ;;; m_modify (set_interval_end (ts + time_interval)) ;;;
    m_forM dest (inject src nbFlits)
  else if bool_decide (interval_start s ≤ ts) && bool_decide (ts ≤ interval_end s) then
    m_forM dest (inject src nbFlits)
  else
    avg <- ComputePacketLatency cfg QueueWaitingTime ;;
    m_modify (fun s => set_AverageLatency (AverageLatency s + avg) s) ;;;
    m_modify (fun s => set_PacketsCount (u64 (PacketsCount s + Z.of_nat (length (packetBuffer s)))) s) ;;;
    m_modify (set_packetBuffer []) ;;; m_modify (set_noc ∅) ;;; m_modify (set_totalFlits 0) ;;;
    m_modify (set_interval_start ts) ;;; m_modify (set_interval_end (ts + time_interval)) ;;;
    m_forM dest (inject src nbFlits).
(** [FillInitTotalStats]. *)
Definition FillInitTotalStats (id : Z) (src_pos : mesh_pos) (dist lat : Z) (s : ic) : ic :=
  let st := default (mkStat src_pos 0 0 0) (initTotalStats s !! id) in
  set_initTotalStats
    (<[id := mkStat src_pos (u64 (st_packets st + 1)) (u64 (st_dist st + dist)) (st_lat st + lat)]>
       (initTotalStats s)) s.

(** The command of the extension, where the code reads it. *)
Definition getCoherenceCommand (e : ic_ext) : M ic CoherenceCommand :=
  match e_command e with
  | Some c => m_ret c
  | None => m_throw (UndefinedBehaviour "read of an unset command")
  end.

Definition is_ignore (t : ic_trans) : bool := bool_decide (g_command t = TLM_IGNORE_COMMAND).

Definition downstream_command (c : CoherenceCommand) : bool :=
  match c with GetS | GetM | FwdGetS | FwdGetM => true | _ => false end.

Definition id_mapped_command (c : CoherenceCommand) : bool :=
  if IcCoherent cfg then match c with FwdGetS | FwdGetM | PutI | InvS | InvM => true | _ => false end
  else match c with Invalidate => true | _ => false end.

(** The number of flits of a transaction; only a write does not read the command. *)
Definition flits_of (t : ic_trans) (ext : ic_ext) : M ic Z :=
  carries <- (match g_command t with
              | TLM_WRITE_COMMAND => m_ret true
              | _ => c <- getCoherenceCommand ext ;; m_ret (bool_decide (c = PutS) || bool_decide (c = PutM))
              end) ;;
  if carries then
    if bool_decide (FlitSize cfg = 0) then m_throw (UndefinedBehaviour "division by zero")
    else m_ret (g_length t / FlitSize cfg)
  else m_ret 1.

(** The latency computation of [b_transport]: the new delay. *)
Definition noc_delay (t : ic_trans) (ext : ic_ext) (time_stamp : Z) (isDownstream isIdMapped : bool) (delay : Z) : M ic Z :=
  if negb (mIsMesh cfg) then m_ret (if isDownstream then delay + ACCESS_LATENCY cfg else delay)
  else
    nbFlits <- flits_of t ext ;;
    s <- m_get ;;
    if negb (mWithContention cfg) then
      dist <- m_lift (computeNoCLatency cfg (e_toHome ext) isIdMapped (g_address t) (e_initiator ext) (e_targets ext) s) ;;
      let latency := mRouterLatency cfg * dist in
      m_modify (computeNoCPerformance dist latency) ;;;
      m_when (mNoc_stats_per_initiator_on cfg)
        (src_pos <- m_lift (get_noc_pos_by_id (e_initiator ext) s) ;;
         m_modify (FillInitTotalStats (e_initiator ext) src_pos dist latency)) ;;;
      m_ret (if isDownstream then delay + latency else delay)
    else
      src_pos <- m_lift (get_noc_pos_by_id (e_initiator ext) s) ;;
      NetworkTimingModel t (time_stamp + delay) (mContentionInterval cfg) (e_toHome ext) isIdMapped nbFlits
        src_pos (e_targets ext) false ;;;
      s <- m_get ;;
      m_ret (if isDownstream then delay + packet_latency s else delay).

Definition to_caches (t : ic_trans) (ext : ic_ext) (delay : Z) : M ic Z :=
  m_assert (negb (bool_decide (e_targets ext = []))) ;;; sendTransactionToCache t (e_targets ext) delay.

(** The sending part of [b_transport]. *)
Definition send_onwards (t : ic_trans) (ext : ic_ext) (delay : Z) : M ic Z :=
  if IcCoherent cfg then
    if negb (is_ignore t) then sendTransactionToMMapped t delay
    else
      c <- getCoherenceCommand ext ;;
      match c with
      | GetS | GetM | PutS | PutM | Evict => sendTransactionToHome t delay
      | FwdGetS | FwdGetM | PutI | InvS | InvM | ReadBack => to_caches t ext delay
      | _ => m_throw AssertionFailed
      end
  else if negb (is_ignore t) then
    if e_toHome ext then sendTransactionToHome t delay else sendTransactionToMMapped t delay
  else
    c <- getCoherenceCommand ext ;;
    match c with
    | Invalidate | ReadBack => to_caches t ext delay
    | Evict => m_assert (e_toHome ext) ;;; sendTransactionToHome t delay
    | _ => m_throw AssertionFailed
    end.

(** [b_transport]: [None] is a missing extension; the result is the new [delay]. *)
Definition b_transport (t : ic_trans) (ext : option ic_ext) (src : option Z) (delay : Z) : M ic Z :=
  match ext, src with
  | Some ext, Some time_stamp =>
      flags <- (if is_ignore t then
                  c <- getCoherenceCommand ext ;; m_ret (downstream_command c, id_mapped_command c)
                else m_ret (bool_decide (g_command t = TLM_READ_COMMAND), false)) ;;
      delay <- noc_delay t ext time_stamp flags.1 flags.2 delay ;;
      send_onwards t ext delay
  | _, _ => m_throw AssertionFailed
  end.

(** *** Devices *)

(** The number of units of [unit] bytes that cover [n] bytes. *)
Definition units_of (n unit : Z) : Z := n / unit + (if bool_decide (n mod unit = 0) then 0 else 1).

Definition at_address (t : ic_trans) (addr len : Z) : ic_trans := mkTrans (g_command t) addr len.

(** The flits of one word on their way from the memory to the device. *)
Fixpoint read_flits (n : nat) (t : ic_trans) (time_stamp : Z) (src_pos : mesh_pos) (memDelay maxDelay : Z) : M ic Z :=
  match n with
  | O => m_ret maxDelay
  | S n =>
      NetworkTimingModel t (time_stamp + memDelay) (mContentionInterval cfg) false false 1 src_pos [] true ;;;
      s <- m_get ;;
      read_flits n t time_stamp src_pos memDelay (Z.max maxDelay (memDelay + packet_latency s))
  end.

(** The words of a device read. *)
Fixpoint read_words (n : nat) (t : ic_trans) (addr time_stamp : Z) (src_pos : mesh_pos) (memDelay maxDelay : Z) : M ic Z :=
  match n with
  | O => m_ret maxDelay
  | S n =>
      memDelay <- sendTransactionToMMapped (at_address t addr (MWordLengthInByte cfg)) memDelay ;;
      maxDelay <- read_flits (Z.to_nat (units_of (MWordLengthInByte cfg) (FlitSize cfg)))
                    (at_address t addr (FlitSize cfg)) time_stamp src_pos memDelay maxDelay ;;
      read_words n t (u64 (addr + MWordLengthInByte cfg)) time_stamp src_pos memDelay maxDelay
  end.

(** The flits of a device write. *)
Fixpoint write_flits (n : nat) (t : ic_trans) (addr time_stamp : Z) (src_pos : mesh_pos) (arrivalDelay maxDelay : Z) : M ic Z :=
  match n with
  | O => m_ret maxDelay
  | S n =>
      let flit := at_address t addr (FlitSize cfg) in
      NetworkTimingModel flit (time_stamp + arrivalDelay) (mContentionInterval cfg) false false 1 src_pos [] false ;;;
      s <- m_get ;;
      memDelay <- sendTransactionToMMapped flit (arrivalDelay + packet_latency s) ;;
      write_flits n t (u64 (addr + FlitSize cfg)) time_stamp src_pos arrivalDelay (Z.max maxDelay memDelay)
  end.

(** [b_transport_device]: [src] is the identifier of the device and its time stamp. *)
Definition b_transport_device (t : ic_trans) (src : option (Z * Z)) (delay : Z) : M ic Z :=
  match src with
  | None => m_throw AssertionFailed
  | Some (device_id, time_stamp) =>
      s <- m_get ;;
      src_pos <- m_lift (get_device_noc_pos_by_id device_id s) ;;
      match g_command t with
      | TLM_READ_COMMAND =>
          if negb (mIsMesh cfg) then
            delay <- sendTransactionToMMapped t delay ;; m_ret (delay + ACCESS_LATENCY cfg)
          else if bool_decide (MWordLengthInByte cfg = 0) || bool_decide (FlitSize cfg = 0)
          then m_throw (UndefinedBehaviour "division by zero")
          else read_words (Z.to_nat (units_of (g_length t) (MWordLengthInByte cfg))) t (g_address t)
                 time_stamp src_pos delay 0
      | _ =>
          if negb (mIsMesh cfg) then sendTransactionToMMapped t (delay + ACCESS_LATENCY cfg)
          else if bool_decide (FlitSize cfg = 0) then m_throw (UndefinedBehaviour "division by zero")
          else write_flits (Z.to_nat (units_of (g_length t) (FlitSize cfg))) t (g_address t)
                 time_stamp src_pos delay 0
      end
  end.
End transport.
