(* ===== verification/Mesh.v ===== *)
(** * The mesh of the coherence interconnect: routes, counters and positions

    Theorems on the routing part of [CoherenceInterconnect.v]: a route is a shortest
    dimension-ordered path, sending a packet updates exactly the routers of its route,
    and what the checks of the registration functions let through. *)

From S2P Require Import Prelude Tlm CoherenceInterconnect.

(** ** Routes *)

(** The router a hop leads to, with the axes of the mesh: [E] and [W] along [x],
    [S] and [N] along [y]. *)
Definition next_router (h : hop) : Z * Z :=
  let '(x, y, p) := h in
  match p with
  | PE => (x + 1, y)
  | PW => (x - 1, y)
  | PS => (x, y + 1)
  | PN => (x, y - 1)
  | PL => (x, y)
  end.

(** Every hop leads to the router of the following one, and the last one leaves the
    network by the local port of [dst]. *)
Fixpoint linked (r : route) (dst : Z * Z) : Prop :=
  match r with
  | [] => False
  | h :: r =>
      match r with
      | [] => h = (dst, PL)
      | h' :: _ => h.2 ≠ PL ∧ next_router h = h'.1 ∧ linked r dst
      end
  end.

Definition along_x (h : hop) : Prop := h.2 = PE ∨ h.2 = PW.
Definition along_y (h : hop) : Prop := h.2 = PN ∨ h.2 = PS.

Lemma linked_leg (f : Z → hop) (n : nat) (r : route) dst :
  (∀ k, 0 ≤ k < Z.of_nat n → next_router (f k) = (f (k + 1)).1 ∧ (f k).2 ≠ PL) →
  fst <$> head r = Some (f (Z.of_nat n)).1 →
  linked r dst → linked ((f <$> seqZ 0 (Z.of_nat n)) ++ r) dst.
Proof.
  revert f. induction n as [|n IH]; intros f Hf Hr Hl; [done|].
  rewrite seqZ_cons by lia. replace (Z.pred (Z.of_nat (S n))) with (Z.of_nat n) by lia.
  rewrite <- (fmap_add_seqZ 1 0), fmap_cons, <- list_fmap_compose.
  assert (linked (((fun k => f (k + 1)) <$> seqZ 0 (Z.of_nat n)) ++ r) dst) as Htl.
  { apply (IH (fun k => f (k + 1))).
    - intros k Hk. apply (Hf (k + 1)). lia.
    - rewrite Hr. do 3 f_equal. lia.
    - done. }
  replace (f ∘ Z.add 1 <$> seqZ 0 (Z.of_nat n)) with ((fun k => f (k + 1)) <$> seqZ 0 (Z.of_nat n)).
  2:{ apply list_fmap_ext. intros _ k _. cbn. f_equal. lia. }
  destruct (Hf 0) as [Hn Hp]; [lia|].
  cbn [app]. destruct n as [|n].
  - destruct r as [|h r]; [done|]. cbn in Hr |- *. simplify_eq.
    split; [done|split; [|done]]. by rewrite Hn, Hr.
  - rewrite seqZ_cons in Htl |- * by lia. rewrite fmap_cons in Htl |- *.
    cbn [app] in Htl |- *. split; [done|split; [|done]]. exact Hn.
Qed.

Lemma linked_leg_Z (f : Z → hop) (n : Z) (r : route) dst :
  0 ≤ n →
  (∀ k, 0 ≤ k < n → next_router (f k) = (f (k + 1)).1 ∧ (f k).2 ≠ PL) →
  fst <$> head r = Some (f n).1 →
  linked r dst → linked ((f <$> seqZ 0 n) ++ r) dst.
Proof.
  intros Hn. rewrite <- (Z2Nat.id n) by done. apply linked_leg.
Qed.

Lemma head_leg {A} (f : Z → A) n (r : list A) :
  0 ≤ n → head ((f <$> seqZ 0 n) ++ r) = if decide (n = 0) then head r else Some (f 0).
Proof.
  intros Hn. case_decide as H0; [by subst|]. by rewrite seqZ_cons by lia.
Qed.

Section xy.
Context (src dst : mesh_pos).

Lemma y_leg_linked :
  linked (y_leg src dst ++ [(x_id dst, y_id dst, PL)]) (x_id dst, y_id dst) ∧
  fst <$> head (y_leg src dst ++ [(x_id dst, y_id dst, PL)]) = Some (x_id dst, y_id src).
Proof.
  unfold y_leg. repeat case_bool_decide.
  - split.
    + apply (linked_leg_Z (fun k => (x_id dst, y_id src - k, PN))); [lia| | |done].
      * intros k Hk. cbn. split; [f_equal; lia|done].
      * cbn. do 2 f_equal. lia.
    + rewrite head_leg by lia. rewrite decide_False by lia. cbn. do 2 f_equal. lia.
  - split.
    + apply (linked_leg_Z (fun k => (x_id dst, y_id src + k, PS))); [lia| | |done].
      * intros k Hk. cbn. split; [f_equal; lia|done].
      * cbn. do 2 f_equal. lia.
    + rewrite head_leg by lia. rewrite decide_False by lia. cbn. do 2 f_equal. lia.
  - cbn. split; [done|]. do 2 f_equal. lia.
Qed.

Lemma xy_linked :
  linked (xy_route src dst) (x_id dst, y_id dst) ∧
  fst <$> head (xy_route src dst) = Some (x_id src, y_id src).
Proof.
  destruct y_leg_linked as [Hl Hh]. unfold xy_route.
  set (r := y_leg src dst ++ _) in *. clearbody r.
  unfold x_leg. repeat case_bool_decide.
  - split.
    + apply (linked_leg_Z (fun k => (x_id src - k, y_id src, PW))); [lia| | |done].
      * intros k Hk. cbn. split; [f_equal; lia|done].
      * rewrite Hh. cbn. do 2 f_equal. lia.
    + rewrite head_leg by lia. rewrite decide_False by lia. cbn. do 2 f_equal. lia.
  - split.
    + apply (linked_leg_Z (fun k => (x_id src + k, y_id src, PE))); [lia| | |done].
      * intros k Hk. cbn. split; [f_equal; lia|done].
      * rewrite Hh. cbn. do 2 f_equal. lia.
    + rewrite head_leg by lia. rewrite decide_False by lia. cbn. do 2 f_equal. lia.
  - cbn. split; [done|]. rewrite Hh. do 2 f_equal. lia.
Qed.

Lemma x_leg_elem h :
  h ∈ x_leg src dst ↔ (h.2 = PW ∧ h.1.2 = y_id src ∧ x_id dst < h.1.1 ≤ x_id src) ∨
                      (h.2 = PE ∧ h.1.2 = y_id src ∧ x_id src ≤ h.1.1 < x_id dst).
Proof.
  destruct h as [[x y] p]. unfold x_leg. repeat case_bool_decide; cbn.
  - rewrite list_elem_of_fmap. setoid_rewrite elem_of_seqZ. split.
    + intros (k & [= -> -> ->] & Hk). left. split_and!; [done..|lia|lia].
    + intros [(-> & -> & ?)|(-> & ? & ?)]; [|lia]. exists (x_id src - x). split; [do 2 f_equal; lia|lia].
  - rewrite list_elem_of_fmap. setoid_rewrite elem_of_seqZ. split.
    + intros (k & [= -> -> ->] & Hk). right. split_and!; [done..|lia|lia].
    + intros [(-> & ? & ?)|(-> & -> & ?)]; [lia|]. exists (x - x_id src). split; [do 2 f_equal; lia|lia].
  - rewrite elem_of_nil. lia.
Qed.

Lemma y_leg_elem h :
  h ∈ y_leg src dst ↔ (h.2 = PN ∧ h.1.1 = x_id dst ∧ y_id dst < h.1.2 ≤ y_id src) ∨
                      (h.2 = PS ∧ h.1.1 = x_id dst ∧ y_id src ≤ h.1.2 < y_id dst).
Proof.
  destruct h as [[x y] p]. unfold y_leg. repeat case_bool_decide; cbn.
  - rewrite list_elem_of_fmap. setoid_rewrite elem_of_seqZ. split.
    + intros (k & [= -> -> ->] & Hk). left. split_and!; [done..|lia|lia].
    + intros [(-> & -> & ?)|(-> & ? & ?)]; [|lia]. exists (y_id src - y). split; [do 2 f_equal; lia|lia].
  - rewrite list_elem_of_fmap. setoid_rewrite elem_of_seqZ. split.
    + intros (k & [= -> -> ->] & Hk). right. split_and!; [done..|lia|lia].
    + intros [(-> & ? & ?)|(-> & -> & ?)]; [lia|]. exists (y - y_id src). split; [do 2 f_equal; lia|lia].
  - rewrite elem_of_nil. lia.
Qed.

Lemma xy_length : Z.of_nat (length (xy_route src dst)) = distance src dst.
Proof.
  unfold xy_route, distance, x_leg, y_leg. rewrite !length_app. cbn.
  repeat case_bool_decide; rewrite ?length_fmap, ?length_seqZ; cbn; lia.
Qed.

(** A leg meets every router once. *)
Lemma x_leg_NoDup : NoDup (x_leg src dst).*1.
Proof.
  unfold x_leg. repeat case_bool_decide; [| |constructor]; rewrite <- list_fmap_compose;
    (apply NoDup_fmap_2; [|apply NoDup_seqZ]; intros ? ? [=]; lia).
Qed.

Lemma y_leg_NoDup : NoDup (y_leg src dst).*1.
Proof.
  unfold y_leg. repeat case_bool_decide; [| |constructor]; rewrite <- list_fmap_compose;
    (apply NoDup_fmap_2; [|apply NoDup_seqZ]; intros ? ? [=]; lia).
Qed.

Lemma xy_NoDup : NoDup (xy_route src dst).*1.
Proof.
  unfold xy_route. rewrite !fmap_app. apply NoDup_app. split_and!; [apply x_leg_NoDup| |].
  - intros q (hx & -> & Hx%x_leg_elem)%list_elem_of_fmap. rewrite elem_of_app, !list_elem_of_fmap.
    intros [(hy & Hq & Hy%y_leg_elem)|(hl & Hq & ->%list_elem_of_singleton)]; rewrite Hq in *; cbn in *; lia.
  - apply NoDup_app. split_and!; [apply y_leg_NoDup| |cbn; apply NoDup_singleton].
    intros q (hy & -> & Hy%y_leg_elem)%list_elem_of_fmap. rewrite list_elem_of_fmap.
    intros (hl & Hq & ->%list_elem_of_singleton). rewrite Hq in *. cbn in *. lia.
Qed.

(** No hop along [x] follows a hop along [y]. *)
Lemma xy_ordered i j hi hj :
  xy_route src dst !! i = Some hi → xy_route src dst !! j = Some hj →
  (i < j)%nat → along_y hi → ~ along_x hj.
Proof.
  unfold xy_route, along_x, along_y. intros Hi Hj Hij Hy Hx.
  apply lookup_app_Some in Hj as [Hj|[Hge Hj]].
  - apply lookup_lt_Some in Hj as Hlt. rewrite lookup_app_l in Hi by lia.
    apply list_elem_of_lookup_2, x_leg_elem in Hi. destruct hi as [? []]; cbn in *; naive_solver.
  - apply list_elem_of_lookup_2, elem_of_app in Hj as [Hj%y_leg_elem|Hj%list_elem_of_singleton].
    + destruct hj as [? []]; cbn in *; naive_solver.
    + subst. cbn in *. naive_solver.
Qed.

Lemma xy_in_box h : h ∈ xy_route src dst →
  Z.min (x_id src) (x_id dst) ≤ h.1.1 ≤ Z.max (x_id src) (x_id dst) ∧
  Z.min (y_id src) (y_id dst) ≤ h.1.2 ≤ Z.max (y_id src) (y_id dst).
Proof.
  unfold xy_route. rewrite !elem_of_app, list_elem_of_singleton, x_leg_elem, y_leg_elem.
  intros [[]|[[]| ->]]; cbn; lia.
Qed.
End xy.

(** The route of a packet is a connected path of routers from the source to the
    local port of the destination; it is as long as the distance that the latency model
    without contention charges for, it meets no router twice, and it never turns from
    the [y] direction back to the [x] direction (dimension-ordered routing, which is what
    makes the mesh free of cyclic waits). *)
Theorem xy_route_shortest src dst :
  linked (xy_route src dst) (x_id dst, y_id dst) ∧
  fst <$> head (xy_route src dst) = Some (x_id src, y_id src) ∧
  Z.of_nat (length (xy_route src dst)) = distance src dst ∧
  NoDup (xy_route src dst).*1 ∧
  (∀ i j hi hj, xy_route src dst !! i = Some hi → xy_route src dst !! j = Some hj →
     (i < j)%nat → along_y hi → ~ along_x hj).
Proof.
  destruct (xy_linked src dst). split_and!; [done|done|apply xy_length|apply xy_NoDup|apply xy_ordered].
Qed.

(** ** Sending a packet *)

Definition in_mesh (s : ic) (x y : Z) : Prop := 0 ≤ x < mX s ∧ 0 ≤ y < mY s.

(** One counter per router, as [set_mesh_coord] leaves them, and indices that fit their
    32-bit type. *)
Definition mesh_ok (s : ic) : Prop :=
  0 < mX s ∧ 0 < mY s ∧ mX s * mY s < 2 ^ 32 ∧
  Z.of_nat (length (RouterPacketsCount s)) = mX s * mY s.

Lemma router_index s x y : mesh_ok s → in_mesh s x y →
  u32 (x + u32 (y * mX s)) = x + y * mX s ∧ 0 ≤ x + y * mX s < mX s * mY s.
Proof.
  intros (HX & HY & Hb & _) [[? ?] [? ?]].
  assert (0 ≤ y * mX s) by nia.
  assert (x + y * mX s < mX s * mY s) by nia.
  rewrite (u32_small (y * mX s)) by (unfold in_u32; lia).
  rewrite u32_small by (unfold in_u32; lia). lia.
Qed.

Lemma router_index_inj s x y x' y' : in_mesh s x y → in_mesh s x' y' →
  x + y * mX s = x' + y' * mX s → x = x' ∧ y = y'.
Proof.
  intros [[? ?] [? ?]] [[? ?] [? ?]] Heq.
  assert (y = y') as -> by (destruct (Z.lt_trichotomy y y') as [?|[?|?]]; [nia|done|nia]). lia.
Qed.

Lemma enter_buffer_dom id nb b k :
  0 ≤ id → 0 ≤ nb → id + nb ≤ 2 ^ 32 →
  k ∈ dom (enter_buffer id nb b) ↔ k ∈ dom b ∨ id ≤ k < id + nb.
Proof.
  intros Hid Hnb Hle. unfold enter_buffer.
  assert (∀ l b, k ∈ dom (foldl (fun (b : gmap Z Z) count => let k := u32 (id + count) in
             if b !! k is Some _ then b else <[k := 0]> b) b l) ↔
             k ∈ dom b ∨ Exists (fun c => k = u32 (id + c)) l) as Hl.
  { clear b. intros l. induction l as [|c l IH]; intros b; cbn [foldl].
    - rewrite Exists_nil. tauto.
    - rewrite IH, Exists_cons. cbv zeta. destruct (b !! u32 (id + c)) eqn:Hc.
      + split; [tauto|]. intros [?|[->|?]]; [tauto| |tauto]. left. by eapply elem_of_dom_2.
      + rewrite dom_insert. set_solver. }
  rewrite Hl, Exists_exists. setoid_rewrite elem_of_seqZ. split; (intros [?|H]; [by left|right]).
  - destruct H as (c & Hc & ->). rewrite u32_small by (unfold in_u32; lia). lia.
  - exists (k - id). split; [lia|]. rewrite u32_small by (unfold in_u32; lia). lia.
Qed.

(** The state after the routers of [r] have been visited. *)
Definition visited (r : route) (id nb : Z) (s s' : ic) : Prop :=
  s' = set_RouterPacketsCount (RouterPacketsCount s') (set_noc (noc s') s) ∧
  length (RouterPacketsCount s') = length (RouterPacketsCount s) ∧
  (∀ x y n, in_mesh s x y → RouterPacketsCount s !! Z.to_nat (x + y * mX s) = Some n →
     RouterPacketsCount s' !! Z.to_nat (x + y * mX s) =
     Some (if decide ((x, y) ∈ r.*1) then u64 (n + nb) else n)) ∧
  (∀ h, buffer_at h s' = if decide (h ∈ r) then enter_buffer id nb (buffer_at h s) else buffer_at h s).

Lemma visit_runs h id nb s :
  mesh_ok s → in_mesh s h.1.1 h.1.2 → ∃ s', visit id nb h s = (Ok tt, s') ∧ visited [h] id nb s s'.
Proof.
  destruct h as [[x y] p]. intros Hm Hin. destruct (router_index s x y Hm Hin) as [Hu Hr].
  assert (Hm2 := Hm). destruct Hm2 as (HX & HY & Hb & Hlen).
  destruct (lookup_lt_is_Some_2 (RouterPacketsCount s) (Z.to_nat (x + y * mX s))) as [n Hn]; [lia|].
  unfold visit, m_bind, m_get, m_modify, m_lift. cbn -[u64 u32 vec_get vec_set]. rewrite Hu.
  rewrite (vec_get_Some _ _ n) by (lia || done).
  unfold vec_set. rewrite decide_True by lia.
  eexists. split; [done|]. split_and!.
  - done.
  - cbn. by rewrite length_insert.
  - intros x' y' n' Hin' Hn'. cbn [RouterPacketsCount set_RouterPacketsCount].
    case_decide as Hx.
    + apply list_elem_of_singleton in Hx. injection Hx as -> ->.
      rewrite Hn in Hn'. injection Hn' as ->. by rewrite list_lookup_insert_eq by lia.
    + rewrite list_lookup_insert_ne; [done|]. intros Heq. apply Hx, list_elem_of_singleton.
      destruct (router_index s x' y' Hm Hin') as [_ Hr'].
      apply Z2Nat.inj in Heq; [|lia|lia].
      destruct (router_index_inj s x y x' y' Hin Hin' Heq) as [-> ->]. done.
  - intros h. unfold buffer_at. cbn [noc set_noc set_RouterPacketsCount]. case_decide as Hh.
    + apply list_elem_of_singleton in Hh as ->. by rewrite lookup_insert_eq.
    + rewrite lookup_insert_ne; [done|]. intros <-. by apply Hh, list_elem_of_singleton.
Qed.

Lemma visit_all r id nb s :
  mesh_ok s → NoDup r.*1 → Forall (fun h => in_mesh s h.1.1 h.1.2) r →
  ∃ s', m_forM r (visit id nb) s = (Ok tt, s') ∧ visited r id nb s s'.
Proof.
  revert s. induction r as [|h r IH]; intros s Hm Hnd Hin.
  - exists s. split; [done|]. split_and!; [by destruct s|done| |done]. intros x y n _ Hn. by rewrite Hn.
  - apply Forall_cons in Hin as [Hh Hin]. rewrite fmap_cons in Hnd. apply NoDup_cons in Hnd as [Hnot Hnd].
    destruct (visit_runs h id nb s Hm Hh) as (s1 & Hv & Hfr1 & Hlen1 & Hc1 & Hb1).
    assert (mX s1 = mX s) as HmX by (rewrite Hfr1; done).
    assert (mY s1 = mY s) as HmY by (rewrite Hfr1; done).
    assert (mesh_ok s1) as Hm1.
    { destruct Hm as (? & ? & ? & ?). unfold mesh_ok. rewrite HmX, HmY, Hlen1. done. }
    destruct (IH s1 Hm1 Hnd) as (s' & Hr & Hfr & Hlen & Hc & Hb).
    { eapply Forall_impl; [exact Hin|]. cbn. intros ?. unfold in_mesh. by rewrite HmX, HmY. }
    exists s'. split; [|split_and!].
    + cbn [m_forM]. unfold m_bind. by rewrite Hv.
    + rewrite Hfr, Hfr1. done.
    + by rewrite Hlen, Hlen1.
    + intros x y n Hxy Hn. specialize (Hc1 x y n Hxy Hn). rewrite <- HmX in Hc1 |- *.
      erewrite Hc; [|by unfold in_mesh; rewrite HmX, HmY|exact Hc1]. f_equal.
      destruct h as [q p]. cbn [fmap list_fmap fst] in *.
      repeat case_decide; set_solver.
    + intros h'. rewrite Hb, Hb1.
      assert (h ∉ r) by (intros Hx; apply Hnot, list_elem_of_fmap; eauto).
      repeat case_decide; set_solver.
Qed.

Lemma xy_in_mesh s src dst : in_mesh s (x_id src) (y_id src) → in_mesh s (x_id dst) (y_id dst) →
  Forall (fun h => in_mesh s h.1.1 h.1.2) (xy_route src dst).
Proof.
  intros Hs Hd. apply Forall_forall. intros h Hh%xy_in_box. unfold in_mesh in *. lia.
Qed.


Definition mesh_example : ic :=
  set_mesh_coord 3 2 (new_ic (mkIcConfig 2 1 1 8 64 true 0 0 1 true true 1 1 100 4 2 false)).


(** ** The check of the coordinates *)

(** The coordinate check of the registration functions is one too weak: a component
    in column [mX] of the last row is registered, and the first packet it sends indexes
    the router counters out of range. *)
Theorem registration_admits_column_mX cfg s id dst nbFlits flit :
  mesh_ok s → IcCoherent cfg = false → in_mesh s (x_id dst) (y_id dst) → mX s < 2 ^ 31 →
  let src := mkPos (mX s) (mY s - 1) in
  ∃ s', register_cpu_ctrl cfg id (mX s) (mY s - 1) s = (Ok tt, s') ∧
    (mCpuIDs s = [] → id ≠ NULL_IDX → get_noc_pos_by_id id s' = Ok src) ∧
    (ComputeRouteAndUpdateRouters src dst flit nbFlits s').1 = Err (UndefinedBehaviour "index out of range").
Proof.
  intros (HX & HY & Hb & Hlen) Hco Hd H31 src. unfold register_cpu_ctrl. rewrite Hco. cbn.
  unfold m_bind. cbn. rewrite !bool_decide_false by lia. cbn. eexists. split; [done|]. split.
  - intros Hnil Hid. unfold get_noc_pos_by_id. cbn. rewrite Hnil. cbn.
    by rewrite bool_decide_false, bool_decide_true by done.
  - unfold ComputeRouteAndUpdateRouters.
    assert (∃ p r, xy_route src dst = (mX s, mY s - 1, p) :: r) as (p & r & ->).
    { destruct (xy_linked src dst) as [_ Hh]. destruct (xy_route src dst) as [|[[x y] p] r]; [done|].
      cbn in Hh. injection Hh as -> ->. eauto. }
    cbn [m_forM]. unfold m_bind, visit, m_get, m_modify, m_lift, m_bind.
    cbn -[u32 u64 vec_get].
    replace (u32 (mX s + u32 ((mY s - 1) * mX s))) with (mX s * mY s).
    2:{ rewrite (u32_small ((mY s - 1) * mX s)) by (unfold in_u32; nia).
        rewrite u32_small by (unfold in_u32; nia). lia. }
    unfold vec_get at 1. rewrite decide_True by nia.
    by rewrite lookup_ge_None_2 by lia.
Qed.

Lemma registration_admits_column_mX_witness :
  ∃ s', register_cpu_ctrl (mkIcConfig 2 1 1 8 64 false 0 0 1 true true 1 1 100 4 2 false) 7 3 1 mesh_example = (Ok tt, s') ∧
    (ComputeRouteAndUpdateRouters (mkPos 3 1) (mkPos 0 0) 1 1 s').1 = Err (UndefinedBehaviour "index out of range").
Proof.
  destruct (registration_admits_column_mX (mkIcConfig 2 1 1 8 64 false 0 0 1 true true 1 1 100 4 2 false)
              mesh_example 7 (mkPos 0 0) 1 1) as (s' & Hr & _ & Hu).
  - vm_compute. by split_and!.
  - done.
  - unfold in_mesh. cbn. lia.
  - cbn. lia.
  - by exists s'.
Defined.
