(* ===== verification/CoherenceTransport.v ===== *)
(** * Where the coherence interconnect sends a transaction

    Theorems on [b_transport] of [CoherenceInterconnect.v]: requests from a home reach
    exactly the caches they name, requests from a cache reach the home that owns the
    address and are charged the distance to that home, and the indexing of interleaved
    memory controllers. *)

From S2P Require Import Prelude Tlm CoherenceInterconnect.

Section transport.
Context (cfg : ic_config) (target : socket_out → ic_trans → Z → Z) (QueueWaitingTime : Z → Z → Z).

(** ** Caches *)

Definition output_ok (o : id_struct) : Prop :=
  ∃ id p, i_id o = Some id ∧ i_position o = Some p ∧ 0 ≤ p < NUM_CACHE_OUT cfg.

Definition targeted (ids : list Z) (o : id_struct) : Prop :=
  match i_id o with Some i => i ∈ ids | None => False end.

#[local] Instance targeted_dec ids o : Decision (targeted ids o).
Proof. unfold targeted. destruct (i_id o); apply _. Defined.

Definition cache_delivery (t : ic_trans) (o : id_struct) : delivery :=
  mkDelivery (CacheSocket (default 0 (i_position o))) (g_address t) (g_length t).

(** The delay after a list of outputs has been called in turn. *)
Definition delay_through (t : ic_trans) (l : list id_struct) (delay : Z) : Z :=
  foldl (fun d o => target (CacheSocket (default 0 (i_position o))) t d) delay l.

Definition deliver (t : ic_trans) (l : list id_struct) (s : ic) : ic :=
  set_sent (sent s ++ (cache_delivery t <$> l)) s.

Lemma deliver_nil t s : deliver t [] s = s.
Proof. unfold deliver. cbn. rewrite app_nil_r. by destruct s. Qed.

Lemma deliver_app t l k s : deliver t k (deliver t l s) = deliver t (l ++ k) s.
Proof. unfold deliver. cbn. by rewrite fmap_app, app_assoc. Qed.

Lemma call_cache_ok o t delay s : output_ok o →
  call_cache cfg target o t delay s = (Ok (delay_through t [o] delay), deliver t [o] s).
Proof.
  intros (id & p & _ & Hp & Hr). unfold call_cache, deliver, delay_through, cache_delivery. cbn. rewrite Hp. cbn.
  unfold call. by rewrite bool_decide_true.
Qed.

Lemma call_if_target_ok o ids t delay s : output_ok o → NoDup ids →
  call_if_target cfg target o ids t delay s =
    let l := if decide (targeted ids o) then [o] else [] in
    (Ok (delay_through t l delay), deliver t l s).
Proof.
  intros Ho Hnd. assert (Ho2 := Ho). destruct Ho2 as (i & p & Hi & Hp & Hr). cbv zeta.
  revert delay s. induction ids as [|id ids IH]; intros delay s; cbn [call_if_target].
  - rewrite decide_False by (unfold targeted; rewrite Hi; apply not_elem_of_nil). by rewrite deliver_nil.
  - apply NoDup_cons in Hnd as [Hn Hnd]. rewrite Hi. unfold m_bind. case_bool_decide as Heq.
    + subst id. rewrite call_cache_ok, IH by done.
      rewrite decide_False by (unfold targeted; by rewrite Hi).
      rewrite decide_True by (unfold targeted; rewrite Hi; left). by rewrite deliver_nil.
    + cbn [m_ret]. rewrite IH by done.
      assert (targeted (id :: ids) o ↔ targeted ids o) as Ht by (unfold targeted; rewrite Hi; set_solver).
      destruct (decide (targeted ids o)), (decide (targeted (id :: ids) o)); tauto.
Qed.

Lemma multicast_ok l ids t delay s : Forall output_ok l → NoDup ids →
  multicast cfg target l ids t delay s =
    (Ok (delay_through t (filter (targeted ids) l) delay), deliver t (filter (targeted ids) l) s).
Proof.
  intros Hl Hnd. revert delay s. induction Hl as [|o l Ho Hl IH]; intros delay s.
  - cbn. by rewrite deliver_nil.
  - cbn [multicast]. unfold m_bind. rewrite call_if_target_ok by done. cbv beta iota zeta. rewrite IH, deliver_app.
    rewrite filter_cons. case_decide; done.
Qed.

Definition to_cache_command (c : CoherenceCommand) : bool :=
  match c with FwdGetS | FwdGetM | PutI | InvS | InvM | ReadBack => true | _ => false end.

(** A forward, an invalidation or a read-back of a coherent interconnect reaches
    exactly the caches whose identifiers it names, each of them once and in the order of
    the output table, and changes nothing else; a bus interconnect adds its latency to the
    forwards only. *)
Theorem upstream_delivery t c init toHome ids ts delay s :
  IcCoherent cfg = true → mIsMesh cfg = false → g_command t = TLM_IGNORE_COMMAND →
  to_cache_command c = true → ids ≠ [] → NoDup ids → Forall output_ok (CacheOutputs s) →
  let receivers := filter (targeted ids) (CacheOutputs s) in
  b_transport cfg target QueueWaitingTime t (Some (mkExt (Some c) toHome init ids)) (Some ts) delay s =
    (Ok (delay_through t receivers (if downstream_command c then delay + ACCESS_LATENCY cfg else delay)),
     deliver t receivers s).
Proof.
  intros Hco Hme Hg Hc Hne Hnd Hout. cbv zeta.
  assert (send_onwards cfg target t (mkExt (Some c) toHome init ids) = to_caches cfg target t (mkExt (Some c) toHome init ids)) as Hsend.
  { unfold send_onwards, is_ignore. rewrite Hco, bool_decide_true by done. by destruct c. }
  unfold b_transport, is_ignore. rewrite bool_decide_true by done.
  unfold m_bind, noc_delay. rewrite Hme. cbn [getCoherenceCommand e_command m_ret negb fst].
  rewrite Hsend. unfold to_caches, m_assert, sendTransactionToCache, m_bind, m_get. cbn [e_targets].
  rewrite bool_decide_false by done. destruct ids as [|i ids]; [done|].
  cbn [negb m_ret]. by apply multicast_ok.
Qed.

(** ** Homes *)

Definition to_home_command (c : CoherenceCommand) : bool :=
  match c with GetS | GetM | PutS | PutM | Evict => true | _ => false end.

(** The interleaved homes: one output, one position and one socket each. *)
Definition homes_ok (s : ic) : Prop :=
  mHomeIDs s ≠ [] ∧ length (HomeOutputs s) = length (mHomeIDs s) ∧
  NUM_HOME_OUT cfg = Z.of_nat (length (mHomeIDs s)) ∧ 0 < SLCInterleaveLength cfg.

Lemma home_index_range addr s : mHomeIDs s ≠ [] →
  0 ≤ home_index cfg addr s < Z.of_nat (length (mHomeIDs s)).
Proof.
  intros Hne. apply Z.mod_pos_bound. destruct (mHomeIDs s); [done|cbn; lia].
Qed.

Lemma find_home_position addr s : homes_ok s → in_ram addr s = true →
  ∃ b n pos, mHomeIDs s !! Z.to_nat (home_index cfg addr s) = Some (b, n, pos) ∧
    get_home_pos_by_address cfg addr s = Ok pos.
Proof.
  intros (Hne & _ & _ & Hslc) Hram.
  pose proof (home_index_range addr s Hne) as Hr.
  destruct (lookup_lt_is_Some_2 (mHomeIDs s) (Z.to_nat (home_index cfg addr s))) as [[[b n] pos] Hb]; [lia|].
  exists b, n, pos. split; [done|].
  unfold get_home_pos_by_address, get_home_pos_by_address_with_interleave.
  rewrite bool_decide_false by lia. rewrite Hram, bool_decide_false by done.
  by rewrite (vec_get_Some _ _ _ (proj1 Hr) Hb).
Qed.

Lemma home_socket t delay s : homes_ok s → in_ram (g_address t) s = true →
  let i := home_index cfg (g_address t) s in
  sendTransactionToHome cfg target t delay s =
    (Ok (target (HomeSocket i) t delay),
     set_sent (sent s ++ [mkDelivery (HomeSocket i) (g_address t) (g_length t)]) s).
Proof.
  intros (Hne & Hlen & Hnum & Hslc) Hram i.
  pose proof (home_index_range (g_address t) s Hne) as Hr. fold i in Hr.
  assert (call cfg target (HomeSocket i) t delay s =
    (Ok (target (HomeSocket i) t delay),
     set_sent (sent s ++ [mkDelivery (HomeSocket i) (g_address t) (g_length t)]) s)) as Hcall.
  { unfold call. by rewrite bool_decide_true by lia. }
  unfold sendTransactionToHome, m_bind at 1, m_get. case_bool_decide as H1.
  - rewrite <- Hcall. do 2 f_equal. rewrite Hlen in H1. rewrite H1 in Hr. lia.
  - rewrite bool_decide_false by lia. cbn [negb]. rewrite Hram, bool_decide_false by done. exact Hcall.
Qed.

(** With interleaved homes, a request of a cache is delivered once, to the home that
    owns the address, and the distance it is charged for is the distance to the mesh
    position of that same home; only the requests that wait for an answer are delayed. *)
Theorem home_request_routed t c init ids ts delay src s :
  IcCoherent cfg = true → mIsMesh cfg = true → mWithContention cfg = false →
  mNoc_stats_per_initiator_on cfg = false → 0 < FlitSize cfg →
  g_command t = TLM_IGNORE_COMMAND → to_home_command c = true →
  homes_ok s → in_ram (g_address t) s = true → get_noc_pos_by_id init s = Ok src →
  let i := home_index cfg (g_address t) s in
  ∃ base size pos, mHomeIDs s !! Z.to_nat i = Some (base, size, pos) ∧
    let latency := mRouterLatency cfg * distance src pos in
    b_transport cfg target QueueWaitingTime t (Some (mkExt (Some c) true init ids)) (Some ts) delay s =
      (Ok (target (HomeSocket i) t (if downstream_command c then delay + latency else delay)),
       set_sent (sent s ++ [mkDelivery (HomeSocket i) (g_address t) (g_length t)])
         (computeNoCPerformance (distance src pos) latency s)).
Proof.
  intros Hco Hme Hct Hst Hfl Hg Hc Hh Hram Hsrc i.
  destruct (find_home_position (g_address t) s Hh Hram) as (b & n & pos & Hpos & Hget).
  exists b, n, pos. split; [exact Hpos|]. cbv zeta.
  assert (∀ d s', homes_ok s' → in_ram (g_address t) s' = true →
    send_onwards cfg target t (mkExt (Some c) true init ids) d s' = sendTransactionToHome cfg target t d s') as Hsend.
  { intros d s' _ _. unfold send_onwards, is_ignore. rewrite Hco, bool_decide_true by done. by destruct c. }
  assert (flits_of cfg t (mkExt (Some c) true init ids) s =
    (Ok (if bool_decide (c = PutS) || bool_decide (c = PutM) then g_length t / FlitSize cfg else 1), s)) as Hf.
  { unfold flits_of. rewrite Hg. unfold m_bind. cbn. rewrite (bool_decide_false (FlitSize cfg = 0)) by lia.
    by destruct (bool_decide (c = PutS) || bool_decide (c = PutM)). }
  assert (id_mapped_command cfg c = false) as Hid by (unfold id_mapped_command; rewrite Hco; by destruct c).
  unfold b_transport, is_ignore. rewrite bool_decide_true by done.
  unfold m_bind, noc_delay. rewrite Hme, Hct, Hst.
  cbn [getCoherenceCommand e_command m_ret negb fst snd]. unfold m_bind. rewrite Hf.
  cbn [m_get e_toHome e_initiator e_targets]. rewrite Hid. unfold m_lift, computeNoCLatency. rewrite Hsrc.
  cbn [negb result_bind]. rewrite Hget. cbn [result_bind m_modify m_when m_ret].
  rewrite Hsend by done. rewrite home_socket by done. done.
Qed.

(** ** Interleaved memory controllers *)

(** With memory interleaving the controller index starts from the index of the first
    memory controller and is not reduced again: as soon as another component is registered
    before it, some address of the RAM indexes the table of positions out of range. *)
Theorem interleave_index_overruns t s :
  let n := Z.of_nat (length (mAddressIDs s)) in
  0 < MemoryInterleaveLength cfg → 0 < IndexFirstMemoryController s ≤ n → n < 2 ^ 31 →
  in_u64 (RamBaseAddr s) → RamLastAddr s < 2 ^ 64 →
  RamBaseAddr s + n * MemoryInterleaveLength cfg ≤ RamLastAddr s →
  g_address t = RamBaseAddr s + (n - 1) * MemoryInterleaveLength cfg →
  (GetDestinations cfg t false false [] s).1 = Err (UndefinedBehaviour "index out of range").
Proof.
  intros n Hml Hfirst Hn Hbase Hlast Hfit Haddr.
  assert (0 < n) by lia.
  unfold GetDestinations, m_bind, m_get, m_lift. cbn [negb].
  unfold get_noc_pos_by_address, get_noc_pos_by_address_with_interleave.
  rewrite bool_decide_false by lia. rewrite Haddr.
  rewrite !bool_decide_true by nia. cbn [andb].
  assert (mAddressIDs s ≠ []) as Hne by (intros Hnil; subst n; rewrite Hnil in *; cbn in *; lia).
  rewrite (bool_decide_false _ Hne).
  replace (RamBaseAddr s + (n - 1) * MemoryInterleaveLength cfg - RamBaseAddr s)
    with ((n - 1) * MemoryInterleaveLength cfg) by lia.
  rewrite Z.div_mul by lia. fold n. rewrite (Z.mod_small (n - 1) n) by lia.
  rewrite u64_small by (unfold in_u64; lia).
  unfold vec_get. rewrite decide_True by lia. by rewrite lookup_ge_None_2 by lia.
Qed.
End transport.

(** ** Concrete instances *)

Definition transport_cfg : ic_config := mkIcConfig 2 2 1 8 64 true 4096 4096 1 true false 1 1 100 4 2 false.
Definition bus_cfg : ic_config := mkIcConfig 2 2 1 8 64 true 4096 4096 1 false false 1 1 100 4 2 false.

Definition transport_state : ic :=
  set_CacheOutputs [mkId "l1a" (Some 5) (Some 0) (Some 0); mkId "l1b" (Some 6) (Some 1) (Some 1)]
  (set_HomeOutputs [mkIdAddr 7 0 4095 4096 0; mkIdAddr 8 4096 8191 4096 1]
  (set_mHomeIDs [(0, 4096, mkPos 0 0); (4096, 4096, mkPos 1 1)]
  (set_mAddressIDs [(1000000, 16, mkPos 0 0); (0, 8192, mkPos 1 0)]
  (set_IndexFirstMemoryController 1
  (set_mCpuIDs [(5, mkPos 0 1); (6, mkPos 1 0)]
  (set_RamBaseAddr 0 (set_RamLastAddr 8192 (set_mesh_coord 2 2 (new_ic transport_cfg))))))))).

Lemma upstream_delivery_witness :
  ∃ d, b_transport bus_cfg (fun _ _ d => d + 1) (fun _ _ => 0) (mkTrans TLM_IGNORE_COMMAND 64 64)
    (Some (mkExt (Some InvS) false 7 [6])) (Some 0) 0 transport_state =
    (Ok d, deliver (mkTrans TLM_IGNORE_COMMAND 64 64) [mkId "l1b" (Some 6) (Some 1) (Some 1)] transport_state).
Proof.
  eexists. apply (upstream_delivery bus_cfg (fun _ _ d => d + 1) (fun _ _ => 0)
    (mkTrans TLM_IGNORE_COMMAND 64 64) InvS 7 false [6] 0 0 transport_state).
  - reflexivity.
  - reflexivity.
  - reflexivity.
  - reflexivity.
  - discriminate.
  - apply NoDup_singleton.
  - repeat constructor; unfold output_ok; cbn; eexists _, _; (split; [reflexivity|split; [reflexivity|lia]]).
Defined.

Lemma home_request_routed_witness :
  b_transport transport_cfg (fun _ _ d => d) (fun _ _ => 0) (mkTrans TLM_IGNORE_COMMAND 4160 64)
    (Some (mkExt (Some GetM) true 5 [])) (Some 0) 0 transport_state =
  (Ok 2, set_sent [mkDelivery (HomeSocket 1) 4160 64] (computeNoCPerformance 2 2 transport_state)).
Proof.
  destruct (home_request_routed transport_cfg (fun _ _ d => d) (fun _ _ => 0)
    (mkTrans TLM_IGNORE_COMMAND 4160 64) GetM 5 [] 0 0 (mkPos 0 1) transport_state)
    as (b & n & pos & Hpos & H).
  - reflexivity.
  - reflexivity.
  - reflexivity.
  - reflexivity.
  - cbn. lia.
  - reflexivity.
  - reflexivity.
  - unfold homes_ok. cbn. split_and!; [done|done|lia|lia].
  - reflexivity.
  - reflexivity.
  - vm_compute in Hpos. injection Hpos as <- <- <-. rewrite H. vm_compute. reflexivity.
Defined.

Lemma interleave_index_overruns_witness :
  (GetDestinations transport_cfg (mkTrans TLM_READ_COMMAND 4096 64) false false [] transport_state).1 =
  Err (UndefinedBehaviour "index out of range").
Proof.
  apply (interleave_index_overruns transport_cfg (mkTrans TLM_READ_COMMAND 4096 64) transport_state);
    cbn; unfold in_u64; lia.
Defined.
