(* ===== verification/LocalMemory.v ===== *)
(** * Byte memories

    The memory a target allocates ([TargetIf::mLocalMem]) seen as bytes: its contents
    are whatever the allocation gave, and an access outside it is undefined.  Little-endian
    words are read and written through their bytes. *)

From S2P Require Import Prelude.

Record bytes := mkBytes { b_size : Z; b_at : Z → Z }.

Definition in_bounds (m : bytes) (a n : Z) : bool := bool_decide (0 ≤ a ∧ a + n ≤ b_size m).

Definition peek (m : bytes) (a n : Z) : list Z := b_at m <$> seqZ a n.

Definition poke (m : bytes) (a : Z) (l : list Z) : bytes :=
  mkBytes (b_size m) (fun x => if bool_decide (a ≤ x) then
                                 match l !! Z.to_nat (x - a) with Some b => b | None => b_at m x end
                               else b_at m x).

Definition load (m : bytes) (a n : Z) : result (list Z) :=
  if in_bounds m a n then Ok (peek m a n) else Err (UndefinedBehaviour "access outside the local memory").

Definition store (m : bytes) (a : Z) (l : list Z) : result bytes :=
  if in_bounds m a (Z.of_nat (length l)) then Ok (poke m a l)
  else Err (UndefinedBehaviour "access outside the local memory").

(** Little-endian values. *)
Fixpoint le_value (l : list Z) : Z :=
  match l with
  | [] => 0
  | b :: l => b + 256 * le_value l
  end.

Fixpoint le_bytes (n : nat) (v : Z) : list Z :=
  match n with
  | O => []
  | S n => u8 v :: le_bytes n (v / 256)
  end.

Definition is_byte (z : Z) : Prop := 0 ≤ z < 256.

Lemma u8_byte z : is_byte (u8 z).
Proof. exact (wrap_bound 8 z ltac:(lia)). Qed.

Lemma length_le_bytes n v : length (le_bytes n v) = n.
Proof. revert v. induction n as [|n IH]; intros v; [done|]. cbn. by rewrite IH. Qed.

Lemma le_bytes_byte n v : Forall is_byte (le_bytes n v).
Proof. revert v. induction n as [|n IH]; intros v; constructor; [apply u8_byte|apply IH]. Qed.

Lemma le_value_bytes n v : le_value (le_bytes n v) = v mod 256 ^ Z.of_nat n.
Proof.
  revert v. induction n as [|n IH]; intros v; [by rewrite Z.mod_1_r|].
  cbn [le_value le_bytes]. rewrite IH. unfold u8, wrap.
  rewrite Nat2Z.inj_succ, Z.pow_succ_r by lia. change (2 ^ 8) with 256.
  rewrite Z.rem_mul_r by lia. done.
Qed.

Lemma le_value_bound l : Forall is_byte l → 0 ≤ le_value l < 256 ^ Z.of_nat (length l).
Proof.
  induction 1 as [|b l Hb Hl IH]; [cbn; lia|]. cbn [le_value length]. unfold is_byte in *.
  rewrite Nat2Z.inj_succ, Z.pow_succ_r by lia. nia.
Qed.

Section peek_poke.
Implicit Types m : bytes.

Lemma length_peek m a n : length (peek m a n) = Z.to_nat n.
Proof. unfold peek. by rewrite length_fmap, length_seqZ. Qed.

Lemma peek_byte m a : peek m a 1 = [b_at m a].
Proof. done. Qed.

Lemma peek_ext m m' a n : (∀ x, a ≤ x < a + n → b_at m x = b_at m' x) → peek m a n = peek m' a n.
Proof.
  intros H. apply list_fmap_ext. intros i x Hx. apply H.
  apply list_elem_of_lookup_2, elem_of_seqZ in Hx. lia.
Qed.

Lemma poke_at m a l x : b_at (poke m a l) x =
  if decide (a ≤ x < a + Z.of_nat (length l)) then l !!! Z.to_nat (x - a) else b_at m x.
Proof.
  cbn. case_bool_decide; case_decide; try lia.
  - destruct (lookup_lt_is_Some_2 l (Z.to_nat (x - a))) as [b Hb]; [lia|].
    by rewrite Hb, (list_lookup_total_correct _ _ _ Hb).
  - by rewrite lookup_ge_None_2 by lia.
Qed.

Lemma poke_out m a l x : ~ (a ≤ x < a + Z.of_nat (length l)) → b_at (poke m a l) x = b_at m x.
Proof. intros H. rewrite poke_at. by case_decide. Qed.

(** What was written is read back. *)
Lemma peek_poke m a l : peek (poke m a l) a (Z.of_nat (length l)) = l.
Proof.
  apply list_eq_same_length with (length l); [done|by rewrite length_peek, Nat2Z.id|].
  intros i x y Hi Hx Hy. unfold peek in Hx. rewrite list_lookup_fmap in Hx.
  apply fmap_Some in Hx as (z & Hz & ->). apply lookup_seqZ in Hz as [-> Hlt].
  rewrite poke_at, decide_True by lia. replace (Z.to_nat (a + Z.of_nat i - a)) with i by lia.
  by apply list_lookup_total_correct.
Qed.

(** A disjoint range is not changed. *)
Lemma peek_poke_disjoint m a l b n :
  b + n ≤ a ∨ a + Z.of_nat (length l) ≤ b → peek (poke m a l) b n = peek m b n.
Proof. intros H. apply peek_ext. intros x Hx. apply poke_out. lia. Qed.

Lemma load_ok m a n : 0 ≤ a → a + n ≤ b_size m → load m a n = Ok (peek m a n).
Proof. intros. unfold load, in_bounds. by rewrite bool_decide_true. Qed.

Lemma store_ok m a l : 0 ≤ a → a + Z.of_nat (length l) ≤ b_size m → store m a l = Ok (poke m a l).
Proof. intros. unfold store, in_bounds. by rewrite bool_decide_true. Qed.
End peek_poke.
