(* ===== verification/TargetIf.v ===== *)
(** * TLM targets ([core/TargetIf.cpp], [core/LatencyIf.cpp], [components/memory/memory.cpp])

    [TargetIf] checks a transaction and hands it to the read and write callbacks that the
    derived class has registered; here the callbacks are a type class, [Target], against
    which the transport functions are written.  The [memory] component is an instance. *)

From S2P Require Import Prelude AddrSpace Tlm LocalMemory.

(** ** The interface between [TargetIf] and a target *)

(** [payload_t]; a pointer is [None] when null, and otherwise the buffer behind it. *)
Record payload := mkPayload {
  cmd : tlm_command;
  addr : Z;
  ptr : option (list Z);
  len : Z;
  byte_enable_ptr : bool;
  byte_enable_len : Z;
  source_cpu : option Z      (* the GicCpuExtension of the original payload *)
}.

(** The members of [TargetIf]. *)
Record target_if := mkTargetIf {
  t_space : AddrSpace;
  t_unit : Z;                (* sizeof (TYPE) *)
  mByteEnable : bool;
  mDmiEnable : bool;
  mReadCount : Z;
  mWriteCount : Z
}.

(** What comes back to the initiator: status, buffer, delay and the DMI hint. *)
Record reply := mkReply {
  r_status : tlm_response_status;
  r_ptr : option (list Z);
  r_delay : Z;
  r_dmi : bool
}.

Class Target (S : Type) := {
  local_mem : S → bytes;
  with_local_mem : bytes → S → S;
  read_callback : target_if → payload → Z → M S reply;
  write_callback : target_if → payload → Z → M S reply
}.

Record component (S : Type) := mkComponent { c_if : target_if; c_dev : S }.
Arguments mkComponent {S} c_if c_dev.
Arguments c_if {S} c.
Arguments c_dev {S} c.

Section target.
Context {S : Type} `{!Target S}.

Definition on_device {A} (m : M S A) : M (component S) A := fun c =>
  match m (c_dev c) with
  | (r, d) => (r, mkComponent (c_if c) d)
  end.

(** The status of a transaction that is rejected; nothing else is returned. *)
Definition rejected (p : payload) (delay : Z) (st : tlm_response_status) : reply :=
  mkReply st (ptr p) delay false.

(** [CoreFunction]. *)
Definition CoreFunction (p : payload) (delay : Z) : M (component S) reply :=
  c <- m_get ;;
  match cmd p with
  | TLM_WRITE_COMMAND =>
      r <- on_device (write_callback (c_if c) p delay) ;;
      m_modify (fun c => mkComponent
        (mkTargetIf (t_space (c_if c)) (t_unit (c_if c)) (mByteEnable (c_if c)) (mDmiEnable (c_if c))
           (mReadCount (c_if c)) (u64 (mWriteCount (c_if c) + len p / t_unit (c_if c)))) (c_dev c)) ;;;
      m_ret r
  | _ =>
      r <- on_device (read_callback (c_if c) p delay) ;;
      m_modify (fun c => mkComponent
        (mkTargetIf (t_space (c_if c)) (t_unit (c_if c)) (mByteEnable (c_if c)) (mDmiEnable (c_if c))
           (u64 (mReadCount (c_if c) + len p / t_unit (c_if c))) (mWriteCount (c_if c))) (c_dev c)) ;;;
      m_ret r
  end.

(** [b_transport]: the four tests, in the order of the source. *)
Definition b_transport (p : payload) (delay : Z) : M (component S) reply :=
  c <- m_get ;;
  let base := mBaseAddress (t_space (c_if c)) in
  size <- (if bool_decide (addr p < base) then m_ret 0 else m_lift (getSize (t_space (c_if c)))) ;;
  if bool_decide (addr p < base) || bool_decide (u64 (base + size) < u64 (addr p + len p))
  then m_ret (rejected p delay TLM_ADDRESS_ERROR_RESPONSE)
  else if bool_decide (size < len p) || bool_decide (len p = 0)
  then m_ret (rejected p delay TLM_BURST_ERROR_RESPONSE)
  else if negb (mByteEnable (c_if c)) && (byte_enable_ptr p || negb (bool_decide (byte_enable_len p = 0)))
  then m_ret (rejected p delay TLM_BYTE_ENABLE_ERROR_RESPONSE)
  else if bool_decide (cmd p = TLM_IGNORE_COMMAND)
  then m_ret (rejected p delay TLM_COMMAND_ERROR_RESPONSE)
  else CoreFunction p delay.

(** [get_direct_mem_ptr]: status, granted access, and the range when the range is given. *)
Definition get_direct_mem_ptr (p : payload) (c : component S) : tlm_response_status * bool * option (Z * Z) :=
  let sp := t_space (c_if c) in
  if bool_decide (addr p < mBaseAddress sp) || bool_decide (mEndAddress sp < u64 (addr p + len p - 1))
  then (TLM_ADDRESS_ERROR_RESPONSE, false, None)
  else (TLM_OK_RESPONSE, mDmiEnable (c_if c), Some (mBaseAddress sp, mEndAddress sp)).

(** The bytes of the buffer of a transaction; a null pointer or a short buffer is not
    accessible. *)
Definition buffer_bytes (p : payload) (n : Z) : result (list Z) :=
  match ptr p with
  | Some b => if bool_decide (n ≤ Z.of_nat (length b)) then Ok (take (Z.to_nat n) b)
              else Err (UndefinedBehaviour "access outside the data buffer")
  | None => Err (UndefinedBehaviour "null pointer")
  end.

(** [memcpy (payload.ptr, data, n)]. *)
Definition fill_buffer (p : payload) (data : list Z) : result (list Z) :=
  match ptr p with
  | Some b => if bool_decide (length data ≤ length b)%nat then Ok (data ++ drop (length data) b)
              else Err (UndefinedBehaviour "access outside the data buffer")
  | None => Err (UndefinedBehaviour "null pointer")
  end.

(** [transport_dbg], in active mode: status, number of bytes and buffer.  The address is
    divided by four and then indexes elements of [TYPE]. *)
Definition transport_dbg (p : payload) : M (component S) (tlm_response_status * Z * option (list Z)) :=
  c <- m_get ;;
  size <- m_lift (getSize (t_space (c_if c))) ;;
  let a := addr p / 4 in
  if bool_decide (size ≤ a) || bool_decide (size ≤ u64 (a + len p))
  then m_ret (TLM_ADDRESS_ERROR_RESPONSE, 0, ptr p)
  else
    match cmd p with
    | TLM_READ_COMMAND =>
        data <- m_lift (load (local_mem (c_dev c)) (a * t_unit (c_if c)) (len p)) ;;
        b <- m_lift (fill_buffer p data) ;;
        m_ret (TLM_OK_RESPONSE, len p, Some b)
    | TLM_WRITE_COMMAND =>
        data <- m_lift (buffer_bytes p (len p)) ;;
        m <- m_lift (store (local_mem (c_dev c)) (a * t_unit (c_if c)) data) ;;
        m_modify (fun c => mkComponent (c_if c) (with_local_mem m (c_dev c))) ;;;
        m_ret (TLM_OK_RESPONSE, len p, ptr p)
    | TLM_IGNORE_COMMAND => m_ret (TLM_OK_RESPONSE, len p, ptr p)
    end.
End target.

(** ** The memory component *)

Record memory := mkMemory {
  m_bytes : bytes;
  m_enable_latency : bool;
  mWordLengthInByte : Z;
  ReadLatency : Z;
  WriteLatency : Z
}.

(** The [do ... while] loop that charges one latency per word. *)
Fixpoint latency_loop (fuel : nat) (word latency total accessed delay : Z) : result Z :=
  match fuel with
  | O => Err OutOfFuel
  | Datatypes.S fuel =>
      let accessed := u64 (accessed + word) in
      let delay := delay + latency in
      if bool_decide (accessed < total) then latency_loop fuel word latency total accessed delay
      else Ok delay
  end.

Definition access_delay (mem : memory) (latency total delay : Z) : result Z :=
  if m_enable_latency mem then latency_loop (Datatypes.S (Z.to_nat total)) (mWordLengthInByte mem) latency total 0 delay
  else Ok delay.

(** The byte loops over [getLocalMem()[payload.addr - getBaseAddress() + i]]. *)
Fixpoint read_loop (m : bytes) (off : Z) (idx : list Z) : result (list Z) :=
  match idx with
  | [] => Ok []
  | i :: idx =>
      result_bind (load m (u64 (off + i)) 1) (fun b =>
      result_bind (read_loop m off idx) (fun l => Ok (b ++ l)))
  end.

Fixpoint write_loop (m : bytes) (off : Z) (data : list Z) : result bytes :=
  match data with
  | [] => Ok m
  | b :: data => result_bind (store m (u64 off) [b]) (fun m => write_loop m (off + 1) data)
  end.

Definition memory_read (t : target_if) (p : payload) (delay : Z) : M memory reply :=
  mem <- m_get ;;
  delay <- m_lift (access_delay mem (ReadLatency mem) (len p) delay) ;;
  match ptr p with
  | None => m_ret (mkReply TLM_OK_RESPONSE None delay true)
  | Some _ =>
      data <- m_lift (read_loop (m_bytes mem) (addr p - mBaseAddress (t_space t)) (seqZ 0 (len p))) ;;
      b <- m_lift (fill_buffer p data) ;;
      m_ret (mkReply TLM_OK_RESPONSE (Some b) delay true)
  end.

Definition memory_write (t : target_if) (p : payload) (delay : Z) : M memory reply :=
  mem <- m_get ;;
  delay <- m_lift (access_delay mem (WriteLatency mem) (len p) delay) ;;
  match ptr p with
  | None => m_ret (mkReply TLM_OK_RESPONSE None delay true)
  | Some _ =>
      data <- m_lift (buffer_bytes p (len p)) ;;
      m <- m_lift (write_loop (m_bytes mem) (addr p - mBaseAddress (t_space t)) data) ;;
      m_modify (fun mem => mkMemory m (m_enable_latency mem) (mWordLengthInByte mem) (ReadLatency mem) (WriteLatency mem)) ;;;
      m_ret (mkReply TLM_OK_RESPONSE (ptr p) delay true)
  end.

#[global] Instance memory_target : Target memory := {|
  local_mem := m_bytes;
  with_local_mem m mem := mkMemory m (m_enable_latency mem) (mWordLengthInByte mem) (ReadLatency mem) (WriteLatency mem);
  read_callback := memory_read;
  write_callback := memory_write
|}.

(** The constructor: [contents] is what the allocation of [getSize ()] bytes gave. *)
Definition new_memory (Size : Z) (contents : Z → Z) : result (component memory) :=
  result_bind (getSize (AddrSpace_of_size Size)) (fun n =>
  Ok (mkComponent (mkTargetIf (AddrSpace_of_size Size) 1 false true 0 0)
        (mkMemory (mkBytes n contents) false 1 0 0))).

(** ** The loops of the memory *)

Lemma latency_loop_total word latency total fuel acc delay :
  0 < word < 2 ^ 32 → 0 ≤ acc → acc < total < 2 ^ 32 → total - acc < Z.of_nat fuel →
  latency_loop fuel word latency total acc delay = Ok (delay + latency * ((total - acc + word - 1) / word)).
Proof.
  intros Hw. revert acc delay. induction fuel as [|fuel IH]; intros acc delay Ha Ht Hf; [lia|].
  cbn [latency_loop]. rewrite u64_small by (unfold in_u64; lia). case_bool_decide as Hlt.
  - rewrite IH by lia. f_equal.
    replace (total - acc + word - 1) with (1 * word + (total - (acc + word) + word - 1)) by lia.
    rewrite Z.div_add_l by lia. lia.
  - f_equal. replace ((total - acc + word - 1) / word) with 1; [lia|].
    apply Z.div_unique with (total - acc - 1); lia.
Qed.

Lemma read_loop_ok m off n k :
  0 ≤ off + k → off + k + Z.of_nat n ≤ b_size m → b_size m ≤ 2 ^ 64 →
  read_loop m off (seqZ k (Z.of_nat n)) = Ok (peek m (off + k) (Z.of_nat n)).
Proof.
  revert k. induction n as [|n IH]; intros k Hk Hn Hb; [done|].
  rewrite seqZ_cons by lia. replace (Z.pred (Z.of_nat (Datatypes.S n))) with (Z.of_nat n) by lia.
  cbn [read_loop]. rewrite u64_small by (unfold in_u64; lia).
  rewrite load_ok by lia. cbn [result_bind]. rewrite peek_byte.
  rewrite IH by lia. cbn [result_bind app]. unfold peek at 2. rewrite seqZ_cons by lia.
  cbn. do 2 f_equal. unfold peek. do 2 f_equal; lia.
Qed.

(** Two memories with the same bytes; the loops write byte by byte. *)
Definition same_bytes (m m' : bytes) : Prop := b_size m = b_size m' ∧ ∀ x, b_at m x = b_at m' x.

#[global] Instance same_bytes_equiv : Equivalence same_bytes.
Proof.
  split; unfold same_bytes; [done|intros m m' [? ?]; auto|].
  intros a b c [? H1] [? H2]. split; [congruence|]. intros x. by rewrite H1, H2.
Qed.

#[global] Instance peek_proper : Proper (same_bytes ==> eq ==> eq ==> eq) peek.
Proof. intros m m' [_ H] a ? <- n ? <-. by apply peek_ext. Qed.

Lemma write_loop_ok m off data :
  0 ≤ off → off + Z.of_nat (length data) ≤ b_size m → b_size m ≤ 2 ^ 64 →
  ∃ m', write_loop m off data = Ok m' ∧ same_bytes m' (poke m off data).
Proof.
  revert m off. induction data as [|b data IH]; intros m off Ho Hl Hb.
  - exists m. split; [done|]. split; [done|]. intros x. by rewrite poke_out by (cbn; lia).
  - cbn [write_loop]. cbn [length] in Hl. rewrite u64_small by (unfold in_u64; lia).
    rewrite store_ok by (cbn; lia). cbn [result_bind].
    destruct (IH (poke m off [b]) (off + 1)) as (m' & Hw & Hs & Hat); [lia|cbn; lia|done|].
    exists m'. split; [done|]. split; [done|]. intros x. rewrite Hat, !poke_at. cbn [length].
    repeat case_decide; try lia.
    + replace (Z.to_nat (x - off)) with (Datatypes.S (Z.to_nat (x - (off + 1)))) by lia. done.
    + assert (x = off) as -> by lia. by rewrite Z.sub_diag.
Qed.

(** ** Accesses to a memory *)

Definition memory_ok (c : component memory) : Prop :=
  let sp := t_space (c_if c) in
  0 ≤ mBaseAddress sp ≤ mEndAddress sp ∧ mEndAddress sp < max64 ∧
  b_size (m_bytes (c_dev c)) = mEndAddress sp - mBaseAddress sp + 1 ∧ t_unit (c_if c) = 1 ∧
  (m_enable_latency (c_dev c) = true → 0 < mWordLengthInByte (c_dev c) < 2 ^ 32).

(** A transaction on [n] bytes of the memory. *)
Definition in_memory (c : component memory) (p : payload) : Prop :=
  let sp := t_space (c_if c) in
  mBaseAddress sp ≤ addr p ∧ addr p + len p ≤ mEndAddress sp + 1 ∧ 0 < len p < 2 ^ 32 ∧
  byte_enable_ptr p = false ∧ byte_enable_len p = 0.

Definition charged (c : component memory) (latency : Z) (p : payload) : Z :=
  if m_enable_latency (c_dev c)
  then latency * ((len p + mWordLengthInByte (c_dev c) - 1) / mWordLengthInByte (c_dev c)) else 0.

Lemma memory_getSize c : memory_ok c →
  getSize (t_space (c_if c)) = Ok (mEndAddress (t_space (c_if c)) - mBaseAddress (t_space (c_if c)) + 1).
Proof.
  intros (Hb & He & _). unfold getSize, max64 in *. rewrite bool_decide_false by lia.
  by rewrite u64_small by (unfold in_u64; lia).
Qed.

Lemma accepted c p delay : memory_ok c → in_memory c p → cmd p ≠ TLM_IGNORE_COMMAND →
  b_transport p delay c = CoreFunction p delay c.
Proof.
  intros Hok (Ha & Hl & Hn & Hbp & Hbl) Hc. pose proof (memory_getSize c Hok) as Hsz.
  destruct Hok as (Hb & He & _). unfold max64 in *.
  unfold b_transport, m_bind, m_get. rewrite (bool_decide_false (addr p < _)) by lia.
  unfold m_lift. rewrite Hsz. cbn [orb].
  rewrite !u64_small by (unfold in_u64; lia).
  rewrite !bool_decide_false by lia. rewrite Hbp, Hbl. rewrite bool_decide_true by done.
  rewrite bool_decide_false by done. cbn. by rewrite andb_false_r.
Qed.

Lemma access_delay_ok c latency p delay : memory_ok c → 0 < len p < 2 ^ 32 →
  access_delay (c_dev c) latency (len p) delay = Ok (delay + charged c latency p).
Proof.
  intros Hok Hn. destruct Hok as (_ & _ & _ & _ & Hw).
  unfold access_delay, charged. destruct (m_enable_latency (c_dev c)); [|by rewrite Z.add_0_r].
  rewrite latency_loop_total by (specialize (Hw eq_refl); lia). by rewrite Z.sub_0_r.
Qed.

Lemma memory_read_ok c p delay buf : memory_ok c → in_memory c p →
  cmd p = TLM_READ_COMMAND → ptr p = Some buf → len p ≤ Z.of_nat (length buf) →
  ∃ c', b_transport p delay c =
    (Ok (mkReply TLM_OK_RESPONSE
           (Some (peek (m_bytes (c_dev c)) (addr p - mBaseAddress (t_space (c_if c))) (len p)
                  ++ drop (Z.to_nat (len p)) buf))
           (delay + charged c (ReadLatency (c_dev c)) p) true), c') ∧
    c_dev c' = c_dev c ∧ t_space (c_if c') = t_space (c_if c) ∧ t_unit (c_if c') = t_unit (c_if c).
Proof.
  intros Hok Hin Hc Hp Hlen. rewrite accepted by (done || by rewrite Hc).
  assert (Hok2 := Hok). assert (Hin2 := Hin).
  destruct Hok2 as (Hb & He & Hsz & Hu & _), Hin2 as (Ha & Hl & Hn & _). unfold max64 in *.
  unfold CoreFunction, m_bind, m_get. rewrite Hc. unfold on_device. cbn [read_callback memory_target].
  unfold memory_read, m_bind, m_get, m_lift. rewrite access_delay_ok by done. rewrite Hp.
  pose proof (read_loop_ok (m_bytes (c_dev c)) (addr p - mBaseAddress (t_space (c_if c))) (Z.to_nat (len p)) 0) as Hr.
  rewrite Z2Nat.id, Z.add_0_r in Hr by lia. rewrite Hr by lia.
  unfold fill_buffer. rewrite Hp, length_peek. rewrite bool_decide_true by lia.
  cbn. eexists. split; [reflexivity|]. done.
Qed.

Lemma memory_write_ok c p delay buf : memory_ok c → in_memory c p →
  cmd p = TLM_WRITE_COMMAND → ptr p = Some buf → len p ≤ Z.of_nat (length buf) →
  ∃ c', b_transport p delay c =
    (Ok (mkReply TLM_OK_RESPONSE (Some buf) (delay + charged c (WriteLatency (c_dev c)) p) true), c') ∧
    memory_ok c' ∧ t_space (c_if c') = t_space (c_if c) ∧ ReadLatency (c_dev c') = ReadLatency (c_dev c) ∧
    same_bytes (m_bytes (c_dev c'))
      (poke (m_bytes (c_dev c)) (addr p - mBaseAddress (t_space (c_if c))) (take (Z.to_nat (len p)) buf)).
Proof.
  intros Hok Hin Hc Hp Hlen. rewrite accepted by (done || by rewrite Hc).
  assert (Hok2 := Hok). assert (Hin2 := Hin).
  destruct Hok2 as (Hb & He & Hsz & Hu & Hw), Hin2 as (Ha & Hl & Hn & _). unfold max64 in *.
  unfold CoreFunction, m_bind, m_get. rewrite Hc. unfold on_device. cbn [write_callback memory_target].
  unfold memory_write, m_bind, m_get, m_lift. rewrite access_delay_ok by done.
  unfold buffer_bytes. rewrite Hp. rewrite bool_decide_true by lia.
  destruct (write_loop_ok (m_bytes (c_dev c)) (addr p - mBaseAddress (t_space (c_if c)))
              (take (Z.to_nat (len p)) buf)) as (m' & Hm & Hs).
  { lia. } { rewrite length_take. lia. } { lia. }
  rewrite Hm. cbn. eexists. split; [reflexivity|]. cbn. split_and!; [|done|done|done].
  unfold memory_ok, max64. cbn. destruct Hs as [Hs _]. rewrite Hs. cbn. done.
Qed.


Definition small_memory : component memory :=
  mkComponent (mkTargetIf (mkAddrSpace 4096 4111) 1 false true 0 0)
    (mkMemory (mkBytes 16 (fun x => x)) true 4 7 9).


(** ** The limits of the range check *)

Lemma read_loop_out m off idx : Exists (fun i => b_size m ≤ u64 (off + i)) idx →
  read_loop m off idx = Err (UndefinedBehaviour "access outside the local memory").
Proof.
  induction 1 as [i idx Hi|i idx _ IH]; cbn [read_loop].
  - unfold load, in_bounds. by rewrite bool_decide_false by lia.
  - rewrite IH. unfold load. by destruct (in_bounds m (u64 (off + i)) 1).
Qed.

(** The range test of [b_transport] adds without regard to wrap-around.  A read that
    starts inside or above a memory and whose end passes [2^64] is accepted, and the
    memory is then indexed out of range; and a target that ends at the last address
    rejects every access that ends before it. *)
Theorem range_check_wraps :
  (∀ c p delay buf, memory_ok c → cmd p = TLM_READ_COMMAND → ptr p = Some buf →
     byte_enable_ptr p = false → byte_enable_len p = 0 →
     mBaseAddress (t_space (c_if c)) ≤ addr p < 2 ^ 64 → 2 ^ 64 ≤ addr p + len p → len p < 2 ^ 32 →
     len p ≤ b_size (m_bytes (c_dev c)) →
     (b_transport p delay c).1 = Err (UndefinedBehaviour "access outside the local memory")) ∧
  (∀ (S : Type) (T : Target S) (c : component S) p delay,
     0 < mBaseAddress (t_space (c_if c)) → mEndAddress (t_space (c_if c)) = max64 →
     mBaseAddress (t_space (c_if c)) ≤ addr p → 0 < len p → addr p + len p < 2 ^ 64 →
     b_transport p delay c = (Ok (rejected p delay TLM_ADDRESS_ERROR_RESPONSE), c)).
Proof.
  split.
  - intros c p delay buf Hok Hc Hp Hbp Hbl Ha Hw Hn Hl.
    pose proof (memory_getSize c Hok) as Hsz. assert (Hok2 := Hok). destruct Hok2 as (Hb & He & Hs & _).
    unfold max64 in *.
    unfold b_transport, m_bind, m_get. rewrite (bool_decide_false (addr p < _)) by lia.
    unfold m_lift. rewrite Hsz. cbn [orb]. rewrite (u64_small (mBaseAddress _ + _)) by (unfold in_u64; lia).
    rewrite (bool_decide_false (_ < u64 (addr p + len p))).
    2:{ destruct (u64_spec (addr p + len p)) as (q & Hq & Hr). lia. }
    rewrite !bool_decide_false by lia. rewrite Hbp, Hbl, Hc. rewrite bool_decide_true by done.
    rewrite bool_decide_false by done. cbn [negb orb andb]. rewrite andb_false_r.
    unfold CoreFunction, m_bind, m_get. rewrite Hc. unfold on_device. cbn [read_callback memory_target].
    unfold memory_read, m_bind, m_get, m_lift. rewrite access_delay_ok by (done || lia). rewrite Hp.
    rewrite read_loop_out; [done|]. apply Exists_exists.
    exists (Z.max 0 (b_size (m_bytes (c_dev c)) - (addr p - mBaseAddress (t_space (c_if c))))).
    split; [apply elem_of_seqZ; lia|]. rewrite u64_small by (unfold in_u64; lia). lia.
  - intros S T c p delay Hb He Ha Hn Hl. unfold b_transport, m_bind, m_get.
    rewrite (bool_decide_false (addr p < _)) by lia. unfold m_lift, getSize. rewrite He. unfold max64.
    rewrite bool_decide_false by lia. cbn [orb].
    rewrite bool_decide_true; [done|].
    rewrite (u64_small (_ - _ + 1)) by (unfold in_u64; lia).
    replace (mBaseAddress (t_space (c_if c)) + (18446744073709551615 - mBaseAddress (t_space (c_if c)) + 1)) with (2 ^ 64) by lia.
    rewrite (u64_small (addr p + len p)) by (unfold in_u64; lia). change (u64 (2 ^ 64)) with 0. lia.
Qed.

Lemma range_check_wraps_witness :
  (b_transport (mkPayload TLM_READ_COMMAND 18446744073709551614 (Some [0; 0; 0]) 3 false 0 None) 0 small_memory).1 =
  Err (UndefinedBehaviour "access outside the local memory").
Proof.
  apply (proj1 range_check_wraps small_memory (mkPayload TLM_READ_COMMAND 18446744073709551614 (Some [0; 0; 0]) 3 false 0 None) 0 [0; 0; 0]).
  - unfold memory_ok, max64. cbn. split_and!; intros; lia.
  - done.
  - done.
  - done.
  - done.
  - cbn. lia.
  - cbn. lia.
  - cbn. lia.
  - cbn. lia.
Defined.
