(* ===== verification/ForwardSocket.v ===== *)
(** * Forwarding sockets ([core/vpsimModule/ForwardSimpleSocket.cpp])

    A [ForwardSimpleSocket] sits in front of a target.  It keeps the direct memory regions
    (DMI) that the target has granted and serves accesses from them without a transaction,
    unless the blocking parameter of its module asks for real transactions; when a parameter
    changes, a hook of the module drops the regions that must not be bypassed any more.

    What is bound to [mSocketOut], and the memory its DMI pointers point to, is the class
    [Downstream]; a [TargetIf] component is an instance.  The file shows that the socket is
    transparent: whatever the parameters are and however they change, accesses read and write
    the memory of the target as if the socket was not there. *)

From S2P Require Import Prelude AddrSpace ModuleParams ParamContainer ParameterSet Tlm LocalMemory TargetIf ModuleTree.

(** [tlm_dmi]: the range, the granted access and the pointer. *)
Record tlm_dmi := mkDmi {
  dmi_start : Z;
  dmi_end : Z;
  is_read_allowed : bool;
  is_write_allowed : bool;
  dmi_ptr : Z }.

(** What is bound to the socket: transactions, DMI requests, and the bytes behind a pointer. *)
Class Downstream (W : Type) := {
  out_transport : payload → Z → M W reply;
  out_dmi : payload → M W (option tlm_dmi);
  ptr_load : Z → Z → W → result (list Z);
  ptr_store : Z → list Z → W → result W }.

(** A target grants its whole memory, for reading and writing, when its DMI is enabled. *)
#[global] Instance target_Downstream {S} `{!Target S} : Downstream (component S) := {|
  out_transport := TargetIf.b_transport;
  out_dmi p := fun c =>
    (Ok (match get_direct_mem_ptr p c with
         | (_, true, Some (b, e)) => Some (mkDmi b e true true 0)
         | _ => None
         end), c);
  ptr_load a n c := load (local_mem (c_dev c)) a n;
  ptr_store a data c := let* m := store (local_mem (c_dev c)) a data in
    Ok (mkComponent (c_if c) (with_local_mem m (c_dev c))) |}.

Section socket.
Context {rate : Type} {W : Type} `{!Downstream W}.
(** The default of the blocking parameter, a static member of its class. *)
Context (dflt : BlockingTLMEnabled).

(** The socket; its module is the argument [m] of the operations below. *)
Record ForwardSimpleSocket := mkSocket { mDmiData : list tlm_dmi; mPortNum : Z }.

Definition new_socket (portNum : Z) : ForwardSimpleSocket := mkSocket [] portNum.

Abbreviation state := (ForwardSimpleSocket * W)%type (only parsing).

Definition on_out {A} (c : M W A) : M state A := fun '(s, w) =>
  let '(r, w') := c w in (r, (s, w')).
Definition set_dmi (l : list tlm_dmi) : M state unit :=
  m_modify (fun '(s, w) => (mkSocket l (mPortNum s), w)).

(** The test of the DMI loop. *)
Definition serves (p : payload) (d : tlm_dmi) : bool :=
  bool_decide (dmi_start d ≤ addr p) && bool_decide (u64 (addr p + len p - 1) <= dmi_end d)
  && (match cmd p with
      | TLM_READ_COMMAND => is_read_allowed d
      | TLM_WRITE_COMMAND => is_write_allowed d
      | TLM_IGNORE_COMMAND => false
      end).

(** An access served from a region; a null data pointer transfers nothing. *)
Definition direct_access (p : payload) (delay : Z) (d : tlm_dmi) : M state reply :=
  match ptr p with
  | None => m_ret (mkReply TLM_OK_RESPONSE None delay false)
  | Some _ =>
      let a := dmi_ptr d + u64 (addr p - dmi_start d) in
      match cmd p with
      | TLM_READ_COMMAND =>
          w <- m_gets snd ;;
          data <- m_lift (ptr_load a (len p) w) ;;
          b <- m_lift (fill_buffer p data) ;;
          m_ret (mkReply TLM_OK_RESPONSE (Some b) delay false)
      | _ =>
          data <- m_lift (buffer_bytes p (len p)) ;;
          w <- m_gets snd ;;
          w' <- m_lift (ptr_store a data w) ;;
          m_modify (fun st => (st.1, w')) ;;;
          m_ret (mkReply TLM_OK_RESPONSE (ptr p) delay false)
      end
  end.

(** [get_direct_mem_ptr]: refused when blocking is required anywhere in the range. *)
Definition socket_dmi (m : VpsimModule rate) (p : payload) : M state (option tlm_dmi) :=
  s <- m_gets fst ;;
  b <- m_lift (getBlockingTLMEnabled_space dflt m (mPortNum s)
                 (mkAddrSpace (addr p) (u64 (addr p + len p - 1)))) ;;
  if bt_to_bool b then m_ret None else on_out (out_dmi p).

Definition socket_transport (m : VpsimModule rate) (p : payload) (delay : Z) : M state reply :=
  s <- m_gets fst ;;
  b <- m_lift (getBlockingTLMEnabled dflt m (mPortNum s) (addr p)) ;;
  let blockingTLM := bt_to_bool b in
  match (if blockingTLM then None else List.find (serves p) (mDmiData s)) with
  | Some d => direct_access p delay d
  | None =>
      r <- on_out (out_transport p delay) ;;
      m_when (r_dmi r && negb blockingTLM)
        (o <- socket_dmi m p ;;
         match o with
         | Some d => s <- m_gets fst ;; set_dmi (mDmiData s ++ [d])
         | None => m_ret tt
         end) ;;;
      m_ret (mkReply (r_status r) (r_ptr r) (r_delay r) (r_dmi r && negb blockingTLM))
  end.

(** [invalidate_direct_mem_ptr]; the call is passed on through [mSocketIn]. *)
Definition meets (start end_ : Z) (d : tlm_dmi) : bool :=
  bool_decide (dmi_start d ≤ end_) && bool_decide (start <= dmi_end d).

Definition invalidate (start end_ : Z) : M state unit :=
  s <- m_gets fst ;;
  set_dmi (List.filter (fun d => negb (meets start end_ d)) (mDmiData s)).

(** The hook registered with the module: first the regions to drop, then the calls. *)
Fixpoint to_invalidate (m : VpsimModule rate) (port : Z) (l : list tlm_dmi) : result (list AddrSpace) :=
  match l with
  | [] => Ok []
  | d :: l' =>
      let* b := (if is_write_allowed d || is_read_allowed d
                 then getBlockingTLMEnabled_space dflt m port (mkAddrSpace (dmi_start d) (dmi_end d))
                 else Ok BT_DISABLED) in
      let* r := to_invalidate m port l' in
      Ok (if bt_to_bool b then mkAddrSpace (dmi_start d) (dmi_end d) :: r else r)
  end.

Definition update_hook (m : VpsimModule rate) : M state unit :=
  s <- m_gets fst ;;
  l <- m_lift (to_invalidate m (mPortNum s) (mDmiData s)) ;;
  m_forM l (fun a => invalidate (mBaseAddress a) (mEndAddress a)).
End socket.

Arguments ForwardSimpleSocket : clear implicits.

(** ** One access to a memory through the socket *)

Section transparent.
Context {rate : Type} (dflt : BlockingTLMEnabled).
Implicit Types (m : VpsimModule rate) (s : ForwardSimpleSocket) (c : component memory) (p : payload).

(** The regions the socket holds are those a memory grants. *)
Definition granted c (d : tlm_dmi) : Prop :=
  d = mkDmi (mBaseAddress (t_space (c_if c))) (mEndAddress (t_space (c_if c))) true true 0.
Definition socket_ok s c : Prop := memory_ok c ∧ Forall (granted c) (mDmiData s).

(** The queries of the blocking parameter return (a query may be undefined, see
    [valForAddrSpace_defects]). *)
Definition queries_return m (port : Z) : Prop :=
  (∀ a, is_ok (getBlockingTLMEnabled dflt m port a) = true)
  ∧ ∀ a, is_ok (getBlockingTLMEnabled_space dflt m port a) = true.

Lemma find_granted c s p d : socket_ok s c → List.find (serves p) (mDmiData s) = Some d → granted c d.
Proof.
  intros [_ Hs] [Hin _]%find_some. rewrite Forall_forall in Hs. apply Hs. by apply list_elem_of_In.
Qed.

(** What the socket keeps of the target: the space, the latencies and, up to [Q], the bytes. *)
Definition kept (Q : bytes → Prop) s c (st : ForwardSimpleSocket * component memory) : Prop :=
  socket_ok st.1 st.2 ∧ mPortNum st.1 = mPortNum s ∧ t_space (c_if st.2) = t_space (c_if c)
  ∧ Q (m_bytes (c_dev st.2)).

Lemma socket_dmi_ok m s c p : socket_ok s c → queries_return m (mPortNum s) →
  ∃ o, socket_dmi dflt m p (s, c) = (Ok o, (s, c)) ∧ ∀ d, o = Some d → granted c d.
Proof.
  intros Hs [_ Hq]. unfold socket_dmi. m_exec. cbn [fst].
  specialize (Hq (mkAddrSpace (addr p) (u64 (addr p + len p - 1)))).
  destruct (getBlockingTLMEnabled_space dflt m (mPortNum s) _) as [b|]; [|done]. m_exec.
  destruct (bt_to_bool b); [by exists None|]. unfold on_out. eexists. split; [reflexivity|].
  intros d. unfold get_direct_mem_ptr. destruct (_ || _); [done|]. destruct (mDmiEnable (c_if c)); [|done].
  by intros [= <-].
Qed.

(** A transaction that reaches the target: the socket may learn a region. *)
Lemma socket_forward m s c p delay r c' b : socket_ok s c → queries_return m (mPortNum s) →
  TargetIf.b_transport p delay c = (Ok r, c') → memory_ok c' → t_space (c_if c') = t_space (c_if c) →
  getBlockingTLMEnabled dflt m (mPortNum s) (addr p) = Ok b →
  (bt_to_bool b = false → List.find (serves p) (mDmiData s) = None) →
  ∃ r' s', socket_transport dflt m p delay (s, c) = (Ok r', (s', c')) ∧ r_status r' = r_status r
    ∧ r_ptr r' = r_ptr r ∧ socket_ok s' c' ∧ mPortNum s' = mPortNum s.
Proof.
  intros [Hok Hs] Hq Hr Hok' Hsp Hb Hfind.
  assert (socket_ok s c') as Hs'.
  { split; [done|]. eapply Forall_impl; [done|]. intros d. unfold granted. by rewrite Hsp. }
  unfold socket_transport. m_exec. cbn [fst]. rewrite Hb. m_exec.
  assert ((if bt_to_bool b then None else List.find (serves p) (mDmiData s)) = None) as ->.
  { destruct (bt_to_bool b); [done|by apply Hfind]. }
  erewrite m_bind_ok by (unfold on_out; cbn [out_transport target_Downstream]; by rewrite Hr). cbv beta.
  destruct (socket_dmi_ok m s c' p Hs' Hq) as (o & Eo & Ho).
  destruct (r_dmi r && negb (bt_to_bool b)); unfold m_when.
  - destruct o as [d|].
    + erewrite m_bind_ok; [|rewrite (m_bind_ok _ _ _ _ _ Eo); reflexivity].
      eexists _, _. split; [reflexivity|]. split_and!; [done|done| |done]. split; [done|]. simpl.
      apply Forall_app. split; [apply Hs'|]. constructor; [|done]. by apply Ho.
    + erewrite m_bind_ok; [|rewrite (m_bind_ok _ _ _ _ _ Eo); reflexivity].
      eexists _, s. split; [reflexivity|]. done.
  - m_exec. eexists _, s. split; [reflexivity|]. done.
Qed.

Lemma socket_read_ok m s c p delay buf : socket_ok s c → queries_return m (mPortNum s) → in_memory c p →
  cmd p = TLM_READ_COMMAND → ptr p = Some buf → len p ≤ Z.of_nat (length buf) →
  ∃ r st, socket_transport dflt m p delay (s, c) = (Ok r, st) ∧ r_status r = TLM_OK_RESPONSE
    ∧ r_ptr r = Some (peek (m_bytes (c_dev c)) (addr p - mBaseAddress (t_space (c_if c))) (len p)
                      ++ drop (Z.to_nat (len p)) buf)
    ∧ kept (same_bytes (m_bytes (c_dev c))) s c st.
Proof.
  intros Hs Hq Hin Hc Hp Hlen. assert (Hok := proj1 Hs).
  destruct (memory_read_ok c p delay buf Hok Hin Hc Hp Hlen) as (c' & Hr & Hdev & Hsp & Hu).
  assert (memory_ok c') as Hok' by (unfold memory_ok; rewrite Hdev, Hsp, Hu; done).
  destruct (getBlockingTLMEnabled dflt m (mPortNum s) (addr p)) as [b|] eqn:Hb;
    [|by destruct Hq as [Hq _]; specialize (Hq (addr p)); rewrite Hb in Hq].
  destruct (if bt_to_bool b then None else List.find (serves p) (mDmiData s)) as [d|] eqn:Hf.
  - destruct (bt_to_bool b) eqn:Hbb; [done|]. pose proof (find_granted c s p d Hs Hf) as ->.
    destruct Hok as (Hbase & Hend & Hsz & _), Hin as (Ha & Hl & Hn & _). unfold max64 in *.
    unfold socket_transport. m_exec. cbn [fst]. rewrite Hb. m_exec. rewrite Hbb, Hf.
    unfold direct_access. rewrite Hp, Hc. m_exec. cbn [snd dmi_ptr dmi_start].
    rewrite u64_small by (unfold in_u64; lia).
    erewrite m_bind_ok; [|unfold m_lift; cbn [ptr_load target_Downstream local_mem memory_target];
      by rewrite load_ok by lia]. cbv beta.
    erewrite m_bind_ok; [|unfold m_lift, fill_buffer; rewrite Hp, length_peek;
      rewrite bool_decide_true by lia; reflexivity]. cbv beta.
    eexists _, _. split; [reflexivity|]. split_and!; [done|done|]. split_and!; done.
  - destruct (socket_forward m s c p delay _ c' b Hs Hq Hr Hok' Hsp Hb) as (r' & s' & E & Est & Ept & Hs' & Hpn).
    { intros Hbb. by rewrite Hbb in Hf. }
    exists r', (s', c'). split_and!; [done|by rewrite Est|by rewrite Ept|]. split_and!; [done..|].
    simpl. by rewrite Hdev.
Qed.

Lemma socket_write_ok m s c p delay buf : socket_ok s c → queries_return m (mPortNum s) → in_memory c p →
  cmd p = TLM_WRITE_COMMAND → ptr p = Some buf → len p ≤ Z.of_nat (length buf) →
  ∃ r st, socket_transport dflt m p delay (s, c) = (Ok r, st) ∧ r_status r = TLM_OK_RESPONSE
    ∧ kept (same_bytes (poke (m_bytes (c_dev c)) (addr p - mBaseAddress (t_space (c_if c)))
                          (take (Z.to_nat (len p)) buf))) s c st.
Proof.
  intros Hs Hq Hin Hc Hp Hlen. assert (Hok := proj1 Hs).
  destruct (memory_write_ok c p delay buf Hok Hin Hc Hp Hlen) as (c' & Hr & Hok' & Hsp & _ & Hbytes).
  destruct (getBlockingTLMEnabled dflt m (mPortNum s) (addr p)) as [b|] eqn:Hb;
    [|by destruct Hq as [Hq _]; specialize (Hq (addr p)); rewrite Hb in Hq].
  destruct (if bt_to_bool b then None else List.find (serves p) (mDmiData s)) as [d|] eqn:Hf.
  - destruct (bt_to_bool b) eqn:Hbb; [done|]. pose proof (find_granted c s p d Hs Hf) as ->.
    assert (Hok2 := Hok). destruct Hok2 as (Hbase & Hend & Hsz & Hu & Hw), Hin as (Ha & Hl & Hn & _). unfold max64 in *.
    unfold socket_transport. m_exec. cbn [fst]. rewrite Hb. m_exec. rewrite Hbb, Hf.
    unfold direct_access. rewrite Hp, Hc.
    erewrite m_bind_ok; [|unfold m_lift, buffer_bytes; rewrite Hp, bool_decide_true by lia; reflexivity].
    m_exec. cbn [snd dmi_ptr dmi_start]. rewrite u64_small by (unfold in_u64; lia).
    erewrite m_bind_ok; [|unfold m_lift; cbn [ptr_store target_Downstream local_mem memory_target];
      rewrite store_ok by (rewrite ?length_take; lia); reflexivity].
    eexists _, _. split; [reflexivity|]. split; [done|]. split_and!; [|done..]. split.
    + unfold memory_ok, max64. cbn. split_and!; try done; lia.
    + cbn. apply Hs.
  - destruct (socket_forward m s c p delay _ c' b Hs Hq Hr Hok' Hsp Hb) as (r' & s' & E & Est & Ept & Hs' & Hpn).
    { intros Hbb. by rewrite Hbb in Hf. }
    exists r', (s', c'). split_and!; [done|by rewrite Est|]. split_and!; [done..|]. by symmetry.
Qed.

(** ** Sequences of operations *)

(** The accesses, the hook of a parameter change and an invalidation from the target. *)
Inductive socket_op := SRead (a n : Z) | SWrite (a : Z) (data : list Z) | SHook | SInvalidate (start end_ : Z).

Definition access (o : socket_op) : option payload :=
  match o with
  | SRead a n => Some (mkPayload TLM_READ_COMMAND a (Some (replicate (Z.to_nat n) 0)) n false 0 None)
  | SWrite a data =>
      Some (mkPayload TLM_WRITE_COMMAND a (Some data) (Z.of_nat (length data)) false 0 None)
  | _ => None
  end.

(** One operation while the module is in state [m]; a read gives its data. *)
Definition run_op m (o : socket_op) : M (ForwardSimpleSocket * component memory) (option (list Z)) :=
  match o, access o with
  | SRead _ _, Some p => r <- socket_transport dflt m p 0 ;; m_ret (r_ptr r)
  | SWrite _ _, Some p => socket_transport dflt m p 0 ;;; m_ret None
  | SInvalidate b e, _ => invalidate b e ;;; m_ret None
  | _, _ => update_hook dflt m ;;; m_ret None
  end.

Fixpoint run_ops (l : list (VpsimModule rate * socket_op)) :
    M (ForwardSimpleSocket * component memory) (list (option (list Z))) :=
  match l with
  | [] => m_ret []
  | (m, o) :: l' => x <- run_op m o ;; xs <- run_ops l' ;; m_ret (x :: xs)
  end.

(** The same accesses to the bare bytes of a memory that starts at [base]. *)
Definition ref_op (base : Z) (o : socket_op) (b : bytes) : option (list Z) * bytes :=
  match o with
  | SRead a n => (Some (peek b (a - base) n), b)
  | SWrite a data => (None, poke b (a - base) data)
  | _ => (None, b)
  end.

Fixpoint ref_ops (base : Z) (l : list socket_op) (b : bytes) : list (option (list Z)) * bytes :=
  match l with
  | [] => ([], b)
  | o :: l' => let '(x, b1) := ref_op base o b in let '(xs, b2) := ref_ops base l' b1 in (x :: xs, b2)
  end.

Lemma poke_same b b' a l : same_bytes b b' → same_bytes (poke b a l) (poke b' a l).
Proof. intros [H1 H2]. split; [done|]. intros x. by rewrite !poke_at, H2. Qed.

Lemma ref_ops_same base l b b' : same_bytes b b' →
  (ref_ops base l b).1 = (ref_ops base l b').1 ∧ same_bytes (ref_ops base l b).2 (ref_ops base l b').2.
Proof.
  revert b b'. induction l as [|o l IH]; intros b b' Hb; [done|]. simpl.
  assert ((ref_op base o b).1 = (ref_op base o b').1 ∧ same_bytes (ref_op base o b).2 (ref_op base o b').2) as [H1 H2].
  { destruct o as [a n|a data| |]; simpl; split; try done; [f_equal; apply peek_ext; intros x _; apply Hb|by apply poke_same]. }
  destruct (ref_op base o b) as [x b1], (ref_op base o b') as [x' b1']. simpl in *. subst x'.
  destruct (IH b1 b1' H2) as [E1 E2]. destruct (ref_ops base l b1), (ref_ops base l b1'). simpl in *.
  by rewrite E1.
Qed.

Lemma invalidate_ok b e s c : socket_ok s c →
  ∃ s', invalidate b e (s, c) = (Ok tt, (s', c)) ∧ socket_ok s' c ∧ mPortNum s' = mPortNum s
    ∧ ∀ d, d ∈ mDmiData s' ↔ d ∈ mDmiData s ∧ meets b e d = false.
Proof.
  intros [Hok Hs]. unfold invalidate. m_exec. eexists. split; [reflexivity|]. split_and!; [|done|].
  - split; [done|]. simpl. rewrite Forall_forall in Hs |- *. intros d Hd. apply Hs.
    rewrite list_elem_of_In, filter_In in Hd. apply list_elem_of_In, Hd.
  - intros d. simpl. rewrite !list_elem_of_In, filter_In, negb_true_iff. done.
Qed.

Lemma to_invalidate_ok m port l : queries_return m port →
  ∃ r, to_invalidate dflt m port l = Ok r
    ∧ ∀ d, d ∈ l → (is_write_allowed d || is_read_allowed d = true) →
        getBlockingTLMEnabled_space dflt m port (mkAddrSpace (dmi_start d) (dmi_end d)) = Ok BT_ENABLED →
        mkAddrSpace (dmi_start d) (dmi_end d) ∈ r.
Proof.
  intros [_ Hq]. induction l as [|d l (r & E & IH)]; simpl.
  { exists []. split; [done|]. intros d Hd. by apply elem_of_nil in Hd. }
  rewrite E. specialize (Hq (mkAddrSpace (dmi_start d) (dmi_end d))).
  destruct (getBlockingTLMEnabled_space dflt m port (mkAddrSpace (dmi_start d) (dmi_end d))) as [b|] eqn:Eb; [|done].
  destruct (is_write_allowed d || is_read_allowed d) eqn:Hrw; simpl.
  - eexists. split; [reflexivity|]. intros d' [->|Hd]%elem_of_cons Hrw' Eb'.
    + rewrite Eb in Eb'. injection Eb' as ->. left.
    + destruct (bt_to_bool b); [right|]; by apply IH.
  - exists r. split; [done|]. intros d' [->|Hd]%elem_of_cons Hrw' Eb'; [congruence|by apply IH].
Qed.

Lemma invalidate_all_ok l s c : socket_ok s c →
  ∃ s', m_forM l (fun a => invalidate (mBaseAddress a) (mEndAddress a)) (s, c) = (Ok tt, (s', c))
    ∧ socket_ok s' c ∧ mPortNum s' = mPortNum s
    ∧ ∀ d, d ∈ mDmiData s' ↔ d ∈ mDmiData s ∧ ∀ a, a ∈ l → meets (mBaseAddress a) (mEndAddress a) d = false.
Proof.
  revert s. induction l as [|a l IH]; intros s Hs.
  { exists s. split_and!; [done..|]. intros d. split; [|by intros []]. intros Hd. split; [done|].
    intros a Ha. by apply elem_of_nil in Ha. }
  destruct (invalidate_ok (mBaseAddress a) (mEndAddress a) s c Hs) as (s1 & E1 & Hs1 & Hp1 & Hd1).
  destruct (IH s1 Hs1) as (s2 & E2 & Hs2 & Hp2 & Hd2). exists s2. cbn [m_forM]. rewrite (m_bind_ok _ _ _ _ _ E1).
  split_and!; [done|done|congruence|]. intros d. rewrite Hd2, Hd1. split.
  - intros [[Hd Ha] Hl]. split; [done|]. intros x [->|Hx]%elem_of_cons; [done|by apply Hl].
  - intros [Hd Hl]. split_and!; [done|apply Hl; left|]. intros x Hx. apply Hl. by right.
Qed.

Lemma hook_ok m s c : socket_ok s c → queries_return m (mPortNum s) →
  ∃ s', update_hook dflt m (s, c) = (Ok tt, (s', c)) ∧ socket_ok s' c ∧ mPortNum s' = mPortNum s
    ∧ (∀ d, d ∈ mDmiData s' → d ∈ mDmiData s)
    ∧ ∀ d, d ∈ mDmiData s' → dmi_start d ≤ dmi_end d → is_write_allowed d || is_read_allowed d = true →
        getBlockingTLMEnabled_space dflt m (mPortNum s) (mkAddrSpace (dmi_start d) (dmi_end d)) ≠ Ok BT_ENABLED.
Proof.
  intros Hs Hq. destruct (to_invalidate_ok m (mPortNum s) (mDmiData s) Hq) as (l & El & Hl).
  destruct (invalidate_all_ok l s c Hs) as (s' & E & Hs' & Hp & Hd). exists s'.
  unfold update_hook. m_exec. cbn [fst]. rewrite El. m_exec. split_and!; [done..| |].
  - intros d Hd'. by apply Hd.
  - intros d Hd' Hle Hrw Hb. apply Hd in Hd' as [Hin Hn]. specialize (Hn _ (Hl d Hin Hrw Hb)).
    unfold meets in Hn. simpl in Hn. rewrite !bool_decide_true in Hn by lia. done.
Qed.

(** An operation inside the memory, in a state of the module whose queries return. *)
Definition op_ok c port (mo : VpsimModule rate * socket_op) : Prop :=
  queries_return mo.1 port ∧ match access mo.2 with Some p => in_memory c p | None => True end.

Lemma run_op_ok m o s c : socket_ok s c → op_ok c (mPortNum s) (m, o) →
  let base := mBaseAddress (t_space (c_if c)) in
  ∃ st, run_op m o (s, c) = (Ok (ref_op base o (m_bytes (c_dev c))).1, st)
    ∧ kept (same_bytes (ref_op base o (m_bytes (c_dev c))).2) s c st.
Proof.
  intros Hs [Hq Hin]. destruct o as [a n|a data| |b e]; simpl in *.
  - destruct (socket_read_ok m s c _ 0 (replicate (Z.to_nat n) 0) Hs Hq Hin) as (r & st & E & _ & Ep & Hk);
      [done..|simpl; rewrite length_replicate; lia|]. unfold run_op. simpl. exists st. m_exec_by E.
    rewrite Ep. simpl. rewrite drop_ge by (rewrite length_replicate; lia). rewrite app_nil_r. done.
  - destruct (socket_write_ok m s c _ 0 data Hs Hq Hin) as (r & st & E & _ & Hk); [done..|].
    unfold run_op. simpl. exists st. m_exec_by E. simpl in Hk. by rewrite take_ge in Hk by lia.
  - destruct (hook_ok m s c Hs Hq) as (s' & E & Hs' & Hp & _). unfold run_op. simpl. exists (s', c).
    m_exec_by E. split; [done|]. split_and!; done.
  - destruct (invalidate_ok b e s c Hs) as (s' & E & Hs' & Hp & _). unfold run_op. simpl. exists (s', c).
    m_exec_by E. split; [done|]. split_and!; done.
Qed.

Lemma run_ops_ok l s c : socket_ok s c → Forall (op_ok c (mPortNum s)) l →
  let base := mBaseAddress (t_space (c_if c)) in
  ∃ st, run_ops l (s, c) = (Ok (ref_ops base l.*2 (m_bytes (c_dev c))).1, st)
    ∧ kept (same_bytes (ref_ops base l.*2 (m_bytes (c_dev c))).2) s c st.
Proof.
  revert s c. induction l as [|[m o] l IH]; intros s c Hs Hl; [by exists (s, c)|].
  apply Forall_cons in Hl as [Ho Hl]. destruct (run_op_ok m o s c Hs Ho) as ([s1 c1] & E1 & Hs1 & Hp1 & Hsp1 & Hb1).
  cbn [fst snd] in Hs1, Hp1, Hsp1, Hb1.
  destruct (IH s1 c1 Hs1) as (st & E2 & Hs2 & Hp2 & Hsp2 & Hb2).
  { eapply Forall_impl; [done|]. intros [m' o'] [Hq Hin]. split; [by rewrite Hp1|]. simpl in *.
    destruct (access o'); [|done]. unfold in_memory in *. by rewrite Hsp1. }
  exists st. cbn [run_ops]. m_exec_by E1. m_exec_by E2. rewrite fmap_cons. cbn [ref_ops snd]. rewrite Hsp1 in *.
  destruct (ref_op (mBaseAddress (t_space (c_if c))) o (m_bytes (c_dev c))) as [x b1]. cbn [fst snd] in *.
  destruct (ref_ops_same (mBaseAddress (t_space (c_if c))) l.*2 _ _ Hb1) as [Eo Eb].
  destruct (ref_ops (mBaseAddress (t_space (c_if c))) l.*2 b1) as [xs b2]. cbn [fst snd] in *. rewrite <- Eo.
  split; [done|]. split_and!; [done|congruence|congruence|]. by rewrite Eb.
Qed.


(** blocking is respected.  While the parameter of an address requires blocking
    transactions an access to it goes to the target and leaves the regions as they are, and
    after the hook of a parameter change no region is left in which the parameter requires
    blocking transactions anywhere. *)
Theorem blocking_respected m s c :
  socket_ok s c → queries_return m (mPortNum s) →
  (∀ p delay, getBlockingTLMEnabled dflt m (mPortNum s) (addr p) = Ok BT_ENABLED →
     socket_transport dflt m p delay (s, c)
     = (let '(r, c') := TargetIf.b_transport p delay c in
        (let* r := r in Ok (mkReply (r_status r) (r_ptr r) (r_delay r) false), (s, c'))))
  ∧ ∃ s', update_hook dflt m (s, c) = (Ok tt, (s', c))
      ∧ ∀ d, d ∈ mDmiData s' → is_write_allowed d || is_read_allowed d = true →
          getBlockingTLMEnabled_space dflt m (mPortNum s) (mkAddrSpace (dmi_start d) (dmi_end d)) = Ok BT_DISABLED.
Proof.
  intros Hs Hq. split.
  - intros p delay Hb. unfold socket_transport. m_exec. cbn [fst]. rewrite Hb. m_exec. cbn [bt_to_bool].
    unfold m_bind at 1, on_out. cbn [out_transport target_Downstream].
    destruct (TargetIf.b_transport p delay c) as [[r|e] c']; [|done]. rewrite andb_false_r. done.
  - destruct (hook_ok m s c Hs Hq) as (s' & E & [_ Hs'] & Hp & Hsub & Hd). exists s'. split; [done|].
    intros d Hin Hrw. assert (dmi_start d ≤ dmi_end d) as Hle.
    { rewrite Forall_forall in Hs'. rewrite (Hs' d Hin). simpl. destruct Hs as [Hok _]. apply Hok. }
    specialize (Hd d Hin Hle Hrw). destruct Hq as [_ Hq].
    specialize (Hq (mkAddrSpace (dmi_start d) (dmi_end d))).
    destruct (getBlockingTLMEnabled_space _ _ _ _) as [[]|]; done.
Qed.
End transparent.

(** ** Concrete sockets *)

Definition free_module : VpsimModule nat := new_VpsimModule "free" intermediate maxRange 1.
Definition blocked_module : VpsimModule nat :=
  set_mEffectiveParameters [mkParameterSet [(mkAddrSpace 0x1008 0x1FFF, BT_ENABLED)] [] []] free_module.

Lemma valForAddrSpace_enabled dflt pc as' : Forall (fun e => e.2 = BT_ENABLED) pc →
  is_ok (valForAddrSpace dflt pc as') = true.
Proof.
  induction 1 as [|[a v] pc Hv _ IH]; simpl in *; [done|]. subst v. destruct (intersect as' a); [done|].
  by case_bool_decide.
Qed.

Lemma free_returns : queries_return BT_DISABLED free_module 0.
Proof. split; done. Qed.
Lemma blocked_returns : queries_return BT_DISABLED blocked_module 0.
Proof. split; [done|]. intros a. apply valForAddrSpace_enabled. by repeat constructor. Qed.

Lemma small_memory_ok : memory_ok small_memory.
Proof. unfold memory_ok, max64. simpl. lia. Qed.

Definition sample_socket_ops : list (VpsimModule nat * socket_op) :=
  [(free_module, SWrite 4098 [7; 8]); (free_module, SRead 4097 3); (blocked_module, SHook);
   (blocked_module, SRead 4104 2); (free_module, SInvalidate 0 5000); (free_module, SRead 4098 2)].


Lemma blocking_respected_witness :
  ∃ s', update_hook BT_DISABLED blocked_module (mkSocket [mkDmi 4096 4111 true true 0] 0, small_memory)
          = (Ok tt, (s', small_memory))
    ∧ ∀ d, d ∈ mDmiData s' → is_write_allowed d || is_read_allowed d = true →
        getBlockingTLMEnabled_space BT_DISABLED blocked_module 0 (mkAddrSpace (dmi_start d) (dmi_end d)) = Ok BT_DISABLED.
Proof.
  apply (blocking_respected BT_DISABLED blocked_module (mkSocket [mkDmi 4096 4111 true true 0] 0) small_memory).
  - split; [apply small_memory_ok|]. by constructor.
  - apply blocked_returns.
Defined.

(** only the first address of an access is tested for blocking.  With a region that covers
    the memory, an access that starts before the blocked addresses and ends in them is served
    from the region and never reaches the target, although the same range is refused when it
    is asked for as a region. *)
Theorem straddling_access_direct :
  let p := mkPayload TLM_READ_COMMAND 4102 (Some [0; 0; 0; 0]) 4 false 0 None in
  let s := mkSocket [mkDmi 4096 4111 true true 0] 0 in
  let '(r, (s', c')) := socket_transport BT_DISABLED blocked_module p 0 (s, small_memory) in
  getBlockingTLMEnabled BT_DISABLED blocked_module 0 4104 = Ok BT_ENABLED
  ∧ r = Ok (mkReply TLM_OK_RESPONSE (Some [6; 7; 8; 9]) 0 false) ∧ mReadCount (c_if c') = 0
  ∧ (socket_dmi BT_DISABLED blocked_module p (s, small_memory)).1 = Ok None.
Proof. vm_compute. split_and!; done. Qed.
