(* ===== verification/Initiator.v ===== *)
(** * TLM initiators ([core/InitiatorIf.cpp])

    An [InitiatorIf] prepares a payload, sends it through one of its sockets and hands back
    the status.  What is bound to the sockets is the argument [transport] of the operations: a
    transaction and a debug transaction per port.  A [TargetIf] component is one.

    The file shows what an initiator sees of a memory: an access through it is the access to
    the memory's bytes. *)

From S2P Require Import Prelude AddrSpace Tlm LocalMemory TargetIf.

Inductive ACCESS_TYPE := READ | WRITE | READ_ATOMIC | WRITE_ATOMIC.
#[global] Instance ACCESS_TYPE_eq_dec : EqDecision ACCESS_TYPE.
Proof. solve_decision. Defined.

(** [tlm_gp_option]. *)
Inductive gp_option := TLM_MIN_PAYLOAD | TLM_FULL_PAYLOAD.

Record InitiatorIf := mkInitiator {
  i_DmiEnable : bool;
  i_Name : string;
  mDiagnosticLevel : Z;
  mForceLt : bool;
  mTlmActive : bool;
  mNbPort : Z }.

Definition new_InitiatorIf (Name : string) (Active : bool) (NbPort : Z) : InitiatorIf :=
  mkInitiator false Name 0 false Active NbPort.

Definition setDiagnosticLevel (x : Z) (i : InitiatorIf) : InitiatorIf :=
  mkInitiator (i_DmiEnable i) (i_Name i) x (mForceLt i) (mTlmActive i) (mNbPort i).
Definition setForceLt (x : bool) (i : InitiatorIf) : InitiatorIf :=
  mkInitiator (i_DmiEnable i) (i_Name i) (mDiagnosticLevel i) x (mTlmActive i) (mNbPort i).
Definition setDmiEnable (x : bool) (i : InitiatorIf) : InitiatorIf :=
  mkInitiator x (i_Name i) (mDiagnosticLevel i) (mForceLt i) (mTlmActive i) (mNbPort i).
Definition invalidate_direct_mem_ptr (start end' : Z) (i : InitiatorIf) : InitiatorIf := setDmiEnable false i.

(** Any status but OK is thrown, as an integer. *)
Definition tlm_error_checking (status : tlm_response_status) : result unit :=
  match status with
  | TLM_OK_RESPONSE => Ok tt
  | TLM_INCOMPLETE_RESPONSE | TLM_GENERIC_ERROR_RESPONSE | TLM_ADDRESS_ERROR_RESPONSE
  | TLM_COMMAND_ERROR_RESPONSE | TLM_BURST_ERROR_RESPONSE | TLM_BYTE_ENABLE_ERROR_RESPONSE => Err (Throw "0")
  end.

Section initiator.
Context {W : Type}.
(** What is bound to a port. *)
Context (transport : Z → gp_option → payload → Z → M W reply).
Context (debug : Z → payload → M W (tlm_response_status * Z * option (list Z))).

(** [mInitiatorSocket [port]]. *)
Definition check_port (i : InitiatorIf) (port : Z) : M W unit :=
  if bool_decide (0 ≤ port < mNbPort i) then m_ret tt
  else m_throw (UndefinedBehaviour "access outside the socket array").

(** The status, the buffer and the delay; anything that is not [READ] is a write. *)
Definition target_mem_access (i : InitiatorIf) (port addr length : Z) (data : option (list Z)) (rw : ACCESS_TYPE)
    (delay id : Z) : M W reply :=
  let gp := if mTlmActive i || mForceLt i then TLM_FULL_PAYLOAD else TLM_MIN_PAYLOAD in
  let cmd := if decide (rw = READ) then TLM_READ_COMMAND else TLM_WRITE_COMMAND in
  check_port i port ;;;
  transport port gp (mkPayload cmd addr data length false 0 (Some id)) delay.

(** The number of bytes and the buffer. *)
Definition target_dbg_access (i : InitiatorIf) (port addr length : Z) (data : option (list Z)) (rw : ACCESS_TYPE) :
    M W (Z * option (list Z)) :=
  if negb (mTlmActive i) then m_throw (Throw "0")
  else if i_DmiEnable i then
    let cmd := if decide (rw = READ) then TLM_READ_COMMAND else TLM_WRITE_COMMAND in
    check_port i port ;;;
    r <- debug port (mkPayload cmd addr data length false 0 None) ;;
    m_lift (tlm_error_checking r.1.1) ;;;
    m_ret (r.1.2, r.2)
  else m_ret (0, data).
End initiator.

(** ** An initiator in front of a target *)

Definition bound_to {S} `{!Target S} (port : Z) (gp : gp_option) (p : payload) (delay : Z) : M (component S) reply :=
  b_transport p delay.

(** A range of the memory. *)
Definition in_range (c : component memory) (a n : Z) : Prop :=
  mBaseAddress (t_space (c_if c)) ≤ a ∧ a + n ≤ mEndAddress (t_space (c_if c)) + 1 ∧ 0 < n < 2 ^ 32.

(** What an initiator sees of the bytes of a memory. *)
Definition visible (c : component memory) (a n : Z) : list Z :=
  peek (m_bytes (c_dev c)) (a - mBaseAddress (t_space (c_if c))) n.

Lemma access_read i port c a n buf delay id : memory_ok c → in_range c a n → 0 ≤ port < mNbPort i →
  n ≤ Z.of_nat (length buf) →
  ∃ d c', target_mem_access bound_to i port a n (Some buf) READ delay id c =
      (Ok (mkReply TLM_OK_RESPONSE (Some (visible c a n ++ drop (Z.to_nat n) buf)) d true), c')
    ∧ d = delay + charged c (ReadLatency (c_dev c)) (mkPayload TLM_READ_COMMAND a (Some buf) n false 0 (Some id))
    ∧ memory_ok c' ∧ t_space (c_if c') = t_space (c_if c) ∧ c_dev c' = c_dev c.
Proof.
  intros Hok (Ha & Hn & Hl) Hp Hb. unfold target_mem_access, check_port. rewrite bool_decide_true by done.
  erewrite m_bind_ok by reflexivity. rewrite decide_True by done. unfold bound_to.
  destruct (memory_read_ok c (mkPayload TLM_READ_COMMAND a (Some buf) n false 0 (Some id)) delay buf)
    as (c' & -> & Hd & Hs & Hu); [done|unfold in_memory; simpl; split_and!; (done || lia)|done..|].
  eexists _, c'. split; [done|]. split; [done|]. split_and!; [|done..].
  unfold memory_ok in *. by rewrite Hs, Hd, Hu.
Qed.

Lemma access_write i port c a n buf delay id : memory_ok c → in_range c a n → 0 ≤ port < mNbPort i →
  n ≤ Z.of_nat (length buf) →
  ∃ d c', target_mem_access bound_to i port a n (Some buf) WRITE delay id c =
      (Ok (mkReply TLM_OK_RESPONSE (Some buf) d true), c')
    ∧ memory_ok c' ∧ t_space (c_if c') = t_space (c_if c)
    ∧ ∀ b k, visible c' b k = (fun x => if decide (a ≤ x < a + n) then buf !!! Z.to_nat (x - a)
                                        else b_at (m_bytes (c_dev c)) (x - mBaseAddress (t_space (c_if c)))) <$> seqZ b k.
Proof.
  intros Hok (Ha & Hn & Hl) Hp Hb. unfold target_mem_access, check_port. rewrite bool_decide_true by done.
  erewrite m_bind_ok by reflexivity. rewrite decide_False by done. unfold bound_to.
  destruct (memory_write_ok c (mkPayload TLM_WRITE_COMMAND a (Some buf) n false 0 (Some id)) delay buf)
    as (c' & -> & Hok' & Hs & _ & [_ Hbytes]); [done|unfold in_memory; simpl; split_and!; (done || lia)|done..|].
  eexists _, c'. split; [done|]. split_and!; [done..|].
  intros b k. unfold visible, peek. rewrite Hs. apply list_eq. intros j. rewrite !list_lookup_fmap.
  destruct (decide (j < Z.to_nat k)%nat) as [Hj|Hj]; [|by rewrite !lookup_seqZ_ge by lia].
  rewrite !lookup_seqZ_lt by lia. simpl. f_equal. rewrite Hbytes, poke_at. simpl. rewrite length_take_le by lia.
  destruct (decide (a ≤ b + Z.of_nat j < a + n)); [rewrite decide_True by lia|rewrite decide_False by lia; f_equal; lia].
  rewrite !list_lookup_total_alt, lookup_take_lt by lia. do 2 f_equal. lia.
Qed.
