(* ===== verification/IssWrapper.v ===== *)
(** * Instruction-set simulators ([core/quantum.cpp], [components/compute/issWrapper.cpp], [issWrapper.hpp])

    An [IssWrapper] is a CPU of the platform: a third-party instruction-set simulator runs the
    program and calls back to account for the instructions it has executed, to make memory
    accesses that leave its own cache of the memory, and to wait.  The wrapper turns these
    calls into transactions and into time, through a quantum keeper that lets the CPU run
    ahead of the simulation by up to a quantum.

    The keeper of the TLM library is the class [QuantumKeeper], with the laws that its
    standard states.  The rest of the platform is the parameter [W]: what is bound to the
    sockets ([transport]), and what the other processes do, interrupts of this CPU included,
    while it waits ([elapse]).  The file shows that time is accounted for exactly, that the
    program sees memory, and that waiting for an interrupt ends when there is one. *)

From S2P Require Import Prelude AddrSpace Tlm LocalMemory TargetIf Initiator.

(** ** The quantum keeper *)

(** [tlm_utils::tlm_quantumkeeper]; [qk_reset] and [qk_need_sync] take the time of the kernel. *)
Class QuantumKeeper (K : Type) := {
  qk_local : K → Z;
  qk_next_sync : K → Z;
  qk_inc : Z → K → K;
  qk_set : Z → K → K;
  qk_reset : Z → K → K;
  qk_need_sync : Z → K → bool }.

(** IEEE 1666-2011, 16.2: the local time is an offset from the time of the kernel that [reset]
    sets to zero and [inc] increases; the next synchronisation point is set by [reset], at
    most a global quantum later; synchronisation is needed from that point on. *)
Class QuantumKeeperLaws (K : Type) `{!QuantumKeeper K} (quantum : Z) := {
  qk_local_range : ∀ k, in_u64 (qk_local k);
  qk_local_inc : ∀ t k, qk_local (qk_inc t k) = u64 (qk_local k + t);
  qk_next_inc : ∀ t k, qk_next_sync (qk_inc t k) = qk_next_sync k;
  qk_local_set : ∀ t k, in_u64 t → qk_local (qk_set t k) = t;
  qk_next_set : ∀ t k, qk_next_sync (qk_set t k) = qk_next_sync k;
  qk_local_reset : ∀ t k, qk_local (qk_reset t k) = 0;
  qk_next_reset : ∀ t k, t < qk_next_sync (qk_reset t k) ≤ t + quantum;
  qk_need_sync_spec : ∀ t k, qk_need_sync t k = bool_decide (qk_next_sync k ≤ t + qk_local k) }.

Section cpu.
Context {K : Type} `{!QuantumKeeper K}.

Record ParallelQuantumKeeper := mkKeeper {
  qk_base : K;
  forceSyncCount : Z;
  syncCount : Z }.

Definition on_base (f : K → K) (k : ParallelQuantumKeeper) : ParallelQuantumKeeper :=
  mkKeeper (f (qk_base k)) (forceSyncCount k) (syncCount k).
Definition set_local_time (t : Z) : ParallelQuantumKeeper → ParallelQuantumKeeper := on_base (qk_set t).
Definition keeper_add (t : Z) : ParallelQuantumKeeper → ParallelQuantumKeeper := on_base (qk_inc t).
Definition local_time (k : ParallelQuantumKeeper) : Z := qk_local (qk_base k).
Definition getTotalSyncCount (k : ParallelQuantumKeeper) : Z := u32 (syncCount k + forceSyncCount k).

(** ** The CPU *)

(** The callbacks of the timers and their pending notifications are arrays of four;
    [lib_irqs] are the interrupts passed on to the library and [gic_irqs] those raised by the
    CPU itself. *)
Record IssWrapper := mkIss {
  initiator : InitiatorIf;
  mQuantumKeeper : ParallelQuantumKeeper;
  cpu_id : Z;
  mQuantumEnable : bool;
  atomic_flag : bool;
  mICount : Z;
  mDCount : Z;
  result_buffer : list Z;
  mWasInterrupted : bool;
  mMonitoredRanges : list (Z * Z);
  m_timeout_cb : list (option nat);
  m_timeout_event : list (option Z);
  timer_epoch : Z;
  has_gic : bool;
  lib_irqs : list (Z * Z);
  gic_irqs : list (Z * Z) }.

Definition set_initiator x (c : IssWrapper) : IssWrapper :=
  mkIss x (mQuantumKeeper c) (cpu_id c) (mQuantumEnable c) (atomic_flag c) (mICount c)
    (mDCount c) (result_buffer c) (mWasInterrupted c) (mMonitoredRanges c) (m_timeout_cb c)
    (m_timeout_event c) (timer_epoch c) (has_gic c) (lib_irqs c) (gic_irqs c).
Definition set_mQuantumKeeper x (c : IssWrapper) : IssWrapper :=
  mkIss (initiator c) x (cpu_id c) (mQuantumEnable c) (atomic_flag c) (mICount c) (mDCount c)
    (result_buffer c) (mWasInterrupted c) (mMonitoredRanges c) (m_timeout_cb c) (m_timeout_event
    c) (timer_epoch c) (has_gic c) (lib_irqs c) (gic_irqs c).
Definition set_cpu_id x (c : IssWrapper) : IssWrapper :=
  mkIss (initiator c) (mQuantumKeeper c) x (mQuantumEnable c) (atomic_flag c) (mICount c)
    (mDCount c) (result_buffer c) (mWasInterrupted c) (mMonitoredRanges c) (m_timeout_cb c)
    (m_timeout_event c) (timer_epoch c) (has_gic c) (lib_irqs c) (gic_irqs c).
Definition set_mQuantumEnable x (c : IssWrapper) : IssWrapper :=
  mkIss (initiator c) (mQuantumKeeper c) (cpu_id c) x (atomic_flag c) (mICount c) (mDCount c)
    (result_buffer c) (mWasInterrupted c) (mMonitoredRanges c) (m_timeout_cb c) (m_timeout_event
    c) (timer_epoch c) (has_gic c) (lib_irqs c) (gic_irqs c).
Definition set_atomic_flag x (c : IssWrapper) : IssWrapper :=
  mkIss (initiator c) (mQuantumKeeper c) (cpu_id c) (mQuantumEnable c) x (mICount c) (mDCount
    c) (result_buffer c) (mWasInterrupted c) (mMonitoredRanges c) (m_timeout_cb c)
    (m_timeout_event c) (timer_epoch c) (has_gic c) (lib_irqs c) (gic_irqs c).
Definition set_mICount x (c : IssWrapper) : IssWrapper :=
  mkIss (initiator c) (mQuantumKeeper c) (cpu_id c) (mQuantumEnable c) (atomic_flag c) x
    (mDCount c) (result_buffer c) (mWasInterrupted c) (mMonitoredRanges c) (m_timeout_cb c)
    (m_timeout_event c) (timer_epoch c) (has_gic c) (lib_irqs c) (gic_irqs c).
Definition set_mDCount x (c : IssWrapper) : IssWrapper :=
  mkIss (initiator c) (mQuantumKeeper c) (cpu_id c) (mQuantumEnable c) (atomic_flag c)
    (mICount c) x (result_buffer c) (mWasInterrupted c) (mMonitoredRanges c) (m_timeout_cb c)
    (m_timeout_event c) (timer_epoch c) (has_gic c) (lib_irqs c) (gic_irqs c).
Definition set_result_buffer x (c : IssWrapper) : IssWrapper :=
  mkIss (initiator c) (mQuantumKeeper c) (cpu_id c) (mQuantumEnable c) (atomic_flag c)
    (mICount c) (mDCount c) x (mWasInterrupted c) (mMonitoredRanges c) (m_timeout_cb c)
    (m_timeout_event c) (timer_epoch c) (has_gic c) (lib_irqs c) (gic_irqs c).
Definition set_mWasInterrupted x (c : IssWrapper) : IssWrapper :=
  mkIss (initiator c) (mQuantumKeeper c) (cpu_id c) (mQuantumEnable c) (atomic_flag c)
    (mICount c) (mDCount c) (result_buffer c) x (mMonitoredRanges c) (m_timeout_cb c)
    (m_timeout_event c) (timer_epoch c) (has_gic c) (lib_irqs c) (gic_irqs c).
Definition set_mMonitoredRanges x (c : IssWrapper) : IssWrapper :=
  mkIss (initiator c) (mQuantumKeeper c) (cpu_id c) (mQuantumEnable c) (atomic_flag c)
    (mICount c) (mDCount c) (result_buffer c) (mWasInterrupted c) x (m_timeout_cb c)
    (m_timeout_event c) (timer_epoch c) (has_gic c) (lib_irqs c) (gic_irqs c).
Definition set_m_timeout_cb x (c : IssWrapper) : IssWrapper :=
  mkIss (initiator c) (mQuantumKeeper c) (cpu_id c) (mQuantumEnable c) (atomic_flag c)
    (mICount c) (mDCount c) (result_buffer c) (mWasInterrupted c) (mMonitoredRanges c) x
    (m_timeout_event c) (timer_epoch c) (has_gic c) (lib_irqs c) (gic_irqs c).
Definition set_m_timeout_event x (c : IssWrapper) : IssWrapper :=
  mkIss (initiator c) (mQuantumKeeper c) (cpu_id c) (mQuantumEnable c) (atomic_flag c)
    (mICount c) (mDCount c) (result_buffer c) (mWasInterrupted c) (mMonitoredRanges c)
    (m_timeout_cb c) x (timer_epoch c) (has_gic c) (lib_irqs c) (gic_irqs c).
Definition set_timer_epoch x (c : IssWrapper) : IssWrapper :=
  mkIss (initiator c) (mQuantumKeeper c) (cpu_id c) (mQuantumEnable c) (atomic_flag c)
    (mICount c) (mDCount c) (result_buffer c) (mWasInterrupted c) (mMonitoredRanges c)
    (m_timeout_cb c) (m_timeout_event c) x (has_gic c) (lib_irqs c) (gic_irqs c).
Definition set_has_gic x (c : IssWrapper) : IssWrapper :=
  mkIss (initiator c) (mQuantumKeeper c) (cpu_id c) (mQuantumEnable c) (atomic_flag c)
    (mICount c) (mDCount c) (result_buffer c) (mWasInterrupted c) (mMonitoredRanges c)
    (m_timeout_cb c) (m_timeout_event c) (timer_epoch c) x (lib_irqs c) (gic_irqs c).
Definition set_lib_irqs x (c : IssWrapper) : IssWrapper :=
  mkIss (initiator c) (mQuantumKeeper c) (cpu_id c) (mQuantumEnable c) (atomic_flag c)
    (mICount c) (mDCount c) (result_buffer c) (mWasInterrupted c) (mMonitoredRanges c)
    (m_timeout_cb c) (m_timeout_event c) (timer_epoch c) (has_gic c) x (gic_irqs c).
Definition set_gic_irqs x (c : IssWrapper) : IssWrapper :=
  mkIss (initiator c) (mQuantumKeeper c) (cpu_id c) (mQuantumEnable c) (atomic_flag c)
    (mICount c) (mDCount c) (result_buffer c) (mWasInterrupted c) (mMonitoredRanges c)
    (m_timeout_cb c) (m_timeout_event c) (timer_epoch c) (has_gic c) (lib_irqs c) x.

(** The CPU in its platform, at a time of the kernel. *)
Context {W : Type}.
Record cpu_state := mkCpu { cpu : IssWrapper; time : Z; rest : W }.

Definition upd_cpu (f : IssWrapper → IssWrapper) (s : cpu_state) : cpu_state := mkCpu (f (cpu s)) (time s) (rest s).

(** The global quantum, and durations in nanoseconds. *)
Context (quantum : Z) (ns : Z → Z).
(** What is bound to a port. *)
Context (transport : Z → gp_option → payload → Z → M W reply).
(** What the other processes do while the CPU waits, with the calls of [update_irq]; a wait
    for an event too ends after the time given. *)
Context (elapse : Z → W → W * list (Z * Z)).
Context (elapse_event : Z → W → Z * (W * list (Z * Z))).
(** Notifying the I/O events, and the time the library is told. *)
Context (notify_io : W → W) (to_ns : Z → Z).

Definition iss_update_irq (val irq_idx : Z) (c : IssWrapper) : IssWrapper :=
  let c1 := set_lib_irqs (lib_irqs c ++ [(val, Z.land irq_idx 0xffff)]) c in
  if bool_decide (val = 0) then c1 else set_mWasInterrupted true c1.

Definition deliver (irqs : list (Z * Z)) (c : IssWrapper) : IssWrapper :=
  foldl (fun c i => iss_update_irq i.1 i.2 c) c irqs.

(** [sc_core::wait (t)]. *)
Definition sc_wait (t : Z) : M cpu_state unit := fun s =>
  let '(w, irqs) := elapse t (rest s) in (Ok tt, mkCpu (deliver irqs (cpu s)) (time s + t) w).
Definition sc_wait_event (t : Z) : M cpu_state unit := fun s =>
  let '(d, (w, irqs)) := elapse_event t (rest s) in (Ok tt, mkCpu (deliver irqs (cpu s)) (time s + d) w).

Definition upd_keeper (f : Z → ParallelQuantumKeeper → ParallelQuantumKeeper) : M cpu_state unit :=
  m_modify (fun s => upd_cpu (set_mQuantumKeeper (f (time s) (mQuantumKeeper (cpu s)))) s).

Definition forceSync : M cpu_state unit :=
  s <- m_get ;;
  sc_wait (local_time (mQuantumKeeper (cpu s))) ;;;
  upd_keeper (fun t => on_base (qk_reset t)).

Definition sync : M cpu_state unit :=
  s <- m_get ;;
  m_when (qk_need_sync (time s) (qk_base (mQuantumKeeper (cpu s)))) forceSync.

(** The end of [iss_fetch_sync] and [iss_rw_sync]. *)
Definition account (delay : Z) : M cpu_state unit :=
  s <- m_get ;;
  m_when (mQuantumEnable (cpu s))
    (upd_keeper (fun _ => keeper_add delay) ;;;
     m_when (negb (atomic_flag (cpu s))) sync).

Definition iss_fetch_sync (addr cnt instr_nosync call : Z) : M cpu_state unit :=
  let delay := ns (u64 (cnt + instr_nosync)) in
  m_lift (tlm_error_checking TLM_OK_RESPONSE) ;;;
  m_modify (upd_cpu (fun c => set_mICount (u64 (mICount c + cnt + instr_nosync)) c)) ;;;
  account delay.

(** An access through a socket of the CPU. *)
Definition mem_access (port addr length : Z) (data : list Z) (rw : ACCESS_TYPE) (delay id : Z) : M cpu_state reply := fun s =>
  let '(r, w) := target_mem_access transport (initiator (cpu s)) port addr length (Some data) rw delay id (rest s) in
  (r, mkCpu (cpu s) (time s) w).

Definition reply_buffer (r : reply) (old : list Z) : list Z := default old (r_ptr r).

Definition iss_rw_sync (addr : Z) (rw : ACCESS_TYPE) (cnt num_bytes value : Z) : M cpu_state unit :=
  m_modify (upd_cpu (fun c => set_mDCount (u64 (mDCount c + cnt)) c)) ;;;
  s <- m_get ;;
  match rw with
  | READ =>
      r <- mem_access 1 addr (u32 num_bytes) (result_buffer (cpu s)) READ (ns cnt) (cpu_id (cpu s)) ;;
      m_modify (upd_cpu (fun c => set_result_buffer (reply_buffer r (result_buffer c)) c)) ;;;
      m_lift (tlm_error_checking (r_status r)) ;;;
      account (r_delay r)
  | WRITE =>
      r <- mem_access 1 addr (u32 num_bytes) (le_bytes 8 value) WRITE (ns cnt) (cpu_id (cpu s)) ;;
      m_lift (tlm_error_checking (r_status r)) ;;;
      account (r_delay r)
  | _ => m_throw (Throw "Not supposed to leave ISS (atomic).")
  end.

Definition iss_stop : M cpu_state unit := forceSync.

Definition iss_force_sync (instrs : Z) : M cpu_state unit :=
  m_modify (fun s => mkCpu (cpu s) (time s) (notify_io (rest s))) ;;;
  upd_keeper (fun _ => keeper_add (ns instrs)) ;;;
  s <- m_get ;;
  if bool_decide (local_time (mQuantumKeeper (cpu s)) = 0) then sc_wait_event quantum else forceSync.

Fixpoint waitForEvent (fuel : nat) : M cpu_state unit :=
  match fuel with
  | O => m_throw OutOfFuel
  | S fuel =>
      s <- m_get ;;
      let k := mQuantumKeeper (cpu s) in
      if mWasInterrupted (cpu s) then m_modify (upd_cpu (set_mWasInterrupted false))
      else
        upd_keeper (fun t => keeper_add (if bool_decide (local_time k = 0) then quantum
          else u64 (qk_next_sync (qk_base k) - (t + local_time k)))) ;;;
        sync ;;;
        waitForEvent fuel
  end.

(** The current time of the keeper is the time of the kernel and the local time. *)
Definition virtual_time (s : cpu_state) : Z := time s + local_time (mQuantumKeeper (cpu s)).

Definition iss_get_time (nosync HOST_TIME_START : Z) (s : cpu_state) : Z :=
  u64 (u64 (to_ns (virtual_time s + ns nosync)) + HOST_TIME_START).

Definition iss_interrupt_me (value line : Z) (c : IssWrapper) : IssWrapper :=
  if has_gic c then set_gic_irqs (gic_irqs c ++ [(value, line)]) c else c.

Definition iss_update_atomic_flag (val : bool) : IssWrapper → IssWrapper := set_atomic_flag val.
Definition setQuantumEnable (val : bool) : IssWrapper → IssWrapper := set_mQuantumEnable val.

(** [sc_event::notify (delay)]: an earlier pending notification is kept. *)
Definition event_notify (date : Z) (pending : option Z) : option Z :=
  Some (match pending with Some d => Z.min d date | None => date end).

Definition iss_request_timeout (HOST_TIME_START ticks : Z) (timeout_cb : nat) (nosync : Z) : M cpu_state unit :=
  let idx := nosync / 2 ^ 32 in
  s <- m_get ;;
  let date := time s + ns (u64 (u64 (ticks * 16) - iss_get_time 0 HOST_TIME_START s)) in
  if bool_decide (idx < 4) then
    m_modify (upd_cpu (fun c => set_m_timeout_event (alter (event_notify date) (Z.to_nat idx) (m_timeout_event c))
      (set_timer_epoch (u32 (timer_epoch c + 1))
        (set_m_timeout_cb (<[Z.to_nat idx := Some timeout_cb]> (m_timeout_cb c)) c))))
  else m_throw (UndefinedBehaviour "access outside the array of timer events").

(** [onTimeout_0] to [onTimeout_3]: the callback to run. *)
Definition onTimeout (idx : nat) (c : IssWrapper) : option nat := mjoin (m_timeout_cb c !! idx).

Definition monitorRange (start size : Z) (c : IssWrapper) : IssWrapper :=
  set_mMonitoredRanges (mMonitoredRanges c ++ [(start, size)]) c.

Definition removeMonitor (start size : Z) (c : IssWrapper) : IssWrapper :=
  set_mMonitoredRanges
    (omap (fun rng => if bool_decide (start ≤ rng.1) && bool_decide (u64 (rng.1 + rng.2 - 1) ≤ u64 (start + size - 1))
                      then None else Some (start, size)) (mMonitoredRanges c)) c.

(** The ranges that make an access be printed. *)
Definition monitored (addr : Z) (c : IssWrapper) : bool :=
  existsb (fun rng => bool_decide (rng.1 ≤ addr) && bool_decide (addr < u64 (rng.1 + rng.2))) (mMonitoredRanges c).

(** ** Time *)

Context `{!QuantumKeeperLaws K quantum}.

Definition next_sync (s : cpu_state) : Z := qk_next_sync (qk_base (mQuantumKeeper (cpu s))).

(** Interrupts change nothing else. *)
Lemma deliver_frame {X} (f : IssWrapper → X) irqs c :
  (∀ v i c, f (iss_update_irq v i c) = f c) → f (deliver irqs c) = f c.
Proof. intros Hf. unfold deliver. induction irqs as [|[v i] l IH] in c |- *; simpl; [done|]. by rewrite IH, Hf. Qed.

Lemma update_irq_frame {X} (f : IssWrapper → X) v i c :
  (∀ l, f (set_lib_irqs l c) = f c) → (∀ l, f (set_mWasInterrupted true (set_lib_irqs l c)) = f c) →
  f (iss_update_irq v i c) = f c.
Proof. intros H1 H2. unfold iss_update_irq. by case_bool_decide. Qed.

(** The members that waiting does not change. *)
Definition kept (c : IssWrapper) :=
  (initiator c, cpu_id c, mQuantumEnable c, atomic_flag c, mICount c, mDCount c, result_buffer c).

Lemma forceSync_runs s : ∃ s', forceSync s = (Ok tt, s') ∧ virtual_time s' = virtual_time s
  ∧ local_time (mQuantumKeeper (cpu s')) = 0 ∧ time s' < next_sync s' ≤ time s' + quantum
  ∧ kept (cpu s') = kept (cpu s) ∧ time s' = virtual_time s
  ∧ rest s' = (elapse (local_time (mQuantumKeeper (cpu s))) (rest s)).1
  ∧ mWasInterrupted (cpu s') = mWasInterrupted (deliver (elapse (local_time (mQuantumKeeper (cpu s))) (rest s)).2 (cpu s)).
Proof.
  unfold forceSync, sc_wait, upd_keeper. unfold m_bind at 1 2, m_get.
  destruct (elapse (local_time (mQuantumKeeper (cpu s))) (rest s)) as [w irqs] eqn:E. simpl.
  eexists. split; [done|]. unfold virtual_time, local_time, next_sync. simpl. rewrite qk_local_reset.
  split_and!; [lia|done|apply qk_next_reset..| |lia|done|done].
  change (kept (deliver irqs (cpu s)) = kept (cpu s)). apply deliver_frame. intros v i c. by apply update_irq_frame.
Qed.

Lemma sync_runs s : ∃ s', sync s = (Ok tt, s') ∧ virtual_time s' = virtual_time s ∧ virtual_time s' < next_sync s'
  ∧ kept (cpu s') = kept (cpu s)
  ∧ (rest s' = rest s ∨ ∃ t, rest s' = (elapse t (rest s)).1).
Proof.
  unfold sync. unfold m_bind, m_get. destruct (qk_need_sync _ _) eqn:E; simpl.
  - destruct (forceSync_runs s) as (s' & -> & Hv & Hl & Hn & Hk & Ht & Hr & _). exists s'.
    split_and!; [done..| |done|eauto]. unfold virtual_time in *. lia.
  - exists s. split_and!; [done..| |done|by left]. rewrite qk_need_sync_spec in E. apply bool_decide_eq_false in E.
    unfold virtual_time, next_sync, local_time. lia.
Qed.

Lemma account_total d s : ∃ s', account d s = (Ok tt, s') ∧ kept (cpu s') = kept (cpu s)
  ∧ (rest s' = rest s ∨ ∃ t, rest s' = (elapse t (rest s)).1).
Proof.
  unfold account. unfold m_bind at 1, m_get. destruct (mQuantumEnable (cpu s)); simpl; [|by eauto].
  unfold m_bind at 1, upd_keeper, m_modify. cbn [fst snd]. set (s1 := upd_cpu _ s).
  destruct (atomic_flag (cpu s)); simpl; [by exists s1; eauto|].
  destruct (sync_runs s1) as (s' & -> & _ & _ & Hk & Hr). eauto.
Qed.

Lemma account_runs d s : 0 ≤ d → local_time (mQuantumKeeper (cpu s)) + d < 2 ^ 64 →
  ∃ s', account d s = (Ok tt, s') ∧ kept (cpu s') = kept (cpu s)
  ∧ (rest s' = rest s ∨ ∃ t, rest s' = (elapse t (rest s)).1)
  ∧ virtual_time s' = virtual_time s + (if mQuantumEnable (cpu s) then d else 0)
  ∧ (mQuantumEnable (cpu s) = true → atomic_flag (cpu s) = false → virtual_time s' < next_sync s').
Proof.
  intros Hd Hl. unfold account. unfold m_bind at 1, m_get. destruct (mQuantumEnable (cpu s)) eqn:Eq; simpl.
  2: { exists s. split_and!; [done..|by left|lia|done]. }
  unfold m_bind at 1, upd_keeper, m_modify. cbn [fst snd].
  set (s1 := upd_cpu _ s). assert (virtual_time s1 = virtual_time s + d) as Hv1.
  { unfold s1, virtual_time, local_time in *. simpl. rewrite qk_local_inc.
    pose proof (qk_local_range (qk_base (mQuantumKeeper (cpu s)))) as Hr. unfold in_u64 in Hr.
    rewrite u64_small by (unfold in_u64; lia). lia. }
  destruct (atomic_flag (cpu s)) eqn:Ea; simpl.
  - exists s1. split_and!; [done|done|by left|lia|done].
  - destruct (sync_runs s1) as (s' & -> & Hv & Hn & Hk & Hr). exists s'. split_and!; [done..|lia|done].
Qed.

(** The calls of the library that take time. *)
Inductive cpu_call :=
  | Fetch (addr cnt instr_nosync call : Z)
  | Access (addr : Z) (rw : ACCESS_TYPE) (cnt num_bytes value : Z)
  | ForceSync (instrs : Z)
  | Stop.

Definition cpu_exec (o : cpu_call) : M cpu_state unit :=
  match o with
  | Fetch a c n l => iss_fetch_sync a c n l
  | Access a rw c n v => iss_rw_sync a rw c n v
  | ForceSync n => iss_force_sync n
  | Stop => iss_stop
  end.

(** The reply to the transaction of an access. *)
Definition access_reply (a : Z) (rw : ACCESS_TYPE) (cnt n v : Z) (s : cpu_state) : option reply :=
  match (target_mem_access transport (initiator (cpu s)) 1 a (u32 n)
     (Some (if decide (rw = READ) then result_buffer (cpu s) else le_bytes 8 v)) rw (ns cnt) (cpu_id (cpu s)) (rest s)).1 with
  | Ok r => Some r
  | Err _ => None
  end.

(** The time a call takes on the CPU: one nanosecond per instruction, and what the transaction
    returns for an access. *)
Definition charge (o : cpu_call) (s : cpu_state) : Z :=
  match o with
  | Fetch _ c n _ => ns (u64 (c + n))
  | Access a rw c n v => if access_reply a rw c n v s is Some r then r_delay r else 0
  | ForceSync n => ns n
  | Stop => 0
  end.

Lemma access_runs a rw cnt n v s s' : iss_rw_sync a rw cnt n v s = (Ok tt, s') →
  ∃ r s1, access_reply a rw cnt n v s = Some r ∧ r_status r = TLM_OK_RESPONSE ∧ account (r_delay r) s1 = (Ok tt, s')
  ∧ time s1 = time s ∧ mQuantumKeeper (cpu s1) = mQuantumKeeper (cpu s)
  ∧ mQuantumEnable (cpu s1) = mQuantumEnable (cpu s) ∧ atomic_flag (cpu s1) = atomic_flag (cpu s).
Proof.
  unfold iss_rw_sync, access_reply. unfold m_bind at 1 2, m_modify, m_get.
  destruct rw; try done; unfold m_bind at 1, mem_access; simpl.
  - destruct (target_mem_access _ _ _ _ _ _ _ _ _ _) as [[r|e] w]; [|done]. simpl. unfold m_bind at 1, m_modify. cbn [fst snd].
    unfold m_bind at 1, m_lift. destruct (r_status r) eqn:Er; try done. simpl. intros H. eauto 10.
  - destruct (target_mem_access _ _ _ _ _ _ _ _ _ _) as [[r|e] w]; [|done]. simpl.
    unfold m_bind at 1, m_lift. destruct (r_status r) eqn:Er; try done. simpl. intros H. eauto 10.
Qed.


(** ** Waiting for an interrupt *)

Definition interrupts (irqs : list (Z * Z)) : Prop := Exists (fun i => i.1 ≠ 0) irqs.

Lemma deliver_interrupts irqs c : interrupts irqs ∨ mWasInterrupted c = true ↔ mWasInterrupted (deliver irqs c) = true.
Proof using Type.
  clear elapse ns transport elapse_event notify_io to_ns QuantumKeeperLaws0 quantum.
  unfold interrupts, deliver. induction irqs as [|[v i] l IH] in c |- *; simpl; [rewrite Exists_nil; tauto|].
  rewrite <- IH, Exists_cons. simpl. unfold iss_update_irq. case_bool_decide; simpl; tauto.
Qed.

(** One turn of the loop: the CPU reaches its synchronisation point. *)
Lemma wait_turn s : next_sync s ≤ time s + quantum → time s < next_sync s → quantum < 2 ^ 64 →
  ∃ s', (upd_keeper (fun t => keeper_add (if bool_decide (local_time (mQuantumKeeper (cpu s)) = 0) then quantum
          else u64 (next_sync s - (t + local_time (mQuantumKeeper (cpu s))))) ) ;;; sync) s = (Ok tt, s')
  ∧ time s < time s' ∧ time s' < next_sync s' ≤ time s' + quantum
  ∧ ∃ t, rest s' = (elapse t (rest s)).1 ∧ mWasInterrupted (cpu s') = mWasInterrupted (deliver (elapse t (rest s)).2 (cpu s)).
Proof using QuantumKeeperLaws0.
  clear ns transport elapse_event notify_io to_ns.
  intros Hn Ht Hq. erewrite m_bind_ok by reflexivity. set (s1 := upd_cpu _ s).
  pose proof (qk_local_range (qk_base (mQuantumKeeper (cpu s)))) as Hr. unfold in_u64 in Hr.
  assert (local_time (mQuantumKeeper (cpu s1)) = if bool_decide (local_time (mQuantumKeeper (cpu s)) = 0) then quantum
    else next_sync s - time s) as El.
  { unfold s1, local_time. simpl. unfold keeper_add, on_base. simpl. rewrite qk_local_inc. fold (local_time (mQuantumKeeper (cpu s))).
    case_bool_decide as E0; [rewrite E0; apply u64_small; unfold in_u64; lia|].
    unfold local_time. unfold u64, wrap. rewrite Zplus_mod_idemp_r. rewrite Z.mod_small; lia. }
  unfold sync. unfold m_bind, m_get. rewrite qk_need_sync_spec. fold (local_time (mQuantumKeeper (cpu s1))).
  assert (qk_next_sync (qk_base (mQuantumKeeper (cpu s1))) = next_sync s) as En by (unfold s1; simpl; apply qk_next_inc).
  rewrite En, bool_decide_true by (rewrite El; case_bool_decide; simpl; lia). simpl.
  destruct (forceSync_runs s1) as (s' & -> & _ & _ & Hb & _ & Hts & Hrest & Hint). exists s'. split; [done|].
  split; [|split; [done|]].
  - rewrite Hts. unfold virtual_time. rewrite El. simpl. case_bool_decide; lia.
  - exists (local_time (mQuantumKeeper (cpu s1))). split; [exact Hrest|]. rewrite Hint.
    apply eq_true_iff_eq. by rewrite <- !deliver_interrupts.
Qed.

Lemma wait_runs (m : W → nat) :
  (∀ t w, interrupts (elapse t w).2 ∨ (m (elapse t w).1 < m w)%nat) → quantum < 2 ^ 64 →
  ∀ fuel s, time s < next_sync s → next_sync s ≤ time s + quantum → (m (rest s) + 1 < fuel)%nat →
  ∃ s', waitForEvent fuel s = (Ok tt, s') ∧ mWasInterrupted (cpu s') = false ∧ time s ≤ time s'
  ∧ (mWasInterrupted (cpu s) = false → time s < time s').
Proof using QuantumKeeperLaws0.
  clear ns transport elapse_event notify_io to_ns.
  intros Hm Hq. induction fuel as [|fuel IH]; intros s Ht Hn Hfuel; [lia|]. cbn [waitForEvent].
  erewrite m_bind_ok by reflexivity. destruct (mWasInterrupted (cpu s)) eqn:Ew.
  - eexists. split; [done|]. split_and!; [done|simpl; lia|done].
  - destruct (wait_turn s Hn Ht Hq) as (s1 & E & Hlt & Hb & t & Hrest & Hint).
    assert (∀ k : M cpu_state unit, (upd_keeper (fun t => keeper_add (if bool_decide (local_time (mQuantumKeeper (cpu s)) = 0) then quantum
          else u64 (next_sync s - (t + local_time (mQuantumKeeper (cpu s)))))) ;;; (sync ;;; k)) s = k s1) as Hk.
    { intros k. unfold m_bind in *. destruct (upd_keeper _ s) as [[[]|] s0]; [|done]. destruct (sync s0) as [[[]|] s2]; [|done].
      by injection E as <-. }
    rewrite Hk. destruct (Hm t (rest s)) as [Hi|Hdec].
    + destruct fuel as [|fuel]; [lia|]. cbn [waitForEvent]. erewrite m_bind_ok by reflexivity.
      assert (mWasInterrupted (cpu s1) = true) as -> by (rewrite Hint; apply deliver_interrupts; by left).
      eexists. split; [done|]. split_and!; [done|simpl; lia|simpl; lia].
    + rewrite <- Hrest in Hdec. destruct (IH s1) as (s' & -> & Hw & Hle & _); [lia..|].
      exists s'. split_and!; [done..|lia|lia].
Qed.

(** waiting for an interrupt ends.  If the platform interrupts the CPU within some number
    of synchronisations ([m] bounds it: whatever time passes, there is an interrupt or [m]
    decreases), then [waitForEvent] returns after at most two turns more than that, the
    interrupt is consumed, and the time has advanced unless the interrupt was already there. *)
Theorem wait_for_event (m : W → nat) fuel s :
  (∀ t w, interrupts (elapse t w).2 ∨ (m (elapse t w).1 < m w)%nat) → quantum < 2 ^ 64 →
  time s < next_sync s ≤ time s + quantum → (m (rest s) + 1 < fuel)%nat →
  ∃ s', waitForEvent fuel s = (Ok tt, s') ∧ mWasInterrupted (cpu s') = false
  ∧ time s ≤ time s' ∧ (mWasInterrupted (cpu s) = false → time s < time s').
Proof using QuantumKeeperLaws0. intros Hm Hq [Ht Hn] Hfuel. by apply (wait_runs m). Qed.

(** ** Monitored ranges *)

(** removing a monitored range does not do what it says.  Every range that is not inside
    the removed one is replaced by the removed one, so that afterwards exactly the addresses
    of the removed range are monitored if any other range was, and none otherwise. *)
Theorem removeMonitor_replaces start size addr c :
  monitored addr (removeMonitor start size c) = true ↔
  (∃ rng, rng ∈ mMonitoredRanges c ∧ ~ (start ≤ rng.1 ∧ u64 (rng.1 + rng.2 - 1) ≤ u64 (start + size - 1)))
  ∧ start ≤ addr < u64 (start + size).
Proof.
  unfold monitored, removeMonitor. simpl. rewrite existsb_exists. split.
  - intros (p & Hp & Hin). apply list_elem_of_In, list_elem_of_omap in Hp as (rng & Hr & E).
    destruct (bool_decide (start ≤ rng.1) && bool_decide (u64 (rng.1 + rng.2 - 1) ≤ u64 (start + size - 1))) eqn:Ec; [done|].
    injection E as <-. rewrite andb_true_iff, !bool_decide_eq_true in Hin. cbn [fst snd] in Hin. split; [|done]. exists rng.
    split; [done|]. intros [H1 H2]. by rewrite !bool_decide_true in Ec.
  - intros ((rng & Hr & Hn) & Ha). exists (start, size). split.
    + apply list_elem_of_In, list_elem_of_omap. exists rng. split; [done|].
      destruct (bool_decide (start ≤ rng.1) && _) eqn:Ec; [|done]. destruct Hn.
      by rewrite andb_true_iff, !bool_decide_eq_true in Ec.
    + by rewrite andb_true_iff, !bool_decide_eq_true.
Qed.

(** ** Timers *)

(** A timer whose date is past is notified after almost [2 ^ 64] nanoseconds. *)
Lemma late_timeout HOST ticks cb s : 0 ≤ ticks * 16 < iss_get_time 0 HOST s →
  m_timeout_event (cpu s) !! 0%nat = Some None →
  ∃ s', iss_request_timeout HOST ticks cb 0 s = (Ok tt, s')
  ∧ m_timeout_event (cpu s') !! 0%nat = Some (Some (time s + ns (2 ^ 64 + ticks * 16 - iss_get_time 0 HOST s))).
Proof.
  intros Ht He. assert (iss_get_time 0 HOST s < 2 ^ 64) as Hg by (apply u64_bound).
  unfold iss_request_timeout. rewrite Z.div_0_l by lia. erewrite m_bind_ok by reflexivity.
  remember (iss_get_time 0 HOST s) as g eqn:Eg. clear Eg.
  rewrite bool_decide_true by lia. eexists. split; [done|]. cbn [snd cpu upd_cpu m_timeout_event set_m_timeout_event].
  rewrite list_lookup_alter. change (Z.to_nat 0) with 0%nat. rewrite decide_True by done. cbn [m_timeout_event set_timer_epoch set_m_timeout_cb].
  rewrite He. cbn [fmap option_fmap option_map]. unfold event_notify. do 4 f_equal.
  rewrite (u64_small (ticks * 16)) by (unfold in_u64; lia).
  assert (ticks * 16 - g = (2 ^ 64 + ticks * 16 - g) + (-1) * 2 ^ 64) as -> by lia.
  unfold u64, wrap. rewrite Z.mod_add by lia. rewrite Z.mod_small; lia.
Qed.
End cpu.

(** ** The program sees memory *)

Section memory.
Context {K : Type} `{!QuantumKeeper K} (quantum : Z) (ns : Z → Z) `{!QuantumKeeperLaws K quantum}.
Context (elapse : Z → component memory → component memory * list (Z * Z)).

(** While the CPU waits nobody else writes the range. *)
Definition undisturbed (a n : Z) : Prop := ∀ t w, memory_ok w →
  memory_ok (elapse t w).1 ∧ t_space (c_if (elapse t w).1) = t_space (c_if w) ∧ visible (elapse t w).1 a n = visible w a n.

Abbreviation rw_sync := (iss_rw_sync ns bound_to elapse) (only parsing).
Implicit Types (s : @cpu_state K (component memory)).

Lemma account_memory d s a n : undisturbed a n → memory_ok (rest s) →
  ∃ s', account elapse d s = (Ok tt, s') ∧ kept (cpu s') = kept (cpu s) ∧ memory_ok (rest s')
  ∧ t_space (c_if (rest s')) = t_space (c_if (rest s)) ∧ visible (rest s') a n = visible (rest s) a n.
Proof.
  intros Hu Hok. destruct (account_total quantum elapse d s) as (s' & -> & Hk & Hr). exists s'. split_and!; [done..| | |];
    destruct Hr as [->|[t ->]]; try done; by apply Hu.
Qed.

Lemma visible_written c c' a n buf : 0 < n ≤ Z.of_nat (length buf) →
  (∀ b k, visible c' b k = (fun x => if decide (a ≤ x < a + n) then buf !!! Z.to_nat (x - a)
                                     else b_at (m_bytes (c_dev c)) (x - mBaseAddress (t_space (c_if c)))) <$> seqZ b k) →
  visible c' a n = take (Z.to_nat n) buf.
Proof.
  intros Hn Hv. rewrite Hv. apply list_eq. intros j. rewrite list_lookup_fmap.
  destruct (decide (Z.of_nat j < n)) as [Hj|Hj].
  - rewrite lookup_seqZ_lt by lia. simpl. rewrite decide_True by lia. rewrite lookup_take_lt by lia.
    replace (Z.to_nat (a + Z.of_nat j - a)) with j by lia. symmetry. apply list_lookup_lookup_total_lt. lia.
  - rewrite lookup_seqZ_ge by lia. simpl. by rewrite lookup_take_ge by lia.
Qed.

(** the program sees memory.  A value that the CPU writes to a memory and reads back is
    what it has written, in the bytes of the result buffer that the access covers, even if the
    CPU synchronises with the other processes in between, as long as they do not write there;
    the other bytes of the buffer keep what they had. *)
Theorem cpu_memory s a n v c1 c2 v2 :
  undisturbed a n → memory_ok (rest s) → in_range (rest s) a n → 0 < n ≤ 8 → 
  mNbPort (initiator (cpu s)) = 2 → length (result_buffer (cpu s)) = 8%nat →
  ∃ s1 s2, rw_sync a WRITE c1 n v s = (Ok tt, s1) ∧ rw_sync a READ c2 n v2 s1 = (Ok tt, s2)
  ∧ result_buffer (cpu s2) = take (Z.to_nat n) (le_bytes 8 v) ++ drop (Z.to_nat n) (result_buffer (cpu s)).
Proof.
  intros Hu Hok Hin Hn Hport Hbuf. assert (length (le_bytes 8 v) = 8%nat) as Hvb by done.
  unfold iss_rw_sync at 1. remember (le_bytes 8 v) as vb eqn:Evb. clear Evb. erewrite !m_bind_ok by reflexivity.
  unfold m_bind at 1, mem_access. simpl. rewrite (u32_small n) by (unfold in_u32; lia).
  destruct (access_write (initiator (cpu s)) 1 (rest s) a n vb (ns c1) (cpu_id (cpu s)))
    as (d & w & -> & Hokw & Hsw & Hvw); [done|done|lia|lia|].
  apply visible_written in Hvw; [|lia]. simpl. erewrite m_bind_ok by reflexivity. simpl.
  set (s0 := mkCpu _ _ w). destruct (account_memory d s0 a n Hu Hokw) as (s1 & -> & Hk1 & Hok1 & Hs1 & Hv1).
  exists s1. simpl in Hs1, Hv1. unfold iss_rw_sync. erewrite !m_bind_ok by reflexivity.
  unfold m_bind at 1, mem_access. simpl. rewrite (u32_small n) by (unfold in_u32; lia).
  injection Hk1 as Ei Eid _ _ _ _ Er. rewrite Ei, Eid, Er. simpl.
  destruct (access_read (initiator (cpu s)) 1 (rest s1) a n (result_buffer (cpu s)) (ns c2) (cpu_id (cpu s)))
    as (d2 & w2 & -> & _ & Hok2 & Hs2 & Hd2); [done|unfold in_range in *; rewrite Hs1, Hsw; done|lia|lia|].
  simpl. erewrite !m_bind_ok by reflexivity. simpl.
  set (s3 := upd_cpu _ _). destruct (account_memory d2 s3 a n Hu Hok2) as (s4 & -> & Hk4 & _).
  exists s4. split_and!; [done..|]. injection Hk4 as _ _ _ _ _ _ ->. simpl. by rewrite Hv1, Hvw.
Qed.
End memory.

(** ** A concrete CPU *)

(** A keeper with a quantum of 1000, as the standard describes it. *)
Record simple_keeper := mkSimple { sk_local : Z; sk_next : Z }.

#[global] Instance simple_QuantumKeeper : QuantumKeeper simple_keeper := {|
  qk_local k := u64 (sk_local k);
  qk_next_sync := sk_next;
  qk_inc t k := mkSimple (u64 (sk_local k) + t) (sk_next k);
  qk_set t k := mkSimple t (sk_next k);
  qk_reset t k := mkSimple 0 (t + 1000 - t mod 1000);
  qk_need_sync t k := bool_decide (sk_next k ≤ t + u64 (sk_local k)) |}.

#[global] Instance simple_QuantumKeeperLaws : QuantumKeeperLaws simple_keeper 1000.
Proof.
  split; simpl; try done.
  - intros k. apply u64_bound.
  - intros t k Ht. by apply u64_small.
  - intros t k. pose proof (Z.mod_pos_bound t 1000). lia.
Qed.

Definition test_iss : @IssWrapper simple_keeper :=
  mkIss (new_InitiatorIf "cpu" true 2) (mkKeeper (mkSimple 0 1000) 0 0) 0 true false 0 0 (replicate 8 0) false
    [(16, 4)] (replicate 4 None) (replicate 4 None) 0 true [] [].
Definition test_ns (n : Z) : Z := n * 1000.
Definition quiet (t : Z) (w : component memory) : component memory * list (Z * Z) := (w, []).
Definition quiet_event (t : Z) (w : component memory) : Z * (component memory * list (Z * Z)) := (t, (w, [])).

Definition test_cpu : cpu_state := mkCpu test_iss 0 small_memory.


(** A platform that interrupts the CPU after three synchronisations. *)
Definition three_then_irq (t : Z) (w : nat) : nat * list (Z * Z) :=
  match w with O => (O, [(1, 30)]) | S w => (w, []) end.

Lemma wait_for_event_witness : ∃ s', waitForEvent 1000 three_then_irq 10 (mkCpu test_iss 0 3%nat) = (Ok tt, s') ∧ 0 < time s'.
Proof.
  destruct (wait_for_event 1000 three_then_irq (fun w => w) 10 (mkCpu test_iss 0 3%nat)) as (s' & E & _ & _ & Ht).
  - intros t [|w]; [left; by constructor|right; simpl; lia].
  - lia.
  - simpl. lia.
  - simpl. lia.
  - exists s'. split; [done|]. by apply Ht.
Defined.

Lemma cpu_memory_witness : ∃ s1 s2, iss_rw_sync test_ns bound_to quiet 4100 WRITE 1 4 0x11223344 test_cpu = (Ok tt, s1)
  ∧ iss_rw_sync test_ns bound_to quiet 4100 READ 1 4 0 s1 = (Ok tt, s2)
  ∧ result_buffer (cpu s2) = [0x44; 0x33; 0x22; 0x11; 0; 0; 0; 0].
Proof.
  apply (cpu_memory 1000 test_ns quiet test_cpu 4100 4 0x11223344 1 1 0).
  - intros t w Hok. done.
  - unfold memory_ok, max64. simpl. split_and!; try done; lia.
  - unfold in_range. simpl. lia.
  - lia.
  - done.
  - done.
Defined.
