(* ===== verification/Interconnect.v ===== *)
(** * The address-mapped interconnect

    [components/connect/interconnect.cpp]: a bus that forwards each transaction to the output
    port whose address window contains it, counts the bytes per port, and charges an access
    latency and, on a mesh, one router latency per hop.

    The components behind the output sockets are a parameter of the transport function: a
    state [W] and a function [socket_out] that runs the blocking transport of a port in it.
    The constructor leaves [mIsMesh], [mX] and [mY] without a value ([None]); reading them then
    is undefined.  The last part connects the bus to memories and shows that together they are
    one flat memory. *)

From S2P Require Import Prelude AddrSpace Tlm LocalMemory TargetIf.

(** ** State *)

Record addr_space_type := mkWindow { base_addr : Z; end_addr : Z; offset : Z; port : Z }.

Record interconnect := mkInterconnect {
  output_ports_t : list addr_space_type;
  ACCESS_LATENCY : Z;
  ENABLE_LATENCY : bool;
  write_count_out : list Z;
  read_count_out : list Z;
  mDefaultRoute : Z;
  NUM_PORT_IN : Z;
  NUM_PORT_OUT : Z;
  mIsMesh : option bool;
  mX : option Z;
  mY : option Z;
  mRouterLatency : Z;
  mAddressIDs : list (Z * Z * Z);
  mIdIDs : list (Z * Z);
  mHnIDs : list (Z * Z * Z) }.

Definition set_output_ports_t x (s : interconnect) : interconnect :=
  mkInterconnect x (ACCESS_LATENCY s) (ENABLE_LATENCY s) (write_count_out s) (read_count_out
    s) (mDefaultRoute s) (NUM_PORT_IN s) (NUM_PORT_OUT s) (mIsMesh s) (mX s) (mY s)
    (mRouterLatency s) (mAddressIDs s) (mIdIDs s) (mHnIDs s).
Definition set_ACCESS_LATENCY x (s : interconnect) : interconnect :=
  mkInterconnect (output_ports_t s) x (ENABLE_LATENCY s) (write_count_out s) (read_count_out
    s) (mDefaultRoute s) (NUM_PORT_IN s) (NUM_PORT_OUT s) (mIsMesh s) (mX s) (mY s)
    (mRouterLatency s) (mAddressIDs s) (mIdIDs s) (mHnIDs s).
Definition set_ENABLE_LATENCY x (s : interconnect) : interconnect :=
  mkInterconnect (output_ports_t s) (ACCESS_LATENCY s) x (write_count_out s) (read_count_out
    s) (mDefaultRoute s) (NUM_PORT_IN s) (NUM_PORT_OUT s) (mIsMesh s) (mX s) (mY s)
    (mRouterLatency s) (mAddressIDs s) (mIdIDs s) (mHnIDs s).
Definition set_write_count_out x (s : interconnect) : interconnect :=
  mkInterconnect (output_ports_t s) (ACCESS_LATENCY s) (ENABLE_LATENCY s) x (read_count_out s)
    (mDefaultRoute s) (NUM_PORT_IN s) (NUM_PORT_OUT s) (mIsMesh s) (mX s) (mY s) (mRouterLatency
    s) (mAddressIDs s) (mIdIDs s) (mHnIDs s).
Definition set_read_count_out x (s : interconnect) : interconnect :=
  mkInterconnect (output_ports_t s) (ACCESS_LATENCY s) (ENABLE_LATENCY s) (write_count_out s)
    x (mDefaultRoute s) (NUM_PORT_IN s) (NUM_PORT_OUT s) (mIsMesh s) (mX s) (mY s)
    (mRouterLatency s) (mAddressIDs s) (mIdIDs s) (mHnIDs s).
Definition set_mDefaultRoute x (s : interconnect) : interconnect :=
  mkInterconnect (output_ports_t s) (ACCESS_LATENCY s) (ENABLE_LATENCY s) (write_count_out s)
    (read_count_out s) x (NUM_PORT_IN s) (NUM_PORT_OUT s) (mIsMesh s) (mX s) (mY s)
    (mRouterLatency s) (mAddressIDs s) (mIdIDs s) (mHnIDs s).
Definition set_NUM_PORT_IN x (s : interconnect) : interconnect :=
  mkInterconnect (output_ports_t s) (ACCESS_LATENCY s) (ENABLE_LATENCY s) (write_count_out s)
    (read_count_out s) (mDefaultRoute s) x (NUM_PORT_OUT s) (mIsMesh s) (mX s) (mY s)
    (mRouterLatency s) (mAddressIDs s) (mIdIDs s) (mHnIDs s).
Definition set_NUM_PORT_OUT x (s : interconnect) : interconnect :=
  mkInterconnect (output_ports_t s) (ACCESS_LATENCY s) (ENABLE_LATENCY s) (write_count_out s)
    (read_count_out s) (mDefaultRoute s) (NUM_PORT_IN s) x (mIsMesh s) (mX s) (mY s)
    (mRouterLatency s) (mAddressIDs s) (mIdIDs s) (mHnIDs s).
Definition set_mIsMesh x (s : interconnect) : interconnect :=
  mkInterconnect (output_ports_t s) (ACCESS_LATENCY s) (ENABLE_LATENCY s) (write_count_out s)
    (read_count_out s) (mDefaultRoute s) (NUM_PORT_IN s) (NUM_PORT_OUT s) x (mX s) (mY s)
    (mRouterLatency s) (mAddressIDs s) (mIdIDs s) (mHnIDs s).
Definition set_mX x (s : interconnect) : interconnect :=
  mkInterconnect (output_ports_t s) (ACCESS_LATENCY s) (ENABLE_LATENCY s) (write_count_out s)
    (read_count_out s) (mDefaultRoute s) (NUM_PORT_IN s) (NUM_PORT_OUT s) (mIsMesh s) x (mY s)
    (mRouterLatency s) (mAddressIDs s) (mIdIDs s) (mHnIDs s).
Definition set_mY x (s : interconnect) : interconnect :=
  mkInterconnect (output_ports_t s) (ACCESS_LATENCY s) (ENABLE_LATENCY s) (write_count_out s)
    (read_count_out s) (mDefaultRoute s) (NUM_PORT_IN s) (NUM_PORT_OUT s) (mIsMesh s) (mX s) x
    (mRouterLatency s) (mAddressIDs s) (mIdIDs s) (mHnIDs s).
Definition set_mRouterLatency x (s : interconnect) : interconnect :=
  mkInterconnect (output_ports_t s) (ACCESS_LATENCY s) (ENABLE_LATENCY s) (write_count_out s)
    (read_count_out s) (mDefaultRoute s) (NUM_PORT_IN s) (NUM_PORT_OUT s) (mIsMesh s) (mX s) (mY
    s) x (mAddressIDs s) (mIdIDs s) (mHnIDs s).
Definition set_mAddressIDs x (s : interconnect) : interconnect :=
  mkInterconnect (output_ports_t s) (ACCESS_LATENCY s) (ENABLE_LATENCY s) (write_count_out s)
    (read_count_out s) (mDefaultRoute s) (NUM_PORT_IN s) (NUM_PORT_OUT s) (mIsMesh s) (mX s) (mY
    s) (mRouterLatency s) x (mIdIDs s) (mHnIDs s).
Definition set_mIdIDs x (s : interconnect) : interconnect :=
  mkInterconnect (output_ports_t s) (ACCESS_LATENCY s) (ENABLE_LATENCY s) (write_count_out s)
    (read_count_out s) (mDefaultRoute s) (NUM_PORT_IN s) (NUM_PORT_OUT s) (mIsMesh s) (mX s) (mY
    s) (mRouterLatency s) (mAddressIDs s) x (mHnIDs s).
Definition set_mHnIDs x (s : interconnect) : interconnect :=
  mkInterconnect (output_ports_t s) (ACCESS_LATENCY s) (ENABLE_LATENCY s) (write_count_out s)
    (read_count_out s) (mDefaultRoute s) (NUM_PORT_IN s) (NUM_PORT_OUT s) (mIsMesh s) (mX s) (mY
    s) (mRouterLatency s) (mAddressIDs s) (mIdIDs s) x.

(** The constructor. *)
Definition new_interconnect (nin nout : Z) : interconnect :=
  mkInterconnect [] 0 false (replicate (Z.to_nat nout) 0) (replicate (Z.to_nat nout) 0) (-1)
    nin nout None None None 0 [] [] [].

(** ** Configuration *)

Definition set_latency (val : Z) : M interconnect unit := m_modify (set_ACCESS_LATENCY val).
Definition set_enable_latency (val : bool) : M interconnect unit := m_modify (set_ENABLE_LATENCY val).
Definition setDefaultRoute (port : Z) : M interconnect unit := m_modify (set_mDefaultRoute port).
Definition set_router_latency (t : Z) : M interconnect unit := m_modify (set_mRouterLatency t).
Definition set_is_mesh (is_mesh : bool) : M interconnect unit := m_modify (set_mIsMesh (Some is_mesh)).
Definition set_mesh_coord (x y : Z) : M interconnect unit :=
  m_modify (set_mX (Some x)) ;;; m_modify (set_mY (Some y)).
Definition register_mem_ctrl (base size id : Z) : M interconnect unit :=
  m_modify (fun s => set_mAddressIDs (mAddressIDs s ++ [(base, size, id)]) s).
Definition register_source (src_id id : Z) : M interconnect unit :=
  m_modify (fun s => set_mIdIDs (mIdIDs s ++ [(src_id, id)]) s).
Definition register_hn_input (base size id : Z) : M interconnect unit :=
  m_modify (fun s => set_mHnIDs (mHnIDs s ++ [(base, size, id)]) s).

Definition set_socket_out_addr (num_port base offset : Z) : M interconnect unit :=
  let asp := mkWindow base (u64 (base + offset - 1)) offset num_port in
  m_modify (fun s => set_output_ports_t (output_ports_t s ++ [asp]) s).

Definition getWriteCount (s : interconnect) (port : Z) : result Z := vec_get (write_count_out s) port.
Definition getReadCount (s : interconnect) (port : Z) : result Z := vec_get (read_count_out s) port.

(** ** Routing *)

(** Conversion to a 32-bit [int]. *)
Definition to_int32 (z : Z) : Z :=
  let r := u32 z in if bool_decide (r < 2 ^ 31) then r else r - 2 ^ 32.

Definition window_holds (addr length : Z) (w : addr_space_type) : bool :=
  bool_decide (addr >= base_addr w) && bool_decide (u64 (addr + length - 1) <= end_addr w).

Definition get_port (s : interconnect) (addr length : Z) : Z :=
  if bool_decide (NUM_PORT_OUT s > 1) then
    match List.find (window_holds addr length) (output_ports_t s) with
    | Some w => to_int32 (port w)
    | None => mDefaultRoute s
    end
  else 0.

(** ** Positions on the mesh *)

Definition range_holds (addr : Z) (e : Z * Z * Z) : bool :=
  bool_decide (addr >= e.1.1) && bool_decide (addr < u64 (e.1.2 + e.1.1)).

Definition get_hn_id_by_address (s : interconnect) (addr : Z) : result Z :=
  match List.find (range_holds addr) (mHnIDs s) with
  | Some e => Ok e.2
  | None => Err (Throw "Unknown Home Node ID for address: ")
  end.

Definition get_id_by_address (s : interconnect) (addr : Z) : result Z :=
  match List.find (range_holds addr) (mAddressIDs s) with
  | Some e => Ok e.2
  | None => Err (Throw "Unknown ID for address: ")
  end.

Definition get_id_by_id (s : interconnect) (id : Z) : result Z :=
  match List.find (fun e : Z * Z => bool_decide (e.1 = id)) (mIdIDs s) with
  | Some e => Ok e.2
  | None => Err (Throw "Unknown ID for SOURCE: ")
  end.

Definition initialized {A} (o : option A) : result A :=
  match o with Some a => Ok a | None => Err (UndefinedBehaviour "read of an indeterminate value") end.

(** The distance part of [b_transport]: [mX] takes part as unsigned in the position of the
    source, as signed in the position of the destination. *)
Definition mesh_distance (s : interconnect) (addr : Z) (src : option Z) : result Z :=
  let* noc_id := match src with
                 | None => get_hn_id_by_address s addr
                 | Some cpu_id => get_id_by_id s cpu_id
                 end in
  let* x := initialized (mX s) in
  if bool_decide (x = 0) then Err (UndefinedBehaviour "division by zero") else
  let src_x := to_int32 (noc_id mod u64 x) in
  let src_y := to_int32 (noc_id / u64 x) in
  let* d := get_id_by_address s addr in
  let id := to_int32 d in
  let dst_x := Z.rem id x in
  let dst_y := Z.quot id x in
  Ok (Z.abs (src_x - dst_x) + Z.abs (src_y - dst_y)).

(** ** Transport *)

Section transport.
Context {W : Type}.
Context (socket_out : Z → payload → Z → M W reply).

Definition on_bus {A} (m : M interconnect A) : M (interconnect * W) A := fun '(s, w) =>
  let '(r, s') := m s in (r, (s', w)).
Definition on_targets {A} (m : M W A) : M (interconnect * W) A := fun '(s, w) =>
  let '(r, w') := m w in (r, (s, w')).

(** [vector\[i\] += n] on a vector of 64-bit counters. *)
Definition bump (v : list Z) (i n : Z) : result (list Z) :=
  let* c := vec_get v i in vec_set v i (u64 (c + n)).

(** The counters: what is not a write is counted as a read. *)
Definition count_access (p : payload) (num_port : Z) : M interconnect unit :=
  s <- m_get ;;
  if bool_decide (cmd p = TLM_WRITE_COMMAND) then
    v <- m_lift (bump (write_count_out s) num_port (len p)) ;; m_modify (set_write_count_out v)
  else
    v <- m_lift (bump (read_count_out s) num_port (len p)) ;; m_modify (set_read_count_out v).

(** [src] is the [SourceCpuExtension] of the transaction, if it has one. *)
Definition b_transport (p : payload) (src : option Z) (delay : Z) : M (interconnect * W) reply :=
  s <- on_bus m_get ;;
  let num_port := get_port s (addr p) (len p) in
  if bool_decide (num_port = -1) then m_throw (Throw "Not found - try to access the address") else
  on_bus (count_access p num_port) ;;;
  let delay := if ENABLE_LATENCY s then delay + ACCESS_LATENCY s else delay in
  mesh <- m_lift (initialized (mIsMesh s)) ;;
  delay <- (if (mesh : bool) then
              dist <- m_lift (mesh_distance s (addr p) src) ;; m_ret (delay + mRouterLatency s * dist)
            else m_ret delay) ;;
  if bool_decide (0 ≤ num_port < NUM_PORT_OUT s)
  then on_targets (socket_out num_port p delay)
  else m_throw (UndefinedBehaviour "index out of range").

(** [get_direct_mem_ptr]: an empty request asks for one byte; [target_dmi] is the answer of the
    target behind the port. *)
Definition get_direct_mem_ptr {R} (target_dmi : Z → payload → R) (p : payload) (s : interconnect) : result R :=
  let p := if bool_decide (len p = 0)
           then mkPayload (cmd p) (addr p) (ptr p) 1 (byte_enable_ptr p) (byte_enable_len p) (source_cpu p)
           else p in
  let num_port := get_port s (addr p) (len p) in
  if bool_decide (num_port < 0) then Err (Throw "Nothing found between ") else
  if bool_decide (num_port < NUM_PORT_OUT s) then Ok (target_dmi num_port p)
  else Err (UndefinedBehaviour "index out of range").

(** [transport_dbg] transfers nothing and answers OK. *)
Definition transport_dbg (p : payload) : tlm_response_status * Z := (TLM_OK_RESPONSE, 0).

(** [invalidate_direct_mem_ptr] tells every input socket. *)
Definition invalidate_direct_mem_ptr (s : interconnect) (start_range end_range : Z) : list (Z * Z * Z) :=
  (fun i => (i, start_range, end_range)) <$> seqZ 0 (NUM_PORT_IN s).
End transport.

(** ** Routing by address *)

(** The windows of different ports do not share an address. *)
Definition disjoint_windows (l : list addr_space_type) : Prop :=
  ∀ w w' a, w ∈ l → w' ∈ l → base_addr w ≤ a ≤ end_addr w → base_addr w' ≤ a ≤ end_addr w' → port w = port w'.

Lemma window_holds_range a n w : 0 ≤ a → 0 < n → a + n ≤ 2 ^ 64 →
  window_holds a n w = true ↔ base_addr w ≤ a ∧ a + n - 1 ≤ end_addr w.
Proof.
  intros Ha Hn Hw. unfold window_holds. rewrite u64_small by (unfold in_u64; lia).
  rewrite andb_true_iff, !bool_decide_eq_true. lia.
Qed.

Lemma get_port_hit s a n w : 0 ≤ a → 0 < n → a + n ≤ 2 ^ 64 → disjoint_windows (output_ports_t s) →
  1 < NUM_PORT_OUT s → w ∈ output_ports_t s → base_addr w ≤ a → a + n - 1 ≤ end_addr w →
  get_port s a n = to_int32 (port w).
Proof.
  intros Ha Hn Hw Hdis Hp Hin Hb He. unfold get_port. rewrite bool_decide_true by lia.
  destruct (List.find _ _) as [w'|] eqn:Hf.
  - apply find_some in Hf as [Hin'%list_elem_of_In Hh]. apply window_holds_range in Hh as [Hb' He']; [|lia..].
    by rewrite (Hdis w w' a) by (done || lia).
  - eapply find_none in Hf; [|by apply list_elem_of_In]. cbv beta in Hf.
    assert (window_holds a n w = true); [by apply window_holds_range|congruence].
Qed.

Lemma get_port_miss s a n : 0 ≤ a → 0 < n → a + n ≤ 2 ^ 64 → 1 < NUM_PORT_OUT s →
  (∀ w, w ∈ output_ports_t s → ¬ (base_addr w ≤ a ∧ a + n - 1 ≤ end_addr w)) →
  get_port s a n = mDefaultRoute s.
Proof.
  intros Ha Hn Hw Hp Hno. unfold get_port. rewrite bool_decide_true by lia.
  destruct (List.find _ _) as [w'|] eqn:Hf; [|done].
  apply find_some in Hf as [Hin'%list_elem_of_In Hh]. apply window_holds_range in Hh; [|lia..].
  by destruct (Hno w' Hin').
Qed.

(** routing by address.  On a bus with several ports whose windows do not overlap, a
    non-empty request that lies in a window goes to the port of that window, in whatever order
    the windows were registered; a request that lies in no window goes to the default route;
    a bus with a single port sends everything there. *)
Theorem get_port_routes (s : interconnect) (a n : Z) :
  0 ≤ a → 0 < n → a + n ≤ 2 ^ 64 → disjoint_windows (output_ports_t s) →
  (NUM_PORT_OUT s ≤ 1 → get_port s a n = 0)
  ∧ (1 < NUM_PORT_OUT s →
      (∀ w, w ∈ output_ports_t s → base_addr w ≤ a → a + n - 1 ≤ end_addr w →
         get_port s a n = to_int32 (port w))
      ∧ ((∀ w, w ∈ output_ports_t s → ¬ (base_addr w ≤ a ∧ a + n - 1 ≤ end_addr w)) →
         get_port s a n = mDefaultRoute s)).
Proof.
  intros Ha Hn Hw Hdis. split.
  - intros Hp. unfold get_port. by rewrite bool_decide_false by lia.
  - intros Hp. split; [intros w Hin; by apply get_port_hit|intros Hno; by apply get_port_miss].
Qed.

Lemma get_port_routes_witness :
  get_port (set_output_ports_t [mkWindow 100 199 100 1; mkWindow 0 99 100 0] (new_interconnect 1 2)) 64 4 = 0.
Proof.
  set (s := set_output_ports_t _ _).
  destruct (get_port_routes s 64 4) as [_ Hr]; [lia|lia|lia| |].
  - intros w w' a Hw Hw' H1 H2. unfold s in Hw, Hw'. simpl in Hw, Hw'.
    apply elem_of_cons in Hw as [->|Hw%list_elem_of_singleton];
      apply elem_of_cons in Hw' as [->|Hw'%list_elem_of_singleton]; subst; simpl in *; lia.
  - destruct (Hr ltac:(done)) as [Hin _].
    apply (Hin (mkWindow 0 99 100 0)); [|done|done]. unfold s. simpl. right. left.
Defined.

(** two requests a bus accepts although they do not fit.  The window of size zero that is
    registered at address zero ends at the largest address and holds every request; and a
    request that runs past the largest address wraps around and is held by any window that
    starts at or below it. *)
Theorem window_overflow (a n b e o p : Z) :
  0 ≤ a → 0 < n < 2 ^ 32 → a + n ≤ 2 ^ 64 →
  (∃ w, (set_socket_out_addr p 0 0 (new_interconnect 1 2)).2 = set_output_ports_t [w] (new_interconnect 1 2)
        ∧ window_holds a n w = true)
  ∧ (b ≤ 2 ^ 64 - 1 → 0 ≤ e → window_holds (2 ^ 64 - 1) 2 (mkWindow b e o p) = true).
Proof.
  intros Ha Hn Hw. split.
  - eexists. split; [reflexivity|]. apply window_holds_range; [lia..|]. simpl.
    assert (u64 (0 + 0 - 1) = 2 ^ 64 - 1) as Hu by reflexivity. simpl in Hu. rewrite ?Hu. lia.
  - intros Hb He. unfold window_holds. simpl. rewrite bool_decide_true by lia. by apply bool_decide_eq_true.
Qed.

Lemma window_overflow_witness :
  window_holds (2 ^ 64 - 1) 2 (mkWindow 4096 8191 4096 1) = true.
Proof. apply (window_overflow 5 4 4096 8191 4096 1); lia. Defined.

(** ** Latency *)

Lemma on_bus_ok {W A} (m : M interconnect A) s (w : W) a s' :
  m s = (Ok a, s') → on_bus m (s, w) = (Ok a, (s', w)).
Proof. unfold on_bus. by intros ->. Qed.

Lemma count_access_ok p n s : 0 ≤ n < NUM_PORT_OUT s →
  Z.of_nat (length (write_count_out s)) = NUM_PORT_OUT s →
  Z.of_nat (length (read_count_out s)) = NUM_PORT_OUT s →
  ∃ wc rc, count_access p n s = (Ok tt, set_read_count_out rc (set_write_count_out wc s))
    ∧ length wc = length (write_count_out s) ∧ length rc = length (read_count_out s).
Proof.
  intros Hn Hwc Hrc. unfold count_access, m_bind, m_get, m_lift, bump.
  destruct (vec_get_ok (write_count_out s) n) as (c & Hc & _); [lia|].
  destruct (vec_get_ok (read_count_out s) n) as (c' & Hc' & _); [lia|].
  case_bool_decide; rewrite ?Hc, ?Hc'; cbn [result_bind]; rewrite vec_set_in by lia.
  - exists (<[Z.to_nat n := u64 (c + len p)]> (write_count_out s)), (read_count_out s).
    rewrite length_insert. split_and!; by destruct s.
  - exists (write_count_out s), (<[Z.to_nat n := u64 (c' + len p)]> (read_count_out s)).
    rewrite length_insert. split_and!; by destruct s.
Qed.

(** Column and row of a router. *)
Definition mesh_pos (x id : Z) : Z * Z := (id mod x, id / x).
Definition manhattan (p q : Z * Z) : Z := Z.abs (p.1 - q.1) + Z.abs (p.2 - q.2).

Lemma to_int32_small z : 0 ≤ z < 2 ^ 31 → to_int32 z = z.
Proof.
  intros Hz. unfold to_int32. rewrite u32_small by (unfold in_u32; lia). by rewrite bool_decide_true by lia.
Qed.

(** what a transaction on a mesh is charged: the access latency when latencies are enabled,
    and the router latency times the Manhattan distance from the position of its source (the
    processor it names, otherwise the home node of its address) to that of the memory
    controller of its address; the rest is the target's. *)
Theorem mesh_latency {W} (out : Z → payload → Z → M W reply) (s : interconnect) (w : W) (p : payload)
    (src : option Z) (delay x from to : Z) :
  mIsMesh s = Some true → mX s = Some x → 0 < x < 2 ^ 31 → 0 ≤ from < 2 ^ 31 → 0 ≤ to < 2 ^ 31 →
  (match src with Some cpu => get_id_by_id s cpu | None => get_hn_id_by_address s (addr p) end) = Ok from →
  get_id_by_address s (addr p) = Ok to →
  let n := get_port s (addr p) (len p) in
  0 ≤ n < NUM_PORT_OUT s → Z.of_nat (length (write_count_out s)) = NUM_PORT_OUT s →
  Z.of_nat (length (read_count_out s)) = NUM_PORT_OUT s →
  ∃ s', b_transport out p src delay (s, w) =
    on_targets (out n p (delay + (if ENABLE_LATENCY s then ACCESS_LATENCY s else 0)
                         + mRouterLatency s * manhattan (mesh_pos x from) (mesh_pos x to))) (s', w).
Proof.
  intros Hmesh Hx Hx0 Hf Ht Hsrc Hdst n Hn Hwc Hrc. unfold b_transport. m_exec. fold n. cbv zeta.
  rewrite bool_decide_false by lia.
  destruct (count_access_ok p n s Hn Hwc Hrc) as (wc & rc & E1 & _ & _).
  m_exec_by (on_bus_ok _ _ w _ _ E1). eexists. unfold m_bind at 1. unfold m_lift at 1. rewrite Hmesh. cbn [initialized].
  assert (0 ≤ from / x ≤ from) as Hdiv by (split; [apply Z.div_pos; lia|apply Z.div_le_upper_bound; nia]).
  pose proof (Z.mod_pos_bound from x ltac:(lia)).
  assert (mesh_distance s (addr p) src = Ok (manhattan (mesh_pos x from) (mesh_pos x to))) as Hd.
  { unfold mesh_distance. destruct src; rewrite Hsrc, Hx; cbn [result_bind initialized];
      rewrite bool_decide_false by lia; rewrite Hdst; cbn [result_bind];
      rewrite (u64_small x) by (unfold in_u64; lia); rewrite !to_int32_small by lia;
      rewrite Z.rem_mod_nonneg, Z.quot_div_nonneg by lia; done. }
  unfold m_bind, m_lift. rewrite Hd. unfold m_ret. rewrite bool_decide_true by done.
  destruct (ENABLE_LATENCY s); [done|]. by rewrite Z.add_0_r.
Qed.

Definition mesh_bus : interconnect :=
  set_mIdIDs [(0, 5)] (set_mAddressIDs [(0, 4096, 10)] (set_mX (Some 4) (set_mIsMesh (Some true)
    (set_mRouterLatency 3 (set_ENABLE_LATENCY true (set_ACCESS_LATENCY 7 (new_interconnect 1 1))))))).

(** From position (1, 1) to position (2, 2). *)
Lemma mesh_latency_witness :
  ∃ s', b_transport (fun _ p d => m_ret (mkReply TLM_OK_RESPONSE (ptr p) d false))
          (mkPayload TLM_READ_COMMAND 64 None 4 false 0 None) (Some 0) 100 (mesh_bus, tt)
    = (Ok (mkReply TLM_OK_RESPONSE None (100 + 7 + 3 * 2) false), (s', tt)).
Proof.
  destruct (mesh_latency (fun _ p d => m_ret (mkReply TLM_OK_RESPONSE (ptr p) d false)) mesh_bus tt
    (mkPayload TLM_READ_COMMAND 64 None 4 false 0 None) (Some 0) 100 4 5 10) as [s' Hs'];
    try done; try lia.
  exists s'. rewrite Hs'. reflexivity.
Defined.

(** ** A bus with memories is a flat memory *)

Abbreviation memories := (list (component memory)) (only parsing).

(** The sockets of the bus lead to memories. *)
Definition to_memory (i : Z) (p : payload) (delay : Z) : M memories reply := fun ms =>
  match ms !! Z.to_nat i with
  | Some c => let '(r, c') := TargetIf.b_transport p delay c in (r, <[Z.to_nat i := c']> ms)
  | None => (Err (UndefinedBehaviour "index out of range"), ms)
  end.

Definition mem_base (c : component memory) : Z := mBaseAddress (t_space (c_if c)).
Definition mem_end (c : component memory) : Z := mEndAddress (t_space (c_if c)).

(** The window of a memory starts where the memory does and does not go beyond its end. *)
Definition window_has (x : Z) (w : addr_space_type) : Prop := base_addr w ≤ x ≤ end_addr w.
Definition window_of (i : nat) (c : component memory) (w : addr_space_type) : Prop :=
  port w = Z.of_nat i ∧ base_addr w = mem_base c ∧ base_addr w ≤ end_addr w ≤ mem_end c.

(** The bus as the platform builds it: one window per memory, disjoint windows. *)
Record wired (s : interconnect) (ms : memories) : Prop := mkWired {
  wired_ports : NUM_PORT_OUT s = Z.of_nat (length ms) ∧ 1 < NUM_PORT_OUT s < 2 ^ 31;
  wired_length : length (output_ports_t s) = length ms;
  wired_windows i c w : ms !! i = Some c → output_ports_t s !! i = Some w → window_of i c w;
  wired_write : Z.of_nat (length (write_count_out s)) = NUM_PORT_OUT s;
  wired_read : Z.of_nat (length (read_count_out s)) = NUM_PORT_OUT s;
  wired_mesh : mIsMesh s = Some false;
  wired_mems i c : ms !! i = Some c → memory_ok c;
  wired_disjoint i j w w' x : output_ports_t s !! i = Some w → output_ports_t s !! j = Some w' →
    window_has x w → window_has x w' → i = j }.

(** The byte at an address of the bus. *)
Fixpoint bus_at (ws : list addr_space_type) (ms : memories) (x : Z) : option Z :=
  match ws, ms with
  | w :: ws, c :: ms => if decide (base_addr w ≤ x ≤ end_addr w) then Some (b_at (m_bytes (c_dev c)) (x - mem_base c))
                        else bus_at ws ms x
  | _, _ => None
  end.

Inductive bus_op := BusRead (a n : Z) | BusWrite (a : Z) (data : list Z).

Definition op_payload (o : bus_op) : payload :=
  match o with
  | BusRead a n => mkPayload TLM_READ_COMMAND a (Some (replicate (Z.to_nat n) 0)) n false 0 None
  | BusWrite a data => mkPayload TLM_WRITE_COMMAND a (Some data) (Z.of_nat (length data)) false 0 None
  end.

Definition run_bus_op (o : bus_op) : M (interconnect * memories) (option (list Z)) :=
  r <- b_transport to_memory (op_payload o) None 0 ;; m_ret (r_ptr r).

Fixpoint run_bus_ops (l : list bus_op) : M (interconnect * memories) (list (option (list Z))) :=
  match l with
  | [] => m_ret []
  | o :: l => r <- run_bus_op o ;; rs <- run_bus_ops l ;; m_ret (r :: rs)
  end.

(** The flat memory: a function from addresses to bytes. *)
Definition flat := Z → option Z.
Definition flat_write (a : Z) (data : list Z) (F : flat) : flat := fun x =>
  if decide (a ≤ x < a + Z.of_nat (length data)) then data !! Z.to_nat (x - a) else F x.
Definition flat_op (o : bus_op) (F : flat) : option (list Z) * flat :=
  match o with
  | BusRead a n => (Some ((fun x => default 0 (F x)) <$> seqZ a n), F)
  | BusWrite a data => (Some data, flat_write a data F)
  end.
Fixpoint flat_ops (l : list bus_op) (F : flat) : list (option (list Z)) * flat :=
  match l with
  | [] => ([], F)
  | o :: l => let r := flat_op o F in let rs := flat_ops l r.2 in (r.1 :: rs.1, rs.2)
  end.

(** The access lies in one of the windows. *)
Definition op_mapped (ws : list addr_space_type) (o : bus_op) : Prop :=
  ∃ i w, ws !! i = Some w ∧ base_addr w ≤ addr (op_payload o) ∧ addr (op_payload o) + len (op_payload o) ≤ end_addr w + 1
    ∧ 0 < len (op_payload o) < 2 ^ 32.

Lemma bus_at_hit ws ms i w c x : (∀ i j w w' x, ws !! i = Some w → ws !! j = Some w' → window_has x w → window_has x w' → i = j) →
  ws !! i = Some w → ms !! i = Some c → window_has x w →
  bus_at ws ms x = Some (b_at (m_bytes (c_dev c)) (x - mem_base c)).
Proof.
  revert ms i. induction ws as [|w0 ws IH]; intros ms i Hdis Hw Hi Hx; [done|]. destruct ms as [|c0 ms]; [done|].
  simpl. unfold window_has in *. destruct i as [|i]; [injection Hi as ->; injection Hw as ->; by rewrite decide_True|].
  rewrite decide_False.
  - apply (IH ms i); [|done..]. intros i' j' w1 w2 y H1 H2 Hy Hy'. pose proof (Hdis (S i') (S j') w1 w2 y H1 H2 Hy Hy'). lia.
  - intros H0. pose proof (Hdis 0%nat (S i) w0 w x eq_refl Hw H0 Hx). lia.
Qed.

Lemma bus_at_update ws ms i w c c' x : ws !! i = Some w → ms !! i = Some c → t_space (c_if c') = t_space (c_if c) →
  ¬ window_has x w → bus_at ws (<[i := c']> ms) x = bus_at ws ms x.
Proof.
  intros Hw Hi Hs Hx. revert ms i Hw Hi. induction ws as [|w0 ws IH]; intros ms i Hw Hi; [done|].
  destruct ms as [|c0 ms]; [done|]. destruct i as [|i]; simpl in *.
  - injection Hi as ->. injection Hw as ->. unfold window_has in Hx. by rewrite !decide_False.
  - by rewrite (IH ms i Hw Hi).
Qed.

Lemma wired_update s ms i c c' wc rc : wired s ms → ms !! i = Some c → memory_ok c' →
  t_space (c_if c') = t_space (c_if c) →
  length wc = length (write_count_out s) → length rc = length (read_count_out s) →
  wired (set_read_count_out rc (set_write_count_out wc s)) (<[i := c']> ms).
Proof.
  intros [Hp Hlen Hw Hwc Hrc Hm Hok Hdis] Hi Hok' Hsp Hlw Hlr.
  assert (∀ j d, <[i := c']> ms !! j = Some d → ∃ d0, ms !! j = Some d0
            ∧ t_space (c_if d) = t_space (c_if d0) ∧ memory_ok d) as Hold.
  { intros j d. destruct (decide (j = i)) as [->|Hne].
    - rewrite list_lookup_insert_eq by (by apply lookup_lt_Some in Hi). intros [= <-]. eauto.
    - rewrite list_lookup_insert_ne by done. intros Hj. eauto. }
  split; simpl; try (rewrite ?length_insert; done || lia).
  - intros j d w Hj Hwj. destruct (Hold j d Hj) as (d0 & Hd0 & Hs0 & _). pose proof (Hw j d0 w Hd0 Hwj) as H0.
    unfold window_of, mem_base, mem_end in *. by rewrite Hs0.
  - intros j d Hj. by destruct (Hold j d Hj) as (_ & _ & _ & ?).
Qed.

(** The window of a memory of a wired bus, and a transaction in it. *)
Lemma wired_window s ms o : wired s ms → op_mapped (output_ports_t s) o →
  ∃ i w c, output_ports_t s !! i = Some w ∧ ms !! i = Some c ∧ window_of i c w ∧ in_memory c (op_payload o)
    ∧ base_addr w ≤ addr (op_payload o) ∧ addr (op_payload o) + len (op_payload o) ≤ end_addr w + 1.
Proof.
  intros Hs (i & w & Hw & Ha & Hl & Hn). assert (is_Some (ms !! i)) as [c Hc].
  { apply lookup_lt_is_Some. rewrite <-(wired_length s ms Hs). by eapply lookup_lt_Some. }
  pose proof (wired_windows s ms Hs i c w Hc Hw) as Hwi. exists i, w, c. split_and!; try done.
  destruct Hwi as (_ & Hb & Hb' & He). unfold mem_base, mem_end in *. unfold in_memory.
  split_and!; [lia..| |]; by destruct o.
Qed.

(** A transaction in the window of a memory reaches that memory. *)
Lemma bus_transport_routed s ms i w c p : wired s ms → output_ports_t s !! i = Some w → ms !! i = Some c →
  base_addr w ≤ addr p → addr p + len p ≤ end_addr w + 1 → 0 < len p →
  ∃ wc rc d, (∀ r c', TargetIf.b_transport p d c = (r, c') →
      b_transport to_memory p None 0 (s, ms)
      = (r, (set_read_count_out rc (set_write_count_out wc s), <[i := c']> ms)))
    ∧ length wc = length (write_count_out s) ∧ length rc = length (read_count_out s).
Proof.
  intros [[Hp Hp1] Hlen Hws Hwc Hrc Hm Hok Hdis] Hw Hi Ha Hl Hn. pose proof (lookup_lt_Some _ _ _ Hi) as Hil.
  destruct (Hok i c Hi) as (Hb & He & _). unfold max64 in He. destruct (Hws i c w Hi Hw) as (Hport & Hbase & Hend).
  unfold mem_base, mem_end in *.
  assert (get_port s (addr p) (len p) = Z.of_nat i) as Hget.
  { rewrite (get_port_hit s _ _ w); try lia.
    - rewrite Hport. apply to_int32_small. lia.
    - intros w1 w2 a (j & Hj)%list_elem_of_lookup (k & Hk)%list_elem_of_lookup H1 H2.
      assert (j = k) as <- by (by eapply (Hdis j k w1 w2 a)). congruence.
    - by apply list_elem_of_lookup_2 with i. }
  destruct (count_access_ok p (Z.of_nat i) s ltac:(lia) Hwc Hrc) as (wc & rc & E & Hlw & Hlr).
  exists wc, rc, (if ENABLE_LATENCY s then 0 + ACCESS_LATENCY s else 0). split_and!; [|done..].
  intros r c' Hr. unfold b_transport. m_exec. cbv zeta. rewrite Hget, bool_decide_false by lia.
  m_exec_by (on_bus_ok _ _ ms _ _ E). unfold m_bind, m_lift, m_ret. rewrite Hm. cbn [initialized].
  rewrite bool_decide_true by lia. unfold on_targets, to_memory. rewrite Nat2Z.id, Hi. by rewrite Hr.
Qed.

(** The byte at an address after one memory has changed. *)
Lemma bus_at_changed s ms i w c c' x : wired s ms → output_ports_t s !! i = Some w → ms !! i = Some c →
  t_space (c_if c') = t_space (c_if c) →
  bus_at (output_ports_t s) (<[i := c']> ms) x
  = if decide (window_has x w) then Some (b_at (m_bytes (c_dev c')) (x - mem_base c)) else bus_at (output_ports_t s) ms x.
Proof.
  intros Hs Hw Hi Hsp. case_decide as Hx; [|by eapply bus_at_update].
  rewrite (bus_at_hit _ _ i w c'); [by unfold mem_base; rewrite Hsp|apply Hs|done| |done].
  by rewrite list_lookup_insert_eq by (by apply lookup_lt_Some in Hi).
Qed.

(** The bytes of a memory are those of the bus. *)
Lemma peek_bus s ms i w c a n : wired s ms → output_ports_t s !! i = Some w → ms !! i = Some c →
  base_addr w ≤ a → a + n ≤ end_addr w + 1 →
  peek (m_bytes (c_dev c)) (a - mem_base c) n = (fun x => default 0 (bus_at (output_ports_t s) ms x)) <$> seqZ a n.
Proof.
  intros Hs Hw Hi Ha Hl. apply list_eq. intros k. unfold peek. rewrite !list_lookup_fmap.
  destruct (decide (Z.of_nat k < n)); [|by rewrite !lookup_seqZ_ge by lia].
  rewrite !lookup_seqZ_lt by done. simpl. f_equal.
  rewrite (bus_at_hit _ ms i w c); [|apply Hs|done..|unfold window_has; lia]. simpl. f_equal. lia.
Qed.

(** What an access leaves: the memory that was reached has the bytes of the flat memory. *)
Definition op_done (o : bus_op) (s : interconnect) (ms : list (component memory)) : Prop :=
  ∃ s' ms', run_bus_op o (s, ms) = (Ok (flat_op o (bus_at (output_ports_t s) ms)).1, (s', ms')) ∧ wired s' ms'
    ∧ output_ports_t s' = output_ports_t s
    ∧ ∀ x, bus_at (output_ports_t s') ms' x = (flat_op o (bus_at (output_ports_t s) ms)).2 x.

Lemma bus_read_flat s ms a n : wired s ms → op_mapped (output_ports_t s) (BusRead a n) → op_done (BusRead a n) s ms.
Proof.
  intros Hs Ho. destruct (wired_window s ms _ Hs Ho) as (i & w & c & Hw & Hi & Hwi & Hin & Ha & Hl).
  pose proof (wired_mems _ _ Hs i c Hi) as Hok. assert (0 < n) as Hn by apply Hin.
  destruct (bus_transport_routed s ms i w c _ Hs Hw Hi Ha Hl Hn) as (wc & rc & d & Hrun & Hlw & Hlr).
  destruct (memory_read_ok c (op_payload (BusRead a n)) d _ Hok Hin eq_refl eq_refl)
    as (c' & E & Hdev & Hsp & Hu); [simpl; rewrite length_replicate; lia|].
  assert (memory_ok c') as Hok' by (unfold memory_ok in *; by rewrite Hsp, Hdev, Hu).
  eexists _, (<[i := c']> ms). split_and!.
  - unfold run_bus_op. m_exec_by (Hrun _ _ E). unfold m_ret. simpl. do 3 f_equal.
    rewrite drop_ge by (rewrite length_replicate; lia). rewrite app_nil_r. by eapply peek_bus.
  - by eapply wired_update.
  - done.
  - intros x. simpl. rewrite (bus_at_changed s ms i w c c' x) by done. rewrite Hdev.
    case_decide; [|done]. by rewrite (bus_at_hit _ ms i w c) by (done || apply Hs).
Qed.

Lemma bus_write_flat s ms a data : wired s ms → op_mapped (output_ports_t s) (BusWrite a data) → op_done (BusWrite a data) s ms.
Proof.
  intros Hs Ho. destruct (wired_window s ms _ Hs Ho) as (i & w & c & Hw & Hi & Hwi & Hin & Ha & Hl).
  pose proof (wired_mems _ _ Hs i c Hi) as Hok. assert (0 < len (op_payload (BusWrite a data))) as Hn by apply Hin.
  destruct (bus_transport_routed s ms i w c _ Hs Hw Hi Ha Hl Hn) as (wc & rc & d & Hrun & Hlw & Hlr).
  destruct (memory_write_ok c (op_payload (BusWrite a data)) d _ Hok Hin eq_refl eq_refl)
    as (c' & E & Hok' & Hsp & _ & Hbytes); [done|].
  eexists _, (<[i := c']> ms). split_and!.
  - unfold run_bus_op. by m_exec_by (Hrun _ _ E).
  - by eapply wired_update.
  - done.
  - intros x. simpl. rewrite (bus_at_changed s ms i w c c' x) by done. unfold flat_write.
    simpl in Ha, Hl. destruct (decide (window_has x w)) as [Hx|Hx].
    2:{ rewrite decide_False by (unfold window_has in *; lia). done. }
    rewrite (bus_at_hit _ ms i w c) by (done || apply Hs). destruct Hbytes as [_ ->]. cbn [op_payload addr len].
    rewrite Nat2Z.id, firstn_all, poke_at. unfold mem_base.
    replace (x - mBaseAddress (t_space (c_if c)) - (a - mBaseAddress (t_space (c_if c)))) with (x - a) by lia.
    destruct (decide (a ≤ x < a + Z.of_nat (length data))); [|by rewrite decide_False by lia].
    rewrite decide_True by lia. symmetry. apply list_lookup_lookup_total_lt. lia.
Qed.

#[global] Instance flat_ops_proper l : Proper (pointwise_relation Z eq ==> eq) (fun F => (flat_ops l F).1).
Proof.
  induction l as [|o l IH]; intros F F' HF; [done|]. simpl.
  assert ((flat_op o F).1 = (flat_op o F').1) as ->.
  { destruct o; [|done]. simpl. f_equal. apply list_fmap_ext. intros ? x _. by rewrite HF. }
  f_equal. apply IH. destruct o; simpl; [done|]. intros x. unfold flat_write. by case_decide.
Qed.

Lemma bus_flat s ms l : wired s ms → Forall (op_mapped (output_ports_t s)) l →
  ∃ s' ms', run_bus_ops l (s, ms) = (Ok (flat_ops l (bus_at (output_ports_t s) ms)).1, (s', ms')) ∧ wired s' ms'
    ∧ output_ports_t s' = output_ports_t s.
Proof.
  revert s ms. induction l as [|o l IH]; intros s ms Hw Hl; [by exists s, ms|].
  apply Forall_cons in Hl as [Ho Hl].
  assert (op_done o s ms) as (s1 & ms1 & E & Hw1 & Hout & Hat)
    by (destruct o; [by apply bus_read_flat|by apply bus_write_flat]).
  destruct (IH s1 ms1 Hw1) as (s2 & ms2 & E2 & Hw2 & Hout2); [by rewrite Hout|].
  exists s2, ms2. split; [|split; [done|congruence]]. cbn [run_bus_ops]. m_exec_by E. m_exec_by E2. simpl.
  by rewrite (flat_ops_proper l _ _ Hat).
Qed.

(** C7: a bus with memories is one memory.  When the bus has one window per memory, inside it
    and disjoint from the others, any sequence of reads and writes that lie in the windows runs
    through the bus without error, and every read returns the bytes that a single flat memory
    would: for each address the byte written last, or the initial one. *)
Theorem bus_is_flat_memory (s : interconnect) (ms : list (component memory)) (l : list bus_op) :
  wired s ms → Forall (op_mapped (output_ports_t s)) l →
  ∃ s' ms', run_bus_ops l (s, ms) = (Ok (flat_ops l (bus_at (output_ports_t s) ms)).1, (s', ms')) ∧ wired s' ms'
    ∧ output_ports_t s' = output_ports_t s.
Proof. apply bus_flat. Qed.

(** Two memories of sixteen bytes. *)
Definition sample_memory (base : Z) : component memory :=
  mkComponent (mkTargetIf (mkAddrSpace base (base + 15)) 1 false true 0 0)
    (mkMemory (mkBytes 16 (fun _ => 0)) false 1 0 0).
Definition sample_bus : interconnect :=
  set_mIsMesh (Some false) (set_output_ports_t [mkWindow 0 15 16 0; mkWindow 32 47 16 1] (new_interconnect 1 2)).

Lemma bus_is_flat_memory_witness :
  ∃ s' ms', run_bus_ops [BusWrite 4 [1; 2]; BusWrite 34 [7]; BusRead 3 4; BusRead 33 2]
      (sample_bus, [sample_memory 0; sample_memory 32])
    = (Ok [Some [1; 2]; Some [7]; Some [0; 1; 2; 0]; Some [0; 7]], (s', ms')).
Proof.
  destruct (bus_is_flat_memory sample_bus [sample_memory 0; sample_memory 32]
    [BusWrite 4 [1; 2]; BusWrite 34 [7]; BusRead 3 4; BusRead 33 2]) as (s' & ms' & E & _).
  - split; try done.
    + intros [|[|i]] c w [= <-] [= <-]; by unfold window_of.
    + intros [|[|i]] c [= <-]; by unfold memory_ok.
    + intros i j w w' x Hi Hj. destruct i as [|[|i]], j as [|[|j]]; simpl in Hi, Hj;
        rewrite ?lookup_nil in *; simplify_eq; unfold window_has; simpl; lia.
  - repeat constructor.
    + by exists 0%nat, (mkWindow 0 15 16 0).
    + by exists 1%nat, (mkWindow 32 47 16 1).
    + by exists 0%nat, (mkWindow 0 15 16 0).
    + by exists 1%nat, (mkWindow 32 47 16 1).
  - exists s', ms'. exact E.
Defined.

(** on a bus with several ports and no default route, a request that lies in no window is
    answered with an exception, for a transport and for a direct-memory request; nothing is
    counted, no target is called, and the bus is unchanged. *)
Theorem bus_unmapped_throws {W R} (out : Z → payload → Z → M W reply) (dmi : Z → payload → R)
    (s : interconnect) (w : W) (p : payload) (src : option Z) (delay : Z) :
  1 < NUM_PORT_OUT s → mDefaultRoute s = -1 → 0 ≤ addr p → 0 < len p → addr p + len p ≤ 2 ^ 64 →
  (∀ win, win ∈ output_ports_t s → ¬ (base_addr win ≤ addr p ∧ addr p + len p - 1 ≤ end_addr win)) →
  b_transport out p src delay (s, w) = (Err (Throw "Not found - try to access the address"), (s, w))
  ∧ get_direct_mem_ptr dmi p s = Err (Throw "Nothing found between ").
Proof.
  intros Hp Hd Ha Hn Hw Hno. pose proof (get_port_miss s (addr p) (len p) Ha Hn Hw Hp Hno) as Hm. split.
  - unfold b_transport. m_exec. cbv zeta. by rewrite Hm, Hd.
  - unfold get_direct_mem_ptr. rewrite (bool_decide_false (len p = 0)) by lia. cbv zeta. by rewrite Hm, Hd.
Qed.

Lemma bus_unmapped_throws_witness :
  ∃ e, b_transport to_memory (mkPayload TLM_READ_COMMAND 64 None 4 false 0 None) None 0
         (sample_bus, [sample_memory 0; sample_memory 32])
       = (Err e, (sample_bus, [sample_memory 0; sample_memory 32])).
Proof.
  destruct (bus_unmapped_throws to_memory (fun _ _ => tt) sample_bus [sample_memory 0; sample_memory 32]
    (mkPayload TLM_READ_COMMAND 64 None 4 false 0 None) None 0) as [E _]; try done.
  - intros w [->|[->|Hw%elem_of_nil]%elem_of_cons]%elem_of_cons; [simpl; lia..|done].
  - eexists. exact E.
Defined.
