(* ===== verification/SyncFifo.v ===== *)
(** * The synchronising FIFO

    [components/connect/include/connect/SyncFifo.hpp]: a channel of [m_size] values kept in a
    ring buffer.  A process sees neither the values written nor the places freed during the
    current delta cycle: [update], which the SystemC kernel calls between two delta cycles
    when a process requested it, makes them visible and notifies the processes that wait.

    The requests to the kernel are part of the state: [update_requested] is set by
    [request_update], [notified] collects the events [update] notifies with zero delay.
    The blocking calls [read] and [write] are loops around a wait; [fifo_step] below is the
    step relation of a producer, a consumer and the delta cycles of the kernel. *)

From S2P Require Import Prelude.

(** ** State *)

Inductive fifo_event := m_data_read_event | m_data_written_event.

#[global] Instance fifo_event_eq_dec : EqDecision fifo_event.
Proof. solve_decision. Defined.

(** The interfaces a port may name when it registers. *)
Inductive fifo_port := sc_fifo_in_if | sc_fifo_blocking_in_if | sc_fifo_out_if
  | sc_fifo_blocking_out_if | other_if.

(** What a blocking call does when it is resumed: it completes, or it waits for an event. *)
Inductive blocking (A : Type) := Done (a : A) | Wait (e : fifo_event).
Arguments Done {A} a.
Arguments Wait {A} e.

Section fifo.
Context {T : Type}.

(** [T()], the value that clears an entry. *)
Context (T0 : T).

Record C_SyncFifo := mkFifo {
  m_size : Z;
  m_buf : list T;
  m_free : Z;
  m_ri : Z;
  m_wi : Z;
  m_reader : option Z;
  m_writer : option Z;
  m_num_readable : Z;
  m_num_read : Z;
  m_num_written : Z;
  update_requested : bool;
  notified : list fifo_event }.

Definition set_m_size v (f : C_SyncFifo) : C_SyncFifo :=
  mkFifo v (m_buf f) (m_free f) (m_ri f) (m_wi f) (m_reader f) (m_writer f) (m_num_readable f)
    (m_num_read f) (m_num_written f) (update_requested f) (notified f).
Definition set_m_buf v (f : C_SyncFifo) : C_SyncFifo :=
  mkFifo (m_size f) v (m_free f) (m_ri f) (m_wi f) (m_reader f) (m_writer f) (m_num_readable f)
    (m_num_read f) (m_num_written f) (update_requested f) (notified f).
Definition set_m_free v (f : C_SyncFifo) : C_SyncFifo :=
  mkFifo (m_size f) (m_buf f) v (m_ri f) (m_wi f) (m_reader f) (m_writer f) (m_num_readable f)
    (m_num_read f) (m_num_written f) (update_requested f) (notified f).
Definition set_m_ri v (f : C_SyncFifo) : C_SyncFifo :=
  mkFifo (m_size f) (m_buf f) (m_free f) v (m_wi f) (m_reader f) (m_writer f) (m_num_readable f)
    (m_num_read f) (m_num_written f) (update_requested f) (notified f).
Definition set_m_wi v (f : C_SyncFifo) : C_SyncFifo :=
  mkFifo (m_size f) (m_buf f) (m_free f) (m_ri f) v (m_reader f) (m_writer f) (m_num_readable f)
    (m_num_read f) (m_num_written f) (update_requested f) (notified f).
Definition set_m_reader v (f : C_SyncFifo) : C_SyncFifo :=
  mkFifo (m_size f) (m_buf f) (m_free f) (m_ri f) (m_wi f) v (m_writer f) (m_num_readable f)
    (m_num_read f) (m_num_written f) (update_requested f) (notified f).
Definition set_m_writer v (f : C_SyncFifo) : C_SyncFifo :=
  mkFifo (m_size f) (m_buf f) (m_free f) (m_ri f) (m_wi f) (m_reader f) v (m_num_readable f)
    (m_num_read f) (m_num_written f) (update_requested f) (notified f).
Definition set_m_num_readable v (f : C_SyncFifo) : C_SyncFifo :=
  mkFifo (m_size f) (m_buf f) (m_free f) (m_ri f) (m_wi f) (m_reader f) (m_writer f) v
    (m_num_read f) (m_num_written f) (update_requested f) (notified f).
Definition set_m_num_read v (f : C_SyncFifo) : C_SyncFifo :=
  mkFifo (m_size f) (m_buf f) (m_free f) (m_ri f) (m_wi f) (m_reader f) (m_writer f)
    (m_num_readable f) v (m_num_written f) (update_requested f) (notified f).
Definition set_m_num_written v (f : C_SyncFifo) : C_SyncFifo :=
  mkFifo (m_size f) (m_buf f) (m_free f) (m_ri f) (m_wi f) (m_reader f) (m_writer f)
    (m_num_readable f) (m_num_read f) v (update_requested f) (notified f).
Definition set_update_requested v (f : C_SyncFifo) : C_SyncFifo :=
  mkFifo (m_size f) (m_buf f) (m_free f) (m_ri f) (m_wi f) (m_reader f) (m_writer f)
    (m_num_readable f) (m_num_read f) (m_num_written f) v (notified f).
Definition set_notified v (f : C_SyncFifo) : C_SyncFifo :=
  mkFifo (m_size f) (m_buf f) (m_free f) (m_ri f) (m_wi f) (m_reader f) (m_writer f)
    (m_num_readable f) (m_num_read f) (m_num_written f) (update_requested f) v.


(** ** Operations *)

(** The members of an object under construction, before [init]. *)
Definition raw_fifo : C_SyncFifo := mkFifo 0 [] 0 0 0 None None 0 0 0 false [].

Definition request_update : M C_SyncFifo unit := m_modify (set_update_requested true).

Definition num_available (f : C_SyncFifo) : Z := m_num_readable f - m_num_read f.
Definition num_free (f : C_SyncFifo) : Z := m_size f - m_num_readable f - m_num_written f.

Definition buf_init (size_ : Z) : M C_SyncFifo unit :=
  (if bool_decide (size_ ≤ 0) then m_throw (Throw "SC_ID_INVALID_FIFO_SIZE_") else m_ret tt) ;;;
  m_modify (set_m_size size_) ;;;
  m_modify (set_m_buf (replicate (Z.to_nat size_) T0)) ;;;
  m_modify (set_m_free size_) ;;;
  m_modify (set_m_ri 0) ;;;
  m_modify (set_m_wi 0).

Definition init (size_ : Z) : M C_SyncFifo unit :=
  buf_init size_ ;;;
  m_modify (set_m_reader None) ;;;
  m_modify (set_m_writer None) ;;;
  m_modify (set_m_num_readable 0) ;;;
  m_modify (set_m_num_read 0) ;;;
  m_modify (set_m_num_written 0).

Definition buf_write (val_ : T) : M C_SyncFifo bool :=
  f <- m_get ;;
  if bool_decide (m_free f = 0) then m_ret false else
  b <- m_lift (vec_set (m_buf f) (m_wi f) val_) ;;
  m_modify (set_m_buf b) ;;;
  m_modify (set_m_wi ((m_wi f + 1) mod m_size f)) ;;;
  m_modify (set_m_free (m_free f - 1)) ;;;
  m_ret true.

(** The output argument [val_] is passed in and returned. *)
Definition buf_read (val_ : T) : M C_SyncFifo (bool * T) :=
  f <- m_get ;;
  if bool_decide (m_free f = m_size f) then m_ret (false, val_) else
  x <- m_lift (vec_get (m_buf f) (m_ri f)) ;;
  b <- m_lift (vec_set (m_buf f) (m_ri f) T0) ;;
  m_modify (set_m_buf b) ;;;
  m_modify (set_m_ri ((m_ri f + 1) mod m_size f)) ;;;
  m_modify (set_m_free (m_free f + 1)) ;;;
  m_ret (true, x).

Definition nb_read (val_ : T) : M C_SyncFifo (bool * T) :=
  f <- m_get ;;
  if bool_decide (num_available f = 0) then m_ret (false, val_) else
  m_modify (set_m_num_read (m_num_read f + 1)) ;;;
  r <- buf_read val_ ;;
  request_update ;;;
  m_ret (true, r.2).

Definition nb_write (val_ : T) : M C_SyncFifo bool :=
  f <- m_get ;;
  if bool_decide (num_free f = 0) then m_ret false else
  m_modify (set_m_num_written (m_num_written f + 1)) ;;;
  buf_write val_ ;;;
  request_update ;;;
  m_ret true.

(** [read] and [write] from the head of their waiting loop: the test of the loop, then the
    rest of the call or the wait after which the test is made again. *)
Definition read : M C_SyncFifo (blocking T) :=
  f <- m_get ;;
  if bool_decide (num_available f = 0) then m_ret (Wait m_data_written_event) else
  m_modify (set_m_num_read (m_num_read f + 1)) ;;;
  r <- buf_read T0 ;;
  request_update ;;;
  m_ret (Done r.2).

Definition write (val_ : T) : M C_SyncFifo (blocking unit) :=
  f <- m_get ;;
  if bool_decide (num_free f = 0) then m_ret (Wait m_data_read_event) else
  m_modify (set_m_num_written (m_num_written f + 1)) ;;;
  buf_write val_ ;;;
  request_update ;;;
  m_ret (Done tt).

Definition notify (e : fifo_event) : M C_SyncFifo unit :=
  m_modify (fun f => set_notified (notified f ++ [e]) f).

Definition update : M C_SyncFifo unit :=
  f <- m_get ;;
  m_when (bool_decide (m_num_read f > 0)) (notify m_data_read_event) ;;;
  m_when (bool_decide (m_num_written f > 0)) (notify m_data_written_event) ;;;
  m_modify (set_m_num_readable (m_size f - m_free f)) ;;;
  m_modify (set_m_num_read 0) ;;;
  m_modify (set_m_num_written 0).

(** One reader and one writer may be connected. *)
Definition register_port (port_ : Z) (if_typename_ : fifo_port) : M C_SyncFifo unit :=
  match if_typename_ with
  | sc_fifo_in_if | sc_fifo_blocking_in_if =>
      f <- m_get ;;
      (if m_reader f is Some _ then m_throw (Throw "SC_ID_MORE_THAN_ONE_FIFO_READER_") else m_ret tt) ;;;
      m_modify (set_m_reader (Some port_))
  | sc_fifo_out_if | sc_fifo_blocking_out_if =>
      f <- m_get ;;
      (if m_writer f is Some _ then m_throw (Throw "SC_ID_MORE_THAN_ONE_FIFO_WRITER_") else m_ret tt) ;;;
      m_modify (set_m_writer (Some port_))
  | other_if => m_throw (Throw "SC_ID_BIND_IF_TO_PORT_")
  end.

(** The do-while loop of [print]: the entries it writes, from index [i]. *)
Fixpoint print_loop (fuel : nat) (f : C_SyncFifo) (i : Z) : result (list T) :=
  match fuel with
  | O => Err OutOfFuel
  | Datatypes.S fuel =>
      result_bind (vec_get (m_buf f) i) (fun x =>
      let i := (i + 1) mod m_size f in
      if bool_decide (i = m_wi f) then Ok [x]
      else result_bind (print_loop fuel f i) (fun l => Ok (x :: l)))
  end.

Definition print (f : C_SyncFifo) : result (list T) :=
  if bool_decide (m_free f ≠ m_size f) then print_loop (Z.to_nat (m_size f)) f (m_ri f) else Ok [].

Definition new_fifo (size_ : Z) : result unit * C_SyncFifo := init size_ raw_fifo.

(** ** The abstract channel

    The values visible to the reader, those written in the current delta cycle, and the
    number of values read in it. *)

Record chan := mkChan { visible : list T; pending : list T; consumed : nat }.

Definition chan_empty : chan := mkChan [] [] 0.
Definition chan_read (c : chan) : option (T * chan) :=
  match visible c with
  | [] => None
  | x :: l => Some (x, mkChan l (pending c) (Datatypes.S (consumed c)))
  end.
Definition chan_write (size : nat) (x : T) (c : chan) : option chan :=
  if decide (consumed c + length (visible c) + length (pending c) < size)%nat
  then Some (mkChan (visible c) (pending c ++ [x]) (consumed c)) else None.
Definition chan_update (c : chan) : chan := mkChan (visible c ++ pending c) [] 0.

(** The ring buffer holds the list [q], from [m_ri] on. *)
Record ring (f : C_SyncFifo) (q : list T) : Prop := mkRing {
  ring_pos : 0 < m_size f;
  ring_len : Z.of_nat (length (m_buf f)) = m_size f;
  ring_ri : 0 ≤ m_ri f < m_size f;
  ring_free : m_free f = m_size f - Z.of_nat (length q);
  ring_bound : Z.of_nat (length q) ≤ m_size f;
  ring_wi : m_wi f = (m_ri f + Z.of_nat (length q)) mod m_size f;
  ring_elems : ∀ i x, q !! i = Some x →
    m_buf f !! Z.to_nat ((m_ri f + Z.of_nat i) mod m_size f) = Some x }.

(** A FIFO implements a channel: the buffer holds its values, the counters count them. *)
Record implements (f : C_SyncFifo) (c : chan) : Prop := mkImpl {
  impl_ring : ring f (visible c ++ pending c);
  impl_readable : m_num_readable f = Z.of_nat (consumed c + length (visible c));
  impl_read : m_num_read f = Z.of_nat (consumed c);
  impl_written : m_num_written f = Z.of_nat (length (pending c));
  impl_room : m_num_readable f + m_num_written f ≤ m_size f }.

(** ** The ring buffer is a queue *)

Lemma ring_index a n m : 0 < n → 0 ≤ a < n → 0 ≤ m ≤ n →
  (a + m) mod n = if decide (a + m < n) then a + m else a + m - n.
Proof.
  intros Hn Ha Hm. case_decide; [apply Z.mod_small; lia|].
  rewrite <- (Z.mod_unique (a + m) n 1 (a + m - n)); lia.
Qed.

Lemma ring_write f q v :
  ring f q → Z.of_nat (length q) < m_size f →
  ∃ b, buf_write v f = (Ok true,
         set_m_free (m_free f - 1) (set_m_wi ((m_wi f + 1) mod m_size f) (set_m_buf b f)))
     ∧ ring (set_m_free (m_free f - 1) (set_m_wi ((m_wi f + 1) mod m_size f) (set_m_buf b f)))
         (q ++ [v]).
Proof.
  intros [Hp Hl Hr Hf Hb Hw He] Hlt.
  pose proof (ring_index (m_ri f) (m_size f) (Z.of_nat (length q)) Hp Hr ltac:(lia)) as Hi.
  assert (0 ≤ m_wi f < m_size f) by (rewrite Hw, Hi; case_decide; lia).
  exists (<[Z.to_nat (m_wi f) := v]> (m_buf f)). split.
  - unfold buf_write, m_bind, m_get, m_modify, m_lift. cbv beta iota zeta.
    rewrite bool_decide_false by lia. unfold vec_set. by rewrite decide_True by lia.
  - split; simpl; rewrite ?length_insert, ?length_app; simpl; try lia.
    + rewrite Hw, Zplus_mod_idemp_l. f_equal. lia.
    + intros i x Hx. pose proof (lookup_lt_Some _ _ _ Hx) as Hlt'.
      rewrite length_app in Hlt'. simpl in Hlt'.
      pose proof (ring_index (m_ri f) (m_size f) (Z.of_nat i) Hp Hr ltac:(lia)) as Hj.
      destruct (decide (i = length q)) as [->|Hne].
      * rewrite <- Hw, list_lookup_insert_eq by lia. by rewrite lookup_app_r, Nat.sub_diag in Hx.
      * rewrite list_lookup_insert_ne.
        { apply He. rewrite lookup_app_l in Hx by lia. done. }
        rewrite Hw, Hi, Hj. repeat case_decide; lia.
Qed.

Lemma ring_read f x q w :
  ring f (x :: q) →
  ∃ b, buf_read w f = (Ok (true, x),
         set_m_free (m_free f + 1) (set_m_ri ((m_ri f + 1) mod m_size f) (set_m_buf b f)))
     ∧ ring (set_m_free (m_free f + 1) (set_m_ri ((m_ri f + 1) mod m_size f) (set_m_buf b f))) q.
Proof.
  intros [Hp Hl Hr Hf Hb Hw He]. simpl length in *.
  pose proof (He 0%nat x eq_refl) as H0. rewrite Z.add_0_r, Z.mod_small in H0 by lia.
  exists (<[Z.to_nat (m_ri f) := T0]> (m_buf f)). split.
  - unfold buf_read, m_bind, m_get, m_modify, m_lift. cbv beta iota zeta.
    rewrite bool_decide_false by lia. rewrite (vec_get_Some _ _ _ (proj1 Hr) H0).
    unfold vec_set. by rewrite decide_True by lia.
  - split; simpl; rewrite ?length_insert; try lia.
    + apply Z.mod_pos_bound. lia.
    + rewrite Zplus_mod_idemp_l, Hw. f_equal. lia.
    + intros i y Hy. pose proof (lookup_lt_Some _ _ _ Hy).
      rewrite Zplus_mod_idemp_l. replace (m_ri f + 1 + Z.of_nat i) with (m_ri f + Z.of_nat (Datatypes.S i)) by lia.
      rewrite list_lookup_insert_ne by
        (rewrite (ring_index (m_ri f) (m_size f)) by lia; case_decide; lia).
      by apply He.
Qed.

(** ** The FIFO implements the channel *)

Lemma new_fifo_implements size : 0 < size →
  ∃ f, new_fifo size = (Ok tt, f) ∧ implements f chan_empty ∧ m_size f = size
     ∧ update_requested f = false ∧ notified f = [].
Proof.
  intros Hs. unfold new_fifo, init, buf_init. rewrite bool_decide_false by lia.
  eexists. split; [reflexivity|]. split; [|done].
  split; simpl; try lia. split; simpl; try done; rewrite ?length_replicate; try lia.
Qed.

Lemma num_available_impl f c : implements f c → num_available f = Z.of_nat (length (visible c)).
Proof. intros [_ Ha Hr _ _]. unfold num_available. lia. Qed.

Lemma num_free_impl f c : implements f c →
  num_free f = m_size f - Z.of_nat (consumed c + length (visible c) + length (pending c)).
Proof. intros [_ Ha _ Hw _]. unfold num_free. lia. Qed.

(** What every successful read does, whatever the output argument held. *)
Lemma take_impl {A} f c x l w (k : T → A) :
  implements f c → visible c = x :: l →
  ∃ f', (m_modify (set_m_num_read (m_num_read f + 1)) ;;;
         r <- buf_read w ;; request_update ;;; m_ret (k r.2)) f = (Ok (k x), f')
    ∧ implements f' (mkChan l (pending c) (Datatypes.S (consumed c)))
    ∧ update_requested f' = true ∧ notified f' = notified f ∧ m_size f' = m_size f.
Proof.
  intros [Hring Ha Hr Hw Hroom] Hv. rewrite Hv in *. simpl length in *.
  assert (ring (set_m_num_read (m_num_read f + 1) f) (x :: l ++ pending c)) as Hring'
    by (destruct Hring; by split).
  destruct (ring_read _ _ _ w Hring') as (b & Hb & Hb').
  unfold m_bind at 1, m_modify at 1. unfold m_bind at 1. rewrite Hb. eexists. split; [reflexivity|].
  split; [|done]. destruct Hb'; split; [by split|..]; simpl in *; lia.
Qed.

Lemma put_impl {A} f c v (a : A) :
  implements f c → (consumed c + length (visible c) + length (pending c) < Z.to_nat (m_size f))%nat →
  ∃ f', (m_modify (set_m_num_written (m_num_written f + 1)) ;;;
         buf_write v ;;; request_update ;;; m_ret a) f = (Ok a, f')
    ∧ implements f' (mkChan (visible c) (pending c ++ [v]) (consumed c))
    ∧ update_requested f' = true ∧ notified f' = notified f ∧ m_size f' = m_size f.
Proof.
  intros [Hring Ha Hr Hw Hroom] Hlt.
  assert (ring (set_m_num_written (m_num_written f + 1) f) (visible c ++ pending c)) as Hring'
    by (destruct Hring; by split).
  destruct (ring_write _ _ v Hring') as (b & Hb & Hb'); [simpl; rewrite length_app; lia|].
  unfold m_bind at 1, m_modify at 1. unfold m_bind at 1. rewrite Hb. eexists. split; [reflexivity|].
  split; [|done]. rewrite <- app_assoc in Hb'.
  destruct Hb'; split; [by split|..]; simpl in *; rewrite ?length_app; simpl; lia.
Qed.

Lemma update_impl f c : implements f c →
  ∃ f', update f = (Ok tt, f') ∧ implements f' (chan_update c) ∧ m_size f' = m_size f
    ∧ update_requested f' = update_requested f
    ∧ notified f' = notified f ++ (if decide (consumed c = 0%nat) then [] else [m_data_read_event])
                     ++ (if decide (pending c = []) then [] else [m_data_written_event]).
Proof.
  intros [Hring Ha Hr Hw Hroom].
  assert (∃ n, update f = (Ok tt, set_m_num_written 0 (set_m_num_read 0 (set_m_num_readable
            (m_size f - m_free f) (set_notified n f))))
          ∧ n = notified f ++ (if decide (consumed c = 0%nat) then [] else [m_data_read_event])
                     ++ (if decide (pending c = []) then [] else [m_data_written_event]))
    as (n & -> & ->).
  { unfold update, m_bind, m_get, m_when. rewrite Hr, Hw.
    destruct f, (decide (consumed c = 0%nat)) as [->|], (decide (pending c = [])) as [->|Hp];
      rewrite ?(bool_decide_true (Z.of_nat (consumed c) > 0)) by lia;
      rewrite ?(bool_decide_true (Z.of_nat (length (pending c)) > 0))
        by (destruct (pending c); simpl in *; [done|lia]);
      eexists; (split; [reflexivity|]); simpl; by rewrite ?app_nil_r, <- ?app_assoc. }
  eexists. split; [reflexivity|]. split; [|done]. destruct Hring as [? ? ? Hf ? ? ?].
  rewrite length_app in *. split; simpl; rewrite ?app_nil_r, ?length_app; try lia. by split; rewrite ?length_app.
Qed.

(** ** Sequences of calls *)

Inductive fifo_op := OpRead | OpWrite (x : T) | OpUpdate.
Inductive fifo_out := OutRead (x : option T) | OutWrite (b : bool) | OutUpdate.

Definition run_op (o : fifo_op) : M C_SyncFifo fifo_out :=
  match o with
  | OpRead => r <- nb_read T0 ;; m_ret (OutRead (if r.1 then Some r.2 else None))
  | OpWrite x => b <- nb_write x ;; m_ret (OutWrite b)
  | OpUpdate => update ;;; m_ret OutUpdate
  end.

Fixpoint run_ops (l : list fifo_op) : M C_SyncFifo (list fifo_out) :=
  match l with
  | [] => m_ret []
  | o :: l => r <- run_op o ;; rs <- run_ops l ;; m_ret (r :: rs)
  end.

Definition chan_op (size : nat) (o : fifo_op) (c : chan) : fifo_out * chan :=
  match o with
  | OpRead => match chan_read c with
              | Some (x, c') => (OutRead (Some x), c')
              | None => (OutRead None, c)
              end
  | OpWrite x => match chan_write size x c with
                 | Some c' => (OutWrite true, c')
                 | None => (OutWrite false, c)
                 end
  | OpUpdate => (OutUpdate, chan_update c)
  end.

Fixpoint chan_ops (size : nat) (l : list fifo_op) (c : chan) : list fifo_out * chan :=
  match l with
  | [] => ([], c)
  | o :: l => let r := chan_op size o c in
              let rs := chan_ops size l r.2 in (r.1 :: rs.1, rs.2)
  end.

Lemma run_op_impl f c o : implements f c →
  ∃ f', run_op o f = (Ok (chan_op (Z.to_nat (m_size f)) o c).1, f')
    ∧ implements f' (chan_op (Z.to_nat (m_size f)) o c).2 ∧ m_size f' = m_size f.
Proof.
  intros Hi. pose proof (ring_pos _ _ (impl_ring _ _ Hi)) as Hpos. destruct o as [|x|]; simpl.
  - pose proof (num_available_impl f c Hi) as Hn. unfold nb_read, chan_read.
    unfold m_bind at 1 2, m_get. destruct (visible c) as [|x l] eqn:Hv; simpl in Hn.
    + rewrite bool_decide_true by lia. by exists f.
    + rewrite bool_decide_false by lia.
      destruct (take_impl f c x l T0 (pair true) Hi Hv) as (f' & -> & Hi' & _ & _ & Hs). by exists f'.
  - pose proof (num_free_impl f c Hi) as Hn. pose proof (impl_room _ _ Hi) as Hroom.
    rewrite (impl_readable _ _ Hi), (impl_written _ _ Hi) in Hroom.
    unfold nb_write, chan_write, m_bind at 1 2, m_get. case_decide.
    + rewrite bool_decide_false by lia.
      destruct (put_impl f c x true Hi ltac:(done)) as (f' & -> & Hi' & _ & _ & Hs). by exists f'.
    + rewrite bool_decide_true by lia. by exists f.
  - destruct (update_impl f c Hi) as (f' & Hu & Hi' & Hs & _). unfold m_bind at 1. rewrite Hu. by exists f'.
Qed.

Lemma run_ops_impl l : ∀ f c, implements f c →
  ∃ f', run_ops l f = (Ok (chan_ops (Z.to_nat (m_size f)) l c).1, f')
    ∧ implements f' (chan_ops (Z.to_nat (m_size f)) l c).2 ∧ m_size f' = m_size f.
Proof.
  induction l as [|o l IH]; intros f c Hi; simpl; [by exists f|].
  destruct (run_op_impl f c o Hi) as (f1 & Ho & Hi1 & Hs1).
  destruct (IH f1 _ Hi1) as (f2 & Hl & Hi2 & Hs2). rewrite Hs1 in *.
  exists f2. unfold m_bind. rewrite Ho, Hl. done.
Qed.

(** C8: any sequence of non-blocking reads, non-blocking writes and updates on a FIFO of
    positive size runs without error and answers what the abstract channel answers: values come
    out in the order they went in, a value becomes readable with the update that follows its
    write, a place becomes free with the update that follows its read, and a refused call
    changes nothing; the FIFO left behind still implements the channel. *)
Theorem fifo_refines_channel (size : Z) (l : list fifo_op) :
  0 < size →
  ∃ f', run_ops l (new_fifo size).2 = (Ok (chan_ops (Z.to_nat size) l chan_empty).1, f')
    ∧ implements f' (chan_ops (Z.to_nat size) l chan_empty).2.
Proof.
  intros Hs. destruct (new_fifo_implements size Hs) as (f & -> & Hi & <- & _).
  destruct (run_ops_impl l f _ Hi) as (f' & Hr & Hi' & _). by exists f'.
Qed.


(** ** Errors, printing *)

(** a FIFO whose size is not positive is refused when it is built, a second reader or writer
    port and a port of another interface are refused when they register, and the ports already
    registered are kept. *)
Theorem fifo_refusals (size : Z) (f : C_SyncFifo) (p : Z) :
  (size ≤ 0 → (new_fifo size).1 = Err (Throw "SC_ID_INVALID_FIFO_SIZE_"))
  ∧ (is_Some (m_reader f) →
       register_port p sc_fifo_in_if f = (Err (Throw "SC_ID_MORE_THAN_ONE_FIFO_READER_"), f)
       ∧ register_port p sc_fifo_blocking_in_if f
         = (Err (Throw "SC_ID_MORE_THAN_ONE_FIFO_READER_"), f))
  ∧ (is_Some (m_writer f) →
       register_port p sc_fifo_out_if f = (Err (Throw "SC_ID_MORE_THAN_ONE_FIFO_WRITER_"), f)
       ∧ register_port p sc_fifo_blocking_out_if f
         = (Err (Throw "SC_ID_MORE_THAN_ONE_FIFO_WRITER_"), f))
  ∧ register_port p other_if f = (Err (Throw "SC_ID_BIND_IF_TO_PORT_"), f).
Proof.
  split_and!.
  - intros Hs. unfold new_fifo, init, buf_init. by rewrite bool_decide_true.
  - intros [r Hr]. unfold register_port, m_bind, m_get. by rewrite Hr.
  - intros [r Hr]. unfold register_port, m_bind, m_get. by rewrite Hr.
  - done.
Qed.

Lemma print_loop_ring f q k fuel :
  ring f q → (k < length q)%nat → (length q - k ≤ fuel)%nat →
  print_loop fuel f ((m_ri f + Z.of_nat k) mod m_size f) = Ok (drop k q).
Proof.
  intros [Hp Hl Hr Hf Hb Hw He]. revert k. induction fuel as [|fuel IH]; intros k Hk Hfuel; [lia|].
  destruct (lookup_lt_is_Some_2 q k Hk) as [x Hx]. cbn [print_loop].
  rewrite (vec_get_Some _ _ _ (proj1 (Z.mod_pos_bound _ _ Hp)) (He k x Hx)). cbn [result_bind].
  cbv zeta. rewrite Zplus_mod_idemp_l.
  replace (m_ri f + Z.of_nat k + 1) with (m_ri f + Z.of_nat (Datatypes.S k)) by lia.
  rewrite (drop_S _ _ _ Hx). destruct (decide (Datatypes.S k = length q)) as [Heq|Hne].
  - rewrite bool_decide_true by (by rewrite Hw, Heq). by rewrite Heq, drop_ge by lia.
  - rewrite bool_decide_false; [by rewrite IH by lia|]. rewrite Hw.
    rewrite !ring_index by lia. repeat case_decide; lia.
Qed.

(** The loop of [print] ends and writes exactly the stored values, oldest first, also when the
    buffer is full and the two indices are equal. *)
Lemma print_contents f c : implements f c → print f = Ok (visible c ++ pending c).
Proof.
  intros [Hring _ _ _ _]. unfold print. pose proof Hring as [Hp _ Hr Hf Hb _ _].
  destruct (visible c ++ pending c) as [|x q]; simpl length in *.
  - rewrite bool_decide_false; [done|]. lia.
  - rewrite bool_decide_true by lia.
    rewrite <- (Z.mod_small (m_ri f) (m_size f)) at 1 by done. rewrite <- (Z.add_0_r (m_ri f)) at 1.
    apply (print_loop_ring f (x :: q) 0); simpl; [done|lia|lia].
Qed.

(** ** A producer and a consumer

    The producer writes a list of values with blocking writes, the consumer makes as many
    blocking reads.  A process that is not waiting may run in any order; when none can run and
    an update is requested, the kernel runs [update] and resumes the processes that wait for an
    event it notified. *)

Record system := mkSystem {
  channel : C_SyncFifo;
  to_write : list T;
  writer_waits : bool;
  to_read : nat;
  reader_waits : bool;
  received : list T }.

Inductive fifo_step : system → system → Prop :=
  | producer_writes f f' v vs n rw got :
      write v f = (Ok (Done tt), f') →
      fifo_step (mkSystem f (v :: vs) false n rw got) (mkSystem f' vs false n rw got)
  | producer_waits f f' v vs n rw got :
      write v f = (Ok (Wait m_data_read_event), f') →
      fifo_step (mkSystem f (v :: vs) false n rw got) (mkSystem f' (v :: vs) true n rw got)
  | consumer_reads f f' x vs ww n got :
      read f = (Ok (Done x), f') →
      fifo_step (mkSystem f vs ww (Datatypes.S n) false got) (mkSystem f' vs ww n false (got ++ [x]))
  | consumer_waits f f' vs ww n got :
      read f = (Ok (Wait m_data_written_event), f') →
      fifo_step (mkSystem f vs ww (Datatypes.S n) false got)
                (mkSystem f' vs ww (Datatypes.S n) true got)
  | delta_cycle f f' vs ww n rw got :
      (ww = true ∨ vs = []) → (rw = true ∨ n = 0%nat) →
      update_requested f = true → update (set_update_requested false f) = (Ok tt, f') →
      fifo_step (mkSystem f vs ww n rw got)
        (mkSystem (set_notified [] f') vs
           (ww && negb (bool_decide (m_data_read_event ∈ notified f'))) n
           (rw && negb (bool_decide (m_data_written_event ∈ notified f'))) got).

Definition start (size : Z) (vs : list T) : system :=
  mkSystem (new_fifo size).2 vs false (length vs) false [].

(** The invariant: nothing is lost or reordered, and a process waits only while its call would
    still wait. *)
Record sys_inv (vs : list T) (s : system) : Prop := mkSysInv {
  si_chan : ∃ c, implements (channel s) c
              ∧ received s ++ visible c ++ pending c ++ to_write s = vs
              ∧ to_read s = length (visible c ++ pending c ++ to_write s)
              ∧ (update_requested (channel s) = false → consumed c = 0%nat ∧ pending c = []);
  si_writer : writer_waits s = true → num_free (channel s) = 0 ∧ to_write s ≠ [];
  si_reader : reader_waits s = true → num_available (channel s) = 0 ∧ to_read s ≠ 0%nat;
  si_notified : notified (channel s) = [] }.

(** What remains to be done; every step lowers it. *)
Definition effort (s : system) : nat :=
  (4 * length (to_write s) + 4 * to_read s
   + (if update_requested (channel s) then 3 else 0)
   + (if writer_waits s then 0 else 1) + (if reader_waits s then 0 else 1))%nat.

Lemma write_impl f c v : implements f c →
  (num_free f = 0 ∧ write v f = (Ok (Wait m_data_read_event), f))
  ∨ (∃ f', write v f = (Ok (Done tt), f')
       ∧ implements f' (mkChan (visible c) (pending c ++ [v]) (consumed c))
       ∧ update_requested f' = true ∧ notified f' = notified f ∧ num_available f' = num_available f).
Proof.
  intros Hi. pose proof (impl_room _ _ Hi) as Hroom. pose proof (num_free_impl f c Hi) as Hn.
  rewrite (impl_readable _ _ Hi), (impl_written _ _ Hi) in Hroom.
  unfold write, m_bind at 1 5, m_get. destruct (decide (num_free f = 0)).
  - left. by rewrite bool_decide_true.
  - right. rewrite bool_decide_false by done.
    destruct (put_impl f c v (Done tt) Hi ltac:(lia)) as (f' & -> & Hi' & ? & ? & ?).
    exists f'. by rewrite (num_available_impl _ _ Hi), (num_available_impl _ _ Hi').
Qed.

Lemma read_impl f c : implements f c →
  (num_available f = 0 ∧ read f = (Ok (Wait m_data_written_event), f))
  ∨ (∃ f' x l, visible c = x :: l ∧ read f = (Ok (Done x), f')
       ∧ implements f' (mkChan l (pending c) (Datatypes.S (consumed c)))
       ∧ update_requested f' = true ∧ notified f' = notified f ∧ num_free f' = num_free f).
Proof.
  intros Hi. pose proof (num_available_impl f c Hi) as Hn.
  unfold read, m_bind at 1 5, m_get. destruct (visible c) as [|x l] eqn:Hv; simpl in Hn.
  - left. by rewrite bool_decide_true.
  - right. rewrite bool_decide_false by lia.
    destruct (take_impl f c x l T0 Done Hi Hv) as (f' & -> & Hi' & ? & ? & Hs).
    exists f', x, l. split_and!; try done.
    rewrite (num_free_impl _ _ Hi), (num_free_impl _ _ Hi'), Hv, Hs. simpl. lia.
Qed.

Lemma implements_flags f c b n : implements f c →
  implements (set_notified n f) c ∧ implements (set_update_requested b f) c.
Proof. intros [[] ? ? ? ?]. split; (split; [by split|done..]). Qed.

Lemma start_inv size vs : 0 < size → sys_inv vs (start size vs).
Proof.
  intros Hs. unfold start. destruct (new_fifo_implements size Hs) as (f & -> & Hi & _ & _ & Hn).
  split; try done. by exists chan_empty.
Qed.

Lemma step_inv vs s s' : sys_inv vs s → fifo_step s s' → sys_inv vs s'.
Proof.
  intros [(c & Hi & Hvs & Hn & Hreq) Hw Hr Hnot] Hstep. destruct Hstep as
    [f f' v l n rw got E|f f' v l n rw got E|f f' x l ww n got E|f f' l ww n got E
    |f f' l ww n rw got _ _ Hu E]; simpl in *.
  - destruct (write_impl f c v Hi) as [[_ E']|(f1 & E' & Hi' & Hu & Hn' & Ha)]; rewrite E' in E;
      simplify_eq. split; simpl; try done.
    + eexists. split; [exact Hi'|]. simpl. rewrite <- app_assoc. split_and!; [done|done|congruence].
    + by rewrite Ha.
    + congruence.
  - destruct (write_impl f c v Hi) as [[H0 E']|(f1 & E' & _)]; rewrite E' in E; simplify_eq.
    split; simpl; try done. by exists c.
  - destruct (read_impl f c Hi) as [[_ E']|(f1 & y & k & Hv & E' & Hi' & Hu & Hn' & Ha)];
      rewrite E' in E; simplify_eq. split; simpl; try done.
    + eexists. split; [exact Hi'|]. simpl. rewrite Hv in *. rewrite <- app_assoc. simpl in *.
      split_and!; [done|congruence|congruence].
    + by rewrite Ha.
    + congruence.
  - destruct (read_impl f c Hi) as [[H0 E']|(f1 & y & k & _ & E' & _)]; rewrite E' in E; simplify_eq.
    split; simpl; try done. by exists c.
  - destruct (update_impl _ _ (proj2 (implements_flags f c false [] Hi)))
      as (f1 & E' & Hi' & Hs & Hu' & Hnot'). rewrite E' in E. simplify_eq.
    pose proof (proj1 (implements_flags f' _ false [] Hi')) as Hi2. rewrite Hnot' in *. simpl in *.
    rewrite Hnot in *. split; simpl; try done.
    + eexists. split; [exact Hi2|]. simpl. rewrite <- !app_assoc. done.
    + intros [Hww Hne]%andb_true_iff. apply negb_true_iff, bool_decide_eq_false in Hne.
      destruct (Hw Hww) as [H0 ?]. split; [|done].
      rewrite (num_free_impl _ _ Hi2). rewrite (num_free_impl _ _ Hi) in H0. simpl in *.
      rewrite Hs, length_app. case_decide; [lia|]. clear -Hne. set_solver.
    + intros [Hrw Hne]%andb_true_iff. apply negb_true_iff, bool_decide_eq_false in Hne.
      destruct (Hr Hrw) as [H0 ?]. split; [|done].
      rewrite (num_available_impl _ _ Hi2). rewrite (num_available_impl _ _ Hi) in H0. simpl in *.
      rewrite length_app. destruct (decide (pending c = [])) as [->|]; [simpl; lia|]. clear -Hne. set_solver.
Qed.

Lemma step_effort vs s s' : sys_inv vs s → fifo_step s s' → (effort s' < effort s)%nat.
Proof.
  intros [(c & Hi & _) _ _ Hnot] Hstep. destruct Hstep as
    [f f' v l n rw got E|f f' v l n rw got E|f f' x l ww n got E|f f' l ww n got E
    |f f' l ww n rw got _ _ Hu E]; unfold effort; simpl in *.
  - destruct (update_requested f), (update_requested f'), rw; lia.
  - destruct (write_impl f c v Hi) as [[H0 E']|(f1 & E' & _)]; rewrite E' in E; simplify_eq.
    destruct (update_requested f'), rw; lia.
  - destruct (update_requested f), (update_requested f'), ww; lia.
  - destruct (read_impl f c Hi) as [[H0 E']|(f1 & y & k & _ & E' & _)]; rewrite E' in E; simplify_eq.
    destruct (update_requested f'), ww; lia.
  - destruct (update_impl _ _ (proj2 (implements_flags f c false [] Hi)))
      as (f1 & E' & _ & _ & Hu' & _). rewrite E' in E. simplify_eq. rewrite Hu, Hu'. simpl.
    repeat case_match; lia.
Qed.

Lemma sys_progress vs s : sys_inv vs s → red fifo_step s ∨ received s = vs ∧ to_write s = [].
Proof.
  intros [(c & Hi & Hvs & Hn & Hreq) Hw Hr Hnot]. destruct s as [f l ww n rw got]; simpl in *.
  destruct (decide (ww = false ∧ l ≠ [])) as [[-> Hl]|Hl].
  { destruct l as [|v l]; [done|]. left.
    destruct (write_impl f c v Hi) as [[_ E]|(f' & E & _)]; eexists; by econstructor. }
  destruct (decide (rw = false ∧ n ≠ 0%nat)) as [[-> Hn0]|Hn0].
  { destruct n as [|n]; [done|]. left.
    destruct (read_impl f c Hi) as [[_ E]|(f' & x & k & _ & E & _)]; eexists; by econstructor. }
  assert (ww = true ∨ l = []) as Hww by (clear -Hl; destruct ww, l; naive_solver).
  assert (rw = true ∨ n = 0%nat) as Hrw by (clear -Hn0; destruct rw, n; naive_solver).
  destruct (update_requested f) eqn:Hu.
  { left. destruct (update_impl _ _ (proj2 (implements_flags f c false [] Hi))) as (f' & E & _).
    eexists. by econstructor. }
  right. destruct (Hreq eq_refl) as [Hc Hp]. rewrite Hp in *. simpl in *.
  pose proof (ring_pos _ _ (impl_ring _ _ Hi)).
  pose proof (num_available_impl _ _ Hi) as Ha. pose proof (num_free_impl _ _ Hi) as Hf.
  rewrite Hp, Hc in Hf. simpl in Hf. rewrite length_app in Hn.
  destruct Hww as [-> | ->]; destruct Hrw as [-> | ->].
  - destruct (Hw eq_refl), (Hr eq_refl). lia.
  - destruct (Hw eq_refl) as [_ Hne]. destruct l; [done|simpl in *; lia].
  - destruct (Hr eq_refl) as [H0 Hne]. simpl in Hn. lia.
  - destruct (visible c); [|simpl in *; lia]. split; [|done]. by rewrite app_nil_r in Hvs.
Qed.

(** C9: a producer and a consumer on a FIFO of positive size make progress under every
    scheduling: a run has at most eight steps per value plus two, as long as not every value has
    arrived some step is possible, so that every run that goes on ends with the values received
    in the order written, and at every moment the values received are the first of those. *)
Theorem fifo_delivers (size : Z) (vs : list T) (n : nat) (s : system) :
  0 < size → nsteps fifo_step n (start size vs) s →
  (n ≤ 8 * length vs + 2)%nat
  ∧ (red fifo_step s ∨ received s = vs ∧ to_write s = [])
  ∧ received s `prefix_of` vs.
Proof.
  intros Hs Hsteps. pose proof (start_inv size vs Hs) as Hinv.
  assert (sys_inv vs s ∧ (n + effort s ≤ effort (start size vs))%nat) as [Hi He].
  { revert Hinv. generalize (start size vs) Hsteps. clear Hsteps.
    induction n as [|n IH]; intros s0 Hsteps Hinv; inversion Hsteps; subst; [split; [done|lia]|].
    pose proof (step_inv _ _ _ Hinv ltac:(eassumption)).
    pose proof (step_effort _ _ _ Hinv ltac:(eassumption)).
    destruct (IH y) as [? ?]; [done..|]. split; [done|lia]. }
  split_and!.
  - destruct (new_fifo_implements size Hs) as (f & Hf & _ & _ & Hu & _).
    unfold start, effort in He. rewrite Hf in He. simpl in He. rewrite Hu in He. lia.
  - by apply sys_progress.
  - destruct Hi as [(c & _ & Hvs & _) _ _ _]. rewrite <- Hvs. by eexists.
Qed.
End fifo.
Arguments C_SyncFifo : clear implicits.

(** ** Concrete runs *)

Definition sample_ops : list (@fifo_op Z) :=
  [OpWrite 5; OpWrite 6; OpWrite 7; OpRead; OpUpdate; OpRead; OpWrite 7; OpUpdate;
   OpWrite 7; OpRead; OpUpdate; OpRead].

Lemma sample_outputs : (chan_ops 2 sample_ops chan_empty).1 =
  [OutWrite true; OutWrite true; OutWrite false; OutRead None; OutUpdate; OutRead (Some 5);
   OutWrite false; OutUpdate; OutWrite true; OutRead (Some 6); OutUpdate; OutRead (Some 7)].
Proof. vm_compute. reflexivity. Qed.

Lemma fifo_refines_channel_witness :
  0 < 2 ∧ ∃ f', run_ops 0 sample_ops (new_fifo 0 2).2
    = (Ok [OutWrite true; OutWrite true; OutWrite false; OutRead None; OutUpdate; OutRead (Some 5);
           OutWrite false; OutUpdate; OutWrite true; OutRead (Some 6); OutUpdate; OutRead (Some 7)], f').
Proof.
  split; [lia|]. destruct (fifo_refines_channel 0 2 sample_ops ltac:(lia)) as (f' & Hr & _).
  exists f'. rewrite Hr. change (Z.to_nat 2) with 2%nat. by rewrite sample_outputs.
Defined.


Lemma fifo_refusals_witness :
  (new_fifo 0 (-1)).1 = Err (Throw "SC_ID_INVALID_FIFO_SIZE_").
Proof. apply (fifo_refusals 0 (-1) raw_fifo 0). lia. Defined.

Lemma fifo_delivers_witness :
  ∃ s, nsteps (fifo_step 0) 2 (start 0 1 [7; 8]) s ∧ writer_waits s = true
     ∧ (red (fifo_step 0) s ∨ received s = [7; 8] ∧ to_write s = []).
Proof.
  eexists. assert (nsteps (fifo_step 0) 2 (start 0 1 [7; 8])
    (mkSystem (write 7 (new_fifo 0 1).2).2 [8] true 2 false [])) as Hn.
  { eapply nsteps_l; [apply (producer_writes 0 _ (write 7 (new_fifo 0 1).2).2); vm_compute; reflexivity|].
    eapply nsteps_l; [apply producer_waits; vm_compute; reflexivity|]. apply nsteps_O. }
  split; [exact Hn|]. split; [reflexivity|].
  apply (fifo_delivers 0 1 [7; 8] 2 _ ltac:(lia) Hn).
Defined.
