(* ===== verification/Dijkstra.v ===== *)
(** * Shortest paths

    [components/connect/dijkstra.cpp]: the shortest path between two vertices of a graph, used
    to build the routing tables of a NoC.  A graph is the vector of its adjacency lists.

    The priority queue is that of the C++ library with [Comparator]: the interface
    [PriorityQueue] says what the library promises (the top has a least distance), and the
    results hold for every queue that keeps the promise; [list_queue] is one.  Distances are
    single-precision floats that hold non-negative integers: an addition rounds to 24 bits
    ([float_round]).  A vertex that was reached is [d < FLT_MAX]. *)

From Stdlib Require Import Sorted.
From S2P Require Import Prelude.

(** ** Distances *)

(** [std::numeric_limits<float>::max()] *)
Definition FLT_MAX : Z := (2 ^ 24 - 1) * 2 ^ 104.

(** Rounding of a non-negative integer to 24 significant bits, ties to even.  A result above
    [FLT_MAX] stands for the infinity. *)
Definition float_round (z : Z) : Z :=
  if bool_decide (z < 2 ^ 24) then z else
  let e := Z.log2 z - 23 in
  let q := z / 2 ^ e in
  let r := z mod 2 ^ e in
  (if bool_decide (r < 2 ^ (e - 1)) || (bool_decide (r = 2 ^ (e - 1)) && Z.even q)
   then q else q + 1) * 2 ^ e.

Definition float_add (x y : Z) : Z := float_round (x + y).

Lemma float_add_exact x y : x + y < 2 ^ 24 → float_add x y = x + y.
Proof. intros H. unfold float_add, float_round. by rewrite bool_decide_true. Qed.

(** ** The priority queue *)

(** A vertex with its distance, or an edge with its length. *)
Abbreviation item := (Z * Z)%type (only parsing).

(** [Comparator::operator()]: [p1] has lower priority than [p2]. *)
Definition Comparator (p1 p2 : item) : bool := bool_decide (p1.2 > p2.2).

Class PriorityQueue (Q : Type) := {
  pq_empty : Q;
  pq_push : item → Q → Q;
  pq_top : Q → option item;
  pq_pop : Q → Q;
  pq_items : Q → list item;
  pq_items_empty : pq_items pq_empty = [];
  pq_items_push x q : pq_items (pq_push x q) ≡ₚ x :: pq_items q;
  pq_top_None q : pq_top q = None → pq_items q = [];
  pq_top_Some q x : pq_top q = Some x →
    pq_items q ≡ₚ x :: pq_items (pq_pop q) ∧ ∀ y, y ∈ pq_items q → Comparator x y = false }.

(** A list kept in the order of distances. *)
Fixpoint queue_insert (x : item) (q : list item) : list item :=
  match q with
  | [] => [x]
  | y :: q' => if Comparator x y then y :: queue_insert x q' else x :: q
  end.

(** The queue of the instance: sorted lists. *)
Definition by_distance (x y : item) : Prop := Comparator x y = false.

#[global] Instance by_distance_trans : Transitive by_distance.
Proof.
  intros x y z. unfold by_distance, Comparator. rewrite !bool_decide_eq_false. lia.
Qed.

Lemma queue_insert_perm x q : queue_insert x q ≡ₚ x :: q.
Proof.
  induction q as [|y q IH]; simpl; [done|]. case_match; [|done]. rewrite IH. constructor.
Qed.

Lemma queue_insert_sorted x q : StronglySorted by_distance q → StronglySorted by_distance (queue_insert x q).
Proof.
  induction 1 as [|y q Hq IH Hy]; simpl; [repeat constructor|]. destruct (Comparator x y) eqn:E.
  - constructor; [done|]. rewrite queue_insert_perm. constructor; [|done].
    unfold by_distance, Comparator in *. apply bool_decide_eq_true in E. apply bool_decide_eq_false. lia.
  - repeat constructor; [done|done|done|]. eapply Forall_impl; [exact Hy|]. intros z. by transitivity y.
Qed.

Record sorted_queue := mkQueue {
  queue_list : list item;
  queue_sorted : StronglySorted by_distance queue_list }.

#[global, program] Instance list_queue : PriorityQueue sorted_queue := {
  pq_empty := mkQueue [] _;
  pq_push x q := mkQueue (queue_insert x (queue_list q)) _;
  pq_top q := head (queue_list q);
  pq_pop q := mkQueue (tail (queue_list q)) _;
  pq_items := queue_list }.
Next Obligation. constructor. Qed.
Next Obligation. intros x [q Hq]. by apply queue_insert_sorted. Qed.
Next Obligation. intros [q Hq]. destruct Hq; simpl; [constructor|done]. Qed.
Next Obligation. done. Qed.
Next Obligation. intros x [q Hq]. apply queue_insert_perm. Qed.
Next Obligation. by intros [[|x q] Hq]. Qed.
Next Obligation.
  intros [q Hq] x Hx. destruct Hq as [|y q Hq Hy]; simpl in *; simplify_eq. split; [done|].
  intros z [->|Hz]%elem_of_cons; [apply bool_decide_eq_false; lia|].
  by apply (proj1 (Forall_forall _ _) Hy).
Qed.

(** ** The algorithm *)

(** A vector of vectors of edges: successor and length. *)
Abbreviation Graph := (list (list (Z * Z))) (only parsing).

Section dijkstra.
Context {Q : Type} `{!PriorityQueue Q}.

(** The local variables of the main loop. *)
Record search := mkSearch { d : list Z; parent : list Z; queue : Q }.

Definition search_start (G : Graph) (source : Z) : result search :=
  let d0 := replicate (length G) FLT_MAX in
  let* d1 := vec_set d0 source 0 in
  Ok (mkSearch d1 (replicate (length G) (-1)) (pq_push (source, 0) pq_empty)).

(** The body of the loop on the edges of [u]. *)
Definition relax (u : Z) (s : search) (e : item) : result search :=
  let v := e.1 in
  let w := e.2 in
  let* dv := vec_get (d s) v in
  let* du := vec_get (d s) u in
  if bool_decide (dv > float_add du w) then
    let* d' := vec_set (d s) v (float_add du w) in
    let* p' := vec_set (parent s) v u in
    Ok (mkSearch d' p' (pq_push (v, float_add du w) (queue s)))
  else Ok s.

Fixpoint relax_all (u : Z) (es : list item) (s : search) : result search :=
  match es with
  | [] => Ok s
  | e :: es => let* s' := relax u s e in relax_all u es s'
  end.

(** The main loop; [break] leaves the queue as it is. *)
Fixpoint search_loop (fuel : nat) (G : Graph) (destination : Z) (s : search) : result search :=
  match fuel with
  | O => Err OutOfFuel
  | S fuel =>
      match pq_top (queue s) with
      | None => Ok s
      | Some (u, _) =>
          if bool_decide (u = destination) then Ok s else
          let s := mkSearch (d s) (parent s) (pq_pop (queue s)) in
          let* es := vec_get G u in
          let* s' := relax_all u es s in
          search_loop fuel G destination s'
      end
  end.

(** The last loop: the vertices from [p] back to the source are appended to the path. *)
Fixpoint path_loop (fuel : nat) (parent : list Z) (source p : Z) (path : list Z) : result (list Z) :=
  match fuel with
  | O => Err OutOfFuel
  | S fuel =>
      if bool_decide (p = source) then Ok path else
      let* p' := vec_get parent p in
      path_loop fuel parent source p' (path ++ [p'])
  end.

(** Every edge is pushed at most once; a path has every vertex at most once. *)
Definition search_fuel (G : Graph) : nat := S (S (length (concat G))).

Definition dijkstra (G : Graph) (source destination : Z) : result (list Z) :=
  let* s0 := search_start G source in
  let* s := search_loop (search_fuel G) G destination s0 in
  path_loop (length G) (parent s) source destination [destination].

(** ** Walks of a graph *)

Definition vertex (G : Graph) (v : Z) : Prop := 0 ≤ v < Z.of_nat (length G).

Definition edge (G : Graph) (u v w : Z) : Prop :=
  0 ≤ u ∧ ∃ es : list item, G !! Z.to_nat u = Some es ∧ (v, w) ∈ es.

(** [walk G u v k]: a walk of total length [k] from [u] to [v]. *)
Inductive walk (G : Graph) (s : Z) : Z → Z → Prop :=
  | walk_refl : vertex G s → walk G s s 0
  | walk_snoc u v k w : walk G s u k → edge G u v w → walk G s v (k + w).

(** [rpath G s p k]: the list [p] is the reverse of a walk from [s] of length [k]. *)
Inductive rpath (G : Graph) (s : Z) : list Z → Z → Prop :=
  | rpath_source : rpath G s [s] 0
  | rpath_step v u p k w : rpath G s (u :: p) k → edge G u v w → rpath G s (v :: u :: p) (k + w).

(** The graphs the results are about: successors are vertices, lengths are positive integers
    bounded by [wmax], and the longest path is short enough for exact arithmetic. *)
Record wf_graph (G : Graph) (wmax : Z) : Prop := mkWf {
  wf_edge u v w : edge G u v w → vertex G v ∧ 0 < w ≤ wmax;
  wf_exact : 0 < wmax ∧ (Z.of_nat (length G) + 1) * wmax < 2 ^ 24 }.

(** [k] is the distance from [s] to [v]. *)
Definition distance (G : Graph) (s v k : Z) : Prop :=
  walk G s v k ∧ ∀ k', walk G s v k' → k ≤ k'.

(** ** The invariant of the search *)

(** The edges that leave vertices not taken yet. *)
Fixpoint open_edges (X : gset Z) (i : Z) (g : Graph) : nat :=
  match g with
  | [] => 0
  | es :: g => (if decide (i ∈ X) then 0 else length es) + open_edges X (i + 1) g
  end.

Lemma open_edges_take X u es g : ∀ i, u ∉ X → i ≤ u → g !! Z.to_nat (u - i) = Some es →
  (open_edges (X ∪ {[u]}) i g + length es = open_edges X i g)%nat.
Proof.
  induction g as [|es' g IH]; intros i Hu Hi Hg; [done|]. simpl.
  destruct (decide (i = u)) as [->|Hne].
  - rewrite Z.sub_diag in Hg. simplify_eq/=. rewrite decide_True by set_solver.
    rewrite decide_False by done.
    assert (∀ g i, u < i → open_edges (X ∪ {[u]}) i g = open_edges X i g) as Heq.
    { clear. intros g. induction g as [|e g IH]; intros i Hi; [done|]. simpl.
      rewrite IH by lia. destruct (decide (i ∈ X)), (decide (i ∈ X ∪ {[u]})); set_solver by lia. }
    rewrite Heq by lia. lia.
  - replace (Z.to_nat (u - i)) with (S (Z.to_nat (u - (i + 1)))) in Hg by lia.
    simpl in Hg. rewrite <- (IH (i + 1) Hu ltac:(lia) Hg).
    destruct (decide (i ∈ X)), (decide (i ∈ X ∪ {[u]})); try lia; set_solver.
Qed.

Lemma open_edges_empty g : ∀ i, open_edges ∅ i g = length (concat g).
Proof.
  induction g as [|es g IH]; intros i; [done|]. simpl. rewrite length_app, IH.
  rewrite decide_False by set_solver. done.
Qed.

Section proof.
Context (G : Graph) (source wmax : Z).
Context (HG : wf_graph G wmax) (Hsource : vertex G source).
Implicit Types (X : gset Z) (s : search).

Definition dist s (v : Z) : Z := d s !!! Z.to_nat v.

(** [X] is the set of vertices taken from the queue, [R] the set of edges already relaxed. *)
Record inv (X : gset Z) (R : Z → Z → Z → Prop) s : Prop := mkInv {
  inv_d : length (d s) = length G;
  inv_parent : length (parent s) = length G;
  inv_source : dist s source = 0;
  inv_bound v : vertex G v → 0 ≤ dist s v ∧ (dist s v < FLT_MAX → dist s v ≤ Z.of_nat (size X) * wmax);
  inv_taken u : u ∈ X → vertex G u ∧ dist s u < FLT_MAX;
  inv_order u v k : u ∈ X → (v, k) ∈ pq_items (queue s) → dist s u ≤ k;
  inv_waiting v : vertex G v → v ∉ X → dist s v < FLT_MAX → (v, dist s v) ∈ pq_items (queue s);
  inv_keys v k : (v, k) ∈ pq_items (queue s) → vertex G v ∧ dist s v ≤ k ∧ dist s v < FLT_MAX;
  inv_relaxed u v w : R u v w → u ∈ X ∧ edge G u v w ∧ dist s v ≤ dist s u + w;
  inv_tree v : vertex G v → v ≠ source → dist s v < FLT_MAX →
    ∃ u w, parent s !! Z.to_nat v = Some u ∧ u ∈ X ∧ edge G u v w ∧ dist s v = dist s u + w;
  inv_unreached v : vertex G v → ¬ dist s v < FLT_MAX → parent s !! Z.to_nat v = Some (-1) }.

Definition expanded X : Z → Z → Z → Prop := fun u v w => u ∈ X ∧ edge G u v w.

Lemma dist_lookup s v : length (d s) = length G → vertex G v → vec_get (d s) v = Ok (dist s v).
Proof.
  intros Hl Hv. unfold dist. apply vec_get_Some; [unfold vertex in Hv; lia|].
  apply list_lookup_lookup_total_lt. unfold vertex in Hv. lia.
Qed.

Lemma FLT_MAX_large : 2 ^ 24 < FLT_MAX.
Proof. reflexivity. Qed.

Lemma size_taken X R s : inv X R s → (size X ≤ length G)%nat.
Proof.
  intros Hi. assert (X ⊆ list_to_set (Z.of_nat <$> seq 0 (length G))) as Hsub.
  { intros u Hu. destruct (inv_taken _ _ _ Hi u Hu) as [Hv _]. unfold vertex in Hv.
    apply elem_of_list_to_set, list_elem_of_fmap. exists (Z.to_nat u).
    rewrite elem_of_seq. lia. }
  apply subseteq_size in Hsub. rewrite size_list_to_set in Hsub.
  - by rewrite length_fmap, length_seq in Hsub.
  - apply NoDup_fmap; [apply _|apply NoDup_seq].
Qed.

Lemma dist_small X R s v : inv X R s → vertex G v → dist s v < FLT_MAX → dist s v + wmax < 2 ^ 24.
Proof.
  intros Hi Hv Hlt. pose proof (size_taken _ _ _ Hi). destruct (wf_exact _ _ HG).
  pose proof (proj2 (inv_bound _ _ _ Hi v Hv) Hlt). nia.
Qed.

(** Updating a distance. *)
Lemma dist_update s v x p q v' : length (d s) = length G → vertex G v → vertex G v' →
  dist (mkSearch (<[Z.to_nat v := x]> (d s)) p q) v' = if decide (v' = v) then x else dist s v'.
Proof.
  unfold dist, vertex; simpl. intros Hl Hv Hv'. case_decide; subst.
  - apply list_lookup_total_insert_eq. lia.
  - apply list_lookup_total_insert_ne. lia.
Qed.

(** [u] was taken last: its distance lies between those of the taken and of the waiting ones. *)
Record front (X : gset Z) (u : Z) s : Prop := mkFront {
  front_taken : u ∈ X;
  front_keys v k : (v, k) ∈ pq_items (queue s) → dist s u ≤ k;
  front_max y : y ∈ X → dist s y ≤ dist s u;
  front_room : dist s u + wmax ≤ Z.of_nat (size X) * wmax }.

(** What the body of the inner loop does when the edge from [u] to [v] is a shortcut. *)
Record improved s s' (u v w : Z) : Prop := mkImproved {
  imp_d : length (d s') = length G;
  imp_parent : parent s' = <[Z.to_nat v := u]> (parent s);
  imp_dist x : vertex G x → dist s' x = if decide (x = v) then dist s u + w else dist s x;
  imp_items : pq_items (queue s') ≡ₚ (v, dist s u + w) :: pq_items (queue s) }.

Lemma relax_cases X R s u v w :
  inv X R s → u ∈ X → edge G u v w →
  (relax u s (v, w) = Ok s ∧ dist s v ≤ dist s u + w)
  ∨ (∃ s', relax u s (v, w) = Ok s' ∧ dist s u + w < dist s v ∧ improved s s' u v w).
Proof.
  intros Hi Ht He. destruct (wf_edge _ _ HG _ _ _ He) as [Hv Hw].
  destruct (inv_taken _ _ _ Hi u Ht) as [Hu Hul].
  pose proof (dist_small _ _ _ _ Hi Hu Hul) as Hsmall.
  unfold relax. cbn [fst snd]. rewrite !dist_lookup by (done || apply Hi). cbn [result_bind].
  rewrite float_add_exact by lia. case_bool_decide as Hlt; [right|left; split; [done|lia]].
  rewrite vec_set_in by (rewrite (inv_d _ _ _ Hi); apply Hv). cbn [result_bind].
  rewrite vec_set_in by (rewrite (inv_parent _ _ _ Hi); apply Hv). cbn [result_bind].
  eexists. split; [done|]. split; [lia|]. split; simpl.
  - rewrite length_insert. apply Hi.
  - done.
  - intros x Hx. apply dist_update; [apply Hi|done|done].
  - apply pq_items_push.
Qed.

Lemma improved_taken X R s s' u v w : inv X R s → front X u s → edge G u v w →
  dist s u + w < dist s v → improved s s' u v w → ∀ x, x ∈ X → dist s' x = dist s x.
Proof.
  intros Hi Hf He Hlt Hs x Hx. rewrite (imp_dist _ _ _ _ _ Hs) by apply (inv_taken _ _ _ Hi x Hx).
  rewrite decide_False; [done|]. intros ->. pose proof (front_max _ _ _ Hf v Hx).
  destruct (wf_edge _ _ HG _ _ _ He). lia.
Qed.

Lemma improved_front X R s s' u v w : inv X R s → front X u s → edge G u v w →
  dist s u + w < dist s v → improved s s' u v w → front X u s'.
Proof.
  intros Hi Hf He Hlt Hs. pose proof (improved_taken _ _ _ _ _ _ _ Hi Hf He Hlt Hs) as HX.
  destruct (wf_edge _ _ HG _ _ _ He). destruct Hf as [Ht Hk Hm Hr]. split; [done|..]; rewrite (HX u Ht).
  - intros x k. rewrite (imp_items _ _ _ _ _ Hs).
    intros [[= -> ->]|Hx]%elem_of_cons; [lia|by eauto].
  - intros y Hy. rewrite HX by done. by apply Hm.
  - done.
Qed.

Lemma improved_inv X R s s' u v w : inv X R s → front X u s → edge G u v w →
  dist s u + w < dist s v → improved s s' u v w →
  inv X (fun a b c => R a b c ∨ (a, b, c) = (u, v, w)) s'.
Proof.
  intros Hi Hf He Hlt Hs. pose proof (improved_taken _ _ _ _ _ _ _ Hi Hf He Hlt Hs) as HX.
  destruct (wf_edge _ _ HG _ _ _ He) as [Hv Hw]. destruct Hs as [Hl Hp Hd HQ].
  pose proof (front_taken _ _ _ Hf) as Ht. destruct (inv_taken _ _ _ Hi u Ht) as [Hu Hul].
  pose proof (dist_small _ _ _ _ Hi Hu Hul). pose proof FLT_MAX_large.
  pose proof (proj1 (inv_bound _ _ _ Hi u Hu)).
  assert (∀ x, vertex G x → dist s' x ≤ dist s x) as Hle
    by (intros x Hx; rewrite Hd by done; case_decide; subst; lia).
  assert (dist s' v = dist s u + w) as Hdv by (rewrite Hd, decide_True; done).
  split; [done|rewrite Hp, length_insert; apply Hi|..].
  - rewrite Hd by done. rewrite decide_False; [apply Hi|]. intros <-.
    rewrite (inv_source _ _ _ Hi) in Hlt. lia.
  - intros x Hx. rewrite Hd by done. pose proof (inv_bound _ _ _ Hi x Hx).
    pose proof (front_room _ _ _ Hf). case_decide; [|done]. lia.
  - intros x Hx. rewrite HX by done. by apply (inv_taken _ _ _ Hi).
  - intros x y k Hx. rewrite HQ, (HX x Hx). intros [[= -> ->]|Hy]%elem_of_cons.
    + pose proof (front_max _ _ _ Hf x Hx). lia.
    + by eapply (inv_order _ _ _ Hi).
  - intros x Hx HxX. rewrite Hd by done. rewrite HQ, elem_of_cons. intros Hlt'. case_decide; subst.
    + by left.
    + right. by apply (inv_waiting _ _ _ Hi).
  - intros x k. rewrite HQ. intros [[= -> ->]|Hx]%elem_of_cons; [split_and!; [done|lia|lia]|].
    destruct (inv_keys _ _ _ Hi _ _ Hx) as (Hxv & ? & ?). specialize (Hle x Hxv).
    split_and!; [done|lia|lia].
  - intros a b c [HR|[= -> -> ->]].
    + destruct (inv_relaxed _ _ _ Hi _ _ _ HR) as (Ha & Hab & Hle'). split_and!; [done|done|].
      rewrite (HX a Ha). pose proof (Hle b (proj1 (wf_edge _ _ HG _ _ _ Hab))). lia.
    + split_and!; [done|done|]. rewrite (HX u Ht). lia.
  - intros x Hx Hne. rewrite Hd by done. intros Hlt'. rewrite Hp. unfold vertex in *. case_decide as Heq.
    + subst x. exists u, w. rewrite (HX u Ht). split_and!; [|done..].
      apply list_lookup_insert_eq. rewrite (inv_parent _ _ _ Hi). lia.
    + destruct (inv_tree _ _ _ Hi x Hx Hne Hlt') as (y & w' & Hp' & Hy & Hyx & Heq').
      exists y, w'. rewrite (HX y Hy). split_and!; [|done..]. rewrite list_lookup_insert_ne; [done|lia].
  - intros x Hx. rewrite Hd by done. rewrite Hp. case_decide; [lia|]. intros Hn.
    rewrite list_lookup_insert_ne by (unfold vertex in *; lia). by apply (inv_unreached _ _ _ Hi).
Qed.

Lemma inv_mono X (R R' : Z → Z → Z → Prop) s :
  inv X R s → (∀ a b c, R' a b c → R a b c) → inv X R' s.
Proof. intros [] HR. split; eauto. Qed.

Lemma relax_all_inv X u es : ∀ R s, inv X R s → front X u s → (∀ v w, (v, w) ∈ es → edge G u v w) →
  ∃ s', relax_all u es s = Ok s' ∧ inv X (fun a b c => R a b c ∨ a = u ∧ (b, c) ∈ es) s'
    ∧ (length (pq_items (queue s')) ≤ length es + length (pq_items (queue s)))%nat.
Proof.
  induction es as [|[v w] es IH]; intros R s Hi Hf Hes; simpl.
  { exists s. split_and!; [done| |lia]. eapply inv_mono; [exact Hi|].
    intros a b c [?|[_ Hn]]; [done|by apply elem_of_nil in Hn]. }
  assert (edge G u v w) as He by (apply Hes; left).
  assert (∃ s1, relax u s (v, w) = Ok s1 ∧ inv X (fun a b c => R a b c ∨ (a, b, c) = (u, v, w)) s1
    ∧ front X u s1 ∧ (length (pq_items (queue s1)) ≤ S (length (pq_items (queue s))))%nat)
    as (s1 & -> & Hi1 & Hf1 & Hl1).
  { destruct (relax_cases _ _ _ _ _ _ Hi (front_taken _ _ _ Hf) He) as [[Hr Hle]|(s1 & Hr & Hlt & Hs)].
    - exists s. split_and!; [done| |done|lia]. destruct Hi; split; try done.
      intros a b c [HR|[= -> -> ->]]; [by eauto|]. split_and!; [apply Hf|done|done].
    - exists s1. split_and!; [done|by eapply improved_inv|by eapply improved_front|].
      by rewrite (imp_items _ _ _ _ _ Hs). }
  cbn [result_bind]. destruct (IH _ _ Hi1 Hf1) as (s2 & -> & Hi2 & Hl2).
  { intros v' w' Hin. apply Hes. by right. }
  exists s2. split_and!; [done| |lia]. eapply inv_mono; [exact Hi2|].
  intros a b c [?|[-> [[= -> ->]|?]%elem_of_cons]]; naive_solver.
Qed.

(** Taking a vertex that was taken before changes nothing. *)
Lemma relax_all_stale X s u es : inv X (expanded X) s → u ∈ X → (∀ v w, (v, w) ∈ es → edge G u v w) →
  relax_all u es s = Ok s.
Proof.
  intros Hi Hu. induction es as [|[v w] es IH]; intros Hes; [done|]. simpl.
  assert (edge G u v w) as He by (apply Hes; left).
  destruct (inv_relaxed _ _ _ Hi u v w (conj Hu He)) as (_ & _ & Hle).
  destruct (relax_cases _ _ _ _ _ _ Hi Hu He) as [[-> _]|(s1 & _ & Hlt & _)]; [|lia].
  cbn [result_bind]. apply IH. intros v' w' Hin. apply Hes. by right.
Qed.

Definition popped s : search := mkSearch (d s) (parent s) (pq_pop (queue s)).

Lemma inv_pop X s u k : inv X (expanded X) s → pq_top (queue s) = Some (u, k) →
  vertex G u ∧ dist s u < FLT_MAX ∧ inv (X ∪ {[u]}) (expanded X) (popped s)
  ∧ (u ∉ X → front (X ∪ {[u]}) u (popped s)).
Proof.
  intros Hi Htop. destruct (pq_top_Some _ _ Htop) as [Hp Hmin].
  assert (∀ y k', (y, k') ∈ pq_items (queue s) → k ≤ k') as Hmin'.
  { intros y k' Hy. specialize (Hmin _ Hy). unfold Comparator in Hmin. simpl in Hmin.
    apply bool_decide_eq_false in Hmin. lia. }
  assert ((u, k) ∈ pq_items (queue s)) as Hin by (rewrite Hp; left).
  destruct (inv_keys _ _ _ Hi _ _ Hin) as (Hu & Huk & Hul).
  assert (∀ x, x ∈ pq_items (pq_pop (queue s)) → x ∈ pq_items (queue s)) as Hsub
    by (intros x Hx; rewrite Hp; by right).
  assert (u ∉ X → dist s u = k) as Hk.
  { intros HuX. pose proof (Hmin' _ _ (inv_waiting _ _ _ Hi u Hu HuX Hul)). lia. }
  split_and!; [done|done| |].
  - assert (∀ x, x ∈ X ∪ {[u]} → vertex G x ∧ dist s x < FLT_MAX) as Htaken.
    { intros x [Hx| ->%elem_of_singleton]%elem_of_union; [by apply (inv_taken _ _ _ Hi)|done]. }
    split; try apply Hi; try exact Htaken.
    + intros v Hv. pose proof (inv_bound _ _ _ Hi v Hv) as [? Hb]. split; [done|]. intros Hlt.
      specialize (Hb Hlt). pose proof (subseteq_size X (X ∪ {[u]}) ltac:(set_solver)).
      destruct (wf_exact _ _ HG). change (dist s v ≤ Z.of_nat (size (X ∪ {[u]})) * wmax). nia.
    + intros x v k' [Hx| ->%elem_of_singleton]%elem_of_union Hv; [by eapply (inv_order _ _ _ Hi), Hsub|].
      pose proof (Hmin' _ _ (Hsub _ Hv)). change (dist s u ≤ k'). lia.
    + intros v Hv Hn Hlt. assert ((v, dist s v) ∈ pq_items (queue s)) as Hvin.
      { apply (inv_waiting _ _ _ Hi); [done|set_solver|done]. }
      rewrite Hp in Hvin. apply elem_of_cons in Hvin as [[= -> _]|?]; [set_solver|done].
    + intros v k' Hv. by apply (inv_keys _ _ _ Hi), Hsub.
    + intros a b c HR. destruct (inv_relaxed _ _ _ Hi _ _ _ HR) as (? & ? & ?).
      split_and!; [set_solver|done|done].
    + intros v Hv Hne Hlt. destruct (inv_tree _ _ _ Hi v Hv Hne Hlt) as (y & w & ? & ? & ? & ?).
      exists y, w. split_and!; [done|set_solver|done|done].
  - intros HuX. split; [set_solver|..].
    + intros v k' Hv. pose proof (Hmin' _ _ (Hsub _ Hv)). change (dist s u ≤ k'). lia.
    + intros y [Hy| ->%elem_of_singleton]%elem_of_union; [|done].
      change (dist s y ≤ dist s u). rewrite (Hk HuX). by apply (inv_order _ _ _ Hi y u k Hy).
    + rewrite size_union, size_singleton by set_solver. pose proof (proj2 (inv_bound _ _ _ Hi u Hu) Hul).
      change (dist s u + wmax ≤ Z.of_nat (size X + 1) * wmax). nia.
Qed.

(** When the loop stops: every vertex was taken that can be, or the destination is next. *)
Definition stopped (destination : Z) s : Prop :=
  pq_items (queue s) = [] ∨ ∃ k, pq_top (queue s) = Some (destination, k).

Lemma search_loop_inv destination fuel : ∀ X s, inv X (expanded X) s →
  (length (pq_items (queue s)) + open_edges X 0 G < fuel)%nat →
  ∃ X' s', search_loop fuel G destination s = Ok s' ∧ inv X' (expanded X') s' ∧ stopped destination s'.
Proof.
  induction fuel as [|fuel IH]; intros X s Hi Hfuel; [lia|]. cbn [search_loop].
  destruct (pq_top (queue s)) as [[u k]|] eqn:Htop.
  2:{ exists X, s. split_and!; [done|done|]. left. by apply pq_top_None. }
  case_bool_decide as Hu; [subst; exists X, s; split_and!; [done|done|right; eauto]|].
  destruct (inv_pop _ _ _ _ Hi Htop) as (Hv & Hul & Hpop & Hfront).
  destruct (vec_get_ok G u Hv) as (es & -> & Hes). cbn [result_bind]. cbv zeta. fold (popped s).
  assert (∀ v w, (v, w) ∈ es → edge G u v w) as Hedge by (intros v w Hin; split; [apply Hv|eauto]).
  destruct (pq_top_Some _ _ Htop) as [Hp _]. apply Permutation_length in Hp. simpl in Hp.
  destruct (decide (u ∈ X)) as [HuX|HuX].
  - replace (X ∪ {[u]}) with X in Hpop by set_solver.
    rewrite (relax_all_stale X _ u es) by done. cbn [result_bind]. apply (IH X); [done|simpl; lia].
  - destruct (relax_all_inv _ _ es _ _ Hpop (Hfront HuX) Hedge) as (s' & -> & Hi' & Hl).
    cbn [result_bind]. apply (IH (X ∪ {[u]})).
    + eapply inv_mono; [exact Hi'|]. intros a b c [Ha Hab]. apply elem_of_union in Ha as [Ha|Ha].
      * by left.
      * right. apply elem_of_singleton in Ha as ->. split; [done|].
        destruct Hab as (_ & es1 & Hes1 & Hin). by pose proof (eq_trans (eq_sym Hes) Hes1) as [= <-].
    + pose proof (open_edges_take X u es G 0 HuX (proj1 Hv) ltac:(by rewrite Z.sub_0_r)).
      simpl in Hl. lia.
Qed.

(** ** The result is a shortest path *)

(** A walk is at least as long as the distance found, or as any bound on the waiting ones. *)
Lemma walk_bound X s m v k : inv X (expanded X) s →
  (∀ y k', (y, k') ∈ pq_items (queue s) → m ≤ k') → walk G source v k →
  (vertex G v ∧ dist s v < FLT_MAX ∧ dist s v ≤ k) ∨ m ≤ k.
Proof.
  intros Hi Hm. induction 1 as [Hs|u v k w Hwalk IH He].
  - left. rewrite (inv_source _ _ _ Hi). split_and!; done.
  - destruct (wf_edge _ _ HG _ _ _ He) as [Hv Hw]. destruct IH as [(Hu & Hul & Hle)|Hle]; [|right; lia].
    destruct (decide (u ∈ X)) as [HuX|HuX].
    + left. destruct (inv_relaxed _ _ _ Hi u v w (conj HuX He)) as (_ & _ & Hr).
      pose proof (dist_small _ _ _ _ Hi Hu Hul). pose proof FLT_MAX_large. split_and!; [done|lia|lia].
    + right. pose proof (Hm _ _ (inv_waiting _ _ _ Hi u Hu HuX Hul)). lia.
Qed.

Lemma stopped_optimal X s destination k :
  inv X (expanded X) s → stopped destination s → walk G source destination k →
  vertex G destination ∧ dist s destination < FLT_MAX ∧ dist s destination ≤ k.
Proof.
  intros Hi [Hempty|[k0 Htop]] Hwalk.
  - destruct (walk_bound X s (k + 1) destination k Hi) as [?|?]; [|done|done|lia].
    intros y k' Hy. rewrite Hempty in Hy. by apply elem_of_nil in Hy.
  - destruct (pq_top_Some _ _ Htop) as [Hp Hmin].
    assert ((destination, k0) ∈ pq_items (queue s)) as Hin by (rewrite Hp; left).
    destruct (inv_keys _ _ _ Hi _ _ Hin) as (? & ? & ?). split_and!; [done|done|].
    destruct (walk_bound X s k0 destination k Hi) as [?|?]; [|done|tauto|lia].
    intros y k' Hy. specialize (Hmin _ Hy). unfold Comparator in Hmin. simpl in Hmin.
    apply bool_decide_eq_false in Hmin. lia.
Qed.

(** The vertices nearer than [v]: following the parents lowers their number. *)
Definition nearer s (v : Z) : nat := length (filter (fun x => x < dist s v) (d s)).

Lemma path_loop_rpath X s fuel : ∀ p acc, inv X (expanded X) s → vertex G p → dist s p < FLT_MAX →
  (nearer s p < fuel)%nat →
  ∃ l, path_loop fuel (parent s) source p acc = Ok (acc ++ l) ∧ rpath G source (p :: l) (dist s p).
Proof.
  induction fuel as [|fuel IH]; intros p acc Hi Hp Hlt Hfuel; [lia|]. cbn [path_loop].
  case_bool_decide as Heq.
  { exists []. rewrite app_nil_r. split; [done|]. subst. rewrite (inv_source _ _ _ Hi). constructor. }
  destruct (inv_tree _ _ _ Hi p Hp Heq Hlt) as (u & w & Hpu & Hu & Hedge & Hd).
  rewrite (vec_get_Some _ _ _ (proj1 Hp) Hpu). cbn [result_bind].
  destruct (inv_taken _ _ _ Hi u Hu) as [Huv Hul]. destruct (wf_edge _ _ HG _ _ _ Hedge) as [_ Hw].
  destruct (IH u (acc ++ [u])) as (l & -> & Hr); [done|done|done| |].
  - assert (nearer s u < nearer s p)%nat; [|lia].
    apply (length_filter_impl_lt _ _ _ (dist s u)); [intros; lia| |lia|lia].
    apply (list_elem_of_lookup_2 _ (Z.to_nat u)), list_lookup_lookup_total_lt.
    rewrite (inv_d _ _ _ Hi). unfold vertex in Huv. lia.
  - exists (u :: l). rewrite <- app_assoc. split; [done|]. rewrite Hd. by constructor.
Qed.

Lemma nearer_bound X R s p : inv X R s → vertex G p → (nearer s p < length G)%nat.
Proof.
  intros Hi Hp. rewrite <- (inv_d _ _ _ Hi). apply (length_filter_lt _ _ (dist s p)); [|lia].
  apply (list_elem_of_lookup_2 _ (Z.to_nat p)), list_lookup_lookup_total_lt.
  rewrite (inv_d _ _ _ Hi). unfold vertex in Hp. lia.
Qed.

Lemma search_start_inv : ∃ s, search_start G source = Ok s ∧ inv ∅ (expanded ∅) s
  ∧ length (pq_items (queue s)) = 1%nat.
Proof.
  pose proof Hsource as Hv. unfold vertex in Hv. unfold search_start.
  rewrite vec_set_in by (rewrite length_replicate; lia). cbn [result_bind].
  set (s := mkSearch _ _ _). exists s. split; [done|].
  assert (∀ x, vertex G x → dist s x = if decide (x = source) then 0 else FLT_MAX) as Hd.
  { intros x Hx. unfold dist, s, vertex in *. simpl. case_decide; subst.
    - apply list_lookup_total_insert_eq. rewrite length_replicate. lia.
    - rewrite list_lookup_total_insert_ne by lia. rewrite lookup_total_replicate_2 by lia. done. }
  assert (∀ x, x ∈ pq_items (queue s) ↔ x = (source, 0)) as HQ.
  { intros x. unfold s. simpl. rewrite pq_items_push, pq_items_empty. by rewrite list_elem_of_singleton. }
  assert (0 < FLT_MAX) by done. split.
  - split.
    + unfold s. simpl. by rewrite length_insert, length_replicate.
    + unfold s. simpl. by rewrite length_replicate.
    + rewrite Hd by done. by rewrite decide_True.
    + intros v Hv'. rewrite Hd by done. case_decide; [|split; [done|lia]]. rewrite size_empty. lia.
    + by intros u Hu%elem_of_empty.
    + by intros u v k Hu%elem_of_empty.
    + intros v Hv' _. rewrite Hd by done. intros Hlt. apply HQ. case_decide; [by subst|lia].
    + intros v k [= -> ->]%HQ. rewrite Hd by done. rewrite decide_True by done. split_and!; done || lia.
    + by intros a b c [Ha%elem_of_empty _].
    + intros v Hv' Hne. rewrite Hd by done. rewrite decide_False by done. lia.
    + intros v Hv' _. unfold s, vertex in *. simpl. apply lookup_replicate_2. lia.
  - unfold s. simpl. rewrite pq_items_push, pq_items_empty. done.
Qed.
End proof.

Lemma rpath_walk G s p k : vertex G s → rpath G s p k → ∃ v l, p = v :: l ∧ walk G s v k.
Proof.
  intros Hs. induction 1 as [|v u p k w Hp IH He]; [exists s, []; split; [done|by constructor]|].
  destruct IH as (v' & l & [= <- <-] & Hw). exists v, (u :: p). split; [done|]. by econstructor.
Qed.

(** The state in which the main loop stops. *)
Lemma search_result G source wmax destination : wf_graph G wmax → vertex G source →
  ∃ X s, (let* s0 := search_start G source in search_loop (search_fuel G) G destination s0) = Ok s
    ∧ inv G source wmax X (expanded G X) s ∧ stopped destination s.
Proof.
  intros HG Hs. destruct (search_start_inv G source wmax Hs) as (s0 & -> & Hi & Hl). cbn [result_bind].
  destruct (search_loop_inv G source wmax HG Hs destination (search_fuel G) ∅ s0 Hi) as (X & s & Hr).
  - rewrite Hl, open_edges_empty. unfold search_fuel. lia.
  - by exists X, s.
Qed.

Lemma dijkstra_unfold G source destination s :
  (let* s0 := search_start G source in search_loop (search_fuel G) G destination s0) = Ok s →
  dijkstra G source destination = path_loop (length G) (parent s) source destination [destination].
Proof.
  unfold dijkstra. destruct (search_start G source); [|done]. cbn [result_bind]. by intros ->.
Qed.

Lemma dijkstra_spec G wmax source destination k :
  wf_graph G wmax → vertex G source → walk G source destination k →
  ∃ l n, dijkstra G source destination = Ok (destination :: l)
    ∧ rpath G source (destination :: l) n ∧ distance G source destination n
    ∧ n ≤ Z.of_nat (length G) * wmax.
Proof.
  intros HG Hs Hwalk. destruct (search_result G source wmax destination HG Hs) as (X & s & Hr & Hi & Hst).
  rewrite (dijkstra_unfold _ _ _ _ Hr).
  destruct (stopped_optimal G source wmax HG X s destination k Hi Hst Hwalk) as (Hv & Hlt & _).
  destruct (path_loop_rpath G source wmax HG X s (length G) destination [destination] Hi Hv Hlt)
    as (l & -> & Hp); [by eapply nearer_bound|].
  exists l, (dist s destination). split_and!; [done|done|..].
  - destruct (rpath_walk _ _ _ _ Hs Hp) as (v & l' & [= <- <-] & Hw). split; [done|].
    intros k' Hk'. by eapply (stopped_optimal G source wmax HG X s).
  - pose proof (size_taken _ _ _ _ _ _ Hi). destruct (wf_exact _ _ HG).
    pose proof (proj2 (inv_bound _ _ _ _ _ _ Hi destination Hv) Hlt). nia.
Qed.

(** C22: [dijkstra] returns a shortest path.  On a graph whose edges have positive lengths and
    end in vertices, and whose longest path stays in the range where single-precision
    additions are exact, the search and the reconstruction end for every destination that can
    be reached, whatever priority queue is used; the result is the list of the vertices of a
    walk, destination first and source last, and no walk between the two is shorter. *)
Theorem dijkstra_shortest (G : Graph) (wmax source destination k : Z) :
  wf_graph G wmax → vertex G source → walk G source destination k →
  ∃ l n, dijkstra G source destination = Ok (destination :: l)
    ∧ rpath G source (destination :: l) n ∧ last (destination :: l) = Some source
    ∧ distance G source destination n.
Proof.
  intros HG Hs Hw. destruct (dijkstra_spec G wmax source destination k HG Hs Hw)
    as (l & n & Hr & Hp & Hd & _).
  exists l, n. split_and!; [done|done| |done]. clear -Hp. induction Hp as [|v u p k w Hp IH He]; [done|].
  by rewrite last_cons, IH.
Qed.

(** for a destination that cannot be reached the search ends, and the reconstruction of the
    path leaves the vector of parents: the value -1 is appended to the path and then used as an
    index. *)
Theorem dijkstra_unreachable (G : Graph) (wmax source destination : Z) :
  wf_graph G wmax → vertex G source → vertex G destination →
  (∀ k, ¬ walk G source destination k) →
  dijkstra G source destination = Err (UndefinedBehaviour "index out of range").
Proof.
  intros HG Hs Hd Hno. destruct (search_result G source wmax destination HG Hs) as (X & s & Hr & Hi & Hst).
  rewrite (dijkstra_unfold _ _ _ _ Hr).
  assert (destination ≠ source) as Hne by (intros ->; apply (Hno 0); by constructor).
  assert (¬ dist s destination < FLT_MAX) as Hinf.
  { intros Hlt. destruct (path_loop_rpath G source wmax HG X s (length G) destination [] Hi Hd Hlt)
      as (l & _ & Hp); [by eapply nearer_bound|].
    destruct (rpath_walk _ _ _ _ Hs Hp) as (v & l' & [= <- <-] & Hw). by eapply Hno. }
  pose proof (inv_unreached _ _ _ _ _ _ Hi destination Hd Hinf) as Hp. unfold vertex in *.
  destruct (length G) as [|[|n]]; [lia|lia|]. cbn [path_loop]. rewrite bool_decide_false by done.
  rewrite (vec_get_Some _ _ _ (proj1 Hd) Hp). cbn [result_bind]. rewrite bool_decide_false by lia. done.
Qed.
End dijkstra.

(** The graph of the test program at the end of the source file. *)
Definition sample_graph : Graph :=
  [ [(1, 7); (2, 9); (5, 14)]; [(0, 7); (2, 10); (3, 15)]; [(0, 9); (1, 10); (5, 2); (3, 11)];
    [(1, 15); (2, 11); (4, 6)]; [(3, 6); (5, 9)]; [(0, 14); (2, 2); (4, 9)] ].

Definition wf_graphb (G : Graph) (wmax : Z) : bool :=
  bool_decide (Forall (Forall (fun e => 0 ≤ e.1 < Z.of_nat (length G) ∧ 0 < e.2 ≤ wmax)) G
    ∧ 0 < wmax ∧ (Z.of_nat (length G) + 1) * wmax < 2 ^ 24).

Lemma wf_graphb_wf G wmax : wf_graphb G wmax = true → wf_graph G wmax.
Proof.
  intros [Hf He]%bool_decide_eq_true. split; [|done]. intros u v w (Hu & es & Hes & Hin).
  pose proof (proj1 (Forall_lookup _ _) Hf _ _ Hes) as Hes'.
  by apply (proj1 (Forall_forall _ _) Hes' (v, w)).
Qed.

Lemma edge_in G u es v w : 0 ≤ u → G !! Z.to_nat u = Some es → (v, w) ∈ es → edge G u v w.
Proof. intros Hu Hes Hin. split; eauto. Qed.

Lemma dijkstra_shortest_witness :
  wf_graph sample_graph 15 ∧ dijkstra (Q := sorted_queue) sample_graph 0 4 = Ok [4; 5; 2; 0]
  ∧ ∃ l n, dijkstra (Q := sorted_queue) sample_graph 0 4 = Ok (4 :: l) ∧ distance sample_graph 0 4 n.
Proof.
  assert (wf_graph sample_graph 15) as Hwf by (apply wf_graphb_wf; vm_compute; reflexivity).
  split; [done|]. split; [vm_compute; reflexivity|].
  destruct (dijkstra_shortest (Q := sorted_queue) sample_graph 15 0 4 23) as (l & n & Hr & _ & _ & Hd).
  - done.
  - done.
  - apply (walk_snoc _ _ 5 _ 14 9).
    + apply (walk_snoc _ _ 0 _ 0 14); [by constructor|].
      by eapply (edge_in _ _ [(1, 7); (2, 9); (5, 14)]); [|done|set_solver].
    + by eapply (edge_in _ _ [(0, 14); (2, 2); (4, 9)]); [|done|set_solver].
  - exists l, n. split; [exact Hr|exact Hd].
Defined.

(** Two vertices without edges. *)
Lemma dijkstra_unreachable_witness :
  dijkstra (Q := sorted_queue) [[]; []] 0 1 = Err (UndefinedBehaviour "index out of range").
Proof.
  apply (dijkstra_unreachable (Q := sorted_queue) [[]; []] 1 0 1).
  - apply wf_graphb_wf. vm_compute. reflexivity.
  - done.
  - done.
  - intros k Hw. inversion Hw as [|u v k0 w _ (_ & es & Hes & Hin)]; subst.
    destruct (Z.to_nat u) as [|[|n]]; simplify_eq/=; by apply elem_of_nil in Hin.
Defined.
