(* ===== verification/NoCBase.v ===== *)
(** * The NoC topology

    [components/connect/NoCBase.cpp]: routers, links, endpoints, the memory map and the routing
    tables of a NoC; [Mesh.cpp], [Ring.cpp] and [Bus.cpp] build particular topologies, and
    [NoCNoContention.cpp] turns the routing tables into the table of hop counts that the
    contention-free model charges.

    The maps of the source are [gmap]s; [operator[]] on a missing key inserts the value zero.
    [std::set] and [std::map] are iterated in the order of the keys ([in_order], [in_key_order]).
    Identifiers are unsigned 32-bit integers that [dijkstra] receives as [int]s. *)

From stdpp Require Import sorting.
From S2P Require Import Prelude Dijkstra.

(** ** State *)

(** [C_TargetID]: a router and one of its output ports. *)
Abbreviation T_TargetID := (Z * Z)%type (only parsing).
(** First and last address. *)
Abbreviation T_MemoryRegion := (Z * Z)%type (only parsing).

(** The bind-info classes: the endpoint, its router, and the forward and backward ports. *)
Record BindInfo := mkBindInfo { Endpoint : Z; BRouterID : Z; RouterFWPort : Z; RouterBWPort : Z }.

Record C_NoCBase := mkNoC {
  RouterCount : Z;
  LinkCount : Z;
  MasterCount : Z;
  SlaveCount : Z;
  SlowRouterIDs : gset Z;
  Links : gmap (Z * Z) (Z * Z);
  Routers2Port : gmap (Z * Z) Z;
  RoutingTables : gmap Z (gmap Z Z);
  RouterInputPortsCount : gmap Z Z;
  RouterOutputPortsCount : gmap Z Z;
  TLMMasterBindInfoList : gmap Z (list BindInfo);
  TLMSlaveBindInfoList : gmap Z (list BindInfo);
  CABAMasterBindInfoList : gmap Z (list BindInfo);
  CABASlaveBindInfoList : gmap Z (list BindInfo);
  MemMap : gmap T_TargetID T_MemoryRegion;
  RoutingDone : bool;
  BeforeElaborationDone : bool;
  StatsSlaveAccessCounters : gmap Z (gmap Z Z);
  LinkSizeInBytes : Z;
  NoTiming : bool;
  TraceActivation : bool;
  NoCGraph : Graph;
  ValidTargets : list T_TargetID;
  TargetToCMUEndPointID : gmap T_TargetID Z;
  NextCMUEndPointID : Z }.

Definition set_RouterCount x (s : C_NoCBase) : C_NoCBase :=
  mkNoC x (LinkCount s) (MasterCount s) (SlaveCount s) (SlowRouterIDs s) (Links s)
    (Routers2Port s) (RoutingTables s) (RouterInputPortsCount s) (RouterOutputPortsCount s)
    (TLMMasterBindInfoList s) (TLMSlaveBindInfoList s) (CABAMasterBindInfoList s)
    (CABASlaveBindInfoList s) (MemMap s) (RoutingDone s) (BeforeElaborationDone s)
    (StatsSlaveAccessCounters s) (LinkSizeInBytes s) (NoTiming s) (TraceActivation s) (NoCGraph
    s) (ValidTargets s) (TargetToCMUEndPointID s) (NextCMUEndPointID s).
Definition set_LinkCount x (s : C_NoCBase) : C_NoCBase :=
  mkNoC (RouterCount s) x (MasterCount s) (SlaveCount s) (SlowRouterIDs s) (Links s)
    (Routers2Port s) (RoutingTables s) (RouterInputPortsCount s) (RouterOutputPortsCount s)
    (TLMMasterBindInfoList s) (TLMSlaveBindInfoList s) (CABAMasterBindInfoList s)
    (CABASlaveBindInfoList s) (MemMap s) (RoutingDone s) (BeforeElaborationDone s)
    (StatsSlaveAccessCounters s) (LinkSizeInBytes s) (NoTiming s) (TraceActivation s) (NoCGraph
    s) (ValidTargets s) (TargetToCMUEndPointID s) (NextCMUEndPointID s).
Definition set_MasterCount x (s : C_NoCBase) : C_NoCBase :=
  mkNoC (RouterCount s) (LinkCount s) x (SlaveCount s) (SlowRouterIDs s) (Links s)
    (Routers2Port s) (RoutingTables s) (RouterInputPortsCount s) (RouterOutputPortsCount s)
    (TLMMasterBindInfoList s) (TLMSlaveBindInfoList s) (CABAMasterBindInfoList s)
    (CABASlaveBindInfoList s) (MemMap s) (RoutingDone s) (BeforeElaborationDone s)
    (StatsSlaveAccessCounters s) (LinkSizeInBytes s) (NoTiming s) (TraceActivation s) (NoCGraph
    s) (ValidTargets s) (TargetToCMUEndPointID s) (NextCMUEndPointID s).
Definition set_SlaveCount x (s : C_NoCBase) : C_NoCBase :=
  mkNoC (RouterCount s) (LinkCount s) (MasterCount s) x (SlowRouterIDs s) (Links s)
    (Routers2Port s) (RoutingTables s) (RouterInputPortsCount s) (RouterOutputPortsCount s)
    (TLMMasterBindInfoList s) (TLMSlaveBindInfoList s) (CABAMasterBindInfoList s)
    (CABASlaveBindInfoList s) (MemMap s) (RoutingDone s) (BeforeElaborationDone s)
    (StatsSlaveAccessCounters s) (LinkSizeInBytes s) (NoTiming s) (TraceActivation s) (NoCGraph
    s) (ValidTargets s) (TargetToCMUEndPointID s) (NextCMUEndPointID s).
Definition set_SlowRouterIDs x (s : C_NoCBase) : C_NoCBase :=
  mkNoC (RouterCount s) (LinkCount s) (MasterCount s) (SlaveCount s) x (Links s) (Routers2Port
    s) (RoutingTables s) (RouterInputPortsCount s) (RouterOutputPortsCount s)
    (TLMMasterBindInfoList s) (TLMSlaveBindInfoList s) (CABAMasterBindInfoList s)
    (CABASlaveBindInfoList s) (MemMap s) (RoutingDone s) (BeforeElaborationDone s)
    (StatsSlaveAccessCounters s) (LinkSizeInBytes s) (NoTiming s) (TraceActivation s) (NoCGraph
    s) (ValidTargets s) (TargetToCMUEndPointID s) (NextCMUEndPointID s).
Definition set_Links x (s : C_NoCBase) : C_NoCBase :=
  mkNoC (RouterCount s) (LinkCount s) (MasterCount s) (SlaveCount s) (SlowRouterIDs s) x
    (Routers2Port s) (RoutingTables s) (RouterInputPortsCount s) (RouterOutputPortsCount s)
    (TLMMasterBindInfoList s) (TLMSlaveBindInfoList s) (CABAMasterBindInfoList s)
    (CABASlaveBindInfoList s) (MemMap s) (RoutingDone s) (BeforeElaborationDone s)
    (StatsSlaveAccessCounters s) (LinkSizeInBytes s) (NoTiming s) (TraceActivation s) (NoCGraph
    s) (ValidTargets s) (TargetToCMUEndPointID s) (NextCMUEndPointID s).
Definition set_Routers2Port x (s : C_NoCBase) : C_NoCBase :=
  mkNoC (RouterCount s) (LinkCount s) (MasterCount s) (SlaveCount s) (SlowRouterIDs s) (Links
    s) x (RoutingTables s) (RouterInputPortsCount s) (RouterOutputPortsCount s)
    (TLMMasterBindInfoList s) (TLMSlaveBindInfoList s) (CABAMasterBindInfoList s)
    (CABASlaveBindInfoList s) (MemMap s) (RoutingDone s) (BeforeElaborationDone s)
    (StatsSlaveAccessCounters s) (LinkSizeInBytes s) (NoTiming s) (TraceActivation s) (NoCGraph
    s) (ValidTargets s) (TargetToCMUEndPointID s) (NextCMUEndPointID s).
Definition set_RoutingTables x (s : C_NoCBase) : C_NoCBase :=
  mkNoC (RouterCount s) (LinkCount s) (MasterCount s) (SlaveCount s) (SlowRouterIDs s) (Links
    s) (Routers2Port s) x (RouterInputPortsCount s) (RouterOutputPortsCount s)
    (TLMMasterBindInfoList s) (TLMSlaveBindInfoList s) (CABAMasterBindInfoList s)
    (CABASlaveBindInfoList s) (MemMap s) (RoutingDone s) (BeforeElaborationDone s)
    (StatsSlaveAccessCounters s) (LinkSizeInBytes s) (NoTiming s) (TraceActivation s) (NoCGraph
    s) (ValidTargets s) (TargetToCMUEndPointID s) (NextCMUEndPointID s).
Definition set_RouterInputPortsCount x (s : C_NoCBase) : C_NoCBase :=
  mkNoC (RouterCount s) (LinkCount s) (MasterCount s) (SlaveCount s) (SlowRouterIDs s) (Links
    s) (Routers2Port s) (RoutingTables s) x (RouterOutputPortsCount s) (TLMMasterBindInfoList s)
    (TLMSlaveBindInfoList s) (CABAMasterBindInfoList s) (CABASlaveBindInfoList s) (MemMap s)
    (RoutingDone s) (BeforeElaborationDone s) (StatsSlaveAccessCounters s) (LinkSizeInBytes s)
    (NoTiming s) (TraceActivation s) (NoCGraph s) (ValidTargets s) (TargetToCMUEndPointID s)
    (NextCMUEndPointID s).
Definition set_RouterOutputPortsCount x (s : C_NoCBase) : C_NoCBase :=
  mkNoC (RouterCount s) (LinkCount s) (MasterCount s) (SlaveCount s) (SlowRouterIDs s) (Links
    s) (Routers2Port s) (RoutingTables s) (RouterInputPortsCount s) x (TLMMasterBindInfoList s)
    (TLMSlaveBindInfoList s) (CABAMasterBindInfoList s) (CABASlaveBindInfoList s) (MemMap s)
    (RoutingDone s) (BeforeElaborationDone s) (StatsSlaveAccessCounters s) (LinkSizeInBytes s)
    (NoTiming s) (TraceActivation s) (NoCGraph s) (ValidTargets s) (TargetToCMUEndPointID s)
    (NextCMUEndPointID s).
Definition set_TLMMasterBindInfoList x (s : C_NoCBase) : C_NoCBase :=
  mkNoC (RouterCount s) (LinkCount s) (MasterCount s) (SlaveCount s) (SlowRouterIDs s) (Links
    s) (Routers2Port s) (RoutingTables s) (RouterInputPortsCount s) (RouterOutputPortsCount s) x
    (TLMSlaveBindInfoList s) (CABAMasterBindInfoList s) (CABASlaveBindInfoList s) (MemMap s)
    (RoutingDone s) (BeforeElaborationDone s) (StatsSlaveAccessCounters s) (LinkSizeInBytes s)
    (NoTiming s) (TraceActivation s) (NoCGraph s) (ValidTargets s) (TargetToCMUEndPointID s)
    (NextCMUEndPointID s).
Definition set_TLMSlaveBindInfoList x (s : C_NoCBase) : C_NoCBase :=
  mkNoC (RouterCount s) (LinkCount s) (MasterCount s) (SlaveCount s) (SlowRouterIDs s) (Links
    s) (Routers2Port s) (RoutingTables s) (RouterInputPortsCount s) (RouterOutputPortsCount s)
    (TLMMasterBindInfoList s) x (CABAMasterBindInfoList s) (CABASlaveBindInfoList s) (MemMap s)
    (RoutingDone s) (BeforeElaborationDone s) (StatsSlaveAccessCounters s) (LinkSizeInBytes s)
    (NoTiming s) (TraceActivation s) (NoCGraph s) (ValidTargets s) (TargetToCMUEndPointID s)
    (NextCMUEndPointID s).
Definition set_CABAMasterBindInfoList x (s : C_NoCBase) : C_NoCBase :=
  mkNoC (RouterCount s) (LinkCount s) (MasterCount s) (SlaveCount s) (SlowRouterIDs s) (Links
    s) (Routers2Port s) (RoutingTables s) (RouterInputPortsCount s) (RouterOutputPortsCount s)
    (TLMMasterBindInfoList s) (TLMSlaveBindInfoList s) x (CABASlaveBindInfoList s) (MemMap s)
    (RoutingDone s) (BeforeElaborationDone s) (StatsSlaveAccessCounters s) (LinkSizeInBytes s)
    (NoTiming s) (TraceActivation s) (NoCGraph s) (ValidTargets s) (TargetToCMUEndPointID s)
    (NextCMUEndPointID s).
Definition set_CABASlaveBindInfoList x (s : C_NoCBase) : C_NoCBase :=
  mkNoC (RouterCount s) (LinkCount s) (MasterCount s) (SlaveCount s) (SlowRouterIDs s) (Links
    s) (Routers2Port s) (RoutingTables s) (RouterInputPortsCount s) (RouterOutputPortsCount s)
    (TLMMasterBindInfoList s) (TLMSlaveBindInfoList s) (CABAMasterBindInfoList s) x (MemMap s)
    (RoutingDone s) (BeforeElaborationDone s) (StatsSlaveAccessCounters s) (LinkSizeInBytes s)
    (NoTiming s) (TraceActivation s) (NoCGraph s) (ValidTargets s) (TargetToCMUEndPointID s)
    (NextCMUEndPointID s).
Definition set_MemMap x (s : C_NoCBase) : C_NoCBase :=
  mkNoC (RouterCount s) (LinkCount s) (MasterCount s) (SlaveCount s) (SlowRouterIDs s) (Links
    s) (Routers2Port s) (RoutingTables s) (RouterInputPortsCount s) (RouterOutputPortsCount s)
    (TLMMasterBindInfoList s) (TLMSlaveBindInfoList s) (CABAMasterBindInfoList s)
    (CABASlaveBindInfoList s) x (RoutingDone s) (BeforeElaborationDone s)
    (StatsSlaveAccessCounters s) (LinkSizeInBytes s) (NoTiming s) (TraceActivation s) (NoCGraph
    s) (ValidTargets s) (TargetToCMUEndPointID s) (NextCMUEndPointID s).
Definition set_RoutingDone x (s : C_NoCBase) : C_NoCBase :=
  mkNoC (RouterCount s) (LinkCount s) (MasterCount s) (SlaveCount s) (SlowRouterIDs s) (Links
    s) (Routers2Port s) (RoutingTables s) (RouterInputPortsCount s) (RouterOutputPortsCount s)
    (TLMMasterBindInfoList s) (TLMSlaveBindInfoList s) (CABAMasterBindInfoList s)
    (CABASlaveBindInfoList s) (MemMap s) x (BeforeElaborationDone s) (StatsSlaveAccessCounters
    s) (LinkSizeInBytes s) (NoTiming s) (TraceActivation s) (NoCGraph s) (ValidTargets s)
    (TargetToCMUEndPointID s) (NextCMUEndPointID s).
Definition set_BeforeElaborationDone x (s : C_NoCBase) : C_NoCBase :=
  mkNoC (RouterCount s) (LinkCount s) (MasterCount s) (SlaveCount s) (SlowRouterIDs s) (Links
    s) (Routers2Port s) (RoutingTables s) (RouterInputPortsCount s) (RouterOutputPortsCount s)
    (TLMMasterBindInfoList s) (TLMSlaveBindInfoList s) (CABAMasterBindInfoList s)
    (CABASlaveBindInfoList s) (MemMap s) (RoutingDone s) x (StatsSlaveAccessCounters s)
    (LinkSizeInBytes s) (NoTiming s) (TraceActivation s) (NoCGraph s) (ValidTargets s)
    (TargetToCMUEndPointID s) (NextCMUEndPointID s).
Definition set_StatsSlaveAccessCounters x (s : C_NoCBase) : C_NoCBase :=
  mkNoC (RouterCount s) (LinkCount s) (MasterCount s) (SlaveCount s) (SlowRouterIDs s) (Links
    s) (Routers2Port s) (RoutingTables s) (RouterInputPortsCount s) (RouterOutputPortsCount s)
    (TLMMasterBindInfoList s) (TLMSlaveBindInfoList s) (CABAMasterBindInfoList s)
    (CABASlaveBindInfoList s) (MemMap s) (RoutingDone s) (BeforeElaborationDone s) x
    (LinkSizeInBytes s) (NoTiming s) (TraceActivation s) (NoCGraph s) (ValidTargets s)
    (TargetToCMUEndPointID s) (NextCMUEndPointID s).
Definition set_LinkSizeInBytes x (s : C_NoCBase) : C_NoCBase :=
  mkNoC (RouterCount s) (LinkCount s) (MasterCount s) (SlaveCount s) (SlowRouterIDs s) (Links
    s) (Routers2Port s) (RoutingTables s) (RouterInputPortsCount s) (RouterOutputPortsCount s)
    (TLMMasterBindInfoList s) (TLMSlaveBindInfoList s) (CABAMasterBindInfoList s)
    (CABASlaveBindInfoList s) (MemMap s) (RoutingDone s) (BeforeElaborationDone s)
    (StatsSlaveAccessCounters s) x (NoTiming s) (TraceActivation s) (NoCGraph s) (ValidTargets
    s) (TargetToCMUEndPointID s) (NextCMUEndPointID s).
Definition set_NoTiming x (s : C_NoCBase) : C_NoCBase :=
  mkNoC (RouterCount s) (LinkCount s) (MasterCount s) (SlaveCount s) (SlowRouterIDs s) (Links
    s) (Routers2Port s) (RoutingTables s) (RouterInputPortsCount s) (RouterOutputPortsCount s)
    (TLMMasterBindInfoList s) (TLMSlaveBindInfoList s) (CABAMasterBindInfoList s)
    (CABASlaveBindInfoList s) (MemMap s) (RoutingDone s) (BeforeElaborationDone s)
    (StatsSlaveAccessCounters s) (LinkSizeInBytes s) x (TraceActivation s) (NoCGraph s)
    (ValidTargets s) (TargetToCMUEndPointID s) (NextCMUEndPointID s).
Definition set_TraceActivation x (s : C_NoCBase) : C_NoCBase :=
  mkNoC (RouterCount s) (LinkCount s) (MasterCount s) (SlaveCount s) (SlowRouterIDs s) (Links
    s) (Routers2Port s) (RoutingTables s) (RouterInputPortsCount s) (RouterOutputPortsCount s)
    (TLMMasterBindInfoList s) (TLMSlaveBindInfoList s) (CABAMasterBindInfoList s)
    (CABASlaveBindInfoList s) (MemMap s) (RoutingDone s) (BeforeElaborationDone s)
    (StatsSlaveAccessCounters s) (LinkSizeInBytes s) (NoTiming s) x (NoCGraph s) (ValidTargets
    s) (TargetToCMUEndPointID s) (NextCMUEndPointID s).
Definition set_NoCGraph x (s : C_NoCBase) : C_NoCBase :=
  mkNoC (RouterCount s) (LinkCount s) (MasterCount s) (SlaveCount s) (SlowRouterIDs s) (Links
    s) (Routers2Port s) (RoutingTables s) (RouterInputPortsCount s) (RouterOutputPortsCount s)
    (TLMMasterBindInfoList s) (TLMSlaveBindInfoList s) (CABAMasterBindInfoList s)
    (CABASlaveBindInfoList s) (MemMap s) (RoutingDone s) (BeforeElaborationDone s)
    (StatsSlaveAccessCounters s) (LinkSizeInBytes s) (NoTiming s) (TraceActivation s) x
    (ValidTargets s) (TargetToCMUEndPointID s) (NextCMUEndPointID s).
Definition set_ValidTargets x (s : C_NoCBase) : C_NoCBase :=
  mkNoC (RouterCount s) (LinkCount s) (MasterCount s) (SlaveCount s) (SlowRouterIDs s) (Links
    s) (Routers2Port s) (RoutingTables s) (RouterInputPortsCount s) (RouterOutputPortsCount s)
    (TLMMasterBindInfoList s) (TLMSlaveBindInfoList s) (CABAMasterBindInfoList s)
    (CABASlaveBindInfoList s) (MemMap s) (RoutingDone s) (BeforeElaborationDone s)
    (StatsSlaveAccessCounters s) (LinkSizeInBytes s) (NoTiming s) (TraceActivation s) (NoCGraph
    s) x (TargetToCMUEndPointID s) (NextCMUEndPointID s).
Definition set_TargetToCMUEndPointID x (s : C_NoCBase) : C_NoCBase :=
  mkNoC (RouterCount s) (LinkCount s) (MasterCount s) (SlaveCount s) (SlowRouterIDs s) (Links
    s) (Routers2Port s) (RoutingTables s) (RouterInputPortsCount s) (RouterOutputPortsCount s)
    (TLMMasterBindInfoList s) (TLMSlaveBindInfoList s) (CABAMasterBindInfoList s)
    (CABASlaveBindInfoList s) (MemMap s) (RoutingDone s) (BeforeElaborationDone s)
    (StatsSlaveAccessCounters s) (LinkSizeInBytes s) (NoTiming s) (TraceActivation s) (NoCGraph
    s) (ValidTargets s) x (NextCMUEndPointID s).
Definition set_NextCMUEndPointID x (s : C_NoCBase) : C_NoCBase :=
  mkNoC (RouterCount s) (LinkCount s) (MasterCount s) (SlaveCount s) (SlowRouterIDs s) (Links
    s) (Routers2Port s) (RoutingTables s) (RouterInputPortsCount s) (RouterOutputPortsCount s)
    (TLMMasterBindInfoList s) (TLMSlaveBindInfoList s) (CABAMasterBindInfoList s)
    (CABASlaveBindInfoList s) (MemMap s) (RoutingDone s) (BeforeElaborationDone s)
    (StatsSlaveAccessCounters s) (LinkSizeInBytes s) (NoTiming s) (TraceActivation s) (NoCGraph
    s) (ValidTargets s) (TargetToCMUEndPointID s) x.

(** The constructor. *)
Definition new_NoCBase : C_NoCBase :=
  mkNoC 0 0 0 0 ∅ ∅ ∅ ∅ ∅ ∅ ∅ ∅ ∅ ∅ ∅ false false ∅ 1 false false [] [] ∅ 0.

(** ** Helpers of the language *)

Definition to_int (z : Z) : Z := if bool_decide (z < 2 ^ 31) then z else z - 2 ^ 32.

(** [m\[k\]] as a value, and [m\[k\]] with its insertion. *)
Definition at_default (m : gmap Z Z) (k : Z) : Z := default 0 (m !! k).

Definition in_order (s : gset Z) : list Z := merge_sort Z.le (elements s).

Definition key_le (x y : T_TargetID * T_MemoryRegion) : Prop :=
  x.1.1 < y.1.1 ∨ x.1.1 = y.1.1 ∧ x.1.2 ≤ y.1.2.
#[global] Instance key_le_dec x y : Decision (key_le x y).
Proof. unfold key_le. apply _. Defined.
Definition in_key_order (m : gmap T_TargetID T_MemoryRegion) : list (T_TargetID * T_MemoryRegion) :=
  merge_sort key_le (map_to_list m).

(** [m\[k\]++], the value before the increment. *)
Definition next_output_port (r : Z) : M C_NoCBase Z :=
  n <- m_gets (fun s => at_default (RouterOutputPortsCount s) r) ;;
  m_modify (fun s => set_RouterOutputPortsCount (<[r := u32 (n + 1)]> (RouterOutputPortsCount s)) s) ;;;
  m_ret n.
Definition next_input_port (r : Z) : M C_NoCBase Z :=
  n <- m_gets (fun s => at_default (RouterInputPortsCount s) r) ;;
  m_modify (fun s => set_RouterInputPortsCount (<[r := u32 (n + 1)]> (RouterInputPortsCount s)) s) ;;;
  m_ret n.

(** The constructor of [C_TargetID] with [IsNew]. *)
Definition new_TargetID (RID SPID : Z) : M C_NoCBase T_TargetID :=
  n <- m_gets NextCMUEndPointID ;;
  m_modify (fun s => set_TargetToCMUEndPointID (<[(RID, SPID) := n]> (TargetToCMUEndPointID s)) s) ;;;
  m_modify (set_NextCMUEndPointID (u32 (n + 1))) ;;;
  m_ret (RID, SPID).

Definition push_info (r : Z) (i : BindInfo) (m : gmap Z (list BindInfo)) : gmap Z (list BindInfo) :=
  <[r := default [] (m !! r) ++ [i]]> m.

(** ** Topology *)

Definition AddRouter (RouterID : Z) : M C_NoCBase unit :=
  s <- m_get ;;
  if bool_decide (RouterID ∈ SlowRouterIDs s) then m_ret tt else
  m_modify (set_SlowRouterIDs (SlowRouterIDs s ∪ {[RouterID]})) ;;;
  m_modify (set_RouterInputPortsCount (<[RouterID := 0]> (RouterInputPortsCount s))) ;;;
  m_modify (set_RouterOutputPortsCount (<[RouterID := 0]> (RouterOutputPortsCount s))).

(** [std::vector::resize]: truncates or appends empty lists. *)
Definition resize_graph (n : Z) (G : Graph) : Graph :=
  take (Z.to_nat n) G ++ replicate (Z.to_nat n - length G) [].

Definition AddLink (RouterSrcID RouterDestID : Z) : M C_NoCBase unit :=
  s <- m_get ;;
  m_when (bool_decide (RouterSrcID ∉ SlowRouterIDs s)) (AddRouter RouterSrcID) ;;;
  s <- m_get ;;
  m_when (bool_decide (RouterDestID ∉ SlowRouterIDs s)) (AddRouter RouterDestID) ;;;
  RouterSrcOutPortID <- next_output_port RouterSrcID ;;
  RouterDestInPortID <- next_input_port RouterDestID ;;
  m_modify (fun s => set_Links
    (<[(RouterSrcID, RouterSrcOutPortID) := (RouterDestID, RouterDestInPortID)]> (Links s)) s) ;;;
  m_modify (fun s => set_Routers2Port
    (<[(RouterSrcID, RouterDestID) := RouterSrcOutPortID]> (Routers2Port s)) s) ;;;
  s <- m_get ;;
  m_when (bool_decide (RouterSrcID >= Z.of_nat (length (NoCGraph s))))
    (m_modify (set_NoCGraph (resize_graph (u32 (RouterSrcID + 1)) (NoCGraph s)))) ;;;
  s <- m_get ;;
  arcs <- m_lift (vec_get (NoCGraph s) RouterSrcID) ;;
  G <- m_lift (vec_set (NoCGraph s) RouterSrcID (arcs ++ [(to_int RouterDestID, 1)])) ;;
  m_modify (set_NoCGraph G).

(** [bind] of a master port. *)
Definition bind_master (MasterPort RouterID : Z) : M C_NoCBase unit :=
  OutPortID <- next_output_port RouterID ;;
  InPortID <- next_input_port RouterID ;;
  TargetID <- new_TargetID RouterID OutPortID ;;
  m_modify (fun s => set_ValidTargets (ValidTargets s ++ [TargetID]) s) ;;;
  m_modify (fun s => set_TLMMasterBindInfoList
    (push_info RouterID (mkBindInfo MasterPort RouterID InPortID OutPortID)
       (TLMMasterBindInfoList s)) s).

Definition AddMemoryMapping (TargetID : T_TargetID) (MemRegion : T_MemoryRegion) : M C_NoCBase unit :=
  m_modify (fun s => set_MemMap (<[TargetID := MemRegion]> (MemMap s)) s).

(** [bind] of a slave port with its memory region. *)
Definition bind_slave (SlavePort RouterID : Z) (MemRegion : T_MemoryRegion) : M C_NoCBase unit :=
  OutPortID <- next_output_port RouterID ;;
  InPortID <- next_input_port RouterID ;;
  m_modify (fun s => set_TLMSlaveBindInfoList
    (push_info RouterID (mkBindInfo SlavePort RouterID OutPortID InPortID)
       (TLMSlaveBindInfoList s)) s) ;;;
  TargetID <- new_TargetID RouterID OutPortID ;;
  AddMemoryMapping TargetID MemRegion ;;;
  m_modify (fun s => set_ValidTargets (ValidTargets s ++ [TargetID]) s) ;;;
  m_modify (fun s => set_StatsSlaveAccessCounters
    (<[RouterID := <[OutPortID := 0]> (default ∅ (StatsSlaveAccessCounters s !! RouterID))]>
       (StatsSlaveAccessCounters s)) s).

(** The bind infos of the cycle-accurate model have one port each. *)
Definition BindBiDir (Slave Master RouterID : Z) : M C_NoCBase T_TargetID :=
  InPortID <- next_input_port RouterID ;;
  OutPortID <- next_output_port RouterID ;;
  TargetID <- new_TargetID RouterID OutPortID ;;
  m_modify (fun s => set_ValidTargets (ValidTargets s ++ [TargetID]) s) ;;;
  m_modify (fun s => set_CABASlaveBindInfoList
    (push_info RouterID (mkBindInfo Slave RouterID OutPortID OutPortID) (CABASlaveBindInfoList s)) s) ;;;
  m_modify (fun s => set_CABAMasterBindInfoList
    (push_info RouterID (mkBindInfo Master RouterID InPortID InPortID) (CABAMasterBindInfoList s)) s) ;;;
  m_ret TargetID.

(** ** The memory map *)

Definition overlap_error : exn := Throw "The memory map contains overlapping address ".

(** The test on one pair of entries; both [MemoryAddress1] and [MemoryAddress2] are the first
    address of the second region. *)
Definition regions_conflict (R1 R2 : T_MemoryRegion) : bool :=
  let MemoryAddress1 := R2.1 in
  let MemoryAddress2 := R2.1 in
  ((bool_decide (R1.1 ≤ MemoryAddress1) && bool_decide (R1.2 >= MemoryAddress1))
   || (bool_decide (R1.1 ≤ MemoryAddress2) && bool_decide (R1.2 >= MemoryAddress2)))
  || (bool_decide (MemoryAddress1 ≤ R1.1) && bool_decide (MemoryAddress2 >= R1.1)).

Fixpoint check_pairs (l : list (T_TargetID * T_MemoryRegion)) : result unit :=
  match l with
  | [] => Ok tt
  | e :: l =>
      if existsb (fun e2 => regions_conflict e.2 e2.2) l then Err overlap_error else check_pairs l
  end.

Definition CheckMemoryMap : M C_NoCBase unit :=
  m <- m_gets MemMap ;; m_lift (check_pairs (in_key_order m)).

Definition GetTargetIDFromAddress (MemoryAddress : Z) : M C_NoCBase T_TargetID :=
  m <- m_gets MemMap ;;
  match List.find (fun e : T_TargetID * T_MemoryRegion =>
          bool_decide (e.2.1 ≤ MemoryAddress) && bool_decide (e.2.2 >= MemoryAddress))
          (in_key_order m) with
  | Some e => m_ret e.1
  | None => m_throw (Throw "No router found with this MemoryAddress ")
  end.

Definition GetBaseAddressFromTargetID (TargetID : T_TargetID) : M C_NoCBase Z :=
  m <- m_gets MemMap ;;
  match m !! TargetID with
  | Some r => m_ret r.1
  | None => m_modify (set_MemMap (<[TargetID := (0, 0)]> m)) ;;; m_ret 0
  end.

(** ** Routing tables *)

Definition is_routed (s : C_NoCBase) (r target : Z) : bool :=
  match RoutingTables s !! r with
  | Some t => bool_decide (is_Some (t !! target))
  | None => false
  end.

Definition set_route (r target port : Z) (s : C_NoCBase) : C_NoCBase :=
  set_RoutingTables (<[r := <[target := port]> (default ∅ (RoutingTables s !! r))]> (RoutingTables s)) s.

Definition AddRouting (RouterSrcID RouterTargetID OutPortID : Z) : M C_NoCBase bool :=
  s <- m_get ;;
  if is_routed s RouterSrcID RouterTargetID then m_ret false else
  m_modify (set_route RouterSrcID RouterTargetID OutPortID) ;;; m_ret true.

(** [Routers2Port\[(cur, next)\]] *)
Definition port_between (cur next : Z) : M C_NoCBase Z :=
  s <- m_get ;;
  match Routers2Port s !! (cur, next) with
  | Some p => m_ret p
  | None => m_modify (set_Routers2Port (<[(cur, next) := 0]> (Routers2Port s))) ;;; m_ret 0
  end.

(** The loop on the path, which is walked from its end: [l] is the part from [path\[i\]] down. *)
Fixpoint install_path (SlaveID : Z) (l : list Z) : M C_NoCBase unit :=
  match l with
  | cur :: ((next :: _) as rest) =>
      let CurRouter := u32 cur in
      let NextRouter := u32 next in
      CurPort <- port_between CurRouter NextRouter ;;
      added <- AddRouting CurRouter SlaveID CurPort ;;
      if (added : bool) then install_path SlaveID rest else m_ret tt
  | _ => m_ret tt
  end.

Section routing.
Context {Q : Type} `{!PriorityQueue Q}.

Definition route_pair (MasterID SlaveID : Z) : M C_NoCBase unit :=
  s <- m_get ;;
  if bool_decide (MasterID = SlaveID) then m_ret tt else
  if is_routed s MasterID SlaveID then m_ret tt else
  path <- m_lift (dijkstra (NoCGraph s) (to_int MasterID) (to_int SlaveID)) ;;
  install_path SlaveID (rev path).

Definition BuildDefaultRoutingBidirectional : M C_NoCBase unit :=
  s <- m_get ;;
  m_forM (in_order (SlowRouterIDs s)) (fun IT1 =>
    m_forM (in_order (SlowRouterIDs s)) (fun IT2 => route_pair IT1 IT2)) ;;;
  m_modify (set_NoCGraph []) ;;;
  m_modify (set_RoutingDone true).
End routing.

Definition SetNoCLinkSize (n : Z) : M C_NoCBase unit := m_modify (set_LinkSizeInBytes n).
Definition SetTimingActivation (b : bool) : M C_NoCBase unit := m_modify (set_NoTiming (negb b)).
Definition SetTraceActivation (b : bool) : M C_NoCBase unit := m_modify (set_TraceActivation b).

(** ** Hop counts without contention *)

(** [Next\[RouterID\]\[SlaveID\]]: the neighbour the routing tables lead to. *)
Definition next_of (RouterID SlaveID : Z) : M C_NoCBase (Z * Z) :=
  s <- m_get ;;
  let t := default ∅ (RoutingTables s !! RouterID) in
  let outport := default 0 (t !! SlaveID) in
  m_modify (set_RoutingTables (<[RouterID := <[SlaveID := outport]> t]> (RoutingTables s))) ;;;
  let nexts := default (0, 0) (Links s !! (RouterID, outport)) in
  m_modify (set_Links (<[(RouterID, outport) := nexts]> (Links s))) ;;;
  m_ret nexts.

Fixpoint next_row (RouterID : Z) (slaves : list Z) : M C_NoCBase (list (Z * Z)) :=
  match slaves with
  | [] => m_ret []
  | j :: slaves => x <- next_of RouterID j ;; xs <- next_row RouterID slaves ;; m_ret (x :: xs)
  end.
Fixpoint next_table (routers slaves : list Z) : M C_NoCBase (list (list (Z * Z))) :=
  match routers with
  | [] => m_ret []
  | i :: routers => x <- next_row i slaves ;; xs <- next_table routers slaves ;; m_ret (x :: xs)
  end.

(** The while loop: routers entered until [CurRouter] is the slave. *)
Fixpoint hop_loop (fuel : nat) (Next : list (list (Z * Z))) (CurRouter SlaveID HopCounter : Z) : result Z :=
  if bool_decide (CurRouter = SlaveID) then Ok HopCounter else
  match fuel with
  | O => Err OutOfFuel
  | S fuel =>
      let* row := vec_get Next CurRouter in
      let* nexts := vec_get row SlaveID in
      hop_loop fuel Next nexts.1 SlaveID (HopCounter + 1)
  end.

Fixpoint result_map {A B} (f : A → result B) (l : list A) : result (list B) :=
  match l with
  | [] => Ok []
  | x :: l => let* y := f x in let* ys := result_map f l in Ok (y :: ys)
  end.

(** [C_NoCNoContention::before_end_of_elaboration], with the table [HopCount] as result. *)
Definition before_end_of_elaboration : M C_NoCBase (list (list Z)) :=
  m_modify (fun s => set_RouterCount (Z.of_nat (size (SlowRouterIDs s))) s) ;;;
  m_modify (fun s => set_SlaveCount (RouterCount s) s) ;;;
  m_modify (fun s => set_MasterCount (RouterCount s) s) ;;;
  m_modify (fun s => set_LinkCount (Z.of_nat (size (Links s))) s) ;;;
  s <- m_get ;;
  let ids := seqZ 0 (RouterCount s) in
  Next <- next_table ids ids ;;
  HopCount <- m_lift (result_map (fun i =>
                result_map (fun j => hop_loop (S (Z.to_nat (RouterCount s))) Next i j 0) ids) ids) ;;
  m_modify (set_BeforeElaborationDone true) ;;;
  m_ret HopCount.

(** ** Topologies *)

(** The constructor of [C_Ring]. *)
Definition C_Ring (Size : Z) (Bidirectional : bool) : M C_NoCBase unit :=
  if bool_decide (Size = 1) then AddRouter 0 else
  m_forM (seqZ 0 Size) (fun RouterId =>
    let NextRouterID := u32 (RouterId + 1) mod Size in
    let PrevRouterID := if bool_decide (RouterId = 0) then u32 (Size - 1) else RouterId - 1 in
    AddLink RouterId NextRouterID ;;;
    m_when Bidirectional (AddLink RouterId PrevRouterID)).

(** The constructor of [C_Bus]. *)
Definition C_Bus : M C_NoCBase unit := AddRouter 0.

(** The constructor of [C_Mesh]. *)
Definition C_Mesh (SizeX SizeY : Z) : M C_NoCBase unit :=
  m_modify (set_RoutingDone false) ;;;
  m_when (bool_decide (SizeX = 1) && bool_decide (SizeY = 1)) (AddRouter 0) ;;;
  m_forM (seqZ 0 SizeX) (fun i => m_forM (seqZ 0 SizeY) (fun j =>
    let RouterId := u32 (i * SizeY + j) in
    let NorthID := u32 (RouterId + 1) in
    let SouthID := u32 (RouterId - 1) in
    let EastID := u32 (RouterId + SizeY) in
    let WestID := u32 (RouterId - SizeY) in
    m_when (bool_decide (u32 (j + 1) < SizeY)) (AddLink RouterId NorthID) ;;;
    m_when (bool_decide (j >= 1)) (AddLink RouterId SouthID) ;;;
    m_when (bool_decide (u32 (i + 1) < SizeX)) (AddLink RouterId EastID) ;;;
    m_when (bool_decide (i >= 1)) (AddLink RouterId WestID))).

(** The port the XY routing of [C_Mesh] sends to: clockwise from north. *)
Definition xy_port (i j ii jj : Z) : result Z :=
  if bool_decide (ii < i) then Ok 3 else if bool_decide (ii > i) then Ok 1 else
  if bool_decide (jj < j) then Ok 2 else if bool_decide (jj > j) then Ok 0 else
  Err (Throw "undefined case, should not occur").

Definition BuildRoutingXY (SizeX SizeY : Z) : M C_NoCBase unit :=
  m_forM (seqZ 0 SizeX) (fun i => m_forM (seqZ 0 SizeY) (fun j =>
    let RouterId := u32 (i * SizeY + j) in
    m_forM (seqZ 0 SizeX) (fun ii => m_forM (seqZ 0 SizeY) (fun jj =>
      if bool_decide (ii = i) && bool_decide (jj = j) then m_ret tt else
      let TargetId := u32 (ii * SizeY + jj) in
      OutPort <- m_lift (xy_port i j ii jj) ;;
      AddRouting RouterId TargetId OutPort ;;;
      m_ret tt)))).

(** [C_Mesh::BuildRouting]; [XY] is one of the modes. *)
Definition BuildRouting {Q} `{!PriorityQueue Q} (xy : bool) (SizeX SizeY : Z) : M C_NoCBase unit :=
  (if xy then BuildRoutingXY SizeX SizeY else BuildDefaultRoutingBidirectional (Q := Q)) ;;;
  m_modify (set_RoutingDone true).
