(* ===== verification/NoCRouting.v ===== *)
(** * Default routing is shortest-path routing

    What [AddLink] builds, what the memory map check accepts, and the composition of
    [BuildDefaultRoutingBidirectional] with the hop counts of the contention-free model: on a
    strongly connected NoC every table entry leads one hop nearer to its target, so that
    following the tables takes the least possible number of hops. *)

From stdpp Require Import sorting.
From S2P Require Import Prelude Dijkstra NoCBase.

(** ** What [AddLink] builds *)

Lemma AddRouter_run r s :
  ∃ s', AddRouter r s = (Ok tt, s') ∧ SlowRouterIDs s' = SlowRouterIDs s ∪ {[r]}
    ∧ Links s' = Links s ∧ Routers2Port s' = Routers2Port s ∧ RoutingTables s' = RoutingTables s
    ∧ NoCGraph s' = NoCGraph s
    ∧ ∀ x, at_default (RouterOutputPortsCount s') x =
           if decide (x = r ∧ r ∉ SlowRouterIDs s) then 0 else at_default (RouterOutputPortsCount s) x.
Proof.
  unfold AddRouter, m_bind, m_get. case_bool_decide as Hr.
  - exists s. split_and!; try done; [set_solver|]. intros x. by rewrite decide_False by tauto.
  - eexists. split; [reflexivity|]. split_and!; try done. intros x. simpl. unfold at_default.
    case_decide as Hx; [destruct Hx as [-> _]; by rewrite lookup_insert_eq|].
    rewrite lookup_insert_ne; [done|]. intros ->. tauto.
Qed.

Lemma edge_push G u es v a b w : 0 ≤ u → G !! Z.to_nat u = Some es →
  edge (<[Z.to_nat u := es ++ [(v, 1)]]> G) a b w ↔ edge G a b w ∨ (a, b, w) = (u, v, 1).
Proof.
  intros Hu Hes. unfold edge. destruct (decide (a = u)) as [->|Hne].
  - rewrite list_lookup_insert_eq by (by apply lookup_lt_Some in Hes). split.
    + intros (_ & es' & [= <-] & [Hin|Hin%list_elem_of_singleton]%elem_of_app); [eauto|].
      right. congruence.
    + intros [(_ & es' & Hes' & Hin)|[= -> ->]].
      * split; [done|]. eexists. split; [done|]. apply elem_of_app. left. congruence.
      * split; [done|]. eexists. split; [done|]. apply elem_of_app. right. by apply list_elem_of_singleton.
  - split.
    + intros (Ha & es' & Hl & Hin). left. split; [done|]. exists es'.
      rewrite list_lookup_insert_ne in Hl by lia. done.
    + intros [(Ha & es' & Hl & Hin)|[= -> _ _]]; [|done]. split; [done|]. exists es'.
      rewrite list_lookup_insert_ne by lia. done.
Qed.

Lemma edge_resize G n a b w : Z.of_nat (length G) ≤ n → edge (resize_graph n G) a b w ↔ edge G a b w.
Proof.
  intros Hn. unfold edge, resize_graph. rewrite take_ge by lia. split; intros (Ha & es & Hl & Hin).
  - apply lookup_app_Some in Hl as [Hl|[_ Hl]]; [eauto|].
    apply lookup_replicate in Hl as [-> _]. by apply elem_of_nil in Hin.
  - split; [done|]. exists es. by rewrite lookup_app_l by (by apply lookup_lt_Some in Hl).
Qed.

Lemma length_resize G n : Z.of_nat (length G) ≤ n → Z.of_nat (length (resize_graph n G)) = n.
Proof. intros Hn. unfold resize_graph. rewrite length_app, length_take, length_replicate. lia. Qed.

(** The graph after a link from [u]. *)
Lemma push_arc_run u v s : 0 ≤ u < 2 ^ 31 → 0 ≤ v < 2 ^ 31 → Z.of_nat (length (NoCGraph s)) < 2 ^ 31 →
  ∃ G', (s <- m_get ;;
     m_when (bool_decide (u >= Z.of_nat (length (NoCGraph s))))
       (m_modify (set_NoCGraph (resize_graph (u32 (u + 1)) (NoCGraph s)))) ;;;
     s <- m_get ;;
     arcs <- m_lift (vec_get (NoCGraph s) u) ;;
     G <- m_lift (vec_set (NoCGraph s) u (arcs ++ [(to_int v, 1)])) ;;
     m_modify (set_NoCGraph G)) s = (Ok tt, set_NoCGraph G' s)
  ∧ Z.of_nat (length G') = Z.max (Z.of_nat (length (NoCGraph s))) (u + 1)
  ∧ ∀ a b w, edge G' a b w ↔ edge (NoCGraph s) a b w ∨ (a, b, w) = (u, v, 1).
Proof.
  intros Hu Hv Hl. assert (u32 (u + 1) = u + 1) as Hu1 by (apply u32_small; unfold in_u32; lia).
  assert (to_int v = v) as Hv1 by (unfold to_int; by rewrite bool_decide_true by lia).
  unfold m_bind, m_get, m_when, m_modify, m_lift, m_ret. rewrite Hu1, Hv1.
  set (G1 := if bool_decide (u >= Z.of_nat (length (NoCGraph s)))
             then resize_graph (u + 1) (NoCGraph s) else NoCGraph s).
  assert (Z.of_nat (length G1) = Z.max (Z.of_nat (length (NoCGraph s))) (u + 1)) as HG1.
  { unfold G1. case_bool_decide; [rewrite length_resize; lia|lia]. }
  assert (∀ a b w, edge G1 a b w ↔ edge (NoCGraph s) a b w) as HE.
  { intros a b w. unfold G1. case_bool_decide; [apply edge_resize; lia|done]. }
  destruct (vec_get_ok G1 u) as (es & Hg & Hes); [lia|].
  exists (<[Z.to_nat u := es ++ [(v, 1)]]> G1). split_and!.
  - transitivity (match vec_get G1 u with Ok arcs => match vec_set G1 u (arcs ++ [(v, 1)]) with
        Ok G => (Ok tt, set_NoCGraph G s) | Err e => (Err e, s) end | Err e => (Err e, s) end).
    2:{ rewrite Hg, vec_set_in by lia. done. }
    unfold G1 in *. case_bool_decide; simpl; rewrite Hg; cbn; rewrite vec_set_in by lia; destruct s; done.
  - by rewrite length_insert.
  - intros a b w. rewrite edge_push by (done || lia). by rewrite HE.
Qed.

(** The topology a list of links describes. *)
Definition linked (links : list (Z * Z)) (u v : Z) : Prop := (u, v) ∈ links.
Definition is_router (links : list (Z * Z)) (r : Z) : Prop := ∃ u v, (u, v) ∈ links ∧ (r = u ∨ r = v).

Record topo (links : list (Z * Z)) (s : C_NoCBase) : Prop := mkTopo {
  topo_slow r : r ∈ SlowRouterIDs s ↔ is_router links r;
  topo_r2p u v : is_Some (Routers2Port s !! (u, v)) ↔ linked links u v;
  topo_ports u v p : Routers2Port s !! (u, v) = Some p → ∃ q, Links s !! (u, p) = Some (v, q);
  topo_edge u v w : edge (NoCGraph s) u v w ↔ w = 1 ∧ linked links u v;
  topo_fresh u p : is_Some (Links s !! (u, p)) →
    u ∈ SlowRouterIDs s ∧ p < at_default (RouterOutputPortsCount s) u;
  topo_count u : u ∈ SlowRouterIDs s →
    0 ≤ at_default (RouterOutputPortsCount s) u ≤ Z.of_nat (length links);
  topo_size n : (∀ u v, linked links u v → 0 ≤ u < n) → 0 ≤ n → Z.of_nat (length (NoCGraph s)) ≤ n;
  topo_tables : RoutingTables s = ∅ }.

(** The routers and the ports of a link. *)
Lemma AddLink_run u v s : 0 ≤ u < 2 ^ 31 → 0 ≤ v < 2 ^ 31 → Z.of_nat (length (NoCGraph s)) < 2 ^ 31 →
  ∃ s' p q, AddLink u v s = (Ok tt, s')
  ∧ SlowRouterIDs s' = SlowRouterIDs s ∪ {[u; v]}
  ∧ p = (if decide (u ∈ SlowRouterIDs s) then at_default (RouterOutputPortsCount s) u else 0)
  ∧ Links s' = <[(u, p) := (v, q)]> (Links s)
  ∧ Routers2Port s' = <[(u, v) := p]> (Routers2Port s)
  ∧ RoutingTables s' = RoutingTables s
  ∧ Z.of_nat (length (NoCGraph s')) = Z.max (Z.of_nat (length (NoCGraph s))) (u + 1)
  ∧ (∀ a b w, edge (NoCGraph s') a b w ↔ edge (NoCGraph s) a b w ∨ (a, b, w) = (u, v, 1))
  ∧ (∀ x, at_default (RouterOutputPortsCount s') x = if decide (x = u) then u32 (p + 1) else
       if decide (x = v ∧ v ∉ SlowRouterIDs s) then 0 else at_default (RouterOutputPortsCount s) x).
Proof.
  intros Hu Hv Hl. unfold AddLink.
  assert (∀ r t, (m_when (bool_decide (r ∉ SlowRouterIDs t)) (AddRouter r)) t = AddRouter r t) as Hwhen.
  { intros r t. unfold AddRouter, m_when, m_bind, m_get, m_ret. by repeat case_bool_decide. }
  destruct (AddRouter_run u s) as (s1 & E1 & Hs1 & HL1 & HR1 & HT1 & HG1 & HO1).
  destruct (AddRouter_run v s1) as (s2 & E2 & Hs2 & HL2 & HR2 & HT2 & HG2 & HO2).
  m_exec. m_exec_by (eq_trans (Hwhen _ _) E1). m_exec. m_exec_by (eq_trans (Hwhen _ _) E2).
  unfold next_output_port, next_input_port. m_exec. m_exec. m_exec. m_exec.
  set (s3 := set_Routers2Port _ _).
  destruct (push_arc_run u v s3 Hu Hv) as (G' & -> & HlG & HeG).
  { subst s3. cbn. by rewrite HG2, HG1. }
  do 3 eexists. split; [reflexivity|]. subst s3; cbn in *.
  rewrite HG2, HG1 in HlG, HeG. rewrite HO2, HO1, HL2, HL1, HR2, HR1, HT2, HT1, Hs2, Hs1.
  split; [set_solver|].
  assert (∀ x y : Z, (if decide (u = v ∧ v ∉ SlowRouterIDs s ∪ {[u]}) then x else y) = y) as Hif.
  { intros x y. rewrite decide_False; [done|]. set_solver. }
  assert (∀ y : Z, (if decide (u = u ∧ u ∉ SlowRouterIDs s) then 0 else y)
                   = if decide (u ∈ SlowRouterIDs s) then y else 0) as Hif'.
  { intros y. by repeat case_decide; try tauto. }
  rewrite Hif, Hif'. split_and!; try done.
  - intros x. unfold at_default at 1. destruct (decide (x = u)) as [->|Hx].
    + by rewrite lookup_insert_eq.
    + rewrite lookup_insert_ne by done. change (default 0 _) with (at_default (RouterOutputPortsCount s2) x).
      rewrite HO2, HO1, Hs1.
      assert (x = v ∧ v ∉ SlowRouterIDs s ∪ {[u]} ↔ x = v ∧ v ∉ SlowRouterIDs s) as Heq
        by (clear -Hx; set_solver).
      rewrite (decide_False (P := x = u ∧ _)) by (intros [? _]; done). by apply decide_ext.
Qed.

Definition build_links (links : list (Z * Z)) : M C_NoCBase unit :=
  m_forM links (fun e => AddLink e.1 e.2).

Definition ids_below (n : Z) (links : list (Z * Z)) : Prop :=
  ∀ u v, (u, v) ∈ links → 0 ≤ u < n ∧ 0 ≤ v < n.

Lemma topo_new : topo [] new_NoCBase.
Proof.
  split; simpl; try (intros; set_solver).
  - intros r. split; [set_solver|]. intros (u & v & Hin & _). by apply elem_of_nil in Hin.
  - intros u v. rewrite lookup_empty. split; [by intros [? ?]|]. intros Hin. by apply elem_of_nil in Hin.
  - intros u v w. split; [|intros [_ Hin]; by apply elem_of_nil in Hin].
    intros (_ & es & Hes & _). done.
  - intros u p [x Hx]. by rewrite lookup_empty in Hx.
Qed.

Lemma topo_AddLink n links u v s :
  topo links s → ids_below n ((u, v) :: links) → 0 ≤ n < 2 ^ 31 → Z.of_nat (length links) < 2 ^ 31 →
  runs (AddLink u v) s (fun _ s' => topo (links ++ [(u, v)]) s').
Proof.
  intros [Hslow Hr2p Hports Hedge Hfresh Hcount Hsize Htab] Hids Hn Hlen.
  destruct (Hids u v ltac:(left)) as [Hu Hv].
  assert (Z.of_nat (length (NoCGraph s)) ≤ n) as HG.
  { apply Hsize; [|lia]. intros a b Hab. by apply (Hids a b); right. }
  destruct (AddLink_run u v s ltac:(lia) ltac:(lia) ltac:(lia))
    as (s' & p & q & E & Hs' & Hp & HL & HR & HT & HlG & HeG & HO).
  unfold runs. rewrite E.
  assert (∀ a b, linked (links ++ [(u, v)]) a b ↔ linked links a b ∨ (a, b) = (u, v)) as Hlk.
  { intros a b. unfold linked. rewrite elem_of_app, list_elem_of_singleton. done. }
  assert (0 ≤ p ≤ Z.of_nat (length links)) as Hpb.
  { rewrite Hp. case_decide; [by apply Hcount|lia]. }
  assert (u32 (p + 1) = p + 1) as Hp1 by (apply u32_small; unfold in_u32; lia).
  assert (Links s !! (u, p) = None) as Hnew.
  { apply eq_None_not_Some. intros HS. destruct (Hfresh u p HS) as [Hin Hlt].
    rewrite decide_True in Hp by done. lia. }
  split.
  - intros r. rewrite Hs', !elem_of_union, Hslow, !elem_of_singleton. unfold is_router. split.
    + intros [(a & b & Hab & Hr)|[-> | ->]].
      * exists a, b. split; [by apply elem_of_app; left|done].
      * exists u, v. split; [apply elem_of_app; right; by apply list_elem_of_singleton|by left].
      * exists u, v. split; [apply elem_of_app; right; by apply list_elem_of_singleton|by right].
    + intros (a & b & Hab & Hr). apply Hlk in Hab as [Hab|[= -> ->]]; [left; by exists a, b|tauto].
  - intros a b. rewrite HR, Hlk, <- Hr2p. destruct (decide ((a, b) = (u, v))) as [[= -> ->]|Hne].
    + rewrite lookup_insert_eq. naive_solver.
    + rewrite lookup_insert_ne by congruence. naive_solver.
  - intros a b p'. rewrite HR, HL. destruct (decide ((a, b) = (u, v))) as [[= -> ->]|Hne].
    + rewrite lookup_insert_eq. intros [= <-]. exists q. by rewrite lookup_insert_eq.
    + rewrite lookup_insert_ne by congruence. intros Hp'. destruct (Hports a b p' Hp') as [q' Hq'].
      exists q'. rewrite lookup_insert_ne; [done|]. intros [= -> ->]. congruence.
  - intros a b w. rewrite HeG, Hedge, Hlk. naive_solver.
  - intros a p'. rewrite HL, Hs', HO. destruct (decide ((a, p') = (u, p))) as [[= -> ->]|Hne].
    + intros _. split; [set_solver|]. rewrite decide_True by done. lia.
    + rewrite lookup_insert_ne by congruence. intros HS. destruct (Hfresh a p' HS) as [Ha Hlt].
      split; [set_solver|]. destruct (decide (a = u)) as [->|Hau].
      { rewrite decide_True in Hp by done. lia. }
      rewrite decide_False; [done|]. intros [-> ?]. done.
  - intros a. rewrite Hs', HO, length_app. simpl. intros Ha. destruct (decide (a = u)); [lia|].
    destruct (decide (a = v ∧ v ∉ SlowRouterIDs s)); [lia|].
    assert (a ∈ SlowRouterIDs s) as Ha' by set_solver. specialize (Hcount a Ha'). lia.
  - intros m Hm Hm0. rewrite HlG. pose proof (Hm u v ltac:(apply Hlk; by right)).
    assert (Z.of_nat (length (NoCGraph s)) ≤ m); [|lia]. apply Hsize; [|done].
    intros a b Hab. apply (Hm a b), Hlk. by left.
  - by rewrite HT.
Qed.

Lemma topo_build n links : ids_below n links → 0 ≤ n < 2 ^ 31 → Z.of_nat (length links) < 2 ^ 31 →
  runs (build_links links) new_NoCBase (fun _ s => topo links s).
Proof.
  intros Hids Hn Hlen. unfold build_links.
  assert (∀ l2 l1 s, links = l1 ++ l2 → topo l1 s →
    runs (m_forM l2 (fun e => AddLink e.1 e.2)) s (fun _ s' => topo links s')) as Hgen.
  { intros l2. induction l2 as [|[u v] l2 IH]; intros l1 s Heq Ht.
    - rewrite app_nil_r in Heq. subst. done.
    - cbn [m_forM]. apply runs_bind. eapply runs_conseq.
      + apply (topo_AddLink n l1); [done| |done|].
        * intros a b Hab. apply Hids. rewrite Heq, elem_of_app, elem_of_cons.
          apply elem_of_cons in Hab. tauto.
        * rewrite Heq, length_app in Hlen. simpl in *. lia.
      + intros [] s' Ht'. apply (IH (l1 ++ [(u, v)])); [|done]. by rewrite <- app_assoc. }
  apply (Hgen links []); [done|apply topo_new].
Qed.

(** ** Shortest paths of the links *)

(** [n] links lead from [a] to [b], and no fewer. *)
Definition link_dist (links : list (Z * Z)) (a b : Z) (n : nat) : Prop :=
  nsteps (linked links) n a b ∧ ∀ m, nsteps (linked links) m a b → (n ≤ m)%nat.

(** Consecutive routers of the list are linked. *)
Fixpoint along (links : list (Z * Z)) (l : list Z) : Prop :=
  match l with
  | u :: ((v :: _) as l') => linked links u v ∧ along links l'
  | _ => True
  end.

Lemma along_snoc links l u v : along links (l ++ [u]) → linked links u v → along links (l ++ [u; v]).
Proof.
  induction l as [|x l IH]; [done|]. destruct l as [|y l]; simpl in *; [tauto|].
  intros [Hx Hal] Hl. split; [done|]. by apply IH.
Qed.

Lemma along_nsteps links l : ∀ a b, along links (a :: l) → last (a :: l) = Some b →
  nsteps (linked links) (length l) a b.
Proof.
  induction l as [|v l IH]; intros a b Hal Hlast.
  - injection Hlast as ->. constructor.
  - destruct Hal as [Hl Hal]. econstructor; [exact Hl|]. by apply IH.
Qed.

(** What remains of a shortest path is a shortest path. *)
Lemma link_dist_tail links a v l b : along links (a :: v :: l) → last (v :: l) = Some b →
  link_dist links a b (S (length l)) → link_dist links v b (length l).
Proof.
  intros [Ha Hal] Hlast [_ Hmin]. split; [by apply along_nsteps|].
  intros m Hm. pose proof (Hmin (S m) (nsteps_l _ _ _ _ _ Ha Hm)). lia.
Qed.

Section connected.
Context (links : list (Z * Z)) (N : Z) (s0 : C_NoCBase).
Context (Htopo : topo links s0) (HN : 0 < N < 2 ^ 23) (Hids : ids_below N links).
Context (Hconn : ∀ a b, is_router links a → is_router links b → rtc (linked links) a b).

Abbreviation G := (NoCGraph s0).

Lemma router_id r : is_router links r → 0 ≤ r < N.
Proof. intros (u & v & Hin & Hr). destruct (Hids u v Hin). naive_solver. Qed.

(** Every router has an outgoing link, so that it is a vertex of the graph. *)
Lemma router_vertex r : is_router links r → vertex G r.
Proof.
  intros Hr. assert (∃ v, linked links r v) as [v Hv].
  { destruct (id Hr) as (a & b & Hab & [-> | ->]); [by exists b|].
    destruct (decide (a = b)) as [->|Hne]; [by exists b|].
    assert (is_router links a) as Ha by (exists a, b; auto).
    pose proof (Hconn b a Hr Ha) as Hrtc. inversion Hrtc as [|? y ? Hy]; subst; [done|]. by exists y. }
  destruct (proj2 (topo_edge _ _ Htopo r v 1) (conj eq_refl Hv)) as (Hr0 & es & Hes & _).
  apply lookup_lt_Some in Hes. split; [done|lia].
Qed.

Lemma graph_wf : wf_graph G 1.
Proof.
  split.
  - intros u v w He. apply (topo_edge _ _ Htopo) in He as [-> Hl]. split; [|lia].
    apply router_vertex. exists u, v. auto.
  - assert (Z.of_nat (length G) ≤ N); [|lia]. apply (topo_size _ _ Htopo); [|lia].
    intros u v Huv. by apply (Hids u v).
Qed.

Lemma walk_links a b k : walk G a b k → ∃ n, k = Z.of_nat n ∧ nsteps (linked links) n a b.
Proof.
  induction 1 as [|u v k w _ (n & -> & Hn) He]; [exists 0%nat; split; [done|constructor]|].
  apply (topo_edge _ _ Htopo) in He as [-> Hl]. exists (S n). split; [lia|]. by eapply nsteps_r.
Qed.

Lemma links_walk a b n : vertex G a → nsteps (linked links) n a b → walk G a b (Z.of_nat n).
Proof.
  intros Ha. revert b. induction n as [|n IH]; intros b Hn; [inversion Hn; subst; by apply walk_refl|].
  apply nsteps_inv_r in Hn as (y & Hy & Hl).
  replace (Z.of_nat (S n)) with (Z.of_nat n + 1) by lia.
  econstructor; [by apply IH|]. by apply (topo_edge _ _ Htopo).
Qed.

Lemma rpath_along a p k : rpath G a p k →
  along links (rev p) ∧ Z.of_nat (length p) = k + 1 ∧ head (rev p) = Some a.
Proof.
  induction 1 as [|v u p k w Hp (IH & Hlen & Hh) He]; [done|].
  apply (topo_edge _ _ Htopo) in He as [-> Hl]. simpl in *. rewrite <- app_assoc. split_and!.
  - by apply along_snoc.
  - lia.
  - by destruct (rev p).
Qed.

(** The path [dijkstra] finds, from its end. *)
Lemma dijkstra_links {Q} `{!PriorityQueue Q} a b : is_router links a → is_router links b →
  ∃ path l, dijkstra (Q := Q) G a b = Ok path ∧ rev path = a :: l ∧ along links (a :: l)
    ∧ last (a :: l) = Some b ∧ link_dist links a b (length l) ∧ Z.of_nat (length l) ≤ N.
Proof.
  intros Ha Hb. pose proof (router_vertex a Ha) as Hv.
  destruct (proj1 (rtc_nsteps _ _) (Hconn a b Ha Hb)) as [m Hm].
  destruct (dijkstra_spec G 1 a b (Z.of_nat m) graph_wf Hv (links_walk a b m Hv Hm))
    as (l & n & Hr & Hp & [Hw Hmin] & Hn).
  destruct (rpath_along _ _ _ Hp) as (Hal & Hlen & Hh).
  destruct (rev (b :: l)) as [|x l'] eqn:Hrev; [done|]. injection Hh as ->.
  assert (length (a :: l') = length (b :: l)) as Hll by (by rewrite <- Hrev, length_rev).
  simpl in Hll, Hlen. exists (b :: l), l'. split_and!; try done.
  - rewrite <- Hrev. simpl. by rewrite last_snoc.
  - destruct (walk_links _ _ _ Hw) as (n' & -> & Hn'). split.
    + replace (length l') with n' by lia. done.
    + intros m' Hm'. pose proof (Hmin _ (links_walk a b m' Hv Hm')). lia.
  - assert (Z.of_nat (length G) ≤ N); [|lia]. apply (topo_size _ _ Htopo); [|lia].
    intros u v Huv. by apply (Hids u v).
Qed.

(** ** The routing tables *)

Definition entry (t : gmap Z (gmap Z Z)) (r b : Z) : option Z := t !! r ≫= fun m => m !! b.

(** Every entry leads to a neighbour that is one hop nearer and that is the target, has an
    entry itself, or is the router [x] whose entry is about to be made. *)
Definition tables_ok (x : option (Z * Z)) (t : gmap Z (gmap Z Z)) : Prop :=
  ∀ r b p, entry t r b = Some p → ∃ v q k, Links s0 !! (r, p) = Some (v, q)
    ∧ link_dist links r b (S k) ∧ link_dist links v b k
    ∧ (v = b ∨ is_Some (entry t v b) ∨ x = Some (v, b)).

Lemma is_routed_entry s r b : is_routed s r b = true ↔ is_Some (entry (RoutingTables s) r b).
Proof.
  unfold is_routed, entry. destruct (RoutingTables s !! r); simpl.
  - apply bool_decide_eq_true.
  - split; [done|by intros [? ?]].
Qed.

Lemma entry_set t r b p r' b' :
  entry (<[r := <[b := p]> (default ∅ (t !! r))]> t) r' b' =
  if decide ((r', b') = (r, b)) then Some p else entry t r' b'.
Proof.
  unfold entry. destruct (decide (r' = r)) as [->|Hr].
  - rewrite lookup_insert_eq. simpl. destruct (decide (b' = b)) as [->|Hb].
    + rewrite lookup_insert_eq. by rewrite decide_True.
    + rewrite lookup_insert_ne by done. rewrite decide_False by congruence.
      destruct (t !! r); simpl; [done|by rewrite lookup_empty].
  - rewrite lookup_insert_ne by done. by rewrite decide_False by congruence.
Qed.

Abbreviation with_tables t := (set_RoutingTables t s0).
Definition grows (t t' : gmap Z (gmap Z Z)) : Prop :=
  ∀ r b, is_Some (entry t r b) → is_Some (entry t' r b).

Lemma port_between_links t u v : linked links u v →
  ∃ p q, port_between (u32 u) (u32 v) (with_tables t) = (Ok p, with_tables t)
    ∧ Links s0 !! (u, p) = Some (v, q) ∧ u32 u = u.
Proof.
  intros Hl. destruct (Hids u v Hl).
  assert (u32 u = u) as Hu by (apply u32_small; unfold in_u32; lia).
  assert (u32 v = v) as Hv by (apply u32_small; unfold in_u32; lia).
  rewrite Hu, Hv. destruct (proj2 (topo_r2p _ _ Htopo u v) Hl) as [p Hp].
  destruct (topo_ports _ _ Htopo u v p Hp) as [q Hq].
  exists p, q. split_and!; [|done..]. unfold port_between. m_exec. simpl. by rewrite Hp.
Qed.

Lemma install_ok b l : ∀ cur t, along links (cur :: l) → last (cur :: l) = Some b →
  link_dist links cur b (length l) → tables_ok (Some (cur, b)) t →
  ∃ t', install_path b (cur :: l) (with_tables t) = (Ok tt, with_tables t') ∧ tables_ok None t'
    ∧ (cur = b ∨ is_Some (entry t' cur b)) ∧ grows t t'.
Proof.
  induction l as [|next l IH]; intros cur t Hal Hlast Hd Ht.
  { injection Hlast as ->. exists t. split_and!; [done| |by left|by intros r c]. intros r c p Hp.
    destruct (Ht r c p Hp) as (v & q & k & ? & ? & ? & Hv). exists v, q, k. split_and!; [done..|].
    destruct Hv as [?|[?|[= ? ?]]]; subst; auto. }
  destruct Hal as [Hl Hal]. cbn [install_path].
  destruct (port_between_links t cur next Hl) as (p & q & E & HL & Hu). cbv zeta.
  m_exec_by E. rewrite Hu. unfold AddRouting.
  destruct (is_routed (with_tables t) cur b) eqn:Hr.
  - assert (is_Some (entry t cur b)) as He by (by apply is_routed_entry in Hr).
    exists t. unfold m_bind, m_get. rewrite Hr. split_and!; [done| |by right|by intros r c].
    intros r c p' Hp'. destruct (Ht r c p' Hp') as (v & q' & k & ? & ? & ? & Hv). exists v, q', k.
    split_and!; [done..|]. destruct Hv as [?|[?|[= ? ?]]]; subst; auto.
  - unfold m_bind at 1, m_bind at 1, m_get. rewrite Hr.
    set (t1 := <[cur := <[b := p]> (default ∅ (t !! cur))]> t).
    assert (∀ r c, entry t1 r c = if decide ((r, c) = (cur, b)) then Some p else entry t r c) as He
      by (intros; apply entry_set).
    assert (grows t t1) as Hg by (intros r c Hrc; rewrite He; case_decide; [by eexists|done]).
    destruct (IH next t1) as (t' & E' & Ht' & Hnext & Hgrow); [done|done| | |].
    + by eapply link_dist_tail.
    + intros r c p'. rewrite He. case_decide as Hrc.
      * injection Hrc as -> ->. intros [= <-]. exists next, q, (length l). split_and!; [exact HL|exact Hd| |by auto].
        by eapply link_dist_tail.
      * intros Hp'. destruct (Ht r c p' Hp') as (v & q' & k & ? & ? & ? & Hv). exists v, q', k.
        split_and!; [done..|]. rewrite He. case_decide; [right; left; by eexists|].
        destruct Hv as [?|[?|[= ? ?]]]; subst; auto; done.
    + exists t'. split_and!; [exact E'|done| |].
      * right. apply Hgrow. rewrite He, decide_True by done. by eexists.
      * intros r c Hrc. by apply Hgrow, Hg.
Qed.

Lemma tables_ok_weaken x t : tables_ok None t → tables_ok x t.
Proof.
  intros Ht r b p Hp. destruct (Ht r b p Hp) as (v & q & k & ? & ? & ? & Hv). exists v, q, k.
  split_and!; [done..|]. destruct Hv as [?|[?|?]]; auto. done.
Qed.

Lemma to_int_router r : is_router links r → to_int r = r.
Proof. intros Hr%router_id. unfold to_int. by rewrite bool_decide_true by lia. Qed.

Lemma route_pair_ok {Q} `{!PriorityQueue Q} a b t :
  is_router links a → is_router links b → tables_ok None t →
  ∃ t', route_pair (Q := Q) a b (with_tables t) = (Ok tt, with_tables t') ∧ tables_ok None t'
    ∧ (a = b ∨ is_Some (entry t' a b)) ∧ grows t t'.
Proof.
  intros Ha Hb Ht. unfold route_pair. m_exec. case_bool_decide as Hab.
  { exists t. split_and!; [done|done|by left|by intros r c]. }
  destruct (is_routed (with_tables t) a b) eqn:Hr.
  { exists t. split_and!; [done|done| |by intros r c]. right. by apply is_routed_entry in Hr. }
  rewrite !to_int_router by done.
  destruct (dijkstra_links (Q := Q) a b Ha Hb) as (path & l & Hp & Hrev & Hal & Hlast & Hd & _).
  unfold m_bind, m_lift. simpl NoCGraph. rewrite Hp, Hrev.
  by apply install_ok; [..|apply tables_ok_weaken].
Qed.

Lemma in_order_router r : r ∈ in_order (SlowRouterIDs s0) ↔ is_router links r.
Proof.
  unfold in_order. rewrite merge_sort_Permutation, elem_of_elements. apply Htopo.
Qed.

(** The state while the tables are built: every entry is right, earlier entries stay. *)
Definition building (t0 : gmap Z (gmap Z Z)) (s : C_NoCBase) : Prop :=
  ∃ t, s = with_tables t ∧ tables_ok None t ∧ grows t0 t.
Definition routed_to (a b : Z) (s : C_NoCBase) : Prop := a = b ∨ is_Some (entry (RoutingTables s) a b).

Lemma route_pair_runs {Q} `{!PriorityQueue Q} t0 a b s :
  is_router links a → is_router links b → building t0 s →
  runs (route_pair (Q := Q) a b) s (fun _ s' =>
    building t0 s' ∧ routed_to a b s' ∧ ∀ x y, routed_to x y s → routed_to x y s').
Proof.
  intros Ha Hb (t & -> & Ht & Hg). destruct (route_pair_ok (Q := Q) a b t Ha Hb Ht)
    as (t' & E & Ht' & Hr & Hg'). unfold runs. rewrite E. split_and!.
  - exists t'. split_and!; [done|done|]. intros r c Hrc. by apply Hg', Hg.
  - done.
  - intros x y [?|?]; [by left|right]. by apply Hg'.
Qed.

Lemma build_routing_ok {Q} `{!PriorityQueue Q} :
  ∃ t, BuildDefaultRoutingBidirectional (Q := Q) s0
         = (Ok tt, set_RoutingDone true (set_NoCGraph [] (with_tables t)))
    ∧ tables_ok None t ∧ ∀ a b, is_router links a → is_router links b → a ≠ b → is_Some (entry t a b).
Proof.
  assert (runs (m_forM (in_order (SlowRouterIDs s0)) (fun IT1 =>
      m_forM (in_order (SlowRouterIDs s0)) (fun IT2 => route_pair (Q := Q) IT1 IT2))) s0
    (fun _ s => building ∅ s
       ∧ (∀ a, a ∈ in_order (SlowRouterIDs s0) → ∀ b, is_router links b → routed_to a b s)
       ∧ ∀ a, (∀ b, is_router links b → routed_to a b s0) → ∀ b, is_router links b → routed_to a b s)) as Hrun.
  { apply (runs_forM_each _ _ (building ∅) (fun a s => ∀ b, is_router links b → routed_to a b s)).
    2:{ exists ∅. split_and!; [|by intros r b p Hp|by intros r b].
        pose proof (topo_tables _ _ Htopo) as Ht. destruct s0; simpl in *. by subst. }
    intros a s Ha%in_order_router Hs. destruct Hs as (t & -> & Ht & _).
    eapply runs_conseq.
    - apply (runs_forM_each _ _ (building t) (routed_to a)).
      + intros b s Hb%in_order_router Hs. eapply runs_conseq; [by apply route_pair_runs|].
        intros [] s' (? & ? & ?). split_and!; auto.
      + exists t. split_and!; [done|done|by intros r c].
    - intros [] s' ((t' & -> & Ht' & Hg) & Hall & _). split_and!.
      + exists t'. split_and!; [done|done|]. by intros r c [x Hx].
      + intros b Hb. apply Hall, in_order_router, Hb.
      + intros y Hy b Hb. destruct (Hy b Hb) as [?|Hyb]; [by left|right]. by apply Hg. }
  apply runs_inv in Hrun as ([] & s & E & (t & -> & Ht & _) & Hall & _).
  exists t. split_and!; [|done|].
  - unfold BuildDefaultRoutingBidirectional. m_exec. by m_exec_by E.
  - intros a b Ha Hb Hne. destruct (Hall a (proj2 (in_order_router a) Ha) b Hb) as [?|?]; done.
Qed.

(** ** Following the tables *)

(** The neighbour the tables and the links lead to. *)
Definition hop (s : C_NoCBase) (r b : Z) : option (Z * Z) :=
  p ← entry (RoutingTables s) r b; Links s !! (r, p).
Definition keeps_hops (s s' : C_NoCBase) : Prop :=
  ∀ r b x, hop s r b = Some x → hop s' r b = Some x.

Lemma next_of_hop r b s : ∃ x s', next_of r b s = (Ok x, s') ∧ keeps_hops s s'
  ∧ (∀ y, hop s r b = Some y → x = y).
Proof.
  unfold next_of. do 3 (m_exec || fail). do 2 eexists. split; [reflexivity|]. split.
  - intros r' b' y. unfold hop. simpl. rewrite entry_set.
    set (p := default 0 (default ∅ (RoutingTables s !! r) !! b)).
    destruct (entry (RoutingTables s) r' b') as [p'|] eqn:He; [|done]. simpl. intros Hy.
    case_decide as Hrb.
    + injection Hrb as -> ->. assert (p = p') as ->.
      { unfold p. unfold entry in He. destruct (RoutingTables s !! r); simpl in *; [by rewrite He|done]. }
      simpl. rewrite Hy. simpl. by rewrite lookup_insert_eq.
    + simpl. destruct (decide ((r', p') = (r, p))) as [[= -> ->]|Hne].
      * by rewrite lookup_insert_eq, Hy.
      * by rewrite lookup_insert_ne.
  - intros y. unfold hop, entry. destruct (RoutingTables s !! r); simpl; [|done].
    destruct (_ !! b); simpl; [|done]. by intros ->.
Qed.

Lemma keeps_hops_trans s1 s2 s3 : keeps_hops s1 s2 → keeps_hops s2 s3 → keeps_hops s1 s3.
Proof. intros H1 H2 r b x Hx. by apply H2, H1. Qed.

Lemma next_row_hop r slaves : ∀ s, ∃ row s', next_row r slaves s = (Ok row, s') ∧ keeps_hops s s'
  ∧ ∀ i b y, slaves !! i = Some b → hop s r b = Some y → row !! i = Some y.
Proof.
  induction slaves as [|b slaves IH]; intros s; cbn [next_row].
  { exists [], s. split_and!; [done|by intros r' b' x|done]. }
  destruct (next_of_hop r b s) as (x & s1 & E1 & Hk1 & Hx).
  destruct (IH s1) as (row & s2 & E2 & Hk2 & Hrow). exists (x :: row), s2. split_and!.
  - m_exec_by E1. by m_exec_by E2.
  - by eapply keeps_hops_trans.
  - intros [|i] b' y Hb Hy; simpl in *; [|by eauto]. simplify_eq. by rewrite (Hx y).
Qed.

Lemma next_table_hop routers slaves : ∀ s, ∃ Next s', next_table routers slaves s = (Ok Next, s')
  ∧ ∀ i r j b y, routers !! i = Some r → slaves !! j = Some b → hop s r b = Some y →
      ∃ row, Next !! i = Some row ∧ row !! j = Some y.
Proof.
  induction routers as [|r routers IH]; intros s; cbn [next_table].
  { exists [], s. by split. }
  destruct (next_row_hop r slaves s) as (row & s1 & E1 & Hk1 & Hrow).
  destruct (IH s1) as (Next & s2 & E2 & HN'). exists (row :: Next), s2. split.
  - m_exec_by E1. by m_exec_by E2.
  - intros [|i] r' j b y Hr Hb Hy; simpl in *; [|by eauto]. simplify_eq. eauto.
Qed.
End connected.

Lemma link_dist_unique links a b n m : link_dist links a b n → link_dist links a b m → n = m.
Proof. intros [Hn Hn'] [Hm Hm']. specialize (Hn' _ Hm). specialize (Hm' _ Hn). lia. Qed.

(** A table that always leads one hop nearer. *)
Definition leads (links : list (Z * Z)) (N : Z) (Next : list (list (Z * Z))) : Prop :=
  ∀ a b, 0 ≤ a < N → 0 ≤ b < N → a ≠ b → ∃ row v q k,
    Next !! Z.to_nat a = Some row ∧ row !! Z.to_nat b = Some (v, q) ∧ 0 ≤ v < N
    ∧ link_dist links a b (S k) ∧ link_dist links v b k.

Lemma hop_loop_ok links N Next b k : leads links N Next → 0 ≤ b < N → ∀ fuel a c, 0 ≤ a < N →
  link_dist links a b k → (k ≤ fuel)%nat → hop_loop fuel Next a b c = Ok (c + Z.of_nat k).
Proof.
  intros Hl Hb. induction k as [|k IH]; intros fuel a c Ha Hd Hfuel.
  { destruct Hd as [Hd _]. inversion Hd; subst.
    destruct fuel; simpl; rewrite bool_decide_true by done; f_equal; lia. }
  assert (a ≠ b) as Hab.
  { intros ->. destruct Hd as [_ Hmin]. pose proof (Hmin 0%nat (nsteps_O _ _)). lia. }
  destruct fuel as [|fuel]; [lia|]. cbn [hop_loop]. rewrite bool_decide_false by done.
  destruct (Hl a b Ha Hb Hab) as (row & v & q & k' & Hrow & Hv & Hvr & Hd' & Hdv).
  pose proof (link_dist_unique _ _ _ _ _ Hd Hd') as [= ->].
  rewrite (vec_get_Some _ _ _ (proj1 Ha) Hrow). cbn [result_bind].
  rewrite (vec_get_Some _ _ _ (proj1 Hb) Hv). cbn [result_bind fst].
  rewrite (IH fuel v (c + 1) Hvr Hdv) by lia. f_equal. lia.
Qed.

Lemma result_map_ok {A B} (f : A → result B) l : (∀ x, x ∈ l → ∃ y, f x = Ok y) →
  ∃ ys, result_map f l = Ok ys ∧ ∀ i x, l !! i = Some x → ∃ y, ys !! i = Some y ∧ f x = Ok y.
Proof.
  induction l as [|x l IH]; intros Hf; [by exists []|].
  destruct (Hf x ltac:(left)) as [y Hy]. destruct IH as (ys & Hys & Hall).
  { intros z Hz. apply Hf. by right. }
  exists (y :: ys). simpl. rewrite Hy. cbn [result_bind]. rewrite Hys. split; [done|].
  intros [|i] z Hz; simpl in *; [|by eauto]. simplify_eq. eauto.
Qed.

Lemma lookup_seqZ_0 N a : 0 ≤ a < N → seqZ 0 N !! Z.to_nat a = Some a.
Proof. intros Ha. apply lookup_seqZ. lia. Qed.

(** The elaboration of the contention-free model computes the distances. *)
Lemma elaboration_ok links N s :
  0 < N → SlowRouterIDs s = list_to_set (seqZ 0 N) →
  (∀ a b, 0 ≤ a < N → 0 ≤ b < N → ∃ n, link_dist links a b n ∧ Z.of_nat n ≤ N) →
  (∀ a b, 0 ≤ a < N → 0 ≤ b < N → a ≠ b →
     ∃ v q k, hop s a b = Some (v, q) ∧ 0 ≤ v < N ∧ link_dist links a b (S k) ∧ link_dist links v b k) →
  ∃ HopCount s', before_end_of_elaboration s = (Ok HopCount, s') ∧
    ∀ a b, 0 ≤ a < N → 0 ≤ b < N → ∃ row n, HopCount !! Z.to_nat a = Some row
      ∧ row !! Z.to_nat b = Some (Z.of_nat n) ∧ link_dist links a b n.
Proof.
  intros HN Hslow Hdist Hhop. unfold before_end_of_elaboration. do 5 m_exec.
  set (s1 := set_LinkCount _ _). assert (RouterCount s1 = N) as Hcount.
  { subst s1. simpl. rewrite Hslow, size_list_to_set, length_seqZ by apply NoDup_seqZ. lia. }
  rewrite Hcount. destruct (next_table_hop (seqZ 0 N) (seqZ 0 N) s1) as (Next & s2 & E & HNext).
  m_exec_by E. assert (leads links N Next) as Hleads.
  { intros a b Ha Hb Hab. destruct (Hhop a b Ha Hb Hab) as (v & q & k & Hh & Hv & Hd & Hd').
    destruct (HNext _ _ _ _ (v, q) (lookup_seqZ_0 N a Ha) (lookup_seqZ_0 N b Hb) Hh) as (row & ? & ?).
    exists row, v, q, k. split_and!; done || lia. }
  assert (∀ a b, 0 ≤ a < N → 0 ≤ b < N → ∃ n, link_dist links a b n
            ∧ hop_loop (S (Z.to_nat N)) Next a b 0 = Ok (Z.of_nat n)) as Hloop.
  { intros a b Ha Hb. destruct (Hdist a b Ha Hb) as (n & Hn & Hle). exists n. split; [done|].
    rewrite (hop_loop_ok links N Next b n) by (done || lia). f_equal. }
  assert (∀ a, 0 ≤ a < N → ∃ row, result_map (fun j => hop_loop (S (Z.to_nat N)) Next a j 0) (seqZ 0 N) = Ok row
    ∧ ∀ b, 0 ≤ b < N → ∃ n, row !! Z.to_nat b = Some (Z.of_nat n) ∧ link_dist links a b n) as Hrow.
  { intros a Ha. destruct (result_map_ok (fun j => hop_loop (S (Z.to_nat N)) Next a j 0) (seqZ 0 N))
      as (row & Hrow & Hy).
    - intros j Hj%elem_of_seqZ. destruct (Hloop a j Ha ltac:(lia)) as (m & _ & ->). by eexists.
    - exists row. split; [done|]. intros b Hb. destruct (Hloop a b Ha Hb) as (n & Hn & Hl). exists n.
      split; [|done]. destruct (Hy _ _ (lookup_seqZ_0 N b Hb)) as (y & -> & Hl'). congruence. }
  destruct (result_map_ok (fun i => result_map (fun j => hop_loop (S (Z.to_nat N)) Next i j 0) (seqZ 0 N))
              (seqZ 0 N)) as (H & HH & Hall).
  { intros i Hi%elem_of_seqZ. destruct (Hrow i ltac:(lia)) as (row & -> & _). by eexists. }
  do 2 eexists. split; [unfold m_bind, m_lift; rewrite HH; reflexivity|].
  intros a b Ha Hb. destruct (Hall _ _ (lookup_seqZ_0 N a Ha)) as (row & Hr & Hr').
  destruct (Hrow a Ha) as (row' & E' & Hn). rewrite E' in Hr'. injection Hr' as ->.
  destruct (Hn b Hb) as (n & ? & ?). by exists row, n.
Qed.

(** C10: default routing is shortest-path routing.  Take routers [0 .. N-1] and any list of links
    that connects every router to every other; add the links, build the default routing with
    any priority queue, and elaborate the contention-free model: no call fails, the loop that
    counts the hops ends, and the hop count of every pair is the least number of links that
    lead from one router to the other. *)
Theorem default_routing_shortest {Q} `{!PriorityQueue Q} (links : list (Z * Z)) (N : Z) :
  0 < N < 2 ^ 23 → (∀ r, is_router links r ↔ 0 ≤ r < N) → Z.of_nat (length links) < 2 ^ 31 →
  (∀ a b, 0 ≤ a < N → 0 ≤ b < N → rtc (linked links) a b) →
  ∃ HopCount s, (build_links links ;;; BuildDefaultRoutingBidirectional (Q := Q) ;;;
                 before_end_of_elaboration) new_NoCBase = (Ok HopCount, s)
    ∧ ∀ a b, 0 ≤ a < N → 0 ≤ b < N → ∃ row n, HopCount !! Z.to_nat a = Some row
        ∧ row !! Z.to_nat b = Some (Z.of_nat n) ∧ link_dist links a b n.
Proof.
  intros HN Hr Hlen Hconn.
  assert (ids_below N links) as Hids by (intros u v Huv; split; apply Hr; exists u, v; auto).
  destruct (runs_inv _ _ _ (topo_build N links Hids ltac:(lia) Hlen)) as ([] & s0 & E0 & Htopo).
  assert (∀ a b, is_router links a → is_router links b → rtc (linked links) a b) as Hconn'
    by (intros a b Ha Hb; apply Hconn; by apply Hr).
  destruct (build_routing_ok links N s0 Htopo HN Hids Hconn' (Q := Q)) as (t & E1 & Ht & Hall).
  m_exec_by E0. m_exec_by E1. apply elaboration_ok; [lia|..].
  - apply set_eq. intros r. simpl. rewrite (topo_slow _ _ Htopo), Hr.
    rewrite elem_of_list_to_set, elem_of_seqZ. lia.
  - intros a b Ha%Hr Hb%Hr.
    destruct (dijkstra_links links N s0 Htopo HN Hids Hconn' (Q := Q) a b Ha Hb)
      as (path & l & _ & _ & _ & _ & Hd & Hle). by exists (length l).
  - intros a b Ha Hb Hab. destruct (Hall a b (proj2 (Hr a) Ha) (proj2 (Hr b) Hb) Hab) as [p Hp].
    destruct (Ht a b p Hp) as (v & q & k & HL & Hd & Hd' & Hv). exists v, q, k. split_and!; try done.
    + unfold hop. simpl. by rewrite Hp.
    + destruct Hd' as [Hd' _]. inversion Hd' as [|? ? y ? Hy]; subst; [lia|]. apply (Hids v y Hy).
    + destruct Hd' as [Hd' _]. inversion Hd' as [|? ? y ? Hy]; subst; [lia|]. apply (Hids v y Hy).
Qed.

(** A ring of three routers, one way. *)
Lemma default_routing_shortest_witness :
  ∃ HopCount s, (build_links [(0, 1); (1, 2); (2, 0)] ;;;
      BuildDefaultRoutingBidirectional (Q := sorted_queue) ;;;
      before_end_of_elaboration) new_NoCBase = (Ok HopCount, s)
    ∧ ∀ a b, 0 ≤ a < 3 → 0 ≤ b < 3 → ∃ row n, HopCount !! Z.to_nat a = Some row
        ∧ row !! Z.to_nat b = Some (Z.of_nat n) ∧ link_dist [(0, 1); (1, 2); (2, 0)] a b n.
Proof.
  set (links := [(0, 1); (1, 2); (2, 0)]).
  assert (linked links 0 1 ∧ linked links 1 2 ∧ linked links 2 0) as (H01 & H12 & H20)
    by (unfold linked, links; set_solver).
  apply (default_routing_shortest links 3).
  - lia.
  - intros r. split.
    + intros (u & v & Hin & Hr). unfold links in Hin.
      repeat (apply elem_of_cons in Hin as [[= -> ->]|Hin]; [lia|]). by apply elem_of_nil in Hin.
    + intros Hr. assert (r = 0 ∨ r = 1 ∨ r = 2) as [->|[->| ->]] by lia.
      * exists 0, 1. auto.
      * exists 1, 2. auto.
      * exists 2, 0. auto.
  - simpl. lia.
  - assert (∀ a, 0 ≤ a < 3 → rtc (linked links) 0 a ∧ rtc (linked links) a 0) as H0.
    { intros a Ha. assert (a = 0 ∨ a = 1 ∨ a = 2) as [->|[->| ->]] by lia.
      - done.
      - split; [by apply rtc_once|]. by eapply rtc_l, rtc_once.
      - split; [|by apply rtc_once]. by eapply rtc_l, rtc_once. }
    intros a b Ha Hb. transitivity 0; by apply H0.
Defined.

(** ** The memory map *)

(** when the regions lie in the order of their targets, the check of the memory map is
    enough: a map it accepts has no address in two regions, so that the target found for an
    address is the only one. *)
Theorem memory_map_check_ordered (l : list (T_TargetID * T_MemoryRegion)) (a : Z) :
  check_pairs l = Ok tt →
  (∀ i j e1 e2, (i < j)%nat → l !! i = Some e1 → l !! j = Some e2 → e1.2.1 ≤ e2.2.1) →
  ∀ i j e1 e2, l !! i = Some e1 → l !! j = Some e2 →
    e1.2.1 ≤ a ≤ e1.2.2 → e2.2.1 ≤ a ≤ e2.2.2 → i = j.
Proof.
  induction l as [|e l IH]; [done|]. simpl. destruct (existsb _ l) eqn:Hex; [done|].
  intros Hok Hord.
  assert (∀ i e2, l !! i = Some e2 → e.2.1 ≤ a ≤ e.2.2 → e2.2.1 ≤ a ≤ e2.2.2 → False) as Hhead.
  { intros i e2 He2 Ha1 Ha2. pose proof (Hord 0%nat (S i) e e2 ltac:(lia) eq_refl He2) as Hle.
    assert (existsb (fun e2 => regions_conflict e.2 e2.2) l = true) as Hc; [|congruence].
    apply existsb_exists. exists e2. split; [by apply list_elem_of_In, list_elem_of_lookup_2 with i|].
    unfold regions_conflict. rewrite (bool_decide_true (e.2.1 ≤ e2.2.1)) by lia.
    rewrite (bool_decide_true (e.2.2 >= e2.2.1)) by lia. done. }
  assert (∀ i j e1 e2, l !! i = Some e1 → l !! j = Some e2 →
    e1.2.1 ≤ a ≤ e1.2.2 → e2.2.1 ≤ a ≤ e2.2.2 → i = j) as Htail.
  { apply IH; [done|]. intros i j e1 e2 Hij. apply (Hord (S i) (S j)). lia. }
  intros [|i] [|j] e1 e2 H1 H2 Ha1 Ha2; simplify_eq/=.
  - done.
  - exfalso. eauto.
  - exfalso. eauto.
  - f_equal. eauto.
Qed.

Lemma memory_map_check_ordered_witness :
  check_pairs [((0, 2), (0, 9)); ((1, 0), (10, 19))] = Ok tt
  ∧ (0%nat = 0%nat).
Proof.
  split; [reflexivity|].
  apply (memory_map_check_ordered [((0, 2), (0, 9)); ((1, 0), (10, 19))] 5 eq_refl) with
    (e1 := ((0, 2), (0, 9))) (e2 := ((0, 2), (0, 9))); try done.
  intros i j e1 e2 Hij H1 H2. pose proof (lookup_lt_Some _ _ _ H2). simpl in *.
  assert (i = 0%nat ∧ j = 1%nat) as [-> ->] by lia. simplify_eq/=. lia.
Defined.

(** in the other order it is not: a region that starts below an earlier target's and reaches
    into it is accepted, because the test looks twice at the first address of the second
    region and never at its last. *)
Theorem memory_map_check_misses (t1 t2 : T_TargetID) (b1 e1 b2 e2 : Z) :
  b2 < b1 → check_pairs [(t1, (b1, e1)); (t2, (b2, e2))] = Ok tt.
Proof.
  intros Hlt. simpl. unfold regions_conflict. simpl. by rewrite !(bool_decide_false (b1 ≤ b2)), (bool_decide_false (b2 >= b1)), !andb_false_r by lia.
Qed.

Lemma memory_map_check_misses_witness :
  check_pairs [((0, 2), (16, 31)); ((1, 0), (0, 47))] = Ok tt
  ∧ List.find (fun e : T_TargetID * T_MemoryRegion => bool_decide (e.2.1 ≤ 20) && bool_decide (e.2.2 >= 20))
      [((0, 2), (16, 31)); ((1, 0), (0, 47))] = Some ((0, 2), (16, 31)).
Proof. split; [apply memory_map_check_misses; lia|reflexivity]. Defined.

(** ** XY routing of a mesh *)

Definition mesh_xy_tables (X Y : Z) : result (list (list (Z * Z))) :=
  ((C_Mesh X Y ;;; BuildRouting (Q := sorted_queue) true X Y ;;;
    next_table (seqZ 0 (X * Y)) (seqZ 0 (X * Y))) new_NoCBase).1.

(** The tables of the mesh of three by three. *)
Definition mesh_xy_next : list (list (Z * Z)) :=
  Eval vm_compute in match mesh_xy_tables 3 3 with Ok t => t | Err _ => [] end.

Lemma mesh_xy_next_ok : mesh_xy_tables 3 3 = Ok mesh_xy_next.
Proof. vm_compute. reflexivity. Qed.

(** the XY routing of a mesh does not use the port numbers that [AddLink] gives: it assumes
    ports clockwise from north, while links are numbered in the order north, south, east, west
    of those that exist.  In a mesh of three by three the routers 1 and 4 send what is meant
    for router 0 to each other, so that the loop that counts the hops never ends. *)
Theorem mesh_xy_never_arrives :
  ∃ Next, mesh_xy_tables 3 3 = Ok Next
    ∧ ∀ fuel c, hop_loop fuel Next 1 0 c = Err OutOfFuel ∧ hop_loop fuel Next 4 0 c = Err OutOfFuel.
Proof.
  exists mesh_xy_next. split; [exact mesh_xy_next_ok|].
  intros fuel. induction fuel as [|fuel IH]; intros c; [done|].
  split; [apply (IH (c + 1))|apply (IH (c + 1))].
Qed.
