(* ===== verification/Router.v ===== *)
(** * The router of the cycle-accurate NoC ([components/connect/Router.cpp])

    A router reads at most one flit per input port into its buffer and sends at most one flit per
    output port in every cycle; among the input ports that wait for the same output port it
    chooses in turn.  The channels ([sc_fifo]) belong to SystemC: what they answer in a cycle is
    a parameter.  The file shows that no flit is lost, duplicated or overtaken by a later one of
    the same input port, that every flit leaves through the port of its target, and that a
    flit in the buffer leaves within as many cycles as there are input ports, as long as its
    output has room. *)

From stdpp Require Import sorting.
From S2P Require Import Prelude NoCBase.

(** ** State *)

(** A flit; the request and the response it carries are passed on untouched. *)
Record NoCFlit := mkFlit {
  TargetId : Z * Z;
  SrcId : Z * Z;
  PrevRouterId : Z;
  CurrentInputPortID : Z;
  Last : bool;
  req : Z;
  rsp : Z;
  IsFW : bool;
  EmissionTimeStamp : Z }.
Definition set_CurrentInputPortID (p : Z) (nf : NoCFlit) : NoCFlit :=
  mkFlit (TargetId nf) (SrcId nf) (PrevRouterId nf) p (Last nf) (req nf) (rsp nf) (IsFW nf) (EmissionTimeStamp nf).

(** The ports by their numbers; [Reads] and [Writes] record what went through them. *)
Record C_Router := mkRouter {
  NbOut : Z;
  NbIn : Z;
  TargetToOutPort : gmap (Z * Z) Z;
  RoundRobinStatesPerPort : gmap Z Z;
  RoutedFlitsFW : Z;
  RoutedFlitsBW : Z;
  InputPorts : gset Z;
  OutputPorts : gset Z;
  RequestsBeeingRouted : gmap Z NoCFlit;
  RequestsBeeingRoutedPerOutputPort : gmap Z (gmap Z NoCFlit);
  Reads : list (Z * NoCFlit);
  Writes : list (Z * NoCFlit) }.

Definition set_NbOut x (r : C_Router) : C_Router :=
  mkRouter x (NbIn r) (TargetToOutPort r) (RoundRobinStatesPerPort r) (RoutedFlitsFW r)
    (RoutedFlitsBW r) (InputPorts r) (OutputPorts r) (RequestsBeeingRouted r)
    (RequestsBeeingRoutedPerOutputPort r) (Reads r) (Writes r).
Definition set_NbIn x (r : C_Router) : C_Router :=
  mkRouter (NbOut r) x (TargetToOutPort r) (RoundRobinStatesPerPort r) (RoutedFlitsFW r)
    (RoutedFlitsBW r) (InputPorts r) (OutputPorts r) (RequestsBeeingRouted r)
    (RequestsBeeingRoutedPerOutputPort r) (Reads r) (Writes r).
Definition set_TargetToOutPort x (r : C_Router) : C_Router :=
  mkRouter (NbOut r) (NbIn r) x (RoundRobinStatesPerPort r) (RoutedFlitsFW r) (RoutedFlitsBW
    r) (InputPorts r) (OutputPorts r) (RequestsBeeingRouted r)
    (RequestsBeeingRoutedPerOutputPort r) (Reads r) (Writes r).
Definition set_RoundRobinStatesPerPort x (r : C_Router) : C_Router :=
  mkRouter (NbOut r) (NbIn r) (TargetToOutPort r) x (RoutedFlitsFW r) (RoutedFlitsBW r)
    (InputPorts r) (OutputPorts r) (RequestsBeeingRouted r) (RequestsBeeingRoutedPerOutputPort
    r) (Reads r) (Writes r).
Definition set_RoutedFlitsFW x (r : C_Router) : C_Router :=
  mkRouter (NbOut r) (NbIn r) (TargetToOutPort r) (RoundRobinStatesPerPort r) x (RoutedFlitsBW
    r) (InputPorts r) (OutputPorts r) (RequestsBeeingRouted r)
    (RequestsBeeingRoutedPerOutputPort r) (Reads r) (Writes r).
Definition set_RoutedFlitsBW x (r : C_Router) : C_Router :=
  mkRouter (NbOut r) (NbIn r) (TargetToOutPort r) (RoundRobinStatesPerPort r) (RoutedFlitsFW
    r) x (InputPorts r) (OutputPorts r) (RequestsBeeingRouted r)
    (RequestsBeeingRoutedPerOutputPort r) (Reads r) (Writes r).
Definition set_InputPorts x (r : C_Router) : C_Router :=
  mkRouter (NbOut r) (NbIn r) (TargetToOutPort r) (RoundRobinStatesPerPort r) (RoutedFlitsFW
    r) (RoutedFlitsBW r) x (OutputPorts r) (RequestsBeeingRouted r)
    (RequestsBeeingRoutedPerOutputPort r) (Reads r) (Writes r).
Definition set_OutputPorts x (r : C_Router) : C_Router :=
  mkRouter (NbOut r) (NbIn r) (TargetToOutPort r) (RoundRobinStatesPerPort r) (RoutedFlitsFW
    r) (RoutedFlitsBW r) (InputPorts r) x (RequestsBeeingRouted r)
    (RequestsBeeingRoutedPerOutputPort r) (Reads r) (Writes r).
Definition set_RequestsBeeingRouted x (r : C_Router) : C_Router :=
  mkRouter (NbOut r) (NbIn r) (TargetToOutPort r) (RoundRobinStatesPerPort r) (RoutedFlitsFW
    r) (RoutedFlitsBW r) (InputPorts r) (OutputPorts r) x (RequestsBeeingRoutedPerOutputPort r)
    (Reads r) (Writes r).
Definition set_RequestsBeeingRoutedPerOutputPort x (r : C_Router) : C_Router :=
  mkRouter (NbOut r) (NbIn r) (TargetToOutPort r) (RoundRobinStatesPerPort r) (RoutedFlitsFW
    r) (RoutedFlitsBW r) (InputPorts r) (OutputPorts r) (RequestsBeeingRouted r) x (Reads r)
    (Writes r).
Definition set_Reads x (r : C_Router) : C_Router :=
  mkRouter (NbOut r) (NbIn r) (TargetToOutPort r) (RoundRobinStatesPerPort r) (RoutedFlitsFW
    r) (RoutedFlitsBW r) (InputPorts r) (OutputPorts r) (RequestsBeeingRouted r)
    (RequestsBeeingRoutedPerOutputPort r) x (Writes r).
Definition set_Writes x (r : C_Router) : C_Router :=
  mkRouter (NbOut r) (NbIn r) (TargetToOutPort r) (RoundRobinStatesPerPort r) (RoutedFlitsFW
    r) (RoutedFlitsBW r) (InputPorts r) (OutputPorts r) (RequestsBeeingRouted r)
    (RequestsBeeingRoutedPerOutputPort r) (Reads r) x.

Definition new_Router : C_Router := mkRouter 0 0 ∅ ∅ 0 0 ∅ ∅ ∅ ∅ [] [].

(** What the channels answer in a cycle, by port. *)
Record channels := mkChannels {
  nb_read : Z → option NoCFlit;
  num_free : Z → Z;
  nb_write : Z → NoCFlit → bool }.

(** ** Ports *)

Definition AddOutMapping (TargetID : Z * Z) (OutPortID : Z) : M C_Router unit :=
  r <- m_get ;;
  m_when (negb (bool_decide (OutPortID ∈ OutputPorts r)))
    (m_modify (set_OutputPorts ({[OutPortID]} ∪ OutputPorts r)) ;;;
     m_modify (set_NbOut (u32 (NbOut r + 1))) ;;;
     m_modify (set_RoundRobinStatesPerPort (<[OutPortID := 0]> (RoundRobinStatesPerPort r)))) ;;;
  m_modify (fun r => set_TargetToOutPort (<[TargetID := OutPortID]> (TargetToOutPort r)) r).

Definition AddOutPort (OutPortID : Z) : M C_Router unit :=
  r <- m_get ;;
  m_assert (negb (bool_decide (OutPortID ∈ OutputPorts r))) ;;;
  m_modify (set_OutputPorts ({[OutPortID]} ∪ OutputPorts r)) ;;;
  m_modify (set_NbOut (u32 (NbOut r + 1))).

Definition AddInPort (InPortID : Z) : M C_Router unit :=
  r <- m_get ;;
  m_assert (negb (bool_decide (InPortID ∈ InputPorts r))) ;;;
  m_modify (set_InputPorts ({[InPortID]} ∪ InputPorts r)) ;;;
  m_modify (set_NbIn (u32 (NbIn r + 1))).

(** ** Arbitration *)

(** The first of the rounds [l] whose port has a request. *)
Fixpoint round_robin (RequestPerInputPort : gmap Z NoCFlit) (RoundRobinStateCounter NbInputPort : Z) (l : list Z) : option NoCFlit :=
  match l with
  | [] => None
  | i :: l' =>
      match RequestPerInputPort !! (u32 (i + RoundRobinStateCounter) mod NbInputPort) with
      | Some nf => Some nf
      | None => round_robin RequestPerInputPort RoundRobinStateCounter NbInputPort l'
      end
  end.
Definition RoundRobinSearch (RequestPerInputPort : gmap Z NoCFlit) (RoundRobinStateCounter NbInputPort : Z) : option NoCFlit :=
  round_robin RequestPerInputPort RoundRobinStateCounter NbInputPort (seqZ 0 NbInputPort).

(** ** A cycle *)

(** The request of an input port for an output port, if it waits there. *)
Definition queued (r : C_Router) (o p : Z) : option NoCFlit := RequestsBeeingRoutedPerOutputPort r !! o ≫= (fun m => m !! p).

(** [TargetToOutPort] is indexed: an unknown target is entered with port 0. *)
Definition accept_flit (InputPortId : Z) (TmpNF : NoCFlit) (r : C_Router) : C_Router :=
  let ReqOutPort := default 0 (TargetToOutPort r !! TargetId TmpNF) in
  let waiting := default ∅ (RequestsBeeingRoutedPerOutputPort r !! ReqOutPort) in
  set_RequestsBeeingRoutedPerOutputPort
      (<[ReqOutPort := <[InputPortId := TmpNF]> waiting]> (RequestsBeeingRoutedPerOutputPort r))
    (set_TargetToOutPort (<[TargetId TmpNF := ReqOutPort]> (TargetToOutPort r))
      ((if IsFW TmpNF then set_RoutedFlitsFW (u32 (RoutedFlitsFW r + 1)) else set_RoutedFlitsBW (u32 (RoutedFlitsBW r + 1)))
        (set_RequestsBeeingRouted (<[InputPortId := TmpNF]> (RequestsBeeingRouted r))
          (set_Reads (Reads r ++ [(InputPortId, TmpNF)]) r)))).

Definition read_input (e : channels) (InputPortId : Z) : M C_Router unit :=
  r <- m_get ;;
  match RequestsBeeingRouted r !! InputPortId with
  | Some _ => m_ret tt
  | None =>
      match nb_read e InputPortId with
      | Some TmpNF => m_modify (accept_flit InputPortId (set_CurrentInputPortID InputPortId TmpNF))
      | None => m_ret tt
      end
  end.

(** A flit that was sent leaves both buffers, and the turn passes to the next input port. *)
Definition flit_sent (OutputPortID : Z) (TmpNF : NoCFlit) (r : C_Router) : C_Router :=
  let p := CurrentInputPortID TmpNF in
  set_RoundRobinStatesPerPort (<[OutputPortID := u32 (p + 1)]> (RoundRobinStatesPerPort r))
    (set_RequestsBeeingRoutedPerOutputPort (alter (delete p) OutputPortID (RequestsBeeingRoutedPerOutputPort r))
      (set_RequestsBeeingRouted (delete p (RequestsBeeingRouted r))
        (set_Writes (Writes r ++ [(OutputPortID, TmpNF)]) r))).

Definition send_output (e : channels) (OutputPortID : Z) : M C_Router unit :=
  r <- m_get ;;
  if bool_decide (OutputPortID ∈ OutputPorts r) then
    if bool_decide (num_free e OutputPortID > 0) then
      let turn := at_default (RoundRobinStatesPerPort r) OutputPortID in
      m_modify (set_RoundRobinStatesPerPort (<[OutputPortID := turn]> (RoundRobinStatesPerPort r))) ;;;
      match RoundRobinSearch (default ∅ (RequestsBeeingRoutedPerOutputPort r !! OutputPortID)) turn (NbIn r) with
      | Some TmpNF =>
          if nb_write e OutputPortID TmpNF then m_modify (flit_sent OutputPortID TmpNF)
          else m_throw (Throw "impossible to write on fifo which has free slots")
      | None => m_ret tt
      end
    else m_ret tt
  else m_throw (UndefinedBehaviour "null pointer").

Definition DoRoute (e : channels) : M C_Router unit :=
  r <- m_get ;;
  m_forM (in_order (InputPorts r)) (read_input e) ;;;
  r <- m_get ;;
  m_forM (in_order (dom (RequestsBeeingRoutedPerOutputPort r))) (send_output e).

(** ** Round robin *)

(** How many other turns come before that of port [p]. *)
Definition turns (n turn p : Z) : Z := (p - turn) mod n.

Lemma turns_of n turn i : 0 ≤ i < n → turns n turn ((i + turn) mod n) = i.
Proof.
  intros Hi. unfold turns. rewrite Zminus_mod_idemp_l. replace (i + turn - turn) with i by lia. by apply Z.mod_small.
Qed.

Lemma turns_port n turn p : 0 ≤ p < n → (turns n turn p + turn) mod n = p.
Proof. intros Hp. unfold turns. rewrite Zplus_mod_idemp_l. replace (p - turn + turn) with p by lia. by apply Z.mod_small. Qed.

Lemma turns_bound n turn p : 0 < n → 0 ≤ turns n turn p < n.
Proof. intros Hn. by apply Z.mod_pos_bound. Qed.

(** When the turn passes to the port after [q], the ports behind [q] come closer. *)
Lemma turns_closer n turn p q : 0 ≤ p < n → 0 ≤ q < n → turns n turn q ≤ turns n turn p → p ≠ q →
  turns n (q + 1) p < turns n turn p.
Proof.
  intros Hp Hq Hle Hne. pose proof (turns_bound n turn p ltac:(lia)) as Ha. pose proof (turns_bound n turn q ltac:(lia)) as Hb.
  assert (turns n turn p ≠ turns n turn q) as Hd.
  { intros E. apply Hne. rewrite <-(turns_port n turn p Hp), <-(turns_port n turn q Hq). by rewrite E. }
  assert (turns n (q + 1) p = turns n turn p - turns n turn q - 1) as ->; [|lia].
  unfold turns at 1. rewrite <-(turns_port n turn p Hp) at 1. rewrite <-(turns_port n turn q Hq) at 1.
  rewrite Zminus_mod_idemp_l.
  replace (turns n turn p + turn - ((turns n turn q + turn) mod n + 1))
    with ((turns n turn p + turn - 1) - ((turns n turn q + turn) mod n)) by lia.
  rewrite Zminus_mod_idemp_r.
  replace (turns n turn p + turn - 1 - (turns n turn q + turn)) with (turns n turn p - turns n turn q - 1) by lia.
  apply Z.mod_small. lia.
Qed.

Section search.
Context (reqs : gmap Z NoCFlit) (turn n : Z).
Context (Hn : 0 ≤ n < 2 ^ 31) (Ht : 0 ≤ turn ≤ n).

Lemma round_robin_first k m nf : (k + m = Z.to_nat n)%nat → round_robin reqs turn n (seqZ (Z.of_nat k) (Z.of_nat m)) = Some nf →
  ∃ i, Z.of_nat k ≤ i < n ∧ reqs !! ((i + turn) mod n) = Some nf ∧ ∀ j, Z.of_nat k ≤ j < i → reqs !! ((j + turn) mod n) = None.
Proof.
  revert k. induction m as [|m IH]; intros k Hk; [done|]. rewrite seqZ_cons by lia. cbn [round_robin].
  rewrite u32_small by (unfold in_u32; lia). destruct (reqs !! _) as [nf'|] eqn:E.
  - intros [= ->]. exists (Z.of_nat k). split; [lia|]. split; [done|]. intros j Hj. lia.
  - replace (Z.succ (Z.of_nat k)) with (Z.of_nat (S k)) by lia. replace (Z.pred (Z.of_nat (S m))) with (Z.of_nat m) by lia.
    intros (i & Hi & Hs & Hall)%IH; [|lia]. exists i. split; [lia|]. split; [done|]. intros j Hj.
    destruct (decide (j = Z.of_nat k)) as [->|]; [done|]. apply Hall. lia.
Qed.

Lemma round_robin_none k m : (k + m = Z.to_nat n)%nat → round_robin reqs turn n (seqZ (Z.of_nat k) (Z.of_nat m)) = None →
  ∀ j, Z.of_nat k ≤ j < n → reqs !! ((j + turn) mod n) = None.
Proof.
  revert k. induction m as [|m IH]; intros k Hk; [intros _ j Hj; lia|]. rewrite seqZ_cons by lia. cbn [round_robin].
  rewrite u32_small by (unfold in_u32; lia). destruct (reqs !! _) as [nf'|] eqn:E; [done|].
  replace (Z.succ (Z.of_nat k)) with (Z.of_nat (S k)) by lia. replace (Z.pred (Z.of_nat (S m))) with (Z.of_nat m) by lia.
  intros H j Hj. destruct (decide (j = Z.of_nat k)) as [->|]; [done|]. apply (IH (S k)); [lia|done|lia].
Qed.

(** The port that is chosen has a request, and no port with a request has its turn before. *)
Lemma search_first nf : RoundRobinSearch reqs turn n = Some nf →
  ∃ p, 0 ≤ p < n ∧ reqs !! p = Some nf ∧ ∀ q, 0 ≤ q < n → is_Some (reqs !! q) → turns n turn p ≤ turns n turn q.
Proof.
  unfold RoundRobinSearch. replace n with (Z.of_nat (Z.to_nat n)) at 2 by lia.
  intros (i & Hi & Hs & Hall)%(round_robin_first 0); [|lia]. exists ((i + turn) mod n). split; [apply Z.mod_pos_bound; lia|]. split; [done|].
  intros q Hq [nf' Hq']. rewrite turns_of by lia. destruct (decide (i ≤ turns n turn q)) as [|Hlt]; [done|].
  pose proof (turns_bound n turn q ltac:(lia)). specialize (Hall (turns n turn q) ltac:(lia)). rewrite turns_port in Hall by done. congruence.
Qed.

(** A request of a port is found. *)
Lemma search_found p : 0 ≤ p < n → is_Some (reqs !! p) → is_Some (RoundRobinSearch reqs turn n).
Proof.
  intros Hp [nf Hnf]. destruct (RoundRobinSearch reqs turn n) as [nf'|] eqn:E; [done|]. exfalso.
  unfold RoundRobinSearch in E. replace n with (Z.of_nat (Z.to_nat n)) in E at 2 by lia.
  pose proof (turns_bound n turn p ltac:(lia)). pose proof (round_robin_none 0 (Z.to_nat n) eq_refl E (turns n turn p) ltac:(lia)) as Hno.
  rewrite turns_port in Hno by done. congruence.
Qed.
End search.

(** ** The invariant *)

Record router_ok (r : C_Router) : Prop := mkRouterOk {
  ok_nb : 0 ≤ NbIn r < 2 ^ 31;
  ok_in p : p ∈ InputPorts r ↔ 0 ≤ p < NbIn r;
  ok_out t o : TargetToOutPort r !! t = Some o → o ∈ OutputPorts r;
  ok_turn o v : RoundRobinStatesPerPort r !! o = Some v → 0 ≤ v ≤ NbIn r;
  ok_keys o : is_Some (RequestsBeeingRoutedPerOutputPort r !! o) → o ∈ OutputPorts r;
  ok_buffer p nf : RequestsBeeingRouted r !! p = Some nf → CurrentInputPortID nf = p ∧ 0 ≤ p < NbIn r
    ∧ ∃ o, TargetToOutPort r !! TargetId nf = Some o ∧ queued r o p = Some nf;
  ok_queued o p nf : queued r o p = Some nf → RequestsBeeingRouted r !! p = Some nf ∧ TargetToOutPort r !! TargetId nf = Some o }.

(** What came in through an input port, and what of it went out. *)
Definition reads_of (p : Z) (r : C_Router) : list NoCFlit := (filter (fun w => w.1 = p) (Reads r)).*2.
Definition writes_of (p : Z) (r : C_Router) : list NoCFlit := filter (fun nf => CurrentInputPortID nf = p) (Writes r).*2.

(** Of every input port: what came in is what went out, in this order, and at most one flit in the
    buffer; and what went out did so through the port of its target. *)
Record flows (r : C_Router) : Prop := mkFlows {
  flow_port p : reads_of p r = writes_of p r ++ option_list (RequestsBeeingRouted r !! p);
  flow_target o nf : (o, nf) ∈ Writes r → TargetToOutPort r !! TargetId nf = Some o }.

(** What no cycle changes. *)
Definition config (r : C_Router) := (NbOut r, NbIn r, TargetToOutPort r, InputPorts r, OutputPorts r).

(** The channels: a channel that has room takes a flit, and the flits they deliver have a target
    that the router knows. *)
Record channels_ok (r : C_Router) (e : channels) : Prop := mkChannelsOk {
  room_writes o nf : 0 < num_free e o → nb_write e o nf = true;
  known_target p nf : nb_read e p = Some nf → is_Some (TargetToOutPort r !! TargetId nf) }.

(** ** Reading *)

Lemma accept_fields p nf o r : TargetToOutPort r !! TargetId nf = Some o →
  config (accept_flit p nf r) = config r ∧ Writes (accept_flit p nf r) = Writes r
  ∧ RoundRobinStatesPerPort (accept_flit p nf r) = RoundRobinStatesPerPort r
  ∧ RequestsBeeingRouted (accept_flit p nf r) = <[p := nf]> (RequestsBeeingRouted r)
  ∧ Reads (accept_flit p nf r) = Reads r ++ [(p, nf)]
  ∧ (∀ o', is_Some (RequestsBeeingRoutedPerOutputPort (accept_flit p nf r) !! o') →
       o' = o ∨ is_Some (RequestsBeeingRoutedPerOutputPort r !! o'))
  ∧ ∀ o' q, queued (accept_flit p nf r) o' q = if decide (o' = o ∧ q = p) then Some nf else queued r o' q.
Proof.
  intros Ho. unfold accept_flit, config, queued. rewrite Ho. cbn [default from_option id].
  destruct (IsFW nf); simpl; rewrite (insert_id (TargetToOutPort r)) by done; split_and!; try done.
  1, 3: intros o'; rewrite lookup_insert; case_decide; naive_solver.
  all: intros o' q; rewrite lookup_insert; destruct (decide (o = o')) as [<-|Hne];
    [simpl; rewrite lookup_insert; destruct (decide (p = q)) as [<-|]; [by rewrite decide_True|rewrite decide_False by naive_solver;
       by destruct (RequestsBeeingRoutedPerOutputPort r !! o); simpl; rewrite ?lookup_empty]
    |by rewrite decide_False by naive_solver].
Qed.

Lemma config_fields r r' : config r' = config r → NbOut r' = NbOut r ∧ NbIn r' = NbIn r ∧ TargetToOutPort r' = TargetToOutPort r
  ∧ InputPorts r' = InputPorts r ∧ OutputPorts r' = OutputPorts r.
Proof. by intros [= -> -> -> -> ->]. Qed.

Lemma reads_of_app p q nf l r : Reads r = l ++ [(q, nf)] →
  reads_of p r = (filter (fun w => w.1 = p) l).*2 ++ if decide (q = p) then [nf] else [].
Proof. intros E. unfold reads_of. rewrite E, filter_app, fmap_app, filter_cons, filter_nil. simpl. by case_decide. Qed.

Lemma accept_ok p nf o r : router_ok r → flows r → 0 ≤ p < NbIn r → RequestsBeeingRouted r !! p = None → CurrentInputPortID nf = p →
  TargetToOutPort r !! TargetId nf = Some o → router_ok (accept_flit p nf r) ∧ flows (accept_flit p nf r).
Proof.
  intros [Hnb Hin Hout Hturn Hkeys Hbuf Hq] [Hflow Htgt] Hp Hfree Hcur Ho.
  destruct (accept_fields p nf o r Ho) as (Hc & Hw & Hrr & Hrb & Hrd & Hk & Hqu).
  apply config_fields in Hc as (_ & HN & HT & HI & HO).
  assert (∀ o', queued r o' p = None) as Hnone.
  { intros o'. destruct (queued r o' p) eqn:E; [|done]. apply Hq in E as [E _]. congruence. }
  split; split.
  - by rewrite HN.
  - intros q. by rewrite HI, HN.
  - intros t o'. rewrite HT, HO. apply Hout.
  - intros o' v. rewrite Hrr, HN. apply Hturn.
  - intros o' [->|H]%Hk; rewrite HO; [by eapply Hout|by apply Hkeys].
  - intros q nf'. rewrite Hrb, lookup_insert, HN, HT. destruct (decide (p = q)) as [<-|Hne].
    + intros [= <-]. split; [done|]. split; [done|]. exists o. split; [done|]. rewrite Hqu. by rewrite decide_True.
    + intros (? & ? & o' & ? & ?)%Hbuf. split; [done|]. split; [done|]. exists o'. split; [done|]. rewrite Hqu. by rewrite decide_False by naive_solver.
  - intros o' q nf'. rewrite Hqu, Hrb, HT, lookup_insert. destruct (decide (o' = o ∧ q = p)) as [[-> ->]|Hne].
    + intros [= <-]. by rewrite decide_True.
    + intros Hq'. destruct (decide (p = q)) as [<-|]; [by rewrite Hnone in Hq'|]. by apply Hq.
  - intros q. rewrite (reads_of_app q p nf (Reads r)) by done. fold (reads_of q r). rewrite Hflow. unfold writes_of. rewrite Hw, Hrb, lookup_insert.
    destruct (decide (p = q)) as [<-|]; [|by rewrite app_nil_r]. rewrite Hfree. simpl. by rewrite app_nil_r.
  - intros o' nf'. rewrite Hw, HT. apply Htgt.
Qed.

(** What a step of a cycle leaves as it was, for a flit that waits. *)
Definition keeps_waiting (r r' : C_Router) (o : Z) : Prop :=
  (∀ p nf, queued r o p = Some nf → queued r' o p = Some nf)
  ∧ RoundRobinStatesPerPort r' !! o = RoundRobinStatesPerPort r !! o.

Lemma keeps_waiting_trans r1 r2 r3 o : keeps_waiting r1 r2 o → keeps_waiting r2 r3 o → keeps_waiting r1 r3 o.
Proof. intros [H1 E1] [H2 E2]. split; [eauto|]. by rewrite E2. Qed.

Definition cycle_inv (e : channels) (c : _) (r : C_Router) : Prop := router_ok r ∧ flows r ∧ config r = c ∧ channels_ok r e.

Lemma channels_ok_config e r r' : config r' = config r → channels_ok r e → channels_ok r' e.
Proof. intros (_ & _ & HT & _)%config_fields [Hr Hk]. split; [done|]. intros p nf H. rewrite HT. by eapply Hk. Qed.

Lemma read_input_runs e c p r : cycle_inv e c r → 0 ≤ p < NbIn r →
  runs (read_input e p) r (fun _ r' => cycle_inv e c r' ∧ Writes r' = Writes r ∧ ∀ o, keeps_waiting r r' o).
Proof.
  intros (Hok & Hfl & Hc & Hch) Hp. unfold read_input. apply runs_bind, runs_get.
  destruct (RequestsBeeingRouted r !! p) as [nf0|] eqn:Hfree; [by apply runs_ret|].
  destruct (nb_read e p) as [nf0|] eqn:Er; [|by apply runs_ret]. apply runs_modify.
  destruct (known_target _ _ Hch p nf0 Er) as [o Ho]. set (nf := set_CurrentInputPortID p nf0).
  assert (TargetToOutPort r !! TargetId nf = Some o) as Ho' by done.
  destruct (accept_ok p nf o r Hok Hfl Hp Hfree eq_refl Ho') as [Hok' Hfl'].
  destruct (accept_fields p nf o r Ho') as (Hc' & Hw & Hrr & Hrb & Hrd & Hk & Hqu).
  split; [split_and!; try done; [by rewrite Hc'|by apply (channels_ok_config e r)]|]. split; [done|].
  intros o'. split; [|by rewrite Hrr]. intros q nf' Hq. rewrite Hqu. rewrite decide_False; [done|].
  intros [-> ->]. apply (ok_queued _ Hok) in Hq as [Hq _]. congruence.
Qed.

Lemma read_inputs_runs e c l r : cycle_inv e c r → Forall (fun p => 0 ≤ p < NbIn r) l →
  runs (m_forM l (read_input e)) r (fun _ r' => cycle_inv e c r' ∧ Writes r' = Writes r ∧ ∀ o, keeps_waiting r r' o).
Proof.
  intros Hi Hl. apply (runs_forM _ _ _ (fun r' => cycle_inv e c r' ∧ Writes r' = Writes r ∧ ∀ o, keeps_waiting r r' o)); [by split_and!|].
  intros p r1 Hp (Hi1 & Hw1 & Hk1). rewrite Forall_forall in Hl. eapply runs_conseq.
  - apply (read_input_runs e c p r1 Hi1). destruct Hi as (_ & _ & Hc & _), Hi1 as (_ & _ & Hc1 & _). rewrite <-Hc in Hc1.
    apply config_fields in Hc1 as (_ & -> & _). by apply Hl.
  - intros [] r2 (Hi2 & Hw2 & Hk2). split; [done|]. split; [by rewrite Hw2|]. intros o. by eapply keeps_waiting_trans.
Qed.

(** ** Sending *)

Lemma sent_fields o nf r : let p := CurrentInputPortID nf in
  config (flit_sent o nf r) = config r ∧ Writes (flit_sent o nf r) = Writes r ++ [(o, nf)] ∧ Reads (flit_sent o nf r) = Reads r
  ∧ RoundRobinStatesPerPort (flit_sent o nf r) = <[o := u32 (p + 1)]> (RoundRobinStatesPerPort r)
  ∧ RequestsBeeingRouted (flit_sent o nf r) = delete p (RequestsBeeingRouted r)
  ∧ (∀ o', is_Some (RequestsBeeingRoutedPerOutputPort (flit_sent o nf r) !! o') → is_Some (RequestsBeeingRoutedPerOutputPort r !! o'))
  ∧ ∀ o' q, queued (flit_sent o nf r) o' q = if decide (o' = o ∧ q = p) then None else queued r o' q.
Proof.
  intros p. split_and!; try done.
  - intros o'. simpl. rewrite lookup_alter. destruct (decide (o = o')) as [<-|]; [|done].
    by destruct (RequestsBeeingRoutedPerOutputPort r !! o); [eauto|intros [? [=]]].
  - intros o' q. unfold queued. simpl. rewrite lookup_alter. destruct (decide (o = o')) as [<-|].
    + destruct (RequestsBeeingRoutedPerOutputPort r !! o) as [m|]; simpl; [|by case_decide]. rewrite lookup_delete.
      unfold p. destruct (decide (CurrentInputPortID nf = q)) as [<-|]; [by rewrite decide_True|]. by rewrite decide_False by naive_solver.
    + by rewrite decide_False by naive_solver.
Qed.

Lemma writes_of_app p o nf l r : Writes r = l ++ [(o, nf)] →
  writes_of p r = filter (fun nf => CurrentInputPortID nf = p) l.*2 ++ if decide (CurrentInputPortID nf = p) then [nf] else [].
Proof. intros E. unfold writes_of. rewrite E, fmap_app, filter_app. simpl. rewrite filter_cons, filter_nil. by case_decide. Qed.

Lemma sent_ok o p nf r : router_ok r → flows r → queued r o p = Some nf → router_ok (flit_sent o nf r) ∧ flows (flit_sent o nf r).
Proof.
  intros Hok Hfl Hqp. pose proof (ok_queued _ Hok _ _ _ Hqp) as [Hbp Htp]. pose proof (ok_buffer _ Hok _ _ Hbp) as (Hcur & Hp & _).
  destruct Hok as [Hnb Hin Hout Hturn Hkeys Hbuf Hq], Hfl as [Hflow Htgt].
  destruct (sent_fields o nf r) as (Hc & Hw & Hrd & Hrr & Hrb & Hk & Hqu). rewrite Hcur in *.
  apply config_fields in Hc as (_ & HN & HT & HI & HO). split; split.
  - by rewrite HN.
  - intros q. by rewrite HI, HN.
  - intros t o'. rewrite HT, HO. apply Hout.
  - intros o' v. rewrite Hrr, HN, lookup_insert. destruct (decide (o = o')); [|apply Hturn]. intros [= <-].
    rewrite u32_small by (unfold in_u32; lia). lia.
  - intros o' H%Hk. rewrite HO. by apply Hkeys.
  - intros q nf'. rewrite Hrb, HN, HT, lookup_delete. destruct (decide (p = q)); [done|]. intros (? & ? & o' & ? & ?)%Hbuf.
    split; [done|]. split; [done|]. exists o'. split; [done|]. rewrite Hqu. by rewrite decide_False by naive_solver.
  - intros o' q nf'. rewrite Hqu, Hrb, HT, lookup_delete. destruct (decide (o' = o ∧ q = p)) as [|Hne]; [done|]. intros Hq'.
    pose proof (Hq _ _ _ Hq') as [Hb' Ht']. destruct (decide (p = q)) as [<-|]; [|done].
    assert (nf' = nf) as -> by congruence. assert (o' = o) as -> by congruence. naive_solver.
  - intros q. unfold reads_of. rewrite Hrd. fold (reads_of q r). rewrite Hflow, (writes_of_app q o nf (Writes r) (flit_sent o nf r) Hw). rewrite Hcur, Hrb, lookup_delete.
    destruct (decide (p = q)) as [<-|]; [rewrite Hbp; simpl; by rewrite app_nil_r|]. by rewrite app_nil_r.
  - intros o' nf'. rewrite Hw, HT, elem_of_app, list_elem_of_singleton. intros [?|[= -> ->]]; [by apply Htgt|done].
Qed.

(** A flit that waits for a port that is served is sent, or its turn comes closer. *)
Definition wait_of (r : C_Router) (o p : Z) : Z := turns (NbIn r) (at_default (RoundRobinStatesPerPort r) o) p.
Definition served (r r' : C_Router) (o : Z) : Prop := ∀ p nf, queued r o p = Some nf →
  (∃ new, Writes r' = Writes r ++ new ∧ (o, nf) ∈ new) ∨ queued r' o p = Some nf ∧ wait_of r' o p < wait_of r o p.

Lemma turn_touched o r : router_ok r → flows r →
  let r1 := set_RoundRobinStatesPerPort (<[o := at_default (RoundRobinStatesPerPort r) o]> (RoundRobinStatesPerPort r)) r in
  router_ok r1 ∧ flows r1.
Proof.
  intros [Hnb Hin Hout Hturn Hkeys Hbuf Hq] [Hflow Htgt] r1. split; split; try done.
  intros o' v. simpl. rewrite lookup_insert. destruct (decide (o = o')) as [<-|]; [|apply Hturn]. intros [= <-]. unfold at_default.
  destruct (RoundRobinStatesPerPort r !! o) as [v|] eqn:E; simpl; [by eapply Hturn|lia].
Qed.

Lemma turn_range r o : router_ok r → 0 ≤ at_default (RoundRobinStatesPerPort r) o ≤ NbIn r.
Proof.
  intros Hok. unfold at_default. destruct (RoundRobinStatesPerPort r !! o) as [v|] eqn:E; simpl; [by eapply ok_turn|].
  pose proof (ok_nb _ Hok). lia.
Qed.

Lemma queued_requests r o p : default ∅ (RequestsBeeingRoutedPerOutputPort r !! o) !! p = queued r o p.
Proof. unfold queued. destruct (RequestsBeeingRoutedPerOutputPort r !! o); simpl; [done|by rewrite lookup_empty]. Qed.

Lemma send_output_runs e c o r : cycle_inv e c r → o ∈ OutputPorts r →
  runs (send_output e o) r (fun _ r' => cycle_inv e c r' ∧ (∃ new, Writes r' = Writes r ++ new)
    ∧ (num_free e o > 0 → served r r' o) ∧ ∀ o', o' ≠ o → keeps_waiting r r' o').
Proof.
  intros (Hok & Hfl & Hc & Hch) Ho. unfold send_output. apply runs_bind, runs_get. rewrite bool_decide_true by done.
  destruct (bool_decide (num_free e o > 0)) eqn:Hfree.
  2: { apply runs_ret. apply bool_decide_eq_false in Hfree. split; [done|]. split; [exists []; by rewrite app_nil_r|]. by split. }
  apply bool_decide_eq_true in Hfree. apply runs_bind, runs_modify. cbv zeta.
  set (turn := at_default (RoundRobinStatesPerPort r) o) in *.
  set (r1 := set_RoundRobinStatesPerPort (<[o := turn]> (RoundRobinStatesPerPort r)) r).
  destruct (turn_touched o r Hok Hfl) as [Hok1 Hfl1]. fold turn r1 in Hok1, Hfl1.
  pose proof (turn_range r o Hok) as Hturn. fold turn in Hturn. pose proof (ok_nb _ Hok) as Hnb.
  destruct (RoundRobinSearch _ turn (NbIn r)) as [nf|] eqn:Es.
  - destruct (search_first _ _ _ Hnb Hturn nf Es) as (p & Hp & Hreq & Hmin). rewrite queued_requests in Hreq.
    rewrite (room_writes _ _ Hch) by lia. apply runs_modify.
    destruct (sent_ok o p nf r1 Hok1 Hfl1 Hreq) as [Hok2 Hfl2].
    assert (CurrentInputPortID nf = p) as Hcur by (apply (ok_queued _ Hok) in Hreq as [Hreq _]; by apply (ok_buffer _ Hok) in Hreq as (? & _)).
    destruct (sent_fields o nf r1) as (Hc2 & Hw & _ & Hrr & _ & _ & Hqu). rewrite Hcur in Hrr, Hqu.
    split; [split; [done|split; [done|split; [by rewrite Hc2|by apply (channels_ok_config e r)]]]|]. split; [by exists [(o, nf)]|]. split.
    + intros _ q nf' Hq'. destruct (decide (q = p)) as [->|Hne]; [left; exists [(o, nf)]; split; [done|]; apply list_elem_of_singleton; congruence|].
      right. split; [rewrite Hqu; by rewrite decide_False by naive_solver|]. unfold wait_of.
      assert (NbIn (flit_sent o nf r1) = NbIn r) as -> by done. unfold at_default. rewrite Hrr, lookup_insert_eq. cbn [default from_option id].
      assert (0 ≤ q < NbIn r) as Hq by (apply (ok_queued _ Hok) in Hq' as [Hb _]; by apply (ok_buffer _ Hok) in Hb as (_ & ? & _)).
      rewrite u32_small by (unfold in_u32; lia). apply turns_closer; try done. apply Hmin; [done|]. by rewrite queued_requests, Hq'.
    + intros o' Hne. split; [|by rewrite Hrr, lookup_insert_ne; [simpl; rewrite lookup_insert_ne|]].
      intros q nf' Hq'. rewrite Hqu. by rewrite decide_False by naive_solver.
  - apply runs_ret. split; [split; [done|split; [done|split; [done|by apply (channels_ok_config e r)]]]|]. split; [exists []; by rewrite app_nil_r|]. split.
    + intros _ q nf Hq. exfalso. assert (0 ≤ q < NbIn r) as Hqr by (apply (ok_queued _ Hok) in Hq as [Hb _]; by apply (ok_buffer _ Hok) in Hb as (_ & ? & _)).
      destruct (search_found (default ∅ (RequestsBeeingRoutedPerOutputPort r !! o)) turn (NbIn r) Hnb Hturn q Hqr) as [nf' E];
        [by rewrite queued_requests, Hq|]. congruence.
    + intros o' Hne. split; [done|]. simpl. by rewrite lookup_insert_ne.
Qed.

Lemma send_outputs_runs e c l : NoDup l → ∀ r, cycle_inv e c r → Forall (fun o => o ∈ OutputPorts r) l →
  runs (m_forM l (send_output e)) r (fun _ r' => cycle_inv e c r' ∧ (∃ new, Writes r' = Writes r ++ new)
    ∧ (∀ o, o ∈ l → num_free e o > 0 → served r r' o) ∧ ∀ o, o ∉ l → keeps_waiting r r' o).
Proof.
  induction 1 as [|o l Hno Hnd IH]; intros r Hi Hl.
  { split; [done|]. split; [exists []; by rewrite app_nil_r|]. split; [|done]. intros o Ho. by apply elem_of_nil in Ho. }
  apply Forall_cons in Hl as [Ho Hl]. cbn [m_forM]. apply runs_bind. eapply runs_conseq; [by apply (send_output_runs e c o)|].
  intros [] r1 (Hi1 & (new1 & Hw1) & Hs1 & Hk1).
  assert (OutputPorts r1 = OutputPorts r) as Hop.
  { destruct Hi as (_ & _ & Hc & _), Hi1 as (_ & _ & Hc1 & _). rewrite <-Hc in Hc1. by apply config_fields in Hc1 as (_ & _ & _ & _ & ->). }
  eapply runs_conseq; [apply (IH r1 Hi1)|]. { by rewrite Hop. }
  intros [] r2 (Hi2 & (new2 & Hw2) & Hs2 & Hk2). split; [done|]. split; [exists (new1 ++ new2); by rewrite Hw2, Hw1, app_assoc|]. split.
  - intros o' [->|Hin]%elem_of_cons Hf p nf Hq.
    + destruct (Hs1 Hf p nf Hq) as [(new & Hw & Hnew)|[Hq1 Hlt]].
      * left. exists (new ++ new2). rewrite Hw2, Hw, app_assoc. split; [done|]. apply elem_of_app. by left.
      * right. destruct (Hk2 o Hno) as [Hk Hr]. split; [by apply Hk|]. unfold wait_of, at_default in *. rewrite Hr.
        destruct Hi1 as (_ & _ & Hc1 & _), Hi2 as (_ & _ & Hc2 & _). rewrite <-Hc1 in Hc2. by apply config_fields in Hc2 as (_ & -> & _).
    + assert (o' ≠ o) as Hne by (intros ->; done). destruct (Hk1 o' Hne) as [Hk Hr].
      destruct (Hs2 o' Hin Hf p nf (Hk p nf Hq)) as [(new & Hw & Hnew)|[Hq1 Hlt]].
      * left. exists (new1 ++ new). rewrite Hw, Hw1, app_assoc. split; [done|]. apply elem_of_app. by right.
      * right. split; [done|]. unfold wait_of, at_default in *. rewrite Hr in Hlt.
        destruct Hi as (_ & _ & Hc & _), Hi1 as (_ & _ & Hc1 & _). rewrite <-Hc in Hc1. apply config_fields in Hc1 as (_ & Hn & _).
        by rewrite Hn in Hlt.
  - intros o' [Hne Hin]%not_elem_of_cons. eapply keeps_waiting_trans; [by apply Hk1|by apply Hk2].
Qed.

Lemma in_order_elem (s : gset Z) x : x ∈ in_order s ↔ x ∈ s.
Proof. unfold in_order. by rewrite merge_sort_Permutation, elem_of_elements. Qed.
Lemma in_order_NoDup (s : gset Z) : NoDup (in_order s).
Proof. unfold in_order. rewrite merge_sort_Permutation. apply NoDup_elements. Qed.

(** One cycle: the invariant stays, and every flit that waits for a port with room is sent or
    comes closer to its turn. *)
Lemma DoRoute_runs e c r : cycle_inv e c r →
  runs (DoRoute e) r (fun _ r' => cycle_inv e c r' ∧ (∃ new, Writes r' = Writes r ++ new)
    ∧ ∀ o, num_free e o > 0 → served r r' o).
Proof.
  intros Hi. unfold DoRoute. apply runs_bind, runs_get, runs_bind. eapply runs_conseq.
  { apply (read_inputs_runs e c); [done|]. apply Forall_forall. intros p Hp%in_order_elem. by apply (ok_in _ (proj1 Hi)). }
  intros [] r1 (Hi1 & Hw1 & Hk1). apply runs_bind, runs_get. eapply runs_conseq.
  { apply (send_outputs_runs e c); [apply in_order_NoDup|done|]. apply Forall_forall. intros o Ho%in_order_elem.
    apply elem_of_dom in Ho. by apply (ok_keys _ (proj1 Hi1)). }
  intros [] r2 (Hi2 & (new & Hw2) & Hs2 & _). split; [done|]. split; [exists new; by rewrite Hw2, Hw1|].
  intros o Hf p nf Hq. destruct (Hk1 o) as [Hk Hr]. pose proof (Hk p nf Hq) as Hq1.
  destruct (Hs2 o) with p nf as [(new' & Hw & Hin)|[Hq2 Hlt]]; [|done|done|left; exists new'; by rewrite Hw, Hw1|].
  { apply in_order_elem, elem_of_dom. unfold queued in Hq1. by destruct (RequestsBeeingRoutedPerOutputPort r1 !! o); [eauto|]. }
  right. split; [done|]. unfold wait_of, at_default in *. rewrite Hr in Hlt.
  destruct Hi as (_ & _ & Hc & _), Hi1 as (_ & _ & Hc1 & _). rewrite <-Hc in Hc1. apply config_fields in Hc1 as (_ & Hn & _). by rewrite Hn in Hlt.
Qed.

Lemma cycles_keep es : ∀ c r, router_ok r → flows r → config r = c → Forall (channels_ok r) es →
  runs (m_forM es DoRoute) r (fun _ r' => router_ok r' ∧ flows r' ∧ config r' = c ∧ ∃ new, Writes r' = Writes r ++ new).
Proof.
  induction es as [|e es IH]; intros c r Hok Hfl Hc Hes; [split_and!; try done; exists []; by rewrite app_nil_r|].
  apply Forall_cons in Hes as [He Hes]. cbn [m_forM]. apply runs_bind. eapply runs_conseq; [by apply (DoRoute_runs e c)|].
  intros [] r1 ((Hok1 & Hfl1 & Hc1 & _) & (new1 & Hw1) & _). eapply runs_conseq; [apply (IH c r1); try done|].
  - apply (Forall_impl _ _ _ Hes). intros e' He'. apply (channels_ok_config e' r); [by rewrite Hc1|done].
  - intros [] r2 (? & ? & ? & new2 & Hw2). split_and!; try done. exists (new1 ++ new2). by rewrite Hw2, Hw1, app_assoc.
Qed.

(** C11: a router loses nothing and keeps the order.  In any sequence of cycles in which channels
    with room take flits and flits have targets that the router knows, every cycle returns; the
    flits that came in through an input port went out in the order in which they came in, once
    each, except at most the last one, which is in the buffer; each went out through the port of
    its target. *)
Theorem router_refines_channels es r : router_ok r → flows r → Forall (channels_ok r) es →
  ∃ r', m_forM es DoRoute r = (Ok tt, r') ∧ router_ok r'
    ∧ (∀ p, reads_of p r' = writes_of p r' ++ option_list (RequestsBeeingRouted r' !! p))
    ∧ (∀ o nf, (o, nf) ∈ Writes r' → TargetToOutPort r !! TargetId nf = Some o).
Proof.
  intros Hok Hfl Hes. pose proof (cycles_keep es _ r Hok Hfl eq_refl Hes) as H. unfold runs in H.
  destruct (m_forM es DoRoute r) as [[[]|] r']; [|done]. destruct H as (Hok' & [Hflow Htgt] & Hc & _). exists r'. split; [done|]. split; [done|].
  split; [done|]. apply config_fields in Hc as (_ & _ & HT & _). intros o nf Hw. rewrite <-HT. by apply Htgt.
Qed.

(** The number of cycles bounds the turns before the one of the flit. *)
Lemma waits_bounded o p nf es : ∀ c r, router_ok r → flows r → config r = c → Forall (channels_ok r) es →
  Forall (fun e => num_free e o > 0) es → queued r o p = Some nf → wait_of r o p < Z.of_nat (length es) →
  runs (m_forM es DoRoute) r (fun _ r' => ∃ new, Writes r' = Writes r ++ new ∧ (o, nf) ∈ new).
Proof.
  induction es as [|e es IH]; intros c r Hok Hfl Hc Hes Hfree Hq Hlt.
  { pose proof (ok_queued _ Hok _ _ _ Hq) as [Hb _]. apply (ok_buffer _ Hok) in Hb as (_ & Hp & _).
    pose proof (turns_bound (NbIn r) (at_default (RoundRobinStatesPerPort r) o) p ltac:(lia)). unfold wait_of in Hlt. simpl in Hlt. lia. }
  apply Forall_cons in Hes as [He Hes], Hfree as [Hf Hfree]. cbn [m_forM]. apply runs_bind.
  eapply runs_conseq; [by apply (DoRoute_runs e c)|]. intros [] r1 ((Hok1 & Hfl1 & Hc1 & _) & (new1 & Hw1) & Hs).
  assert (Forall (channels_ok r1) es) as Hes1.
  { apply (Forall_impl _ _ _ Hes). intros e' He'. apply (channels_ok_config e' r); [by rewrite Hc1|done]. }
  destruct (Hs o Hf p nf Hq) as [(new & Hw & Hin)|[Hq1 Hcloser]].
  - eapply runs_conseq; [by apply (cycles_keep es c r1)|]. intros [] r2 (_ & _ & _ & new2 & Hw2). exists (new ++ new2).
    rewrite Hw2, Hw, app_assoc. split; [done|]. apply elem_of_app. by left.
  - cbn [length] in Hlt. eapply runs_conseq; [apply (IH c r1); try done; lia|]. intros [] r2 (new2 & Hw2 & Hin).
    exists (new1 ++ new2). rewrite Hw2, Hw1, app_assoc. split; [done|]. apply elem_of_app. by right.
Qed.

(** C12: no flit starves.  A flit in the buffer whose output port has room leaves through this port
    within as many cycles as the router has input ports, whatever else comes in. *)
Theorem router_progress es r o p nf : router_ok r → flows r → Forall (channels_ok r) es → Forall (fun e => num_free e o > 0) es →
  RequestsBeeingRouted r !! p = Some nf → TargetToOutPort r !! TargetId nf = Some o → NbIn r ≤ Z.of_nat (length es) →
  ∃ r' new, m_forM es DoRoute r = (Ok tt, r') ∧ Writes r' = Writes r ++ new ∧ (o, nf) ∈ new.
Proof.
  intros Hok Hfl Hes Hfree Hb Ht Hlen. pose proof (ok_buffer _ Hok _ _ Hb) as (_ & Hp & o' & Ho' & Hq).
  assert (o' = o) as -> by congruence. pose proof (turns_bound (NbIn r) (at_default (RoundRobinStatesPerPort r) o) p ltac:(lia)) as Hw.
  pose proof (waits_bounded o p nf es _ r Hok Hfl eq_refl Hes Hfree Hq) as H. unfold wait_of in H. specialize (H ltac:(lia)). unfold runs in H.
  destruct (m_forM es DoRoute r) as [[[]|] r']; [|done]. destruct H as (new & ? & ?). by exists r', new.
Qed.

(** ** Routers that have not started *)

(** A router without flits: its input ports are numbered from zero on, and every target is mapped to
    an output port. *)
Record router_idle (r : C_Router) : Prop := mkRouterIdle {
  idle_nb : 0 ≤ NbIn r < 2 ^ 31;
  idle_in p : p ∈ InputPorts r ↔ 0 ≤ p < NbIn r;
  idle_out t o : TargetToOutPort r !! t = Some o → o ∈ OutputPorts r;
  idle_turn o v : RoundRobinStatesPerPort r !! o = Some v → v = 0;
  idle_buffer : RequestsBeeingRouted r = ∅;
  idle_queues : RequestsBeeingRoutedPerOutputPort r = ∅;
  idle_reads : Reads r = [];
  idle_writes : Writes r = [] }.

Lemma idle_router_ok r : router_idle r → router_ok r ∧ flows r.
Proof.
  intros [Hnb Hin Hout Hturn Hb Hq Hr Hw]. split; split; try done.
  - intros o v ->%Hturn. lia.
  - intros o. rewrite Hq, lookup_empty. by intros [? [=]].
  - intros p nf. by rewrite Hb, lookup_empty.
  - intros o p nf. unfold queued. by rewrite Hq, lookup_empty.
  - intros p. unfold reads_of, writes_of. by rewrite Hr, Hw, Hb, lookup_empty.
  - intros o nf. rewrite Hw. by intros ?%elem_of_nil.
Qed.

(** Two input ports, and one output port for one target. *)
Definition two_inputs : C_Router :=
  ((AddInPort 0 ;;; AddInPort 1 ;;; AddOutPort 3 ;;; AddOutMapping (0, 3) 3) new_Router).2.

Lemma two_inputs_ok : router_ok two_inputs ∧ flows two_inputs.
Proof.
  apply idle_router_ok. split; try done.
  - intros p. change (InputPorts two_inputs) with ({[1]} ∪ ({[0]} ∪ ∅) : gset Z). change (NbIn two_inputs) with 2. set_unfold. lia.
  - intros t o. change (TargetToOutPort two_inputs) with (<[(0, 3) := 3]> ∅ : gmap (Z * Z) Z).
    change (OutputPorts two_inputs) with ({[3]} ∪ ∅ : gset Z). rewrite lookup_insert. case_decide; [intros [= <-]; set_solver|]. by rewrite lookup_empty.
Qed.

Definition a_flit (src : Z) : NoCFlit := mkFlit (0, 3) (src, 0) 0 0 true 0 0 true 0.
(** Both inputs deliver a flit; the output has room or not. *)
Definition busy (room : Z) : channels := mkChannels (fun p => Some (a_flit p)) (fun _ => room) (fun _ _ => true).

Lemma busy_ok room r : TargetToOutPort r !! (0, 3) = Some 3 → channels_ok r (busy room).
Proof. intros H. split; [done|]. intros p nf [= <-]. simpl. by rewrite H. Qed.

Lemma router_refines_channels_witness : ∃ r', m_forM [busy 0; busy 1; busy 1; busy 1] DoRoute two_inputs = (Ok tt, r')
  ∧ reads_of 0 r' = writes_of 0 r' ∧ length (writes_of 0 r') = 2%nat ∧ RequestsBeeingRouted r' !! 0 = None.
Proof.
  destruct two_inputs_ok as [Hok Hfl].
  destruct (router_refines_channels [busy 0; busy 1; busy 1; busy 1] two_inputs Hok Hfl) as (r' & E & _ & Hflow & _).
  { repeat constructor; by apply busy_ok. }
  assert (RequestsBeeingRouted (m_forM [busy 0; busy 1; busy 1; busy 1] DoRoute two_inputs).2 !! 0 = None) as Hn by (by vm_compute).
  assert (length (writes_of 0 (m_forM [busy 0; busy 1; busy 1; busy 1] DoRoute two_inputs).2) = 2%nat) as Hl by (by vm_compute).
  rewrite E in Hn, Hl. cbn [snd] in Hn, Hl. exists r'. split; [exact E|]. split; [|by split]. rewrite (Hflow 0), Hn. apply app_nil_r.
Defined.

(** Both flits are in the buffer after a cycle without room; the second one leaves within two
    cycles. *)
Lemma router_progress_witness : ∃ r1 r' new, m_forM [busy 0] DoRoute two_inputs = (Ok tt, r1)
  ∧ m_forM [busy 1; busy 1] DoRoute r1 = (Ok tt, r') ∧ Writes r' = Writes r1 ++ new ∧ (3, set_CurrentInputPortID 1 (a_flit 1)) ∈ new.
Proof.
  destruct two_inputs_ok as [Hok Hfl].
  pose proof (cycles_keep [busy 0] _ two_inputs Hok Hfl eq_refl ltac:(repeat constructor; by apply busy_ok)) as H. unfold runs in H.
  assert (RequestsBeeingRouted (m_forM [busy 0] DoRoute two_inputs).2 !! 1 = Some (set_CurrentInputPortID 1 (a_flit 1))) as Hb by (by vm_compute).
  destruct (m_forM [busy 0] DoRoute two_inputs) as [[[]|] r1] eqn:E; [|done]. destruct H as (Hok1 & Hfl1 & Hc & _).
  apply config_fields in Hc as (_ & Hn & HT & _). exists r1.
  assert (TargetToOutPort r1 !! (0, 3) = Some 3) as Ht by (by rewrite HT).
  destruct (router_progress [busy 1; busy 1] r1 3 1 (set_CurrentInputPortID 1 (a_flit 1)) Hok1 Hfl1) as (r' & new & E' & Hw & Hin).
  - repeat constructor; by apply busy_ok.
  - repeat constructor.
  - exact Hb.
  - exact Ht.
  - rewrite Hn. done.
  - exists r', new. split; [reflexivity|]. split; [exact E'|]. by split.
Defined.
