(* ===== verification/NoCCycleAccurate.v ===== *)
(** * Elaboration of the cycle-accurate NoC ([components/connect/NoCCycleAccurate.cpp])

    Before the simulation starts, a router is built for every router of the topology, with one
    port for every endpoint and every link, and an output port for every valid target; then the
    links are bound.  The topology numbers the ports of a router as they are asked for
    ([NoCBase.next_input_port]).  The file shows that, for a topology built by its own
    operations, the elaboration gives every router the input ports from zero on, which its
    arbitration relies on, and that it succeeds when every link is used by a route; a link that
    no route uses has no output port to be bound to. *)

From stdpp Require Import sorting.
From S2P Require Import Prelude NoCBase Router.

(** ** Elaboration *)

(** The routers by their numbers, and the channels: between an endpoint and a port of a router, and
    between the ports of two routers. *)
Inductive channel :=
  | EndpointIn (endpoint r p : Z)
  | EndpointOut (r p endpoint : Z)
  | RouterLink (r p r' p' : Z).

Record elaboration := mkElaboration { Routers : gmap Z C_Router; Channels : list channel }.

(** [Routers\[r\]->f()]; an entry that is missing is a null pointer. *)
Definition on_router (r : Z) (m : M C_Router unit) : M elaboration unit := fun s =>
  match Routers s !! r with
  | Some x => let '(e, x') := m x in (e, mkElaboration (<[r := x']> (Routers s)) (Channels s))
  | None => (Err (UndefinedBehaviour "null pointer"), s)
  end.
Definition add_channel (c : channel) : M elaboration unit := m_modify (fun s => mkElaboration (Routers s) (Channels s ++ [c])).

Definition infos (m : gmap Z (list BindInfo)) (r : Z) : list BindInfo := default [] (m !! r).

Definition elaborate_master (r : Z) (i : BindInfo) : M elaboration unit :=
  on_router r (AddInPort (RouterFWPort i)) ;;;
  on_router r (AddOutPort (RouterBWPort i)) ;;;
  add_channel (EndpointIn (Endpoint i) r (RouterFWPort i)) ;;;
  add_channel (EndpointOut r (RouterBWPort i) (Endpoint i)).
Definition elaborate_slave (r : Z) (i : BindInfo) : M elaboration unit :=
  on_router r (AddInPort (RouterBWPort i)) ;;;
  on_router r (AddOutPort (RouterFWPort i)) ;;;
  add_channel (EndpointIn (Endpoint i) r (RouterBWPort i)) ;;;
  add_channel (EndpointOut r (RouterFWPort i) (Endpoint i)).
Definition elaborate_caba_slave (r : Z) (i : BindInfo) : M elaboration unit :=
  on_router r (AddOutPort (RouterFWPort i)) ;;; add_channel (EndpointOut r (RouterFWPort i) (Endpoint i)).
Definition elaborate_caba_master (r : Z) (i : BindInfo) : M elaboration unit :=
  on_router r (AddInPort (RouterFWPort i)) ;;; add_channel (EndpointIn (Endpoint i) r (RouterFWPort i)).

(** The output port of a target: its own at its router, else the one of the routing table, where a
    missing entry reads as port 0. *)
Definition port_of_target (T : C_NoCBase) (r : Z) (t : Z * Z) : Z :=
  if bool_decide (t.1 = r) then t.2 else at_default (default ∅ (RoutingTables T !! r)) t.1.

Definition elaborate_router (T : C_NoCBase) (r : Z) : M elaboration unit :=
  m_modify (fun s => mkElaboration (<[r := new_Router]> (Routers s)) (Channels s)) ;;;
  m_forM (infos (TLMMasterBindInfoList T) r) (elaborate_master r) ;;;
  m_forM (infos (TLMSlaveBindInfoList T) r) (elaborate_slave r) ;;;
  m_forM (infos (CABASlaveBindInfoList T) r) (elaborate_caba_slave r) ;;;
  m_forM (infos (CABAMasterBindInfoList T) r) (elaborate_caba_master r) ;;;
  m_forM (ValidTargets T) (fun t => on_router r (AddOutMapping t (port_of_target T r t))).

(** The port of the source is looked up and bound: a missing one is a null pointer. *)
Definition bind_output (p : Z) : M C_Router unit :=
  x <- m_get ;;
  if bool_decide (p ∈ OutputPorts x) then m_ret tt else m_throw (UndefinedBehaviour "null pointer").

Definition elaborate_link (l : (Z * Z) * (Z * Z)) : M elaboration unit :=
  let '((src, out), (dst, inp)) := l in
  on_router dst (AddInPort inp) ;;;
  on_router src (bind_output out) ;;;
  add_channel (RouterLink src out dst inp).

Definition cycle_accurate_elaboration (T : C_NoCBase) : M elaboration unit :=
  m_when (NoTiming T) (m_throw (Throw "Cannot remove timings from CycleAccurate models")) ;;;
  m_forM (in_order (SlowRouterIDs T)) (elaborate_router T) ;;;
  m_forM (in_key_order (Links T)) elaborate_link.

(** ** The ports of a topology *)

Definition local_ins (T : C_NoCBase) (r : Z) : list Z :=
  (RouterFWPort <$> infos (TLMMasterBindInfoList T) r) ++ (RouterBWPort <$> infos (TLMSlaveBindInfoList T) r)
  ++ (RouterFWPort <$> infos (CABAMasterBindInfoList T) r).
Definition local_outs (T : C_NoCBase) (r : Z) : list Z :=
  (RouterBWPort <$> infos (TLMMasterBindInfoList T) r) ++ (RouterFWPort <$> infos (TLMSlaveBindInfoList T) r)
  ++ (RouterFWPort <$> infos (CABASlaveBindInfoList T) r).
Definition link_ins (l : list ((Z * Z) * (Z * Z))) (r : Z) : list Z := omap (fun e => if decide (e.2.1 = r) then Some e.2.2 else None) l.
Definition link_outs (l : list ((Z * Z) * (Z * Z))) (r : Z) : list Z := omap (fun e => if decide (e.1.1 = r) then Some e.1.2 else None) l.

(** The ports of every router are numbered from zero on, and only routers of the topology have
    any. *)
Record ports_ok (n : nat) (T : C_NoCBase) : Prop := mkPortsOk {
  po_ins r : local_ins T r ++ link_ins (map_to_list (Links T)) r ≡ₚ seqZ 0 (at_default (RouterInputPortsCount T) r);
  po_outs r : local_outs T r ++ link_outs (map_to_list (Links T)) r ≡ₚ seqZ 0 (at_default (RouterOutputPortsCount T) r);
  po_bound r : 0 ≤ at_default (RouterInputPortsCount T) r ≤ Z.of_nat n ∧ 0 ≤ at_default (RouterOutputPortsCount T) r ≤ Z.of_nat n;
  po_new r : r ∉ SlowRouterIDs T → at_default (RouterInputPortsCount T) r = 0 ∧ at_default (RouterOutputPortsCount T) r = 0 }.

(** What the other operations of a topology, routing and the memory map, leave alone. *)
Definition ports_view (T : C_NoCBase) :=
  (SlowRouterIDs T, Links T, RouterInputPortsCount T, RouterOutputPortsCount T,
   (TLMMasterBindInfoList T, TLMSlaveBindInfoList T, CABAMasterBindInfoList T, CABASlaveBindInfoList T), ValidTargets T).

(** Topologies built in [n] steps, in which endpoints are bound to routers that exist. *)
Inductive topology_built : nat → C_NoCBase → Prop :=
  | built_empty : topology_built 0 new_NoCBase
  | built_router n T T' r : topology_built n T → AddRouter r T = (Ok tt, T') → topology_built (S n) T'
  | built_link n T T' u v : topology_built n T → AddLink u v T = (Ok tt, T') → topology_built (S n) T'
  | built_master n T T' port r : topology_built n T → r ∈ SlowRouterIDs T → bind_master port r T = (Ok tt, T') → topology_built (S n) T'
  | built_slave n T T' port r region : topology_built n T → r ∈ SlowRouterIDs T → bind_slave port r region T = (Ok tt, T') →
      topology_built (S n) T'
  | built_bidir n T T' slave master r t : topology_built n T → r ∈ SlowRouterIDs T → BindBiDir slave master r T = (Ok t, T') →
      topology_built (S n) T'
  | built_other n T T' : topology_built n T → ports_view T' = ports_view T → topology_built n T'.

(** ** Numbering *)

Definition count_in (T : C_NoCBase) (r : Z) : Z := at_default (RouterInputPortsCount T) r.
Definition count_out (T : C_NoCBase) (r : Z) : Z := at_default (RouterOutputPortsCount T) r.
Definition all_ins (T : C_NoCBase) (r : Z) : list Z := local_ins T r ++ link_ins (map_to_list (Links T)) r.
Definition all_outs (T : C_NoCBase) (r : Z) : list Z := local_outs T r ++ link_outs (map_to_list (Links T)) r.
Definition if_at (r u p : Z) : list Z := if decide (r = u) then [p] else [].

(** One more output port at [u] and one more input port at [v], with the next numbers. *)
Record grown (T T' : C_NoCBase) (u v : Z) : Prop := mkGrown {
  gr_ins r : all_ins T' r ≡ₚ if_at r v (count_in T v) ++ all_ins T r;
  gr_outs r : all_outs T' r ≡ₚ if_at r u (count_out T u) ++ all_outs T r;
  gr_count_in r : count_in T' r = if decide (r = v) then u32 (count_in T v + 1) else count_in T r;
  gr_count_out r : count_out T' r = if decide (r = u) then u32 (count_out T u + 1) else count_out T r;
  gr_routers : SlowRouterIDs T' = SlowRouterIDs T }.

Lemma seqZ_snoc n : 0 ≤ n → n :: seqZ 0 n ≡ₚ seqZ 0 (n + 1).
Proof. intros Hn. rewrite (seqZ_app 0 n 1) by lia. rewrite Z.add_0_l. change (seqZ n 1) with [n]. apply Permutation_cons_append. Qed.

Lemma grown_ok n T T' u v : ports_ok n T → Z.of_nat n + 1 < 2 ^ 32 → u ∈ SlowRouterIDs T → v ∈ SlowRouterIDs T → grown T T' u v →
  ports_ok (S n) T'.
Proof.
  intros [Hins Houts Hb Hnew] Hn Hu Hv [Gins Gouts Gin Gout Gr]. unfold all_ins, all_outs, count_in, count_out, if_at in *. split.
  - intros r. rewrite Gins, Hins, Gin. destruct (decide (r = v)) as [->|]; [|done]. destruct (Hb v) as [? _].
    rewrite u32_small by (unfold in_u32; lia). apply seqZ_snoc. lia.
  - intros r. rewrite Gouts, Houts, Gout. destruct (decide (r = u)) as [->|]; [|done]. destruct (Hb u) as [_ ?].
    rewrite u32_small by (unfold in_u32; lia). apply seqZ_snoc. lia.
  - intros r. rewrite Gin, Gout. destruct (Hb r), (Hb u), (Hb v).
    split; case_decide; subst; rewrite ?u32_small by (unfold in_u32; lia); lia.
  - intros r. rewrite Gr, Gin, Gout. intros Hr. rewrite !decide_False by congruence. by apply Hnew.
Qed.

Lemma ports_ok_mono n T : ports_ok n T → ports_ok (S n) T.
Proof. intros [Hins Houts Hb Hnew]. split; [done|done| |done]. intros r. destruct (Hb r). lia. Qed.

(** *** Endpoints *)

Lemma infos_push r i m x : infos (push_info r i m) x = infos m x ++ if decide (x = r) then [i] else [].
Proof.
  unfold infos, push_info. rewrite lookup_insert. destruct (decide (r = x)) as [->|Hne]; [by rewrite decide_True|].
  rewrite decide_False by congruence. by rewrite app_nil_r.
Qed.

Lemma fmap_if_at (f : BindInfo → Z) x r i : f <$> (if decide (x = r) then [i] else []) = if_at x r (f i).
Proof. unfold if_at. by case_decide. Qed.

Lemma perm_front (a b c : list Z) : (a ++ b) ++ c ≡ₚ b ++ a ++ c.
Proof. rewrite (Permutation_app_comm a b). by rewrite app_assoc. Qed.

Lemma insert_count m r n x : at_default (<[r := n]> m) x = if decide (x = r) then n else at_default m x.
Proof. unfold at_default. rewrite lookup_insert. repeat case_decide; subst; done. Qed.

Ltac grown_endpoint := split; [intros x; unfold all_ins, local_ins, local_outs; cbn -[push_info infos at_default];
      rewrite ?infos_push, ?fmap_app, ?fmap_if_at; cbn [RouterFWPort RouterBWPort];
      rewrite <-?app_assoc; rewrite ?(Permutation_app_swap_app _ (if_at _ _ _)); done
    | intros x; unfold all_outs, local_ins, local_outs; cbn -[push_info infos at_default];
      rewrite ?infos_push, ?fmap_app, ?fmap_if_at; cbn [RouterFWPort RouterBWPort];
      rewrite <-?app_assoc; rewrite ?(Permutation_app_swap_app _ (if_at _ _ _)); done
    | intros x; unfold count_in; cbn -[at_default]; by rewrite insert_count
    | intros x; unfold count_out; cbn -[at_default]; by rewrite insert_count
    | done ].

Lemma bind_master_grown port r T T' : bind_master port r T = (Ok tt, T') → grown T T' r r.
Proof. intros H%(f_equal snd). cbn [snd] in H. subst T'. grown_endpoint. Qed.
Lemma bind_slave_grown port r region T T' : bind_slave port r region T = (Ok tt, T') → grown T T' r r.
Proof. intros H%(f_equal snd). cbn [snd] in H. subst T'. grown_endpoint. Qed.
Lemma BindBiDir_grown slave master r t T T' : BindBiDir slave master r T = (Ok t, T') → grown T T' r r.
Proof. intros H%(f_equal snd). cbn [snd] in H. subst T'. grown_endpoint. Qed.

(** *** Routers and links *)

Lemma ports_ok_view n T T' : ports_view T' = ports_view T → ports_ok n T → ports_ok n T'.
Proof.
  intros [= E1 E2 E3 E4 E5 E6 E7 E8 E9] [Hins Houts Hb Hnew].
  split; unfold local_ins, local_outs in *; rewrite ?E1, ?E2, ?E3, ?E4, ?E5, ?E6, ?E7, ?E8; done.
Qed.

Lemma ensures_get {S} (s : S) (Q : S → S → Prop) : Q s s → ensures m_get s Q.
Proof. done. Qed.
Ltac wp := first [apply ensures_get; cbv beta | wp_step].

Lemma AddRouter_ports n T r : ports_ok n T →
  ensures (AddRouter r) T (fun _ T' => ports_ok n T' ∧ SlowRouterIDs T' = SlowRouterIDs T ∪ {[r]}).
Proof.
  intros H. unfold AddRouter. repeat wp. case_bool_decide as Hr; repeat wp; [split; [done|set_solver]|].
  split; [|done]. destruct H as [Hins Houts Hb Hnew]. destruct (Hnew r Hr) as [Hi Ho].
  assert (∀ x, at_default (<[r := 0]> (RouterInputPortsCount T)) x = at_default (RouterInputPortsCount T) x) as Ei.
  { intros x. rewrite insert_count. by case_decide; subst. }
  assert (∀ x, at_default (<[r := 0]> (RouterOutputPortsCount T)) x = at_default (RouterOutputPortsCount T) x) as Eo.
  { intros x. rewrite insert_count. by case_decide; subst. }
  split; intros x; cbn -[at_default]; rewrite ?Ei, ?Eo; [apply Hins|apply Houts|apply Hb|].
  intros Hx. apply Hnew. set_solver.
Qed.

Lemma link_ins_perm l l' r : l ≡ₚ l' → link_ins l r ≡ₚ link_ins l' r.
Proof. intros H. unfold link_ins. by rewrite H. Qed.
Lemma link_outs_perm l l' r : l ≡ₚ l' → link_outs l r ≡ₚ link_outs l' r.
Proof. intros H. unfold link_outs. by rewrite H. Qed.

(** The number of an output port that is next is not used by a link. *)
Lemma link_fresh n T u : ports_ok n T → Links T !! (u, count_out T u) = None.
Proof.
  intros H. destruct (Links T !! (u, count_out T u)) as [x|] eqn:E; [|done]. exfalso.
  assert (count_out T u ∈ all_outs T u) as Hin.
  { unfold all_outs. apply elem_of_app. right. unfold link_outs. apply list_elem_of_omap. exists ((u, count_out T u), x).
    split; [by apply elem_of_map_to_list|]. simpl. by rewrite decide_True. }
  unfold all_outs in Hin. rewrite (po_outs _ _ H u) in Hin. apply elem_of_seqZ in Hin. unfold count_out in Hin. lia.
Qed.

Definition with_link (u p v q : Z) (T : C_NoCBase) : C_NoCBase :=
  set_Links (<[(u, p) := (v, q)]> (Links T))
    (set_RouterInputPortsCount (<[v := u32 (q + 1)]> (RouterInputPortsCount T))
      (set_RouterOutputPortsCount (<[u := u32 (p + 1)]> (RouterOutputPortsCount T)) T)).

Lemma link_grown n T u v : ports_ok n T → grown T (with_link u (count_out T u) v (count_in T v) T) u v.
Proof.
  intros H. pose proof (link_fresh n T u H) as Hf. split.
  - intros r. unfold all_ins. change (local_ins (with_link _ _ _ _ T) r) with (local_ins T r). simpl.
    rewrite (link_ins_perm _ _ r (map_to_list_insert _ _ _ Hf)). unfold if_at. simpl. destruct (decide (r = v)) as [->|].
    + rewrite decide_True by done. by rewrite <-Permutation_middle.
    + by rewrite decide_False by congruence.
  - intros r. unfold all_outs. change (local_outs (with_link _ _ _ _ T) r) with (local_outs T r). simpl.
    rewrite (link_outs_perm _ _ r (map_to_list_insert _ _ _ Hf)). unfold if_at. simpl. destruct (decide (r = u)) as [->|].
    + rewrite decide_True by done. by rewrite <-Permutation_middle.
    + by rewrite decide_False by congruence.
  - intros r. unfold count_in. cbn -[at_default]. apply insert_count.
  - intros r. unfold count_out. cbn -[at_default]. apply insert_count.
  - done.
Qed.

(** The graph of the topology has no ports. *)
Lemma push_arc_ports n u v T : ports_ok n T →
  ensures (s <- m_get ;;
     m_when (bool_decide (u >= Z.of_nat (length (NoCGraph s)))) (m_modify (set_NoCGraph (resize_graph (u32 (u + 1)) (NoCGraph s)))) ;;;
     s <- m_get ;;
     arcs <- m_lift (vec_get (NoCGraph s) u) ;;
     G <- m_lift (vec_set (NoCGraph s) u (arcs ++ [(to_int v, 1)])) ;;
     m_modify (set_NoCGraph G)) T (fun _ T' => ports_ok n T').
Proof.
  intros H. do 3 wp. eapply (ensures_conseq _ _ (fun _ T1 => ports_ok n T1)).
  { wp; [wp; by apply (ports_ok_view n T)|done]. }
  intros [] T1 H1. do 2 wp. apply ensures_bind. destruct (vec_get (NoCGraph T1) u) as [arcs|]; [|done]. apply ensures_bind.
  unfold ensures at 1, m_lift. cbn. destruct (vec_set (NoCGraph T1) u _) as [G|]; [|done]. cbn. by apply (ports_ok_view n T1).
Qed.

Lemma AddLink_ports n T u v : ports_ok n T → Z.of_nat n + 1 < 2 ^ 32 → ensures (AddLink u v) T (fun _ T' => ports_ok (S n) T').
Proof.
  intros H Hn. unfold AddLink. do 3 wp.
  eapply (ensures_conseq _ _ (fun _ T1 => ports_ok n T1 ∧ u ∈ SlowRouterIDs T1)).
  { wp; [eapply ensures_conseq; [by apply AddRouter_ports|]; intros [] T1 [? ->]; split; [done|set_solver]|].
    split; [done|]. apply bool_decide_eq_false in H0. by destruct (decide (u ∈ SlowRouterIDs T)). }
  intros [] T1 [H1 Hu1]. do 3 wp. eapply (ensures_conseq _ _ (fun _ T2 => ports_ok n T2 ∧ u ∈ SlowRouterIDs T2 ∧ v ∈ SlowRouterIDs T2)).
  { wp; [eapply ensures_conseq; [by apply AddRouter_ports|]; intros [] T2 [? ->]; split; [done|set_solver]|].
    split; [done|]. split; [done|]. apply bool_decide_eq_false in H0. by destruct (decide (v ∈ SlowRouterIDs T1)). }
  intros [] T2 (H2 & Hu2 & Hv2). unfold next_output_port, next_input_port. do 16 wp.
  match goal with |- ensures _ ?T3 _ => assert (ports_ok (S n) T3) as H3 end.
  { apply (ports_ok_view _ (with_link u (count_out T2 u) v (count_in T2 v) T2)); [reflexivity|].
    apply (grown_ok n T2 _ u v); [done..|]. by apply (link_grown n). }
  by apply (push_arc_ports (S n)).
Qed.

Lemma topology_ports n T : topology_built n T → Z.of_nat n + 1 < 2 ^ 32 → ports_ok n T.
Proof.
  induction 1 as [|n T T' r HT IH E|n T T' u v HT IH E|n T T' port r HT IH Hr E|n T T' port r region HT IH Hr E
    |n T T' slave master r t HT IH Hr E|n T T' HT IH E]; intros Hn.
  - by split.
  - apply ports_ok_mono. pose proof (AddRouter_ports n T r (IH ltac:(lia))) as H. unfold ensures in H. rewrite E in H. by destruct H.
  - pose proof (AddLink_ports n T u v (IH ltac:(lia)) ltac:(lia)) as H. unfold ensures in H. by rewrite E in H.
  - apply (grown_ok n T T' r r); [apply IH; lia|lia|done..|by eapply bind_master_grown].
  - apply (grown_ok n T T' r r); [apply IH; lia|lia|done..|by eapply bind_slave_grown].
  - apply (grown_ok n T T' r r); [apply IH; lia|lia|done..|by eapply BindBiDir_grown].
  - apply (ports_ok_view n T); [done|]. by apply IH.
Qed.

(** ** Building the routers *)

(** A router without flits, with these ports and this table. *)
Record has_ports (x : C_Router) (ins outs : list Z) (table : gmap (Z * Z) Z) : Prop := mkHasPorts {
  hp_nb : NbIn x = Z.of_nat (length ins);
  hp_in : InputPorts x = list_to_set ins;
  hp_out : OutputPorts x = list_to_set outs;
  hp_table : TargetToOutPort x = table;
  hp_turn o v : RoundRobinStatesPerPort x !! o = Some v → v = 0;
  hp_idle : RequestsBeeingRouted x = ∅ ∧ RequestsBeeingRoutedPerOutputPort x = ∅ ∧ Reads x = [] ∧ Writes x = [] }.

Lemma new_Router_ports : has_ports new_Router [] [] ∅.
Proof. by split. Qed.

Lemma AddInPort_has p x ins outs table : has_ports x ins outs table → p ∉ ins → Z.of_nat (length ins) + 1 < 2 ^ 31 →
  runs (AddInPort p) x (fun _ x' => has_ports x' (ins ++ [p]) outs table).
Proof.
  intros [Hnb Hin Hout Ht Hturn Hidle] Hp Hl. unfold AddInPort. repeat wp_step.
  - apply negb_true_iff, bool_decide_eq_false. rewrite Hin, elem_of_list_to_set. done.
  - split; simpl; try done.
    + rewrite Hnb, length_app. simpl. rewrite u32_small by (unfold in_u32; lia). lia.
    + rewrite Hin. set_solver.
Qed.

Lemma AddOutPort_has p x ins outs table : has_ports x ins outs table → p ∉ outs →
  runs (AddOutPort p) x (fun _ x' => has_ports x' ins (outs ++ [p]) table).
Proof.
  intros [Hnb Hin Hout Ht Hturn Hidle] Hp. unfold AddOutPort. repeat wp_step.
  - apply negb_true_iff, bool_decide_eq_false. rewrite Hout, elem_of_list_to_set. done.
  - split; simpl; try done. rewrite Hout. set_solver.
Qed.

Lemma AddOutMapping_has t o x ins outs table : has_ports x ins outs table →
  runs (AddOutMapping t o) x (fun _ x' => has_ports x' ins (outs ++ [o]) (<[t := o]> table)).
Proof.
  intros [Hnb Hin Hout Ht Hturn Hidle]. unfold AddOutMapping. do 3 wp_step.
  apply runs_conseq with (fun _ x1 => has_ports x1 ins (outs ++ [o]) table).
  - destruct (bool_decide (o ∈ OutputPorts x)) eqn:E; cbn [negb m_when]; repeat wp_step.
    + apply bool_decide_eq_true in E. rewrite Hout, elem_of_list_to_set in E. split; simpl; try done. rewrite Hout. set_solver.
    + split; simpl; try done; [rewrite Hout; set_solver|]. intros o' v. rewrite lookup_insert. destruct (decide (o = o')); [intros E'; by simplify_eq|apply Hturn].
  - intros [] x1 [Hnb1 Hin1 Hout1 Ht1 Hturn1 Hidle1]. wp_step. split; simpl; try done. by rewrite Ht1.
Qed.

(** *** In the elaboration *)

Definition at_router (s : elaboration) (r : Z) (ins outs : list Z) (table : gmap (Z * Z) Z) : Prop :=
  ∃ x, Routers s !! r = Some x ∧ has_ports x ins outs table.
Definition same_others (s s' : elaboration) (r : Z) : Prop := ∀ r', r' ≠ r → Routers s' !! r' = Routers s !! r'.

Lemma on_router_runs r m s (Q : C_Router → Prop) x : Routers s !! r = Some x → runs m x (fun _ => Q) →
  runs (on_router r m) s (fun _ s' => (∃ x', Routers s' !! r = Some x' ∧ Q x') ∧ same_others s s' r).
Proof.
  intros Hx Hm. unfold runs, on_router in *. rewrite Hx. destruct (m x) as [[[]|] x']; [|done].
  split; [exists x'; simpl; by rewrite lookup_insert_eq|]. intros r' Hne. simpl. by rewrite lookup_insert_ne.
Qed.

Lemma at_router_other s s' r r' ins outs table : same_others s s' r → r' ≠ r → at_router s r' ins outs table → at_router s' r' ins outs table.
Proof. intros H Hne (x & Hx & Hp). exists x. by rewrite H. Qed.

Lemma same_others_trans s1 s2 s3 r : same_others s1 s2 r → same_others s2 s3 r → same_others s1 s3 r.
Proof. intros H1 H2 r' Hne. by rewrite H2, H1. Qed.

(** The operations on one router, in sequence. *)
Lemma on_router_then {r m s Q} {k : unit → M elaboration unit} {R : unit → elaboration → Prop} x : Routers s !! r = Some x → runs m x (fun _ => Q) →
  (∀ s', (∃ x', Routers s' !! r = Some x' ∧ Q x') → same_others s s' r → runs (k tt) s' R) →
  runs (m_bind (on_router r m) k) s R.
Proof.
  intros Hx Hm Hk. apply runs_bind. eapply runs_conseq; [by apply (on_router_runs r m s Q x)|]. intros [] s' [H1 H2]. by apply Hk.
Qed.

(** What one endpoint adds. *)
Definition endpoint_spec (r : Z) (f : BindInfo → M elaboration unit) (pi po : BindInfo → list Z) : Prop :=
  ∀ i s ins outs table, at_router s r ins outs table → NoDup (ins ++ pi i) → NoDup (outs ++ po i) →
    Z.of_nat (length (ins ++ pi i)) < 2 ^ 31 →
    runs (f i) s (fun _ s' => at_router s' r (ins ++ pi i) (outs ++ po i) table ∧ same_others s s' r).

Lemma NoDup_snoc_out (l : list Z) p : NoDup (l ++ [p]) → p ∉ l.
Proof. intros (_ & H & _)%NoDup_app Hp. by apply (H p Hp), list_elem_of_singleton. Qed.

Lemma in_out_spec (fi fo : BindInfo → Z) r (f : BindInfo → M elaboration unit) :
  (∀ i, f i = (on_router r (AddInPort (fi i)) ;;; on_router r (AddOutPort (fo i)) ;;;
              add_channel (EndpointIn (Endpoint i) r (fi i)) ;;; add_channel (EndpointOut r (fo i) (Endpoint i)))) →
  endpoint_spec r f (fun i => [fi i]) (fun i => [fo i]).
Proof.
  intros Hf i s ins outs table (x & Hx & Hp) Hi Ho Hl. rewrite Hf. rewrite length_app in Hl. simpl in Hl.
  apply (on_router_then x Hx (AddInPort_has _ _ _ _ _ Hp (NoDup_snoc_out _ _ Hi) ltac:(lia))). intros s1 (x1 & Hx1 & Hp1) S1.
  apply (on_router_then x1 Hx1 (AddOutPort_has _ _ _ _ _ Hp1 (NoDup_snoc_out _ _ Ho))). intros s2 (x2 & Hx2 & Hp2) S2.
  unfold add_channel. repeat wp_step. split; [by exists x2|]. by apply (same_others_trans s s1 s2).
Qed.
Lemma master_spec r : endpoint_spec r (elaborate_master r) (fun i => [RouterFWPort i]) (fun i => [RouterBWPort i]).
Proof. by apply in_out_spec. Qed.
Lemma slave_spec r : endpoint_spec r (elaborate_slave r) (fun i => [RouterBWPort i]) (fun i => [RouterFWPort i]).
Proof. by apply in_out_spec. Qed.
Lemma caba_slave_spec r : endpoint_spec r (elaborate_caba_slave r) (fun i => []) (fun i => [RouterFWPort i]).
Proof.
  intros i s ins outs table (x & Hx & Hp) Hi Ho Hl. unfold elaborate_caba_slave. rewrite app_nil_r.
  apply (on_router_then x Hx (AddOutPort_has _ _ _ _ _ Hp (NoDup_snoc_out _ _ Ho))). intros s1 (x1 & Hx1 & Hp1) S1.
  unfold add_channel. repeat wp_step. split; [by exists x1|done].
Qed.
Lemma caba_master_spec r : endpoint_spec r (elaborate_caba_master r) (fun i => [RouterFWPort i]) (fun i => []).
Proof.
  intros i s ins outs table (x & Hx & Hp) Hi Ho Hl. unfold elaborate_caba_master. rewrite app_nil_r. rewrite length_app in Hl. simpl in Hl.
  apply (on_router_then x Hx (AddInPort_has _ _ _ _ _ Hp (NoDup_snoc_out _ _ Hi) ltac:(lia))). intros s1 (x1 & Hx1 & Hp1) S1.
  unfold add_channel. repeat wp_step. split; [by exists x1|done].
Qed.

Lemma endpoints_runs r f pi po : endpoint_spec r f pi po → ∀ l s ins outs table, at_router s r ins outs table →
  NoDup (ins ++ (l ≫= pi)) → NoDup (outs ++ (l ≫= po)) → Z.of_nat (length (ins ++ (l ≫= pi))) < 2 ^ 31 →
  runs (m_forM l f) s (fun _ s' => at_router s' r (ins ++ (l ≫= pi)) (outs ++ (l ≫= po)) table ∧ same_others s s' r).
Proof.
  intros Hf. induction l as [|i l IH]; intros s ins outs table Hs Hi Ho Hl; [by rewrite !app_nil_r|].
  rewrite bind_cons in *. rewrite bind_cons in *. rewrite app_assoc in Hi, Ho, Hl. cbn [m_forM]. apply runs_bind. eapply runs_conseq.
  - apply (Hf i s ins outs table Hs); [by apply NoDup_app in Hi as (? & _)|by apply NoDup_app in Ho as (? & _)|].
    rewrite length_app in Hl. lia.
  - intros [] s1 [H1 S1]. eapply runs_conseq; [by apply (IH s1 (ins ++ pi i) (outs ++ po i) table)|].
    intros [] s2 [H2 S2]. rewrite !app_assoc. split; [done|]. by apply (same_others_trans s s1).
Qed.

Lemma bind_single (g : BindInfo → Z) l : (l ≫= fun i => [g i]) = g <$> l.
Proof. induction l as [|i l IH]; [done|]. rewrite bind_cons, IH. done. Qed.
Lemma bind_none (l : list BindInfo) : (l ≫= fun _ => []) = ([] : list Z).
Proof. by induction l. Qed.

Section topology.
Context (T : C_NoCBase) (n : nat).
Context (Hports : ports_ok n T) (Hn : Z.of_nat n < 2 ^ 31).

Definition target_ports (r : Z) : list Z := port_of_target T r <$> ValidTargets T.
Definition target_table (r : Z) (table : gmap (Z * Z) Z) (ts : list (Z * Z)) : gmap (Z * Z) Z :=
  foldl (fun m t => <[t := port_of_target T r t]> m) table ts.

Lemma targets_runs r ts : ∀ s ins outs table, at_router s r ins outs table →
  runs (m_forM ts (fun t => on_router r (AddOutMapping t (port_of_target T r t)))) s
    (fun _ s' => at_router s' r ins (outs ++ (port_of_target T r <$> ts)) (target_table r table ts) ∧ same_others s s' r).
Proof using.
  clear Hports Hn. induction ts as [|t ts IH]; intros s ins outs table Hs; [by rewrite app_nil_r|]. destruct Hs as (x & Hx & Hp). cbn [m_forM].
  apply (on_router_then x Hx (AddOutMapping_has t (port_of_target T r t) _ _ _ _ Hp)). intros s1 H1 S1.
  eapply runs_conseq; [by apply (IH s1)|]. intros [] s2 [H2 S2]. rewrite <-app_assoc in H2. split; [done|]. by apply (same_others_trans s s1).
Qed.

(** The ports of a router of the topology: distinct, and not too many. *)
Lemma ins_distinct r : NoDup (all_ins T r) ∧ Z.of_nat (length (all_ins T r)) < 2 ^ 31.
Proof.
  unfold all_ins. rewrite (po_ins _ _ Hports r). split; [apply NoDup_seqZ|]. rewrite length_seqZ. destruct (po_bound _ _ Hports r). lia.
Qed.
Lemma outs_distinct r : NoDup (all_outs T r).
Proof. unfold all_outs. rewrite (po_outs _ _ Hports r). apply NoDup_seqZ. Qed.

Lemma NoDup_app_start (a b : list Z) : NoDup (a ++ b) → NoDup a.
Proof. by intros (? & _)%NoDup_app. Qed.

Lemma elaborate_router_runs r s :
  runs (elaborate_router T r) s (fun _ s' =>
    at_router s' r (local_ins T r) (local_outs T r ++ target_ports r) (target_table r ∅ (ValidTargets T)) ∧ same_others s s' r).
Proof.
  destruct (ins_distinct r) as [Hi Hl]. pose proof (outs_distinct r) as Ho. unfold all_ins in Hi, Hl. unfold all_outs in Ho.
  apply NoDup_app_start in Hi, Ho. rewrite length_app in Hl.
  assert (Z.of_nat (length (local_ins T r)) < 2 ^ 31) as Hl' by lia. clear Hl. unfold local_ins, local_outs in *. rewrite !app_assoc in *.
  unfold elaborate_router. do 2 wp_step.
  match goal with |- runs _ ?s0 _ => assert (at_router s0 r [] [] ∅ ∧ same_others s s0 r) as [H0 S0] end.
  { split; [exists new_Router; simpl; split; [by rewrite lookup_insert_eq|apply new_Router_ports]|].
    intros r' Hne. simpl. by rewrite lookup_insert_ne. }
  wp_step. eapply runs_conseq; [apply (endpoints_runs r _ _ _ (master_spec r) _ _ [] [] ∅ H0); rewrite bind_single; simpl|].
  { by apply NoDup_app_start, NoDup_app_start in Hi. } { by apply NoDup_app_start, NoDup_app_start in Ho. } { rewrite !length_app in Hl'. lia. }
  rewrite !bind_single. intros [] s1 [H1 S1]. simpl in H1.
  wp_step. eapply runs_conseq; [apply (endpoints_runs r _ _ _ (slave_spec r) _ _ _ _ ∅ H1); rewrite bind_single|].
  { by apply NoDup_app_start in Hi. } { by apply NoDup_app_start in Ho. } { rewrite length_app in Hl'. lia. }
  rewrite !bind_single. intros [] s2 [H2 S2].
  wp_step. eapply runs_conseq; [apply (endpoints_runs r _ _ _ (caba_slave_spec r) _ _ _ _ ∅ H2); rewrite ?bind_single, ?bind_none, ?app_nil_r|].
  { by apply NoDup_app_start in Hi. } { done. } { rewrite length_app in Hl'. lia. }
  rewrite bind_single, bind_none, app_nil_r. intros [] s3 [H3 S3].
  wp_step. eapply runs_conseq; [apply (endpoints_runs r _ _ _ (caba_master_spec r) _ _ _ _ ∅ H3); rewrite ?bind_single, ?bind_none, ?app_nil_r|].
  { done. } { done. } { done. }
  rewrite bind_single, bind_none, app_nil_r. intros [] s4 [H4 S4].
  eapply runs_conseq; [apply (targets_runs r (ValidTargets T) s4 _ _ ∅ H4)|]. intros [] s5 [H5 S5]. split; [exact H5|].
  eapply same_others_trans; [exact S0|]. eapply same_others_trans; [exact S1|]. eapply same_others_trans; [exact S2|].
  eapply same_others_trans; [exact S3|]. by eapply same_others_trans.
Qed.

(** *** All routers, then the links *)

(** The routers [rs] have their own ports and those of the links [l]. *)
Definition routers_at (rs : list Z) (l : list ((Z * Z) * (Z * Z))) (s : elaboration) : Prop := ∀ r, r ∈ rs →
  at_router s r (local_ins T r ++ link_ins l r) (local_outs T r ++ target_ports r) (target_table r ∅ (ValidTargets T)).

Lemma elaborate_routers_runs rs : ∀ done s, NoDup rs → (∀ r, r ∈ done → r ∉ rs) → routers_at done [] s → dom (Routers s) = list_to_set done →
  runs (m_forM rs (elaborate_router T)) s (fun _ s' => routers_at (done ++ rs) [] s' ∧ dom (Routers s') = list_to_set (done ++ rs)).
Proof.
  induction rs as [|r rs IH]; intros done s Hnd Hdis Hs Hdom; [by rewrite app_nil_r|]. apply NoDup_cons in Hnd as [Hr Hnd]. cbn [m_forM].
  wp_step. eapply runs_conseq; [apply elaborate_router_runs|]. intros [] s1 [H1 S1].
  eapply runs_conseq; [apply (IH (done ++ [r]) s1 Hnd)|].
  - intros r' [Hd| ->%list_elem_of_singleton]%elem_of_app; [|done]. apply Hdis in Hd. set_solver.
  - intros r' [Hd| ->%list_elem_of_singleton]%elem_of_app.
    + apply (at_router_other s s1 r); [done| |by apply Hs]. intros ->. apply (Hdis r Hd). set_solver.
    + simpl. by rewrite app_nil_r.
  - destruct H1 as (x & Hx & _). apply leibniz_equiv. intros r'. rewrite elem_of_dom, elem_of_list_to_set, elem_of_app, list_elem_of_singleton.
    destruct (decide (r' = r)) as [->|Hne]; [rewrite Hx; split; [by right|by eauto]|]. rewrite (S1 r' Hne), <-elem_of_dom, Hdom, elem_of_list_to_set. naive_solver.
  - intros [] s2. by rewrite <-app_assoc.
Qed.

(** A link is used by a route: some target leaves through its port. *)
Definition link_used (e : (Z * Z) * (Z * Z)) : Prop := e.1.2 ∈ target_ports e.1.1.

Lemma link_ins_snoc l u p v q r : link_ins (l ++ [((u, p), (v, q))]) r = link_ins l r ++ if_at r v q.
Proof. unfold link_ins, if_at. rewrite omap_app. simpl. destruct (decide (v = r)) as [->|]; [by rewrite decide_True|]. by rewrite decide_False by congruence. Qed.

Lemma elaborate_link_runs rs l u p v q s : routers_at rs l s → u ∈ rs → v ∈ rs → NoDup (local_ins T v ++ link_ins l v ++ [q]) →
  Z.of_nat (length (local_ins T v ++ link_ins l v ++ [q])) < 2 ^ 31 → link_used ((u, p), (v, q)) →
  runs (elaborate_link ((u, p), (v, q))) s (fun _ s' => routers_at rs (l ++ [((u, p), (v, q))]) s' ∧ dom (Routers s') = dom (Routers s)).
Proof.
  intros Hs Hu Hv Hnd Hl Hused. unfold elaborate_link. destruct (Hs v Hv) as (x & Hx & Hp). rewrite app_assoc in Hnd, Hl.
  rewrite length_app in Hl. simpl in Hl.
  apply (on_router_then x Hx (AddInPort_has q _ _ _ _ Hp (NoDup_snoc_out _ _ Hnd) ltac:(lia))). intros s1 (x1 & Hx1 & Hp1) S1.
  assert (routers_at rs (l ++ [((u, p), (v, q))]) s1) as Hs1.
  { intros r Hr. rewrite link_ins_snoc. unfold if_at. destruct (decide (r = v)) as [->|Hne]; [exists x1; by rewrite app_assoc|].
    rewrite app_nil_r. apply (at_router_other s s1 v); [done|done|by apply Hs]. }
  destruct (Hs1 u Hu) as (x2 & Hx2 & Hp2).
  assert (dom (Routers s1) = dom (Routers s)) as Hd1.
  { apply leibniz_equiv. intros r. rewrite !elem_of_dom. destruct (decide (r = v)) as [->|Hne]; [rewrite Hx1, Hx; split; eauto|]. by rewrite (S1 r Hne). }
  apply (on_router_then x2 Hx2 (Q := fun y => y = x2)).
  { unfold bind_output. do 2 wp_step. rewrite bool_decide_true; [by wp_step|]. rewrite (hp_out _ _ _ _ Hp2), elem_of_list_to_set, elem_of_app. by right. }
  intros s2 (x3 & Hx3 & ->) S2. unfold add_channel. wp_step. split.
  - intros r Hr. destruct (Hs1 r Hr) as (y & Hy & Hpy). exists y. split; [|done]. simpl.
    destruct (decide (r = u)) as [->|Hne]; [congruence|]. by rewrite (S2 r Hne).
  - rewrite <-Hd1. apply leibniz_equiv. intros r. simpl. rewrite !elem_of_dom.
    destruct (decide (r = u)) as [->|Hne]; [rewrite Hx3, Hx2; split; eauto|]. by rewrite (S2 r Hne).
Qed.

Lemma elaborate_links_runs rs l : ∀ l0 s, routers_at rs l0 s → Forall link_used l → Forall (fun e => e.1.1 ∈ rs ∧ e.2.1 ∈ rs) l →
  (∀ r, NoDup (local_ins T r ++ link_ins (l0 ++ l) r) ∧ Z.of_nat (length (local_ins T r ++ link_ins (l0 ++ l) r)) < 2 ^ 31) →
  runs (m_forM l elaborate_link) s (fun _ s' => routers_at rs (l0 ++ l) s' ∧ dom (Routers s') = dom (Routers s)).
Proof.
  induction l as [|[[u p] [v q]] l IH]; intros l0 s Hs Hused Hrs Hnd; [by rewrite app_nil_r|].
  apply Forall_cons in Hused as [Hu Hused], Hrs as [[Hru Hrv] Hrs]. simpl in Hru, Hrv. cbn [m_forM]. wp_step.
  assert (∀ r, link_ins (l0 ++ ((u, p), (v, q)) :: l) r = (link_ins l0 r ++ if_at r v q) ++ link_ins l r) as Hsplit.
  { intros r. rewrite <-(link_ins_snoc l0 u p v q). unfold link_ins. by rewrite <-omap_app, <-app_assoc. }
  destruct (Hnd v) as [Hn1 Hl1]. rewrite Hsplit in Hn1, Hl1. unfold if_at in Hn1, Hl1. rewrite decide_True in Hn1, Hl1 by done.
  rewrite app_assoc in Hn1, Hl1. rewrite length_app in Hl1.
  eapply runs_conseq; [apply (elaborate_link_runs rs l0 u p v q s Hs); try done; [by apply NoDup_app_start in Hn1|lia]|].
  intros [] s1 [Hs1 Hd1]. eapply runs_conseq; [apply (IH (l0 ++ [((u, p), (v, q))]) s1 Hs1); try done|].
  - intros r. rewrite <-app_assoc. apply Hnd.
  - intros [] s2. rewrite <-app_assoc, Hd1. done.
Qed.
End topology.

Lemma target_table_lookup T r ts : ∀ table t, t ∈ ts ∨ table !! t = Some (port_of_target T r t) →
  target_table T r table ts !! t = Some (port_of_target T r t).
Proof.
  induction ts as [|t' ts IH]; intros table t H; [by destruct H as [?%elem_of_nil|]|]. apply IH.
  destruct (decide (t' = t)) as [->|Hne]; [right; by rewrite lookup_insert_eq|]. rewrite lookup_insert_ne by done. set_solver.
Qed.
Lemma target_table_range T r ts : ∀ table t o, target_table T r table ts !! t = Some o →
  o ∈ (port_of_target T r <$> ts) ∨ table !! t = Some o.
Proof.
  induction ts as [|t' ts IH]; intros table t o H; [by right|]. apply IH in H as [H|H]; [left; set_solver|].
  rewrite lookup_insert in H. destruct (decide (t' = t)); [|by right]. injection H as <-. left. set_solver.
Qed.

Lemma in_key_order_perm m : in_key_order m ≡ₚ map_to_list m.
Proof. unfold in_key_order. apply merge_sort_Permutation. Qed.

(** The ends of a link are routers of the topology. *)
Lemma link_ends n T e : ports_ok n T → e ∈ map_to_list (Links T) → e.1.1 ∈ SlowRouterIDs T ∧ e.2.1 ∈ SlowRouterIDs T.
Proof.
  intros H He. split.
  - destruct (decide (e.1.1 ∈ SlowRouterIDs T)) as [|Hno]; [done|]. exfalso. destruct (po_new _ _ H _ Hno) as [_ H0].
    assert (e.1.2 ∈ all_outs T e.1.1) as Hin.
    { unfold all_outs. apply elem_of_app. right. apply list_elem_of_omap. exists e. by rewrite decide_True. }
    unfold all_outs in Hin. rewrite (po_outs _ _ H), H0 in Hin. by apply elem_of_nil in Hin.
  - destruct (decide (e.2.1 ∈ SlowRouterIDs T)) as [|Hno]; [done|]. exfalso. destruct (po_new _ _ H _ Hno) as [H0 _].
    assert (e.2.2 ∈ all_ins T e.2.1) as Hin.
    { unfold all_ins. apply elem_of_app. right. apply list_elem_of_omap. exists e. by rewrite decide_True. }
    unfold all_ins in Hin. rewrite (po_ins _ _ H), H0 in Hin. by apply elem_of_nil in Hin.
Qed.

Lemma has_ports_idle T n r x l : ports_ok n T → Z.of_nat n < 2 ^ 31 → l ≡ₚ map_to_list (Links T) →
  has_ports x (local_ins T r ++ link_ins l r) (local_outs T r ++ target_ports T r) (target_table T r ∅ (ValidTargets T)) →
  router_idle x ∧ NbIn x = at_default (RouterInputPortsCount T) r.
Proof.
  intros H Hn Hl [Hnb Hin Hout Ht Hturn (Hb & Hq & Hrd & Hw)]. destruct (po_bound _ _ H r) as [Hc _].
  assert (local_ins T r ++ link_ins l r ≡ₚ seqZ 0 (at_default (RouterInputPortsCount T) r)) as Hp by (by rewrite <-(po_ins _ _ H r), (link_ins_perm _ _ r Hl)).
  assert (NbIn x = at_default (RouterInputPortsCount T) r) as HN by (rewrite Hnb, Hp, length_seqZ; lia).
  split; [|done]. split; try done.
  - rewrite HN. lia.
  - intros p. rewrite Hin, elem_of_list_to_set, Hp, elem_of_seqZ, HN. lia.
  - intros t o. rewrite Ht, Hout, elem_of_list_to_set. intros [Ho|Ho]%target_table_range; [apply elem_of_app; by right|].
    by rewrite lookup_empty in Ho.
Qed.


(** Two routers, with links in both directions, a master at the first and a slave at the second. *)
Definition two_routers : M C_NoCBase unit :=
  AddLink 0 1 ;;; AddLink 1 0 ;;; bind_master 100 0 ;;; bind_slave 200 1 (0, 4095).
Definition two_routes : M C_NoCBase unit := AddRouting 0 1 0 ;;; AddRouting 1 0 0 ;;; m_ret tt.
Definition small_noc : C_NoCBase := (two_routes (two_routers new_NoCBase).2).2.

Lemma small_noc_built : topology_built 4 small_noc.
Proof.
  apply (built_other 4 (two_routers new_NoCBase).2); [|by vm_compute].
  set (T1 := (AddLink 0 1 new_NoCBase).2). set (T2 := (AddLink 1 0 T1).2). set (T3 := (bind_master 100 0 T2).2).
  apply (built_slave 3 T3 _ 200 1 (0, 4095)); [|apply (bool_decide_eq_true_1 _); by vm_compute|by vm_compute].
  apply (built_master 2 T2 _ 100 0); [|apply (bool_decide_eq_true_1 _); by vm_compute|by vm_compute].
  apply (built_link 1 T1 _ 1 0); [|by vm_compute]. apply (built_link 0 new_NoCBase _ 0 1); [apply built_empty|by vm_compute].
Qed.

#[global] Instance link_used_dec T e : Decision (link_used T e).
Proof. unfold link_used. apply _. Defined.
Lemma small_noc_links : Forall (link_used small_noc) (map_to_list (Links small_noc)).
Proof. apply (bool_decide_eq_true_1 _). by vm_compute. Qed.


(** A link that no route uses: its port is a null pointer when it is bound. *)
Example unused_link_fails : (cycle_accurate_elaboration (two_routers new_NoCBase).2 (mkElaboration ∅ [])).1 = Ok tt
  ∧ (cycle_accurate_elaboration (AddLink 0 1 new_NoCBase).2 (mkElaboration ∅ [])).1 = Err (UndefinedBehaviour "null pointer").
Proof. by vm_compute. Qed.
