(* ===== verification/Gic.v ===== *)
(** * The generic interrupt controller ([components/peripherals/gic.cpp])

    The distributor, the CPU interfaces and their virtual counterparts.  Registers live in
    the local memory of the target at the byte addresses that the pointer arithmetic of
    the source computes; interrupt lines are an output trace.  Members that are written and
    never read ([mAck], [mAlreadyNotified], [mTouched]) are left out. *)

From S2P Require Import Prelude AddrSpace Tlm LocalMemory TargetIf.

(** ** State *)

Record gic_config := mkGicConfig {
  mDistBase : Z; mDistSize : Z; mCpuBase : Z; mCpuSize : Z;
  mVDistBase : Z; mVDistSize : Z; mVCPUBase : Z; mVCPUSize : Z;
  mMaintIrq : Z
}.

Definition N_GIC_INTERRUPTS : Z := 512.

(** A call of [update_irq] on a CPU: its position among the connected ones, the level and
    the line ([cpu_id << 16], with line 2 for virtual interrupts). *)
Record irq_line := mkLine { l_cpu : Z; l_level : bool; l_line : Z }.

(** [mEnableStatus] holds ordered maps, as lists sorted by key. *)
Record gic := mkGic {
  g_cfg : gic_config;
  g_mem : bytes;
  mCpus : list Z;
  mCpuQueue : list (list Z);
  mVCpuQueue : list (list Z);
  mInterruptOrigins : list (gmap Z Z);
  mPendingInterrupts : list (list Z);
  mEnableStatus : list (list (Z * bool));
  mPendingCpuIds : gmap Z Z;
  mRoundRobin : Z;
  g_locked : bool;
  g_lines : list irq_line
}.

(** Assignments to one member. *)
Definition set_g_cfg v (s : gic) : gic := mkGic v (g_mem s) (mCpus s) (mCpuQueue s) (mVCpuQueue s)
  (mInterruptOrigins s) (mPendingInterrupts s) (mEnableStatus s) (mPendingCpuIds s) (mRoundRobin s)
  (g_locked s) (g_lines s).
Definition set_g_mem v (s : gic) : gic := mkGic (g_cfg s) v (mCpus s) (mCpuQueue s) (mVCpuQueue s)
  (mInterruptOrigins s) (mPendingInterrupts s) (mEnableStatus s) (mPendingCpuIds s) (mRoundRobin s)
  (g_locked s) (g_lines s).
Definition set_mCpus v (s : gic) : gic := mkGic (g_cfg s) (g_mem s) v (mCpuQueue s) (mVCpuQueue s)
  (mInterruptOrigins s) (mPendingInterrupts s) (mEnableStatus s) (mPendingCpuIds s) (mRoundRobin s)
  (g_locked s) (g_lines s).
Definition set_mCpuQueue v (s : gic) : gic := mkGic (g_cfg s) (g_mem s) (mCpus s) v (mVCpuQueue s)
  (mInterruptOrigins s) (mPendingInterrupts s) (mEnableStatus s) (mPendingCpuIds s) (mRoundRobin s)
  (g_locked s) (g_lines s).
Definition set_mVCpuQueue v (s : gic) : gic := mkGic (g_cfg s) (g_mem s) (mCpus s) (mCpuQueue s) v
  (mInterruptOrigins s) (mPendingInterrupts s) (mEnableStatus s) (mPendingCpuIds s) (mRoundRobin s)
  (g_locked s) (g_lines s).
Definition set_mInterruptOrigins v (s : gic) : gic := mkGic (g_cfg s) (g_mem s) (mCpus s) (mCpuQueue s)
  (mVCpuQueue s) v (mPendingInterrupts s) (mEnableStatus s) (mPendingCpuIds s) (mRoundRobin s) (g_locked s)
  (g_lines s).
Definition set_mPendingInterrupts v (s : gic) : gic := mkGic (g_cfg s) (g_mem s) (mCpus s) (mCpuQueue s)
  (mVCpuQueue s) (mInterruptOrigins s) v (mEnableStatus s) (mPendingCpuIds s) (mRoundRobin s) (g_locked s)
  (g_lines s).
Definition set_mEnableStatus v (s : gic) : gic := mkGic (g_cfg s) (g_mem s) (mCpus s) (mCpuQueue s)
  (mVCpuQueue s) (mInterruptOrigins s) (mPendingInterrupts s) v (mPendingCpuIds s) (mRoundRobin s)
  (g_locked s) (g_lines s).
Definition set_mPendingCpuIds v (s : gic) : gic := mkGic (g_cfg s) (g_mem s) (mCpus s) (mCpuQueue s)
  (mVCpuQueue s) (mInterruptOrigins s) (mPendingInterrupts s) (mEnableStatus s) v (mRoundRobin s)
  (g_locked s) (g_lines s).
Definition set_mRoundRobin v (s : gic) : gic := mkGic (g_cfg s) (g_mem s) (mCpus s) (mCpuQueue s)
  (mVCpuQueue s) (mInterruptOrigins s) (mPendingInterrupts s) (mEnableStatus s) (mPendingCpuIds s) v
  (g_locked s) (g_lines s).
Definition set_g_locked v (s : gic) : gic := mkGic (g_cfg s) (g_mem s) (mCpus s) (mCpuQueue s)
  (mVCpuQueue s) (mInterruptOrigins s) (mPendingInterrupts s) (mEnableStatus s) (mPendingCpuIds s)
  (mRoundRobin s) v (g_lines s).
Definition set_g_lines v (s : gic) : gic := mkGic (g_cfg s) (g_mem s) (mCpus s) (mCpuQueue s) (mVCpuQueue s)
  (mInterruptOrigins s) (mPendingInterrupts s) (mEnableStatus s) (mPendingCpuIds s) (mRoundRobin s)
  (g_locked s) v.

Abbreviation G := (M gic).

(** ** Memory and vectors *)

Definition rd (a n : Z) : G (list Z) := s <- m_get ;; m_lift (load (g_mem s) a n).
Definition wr (a : Z) (l : list Z) : G unit :=
  s <- m_get ;; m <- m_lift (store (g_mem s) a l) ;; m_modify (set_g_mem m).

Definition rd8 (a : Z) : G Z := l <- rd a 1 ;; m_ret (le_value l).
Definition wr8 (a v : Z) : G unit := wr a (le_bytes 1 v).
Definition rd32 (a : Z) : G Z := l <- rd a 4 ;; m_ret (le_value l).
Definition wr32 (a v : Z) : G unit := wr a (le_bytes 4 v).

(** [getLocalMem () [k]]: the local memory is an array of 32-bit words. *)
Definition word_at (k : Z) : Z := 4 * k.

(** [memcpy (dst, &value, size)] from a 32-bit variable. *)
Definition copy_value (a value size : Z) : G unit :=
  if bool_decide (size ≤ 4) then wr a (take (Z.to_nat size) (le_bytes 4 value))
  else m_throw (UndefinedBehaviour "read past a variable").

(** [1 << n] on [int]. *)
Definition shl1 (n : Z) : G Z :=
  if bool_decide (0 ≤ n < 32) then m_ret (2 ^ n) else m_throw (UndefinedBehaviour "shift").

(** An element of one of the vectors of [gic], and its replacement. *)
Definition vget {A} (f : gic → list A) (i : Z) : G A := s <- m_get ;; m_lift (vec_get (f s) i).
Definition vupd {A} (f : gic → list A) (g : list A → gic → gic) (i : Z) (h : A → A) : G unit :=
  s <- m_get ;;
  x <- m_lift (vec_get (f s) i) ;; l <- m_lift (vec_set (f s) i (h x)) ;; m_modify (g l).

(** [std::map::operator[]] assignment on a sorted association list. *)
Fixpoint map_assign (k : Z) (v : bool) (l : list (Z * bool)) : list (Z * bool) :=
  match l with
  | [] => [(k, v)]
  | (k', v') :: l =>
      if bool_decide (k < k') then (k, v) :: (k', v') :: l
      else if bool_decide (k = k') then (k, v) :: l
      else (k', v') :: map_assign k v l
  end.

Definition set_enable (cpu interrupt : Z) (v : bool) : G unit :=
  vupd mEnableStatus set_mEnableStatus cpu (map_assign interrupt v).

Definition set_origin (cpu interrupt from : Z) : G unit :=
  vupd mInterruptOrigins set_mInterruptOrigins cpu (fun m => <[interrupt := from]> m).

(** The queues: [front], [pop_front], and [push_back] unless the value is queued. *)
Definition front (q : list Z) : G Z :=
  match q with
  | x :: _ => m_ret x
  | [] => m_throw (UndefinedBehaviour "front of an empty deque")
  end.
Definition pop_queue (id : Z) : G unit := vupd mCpuQueue set_mCpuQueue id (fun q => tail q).
Definition push_new (id v : Z) : G unit :=
  vupd mCpuQueue set_mCpuQueue id (fun q => if bool_decide (v ∈ q) then q else q ++ [v]).
Definition pop_vqueue (id : Z) : G unit := vupd mVCpuQueue set_mVCpuQueue id (fun q => tail q).
Definition push_vqueue (id v : Z) : G unit := vupd mVCpuQueue set_mVCpuQueue id (fun q => q ++ [v]).

Definition emit (cpu : Z) (level : bool) (line : Z) : G unit :=
  m_modify (fun s => set_g_lines (g_lines s ++ [mkLine cpu level line]) s).

(** The mutex: locking it again in the same thread is undefined. *)
Definition lock : G unit :=
  s <- m_get ;;
  if g_locked s then m_throw (UndefinedBehaviour "lock of a held mutex") else m_modify (set_g_locked true).
Definition unlock : G unit := m_modify (set_g_locked false).

(** ** Registers *)

Definition conf {A} (f : gic_config → A) : G A := m_gets (fun s => f (g_cfg s)).

(** Byte addresses of the register blocks of a CPU. *)
Definition cpu_if (c : gic_config) (id : Z) : Z := mCpuBase c + u32 (256 * id).
Definition vcpu_if (c : gic_config) (id : Z) : Z := mVCPUBase c + u32 (256 * id).
Definition vdist_if (c : gic_config) (id : Z) : Z := mVDistBase c + u32 (4096 * id).

Definition setInterruptTarget (interrupt targetlist : Z) : G unit :=
  c <- m_gets g_cfg ;; wr8 (mDistBase c + 2048 + interrupt) (u8 targetlist).

Definition cpuInTarget (interrupt cpu : Z) : G bool :=
  c <- m_gets g_cfg ;; b <- rd8 (mDistBase c + 2048 + interrupt) ;;
  _ <- shl1 cpu ;; m_ret (Z.testbit b cpu).

Definition setInterruptPending (cpu interrupt value : Z) : G unit :=
  row <- vget mPendingInterrupts cpu ;;
  w <- m_lift (vec_get row (interrupt / 32)) ;;
  let bit := 2 ^ (interrupt mod 32) in
  row <- m_lift (vec_set row (interrupt / 32) (if bool_decide (value = 0) then Z.ldiff w bit else Z.lor w bit)) ;;
  vupd mPendingInterrupts set_mPendingInterrupts cpu (fun _ => row).

Definition isEnabled : G bool :=
  c <- m_gets g_cfg ;; w <- rd32 (word_at (mDistBase c / 4)) ;; m_ret (Z.testbit w 0).

Definition cpuTakesInterrupts (cpu_id : Z) : G bool :=
  c <- m_gets g_cfg ;; w <- rd32 (word_at (cpu_if c cpu_id / 4)) ;; m_ret (Z.testbit w 0).

Definition setCurrentInterruptId (cpu_id value : Z) : G unit :=
  c <- m_gets g_cfg ;; wr32 (word_at ((cpu_if c cpu_id + 12) / 4)) value.

Definition setCurrentVirtualInterruptId (cpu_id value : Z) : G unit :=
  c <- m_gets g_cfg ;; wr32 (word_at ((vcpu_if c cpu_id + 12) / 4)) value.

Definition getInterruptPriority (interrupt : Z) : G Z :=
  c <- m_gets g_cfg ;; rd8 (mDistBase c + 1024 + interrupt).

Definition getCpuPriorityMask (cpu_id : Z) : G Z :=
  c <- m_gets g_cfg ;; rd8 (cpu_if c cpu_id + 4).

(** [VIntEntry]: the bit fields of a list register. *)
Record VIntEntry := mkVInt { VirtualID : Z; PhysicalID : Z; State : Z; HW : Z }.
Definition vint_of (w : Z) : VIntEntry :=
  mkVInt (w mod 1024) (w / 1024 mod 1024) (w / 2 ^ 28 mod 4) (w / 2 ^ 31 mod 2).

(** The entry is always read from the block of CPU 0. *)
Definition getVIntEntry (index : Z) : G VIntEntry :=
  c <- m_gets g_cfg ;; w <- rd32 (mVDistBase c + 256 + 4 * index) ;; m_ret (vint_of w).

(** ** Delivery *)

(** The body of the loop over the enabled interrupts of a CPU; [enabled] is the value the
    map holds for [tch]. *)
Definition consider (cpu_id tch : Z) (enabled : bool) : G unit :=
  row <- vget mPendingInterrupts cpu_id ;;
  masked <- m_lift (vec_get row (tch / 32)) ;;
  ackValue <- (if bool_decide (tch < 16) then
                 o <- vget mInterruptOrigins cpu_id ;;
                 m_ret (Z.lor tch (u32 (Z.shiftl (default 0 (o !! tch)) 10)))
               else m_ret tch) ;;
  prio <- getInterruptPriority tch ;;
  limit <- getCpuPriorityMask cpu_id ;;
  if bool_decide (limit < prio) then m_ret tt
  else if negb (Z.testbit masked (tch mod 32)) then m_ret tt
  else
    inTarget <- cpuInTarget tch cpu_id ;;
    if inTarget && enabled then push_new cpu_id ackValue else m_ret tt.

(** The value presented for a virtual interrupt. *)
Definition virtual_id (v : VIntEntry) : Z :=
  let next_int := if bool_decide (HW v = 0) then Z.lor (VirtualID v) (Z.shiftl (PhysicalID v) 10) else VirtualID v in
  if bool_decide (next_int < 16) then Z.lor next_int (Z.shiftl (PhysicalID v mod 8) 10) else next_int.

Definition serve_cpu (cpu_iter : Z) : G unit :=
  cpu_id <- vget mCpus cpu_iter ;;
  on <- isEnabled ;;
  takes <- (if on then cpuTakesInterrupts cpu_id else m_ret false) ;;
  if negb (on && takes) then emit cpu_iter false (u32 (Z.shiftl cpu_id 16))
  else
    _ <- vget mCpuQueue cpu_id ;;
    status <- vget mEnableStatus cpu_id ;;
    m_forM status (fun e => consider cpu_id e.1 e.2) ;;;
    q <- vget mCpuQueue cpu_id ;;
    (match q with
     | [] => m_ret tt
     | x :: _ => setCurrentInterruptId cpu_id x
     end) ;;;
    emit cpu_iter (negb (bool_decide (q = []))) (u32 (Z.shiftl cpu_id 16)) ;;;
    vq <- vget mVCpuQueue cpu_id ;;
    (match vq with
     | [] => m_ret tt
     | x :: _ => v <- getVIntEntry x ;; setCurrentVirtualInterruptId cpu_id (virtual_id v)
     end) ;;;
    emit cpu_iter (negb (bool_decide (vq = []))) (Z.lor 2 (u32 (Z.shiftl cpu_id 16))).

(** The CPUs are served once each, from the one after [mRoundRobin]. *)
Fixpoint comb_loop (fuel : nat) (cpu_iter : Z) : G unit :=
  match fuel with
  | O => m_ret tt
  | S fuel =>
      n <- m_gets (fun s => Z.of_nat (length (mCpus s))) ;;
      let cpu_iter := u32 (cpu_iter + 1) mod n in
      serve_cpu cpu_iter ;;; comb_loop fuel cpu_iter
  end.

Definition comb_logic : G unit :=
  s <- m_get ;; comb_loop (length (mCpus s)) (mRoundRobin s).

Definition genMaint (cpu : Z) : G unit :=
  irq <- conf mMaintIrq ;; push_new cpu irq ;;; comb_logic.

(** ** The distributor *)

Definition forM_bits (value : Z) (f : Z → G unit) : G unit :=
  m_forM (seqZ 0 32) (fun i => m_when (Z.testbit value i) (f i)).

(** Enable or disable the interrupts of a register: shared ones for every CPU. *)
Definition set_enables (idx value cpu_id : Z) (on : bool) : G unit :=
  cpus <- m_gets mCpus ;;
  forM_bits value (fun i =>
    let theInterrupt := u32 (u32 (idx * 8) + i) in
    if bool_decide (31 < theInterrupt) then m_forM cpus (fun cpu => set_enable cpu theInterrupt on)
    else set_enable cpu_id theInterrupt on).

(** The target list of a software interrupt. *)
Definition sgi_targets (value cpu_id : Z) : G Z :=
  let policy := Z.shiftr value 24 mod 4 in
  if bool_decide (policy = 0) then m_ret (Z.shiftr value 16 mod 256)
  else if bool_decide (policy = 1) then b <- shl1 cpu_id ;; m_ret (u8 (Z.lnot b))
  else if bool_decide (policy = 2) then b <- shl1 cpu_id ;; m_ret (u8 b)
  else m_ret 255.

Definition writeDist (offset value size cpu_id : Z) : G unit :=
  base <- conf mDistBase ;;
  if bool_decide (0x100 ≤ offset ≤ 0x17C) then
    w <- rd32 (base + offset) ;; wr32 (base + offset) (Z.lor w value) ;;;
    set_enables (u32 (offset - 0x100)) value cpu_id true
  else if bool_decide (0x180 ≤ offset ≤ 0x1FC) then
    w <- rd32 (base + offset - 0x80) ;; wr32 (base + offset - 0x80) (Z.ldiff w value) ;;;
    w <- rd32 (base + offset) ;; wr32 (base + offset) (Z.lor w value) ;;;
    set_enables (u32 (offset - 0x100)) value cpu_id false
  else if bool_decide (offset = 0xF00) then
    targetlist <- sgi_targets value cpu_id ;;
    let sgi := value mod 16 in
    setInterruptTarget sgi targetlist ;;;
    m_modify (fun s => set_mPendingCpuIds (<[sgi := cpu_id]> (mPendingCpuIds s)) s) ;;;
    n <- m_gets (fun s => Z.of_nat (length (mCpus s))) ;;
    m_forM (seqZ 0 n) (fun cpuT =>
      _ <- shl1 cpuT ;;
      m_when (Z.testbit targetlist cpuT)
        (set_origin cpuT sgi cpu_id ;;; setInterruptPending cpuT sgi 1))
  else copy_value (base + offset) value size.

Definition readDist (offset cpu_id : Z) : G Z :=
  if bool_decide (0x800 ≤ offset < 0x820) then
    a <- shl1 cpu_id ;; b <- shl1 (cpu_id + 8) ;; c <- shl1 (cpu_id + 16) ;; d <- shl1 (cpu_id + 24) ;;
    m_ret (Z.lor (Z.lor (Z.lor a b) c) d)
  else base <- conf mDistBase ;; rd32 (base + offset).

(** ** The CPU interfaces *)

Definition is_eoi (offset : Z) : bool :=
  bool_decide (offset = 0x10) || bool_decide (offset = 0x24) || bool_decide (offset = 0x1000).

(** The write ends an interrupt: the end-of-interrupt register in mode 0, or the
    deactivation register. *)
Definition ends_interrupt (block offset : Z) : G bool :=
  mode <- rd8 (block + 1) ;;
  m_ret (negb (Z.testbit mode 1) || bool_decide (offset = 0x1000)).

Definition advance_round_robin : G unit :=
  s <- m_get ;;
  if bool_decide (mCpus s = []) then m_throw (UndefinedBehaviour "division by zero")
  else m_modify (set_mRoundRobin (u32 (mRoundRobin s + 1) mod Z.of_nat (length (mCpus s)))).

Definition writeCpu (offset value size id : Z) : G unit :=
  c <- m_gets g_cfg ;;
  if is_eoi offset then
    ends <- ends_interrupt (cpu_if c id) offset ;;
    m_when ends
      (q <- vget mCpuQueue id ;;
       if bool_decide (q = []) then m_throw (Throw "Something went wront with GIC interrupt handling.")
       else
         let interrupt := value mod 1024 in
         setInterruptPending id interrupt 0 ;;;
         x <- front q ;;
         if negb (bool_decide (interrupt = x mod 1024)) then m_throw (Throw "end of another interrupt")
         else
           pop_queue id ;;;
           q <- vget mCpuQueue id ;;
           match q with
           | x :: _ => setInterruptPending id (x mod 1024) 1 ;;; setCurrentInterruptId id x
           | [] => setCurrentInterruptId id 1023 ;;; advance_round_robin
           end)
  else copy_value (cpu_if c id + offset) value size.

Definition readCpu (offset id : Z) : G Z := c <- m_gets g_cfg ;; rd32 (cpu_if c id + offset).

(** ** The virtual CPU interfaces *)

(** [byte |= 1 << bit] and [byte &= ~(1 << bit)] on a byte: bits above 7 are lost. *)
Definition or8 (a v : Z) : G unit := b <- rd8 a ;; wr8 a (Z.lor b v).
Definition clear8 (a v : Z) : G unit := b <- rd8 a ;; wr8 a (Z.ldiff b v).

Definition writeVCpu (offset value size id : Z) : G unit :=
  c <- m_gets g_cfg ;;
  let vd := vdist_if c id in
  if is_eoi offset then
    ends <- ends_interrupt (vcpu_if c id) offset ;;
    m_when ends
      (vq <- vget mVCpuQueue id ;;
       if bool_decide (vq = []) then m_throw (Throw "Something went wront with GIC interrupt handling.")
       else
         k <- front vq ;;
         vint <- getVIntEntry k ;;
         let interrupt := value mod 1024 in
         if negb (bool_decide (interrupt = VirtualID vint)) then m_throw (Throw "end of another interrupt")
         else
           let off := k / 32 in
           let bit := 2 ^ (k mod 32) in
           or8 (vd + off * 4 + 0x30) bit ;;;
           w <- rd32 (vd + 0x100 + k * 4) ;; wr32 (vd + 0x100 + k * 4) (Z.ldiff w (3 * 2 ^ 28)) ;;;
           (if bool_decide (HW vint = 1) then
              setInterruptPending id interrupt 0 ;;;
              q <- vget mCpuQueue id ;; x <- front q ;;
              if negb (bool_decide (PhysicalID vint = x mod 1024))
              then m_throw (Throw "Physical interrupt does not match queue front")
              else pop_queue id
            else
              m_when (Z.testbit (PhysicalID vint) 9)
                (or8 (vd + 0x10) 1 ;;; or8 (vd + 0x20 + off * 4) bit ;;; genMaint id)) ;;;
           pop_vqueue id ;;;
           vq <- vget mVCpuQueue id ;;
           match vq with
           | k :: _ =>
               v <- getVIntEntry k ;;
               setCurrentVirtualInterruptId id
                 (if bool_decide (HW v = 0) then Z.lor (VirtualID v) (Z.shiftl (PhysicalID v) 10) else VirtualID v)
           | [] =>
               setCurrentVirtualInterruptId id 1023 ;;;
               w0 <- rd32 (word_at (vd + 0x30)) ;; w1 <- rd32 (word_at (vd + 0x34)) ;; b <- rd8 vd ;;
               m_when (bool_decide (w0 = 0xffffffff) && bool_decide (w1 = 0xffffffff) && Z.testbit b 3)
                 (or8 (vd + 0x10) 8 ;;; genMaint id)
           end)
  else copy_value (vcpu_if c id + offset) value size.

Definition readVCpu (offset id : Z) : G Z := c <- m_gets g_cfg ;; rd32 (vcpu_if c id + offset).

(** Is an interrupt with these identifiers among the queued list registers? *)
Fixpoint vint_queued (vq : list Z) (v : VIntEntry) : G bool :=
  match vq with
  | [] => m_ret false
  | k :: vq =>
      e <- getVIntEntry k ;;
      rest <- vint_queued vq v ;;
      m_ret ((bool_decide (VirtualID e = VirtualID v) && bool_decide (PhysicalID e = PhysicalID v)) || rest)
  end.

Definition write_list_register (offset value id : Z) : G unit :=
  c <- m_gets g_cfg ;;
  let vd := vdist_if c id in
  let which := (offset - 0x100) / 4 in
  let bit := 2 ^ (which mod 32) in
  let v := vint_of value in
  (if bool_decide (State v = 0) then or8 (vd + 0x30 + which / 32 * 4) bit
   else
     vq <- vget mVCpuQueue id ;;
     found <- vint_queued vq v ;;
     m_when (negb found) (push_vqueue id which ;;; clear8 (vd + 0x30 + which / 32 * 4) bit)) ;;;
  (if bool_decide (VirtualID v = 0xb) then m_throw (Throw "0") else m_ret tt) ;;;
  vq <- vget mVCpuQueue id ;;
  m_when (bool_decide (vq = []))
    (b <- rd8 vd ;; m_when (Z.testbit b 3) (or8 (vd + 0x10) 8 ;;; genMaint id)).

Definition writeVDist (offset value id : Z) : G unit :=
  c <- m_gets g_cfg ;;
  m_when (bool_decide (0x100 ≤ offset < 0x200)) (write_list_register offset value id) ;;;
  wr32 (vdist_if c id + offset) value ;;;
  m_when (bool_decide (offset = 8))
    (o_gicv_ctrl <- readVCpu 0 id ;;
     writeVCpu 0 (Z.lor (Z.ldiff o_gicv_ctrl 0x1ff) (Z.land value 0x1ff)) 4 id ;;;
     o_pmr <- readVCpu 4 id ;;
     writeVCpu 4 (Z.lor (u32 (Z.shiftl (Z.shiftr value 27) 3)) (Z.ldiff o_pmr 0xf8)) 4 id) ;;;
  m_when (bool_decide (offset = 0))
    (if bool_decide (value = 0) || bool_decide (value = 1) then m_ret tt else m_throw (Throw "Current value")).

Definition readVDist (offset id : Z) : G Z :=
  if bool_decide (offset = 4) then m_ret (Z.lor (Z.lor 0x3f (Z.shiftl 4 26)) (Z.shiftl 4 29))
  else if bool_decide (offset = 8) then
    gicv_ctrl <- readVCpu 0 id ;; gicv_pmr <- readVCpu 4 id ;;
    gicv_bpr <- readVCpu 8 id ;; gicv_abpr <- readVCpu 0x1c id ;;
    m_ret (Z.lor (Z.lor (Z.lor (Z.land gicv_ctrl 0x1ff) (Z.shiftl (Z.land gicv_bpr 7) 21))
                   (Z.shiftl (Z.land gicv_abpr 7) 18))
             (u32 (Z.shiftl (Z.shiftr gicv_pmr 3) 27)))
  else c <- m_gets g_cfg ;; rd32 (vdist_if c id + offset).

(** ** Entry points *)

Definition connectCpu (id : Z) : G unit :=
  m_modify (fun s => set_mCpus (mCpus s ++ [id]) s) ;;;
  m_modify (fun s => set_mCpuQueue (mCpuQueue s ++ [[]]) s) ;;;
  m_modify (fun s => set_mVCpuQueue (mVCpuQueue s ++ [[]]) s) ;;;
  c <- m_gets g_cfg ;;
  n <- m_gets (fun s => Z.of_nat (length (mCpus s))) ;;
  wr32 (word_at (mDistBase c / 4 + 1)) (Z.lor 3 (Z.shiftl n 5)) ;;;
  m_modify (fun s => set_mInterruptOrigins (mInterruptOrigins s ++ [∅]) s) ;;;
  m_modify (fun s => set_mPendingInterrupts (mPendingInterrupts s ++ [replicate (Z.to_nat (N_GIC_INTERRUPTS / 32)) 0]) s) ;;;
  m_modify (fun s => set_mEnableStatus (mEnableStatus s ++ [[]]) s) ;;;
  wr32 (word_at (vdist_if c id + 0x30)) 0xffffffff ;;;
  wr32 (word_at (vdist_if c id + 0x30 + 4)) 0xffffffff.

Definition update_irq (val irq_idx : Z) : G unit :=
  lock ;;;
  let actual_irq := irq_idx mod 2 ^ 16 in
  let targets := Z.shiftr irq_idx 16 mod 2 ^ 16 in
  (if bool_decide (32 ≤ actual_irq) then
     n <- m_gets (fun s => Z.of_nat (length (mPendingInterrupts s))) ;;
     m_forM (seqZ 0 n) (fun i => setInterruptPending i actual_irq (u32 val))
   else if bool_decide (16 ≤ actual_irq) then
     cpus <- m_gets mCpus ;;
     m_forM cpus (fun cpu =>
       _ <- shl1 cpu ;;
       m_when (Z.testbit targets cpu)
         (setInterruptTarget actual_irq targets ;;; setInterruptPending cpu actual_irq (u32 val)))
   else m_throw (Throw "GIC: Unexpected SGI in update_irq().")) ;;;
  comb_logic ;;; unlock.

(** The four register regions of the map, tested in this order. *)
Inductive region := Dist | CpuIf | VCpuIf | VDist.

Definition in_region (offset base size : Z) : bool :=
  bool_decide (base ≤ offset) && bool_decide (offset < u64 (base + size)).

(** The region of an offset and the offset in it; the upper alias is folded down. *)
Definition decode (c : gic_config) (offset : Z) : option (region * Z) :=
  let fold off := if bool_decide (0xf000 ≤ off) then off - 0xf000 else off in
  if in_region offset (mDistBase c) (mDistSize c) then Some (Dist, fold (offset - mDistBase c))
  else if in_region offset (mCpuBase c) (mCpuSize c) then Some (CpuIf, fold (offset - mCpuBase c))
  else if in_region offset (mVCPUBase c) (mVCPUSize c) then Some (VCpuIf, fold (offset - mVCPUBase c))
  else if in_region offset (mVDistBase c) (mVDistSize c) then Some (VDist, fold (offset - mVDistBase c))
  else None.

Definition requester (p : payload) : G Z :=
  match source_cpu p with
  | Some id => m_ret id
  | None => m_throw (Throw "GicCpuExtension is mendatory for correct Gic operation !")
  end.

Definition gic_read (t : target_if) (p : payload) (delay : Z) : G reply :=
  lock ;;;
  cpu_id <- requester p ;;
  c <- m_gets g_cfg ;;
  match decode c (u64 (addr p - mBaseAddress (t_space t))) with
  | Some (r, off) =>
      v <- match r with
           | Dist => readDist off cpu_id
           | CpuIf => readCpu off cpu_id
           | VCpuIf => readVCpu off cpu_id
           | VDist => readVDist off cpu_id
           end ;;
      b <- m_lift (fill_buffer p (le_bytes 4 v)) ;;
      unlock ;;; m_ret (mkReply TLM_OK_RESPONSE (Some b) delay false)
  | None => m_throw (Throw "Unknown GIC region.")
  end.

Definition gic_write (t : target_if) (p : payload) (delay : Z) : G reply :=
  lock ;;;
  cpu_id <- requester p ;;
  c <- m_gets g_cfg ;;
  match decode c (u64 (addr p - mBaseAddress (t_space t))) with
  | Some (r, off) =>
      l <- m_lift (buffer_bytes p 4) ;;
      let value := le_value l in
      match r with
      | Dist => writeDist off value (len p) cpu_id
      | CpuIf => writeCpu off value (len p) cpu_id
      | VCpuIf => writeVCpu off value (len p) cpu_id
      | VDist => writeVDist off value cpu_id
      end ;;;
      comb_logic ;;; unlock ;;; m_ret (mkReply TLM_OK_RESPONSE (ptr p) delay false)
  | None => m_throw (Throw "Unknown GIC region.")
  end.

#[global] Instance gic_target : Target gic := {|
  local_mem := g_mem;
  with_local_mem := set_g_mem;
  read_callback := gic_read;
  write_callback := gic_write
|}.

(** The constructor, with the bases that the setters give and the memory of the target. *)
Definition new_gic (c : gic_config) (contents : Z → Z) : gic :=
  mkGic c (mkBytes (4 * 0x100001) contents) [] [] [] [] [] [] ∅ 0 false [].
