(* ===== verification/GicQueues.v ===== *)
(** * The invariant of the interrupt controller

    One queue, one pending table and one enable map per connected CPU; no interrupt is
    queued twice; the pending tables have a word for each 32 interrupts; the enable maps
    are sorted.  Every entry point of [Gic.v] keeps it, whatever its outcome. *)

From S2P Require Import Prelude AddrSpace Tlm LocalMemory TargetIf Gic.

Definition sorted_keys (l : list (Z * bool)) : Prop :=
  ∀ i j a b, (i < j)%nat → l.*1 !! i = Some a → l.*1 !! j = Some b → a < b.

Record gic_inv (s : gic) : Prop := {
  inv_queues : length (mCpuQueue s) = length (mCpus s);
  inv_vqueues : length (mVCpuQueue s) = length (mCpus s);
  inv_origins : length (mInterruptOrigins s) = length (mCpus s);
  inv_pending : length (mPendingInterrupts s) = length (mCpus s);
  inv_enables : length (mEnableStatus s) = length (mCpus s);
  inv_nodup : Forall (fun q => NoDup q) (mCpuQueue s);
  inv_words : Forall (fun row => length row = 16%nat) (mPendingInterrupts s);
  inv_sorted : Forall sorted_keys (mEnableStatus s)
}.

(** [keeps m]: the invariant survives [m], also when [m] throws or is undefined. *)
Definition keeps {A} (m : G A) : Prop := ∀ s, gic_inv s → gic_inv (m s).2.

Lemma keeps_ret {A} (a : A) : keeps (m_ret a).
Proof. by intros s Hs. Qed.
Lemma keeps_throw {A} e : keeps (@m_throw gic A e).
Proof. by intros s Hs. Qed.
Lemma keeps_lift {A} (r : result A) : keeps (m_lift r).
Proof. by intros s Hs. Qed.
Lemma keeps_get : keeps m_get.
Proof. by intros s Hs. Qed.
Lemma keeps_gets {A} (f : gic → A) : keeps (m_gets f).
Proof. by intros s Hs. Qed.
Lemma keeps_bind {A B} (m : G A) (k : A → G B) : keeps m → (∀ a, keeps (k a)) → keeps (m_bind m k).
Proof.
  intros Hm Hk s Hs. specialize (Hm s Hs). unfold m_bind. destruct (m s) as [[a|e] s'] eqn:E; cbn in *; [|done].
  by apply Hk.
Qed.
Lemma keeps_when b m : keeps m → keeps (m_when b m).
Proof. destruct b; [done|]. intros _. apply keeps_ret. Qed.
Lemma keeps_forM {A} (l : list A) (f : A → G unit) : (∀ x, keeps (f x)) → keeps (m_forM l f).
Proof.
  intros Hf. induction l as [|x l IH]; [apply keeps_ret|]. cbn. by apply keeps_bind.
Qed.

(** Members that the invariant does not mention. *)
Lemma keeps_modify f : (∀ s, gic_inv s → gic_inv (f s)) → keeps (m_modify f).
Proof. intros Hf s. apply Hf. Qed.

(** Replacing one element of a vector. *)
Lemma keeps_vupd {A} (f : gic → list A) g i h :
  (∀ s x, gic_inv s → f s !! Z.to_nat i = Some x → gic_inv (g (<[Z.to_nat i := h x]> (f s)) s)) →
  keeps (vupd f g i h).
Proof.
  intros Hg s Hs. unfold vupd, m_bind, m_get, m_lift.
  destruct (vec_get (f s) i) as [x|e] eqn:Hx; [|done]. apply vec_get_Ok in Hx as [Hi Hx].
  destruct (vec_set (f s) i (h x)) as [l|e] eqn:Hl; [|done]. apply vec_set_Ok in Hl as [_ ->].
  cbn. by apply Hg.
Qed.

Ltac inv_split := intros []; split; cbn; rewrite ?length_insert; try done.

Lemma keeps_wr a l : keeps (wr a l).
Proof.
  unfold wr. apply keeps_bind; [apply keeps_get|intros s].
  apply keeps_bind; [apply keeps_lift|intros m]. apply keeps_modify. intros t. inv_split.
Qed.

Lemma map_assign_keys k v l x : x ∈ (map_assign k v l).*1 ↔ x = k ∨ x ∈ l.*1.
Proof.
  induction l as [|[k' v'] l IH]; [cbn; set_solver|]. cbn [map_assign].
  repeat case_bool_decide; rewrite ?fmap_cons; cbn [fst]; rewrite ?elem_of_cons; [tauto| |].
  - subst. tauto.
  - rewrite IH. tauto.
Qed.

Lemma sorted_keys_cons k v l : sorted_keys ((k, v) :: l) ↔ Forall (fun x => k < x) l.*1 ∧ sorted_keys l.
Proof.
  unfold sorted_keys. rewrite fmap_cons. cbn [fst]. split.
  - intros H. split.
    + apply Forall_lookup. intros i x Hx. apply (H 0%nat (S i) k x); [lia|done|done].
    + intros i j a b Hij Ha Hb. apply (H (S i) (S j) a b); [lia|done|done].
  - intros [Hk Hl] [|i] [|j] a b Hij Ha Hb; [lia| |lia|].
    + cbn in Ha. simplify_eq. rewrite Forall_lookup in Hk. by apply (Hk j).
    + apply (Hl i j a b); [lia|done|done].
Qed.

Lemma map_assign_sorted k v l : sorted_keys l → sorted_keys (map_assign k v l).
Proof.
  induction l as [|[k' v'] l IH]; intros Hs.
  - intros i j a b Hij Ha Hb. apply lookup_lt_Some in Ha, Hb. cbn in *. lia.
  - apply sorted_keys_cons in Hs as [Hk Hl]. cbn [map_assign]. repeat case_bool_decide.
    + apply sorted_keys_cons. rewrite fmap_cons. cbn [fst]. split.
      * constructor; [done|]. eapply Forall_impl; [exact Hk|]. cbn. lia.
      * by apply sorted_keys_cons.
    + subst. by apply sorted_keys_cons.
    + apply sorted_keys_cons. split; [|by apply IH]. apply Forall_forall.
      intros x [->|Hx]%map_assign_keys; [lia|]. by eapply Forall_forall in Hk.
Qed.

Lemma keeps_set_enable cpu i v : keeps (set_enable cpu i v).
Proof.
  apply keeps_vupd. intros s x Hs Hx. revert Hs. inv_split.
  apply Forall_insert; [done|]. apply map_assign_sorted. by eapply Forall_lookup_1.
Qed.

Lemma keeps_set_origin cpu i v : keeps (set_origin cpu i v).
Proof. apply keeps_vupd. intros s x Hs Hx. revert Hs. inv_split. Qed.

Lemma keeps_pop_queue id : keeps (pop_queue id).
Proof.
  apply keeps_vupd. intros s x Hs Hx. revert Hs. inv_split. apply Forall_insert; [done|].
  assert (NoDup x) as Hn by (by eapply (Forall_lookup_1 (fun q : list Z => NoDup q))).
  destruct Hn; [constructor|done].
Qed.

Lemma keeps_push_new id v : keeps (push_new id v).
Proof.
  apply keeps_vupd. intros s x Hs Hx. revert Hs. inv_split. apply Forall_insert; [done|].
  assert (NoDup x) as Hn by (by eapply (Forall_lookup_1 (fun q : list Z => NoDup q))).
  case_bool_decide as Hv; [done|]. apply NoDup_app. split_and!; [done| |apply NoDup_singleton].
  intros y Hy ->%list_elem_of_singleton. done.
Qed.

Lemma keeps_pop_vqueue id : keeps (pop_vqueue id).
Proof. apply keeps_vupd. intros s x Hs Hx. revert Hs. inv_split. Qed.
Lemma keeps_push_vqueue id v : keeps (push_vqueue id v).
Proof. apply keeps_vupd. intros s x Hs Hx. revert Hs. inv_split. Qed.

Lemma keeps_setInterruptPending cpu i v : keeps (setInterruptPending cpu i v).
Proof.
  intros s Hs. unfold setInterruptPending, vget, m_bind at 1, m_bind at 1, m_get, m_lift at 1.
  destruct (vec_get (mPendingInterrupts s) cpu) as [row|e] eqn:Hr; [|done].
  apply vec_get_Ok in Hr as [_ Hr]. unfold m_bind at 1, m_lift at 1.
  destruct (vec_get row (i / 32)) as [w|e]; [|done]. unfold m_bind at 1, m_lift at 1.
  destruct (vec_set row (i / 32) _) as [row'|e] eqn:Hr'; [|done].
  apply vec_set_Ok in Hr' as [_ ->]. apply keeps_vupd; [|done].
  assert (length row = 16%nat) as H16.
  { destruct Hs. by eapply (Forall_lookup_1 (fun r : list Z => length r = 16%nat)). }
  clear s Hs Hr. intros s x Hs Hx. revert Hs. inv_split.
  apply Forall_insert; [done|]. by rewrite length_insert.
Qed.

Lemma keeps_emit c b l : keeps (emit c b l).
Proof. apply keeps_modify. intros s. inv_split. Qed.
Lemma keeps_lock : keeps lock.
Proof.
  unfold lock. apply keeps_bind; [apply keeps_get|]. intros s. destruct (g_locked s); [apply keeps_throw|].
  apply keeps_modify. intros t. inv_split.
Qed.
Lemma keeps_unlock : keeps unlock.
Proof. apply keeps_modify. intros s. inv_split. Qed.

Create HintDb gic_keeps discriminated.
#[export] Hint Resolve keeps_ret keeps_throw keeps_lift keeps_get keeps_gets keeps_wr keeps_set_enable
  keeps_set_origin keeps_pop_queue keeps_push_new keeps_pop_vqueue keeps_push_vqueue
  keeps_setInterruptPending keeps_emit keeps_lock keeps_unlock : gic_keeps.

(** The invariant of composed operations follows their structure: the rules for the
    monad, the lemmas of the operations, and otherwise the definition. *)
Ltac head_of m := lazymatch m with ?f _ => head_of f | _ => m end.

Ltac keeps_step :=
  lazymatch goal with
  | |- keeps (m_bind _ _) => apply keeps_bind; [|intros ?]
  | |- keeps (m_when _ _) => apply keeps_when
  | |- keeps (m_forM _ _) => apply keeps_forM; intros ?
  | |- keeps (m_modify _) => apply keeps_modify; intros ?; inv_split
  | |- keeps (if ?b then _ else _) => destruct b
  | |- keeps (match ?x with _ => _ end) => destruct x
  | |- keeps ?m => first [solve [auto 1 with gic_keeps nocore] | let h := head_of m in unfold h]
  end; cbv zeta.
Ltac keeps_solve := repeat keeps_step.

Lemma keeps_comb_loop fuel i : keeps (comb_loop fuel i).
Proof.
  revert i. induction fuel as [|n IH]; intros i; cbn [comb_loop]; [apply keeps_ret|].
  keeps_step; [keeps_solve|]. keeps_step; [keeps_solve|apply IH].
Qed.

Lemma keeps_comb_logic : keeps comb_logic.
Proof. unfold comb_logic. keeps_step; [keeps_solve|apply keeps_comb_loop]. Qed.
#[export] Hint Resolve keeps_comb_logic : gic_keeps.

Lemma keeps_vint_queued vq v : keeps (vint_queued vq v).
Proof.
  induction vq as [|k vq IH]; cbn [vint_queued]; [apply keeps_ret|].
  keeps_step; [keeps_solve|]. keeps_step; [apply IH|apply keeps_ret].
Qed.
#[export] Hint Resolve keeps_vint_queued : gic_keeps.

Lemma keeps_writeVCpu offset value size id : keeps (writeVCpu offset value size id).
Proof. keeps_solve. Qed.
#[export] Hint Resolve keeps_writeVCpu : gic_keeps.

Lemma keeps_gic_read t p delay : keeps (gic_read t p delay).
Proof. keeps_solve. Qed.

Lemma keeps_gic_write t p delay : keeps (gic_write t p delay).
Proof. keeps_solve. Qed.

Lemma keeps_update_irq val irq_idx : keeps (update_irq val irq_idx).
Proof. keeps_solve. Qed.

(** ** Reachable states *)

Lemma connectCpu_inv id s s' : gic_inv s → connectCpu id s = (Ok tt, s') → gic_inv s'.
Proof.
  intros Hs. unfold connectCpu. cbn -[wr32]. unfold m_bind at 1.
  destruct (wr32 _ _ _) as [[[]|e] s1] eqn:E1; [|done]. unfold wr32, wr, m_bind, m_get, m_lift in E1.
  destruct (store _ _ _) as [m1|] eqn:Em1 in E1; [|done]. cbn in E1. injection E1 as <-.
  cbn -[wr32]. unfold m_bind at 1.
  destruct (wr32 _ _ _) as [[[]|e] s2] eqn:E2; [|done]. unfold wr32, wr, m_bind, m_get, m_lift in E2.
  destruct (store _ _ _) as [m2|] eqn:Em2 in E2; [|done]. cbn in E2. injection E2 as <-.
  intros E3. unfold wr32, wr, m_bind, m_get, m_lift in E3.
  destruct (store _ _ _) as [m3|] eqn:Em3 in E3; [|done]. cbn in E3. injection E3 as <-.
  destruct Hs. split; cbn; rewrite ?length_app; try (cbn; lia);
    (apply Forall_app; split; [done|constructor; [|constructor]]).
  - constructor.
  - done.
  - intros i j a b _ Ha. done.
Qed.

(** What can happen to a controller: a CPU is connected, an interrupt line changes, or
    an initiator accesses a register, with any outcome. *)
Inductive gic_step : gic → gic → Prop :=
  | step_connect id s s' : connectCpu id s = (Ok tt, s') → gic_step s s'
  | step_irq val irq s : gic_step s (update_irq val irq s).2
  | step_read t p delay s : gic_step s (gic_read t p delay s).2
  | step_write t p delay s : gic_step s (gic_write t p delay s).2.

(** C25: In every state a controller can reach, whatever the accesses and their outcomes,
    each connected CPU has its tables, no interrupt is twice in the queue of a CPU, the
    pending tables have 16 words and the enable maps are sorted by interrupt. *)
Theorem gic_queues_invariant c contents s :
  rtc gic_step (new_gic c contents) s → gic_inv s.
Proof.
  intros Hr. assert (gic_inv (new_gic c contents)) as H0 by (split; cbn; constructor || done).
  induction Hr as [|s1 s2 s3 Hstep _ IH]; [done|]. apply IH. destruct Hstep as [id s s' Hc|val irq s|t p d s|t p d s].
  - by eapply connectCpu_inv.
  - by apply keeps_update_irq.
  - by apply keeps_gic_read.
  - by apply keeps_gic_write.
Qed.

Definition gic400 : gic_config := mkGicConfig 0x1000 0x1000 0x2000 0x2000 0x4000 0x2000 0x6000 0x2000 25.
Definition gic_example : gic := (connectCpu 0 (new_gic gic400 (fun _ => 0))).2.

Lemma gic_example_ok : connectCpu 0 (new_gic gic400 (fun _ => 0)) = (Ok tt, gic_example).
Proof.
  assert (is_ok (connectCpu 0 (new_gic gic400 (fun _ => 0))).1 = true) as H by (vm_compute; reflexivity).
  unfold gic_example. destruct (connectCpu 0 (new_gic gic400 (fun _ => 0))) as [[[]|e] s]; done.
Qed.

Lemma gic_queues_invariant_witness : gic_inv (update_irq 1 40 gic_example).2.
Proof.
  apply (gic_queues_invariant gic400 (fun _ => 0)). eapply rtc_l; [|eapply rtc_l; [|apply rtc_refl]].
  - apply (step_connect 0), gic_example_ok.
  - apply step_irq.
Defined.
