(* ===== verification/GicDelivery.v ===== *)
(** * Delivery of interrupts

    What [comb_logic] of [Gic.v] computes, against a specification of the delivery; the
    end of an interrupt; and what the disable register, the virtual list registers and
    the mutex do. *)

From S2P Require Import Prelude AddrSpace Tlm LocalMemory TargetIf Gic GicQueues.

(** ** Reading registers *)

Section registers.
Context (s : gic).

Lemma rd_ok a n : 0 ≤ a → a + n ≤ b_size (g_mem s) → rd a n s = (Ok (peek (g_mem s) a n), s).
Proof. intros. unfold rd, m_bind, m_get, m_lift. by rewrite load_ok. Qed.

Lemma rd32_ok a : 0 ≤ a → a + 4 ≤ b_size (g_mem s) → rd32 a s = (Ok (le_value (peek (g_mem s) a 4)), s).
Proof. intros. unfold rd32, m_bind. by rewrite rd_ok. Qed.

Lemma rd8_ok a : 0 ≤ a → a + 1 ≤ b_size (g_mem s) → rd8 a s = (Ok (b_at (g_mem s) a), s).
Proof. intros. unfold rd8, m_bind. rewrite rd_ok by done. rewrite peek_byte. cbn [le_value]. unfold m_ret. do 2 f_equal. lia. Qed.

Lemma wr32_ok a v : 0 ≤ a → a + 4 ≤ b_size (g_mem s) →
  wr32 a v s = (Ok tt, set_g_mem (poke (g_mem s) a (le_bytes 4 v)) s).
Proof. intros. unfold wr32, wr, m_bind, m_get, m_lift. by rewrite store_ok by (cbn; lia). Qed.

Lemma vget_ok {A} (f : gic → list A) i x : 0 ≤ i → f s !! Z.to_nat i = Some x → vget f i s = (Ok x, s).
Proof. intros Hi Hx. unfold vget, m_bind, m_get, m_lift. by rewrite (vec_get_Some _ _ _ Hi Hx). Qed.

Lemma vupd_ok {A} (f : gic → list A) g i h x : 0 ≤ i → f s !! Z.to_nat i = Some x →
  vupd f g i h s = (Ok tt, g (<[Z.to_nat i := h x]> (f s)) s).
Proof.
  intros Hi Hx. unfold vupd, m_bind, m_get, m_lift. rewrite (vec_get_Some _ _ _ Hi Hx).
  unfold vec_set. apply lookup_lt_Some in Hx. by rewrite decide_True by lia.
Qed.
End registers.

(** A word that has been written is read back. *)
Lemma poke_word m a v : le_value (peek (poke m a (le_bytes 4 v)) a 4) = u32 v.
Proof.
  change (peek _ a 4) with (peek (poke m a (le_bytes 4 v)) a (Z.of_nat (length (le_bytes 4 v)))).
  by rewrite peek_poke, le_value_bytes.
Qed.

Lemma word_at_aligned a : a mod 4 = 0 → word_at (a / 4) = a.
Proof. intros H. unfold word_at. pose proof (Z.div_mod a 4). lia. Qed.

(** ** Specification of the delivery *)

Section spec.
Context (s : gic).
Let c := g_cfg s.
Let mem := g_mem s.

(** The distributor and the interface of the CPU are enabled. *)
Definition active (cpu : Z) : bool :=
  Z.testbit (le_value (peek mem (mDistBase c) 4)) 0 && Z.testbit (le_value (peek mem (cpu_if c cpu) 4)) 0.

Definition pending (cpu k : Z) : bool :=
  Z.testbit (default 0 ((mPendingInterrupts s !! Z.to_nat cpu) ≫= (fun row => row !! Z.to_nat (k / 32)))) (k mod 32).

(** An interrupt of the enable map that reaches the CPU. *)
Definition eligible (cpu : Z) (e : Z * bool) : Prop :=
  e.2 = true ∧ b_at mem (mDistBase c + 1024 + e.1) ≤ b_at mem (cpu_if c cpu + 4) ∧
  pending cpu e.1 = true ∧ Z.testbit (b_at mem (mDistBase c + 2048 + e.1)) cpu = true.

#[global] Instance eligible_dec cpu e : Decision (eligible cpu e).
Proof. unfold eligible. apply _. Defined.

(** The value a CPU reads to acknowledge an interrupt: software interrupts carry the
    number of their sender. *)
Definition ack (cpu k : Z) : Z :=
  if bool_decide (k < 16) then
    Z.lor k (u32 (Z.shiftl (default 0 ((mInterruptOrigins s !! Z.to_nat cpu) ≫= (fun o => o !! k))) 10))
  else k.

Definition enqueue (q : list Z) (v : Z) : list Z := if bool_decide (v ∈ q) then q else q ++ [v].

(** The interrupts that arrive at a CPU, in increasing order, join its queue. *)
Definition arrivals (cpu : Z) : list Z :=
  (fun e => ack cpu e.1) <$> filter (eligible cpu) (default [] (mEnableStatus s !! Z.to_nat cpu)).
Definition queue_of (cpu : Z) : list Z := default [] (mCpuQueue s !! Z.to_nat cpu).
Definition next_queue (cpu : Z) : list Z :=
  if active cpu then foldl enqueue (queue_of cpu) (arrivals cpu) else queue_of cpu.

Definition vqueue_of (cpu : Z) : list Z := default [] (mVCpuQueue s !! Z.to_nat cpu).

(** The levels driven on the lines of a CPU. *)
Definition lines_of (cpu : Z) : list irq_line :=
  if active cpu then
    [mkLine cpu (negb (bool_decide (next_queue cpu = []))) (u32 (Z.shiftl cpu 16));
     mkLine cpu (negb (bool_decide (vqueue_of cpu = []))) (Z.lor 2 (u32 (Z.shiftl cpu 16)))]
  else [mkLine cpu false (u32 (Z.shiftl cpu 16))].
End spec.

(** The acknowledge registers. *)
Definition iar (c : gic_config) (cpu : Z) : Z := cpu_if c cpu + 12.
Definition viar (c : gic_config) (cpu : Z) : Z := vcpu_if c cpu + 12.

(** A controller with [n] CPUs numbered from 0, the register blocks one after another in
    the local memory as in the GIC-400, and known interrupts only. *)
Record gic_wf (n : Z) (s : gic) : Prop := {
  wf_inv : gic_inv s;
  wf_cpus : mCpus s = seqZ 0 n;
  wf_n : 0 < n ≤ 8;
  wf_aligned : mDistBase (g_cfg s) mod 4 = 0 ∧ mCpuBase (g_cfg s) mod 4 = 0 ∧ mVCPUBase (g_cfg s) mod 4 = 0;
  wf_layout : 0 ≤ mDistBase (g_cfg s) ∧ mDistBase (g_cfg s) + 4096 ≤ mCpuBase (g_cfg s) ∧
    mCpuBase (g_cfg s) + 4096 ≤ mVDistBase (g_cfg s) ∧ mVDistBase (g_cfg s) + 4096 ≤ mVCPUBase (g_cfg s) ∧
    mVCPUBase (g_cfg s) + 4096 ≤ b_size (g_mem s);
  wf_known : Forall (fun l => Forall (fun k => 0 ≤ k < 512) l.*1) (mEnableStatus s);
  wf_lists : Forall (fun q => Forall (fun k => 0 ≤ k < 64) q) (mVCpuQueue s)
}.

Section serve.
Context (n : Z) (s : gic) (Hwf : gic_wf n s) (cpu : Z) (Hcpu : 0 ≤ cpu < n).

Lemma blocks : cpu_if (g_cfg s) cpu = mCpuBase (g_cfg s) + 256 * cpu ∧
  vcpu_if (g_cfg s) cpu = mVCPUBase (g_cfg s) + 256 * cpu.
Proof.
  destruct Hwf as [_ _ Hn _ _ _ _]. unfold cpu_if, vcpu_if. by rewrite u32_small by (unfold in_u32; lia).
Qed.

Lemma block_aligned : cpu_if (g_cfg s) cpu mod 4 = 0 ∧ iar (g_cfg s) cpu mod 4 = 0 ∧ viar (g_cfg s) cpu mod 4 = 0.
Proof.
  destruct blocks as [Hb Hv]. destruct Hwf as [_ _ _ (Hd & Hc & Hvc) _ _ _]. unfold iar, viar. rewrite Hb, Hv.
  replace (mCpuBase (g_cfg s) + 256 * cpu) with (mCpuBase (g_cfg s) + 64 * cpu * 4) by lia.
  replace (mCpuBase (g_cfg s) + 64 * cpu * 4 + 12) with (mCpuBase (g_cfg s) + (64 * cpu + 3) * 4) by lia.
  replace (mVCPUBase (g_cfg s) + 256 * cpu + 12) with (mVCPUBase (g_cfg s) + (64 * cpu + 3) * 4) by lia.
  rewrite !Z.mod_add by lia. done.
Qed.

Lemma vector_at {A} (f : gic → list A) : length (f s) = length (mCpus s) → ∃ x, f s !! Z.to_nat cpu = Some x.
Proof.
  intros Hl. apply lookup_lt_is_Some_2. rewrite Hl, (wf_cpus _ _ Hwf), length_seqZ. lia.
Qed.
End serve.

(** ** One CPU *)

(** The tables of a CPU and the bounds that [consider] relies on; none of them depends
    on the queues. *)
Definition tables (s : gic) (cpu : Z) : Prop :=
  0 ≤ cpu < 8 ∧ (∃ row, mPendingInterrupts s !! Z.to_nat cpu = Some row ∧ length row = 16%nat) ∧
  (∃ o, mInterruptOrigins s !! Z.to_nat cpu = Some o) ∧
  0 ≤ mDistBase (g_cfg s) ∧ mDistBase (g_cfg s) + 4096 ≤ b_size (g_mem s) ∧
  0 ≤ cpu_if (g_cfg s) cpu ∧ cpu_if (g_cfg s) cpu + 256 ≤ b_size (g_mem s).

Lemma consider_ok s cpu k en q : tables s cpu → 0 ≤ k < 512 → mCpuQueue s !! Z.to_nat cpu = Some q →
  consider cpu k en s =
    (Ok tt, if decide (eligible s cpu (k, en))
            then set_mCpuQueue (<[Z.to_nat cpu := enqueue q (ack s cpu k)]> (mCpuQueue s)) s else s).
Proof.
  intros (Hc & (row & Hrow & H16) & (o & Ho) & Hd0 & Hd1 & Hi0 & Hi1) Hk Hq.
  assert (0 ≤ k / 32 < 16) as H32 by (split; [apply Z.div_pos; lia|apply Z.div_lt_upper_bound; lia]).
  destruct (lookup_lt_is_Some_2 row (Z.to_nat (k / 32))) as [w Hw]; [lia|].
  unfold consider, m_bind. rewrite (vget_ok s mPendingInterrupts cpu row) by (done || lia).
  unfold m_lift. rewrite (vec_get_Some row (k / 32) w) by (done || lia).
  assert ((if bool_decide (k < 16) then
             o <- vget mInterruptOrigins cpu ;; m_ret (Z.lor k (u32 (Z.shiftl (default 0 (o !! k)) 10)))
           else m_ret k) s = (Ok (ack s cpu k), s)) as Hack.
  { unfold ack. case_bool_decide; [|done]. unfold m_bind. rewrite (vget_ok s _ cpu o) by (done || lia). by rewrite Ho. }
  unfold m_bind in Hack. rewrite Hack. clear Hack.
  unfold getInterruptPriority, getCpuPriorityMask, cpuInTarget, m_bind, m_gets.
  rewrite rd8_ok by lia. rewrite rd8_ok by lia.
  assert (pending s cpu k = Z.testbit w (k mod 32)) as Hp by (unfold pending; rewrite Hrow; cbn; by rewrite Hw).
  case_bool_decide as Hprio.
  { rewrite decide_False; [done|]. intros (_ & Hle & _). cbn in Hle. lia. }
  destruct (Z.testbit w (k mod 32)) eqn:Hbit; cbn [negb].
  2:{ rewrite decide_False; [done|]. intros (_ & _ & Hpe & _). cbn in Hpe. congruence. }
  rewrite rd8_ok by lia. unfold shl1. rewrite bool_decide_true by lia. cbn [m_ret].
  destruct (Z.testbit (b_at (g_mem s) (mDistBase (g_cfg s) + 2048 + k)) cpu) eqn:Ht, en; cbn [andb].
  - rewrite decide_True by (unfold eligible; cbn; split_and!; [done|lia|done|done]).
    unfold push_new. by rewrite (vupd_ok s _ _ _ _ q) by (done || lia).
  - rewrite decide_False; [done|]. intros (He & _ & _ & Hin). cbn in *. congruence.
  - rewrite decide_False; [done|]. intros (He & _ & _ & Hin). cbn in *. congruence.
  - rewrite decide_False; [done|]. intros (He & _ & _ & Hin). cbn in *. congruence.
Qed.

(** The specification does not read the queues. *)
Lemma eligible_queue s cpu e l : eligible (set_mCpuQueue l s) cpu e ↔ eligible s cpu e.
Proof. done. Qed.

Lemma consider_all s cpu l q : tables s cpu → Forall (fun k => 0 ≤ k < 512) l.*1 →
  mCpuQueue s !! Z.to_nat cpu = Some q →
  m_forM l (fun e => consider cpu e.1 e.2) s =
    (Ok tt, set_mCpuQueue (<[Z.to_nat cpu :=
        foldl enqueue q ((fun e => ack s cpu e.1) <$> filter (eligible s cpu) l)]> (mCpuQueue s)) s).
Proof.
  intros Ht. revert s q Ht. induction l as [|[k en] l IH]; intros s q Ht Hl Hq.
  - cbn. unfold m_ret. rewrite list_insert_id by done. by destruct s.
  - rewrite fmap_cons in Hl. apply Forall_cons in Hl as [Hk Hl]. cbn [m_forM fst snd]. unfold m_bind.
    rewrite (consider_ok s cpu k en q) by done. rewrite filter_cons.
    case_decide as He; [|by apply IH].
    rewrite (IH _ (enqueue q (ack s cpu k))); [| |done|].
    + cbn [mCpuQueue set_mCpuQueue]. rewrite list_insert_insert_eq. done.
    + exact Ht.
    + cbn [mCpuQueue set_mCpuQueue]. apply list_lookup_insert_eq. by eapply lookup_lt_Some.
Qed.

Section serve_cpu.
Context (n : Z) (s : gic) (Hwf : gic_wf n s) (cpu : Z) (Hcpu : 0 ≤ cpu < n).
Let c := g_cfg s.

Lemma wf_tables : tables s cpu.
Proof.
  destruct (blocks n s Hwf cpu Hcpu) as [Hb Hv]. assert (Hwf2 := Hwf).
  destruct Hwf2 as [Hinv _ Hn _ Hl _ _]. assert (Hinv2 := Hinv). destruct Hinv2 as [_ _ Hlo Hlp _ _ Hw _].
  destruct (vector_at n s Hwf cpu Hcpu mPendingInterrupts Hlp) as [row Hrow].
  destruct (vector_at n s Hwf cpu Hcpu mInterruptOrigins Hlo) as [o Ho].
  unfold tables. rewrite Hb. split_and!; [lia|lia| |eauto|lia|lia|lia|lia].
  exists row. split; [done|]. by eapply (Forall_lookup_1 (fun r : list Z => length r = 16%nat)).
Qed.

(** What serving a CPU leaves: its queue, its lines, and its two acknowledge registers. *)
Definition served (s' : gic) : Prop :=
  s' = set_g_mem (g_mem s') (set_mCpuQueue (<[Z.to_nat cpu := next_queue s cpu]> (mCpuQueue s))
         (set_g_lines (g_lines s ++ lines_of s cpu) s)) ∧
  b_size (g_mem s') = b_size (g_mem s) ∧
  (∀ x, ~ (iar c cpu ≤ x < iar c cpu + 4) → ~ (viar c cpu ≤ x < viar c cpu + 4) →
     b_at (g_mem s') x = b_at (g_mem s) x) ∧
  (∀ v q, active s cpu = true → next_queue s cpu = v :: q → le_value (peek (g_mem s') (iar c cpu) 4) = u32 v).

Lemma isEnabled_ok : isEnabled s = (Ok (Z.testbit (le_value (peek (g_mem s) (mDistBase c) 4)) 0), s).
Proof.
  destruct Hwf as [_ _ _ (Hd & _) Hl _ _]. unfold isEnabled, m_bind, m_gets.
  rewrite word_at_aligned by done. by rewrite rd32_ok by lia.
Qed.

Lemma cpuTakes_ok : cpuTakesInterrupts cpu s = (Ok (Z.testbit (le_value (peek (g_mem s) (cpu_if c cpu) 4)) 0), s).
Proof.
  destruct (block_aligned n s Hwf cpu Hcpu) as [Hal _]. destruct wf_tables as (_ & _ & _ & _ & _ & H0 & H1).
  unfold cpuTakesInterrupts, m_bind, m_gets. rewrite word_at_aligned by done. by rewrite rd32_ok by lia.
Qed.

Lemma serve_cpu_inactive : active s cpu = false → ∃ s', serve_cpu cpu s = (Ok tt, s') ∧ served s'.
Proof.
  intros Ha. destruct (vector_at n s Hwf cpu Hcpu mCpuQueue (inv_queues s (wf_inv n s Hwf))) as [q Hq].
  assert (mCpus s !! Z.to_nat cpu = Some cpu) as Hid.
  { rewrite (wf_cpus _ _ Hwf). apply lookup_seqZ. lia. }
  eexists. split.
  - unfold serve_cpu, m_bind. rewrite (vget_ok s mCpus cpu cpu) by (done || lia).
    rewrite isEnabled_ok. fold c.
    assert ((if Z.testbit (le_value (peek (g_mem s) (mDistBase c) 4)) 0 then cpuTakesInterrupts cpu else m_ret false) s =
      (Ok (active s cpu), s)) as ->.
    { unfold active. fold c. destruct (Z.testbit (le_value (peek (g_mem s) (mDistBase c) 4)) 0); [|done]. by rewrite cpuTakes_ok. }
    rewrite Ha, andb_false_r. cbn [negb]. reflexivity.
  - unfold served. cbn -[u32]. unfold next_queue, lines_of. rewrite Ha.
    split_and!; [|done|done|done]. unfold queue_of. rewrite Hq. cbn. rewrite list_insert_id by done. by destruct s.
Qed.

(** The states of an active CPU: queue and acknowledge register, then the virtual side. *)
Lemma physical_side q t : mCpuQueue t !! Z.to_nat cpu = Some q → g_cfg t = c → b_size (g_mem t) = b_size (g_mem s) →
  ∃ m', (match q with [] => m_ret tt | x :: _ => setCurrentInterruptId cpu x end) t = (Ok tt, set_g_mem m' t) ∧
    b_size m' = b_size (g_mem t) ∧
    (∀ x, ~ (iar c cpu ≤ x < iar c cpu + 4) → b_at m' x = b_at (g_mem t) x) ∧
    (∀ v q', q = v :: q' → le_value (peek m' (iar c cpu) 4) = u32 v).
Proof.
  intros Hq Hc Hsz. destruct (block_aligned n s Hwf cpu Hcpu) as (_ & Hal & _).
  destruct wf_tables as (_ & _ & _ & _ & _ & H0 & H1). fold c in Hal, H0, H1. unfold iar in *.
  destruct q as [|v q'].
  - exists (g_mem t). split_and!; [by destruct t|done|done|done].
  - exists (poke (g_mem t) (cpu_if c cpu + 12) (le_bytes 4 v)). split_and!.
    + unfold setCurrentInterruptId, m_bind, m_gets. rewrite Hc, word_at_aligned by done. by rewrite wr32_ok by lia.
    + done.
    + intros x Hx. apply poke_out. rewrite length_le_bytes. lia.
    + intros v' q2 [= <- _]. apply poke_word.
Qed.

Lemma virtual_side vq t : mVCpuQueue s !! Z.to_nat cpu = Some vq → g_cfg t = c → b_size (g_mem t) = b_size (g_mem s) →
  ∃ m', (match vq with [] => m_ret tt | x :: _ => v <- getVIntEntry x ;; setCurrentVirtualInterruptId cpu (virtual_id v) end) t
      = (Ok tt, set_g_mem m' t) ∧
    b_size m' = b_size (g_mem t) ∧
    (∀ x, ~ (viar c cpu ≤ x < viar c cpu + 4) → b_at m' x = b_at (g_mem t) x).
Proof.
  intros Hq Hc Hsz. destruct (block_aligned n s Hwf cpu Hcpu) as (_ & _ & Hal).
  destruct (blocks n s Hwf cpu Hcpu) as [_ Hv]. assert (Hwf2 := Hwf). destruct Hwf2 as [_ _ Hn _ Hl _ Hls].
  fold c in Hal, Hv, Hl. unfold viar in *.
  destruct vq as [|k vq].
  - exists (g_mem t). split_and!; [by destruct t|done|done].
  - assert (0 ≤ k < 64) as Hk.
    { apply (Forall_lookup_1 (fun q : list Z => Forall (fun k => 0 ≤ k < 64) q) _ _ _ Hls) in Hq.
      by inversion Hq. }
    eexists. split_and!.
    + unfold getVIntEntry, setCurrentVirtualInterruptId, m_bind, m_gets.
      rewrite Hc, rd32_ok by lia. cbn [m_ret]. rewrite Hc, word_at_aligned by done. by rewrite wr32_ok by lia.
    + done.
    + intros x Hx. apply poke_out. rewrite length_le_bytes. lia.
Qed.

Lemma serve_cpu_active : active s cpu = true → ∃ s', serve_cpu cpu s = (Ok tt, s') ∧ served s'.
Proof.
  intros Ha. assert (Hinv := wf_inv n s Hwf). destruct Hinv as [Hlq Hlv _ _ Hle _ _ _].
  destruct (vector_at n s Hwf cpu Hcpu mCpuQueue Hlq) as [q Hq].
  destruct (vector_at n s Hwf cpu Hcpu mVCpuQueue Hlv) as [vq Hvq].
  destruct (vector_at n s Hwf cpu Hcpu mEnableStatus Hle) as [st Hst].
  assert (mCpus s !! Z.to_nat cpu = Some cpu) as Hid.
  { rewrite (wf_cpus _ _ Hwf). apply lookup_seqZ. lia. }
  assert (Ha2 := Ha). apply andb_prop in Ha2 as [Ha1 Ha2]. fold c in Ha1, Ha2.
  assert (Forall (fun k => 0 ≤ k < 512) st.*1) as Hst512.
  { by apply (Forall_lookup_1 (fun l : list (Z * bool) => Forall (fun k => 0 ≤ k < 512) l.*1) _ _ _ (wf_known n s Hwf)) in Hst. }
  set (s1 := set_mCpuQueue (<[Z.to_nat cpu := next_queue s cpu]> (mCpuQueue s)) s).
  assert (m_forM st (fun e => consider cpu e.1 e.2) s = (Ok tt, s1)) as Hloop.
  { rewrite (consider_all s cpu st q wf_tables Hst512 Hq). subst s1. unfold next_queue, arrivals, queue_of.
    rewrite Ha, Hq, Hst. done. }
  assert (mCpuQueue s1 !! Z.to_nat cpu = Some (next_queue s cpu)) as Hq1.
  { apply list_lookup_insert_eq. by eapply lookup_lt_Some. }
  destruct (physical_side (next_queue s cpu) s1 Hq1) as (m1 & Hp & Hs1 & Hm1 & Hv1); [done|done|].
  set (s2 := set_g_lines (g_lines s ++ [mkLine cpu (negb (bool_decide (next_queue s cpu = []))) (u32 (Z.shiftl cpu 16))])
               (set_g_mem m1 s1)).
  destruct (virtual_side vq s2 Hvq) as (m2 & Hp2 & Hs2 & Hm2); [done|done|].
  eexists. split.
  - unfold serve_cpu, m_bind at 1. rewrite (vget_ok s mCpus cpu cpu) by (done || lia).
    unfold m_bind at 1. rewrite isEnabled_ok. unfold m_bind at 1. rewrite Ha1, cpuTakes_ok, Ha2. cbn [andb negb].
    unfold m_bind at 1. rewrite (vget_ok s mCpuQueue cpu q) by (done || lia).
    unfold m_bind at 1. rewrite (vget_ok s mEnableStatus cpu st) by (done || lia).
    unfold m_bind at 1. rewrite Hloop. unfold m_bind at 1. rewrite (vget_ok s1 mCpuQueue cpu _) by (exact Hq1 || lia).
    unfold m_bind at 1. rewrite Hp. unfold m_bind at 1, emit at 1, m_modify at 1.
    unfold m_bind at 1. change (set_g_lines _ (set_g_mem m1 s1)) with s2.
    rewrite (vget_ok s2 mVCpuQueue cpu vq) by (exact Hvq || lia).
    unfold m_bind at 1. rewrite Hp2. unfold emit, m_modify. reflexivity.
  - unfold served. split_and!.
    + unfold lines_of, vqueue_of. rewrite Ha, Hvq. subst s2 s1. cbn -[u32]. by rewrite <- app_assoc.
    + cbn. rewrite Hs2. exact Hs1.
    + intros x Hx Hx'. cbn. rewrite Hm2 by done. cbn. by rewrite Hm1.
    + intros v q' _ Hnq. rewrite <- (Hv1 v q' Hnq). f_equal. apply peek_ext. intros x Hx. cbn. apply Hm2.
      destruct (blocks n s Hwf cpu Hcpu) as [Hb Hv]. fold c in Hb, Hv. unfold iar, viar in *. rewrite Hb in Hx. rewrite Hv.
      destruct Hwf as [_ _ Hn _ Hl _ _]. fold c in Hl. lia.
Qed.

Lemma serve_cpu_ok : ∃ s', serve_cpu cpu s = (Ok tt, s') ∧ served s'.
Proof. destruct (active s cpu) eqn:Ha; [by apply serve_cpu_active|by apply serve_cpu_inactive]. Qed.
End serve_cpu.

(** ** All CPUs *)

Lemma keeps_serve_cpu i : keeps (serve_cpu i).
Proof. keeps_solve. Qed.

Lemma filter_agree {A} (P Q : A → Prop) `{!∀ x, Decision (P x), !∀ x, Decision (Q x)} (l : list A) :
  Forall (fun x => P x ↔ Q x) l → filter P l = filter Q l.
Proof.
  induction 1 as [|x l Hx Hl IH]; [done|]. rewrite !filter_cons. repeat case_decide; try tauto; by rewrite IH.
Qed.

Section comb.
Context (n : Z) (s0 : gic) (Hwf : gic_wf n s0).
Let c := g_cfg s0.

(** The bytes of the acknowledge registers of all CPUs. *)
Definition ack_byte (x : Z) : Prop :=
  ∃ i, 0 ≤ i < n ∧ (iar c i ≤ x < iar c i + 4 ∨ viar c i ≤ x < viar c i + 4).

(** [s] is [s0] with other queues, lines and acknowledge registers. *)
Definition agrees (s : gic) : Prop :=
  s = set_g_mem (g_mem s) (set_mCpuQueue (mCpuQueue s) (set_g_lines (g_lines s) s0)) ∧
  b_size (g_mem s) = b_size (g_mem s0) ∧ ∀ x, ~ ack_byte x → b_at (g_mem s) x = b_at (g_mem s0) x.

Lemma agrees_wf s : agrees s → gic_inv s → gic_wf n s.
Proof.
  intros (Hs & Hsz & _) Hinv. assert (Hwf2 := Hwf). destruct Hwf2 as [_ Hc Hn Ha Hl Hk Hv].
  rewrite Hs in Hinv |- *. split; cbn; try done. by rewrite Hsz.
Qed.

Lemma not_ack x : mDistBase c ≤ x < mDistBase c + 4096 → ~ ack_byte x.
Proof.
  intros Hx (i & Hi & Hr). destruct (blocks n s0 Hwf i Hi) as [Hb Hv]. unfold iar, viar in Hr. fold c in Hb, Hv.
  destruct Hwf as [_ _ Hn _ Hl _ _]. fold c in Hl. lia.
Qed.

Lemma not_ack_cpu i x : 0 ≤ i < n → cpu_if c i ≤ x < cpu_if c i + 12 → ~ ack_byte x.
Proof.
  intros Hi Hx (j & Hj & Hr). destruct (blocks n s0 Hwf i Hi) as [Hb _], (blocks n s0 Hwf j Hj) as [Hb' Hv'].
  unfold iar, viar in Hr. fold c in Hb, Hb', Hv'. destruct Hwf as [_ _ Hn _ Hl _ _]. fold c in Hl. lia.
Qed.

Lemma agrees_spec s i : agrees s → 0 ≤ i < n → active s i = active s0 i ∧ arrivals s i = arrivals s0 i.
Proof.
  intros (Hs & _ & Hm) Hi. assert (Hl := wf_layout n s0 Hwf). fold c in Hl.
  assert (g_cfg s = c) as Hc by (rewrite Hs; done).
  split.
  - unfold active. rewrite Hc. f_equal; f_equal; f_equal; apply peek_ext; intros x Hx; fold c in Hx; apply Hm.
    + apply not_ack. lia.
    + apply (not_ack_cpu i); [done|lia].
  - unfold arrivals. assert (mEnableStatus s = mEnableStatus s0) as -> by (rewrite Hs; done).
    assert (∀ e : Z * bool, ack s i e.1 = ack s0 i e.1) as Hack by (intros e; rewrite Hs; done).
    assert (filter (eligible s i) (default [] (mEnableStatus s0 !! Z.to_nat i)) =
            filter (eligible s0 i) (default [] (mEnableStatus s0 !! Z.to_nat i))) as ->.
    2:{ apply list_fmap_ext. intros _ e _. apply Hack. }
    apply filter_agree. destruct (mEnableStatus s0 !! Z.to_nat i) as [l|] eqn:Hst; [|constructor].
    apply (Forall_lookup_1 (fun l : list (Z * bool) => Forall (fun k => 0 ≤ k < 512) l.*1) _ _ _ (wf_known n s0 Hwf)) in Hst.
    rewrite Forall_fmap in Hst. eapply Forall_impl; [exact Hst|]. intros [k en] Hk. cbn in Hk.
    unfold eligible. cbn [fst snd]. rewrite Hc. fold c.
    rewrite !Hm; [|apply not_ack; lia|apply (not_ack_cpu i); [done|lia]|apply not_ack; lia].
    assert (pending s i k = pending s0 i k) as -> by (rewrite Hs; done). done.
Qed.

(** The state after the CPUs of [seen] have been served. *)
Record progress (seen : list Z) (s : gic) : Prop := {
  pg_inv : gic_inv s;
  pg_agrees : agrees s;
  pg_queues : ∀ i, 0 ≤ i < n → queue_of s i = if decide (i ∈ seen) then next_queue s0 i else queue_of s0 i;
  pg_acks : ∀ i v q, i ∈ seen → active s0 i = true → next_queue s0 i = v :: q →
    le_value (peek (g_mem s) (iar c i) 4) = u32 v;
  pg_lines : g_lines s = g_lines s0 ++ (seen ≫= lines_of s0)
}.

Lemma progress_step seen s i : progress seen s → (∀ j, j ∈ seen → 0 ≤ j < n) → 0 ≤ i < n → i ∉ seen →
  ∃ s', serve_cpu i s = (Ok tt, s') ∧ progress (seen ++ [i]) s'.
Proof.
  intros [Hinv Hag Hq Hack Hln] Hseen Hi Hnew.
  pose proof (agrees_wf s Hag Hinv) as Hw. destruct (agrees_spec s i Hag Hi) as [Hact Harr].
  destruct (serve_cpu_ok n s Hw i Hi) as (s' & Hrun & Hs' & Hsz & Hm & Hv).
  exists s'. split; [done|]. assert (Hag2 := Hag). destruct Hag2 as (Hfr & Hsz0 & Hm0).
  assert (g_cfg s = c) as Hc by (rewrite Hfr; done). rewrite Hc in Hm, Hv.
  assert (queue_of s i = queue_of s0 i) as Hqi by (rewrite Hq by done; by case_decide).
  assert (next_queue s i = next_queue s0 i) as Hnq by (unfold next_queue; by rewrite Hact, Harr, Hqi).
  assert (length (mCpuQueue s) = Z.to_nat n) as Hlen.
  { destruct Hinv as [Hl _ _ _ _ _ _ _]. by rewrite Hl, (wf_cpus n s Hw), length_seqZ. }
  split.
  - pose proof (keeps_serve_cpu i s Hinv) as Hk. by rewrite Hrun in Hk.
  - split_and!.
    + rewrite (f_equal mCpuQueue Hs'), (f_equal g_lines Hs'). etransitivity; [exact Hs'|]. cbn [mCpuQueue g_lines set_g_mem set_mCpuQueue set_g_lines].
      generalize (g_mem s') (<[Z.to_nat i:=next_queue s i]> (mCpuQueue s)) (g_lines s ++ lines_of s i). intros.
      rewrite Hfr. done.
    + by rewrite Hsz.
    + intros x Hx. rewrite Hm, Hm0; [done|done| |].
      * intros ?. apply Hx. exists i. tauto.
      * intros ?. apply Hx. exists i. tauto.
  - intros j Hj. unfold queue_of at 1. rewrite Hs'. cbn [mCpuQueue set_g_mem set_mCpuQueue].
    destruct (decide (j = i)) as [->|Hne].
    + rewrite list_lookup_insert_eq by lia. rewrite decide_True by set_solver. by rewrite Hnq.
    + rewrite list_lookup_insert_ne by lia. fold (queue_of s j). rewrite Hq by done.
      destruct (decide (j ∈ seen)), (decide (j ∈ seen ++ [i])); set_solver.
  - intros j v q Hj Haj Hnj. destruct (decide (j = i)) as [->|Hne].
    + apply (Hv v q); [by rewrite Hact|by rewrite Hnq].
    + assert (j ∈ seen) as Hjs by set_solver. rewrite <- (Hack j v q Hjs Haj Hnj). f_equal. apply peek_ext.
      intros x Hx. apply Hm; destruct (blocks n s0 Hwf i Hi) as [Hb Hvb], (blocks n s0 Hwf j (Hseen j Hjs)) as [Hb' _];
        unfold iar, viar in *; fold c in Hb, Hvb, Hb'; destruct Hwf as [_ _ Hn _ Hl _ _]; fold c in Hl;
        specialize (Hseen j Hjs); lia.
  - rewrite Hs'. cbn [g_lines set_g_mem set_mCpuQueue set_g_lines]. rewrite Hln, bind_app. cbn. rewrite app_nil_r, app_assoc.
    f_equal. unfold lines_of. rewrite Hact, Hnq. unfold vqueue_of.
    assert (mVCpuQueue s = mVCpuQueue s0) as -> by (rewrite Hfr; done). done.
Qed.

(** The order of service: from the CPU after [rr]. *)
Definition service_order (rr : Z) (k : nat) : list Z := (fun i => (rr + 1 + i) mod n) <$> seqZ 0 (Z.of_nat k).

Lemma service_order_NoDup rr : NoDup (service_order rr (Z.to_nat n)).
Proof.
  assert (0 < n) by apply (wf_n n s0 Hwf). unfold service_order. rewrite Z2Nat.id by lia.
  apply NoDup_fmap_2_strong; [|apply NoDup_seqZ]. intros a b Ha Hb Heq. apply elem_of_seqZ in Ha, Hb.
  assert ((a - b) mod n = 0) as Hd.
  { replace (a - b) with ((rr + 1 + a) - (rr + 1 + b)) by lia. rewrite Zminus_mod, Heq, Z.sub_diag. apply Z.mod_0_l. lia. }
  apply Z.mod_divide in Hd as [z Hz]; [|lia]. assert (z = 0) by nia. lia.
Qed.

Lemma service_order_all rr i : 0 ≤ i < n → i ∈ service_order rr (Z.to_nat n).
Proof.
  intros Hi. unfold service_order. rewrite Z2Nat.id by lia. apply list_elem_of_fmap.
  exists ((i - (rr + 1)) mod n). split.
  - rewrite Zplus_mod_idemp_r. replace (rr + 1 + (i - (rr + 1))) with i by lia. by rewrite Z.mod_small.
  - apply elem_of_seqZ. pose proof (Z.mod_pos_bound (i - (rr + 1)) n). lia.
Qed.

Lemma service_order_range rr k i : i ∈ service_order rr k → 0 ≤ i < n.
Proof.
  intros (j & -> & _)%list_elem_of_fmap. apply Z.mod_pos_bound. apply (wf_n n s0 Hwf).
Qed.

(** The loop serves its part of the order. *)
Lemma comb_loop_progress fuel rr seen s : 0 ≤ rr < 2 ^ 32 - 1 →
  progress seen s → (∀ j, j ∈ seen → 0 ≤ j < n) → NoDup (seen ++ service_order rr fuel) →
  ∃ s', comb_loop fuel rr s = (Ok tt, s') ∧ progress (seen ++ service_order rr fuel) s'.
Proof.
  assert (0 < n ≤ 8) as Hn by apply (wf_n n s0 Hwf).
  revert rr seen s. induction fuel as [|fuel IH]; intros rr seen s Hrr Hp Hseen Hnd.
  - exists s. by rewrite app_nil_r.
  - set (i := (rr + 1) mod n).
    assert (service_order rr (S fuel) = i :: service_order i fuel) as Hord.
    { unfold service_order. rewrite seqZ_cons by lia. rewrite fmap_cons. f_equal; [subst i; by rewrite Z.add_0_r|].
      replace (Z.pred (Z.of_nat (S fuel))) with (Z.of_nat fuel) by lia.
      rewrite <- (fmap_add_seqZ 1 0), <- list_fmap_compose. apply list_fmap_ext. intros _ k _. cbn. subst i.
      rewrite <- (Z.add_assoc ((rr + 1) mod n)), Zplus_mod_idemp_l. f_equal; lia. }
    rewrite Hord in Hnd |- *. rewrite cons_middle, app_assoc in Hnd |- *.
    assert (0 ≤ i < n) as Hi by (apply Z.mod_pos_bound; lia).
    assert (i ∉ seen) as Hnew.
    { apply NoDup_app in Hnd as [Hnd _]. apply NoDup_app in Hnd as (_ & Hd & _). intros Hin. apply (Hd i Hin). set_solver. }
    destruct (progress_step seen s i Hp Hseen Hi Hnew) as (s1 & Hr1 & Hp1).
    destruct (IH i (seen ++ [i]) s1) as (s' & Hr & Hp'); [lia|done|set_solver|done|].
    exists s'. split; [|done]. cbn [comb_loop]. unfold m_bind, m_gets.
    assert (mCpus s = seqZ 0 n) as Hcpus.
    { destruct (pg_agrees _ _ Hp) as [Hfr _]. rewrite Hfr. apply (wf_cpus n s0 Hwf). }
    rewrite Hcpus, length_seqZ, Z2Nat.id by lia. rewrite u32_small by (unfold in_u32; lia). fold i.
    by rewrite Hr1.
Qed.

Lemma progress_start : progress [] s0.
Proof.
  split; [apply (wf_inv n s0 Hwf)| |done|set_solver|by rewrite app_nil_r].
  split; [by destruct s0|done].
Qed.
End comb.

(** C3: [comb_logic] implements the specified delivery.  It always returns; it serves
    every CPU exactly once, starting after the round-robin position; the queue of an
    enabled CPU is extended, in increasing order and without duplicates, by exactly the
    interrupts that are enabled, pending, targeted at it and not below its priority limit;
    its acknowledge register shows the head of the queue and its line is raised exactly
    when the queue is not empty. *)
Theorem comb_logic_delivers n s : gic_wf n s → 0 ≤ mRoundRobin s < n →
  ∃ s', comb_logic s = (Ok tt, s') ∧ gic_inv s' ∧ agrees n s s' ∧
    (∀ i, 0 ≤ i < n → queue_of s' i = next_queue s i) ∧
    (∀ i v q, 0 ≤ i < n → active s i = true → next_queue s i = v :: q →
       le_value (peek (g_mem s') (iar (g_cfg s) i) 4) = u32 v) ∧
    ∃ order, order ≡ₚ seqZ 0 n ∧ head order = Some ((mRoundRobin s + 1) mod n) ∧
      g_lines s' = g_lines s ++ (order ≫= lines_of s).
Proof.
  intros Hwf Hrr. assert (0 < n ≤ 8) as Hn by apply (wf_n n s Hwf).
  destruct (comb_loop_progress n s Hwf (Z.to_nat n) (mRoundRobin s) [] s) as (s' & Hr & [Hinv Hag Hq Hack Hl]).
  { lia. } { apply (progress_start n s Hwf). } { set_solver. } { apply (service_order_NoDup n s Hwf). }
  pose proof (service_order_all n (mRoundRobin s)) as Hall.
  exists s'. split_and!.
  - unfold comb_logic, m_bind, m_get. rewrite (wf_cpus n s Hwf), length_seqZ. exact Hr.
  - done.
  - done.
  - intros i Hi. rewrite Hq by done. by rewrite decide_True by (apply Hall; lia).
  - intros i v q Hi. apply Hack. apply Hall. lia.
  - exists (service_order n (mRoundRobin s) (Z.to_nat n)). split_and!; [| |done].
    + apply NoDup_Permutation; [apply (service_order_NoDup n s Hwf)|apply NoDup_seqZ|].
      intros i. split; [intros Hi%(service_order_range n s Hwf); apply elem_of_seqZ; lia|].
      intros Hi%elem_of_seqZ. apply Hall. lia.
    + unfold service_order. rewrite seqZ_cons by lia. cbn. by rewrite Z.add_0_r.
Qed.

(** A one-CPU controller with interrupt 40 enabled, targeted and pending. *)
Definition gic_one (rows : list Z) (queue : list Z) : gic :=
  mkGic gic400
    (mkBytes (4 * 0x100001) (fun x => if bool_decide (x = 0x1000 ∨ x = 0x2000 ∨ x = 0x1828) then 1
                                      else if bool_decide (x = 0x2004) then 255 else 0))
    [0] [queue] [[]] [∅] [rows] [[(40, true)]] ∅ 0 false [].
Definition pending_40 : list Z := 0 :: 256 :: replicate 14 0.

Lemma sorted_singleton k v : sorted_keys [(k, v)].
Proof.
  intros i j a b Hij Ha Hb. apply lookup_lt_Some in Ha, Hb. cbn in *. lia.
Qed.

Lemma gic_one_wf rows queue : length rows = 16%nat → NoDup queue → gic_wf 1 (gic_one rows queue).
Proof.
  intros Hr Hq. split.
  - split; cbn; try done; repeat constructor; try done. apply sorted_singleton.
  - done.
  - lia.
  - done.
  - cbn. lia.
  - repeat constructor; cbn; lia.
  - repeat constructor.
Qed.

Lemma comb_logic_delivers_witness :
  ∃ s', comb_logic (gic_one pending_40 []) = (Ok tt, s') ∧ queue_of s' 0 = [40] ∧
    le_value (peek (g_mem s') (iar gic400 0) 4) = 40.
Proof.
  destruct (comb_logic_delivers 1 (gic_one pending_40 [])) as (s' & Hr & _ & _ & Hq & Hv & _).
  - apply gic_one_wf; [reflexivity|constructor].
  - cbn. lia.
  - exists s'. split_and!; [exact Hr| |].
    + rewrite Hq by lia. vm_compute. reflexivity.
    + apply (Hv 0 40 []); [lia|vm_compute; reflexivity|vm_compute; reflexivity].
Defined.

(** ** The end of an interrupt *)

Lemma setInterruptPending_ok s cpu k v row : 0 ≤ cpu → mPendingInterrupts s !! Z.to_nat cpu = Some row →
  length row = 16%nat → 0 ≤ k < 512 →
  ∃ row', setInterruptPending cpu k v s =
      (Ok tt, set_mPendingInterrupts (<[Z.to_nat cpu := row']> (mPendingInterrupts s)) s) ∧
    length row' = 16%nat ∧
    pending (set_mPendingInterrupts (<[Z.to_nat cpu := row']> (mPendingInterrupts s)) s) cpu k = negb (bool_decide (v = 0)) ∧
    (∀ j, 0 ≤ j < 512 → j ≠ k →
       pending (set_mPendingInterrupts (<[Z.to_nat cpu := row']> (mPendingInterrupts s)) s) cpu j = pending s cpu j).
Proof.
  intros Hc Hrow H16 Hk.
  assert (0 ≤ k / 32 < 16) as H32 by (split; [apply Z.div_pos; lia|apply Z.div_lt_upper_bound; lia]).
  destruct (lookup_lt_is_Some_2 row (Z.to_nat (k / 32))) as [w Hw]; [lia|].
  assert (0 ≤ k mod 32 < 32) as Hm by (apply Z.mod_pos_bound; lia).
  set (w' := if bool_decide (v = 0) then Z.ldiff w (2 ^ (k mod 32)) else Z.lor w (2 ^ (k mod 32))).
  set (row' := <[Z.to_nat (k / 32) := w']> row). exists row'.
  assert (Z.to_nat cpu < length (mPendingInterrupts s))%nat as Hlt by (by eapply lookup_lt_Some).
  assert (∀ j, pending (set_mPendingInterrupts (<[Z.to_nat cpu := row']> (mPendingInterrupts s)) s) cpu j =
               Z.testbit (default 0 (row' !! Z.to_nat (j / 32))) (j mod 32)) as Hpend.
  { intros j. unfold pending. cbn [mPendingInterrupts set_mPendingInterrupts]. by rewrite list_lookup_insert_eq by done. }
  split_and!.
  - unfold setInterruptPending, m_bind. rewrite (vget_ok s _ cpu row) by done. unfold m_lift.
    rewrite (vec_get_Some row (k / 32) w) by (done || lia). fold w'.
    unfold vec_set. rewrite decide_True by lia. fold row'. by rewrite (vupd_ok s _ _ _ _ row) by done.
  - subst row'. by rewrite length_insert.
  - rewrite Hpend. subst row'. rewrite list_lookup_insert_eq by lia. cbn. subst w'.
    case_bool_decide; [rewrite Z.ldiff_spec|rewrite Z.lor_spec]; rewrite Z.pow2_bits_true by lia; cbn; [apply andb_false_r|apply orb_true_r].
  - intros j Hj Hne. rewrite Hpend. unfold pending. rewrite Hrow. cbn [mbind option_bind].
    assert (0 ≤ j / 32 < 16) as Hj32 by (split; [apply Z.div_pos; lia|apply Z.div_lt_upper_bound; lia]).
    subst row'. destruct (decide (j / 32 = k / 32)) as [Heq|Hd].
    + rewrite Heq, list_lookup_insert_eq by lia. rewrite Hw. cbn.
      assert (j mod 32 ≠ k mod 32) by (pose proof (Z.div_mod j 32); pose proof (Z.div_mod k 32); lia).
      pose proof (Z.mod_pos_bound j 32). subst w'.
      case_bool_decide; [rewrite Z.ldiff_spec|rewrite Z.lor_spec]; rewrite Z.pow2_bits_false by lia; [by rewrite andb_true_r|by rewrite orb_false_r].
    + rewrite list_lookup_insert_ne by lia. done.
Qed.

Section eoi.
Context (n : Z) (s : gic) (Hwf : gic_wf n s) (cpu : Z) (Hcpu : 0 ≤ cpu < n).
Context (v : Z) (q : list Z) (Hq : mCpuQueue s !! Z.to_nat cpu = Some (v :: q)).
Context (Hmode : Z.testbit (b_at (g_mem s) (cpu_if (g_cfg s) cpu + 1)) 1 = false).

(** The state when the value has been compared with the head of the queue. *)
Lemma writeCpu_eoi value : 0 ≤ value mod 1024 < 512 →
  ∃ row', length row' = 16%nat ∧
    let s1 := set_mPendingInterrupts (<[Z.to_nat cpu := row']> (mPendingInterrupts s)) s in
    pending s1 cpu (value mod 1024) = false ∧
    writeCpu 0x10 value 4 cpu s =
      (if negb (bool_decide (value mod 1024 = v mod 1024)) then m_throw (Throw "end of another interrupt")
       else pop_queue cpu ;;; q <- vget mCpuQueue cpu ;;
            match q with
            | x :: _ => setInterruptPending cpu (x mod 1024) 1 ;;; setCurrentInterruptId cpu x
            | [] => setCurrentInterruptId cpu 1023 ;;; advance_round_robin
            end) s1.
Proof.
  intros Hval. destruct (wf_tables n s Hwf cpu Hcpu) as (_ & (row & Hrow & H16) & _ & _ & _ & H0 & H1).
  destruct (setInterruptPending_ok s cpu (value mod 1024) 0 row) as (row' & Hs & Hl & Hp & _); [lia|done|done|done|].
  exists row'. split; [done|]. cbv zeta. split; [exact Hp|].
  unfold writeCpu, m_bind at 1, m_gets. change (is_eoi 0x10) with true. cbv iota. unfold m_bind at 1.
  unfold ends_interrupt, m_bind at 1. rewrite rd8_ok by lia. cbn [m_ret]. rewrite Hmode. cbn [negb orb m_when].
  unfold m_bind at 1. rewrite (vget_ok s _ cpu (v :: q)) by (done || lia).
  rewrite bool_decide_false by done. unfold m_bind at 1. rewrite Hs. unfold m_bind at 1. reflexivity.
Qed.

(** Writing the end-of-interrupt register with the interrupt at the head of the queue
    retires it: the head leaves the queue, its pending bit is cleared, the next interrupt
    becomes pending and is shown in the acknowledge register; when the queue is empty the
    register shows 1023 and the round-robin position advances.  Any other value throws and
    leaves the queue as it was. *)
Theorem eoi_retires_head value : 0 ≤ value mod 1024 < 512 →
  (∀ x q', q = x :: q' → 0 ≤ x mod 1024 < 512) →
  (value mod 1024 = v mod 1024 →
   ∃ s', writeCpu 0x10 value 4 cpu s = (Ok tt, s') ∧ queue_of s' cpu = q ∧
     le_value (peek (g_mem s') (iar (g_cfg s) cpu) 4) = u32 (default 1023 (head q)) ∧
     pending s' cpu (v mod 1024) = bool_decide ((fun x => x mod 1024) <$> head q = Some (v mod 1024)) ∧
     (∀ x, head q = Some x → pending s' cpu (x mod 1024) = true) ∧
     mRoundRobin s' = if bool_decide (q = []) then u32 (mRoundRobin s + 1) mod n else mRoundRobin s) ∧
  (value mod 1024 ≠ v mod 1024 →
   ∃ s', writeCpu 0x10 value 4 cpu s = (Err (Throw "end of another interrupt"), s') ∧ queue_of s' cpu = v :: q).
Proof.
  intros Hval Hnext. destruct (writeCpu_eoi value Hval) as (row' & Hl & Hp & Hw). cbv zeta in Hw.
  set (s1 := set_mPendingInterrupts (<[Z.to_nat cpu := row']> (mPendingInterrupts s)) s) in *.
  destruct (block_aligned n s Hwf cpu Hcpu) as (_ & Hal & _).
  destruct (wf_tables n s Hwf cpu Hcpu) as (_ & (row & Hrow & H16) & _ & _ & _ & H0 & H1).
  assert (Z.to_nat cpu < length (mCpuQueue s))%nat as Hlt by (by eapply lookup_lt_Some).
  assert (Z.to_nat cpu < length (mPendingInterrupts s))%nat as Hlt2 by (by eapply lookup_lt_Some).
  unfold iar in *. split; intros Heq; rewrite Hw.
  - rewrite bool_decide_true by done. cbn [negb]. unfold m_bind at 1, pop_queue.
    rewrite (vupd_ok s1 _ _ _ _ (v :: q)) by (exact Hq || lia). cbn [tail].
    set (s2 := set_mCpuQueue (<[Z.to_nat cpu := q]> (mCpuQueue s1)) s1).
    assert (mCpuQueue s2 !! Z.to_nat cpu = Some q) as Hq2 by (by apply list_lookup_insert_eq).
    unfold m_bind at 1. rewrite (vget_ok s2 _ cpu q) by (exact Hq2 || lia).
    destruct q as [|x q'].
    + unfold m_bind at 1, setCurrentInterruptId, m_bind at 1, m_gets. change (g_cfg s2) with (g_cfg s).
      rewrite word_at_aligned by done. rewrite wr32_ok by (cbn; lia).
      unfold advance_round_robin, m_bind, m_get. cbn [mCpus set_g_mem set_mCpuQueue].
      change (mCpus s2) with (mCpus s). assert (Hn := wf_n n s Hwf). rewrite (wf_cpus n s Hwf).
      rewrite bool_decide_false by (rewrite seqZ_cons by lia; done). rewrite length_seqZ, Z2Nat.id by lia.
      eexists. split; [reflexivity|]. split_and!; [| | |done|].
      * unfold queue_of. cbn [mCpuQueue set_mRoundRobin set_g_mem]. by rewrite Hq2.
      * apply poke_word.
      * rewrite bool_decide_false by done. rewrite <- Heq. exact Hp.
      * rewrite bool_decide_true by done. done.
    + unfold m_bind at 1.
      destruct (setInterruptPending_ok s2 cpu (x mod 1024) 1 row') as (row2 & Hs & _ & Hp1 & Hp2).
      { lia. } { by apply list_lookup_insert_eq. } { done. } { by apply (Hnext x q'). }
      rewrite Hs. unfold setCurrentInterruptId, m_bind, m_gets.
      set (s3 := set_mPendingInterrupts _ s2) in *. rewrite bool_decide_false in Hp1 by done. change (g_cfg s3) with (g_cfg s).
      rewrite word_at_aligned by done. rewrite wr32_ok by (cbn; lia).
      eexists. split; [reflexivity|]. split_and!.
      * unfold queue_of. change (default [] (mCpuQueue s2 !! Z.to_nat cpu) = x :: q'). by rewrite Hq2.
      * apply poke_word.
      * transitivity (pending s3 cpu (v mod 1024)); [done|].
        destruct (decide (x mod 1024 = v mod 1024)) as [Hx|Hx].
        -- rewrite bool_decide_true by (cbn; congruence). rewrite <- Hx. exact Hp1.
        -- rewrite bool_decide_false by (cbn; congruence).
           rewrite Hp2; [rewrite <- Heq; exact Hp|lia|congruence].
      * intros x' [= <-]. exact Hp1.
      * done.
  - rewrite bool_decide_false by done. cbn [negb]. eexists. split; [reflexivity|].
    unfold queue_of. change (mCpuQueue s1) with (mCpuQueue s). by rewrite Hq.
Qed.
End eoi.

Lemma eoi_retires_head_witness :
  ∃ s', writeCpu 0x10 40 4 0 (gic_one pending_40 [40; 50]) = (Ok tt, s') ∧ queue_of s' 0 = [50] ∧
    le_value (peek (g_mem s') (iar gic400 0) 4) = 50 ∧ pending s' 0 40 = false.
Proof.
  destruct (eoi_retires_head 1 (gic_one pending_40 [40; 50])) with (cpu := 0) (v := 40) (q := [50]) (value := 40)
    as [(s' & Hr & Hq & Hi & Hp & _) _].
  - apply gic_one_wf; [reflexivity|]. apply NoDup_cons; split; [set_solver|apply NoDup_singleton].
  - lia.
  - reflexivity.
  - vm_compute. reflexivity.
  - vm_compute. split; [discriminate|reflexivity].
  - intros x q' [= <- _]. vm_compute. split; [discriminate|reflexivity].
  - reflexivity.
  - exists s'. split_and!; [exact Hr|exact Hq|exact Hi|exact Hp].
Defined.
