(* ===== verification/GicFaults.v ===== *)
(** * Faults of the interrupt controller

    What the interrupt disable registers do, which list register a virtual interrupt is
    taken from, and the mutex when an access throws. *)

From S2P Require Import Prelude AddrSpace Tlm LocalMemory TargetIf Gic GicQueues GicDelivery.

(** ** The disable registers *)

Lemma forM_app {S A} (l k : list A) (f : A → M S unit) s s' :
  m_forM l f s = (Ok tt, s') → m_forM (l ++ k) f s = m_forM k f s'.
Proof.
  revert s. induction l as [|x l IH]; intros s; cbn; [by intros [= ->]|]. unfold m_bind.
  destruct (f x s) as [[[]|e] s1]; [apply IH|done].
Qed.

(** A loop over the bits of a power of two does one bit. *)
Lemma forM_bits_pow2 k f s : 0 ≤ k < 32 → forM_bits (2 ^ k) f s = f k s.
Proof.
  intros Hk. unfold forM_bits.
  assert (∀ l t, k ∉ l → m_forM l (fun i => m_when (Z.testbit (2 ^ k) i) (f i)) t = (Ok tt, t)) as Hskip.
  { intros l. induction l as [|i l IH]; intros t Hl; [done|]. cbn. unfold m_bind, m_when.
    rewrite Z.pow2_bits_false by set_solver. cbn. apply IH. set_solver. }
  assert (∀ l t, k ∈ l → NoDup l → m_forM l (fun i => m_when (Z.testbit (2 ^ k) i) (f i)) t = f k t) as Hhit.
  { intros l. induction l as [|i l IH]; intros t Hl Hnd; [set_solver|].
    apply NoDup_cons in Hnd as [Hi Hnd]. cbn. unfold m_bind, m_when. destruct (decide (i = k)) as [->|Hne].
    - rewrite Z.pow2_bits_true by lia. destruct (f k t) as [[[]|e] t'] eqn:Hf; [|done]. by apply Hskip.
    - rewrite Z.pow2_bits_false by lia. cbn. apply IH; [set_solver|done]. }
  apply Hhit; [apply elem_of_seqZ; lia|apply NoDup_seqZ].
Qed.

Lemma map_assign_last k v l : Forall (fun x => x < k) l.*1 → map_assign k v l = l ++ [(k, v)].
Proof.
  induction l as [|[k' v'] l IH]; intros Hl; [done|]. rewrite fmap_cons in Hl. apply Forall_cons in Hl as [Hk Hl].
  cbn in Hk |- *. rewrite !bool_decide_false by lia. by rewrite IH.
Qed.

Section disable.
Context (s : gic) (Hwf : gic_wf 1 s) (k : Z) (Hk : 0 ≤ k < 32).
Context (st : list (Z * bool)) (Hst : mEnableStatus s = [st]).

Lemma disable_run :
  ∃ m, writeDist 0x180 (2 ^ k) 4 0 s = (Ok tt, set_mEnableStatus [st ++ [(1024 + k, false)]] (set_g_mem m s)) ∧
    b_size m = b_size (g_mem s) ∧
    ∀ x, ~ (mDistBase (g_cfg s) + 0x100 ≤ x < mDistBase (g_cfg s) + 0x200) → b_at m x = b_at (g_mem s) x.
Proof.
  assert (Hwf2 := Hwf). destruct Hwf2 as [_ Hcpus _ _ Hl Hknown _]. rewrite Hst in Hknown.
  assert (Forall (fun x => x < 1024 + k) st.*1) as Hlt.
  { apply Forall_cons in Hknown as [H512 _]. eapply Forall_impl; [exact H512|]. cbn. lia. }
  eexists. split_and!.
  - unfold writeDist, conf, m_bind at 1, m_gets. rewrite bool_decide_false by lia. rewrite bool_decide_true by lia.
    unfold m_bind at 1. rewrite rd32_ok by lia. unfold m_bind at 1. rewrite wr32_ok by lia.
    unfold m_bind at 1. rewrite rd32_ok by (cbn; lia). unfold m_bind at 1. rewrite wr32_ok by (cbn; lia).
    unfold set_enables, m_bind at 1, m_gets. rewrite forM_bits_pow2 by done.
    change (u32 (u32 (0x180 - 0x100) * 8)) with 1024. rewrite u32_small by (unfold in_u32; lia).
    rewrite bool_decide_true by lia. cbn [mCpus set_g_mem]. rewrite Hcpus.
    change (seqZ 0 1) with [0]. cbn [m_forM]. unfold m_bind, set_enable.
    rewrite (vupd_ok _ mEnableStatus _ _ _ st); [|done|cbn; by rewrite Hst].
    cbn [mEnableStatus set_g_mem]. rewrite Hst, map_assign_last by done. reflexivity.
  - done.
  - intros x Hx. cbn [g_mem set_g_mem]. rewrite !poke_out by (rewrite length_le_bytes; lia). done.
Qed.

(** Writing the disable register of a CPU's private interrupts disables nothing: the
    enable map keeps every entry it had and gains one for an interrupt number 1024 higher,
    which does not exist; the next update of the interrupt lines indexes the pending table
    out of range with it. *)
Theorem disable_write_undefined : active s 0 = true → 0 ≤ mRoundRobin s < 2 ^ 31 →
  ∃ s', writeDist 0x180 (2 ^ k) 4 0 s = (Ok tt, s') ∧
    mEnableStatus s' = [st ++ [(1024 + k, false)]] ∧
    (comb_logic s').1 = Err (UndefinedBehaviour "index out of range").
Proof.
  intros Hact Hrr. destruct disable_run as (m & Hrun & Hsz & Hm). eexists. split; [exact Hrun|]. split; [done|].
  set (s' := set_mEnableStatus _ _).
  assert (Hwf2 := Hwf). destruct Hwf2 as [Hinv Hcpus _ Hal Hl Hknown _]. rewrite Hst in Hknown. apply Forall_cons in Hknown as [H512 _].
  destruct (blocks 1 s Hwf 0 ltac:(lia)) as [Hb _].
  assert (tables s' 0) as Ht.
  { destruct (wf_tables 1 s Hwf 0 ltac:(lia)) as (H8 & Hrow & Ho & H1 & H2 & H3 & H4).
    unfold tables. subst s'. cbn. rewrite Hsz. done. }
  destruct (vector_at 1 s Hwf 0 ltac:(lia) mCpuQueue (inv_queues s Hinv)) as [q Hq].
  destruct (vector_at 1 s Hwf 0 ltac:(lia) mPendingInterrupts (inv_pending s Hinv)) as [row Hrow].
  assert (length row = 16%nat) as H16 by (by apply (Forall_lookup_1 (fun r : list Z => length r = 16%nat) _ _ _ (inv_words s Hinv)) in Hrow).
  apply andb_prop in Hact as [Ha1 Ha2].
  unfold comb_logic, m_bind at 1, m_get. change (mCpus s') with (mCpus s). rewrite Hcpus. change (length (seqZ 0 1)) with 1%nat.
  cbn [comb_loop]. unfold m_bind at 1, m_gets. change (mCpus s') with (mCpus s). rewrite Hcpus.
  change (Z.of_nat (length (seqZ 0 1))) with 1. rewrite Z.mod_1_r.
  unfold m_bind at 1, serve_cpu, m_bind at 1. rewrite (vget_ok s' mCpus 0 0) by (done || by subst s'; cbn; rewrite Hcpus).
  assert (isEnabled s' = (Ok true, s')) as Hen.
  { unfold isEnabled, m_bind, m_gets. change (g_cfg s') with (g_cfg s). rewrite word_at_aligned by apply Hal.
    rewrite rd32_ok by (subst s'; cbn; lia). cbn [m_ret].
    rewrite (peek_ext _ (g_mem s)), Ha1; [done|]. intros x Hx. apply Hm. lia. }
  assert (cpuTakesInterrupts 0 s' = (Ok true, s')) as Htk.
  { destruct (block_aligned 1 s Hwf 0 ltac:(lia)) as [Hba _].
    unfold cpuTakesInterrupts, m_bind, m_gets. change (g_cfg s') with (g_cfg s). rewrite word_at_aligned by done.
    rewrite rd32_ok by (subst s'; cbn; lia). cbn [m_ret].
    rewrite (peek_ext _ (g_mem s)), Ha2; [done|]. intros x Hx. apply Hm. lia. }
  unfold m_bind at 1. rewrite Hen. unfold m_bind at 1. rewrite Htk. cbn [andb negb].
  unfold m_bind at 1. rewrite (vget_ok s' mCpuQueue 0 q) by done.
  unfold m_bind at 1. rewrite (vget_ok s' mEnableStatus 0 (st ++ [(1024 + k, false)])) by done.
  unfold m_bind at 1. rewrite (forM_app _ _ _ _ _ (consider_all s' 0 st q Ht H512 Hq)).
  cbn [m_forM fst snd]. unfold m_bind at 1, consider, m_bind at 1. rewrite (vget_ok _ mPendingInterrupts 0 row) by done.
  unfold m_bind at 1, m_lift, vec_get. rewrite decide_True by (apply Z.div_pos; lia).
  rewrite lookup_ge_None_2; [done|]. rewrite H16. assert (32 ≤ (1024 + k) / 32) by (apply Z.div_le_lower_bound; lia). lia.
Qed.
End disable.

Lemma disable_write_undefined_witness :
  ∃ s', writeDist 0x180 (2 ^ 30) 4 0 (gic_one pending_40 []) = (Ok tt, s') ∧
    mEnableStatus s' = [[(40, true); (1054, false)]] ∧
    (comb_logic s').1 = Err (UndefinedBehaviour "index out of range").
Proof.
  apply (disable_write_undefined (gic_one pending_40 []) (gic_one_wf pending_40 [] eq_refl (NoDup_nil_2 : NoDup (@nil Z))) 30
    ltac:(lia) [(40, true)] eq_refl).
  - vm_compute. reflexivity.
  - cbn. lia.
Defined.

(** ** The mutex *)

(** An access that throws leaves the mutex held: after a software interrupt number
    arrives on an interrupt line, or after an access to an address in none of the four
    register regions, every later interrupt and every later access is undefined (it locks a
    mutex that its thread already holds). *)
Theorem throw_leaves_mutex_held s val irq t p delay cpu :
  g_locked s = false → irq mod 2 ^ 16 < 16 → source_cpu p = Some cpu →
  decode (g_cfg s) (u64 (addr p - mBaseAddress (t_space t))) = None →
  ∃ s1 s2, update_irq val irq s = (Err (Throw "GIC: Unexpected SGI in update_irq()."), s1) ∧
    gic_read t p delay s = (Err (Throw "Unknown GIC region."), s2) ∧
    ∀ s', s' = s1 ∨ s' = s2 →
      (∀ v i, update_irq v i s' = (Err (UndefinedBehaviour "lock of a held mutex"), s')) ∧
      (∀ t p d, gic_read t p d s' = (Err (UndefinedBehaviour "lock of a held mutex"), s')) ∧
      (∀ t p d, gic_write t p d s' = (Err (UndefinedBehaviour "lock of a held mutex"), s')).
Proof.
  intros Hu Hirq Hcpu Hdec.
  assert (lock s = (Ok tt, set_g_locked true s)) as Hlock by (unfold lock, m_bind, m_get; by rewrite Hu).
  exists (set_g_locked true s), (set_g_locked true s). split_and!.
  - unfold update_irq, m_bind at 1. rewrite Hlock. cbv zeta. unfold m_bind at 1.
    by rewrite !bool_decide_false by lia.
  - unfold gic_read, m_bind at 1. rewrite Hlock. unfold requester. rewrite Hcpu.
    unfold m_bind, m_ret, m_gets. cbn [g_cfg set_g_locked]. by rewrite Hdec.
  - intros s' [-> | ->]; done.
Qed.

Lemma throw_leaves_mutex_held_witness :
  ∃ s1, gic_read (mkTargetIf (mkAddrSpace 0 0xfffff) 4 false false 0 0)
          (mkPayload TLM_READ_COMMAND 0 (Some [0; 0; 0; 0]) 4 false 0 (Some 0)) 0 (gic_one pending_40 []) =
        (Err (Throw "Unknown GIC region."), s1) ∧
    update_irq 1 40 s1 = (Err (UndefinedBehaviour "lock of a held mutex"), s1).
Proof.
  destruct (throw_leaves_mutex_held (gic_one pending_40 []) 1 3 (mkTargetIf (mkAddrSpace 0 0xfffff) 4 false false 0 0)
    (mkPayload TLM_READ_COMMAND 0 (Some [0; 0; 0; 0]) 4 false 0 (Some 0)) 0 0) as (s1 & s2 & _ & Hr & Hall).
  - reflexivity.
  - vm_compute. reflexivity.
  - reflexivity.
  - vm_compute. reflexivity.
  - exists s2. split; [exact Hr|]. apply (Hall s2). by right.
Defined.

(** ** List registers *)

Lemma wr8_ok s a v : 0 ≤ a → a + 1 ≤ b_size (g_mem s) →
  wr8 a v s = (Ok tt, set_g_mem (poke (g_mem s) a (le_bytes 1 v)) s).
Proof. intros. unfold wr8, wr, m_bind, m_get, m_lift. by rewrite store_ok by (cbn; lia). Qed.

(** A virtual interrupt is queued from the list register that its CPU wrote, but the
    entry is then always read from the registers of CPU 0: on any other CPU, unless CPU 0
    happens to hold the same virtual interrupt in that register, the guest's end of
    interrupt is refused with an exception. *)
Theorem list_register_of_other_cpu s id k value :
  let c := g_cfg s in
  let vd := vdist_if c id in
  0 < id < 2 ^ 20 → 0 ≤ k < 64 → 0 ≤ mVDistBase c →
  vd + 0x200 ≤ vcpu_if c id → vcpu_if c id + 256 ≤ b_size (g_mem s) →
  mVCpuQueue s !! Z.to_nat id = Some [] →
  Z.testbit (b_at (g_mem s) (vcpu_if c id + 1)) 1 = false →
  State (vint_of value) ≠ 0 → VirtualID (vint_of value) ≠ 0xb →
  VirtualID (vint_of (le_value (peek (g_mem s) (mVDistBase c + 256 + 4 * k) 4))) ≠ VirtualID (vint_of value) →
  ∃ s', writeVDist (0x100 + 4 * k) value id s = (Ok tt, s') ∧
    mVCpuQueue s' !! Z.to_nat id = Some [k] ∧
    le_value (peek (g_mem s') (vd + 256 + 4 * k) 4) = u32 value ∧
    (writeVCpu 0x10 (VirtualID (vint_of value)) 4 id s').1 = Err (Throw "end of another interrupt").
Proof.
  intros c vd Hid Hk Hvd0 Hvc Hsz Hq Hmode Hst Hvb Hother.
  assert (vd = mVDistBase c + 4096 * id) as Hvd by (subst vd; unfold vdist_if; by rewrite u32_small by (unfold in_u32; lia)).
  assert (0 ≤ k / 32 < 2) as Hk32 by (split; [apply Z.div_pos; lia|apply Z.div_lt_upper_bound; lia]).
  assert ((0x100 + 4 * k - 0x100) / 4 = k) as Hwhich by (replace (0x100 + 4 * k - 0x100) with (k * 4) by lia; by apply Z.div_mul).
  set (a1 := vd + 0x30 + k / 32 * 4).
  set (s1 := set_mVCpuQueue (<[Z.to_nat id := [k]]> (mVCpuQueue s)) s).
  set (m1 := poke (g_mem s) a1 (le_bytes 1 (Z.ldiff (b_at (g_mem s) a1) (2 ^ (k mod 32))))).
  set (s2 := set_g_mem m1 s1).
  assert (mVCpuQueue s1 !! Z.to_nat id = Some [k]) as Hq1 by (apply list_lookup_insert_eq; by eapply lookup_lt_Some).
  assert (write_list_register (0x100 + 4 * k) value id s = (Ok tt, s2)) as Hlist.
  { unfold write_list_register, m_bind at 1, m_gets. fold c. fold vd. cbv zeta. rewrite Hwhich.
    rewrite (bool_decide_false (State _ = 0)) by done.
    unfold m_bind at 1, m_bind at 1. rewrite (vget_ok s mVCpuQueue id []) by (done || lia).
    cbn [vint_queued]. unfold m_bind at 1. cbn [m_ret negb m_when]. unfold m_bind at 1, push_vqueue.
    rewrite (vupd_ok s _ _ _ _ []) by (done || lia). cbn [app]. fold s1.
    unfold clear8, m_bind at 1. fold a1. rewrite rd8_ok by (subst s1; cbn; lia).
    rewrite wr8_ok by (subst s1; cbn; lia). cbn [g_mem set_mVCpuQueue]. fold m1. change (set_g_mem _ s1) with s2.
    unfold m_bind at 1. rewrite (bool_decide_false (VirtualID _ = 0xb)) by done. cbn [m_ret].
    unfold m_bind at 1. rewrite (vget_ok s2 mVCpuQueue id [k]) by (exact Hq1 || lia).
    by rewrite bool_decide_false by done. }
  set (m3 := poke m1 (vd + (0x100 + 4 * k)) (le_bytes 4 value)). set (s3 := set_g_mem m3 s2).
  exists s3. split_and!.
  - unfold writeVDist, m_bind at 1, m_gets. unfold m_bind at 1. rewrite bool_decide_true by lia. cbn [m_when].
    rewrite Hlist. unfold m_bind at 1. fold c. fold vd. rewrite wr32_ok by (subst s2; cbn; lia).
    rewrite !bool_decide_false by lia. done.
  - exact Hq1.
  - replace (vd + 256 + 4 * k) with (vd + (0x100 + 4 * k)) by lia. apply poke_word.
  - assert (∀ x, ~ (vd ≤ x < vd + 0x200) → b_at m3 x = b_at (g_mem s) x) as Hout.
    { intros x Hx. subst m3 m1. rewrite !poke_out; [done| |]; rewrite length_le_bytes; lia. }
    unfold writeVCpu, m_bind at 1, m_gets. change (is_eoi 0x10) with true. cbv iota zeta.
    change (g_cfg s3) with c. unfold m_bind at 1, ends_interrupt, m_bind at 1. rewrite rd8_ok by (subst s3; cbn; lia).
    cbn [m_ret g_mem set_g_mem]. change (g_mem s3) with m3. rewrite Hout by lia. rewrite Hmode. cbn [negb orb m_when].
    unfold m_bind at 1. rewrite (vget_ok s3 mVCpuQueue id [k]) by (exact Hq1 || lia).
    rewrite bool_decide_false by done. unfold m_bind at 1. cbn [front m_ret].
    unfold m_bind at 1, getVIntEntry, m_bind at 1, m_gets. change (g_cfg s3) with c. unfold m_bind at 1.
    rewrite rd32_ok by (subst s3; cbn; lia). cbn [m_ret]. change (g_mem s3) with m3.
    rewrite (peek_ext m3 (g_mem s)) by (intros x Hx; apply Hout; lia).
    rewrite bool_decide_false; [done|]. cbn [VirtualID vint_of] in *. rewrite Z.mod_mod by lia. congruence.
Qed.

Definition gic_two : gic :=
  mkGic gic400 (mkBytes (4 * 0x100001) (fun _ => 0)) [0; 1] [[]; []] [[]; []] [∅; ∅]
    [replicate 16 0; replicate 16 0] [[]; []] ∅ 0 false [].

Lemma list_register_of_other_cpu_witness :
  ∃ s', writeVDist (0x100 + 4 * 0) 0x10000021 1 gic_two = (Ok tt, s') ∧
    mVCpuQueue s' !! Z.to_nat 1 = Some [0] ∧
    (writeVCpu 0x10 0x21 4 1 s').1 = Err (Throw "end of another interrupt").
Proof.
  destruct (list_register_of_other_cpu gic_two 1 0 0x10000021) as (s' & Hw & Hq & _ & He).
  - lia.
  - lia.
  - cbn. lia.
  - vm_compute. discriminate.
  - vm_compute. discriminate.
  - reflexivity.
  - reflexivity.
  - vm_compute. discriminate.
  - vm_compute. discriminate.
  - vm_compute. discriminate.
  - exists s'. split; [exact Hw|]. split; [exact Hq|exact He].
Defined.
