(* ===== verification/Endian.v ===== *)
(** * Endianness

    [core/include/core/EndianHelper.hpp]: conversions between values and the byte arrays of
    transactions.  The host is the little-endian machine the program runs on: reading a [T]
    through a pointer is [le_value], storing it is [le_bytes].  The template arguments are
    arguments: the size of [T] in bytes and the two endianness flags. *)

From S2P Require Import Prelude LocalMemory.

(** ** Operations *)

(** [bswap_16], [bswap_32], [bswap_64]: the bytes of a value in the opposite order. *)
Definition bswap (n : nat) (v : Z) : Z := le_value (rev (le_bytes n v)).

(** The cascade of tests on [sizeof (T)]; [None] when no test returns. *)
Definition swap_by_size (size : Z) (v : Z) : option Z :=
  if bool_decide (size = 1) then Some v else
  if bool_decide (size = 2) then Some (bswap 2 v) else
  if bool_decide (size = 4) then Some (bswap 4 v) else
  if bool_decide (size = 8) then Some (bswap 8 v) else None.

Definition GuestToHost (size : Z) (IsGuestBigEndian IsHostBigEndian : bool) (TabVal : list Z) (NumBytes : Z) : result Z :=
  if negb (bool_decide (NumBytes = size)) then Err AssertionFailed else
  if bool_decide (Z.of_nat (length TabVal) < size)
  then Err (UndefinedBehaviour "access outside the data buffer") else
  let tmpVal := le_value (take (Z.to_nat size) TabVal) in
  if eqb IsGuestBigEndian IsHostBigEndian then Ok tmpVal else
  match swap_by_size size tmpVal with
  | Some v => Ok v
  | None => if bool_decide (size > 8) then Ok 0
            else Err (UndefinedBehaviour "end of a function without return")
  end.

(** [HostToGuest]: the bytes stored at [Ret]; [None] is the null pointer that is returned
    without storing anything. *)
Definition HostToGuest (size : Z) (IsGuestBigEndian IsHostBigEndian : bool) (Val : Z) (NumBytes : Z) : result (option (list Z)) :=
  if negb (bool_decide (NumBytes = size)) then Err AssertionFailed else
  if eqb IsGuestBigEndian IsHostBigEndian then Ok (Some (le_bytes (Z.to_nat size) Val)) else
  match swap_by_size size Val with
  | Some v => Ok (Some (le_bytes (Z.to_nat size) v))
  | None => if bool_decide (size > 8) then Ok None
            else Err (UndefinedBehaviour "read of an indeterminate value")
  end.

(** [IssValToByteArray]: the 64-bit result, whose first bytes are the array.  The [memmove] of
    the big-endian case reads from byte [8 - NumBytes] of the value. *)
Definition IssValToByteArray (IsIssBigEndian : bool) (Val NumBytes : Z) : Z :=
  if IsIssBigEndian then le_value (take (Z.to_nat NumBytes) (drop (Z.to_nat (8 - NumBytes)) (le_bytes 8 Val)))
  else Val.

(** [ByteArrayToIssVal]: the bytes at the low or at the high end of a 64-bit value. *)
Definition ByteArrayToIssVal (IsIssBigEndian : bool) (TabVal : list Z) (NumBytes : Z) : Z :=
  let b := take (Z.to_nat NumBytes) TabVal in
  if IsIssBigEndian then le_value (replicate (Z.to_nat (8 - NumBytes)) 0 ++ b) else le_value b.

(** ** Round trips *)

Lemma le_bytes_value l : Forall is_byte l → le_bytes (length l) (le_value l) = l.
Proof.
  induction 1 as [|b l Hb Hl IH]; [done|]. cbn [le_value le_bytes length]. unfold is_byte in Hb.
  replace (b + 256 * le_value l) with (le_value l * 256 + b) by lia.
  rewrite Z.div_add_l, Z.div_small, Z.add_0_r, IH by lia. f_equal.
  unfold u8, wrap. change (2 ^ 8) with 256. rewrite Z.add_comm, Z_mod_plus_full. by apply Z.mod_small.
Qed.

Lemma le_value_app l1 l2 : le_value (l1 ++ l2) = le_value l1 + 256 ^ Z.of_nat (length l1) * le_value l2.
Proof.
  induction l1 as [|b l1 IH]; [cbn; lia|]. cbn [le_value app length]. rewrite IH, Nat2Z.inj_succ, Z.pow_succ_r by lia. lia.
Qed.

Lemma le_value_zeros n : le_value (replicate n 0) = 0.
Proof. induction n as [|n IH]; [done|]. cbn. by rewrite IH. Qed.

Lemma rev_bytes n v : Forall is_byte (rev (le_bytes n v)).
Proof. apply Forall_rev, le_bytes_byte. Qed.

Lemma bswap_bytes n v : le_bytes n (bswap n v) = rev (le_bytes n v).
Proof.
  unfold bswap. rewrite <- (length_le_bytes n v) at 1. rewrite <- (length_rev (le_bytes n v)).
  apply le_bytes_value, rev_bytes.
Qed.

Lemma bswap_involutive n v : bswap n (bswap n v) = v mod 256 ^ Z.of_nat n.
Proof. unfold bswap at 1. rewrite bswap_bytes, rev_involutive. apply le_value_bytes. Qed.

Lemma bswap_range n v : 0 ≤ bswap n v < 256 ^ Z.of_nat n.
Proof.
  unfold bswap. pose proof (le_value_bound _ (rev_bytes n v)) as H.
  by rewrite length_rev, length_le_bytes in H.
Qed.

(** The first bytes of a value are its low part, the others its high part. *)
Lemma le_value_take_drop l k : Forall is_byte l → (k ≤ length l)%nat →
  le_value (take k l) = le_value l mod 256 ^ Z.of_nat k
  ∧ le_value (drop k l) = le_value l / 256 ^ Z.of_nat k.
Proof.
  intros Hl Hk. pose proof (le_value_bound (take k l) (Forall_take _ k _ Hl)) as Hb.
  rewrite length_take_le in Hb by done.
  assert (le_value l = 256 ^ Z.of_nat k * le_value (drop k l) + le_value (take k l)) as Heq.
  { rewrite <- (take_drop k l) at 1. rewrite le_value_app, length_take_le by done. lia. }
  split; [eapply Z.mod_unique|eapply Z.div_unique]; eauto.
Qed.

(** The sizes that are converted. *)
Definition word_size (size : Z) : Prop := size = 1 ∨ size = 2 ∨ size = 4 ∨ size = 8.

Lemma swap_by_size_ok size v : word_size size → 0 ≤ v < 256 ^ size →
  swap_by_size size v = Some (bswap (Z.to_nat size) v).
Proof.
  intros Hs Hv. unfold swap_by_size. destruct Hs as [->|[->|[->| ->]]]; [|reflexivity..].
  unfold bswap. change (Z.to_nat 1) with 1%nat. cbn [le_bytes rev app le_value].
  rewrite bool_decide_true by done. f_equal. unfold u8, wrap. rewrite Z.mod_small by lia. lia.
Qed.

(** a value of 1, 2, 4 or 8 bytes that is written for the guest and read back is the same
    value, whatever the two endiannesses; when they differ the guest sees the bytes in the
    opposite order.  A length that is not the size of the value fails the assertion. *)
Theorem endian_roundtrip (size v : Z) (g h : bool) :
  word_size size → 0 ≤ v < 256 ^ size →
  ∃ b, HostToGuest size g h v size = Ok (Some b) ∧ Z.of_nat (length b) = size
    ∧ GuestToHost size g h b size = Ok v
    ∧ b = (if eqb g h then le_bytes (Z.to_nat size) v else rev (le_bytes (Z.to_nat size) v))
    ∧ ∀ n, n ≠ size → GuestToHost size g h b n = Err AssertionFailed
                      ∧ HostToGuest size g h v n = Err AssertionFailed.
Proof.
  intros Hs Hv. assert (0 < size) as Hp by (unfold word_size in Hs; lia).
  assert (∀ w, le_value (le_bytes (Z.to_nat size) w) = w mod 256 ^ size) as Hle
    by (intros w; by rewrite le_value_bytes, Z2Nat.id by lia).
  set (b := if eqb g h then le_bytes (Z.to_nat size) v else rev (le_bytes (Z.to_nat size) v)).
  assert (Z.of_nat (length b) = size) as Hb.
  { unfold b. destruct (eqb g h); rewrite ?length_rev, length_le_bytes; lia. }
  exists b. unfold HostToGuest, GuestToHost. rewrite !bool_decide_true by done. cbn [negb].
  rewrite (bool_decide_false (Z.of_nat (length b) < size)) by lia. rewrite take_ge by lia.
  rewrite swap_by_size_ok by done. split_and!; try done.
  - unfold b. destruct (eqb g h); [done|]. by rewrite bswap_bytes.
  - unfold b. destruct (eqb g h); [by rewrite Hle, Z.mod_small|]. fold (bswap (Z.to_nat size) v).
    assert (0 ≤ bswap (Z.to_nat size) v < 256 ^ size) as Hr.
    { pose proof (bswap_range (Z.to_nat size) v) as H. by rewrite Z2Nat.id in H by lia. }
    rewrite swap_by_size_ok by done. rewrite bswap_involutive, Z2Nat.id by lia. by rewrite Z.mod_small.
  - intros n Hn. by rewrite bool_decide_false.
Qed.

Lemma endian_roundtrip_witness :
  ∃ b, HostToGuest 4 true false 0x12345678 4 = Ok (Some b) ∧ GuestToHost 4 true false b 4 = Ok 0x12345678
     ∧ b = [0x12; 0x34; 0x56; 0x78].
Proof.
  destruct (endian_roundtrip 4 0x12345678 true false) as (b & H1 & _ & H2 & H3 & _).
  - unfold word_size. lia.
  - lia.
  - exists b. split_and!; [exact H1|exact H2|]. rewrite H3. reflexivity.
Defined.

(** the conversions between simulator values and byte arrays.  For a little-endian simulator
    the round trip through the first [n] bytes keeps the [n] low bytes of the value; for a
    big-endian one it keeps the [n] high bytes and clears the others, although the relevant
    bytes are said to be the least significant ones in both cases. *)
Theorem iss_value_roundtrip (v n : Z) : 0 ≤ v < 2 ^ 64 → 0 < n ≤ 8 →
  ByteArrayToIssVal false (le_bytes 8 (IssValToByteArray false v n)) n = v mod 256 ^ n
  ∧ ByteArrayToIssVal true (le_bytes 8 (IssValToByteArray true v n)) n = v - v mod 256 ^ (8 - n).
Proof.
  intros Hv Hn. assert (2 ^ 64 = 256 ^ 8) as H64 by reflexivity.
  assert (∀ k w, 0 ≤ k ≤ 8 → le_value (take (Z.to_nat k) (le_bytes 8 w)) = w mod 256 ^ k) as Htake.
  { intros k w Hk. rewrite (proj1 (le_value_take_drop (le_bytes 8 w) (Z.to_nat k) (le_bytes_byte 8 w)
      ltac:(rewrite length_le_bytes; lia))). rewrite le_value_bytes, Z2Nat.id by lia.
    change (Z.of_nat 8) with 8.
    replace (256 ^ 8) with (256 ^ k * 256 ^ (8 - k)) by (rewrite <- Z.pow_add_r by lia; f_equal; lia).
    rewrite Z.rem_mul_r by lia. rewrite Z.mul_comm, Z_mod_plus_full. apply Z.mod_mod. lia. }
  split; unfold ByteArrayToIssVal, IssValToByteArray; [apply Htake; lia|].
  rewrite le_value_app, le_value_zeros, length_replicate, Z2Nat.id, Z.add_0_l by lia.
  rewrite Htake by lia. set (k := 8 - n) in *.
  rewrite take_ge by (rewrite length_drop, length_le_bytes; lia).
  rewrite (proj2 (le_value_take_drop (le_bytes 8 v) (Z.to_nat k) (le_bytes_byte 8 v)
      ltac:(rewrite length_le_bytes; lia))).
  rewrite le_value_bytes, Z2Nat.id, (Z.mod_small v (256 ^ Z.of_nat 8)) by (simpl; lia).
  rewrite Z.mod_small; [pose proof (Z.div_mod v (256 ^ k) ltac:(lia)); lia|].
  split; [apply Z.div_pos; lia|]. apply Z.div_lt_upper_bound; [lia|].
  rewrite <- Z.pow_add_r by lia. replace (k + n) with 8 by lia. lia.
Qed.

Lemma iss_value_roundtrip_witness :
  ByteArrayToIssVal true (le_bytes 8 (IssValToByteArray true 0x1122 2)) 2 = 0.
Proof. destruct (iss_value_roundtrip 0x1122 2) as [_ H]; [lia|lia|]. exact H. Defined.
