(* ===== verification/Interrupts.v ===== *)
(** * Interrupt lines

    [components/compute/InterruptIf.hpp]: what can be interrupted, a class here, with the
    interrupt controller [gic] as an instance; [components/peripherals/InterruptSource.cpp]:
    what raises an interrupt; [components/peripherals/ItCtrl.cpp]: the simple controller that
    maps a range of addresses to each interrupt line.

    [ItCtrl] holds pointers to the modules it interrupts, and several lines may point to the
    same one: the modules are in a store, and a pointer is an index of it or null. *)

From S2P Require Import Prelude AddrSpace Tlm LocalMemory Endian TargetIf Gic.

(** ** The interface *)

Class InterruptIf (P : Type) := { deliver : Z → Z → M P unit }.

#[global] Instance gic_InterruptIf : InterruptIf gic := {| deliver := Gic.update_irq |}.

(** A module that only records the calls. *)
#[global] Instance recorder_InterruptIf : InterruptIf (list (Z * Z)) :=
  {| deliver val line := m_modify (fun l => l ++ [(val, line)]) |}.

(** ** Interrupt sources *)

(** [mInterruptParent] is whether the pointer is set; the parent itself is the state. *)
Record InterruptSource := mkSource { mInterruptParent : bool; mInterruptLine : Z }.

Definition new_InterruptSource : InterruptSource := mkSource false 0.
Definition setInterruptParent (s : InterruptSource) : InterruptSource := mkSource true (mInterruptLine s).
Definition setInterruptLine (index : Z) (s : InterruptSource) : InterruptSource :=
  mkSource (mInterruptParent s) index.

Section source.
Context {P : Type} `{!InterruptIf P}.

Definition raiseInterrupt (s : InterruptSource) : M P unit :=
  if negb (mInterruptParent s) then m_ret tt else deliver 1 (mInterruptLine s).
Definition lowerInterrupt (s : InterruptSource) : M P unit :=
  if negb (mInterruptParent s) then m_ret tt else deliver 0 (mInterruptLine s).
End source.

(** ** Latencies ([core/LatencyIf.cpp]) *)

Record LatencyIf := mkLatency {
  mEnableLatency : bool;
  mCyclesPerRead : Z;
  mCyclesPerWrite : Z;
  mInitialCyclesPerAccess : Z;
  mCycleDuration : Z }.

Definition new_LatencyIf : LatencyIf := mkLatency false 0 0 0 1.

(** The delay of an access of [len] bytes with words of [word] bytes. *)
Definition access_time (l : LatencyIf) (cycles len word delay : Z) : Z :=
  if mEnableLatency l
  then delay + ((mInitialCyclesPerAccess l + cycles) * (len / word)) * mCycleDuration l else delay.

(** ** The interrupt controller [ItCtrl] *)

Section itctrl.
Context {P : Type} `{!InterruptIf P}.

Record ItCtrl := mkItCtrl {
  mLineCount : Z;
  mLineSize : Z;
  mLines : list Z;
  mModules : list (option nat);
  itc_latency : LatencyIf;
  itc_mem : bytes;
  modules : list P }.

Definition set_lines (l : list Z) (m : list (option nat)) (s : ItCtrl) : ItCtrl :=
  mkItCtrl (mLineCount s) (mLineSize s) l m (itc_latency s) (itc_mem s) (modules s).
Definition set_modules (ps : list P) (s : ItCtrl) : ItCtrl :=
  mkItCtrl (mLineCount s) (mLineSize s) (mLines s) (mModules s) (itc_latency s) (itc_mem s) ps.
Definition set_itc_mem (b : bytes) (s : ItCtrl) : ItCtrl :=
  mkItCtrl (mLineCount s) (mLineSize s) (mLines s) (mModules s) (itc_latency s) b (modules s).

(** The constructor; [mem] is the memory of the target, [ps] the modules of the platform. *)
Definition new_ItCtrl (LineCount LineSize : Z) (mem : bytes) (ps : list P) : ItCtrl :=
  mkItCtrl LineCount LineSize (replicate (Z.to_nat LineCount) 0) (replicate (Z.to_nat LineCount) None)
    new_LatencyIf mem ps.

(** [Map]: the index is tested, but the assignments follow whatever the test says. *)
Definition Map (LineIdx : Z) (Module : nat) (LineNumber : Z) : M ItCtrl unit :=
  s <- m_get ;;
  _ <- m_lift (vec_get (mModules s) LineIdx) ;;
  _ <- m_lift (vec_get (mLines s) LineIdx) ;;
  l <- m_lift (vec_set (mLines s) LineIdx LineNumber) ;;
  m <- m_lift (vec_set (mModules s) LineIdx (Some Module)) ;;
  m_modify (set_lines l m).

Definition itc_read (t : target_if) (p : payload) (delay : Z) : M ItCtrl reply :=
  m_throw (Throw "Not supposed to read ITCTRL").

(** A call through a pointer to a module. *)
Definition call_module (ptr : option nat) (val line : Z) : M ItCtrl unit := fun s =>
  match ptr ≫= fun i => (fun m => (i, m)) <$> modules s !! i with
  | Some (i, m) => let '(r, m') := deliver val line m in (r, set_modules (<[i := m']> (modules s)) s)
  | None => (Err (UndefinedBehaviour "null pointer"), s)
  end.

Definition itc_write (t : target_if) (p : payload) (delay : Z) : M ItCtrl reply :=
  s <- m_get ;;
  let delay := access_time (itc_latency s) (mCyclesPerWrite (itc_latency s)) (len p) 4 delay in
  if bool_decide (mLineSize s = 0) then m_throw (UndefinedBehaviour "division by zero") else
  let TargetLine := u32 (u64 (addr p - mBaseAddress (t_space t)) / mLineSize s) in
  b <- m_lift (match ptr p with Some b => Ok b | None => Err (UndefinedBehaviour "null pointer") end) ;;
  Value <- m_lift (GuestToHost 4 true true b (len p)) ;;
  m <- m_lift (vec_get (mModules s) TargetLine) ;;
  l <- m_lift (vec_get (mLines s) TargetLine) ;;
  call_module m Value l ;;;
  m_ret (mkReply TLM_OK_RESPONSE (ptr p) delay false).

#[global] Instance itctrl_target : Target ItCtrl := {|
  local_mem := itc_mem;
  with_local_mem := set_itc_mem;
  read_callback := itc_read;
  write_callback := itc_write |}.

(** ** What a write does *)

Lemma Map_ok s idx module line :
  0 ≤ idx < mLineCount s → Z.of_nat (length (mLines s)) = mLineCount s →
  Z.of_nat (length (mModules s)) = mLineCount s →
  Map idx module line s = (Ok tt, set_lines (<[Z.to_nat idx := line]> (mLines s))
                                            (<[Z.to_nat idx := Some module]> (mModules s)) s).
Proof.
  intros Hi Hl Hm. unfold Map.
  destruct (vec_get_ok (mModules s) idx) as (x & Hx & _); [lia|].
  destruct (vec_get_ok (mLines s) idx) as (y & Hy & _); [lia|].
  m_exec. unfold m_bind, m_lift. rewrite Hx, Hy, !vec_set_in by lia. done.
Qed.

(** A four-byte write in the range of a mapped line. *)
Lemma itc_write_ok (t : target_if) s idx ptr_ line tgt b p delay :
  mLines s !! Z.to_nat idx = Some line → mModules s !! Z.to_nat idx = Some (Some ptr_) →
  modules s !! ptr_ = Some tgt → 0 ≤ idx < 2 ^ 32 → 0 < mLineSize s →
  mBaseAddress (t_space t) + idx * mLineSize s ≤ addr p
    < mBaseAddress (t_space t) + (idx + 1) * mLineSize s →
  addr p - mBaseAddress (t_space t) < 2 ^ 64 → len p = 4 → ptr p = Some b → (4 ≤ length b)%nat →
  itc_write t p delay s
  = (match deliver (le_value (take 4 b)) line tgt with
     | (Ok _, tgt') => (Ok (mkReply TLM_OK_RESPONSE (Some b)
                          (access_time (itc_latency s) (mCyclesPerWrite (itc_latency s)) 4 4 delay) false),
                        set_modules (<[ptr_ := tgt']> (modules s)) s)
     | (Err e, tgt') => (Err e, set_modules (<[ptr_ := tgt']> (modules s)) s)
     end).
Proof.
  intros Hl Hm Hmod Hi Hs Ha Hoff Hlen Hp Hb. unfold itc_write. m_exec. cbv zeta.
  rewrite bool_decide_false by lia.
  assert (u64 (addr p - mBaseAddress (t_space t)) / mLineSize s = idx) as Hidx.
  { rewrite u64_small by (unfold in_u64; nia). symmetry.
    apply (Z.div_unique _ _ _ (addr p - mBaseAddress (t_space t) - idx * mLineSize s)); lia. }
  rewrite Hidx, u32_small by (unfold in_u32; lia). rewrite Hp, Hlen.
  unfold m_bind, m_lift. unfold GuestToHost. rewrite bool_decide_true by done. cbn [negb].
  rewrite bool_decide_false by lia. cbn [eqb].
  rewrite (vec_get_Some _ _ _ (proj1 Hi) Hm), (vec_get_Some _ _ _ (proj1 Hi) Hl).
  unfold call_module. simpl. rewrite Hmod. simpl.
  destruct (deliver _ line tgt) as [[[]|e] tgt']; done.
Qed.

(** the simple interrupt controller delivers: after a line was mapped to a module, a
    four-byte write in the address range of the line, through the transport of the target,
    calls the module with the value written and the line number of the mapping; no other
    module is called and the mapping is unchanged. *)
Theorem itctrl_delivers (c : component ItCtrl) (idx line v delay : Z) (ptr_ : nat) (tgt tgt' : P) (p : payload) :
  let s := c_dev c in let sp := t_space (c_if c) in
  0 ≤ idx < mLineCount s → mLineCount s < 2 ^ 32 → 0 < mLineSize s →
  Z.of_nat (length (mLines s)) = mLineCount s → Z.of_nat (length (mModules s)) = mLineCount s →
  0 ≤ mBaseAddress sp → mEndAddress sp = mBaseAddress sp + mLineCount s * mLineSize s - 1 → mEndAddress sp < max64 →
  modules s !! ptr_ = Some tgt → deliver v line tgt = (Ok tt, tgt') →
  cmd p = TLM_WRITE_COMMAND → len p = 4 → ptr p = Some (le_bytes 4 v) → 0 ≤ v < 2 ^ 32 →
  byte_enable_ptr p = false → byte_enable_len p = 0 →
  mBaseAddress sp + idx * mLineSize s ≤ addr p → addr p + 4 ≤ mBaseAddress sp + (idx + 1) * mLineSize s →
  ∃ c', (on_device (Map idx ptr_ line) ;;; b_transport p delay) c
        = (Ok (mkReply TLM_OK_RESPONSE (Some (le_bytes 4 v))
             (access_time (itc_latency s) (mCyclesPerWrite (itc_latency s)) 4 4 delay) false), c')
    ∧ modules (c_dev c') = <[ptr_ := tgt']> (modules s)
    ∧ mLines (c_dev c') = <[Z.to_nat idx := line]> (mLines s)
    ∧ mModules (c_dev c') = <[Z.to_nat idx := Some ptr_]> (mModules s).
Proof.
  intros s sp Hi Hc Hs Hl Hm Hb He Hmax Hmod Hdel Hcmd Hlen Hp Hv Hbe Hbl Ha1 Ha2. unfold max64 in *.
  assert (on_device (Map idx ptr_ line) c = (Ok tt, mkComponent (c_if c) (set_lines
    (<[Z.to_nat idx := line]> (mLines s)) (<[Z.to_nat idx := Some ptr_]> (mModules s)) s))) as E
    by (unfold on_device; fold s; by rewrite Map_ok).
  m_exec_by E. unfold b_transport. m_exec. cbn [c_if]. cbv zeta. fold sp.
  rewrite (bool_decide_false (addr p < _)) by nia.
  assert (getSize sp = Ok (mEndAddress sp - mBaseAddress sp + 1)) as Hsz.
  { unfold getSize. rewrite bool_decide_false by nia. by rewrite u64_small by (unfold in_u64; nia). }
  assert (idx * mLineSize s + mLineSize s ≤ mLineCount s * mLineSize s) by nia.
  unfold m_bind, m_lift. rewrite Hsz. cbn [orb]. rewrite Hlen, !u64_small by (unfold in_u64; nia).
  rewrite !(bool_decide_false (_ < _)) by nia. rewrite Hbe, Hbl, Hcmd. cbn. rewrite andb_false_r.
  rewrite bool_decide_false by done. unfold CoreFunction, m_bind, m_get. rewrite Hcmd. unfold on_device. cbn [c_dev c_if].
  rewrite ?(bool_decide_false (TLM_WRITE_COMMAND = _)) by done. cbn [write_callback itctrl_target c_if c_dev].
  rewrite (itc_write_ok (c_if c) _ idx ptr_ line tgt (le_bytes 4 v)); cbn [mLines mModules modules set_lines mLineSize];
    rewrite ?length_le_bytes; try done; try (fold sp; nia).
  - change (take 4 (le_bytes 4 v)) with (le_bytes 4 v). rewrite le_value_bytes.
    rewrite Z.mod_small by (cbn; lia). rewrite Hdel. cbn. eexists. split; [reflexivity|]. done.
  - apply list_lookup_insert_eq. lia.
  - apply list_lookup_insert_eq. lia.
Qed.
End itctrl.

(** Two lines of eight bytes and two modules. *)
Definition sample_itctrl : component (@ItCtrl (list (Z * Z))) :=
  mkComponent (mkTargetIf (mkAddrSpace 256 271) 1 false false 0 0)
    (new_ItCtrl 2 8 (mkBytes 16 (fun _ => 0)) [[]; []]).

Lemma itctrl_delivers_witness :
  ∃ c', (on_device (Map 1 0 42) ;;; b_transport (mkPayload TLM_WRITE_COMMAND 264 (Some [1; 0; 0; 0]) 4 false 0 None) 0)
          sample_itctrl
        = (Ok (mkReply TLM_OK_RESPONSE (Some [1; 0; 0; 0]) 0 false), c')
     ∧ modules (c_dev c') = [[(1, 42)]; []].
Proof.
  destruct (itctrl_delivers sample_itctrl 1 42 1 0 0 [] [(1, 42)]
    (mkPayload TLM_WRITE_COMMAND 264 (Some [1; 0; 0; 0]) 4 false 0 None)) as (c' & E & Hm & _);
    try done; try (cbn; lia).
  exists c'. split; [exact E|exact Hm].
Defined.

(** mapping a line beyond the last one is not refused: the message is printed and the entry
    is then accessed outside the arrays; and reading any register throws, although reads are
    documented to have no effect. *)
Theorem itctrl_map_out_of_range {P} `{!InterruptIf P} (s : @ItCtrl P) (idx line : Z) (module : nat)
    (t : target_if) (p : payload) (delay : Z) :
  mLineCount s ≤ idx → Z.of_nat (length (mModules s)) = mLineCount s →
  Map idx module line s = (Err (UndefinedBehaviour "index out of range"), s)
  ∧ itc_read t p delay s = (Err (Throw "Not supposed to read ITCTRL"), s).
Proof.
  intros Hi Hm. split; [|done]. unfold Map. m_exec. unfold m_bind, m_lift, vec_get.
  case_decide; [|done]. by rewrite lookup_ge_None_2 by lia.
Qed.

Lemma itctrl_map_out_of_range_witness :
  Map 2 0 7 (c_dev sample_itctrl) = (Err (UndefinedBehaviour "index out of range"), c_dev sample_itctrl).
Proof.
  apply (itctrl_map_out_of_range (c_dev sample_itctrl) 2 7 0 (c_if sample_itctrl)
    (mkPayload TLM_READ_COMMAND 256 None 4 false 0 None) 0); done.
Defined.
