(* ===== verification/Uart.v ===== *)
(** * UARTs

    [components/peripherals/CommonUartInterface.cpp]: the part the UARTs share: the channel to
    the outside, the interrupt flags and the polling loop that raises and lowers the interrupt;
    [xuartps.cpp] and [xuartps.hpp]: the Cadence UART with its receive FIFO; [PL011Uart.cpp];
    [uart.cpp].  Each is a target, an instance of [Target].

    The channel is a pair of file descriptors of the operating system: [chan_in] is what can be
    read from it now, [chan_out] what was written to it.  A read of a descriptor that has
    nothing blocks the simulation; it is an error here.  The registers are in the byte memory
    of the target and are accessed with the macros of the file [reg], which read and write
    64 bits at a time. *)

From S2P Require Import Prelude AddrSpace Tlm LocalMemory Endian TargetIf Interrupts.

(** ** The common interface *)

Record CommonUart := mkCommon {
  mIntEnable : bool;
  mOutIntEnable : bool;
  mInterrupting : bool;
  mOutInt : bool;
  mHasTimeout : bool;
  mTimeoutCounter : Z;
  mToIntEnable : bool;
  mBaudRate : Z;
  chan_in : list Z;
  chan_out : list Z;
  irq_source : InterruptSource }.

Definition set_mIntEnable x (u : CommonUart) : CommonUart :=
  mkCommon x (mOutIntEnable u) (mInterrupting u) (mOutInt u) (mHasTimeout u) (mTimeoutCounter
    u) (mToIntEnable u) (mBaudRate u) (chan_in u) (chan_out u) (irq_source u).
Definition set_mOutIntEnable x (u : CommonUart) : CommonUart :=
  mkCommon (mIntEnable u) x (mInterrupting u) (mOutInt u) (mHasTimeout u) (mTimeoutCounter u)
    (mToIntEnable u) (mBaudRate u) (chan_in u) (chan_out u) (irq_source u).
Definition set_mInterrupting x (u : CommonUart) : CommonUart :=
  mkCommon (mIntEnable u) (mOutIntEnable u) x (mOutInt u) (mHasTimeout u) (mTimeoutCounter u)
    (mToIntEnable u) (mBaudRate u) (chan_in u) (chan_out u) (irq_source u).
Definition set_mOutInt x (u : CommonUart) : CommonUart :=
  mkCommon (mIntEnable u) (mOutIntEnable u) (mInterrupting u) x (mHasTimeout u)
    (mTimeoutCounter u) (mToIntEnable u) (mBaudRate u) (chan_in u) (chan_out u) (irq_source u).
Definition set_mHasTimeout x (u : CommonUart) : CommonUart :=
  mkCommon (mIntEnable u) (mOutIntEnable u) (mInterrupting u) (mOutInt u) x (mTimeoutCounter
    u) (mToIntEnable u) (mBaudRate u) (chan_in u) (chan_out u) (irq_source u).
Definition set_mTimeoutCounter x (u : CommonUart) : CommonUart :=
  mkCommon (mIntEnable u) (mOutIntEnable u) (mInterrupting u) (mOutInt u) (mHasTimeout u) x
    (mToIntEnable u) (mBaudRate u) (chan_in u) (chan_out u) (irq_source u).
Definition set_mToIntEnable x (u : CommonUart) : CommonUart :=
  mkCommon (mIntEnable u) (mOutIntEnable u) (mInterrupting u) (mOutInt u) (mHasTimeout u)
    (mTimeoutCounter u) x (mBaudRate u) (chan_in u) (chan_out u) (irq_source u).
Definition set_mBaudRate x (u : CommonUart) : CommonUart :=
  mkCommon (mIntEnable u) (mOutIntEnable u) (mInterrupting u) (mOutInt u) (mHasTimeout u)
    (mTimeoutCounter u) (mToIntEnable u) x (chan_in u) (chan_out u) (irq_source u).
Definition set_chan_in x (u : CommonUart) : CommonUart :=
  mkCommon (mIntEnable u) (mOutIntEnable u) (mInterrupting u) (mOutInt u) (mHasTimeout u)
    (mTimeoutCounter u) (mToIntEnable u) (mBaudRate u) x (chan_out u) (irq_source u).
Definition set_chan_out x (u : CommonUart) : CommonUart :=
  mkCommon (mIntEnable u) (mOutIntEnable u) (mInterrupting u) (mOutInt u) (mHasTimeout u)
    (mTimeoutCounter u) (mToIntEnable u) (mBaudRate u) (chan_in u) x (irq_source u).
Definition set_irq_source x (u : CommonUart) : CommonUart :=
  mkCommon (mIntEnable u) (mOutIntEnable u) (mInterrupting u) (mOutInt u) (mHasTimeout u)
    (mTimeoutCounter u) (mToIntEnable u) (mBaudRate u) (chan_in u) (chan_out u) x.

(** The constructor; the channel is what [selectChannel] found. *)
Definition new_CommonUart (input : list Z) (src : InterruptSource) : CommonUart :=
  mkCommon false false false true false 0 false 115200 input [] src.

Definition common_inputReady (u : CommonUart) : bool :=
  match chan_in u with [] => false | _ => true end.

Definition writeByte (c : Z) : M CommonUart unit :=
  m_modify (fun u => set_chan_out (chan_out u ++ [c]) u).

Definition common_readByte : M CommonUart Z :=
  u <- m_get ;;
  match chan_in u with
  | c :: l => m_modify (set_chan_in l) ;;; m_ret c
  | [] => m_throw (UndefinedBehaviour "blocking read of an empty channel")
  end.

(** ** Registers: the macros of the file [reg] *)

(** A 64-bit word of the local memory. *)
Definition get64 (m : bytes) (reg : Z) : result Z :=
  let* b := load m reg 8 in Ok (le_value b).
Definition put64 (m : bytes) (reg v : Z) : result bytes := store m reg (le_bytes 8 v).

Definition GET_BITS (m : bytes) (reg off len : Z) : result Z :=
  let* w := get64 m reg in Ok (Z.land (Z.shiftr w off) (2 ^ len - 1)).
Definition SET_BITS (m : bytes) (reg off len v : Z) : result bytes :=
  let* w := get64 m reg in
  put64 m reg (Z.lor (Z.land w (Z.lnot (Z.shiftl (2 ^ len - 1) off))) (Z.shiftl v off)).
Definition GET_BIT (m : bytes) (reg off : Z) : result bool :=
  let* b := GET_BITS m reg off 1 in Ok (bool_decide (b ≠ 0)).
Definition SET_BIT (m : bytes) (reg off : Z) (v : bool) : result bytes :=
  SET_BITS m reg off 1 (if v then 1 else 0).

(** [REG (name, reg, 4)]: the test on the offset. *)
Definition in_reg (offs reg : Z) : bool := bool_decide (reg ≤ offs) && bool_decide (offs < reg + 4).

(** [*( char * )payload.ptr] and [*( uint32_t * )payload.ptr], read and written. *)
Definition ptr_byte (b : option (list Z)) : result Z :=
  match b with
  | Some (c :: _) => Ok c
  | Some [] => Err (UndefinedBehaviour "access outside the data buffer")
  | None => Err (UndefinedBehaviour "null pointer")
  end.
Definition put_byte (b : option (list Z)) (c : Z) : result (option (list Z)) :=
  match b with
  | Some (_ :: l) => Ok (Some (c :: l))
  | Some [] => Err (UndefinedBehaviour "access outside the data buffer")
  | None => Err (UndefinedBehaviour "null pointer")
  end.
Definition ptr_word (b : option (list Z)) : result Z :=
  match b with
  | Some l => if bool_decide (4 ≤ length l)%nat then Ok (le_value (take 4 l))
              else Err (UndefinedBehaviour "access outside the data buffer")
  | None => Err (UndefinedBehaviour "null pointer")
  end.
Definition put_word (b : option (list Z)) (v : Z) : result (option (list Z)) :=
  match b with
  | Some l => if bool_decide (4 ≤ length l)%nat then Ok (Some (le_bytes 4 v ++ drop 4 l))
              else Err (UndefinedBehaviour "access outside the data buffer")
  | None => Err (UndefinedBehaviour "null pointer")
  end.

(** ** The Cadence UART *)

Record xuartps := mkXuart {
  x_common : CommonUart;
  mInFifo : list Z;
  mRxEnable : option bool;
  mTxEnable : option bool;
  x_mem : bytes }.

Definition set_x_common x (u : xuartps) : xuartps :=
  mkXuart x (mInFifo u) (mRxEnable u) (mTxEnable u) (x_mem u).
Definition set_mInFifo x (u : xuartps) : xuartps :=
  mkXuart (x_common u) x (mRxEnable u) (mTxEnable u) (x_mem u).
Definition set_mRxEnable x (u : xuartps) : xuartps :=
  mkXuart (x_common u) (mInFifo u) x (mTxEnable u) (x_mem u).
Definition set_mTxEnable x (u : xuartps) : xuartps :=
  mkXuart (x_common u) (mInFifo u) (mRxEnable u) x (x_mem u).
Definition set_x_mem x (u : xuartps) : xuartps :=
  mkXuart (x_common u) (mInFifo u) (mRxEnable u) (mTxEnable u) x.

Definition FIFO_SIZE : Z := 64.

(** The constructor; [contents] is the fresh local memory. *)
Definition new_xuartps (input : list Z) (src : InterruptSource) (contents : Z → Z) : result xuartps :=
  let* m := store (mkBytes 0x1000 contents) 0x18 (le_bytes 4 0x28B) in
  let* m := store m 0x34 (le_bytes 4 0xF) in
  Ok (mkXuart (new_CommonUart input src) [] None None m).

Definition on_common {A} (m : M CommonUart A) : M xuartps A := fun u =>
  let '(r, c) := m (x_common u) in (r, set_x_common c u).

(** [inputReady]: everything the channel has is moved to the FIFO. *)
Definition x_inputReady : M xuartps bool :=
  m_modify (fun u => set_mInFifo (mInFifo u ++ chan_in (x_common u)) u) ;;;
  m_modify (fun u => set_x_common (set_chan_in [] (x_common u)) u) ;;;
  m_gets (fun u => match mInFifo u with [] => false | _ => true end).

Definition x_readByte : M xuartps Z :=
  ready <- x_inputReady ;;
  if negb ready then m_throw (Throw "CDNS: Trying to read empty FIFO !") else
  q <- m_gets mInFifo ;;
  match q with
  | b :: l => m_modify (set_mInFifo l) ;;; m_ret b
  | [] => m_throw (UndefinedBehaviour "front of an empty queue")
  end.

Definition fifo_size (u : xuartps) : Z := Z.of_nat (length (mInFifo u)).

Definition isFifoFull : M xuartps bool :=
  ready <- x_inputReady ;; m_gets (fun u => ready && bool_decide (FIFO_SIZE ≤ fifo_size u)).
Definition isFifoEmpty : M xuartps bool :=
  ready <- x_inputReady ;; m_ret (negb ready).
Definition isFifoOver : M xuartps bool :=
  m <- m_gets x_mem ;;
  trigger <- m_lift (let* b := load m 0x20 4 in Ok (le_value b)) ;;
  ready <- x_inputReady ;;
  m_gets (fun u => ready && bool_decide (trigger ≤ fifo_size u)).

(** One [SET_BIT] statement on the registers. *)
Definition set_bit (reg off : Z) (v : bool) : M xuartps unit :=
  m <- m_gets x_mem ;;
  m' <- m_lift (SET_BIT m reg off v) ;;
  m_modify (set_x_mem m').
Definition get_bit (reg off : Z) : M xuartps bool :=
  m <- m_gets x_mem ;; m_lift (GET_BIT m reg off).

Abbreviation buffer := (option (list Z)) (only parsing).

(** [REG_READ ()] and [REG_WRITE ()]. *)
Definition REG_READ (p : payload) (offs : Z) (b : buffer) : M xuartps buffer :=
  m <- m_gets x_mem ;;
  data <- m_lift (load m offs (len p)) ;;
  b <- m_lift (fill_buffer (mkPayload (cmd p) (addr p) b (len p) false 0 None) data) ;;
  m_ret (Some b).
Definition REG_WRITE (p : payload) (offs : Z) : M xuartps unit :=
  data <- m_lift (buffer_bytes p (len p)) ;;
  m <- m_gets x_mem ;;
  m' <- m_lift (store m offs data) ;;
  m_modify (set_x_mem m').

(** The body of a [REG] block of the read handler. *)
Definition REG (offs reg : Z) (body : buffer → M xuartps buffer) (b : buffer) : M xuartps buffer :=
  if in_reg offs reg then body b else m_ret b.

Definition xuart_read (t : target_if) (p : payload) (delay : Z) : M xuartps reply :=
  let offs := u64 (addr p - mBaseAddress (t_space t)) in
  b <- REG offs 0x00 (fun b => set_bit 0x00 0 false ;;; set_bit 0x00 1 false ;;; REG_READ p offs b) (ptr p) ;;
  b <- REG offs 0x04 (REG_READ p offs) b ;;
  b <- REG offs 0x10 (fun b =>
         m <- m_gets x_mem ;;
         ier <- m_lift (let* x := load m 0x8 4 in Ok (le_value x)) ;;
         idr <- m_lift (let* x := load m 0xC 4 in Ok (le_value x)) ;;
         m' <- m_lift (store m 0x10 (le_bytes 4 (Z.land ier (Z.lnot idr)))) ;;
         m_modify (set_x_mem m') ;;;
         REG_READ p offs b) b ;;
  b <- REG offs 0x14 (fun b =>
         set_bit 0x14 3 true ;;;
         full <- isFifoFull ;; set_bit 0x14 2 full ;;;
         empty <- isFifoEmpty ;; set_bit 0x14 0 (negb empty) ;;;
         c <- m_gets x_common ;;
         set_bit 0x14 8 (mHasTimeout c && bool_decide (mTimeoutCounter c = 0)) ;;;
         b <- REG_READ p offs b ;;
         on_common (m_modify (set_mOutInt false)) ;;;
         m_ret b) b ;;
  b <- REG offs 0x30 (fun b => c <- x_readByte ;; m_lift (put_byte b c)) b ;;
  b <- REG offs 0x2C (fun b =>
         set_bit 0x2C 3 true ;;;
         full <- isFifoFull ;; set_bit 0x2C 2 full ;;;
         empty <- isFifoEmpty ;; set_bit 0x2C 1 empty ;;;
         over <- isFifoOver ;; set_bit 0x2C 0 over ;;;
         REG_READ p offs b) b ;;
  b <- REG offs 0x18 (REG_READ p offs) b ;;
  b <- REG offs 0x34 (REG_READ p offs) b ;;
  m_ret (mkReply TLM_OK_RESPONSE b delay false).

(** A [REG] block of the write handler, and [if (GET_BIT (reg, off)) { c }]. *)
Definition REGW (offs reg : Z) (body : M xuartps unit) : M xuartps unit := m_when (in_reg offs reg) body.
Definition when_bit (reg off : Z) (c : M xuartps unit) : M xuartps unit :=
  b <- get_bit reg off ;; m_when b c.
Definition flag (f : CommonUart → CommonUart) : M xuartps unit := on_common (m_modify f).

Definition xuart_write (t : target_if) (p : payload) (delay : Z) : M xuartps reply :=
  let offs := u64 (addr p - mBaseAddress (t_space t)) in
  REGW offs 0x00 (
    REG_WRITE p offs ;;;
    when_bit 0x00 4 (m_modify (set_mTxEnable (Some true))) ;;;
    when_bit 0x00 5 (m_modify (set_mTxEnable (Some false))) ;;;
    when_bit 0x00 2 (m_modify (set_mRxEnable (Some true))) ;;;
    when_bit 0x00 3 (m_modify (set_mRxEnable (Some false)))) ;;;
  REGW offs 0x04 (REG_WRITE p offs) ;;;
  REGW offs 0x20 (
    REG_WRITE p offs ;;;
    c <- m_lift (ptr_byte (ptr p)) ;;
    flag (set_mTimeoutCounter c) ;;;
    flag (set_mHasTimeout (negb (bool_decide (c = 0))))) ;;;
  REGW offs 0x08 (
    REG_WRITE p offs ;;;
    when_bit 0x08 3 (flag (set_mOutIntEnable true)) ;;;
    when_bit 0x08 0 (flag (set_mIntEnable true)) ;;;
    when_bit 0x08 2 (flag (set_mIntEnable true)) ;;;
    when_bit 0x08 8 (flag (set_mToIntEnable true) ;;; flag (set_mHasTimeout true))) ;;;
  REGW offs 0x0C (
    REG_WRITE p offs ;;;
    when_bit 0x0C 3 (flag (set_mOutIntEnable false)) ;;;
    when_bit 0x0C 0 (flag (set_mIntEnable false)) ;;;
    when_bit 0x0C 2 (flag (set_mIntEnable false)) ;;;
    when_bit 0x08 8 (flag (set_mToIntEnable false) ;;; flag (set_mHasTimeout false))) ;;;
  REGW offs 0x20 (REG_WRITE p offs) ;;;
  REGW offs 0x30 (
    c <- m_lift (ptr_byte (ptr p)) ;;
    on_common (writeByte c) ;;;
    flag (set_mOutInt true)) ;;;
  REGW offs 0x18 (REG_WRITE p offs) ;;;
  REGW offs 0x34 (REG_WRITE p offs) ;;;
  m_ret (mkReply TLM_OK_RESPONSE (ptr p) delay false).

#[global] Instance xuartps_target : Target xuartps := {|
  local_mem := x_mem;
  with_local_mem := set_x_mem;
  read_callback := xuart_read;
  write_callback := xuart_write |}.

(** ** The polling loop

    One round of [interruptLoop], after the wait: [ready] is the virtual [inputReady].  The
    result is whether the loop goes on. *)

Section poll.
Context {P U : Type} `{!InterruptIf P}.
Context (common : U → CommonUart) (set_common : CommonUart → U → U) (ready : M U bool).

Definition on_uart {A} (m : M U A) : M (U * P) A := fun '(u, p) => let '(r, u') := m u in (r, (u', p)).
Definition on_parent {A} (m : M P A) : M (U * P) A := fun '(u, p) => let '(r, p') := m p in (r, (u, p')).
Definition get_common : M (U * P) CommonUart := on_uart (m_gets common).
Definition upd_common (f : CommonUart → CommonUart) : M (U * P) unit :=
  on_uart (m_modify (fun u => set_common (f (common u)) u)).

(** [a || b] and [a && b] with a right operand that has effects. *)
Definition and_then (a : bool) (b : M (U * P) bool) : M (U * P) bool := if a then b else m_ret false.
Definition or_else (a : bool) (b : M (U * P) bool) : M (U * P) bool := if a then m_ret true else b.

Definition interrupt_round : M (U * P) bool :=
  c <- get_common ;;
  if negb (mInterruptParent (irq_source c)) then m_ret false else
  fire <- or_else (mOutIntEnable c && mOutInt c) (and_then (mIntEnable c) (on_uart ready)) ;;
  if (fire : bool) then
    on_parent (raiseInterrupt (irq_source c)) ;;; upd_common (set_mInterrupting true) ;;; m_ret true
  else
    idle <- and_then (mHasTimeout c) (r <- on_uart ready ;; m_ret (negb r)) ;;
    if (idle : bool) then
      m_when (negb (bool_decide (mTimeoutCounter c = 0)))
        (upd_common (set_mTimeoutCounter (mTimeoutCounter c - 1))) ;;;
      c <- get_common ;;
      m_when (bool_decide (mTimeoutCounter c = 0) && mToIntEnable c) (on_parent (raiseInterrupt (irq_source c))) ;;;
      m_ret true
    else
      on_parent (lowerInterrupt (irq_source c)) ;;; upd_common (set_mInterrupting false) ;;; m_ret true.
End poll.

(** The loop of each UART. *)
Definition xuart_round {P} `{!InterruptIf P} : M (xuartps * P) bool :=
  interrupt_round x_common set_x_common x_inputReady.

(** ** The PL011 *)

Record PL011Uart := mkPL011 {
  p_common : CommonUart;
  mRxReady : Z;
  p_mem : bytes }.

Definition set_p_common x (u : PL011Uart) : PL011Uart :=
  mkPL011 x (mRxReady u) (p_mem u).
Definition set_mRxReady x (u : PL011Uart) : PL011Uart :=
  mkPL011 (p_common u) x (p_mem u).
Definition set_p_mem x (u : PL011Uart) : PL011Uart :=
  mkPL011 (p_common u) (mRxReady u) x.

Definition new_PL011Uart (input : list Z) (src : InterruptSource) (contents : Z → Z) : PL011Uart :=
  mkPL011 (new_CommonUart input src) 0 (mkBytes 0x4000 contents).

Definition p_inputReady : M PL011Uart bool := m_gets (fun u => common_inputReady (p_common u)).
Definition p_on_common {A} (m : M CommonUart A) : M PL011Uart A := fun u =>
  let '(r, c) := m (p_common u) in (r, set_p_common c u).

(** [getLocalMem ()\[r / 4\]]: the local memory is an array of 32-bit words. *)
Definition get_reg (r : Z) : M PL011Uart Z :=
  m <- m_gets p_mem ;; m_lift (let* b := load m r 4 in Ok (le_value b)).
Definition put_reg (r v : Z) : M PL011Uart unit :=
  m <- m_gets p_mem ;; m' <- m_lift (store m r (le_bytes 4 v)) ;; m_modify (set_p_mem m').
Definition p_flag (f : CommonUart → CommonUart) : M PL011Uart unit := p_on_common (m_modify f).

(** [if (inputReady ()) getLocalMem ()\[0x3C / 4\] |= 1 << 4;] *)
Definition note_input : M PL011Uart unit :=
  r <- p_inputReady ;;
  m_when r (v <- get_reg 0x3C ;; put_reg 0x3C (Z.lor v 16)).

Definition pl011_read (t : target_if) (p : payload) (delay : Z) : M PL011Uart reply :=
  let offs := u64 (addr p - mBaseAddress (t_space t)) in
  b <- (if bool_decide (offs = 0) then
          b <- m_lift (put_word (ptr p) 0) ;; c <- p_on_common common_readByte ;; m_lift (put_byte b c)
        else if bool_decide (offs = 0x4) then m_lift (put_word (ptr p) 0)
        else if bool_decide (offs = 0x18) then
          r <- p_inputReady ;;
          m_modify (set_mRxReady (if (r : bool) then 64 else 16)) ;;;
          v <- m_gets mRxReady ;; m_lift (put_word (ptr p) (Z.lor 0x80 v))
        else if bool_decide (offs = 0x3C) then note_input ;;; m_ret (ptr p)
        else if bool_decide (offs = 0x40) then
          note_input ;;;
          raw <- get_reg 0x3C ;; mask <- get_reg 0x38 ;; m_lift (put_word (ptr p) (Z.land raw mask))
        else m_lift (put_word (ptr p) 0)) ;;
  m_ret (mkReply TLM_OK_RESPONSE b delay false).

Definition pl011_write (t : target_if) (p : payload) (delay : Z) : M PL011Uart reply :=
  let offs := u64 (addr p - mBaseAddress (t_space t)) in
  (if bool_decide (offs = 0) then
     c <- m_lift (ptr_byte (ptr p)) ;;
     p_on_common (writeByte c) ;;;
     v <- get_reg 0x3C ;; put_reg 0x3C (Z.lor v 32) ;;;
     u <- m_gets p_common ;; m_when (mOutIntEnable u) (p_flag (set_mOutInt true))
   else if bool_decide (offs = 0x38) then
     v <- m_lift (ptr_word (ptr p)) ;; put_reg 0x38 v ;;;
     m <- get_reg 0x38 ;;
     (if Z.testbit m 5 then p_flag (set_mOutIntEnable true) ;;; p_flag (set_mOutInt true)
      else p_flag (set_mOutIntEnable false)) ;;;
     m <- get_reg 0x38 ;;
     p_flag (set_mIntEnable (Z.testbit m 4))
   else if bool_decide (offs = 0x44) then
     raw <- get_reg 0x3C ;; v <- m_lift (ptr_word (ptr p)) ;;
     put_reg 0x3C (Z.land raw (Z.lnot v)) ;;;
     raw <- get_reg 0x3C ;;
     m_when (negb (Z.testbit raw 5)) (p_flag (set_mOutInt false))
   else m_ret tt) ;;;
  m_ret (mkReply TLM_OK_RESPONSE (ptr p) delay false).

#[global] Instance pl011_target : Target PL011Uart := {|
  local_mem := p_mem;
  with_local_mem := set_p_mem;
  read_callback := pl011_read;
  write_callback := pl011_write |}.

Definition pl011_round {P} `{!InterruptIf P} : M (PL011Uart * P) bool :=
  interrupt_round p_common set_p_common p_inputReady.

(** ** Received bytes are kept in order *)

(** What was received and not yet read by the processor. *)
Definition rx_queue (u : xuartps) : list Z := mInFifo u ++ chan_in (x_common u).

Lemma x_inputReady_run u :
  x_inputReady u = (Ok (negb (bool_decide (rx_queue u = []))),
                    set_x_common (set_chan_in [] (x_common u)) (set_mInFifo (rx_queue u) u)).
Proof.
  unfold x_inputReady, rx_queue. do 2 m_exec. unfold m_gets. simpl.
  by destruct (mInFifo u ++ chan_in (x_common u)).
Qed.

Lemma x_inputReady_preserves : preserves rx_queue x_inputReady.
Proof. intros u. rewrite x_inputReady_run. unfold rx_queue. simpl. by rewrite app_nil_r. Qed.

Lemma set_bit_preserves r o v : preserves rx_queue (set_bit r o v).
Proof. unfold set_bit. auto 10 with vpsim_frame. Qed.
Lemma get_bit_preserves r o : preserves rx_queue (get_bit r o).
Proof. unfold get_bit. auto 10 with vpsim_frame. Qed.
Lemma REG_READ_preserves p o b : preserves rx_queue (REG_READ p o b).
Proof. unfold REG_READ. auto 10 with vpsim_frame. Qed.
Lemma REG_WRITE_preserves p o : preserves rx_queue (REG_WRITE p o).
Proof. unfold REG_WRITE. auto 10 with vpsim_frame. Qed.
Lemma isFifoFull_preserves : preserves rx_queue isFifoFull.
Proof. unfold isFifoFull. auto using x_inputReady_preserves with vpsim_frame. Qed.
Lemma isFifoEmpty_preserves : preserves rx_queue isFifoEmpty.
Proof. unfold isFifoEmpty. auto using x_inputReady_preserves with vpsim_frame. Qed.
Lemma isFifoOver_preserves : preserves rx_queue isFifoOver.
Proof. unfold isFifoOver. auto 10 using x_inputReady_preserves with vpsim_frame. Qed.
Lemma flag_preserves f : (∀ c, chan_in (f c) = chan_in c) → preserves rx_queue (flag f).
Proof. intros Hf u. unfold rx_queue. simpl. by rewrite Hf. Qed.
Lemma writeByte_preserves c : preserves rx_queue (on_common (writeByte c)).
Proof. by intros u. Qed.

#[export] Hint Resolve x_inputReady_preserves set_bit_preserves get_bit_preserves REG_READ_preserves
  REG_WRITE_preserves isFifoFull_preserves isFifoEmpty_preserves isFifoOver_preserves
  writeByte_preserves : vpsim_frame.
#[export] Hint Extern 5 (preserves _ (flag _)) => (apply flag_preserves; by intros []) : vpsim_frame.
#[export] Hint Extern 5 (preserves _ (on_common (m_modify _))) => (apply flag_preserves; by intros []) : vpsim_frame.

Ltac frame := repeat first
  [ solve [auto 2 with vpsim_frame] | apply preserves_bind; [|intros ?] | apply preserves_when
  | apply preserves_if ].

Lemma REGW_preserves o r m : preserves rx_queue m → preserves rx_queue (REGW o r m).
Proof. apply preserves_when. Qed.
Lemma when_bit_preserves r o m : preserves rx_queue m → preserves rx_queue (when_bit r o m).
Proof. unfold when_bit. auto with vpsim_frame. Qed.

Lemma xuart_write_preserves t p delay : preserves rx_queue (xuart_write t p delay).
Proof.
  unfold xuart_write. repeat (apply preserves_bind; [|intros ?]); try (apply REGW_preserves);
    repeat (first [apply preserves_bind; [|intros ?] | apply when_bit_preserves]); auto with vpsim_frame.
Qed.

Lemma REG_preserves o r f b : (∀ b, preserves rx_queue (f b)) → preserves rx_queue (REG o r f b).
Proof. intros Hf. unfold REG. destruct (in_reg o r); [apply Hf|apply preserves_ret]. Qed.

(** A read outside the FIFO register. *)
Lemma xuart_read_preserves t p delay : in_reg (u64 (addr p - mBaseAddress (t_space t))) 0x30 = false →
  preserves rx_queue (xuart_read t p delay).
Proof.
  intros H30. unfold xuart_read. cbv zeta. set (o := u64 _) in *.
  assert (∀ f b, preserves rx_queue (REG o 0x30 f b)) as HF.
  { intros f b. unfold REG. rewrite H30. apply preserves_ret. }
  repeat (apply preserves_bind; [|intros ?]); try apply HF; try apply preserves_ret;
    apply REG_preserves; intros ?; frame.
Qed.

Lemma x_readByte_run u :
  match rx_queue u with
  | [] => (x_readByte u).1 = Err (Throw "CDNS: Trying to read empty FIFO !") ∧ rx_queue (x_readByte u).2 = []
  | c :: q => (x_readByte u).1 = Ok c ∧ rx_queue (x_readByte u).2 = q
  end.
Proof.
  unfold x_readByte, m_bind. rewrite x_inputReady_run. unfold m_gets, m_throw, m_modify, m_ret.
  destruct (rx_queue u) as [|c q] eqn:Hq.
  - rewrite bool_decide_true by done. done.
  - rewrite bool_decide_false by done. simpl. unfold rx_queue. simpl. by rewrite ?app_nil_r.
Qed.

(** Only one [REG] block of the read handler matches in the FIFO register. *)
Lemma xuart_read_fifo t p delay u : in_reg (u64 (addr p - mBaseAddress (t_space t))) 0x30 = true →
  xuart_read t p delay u
  = (c <- x_readByte ;; b <- m_lift (put_byte (ptr p) c) ;; m_ret (mkReply TLM_OK_RESPONSE b delay false)) u.
Proof.
  intros H30. unfold xuart_read. cbv zeta. set (o := u64 _) in *.
  assert (∀ r, r = 0 ∨ r = 4 ∨ r = 0x10 ∨ r = 0x14 ∨ r = 0x2C ∨ r = 0x18 ∨ r = 0x34 → in_reg o r = false) as Hno.
  { intros r Hr. apply andb_true_iff in H30 as [H1%bool_decide_eq_true H2%bool_decide_eq_true].
    unfold in_reg. apply andb_false_iff. rewrite !bool_decide_eq_false. lia. }
  unfold REG. rewrite H30, !Hno by lia. unfold m_bind, m_ret.
  destruct (x_readByte u) as [[c|e] u']; [|done]. unfold m_lift. by destruct (put_byte (ptr p) c).
Qed.

Lemma xuart_read_fifo_run t p delay u x l :
  in_reg (u64 (addr p - mBaseAddress (t_space t))) 0x30 = true → ptr p = Some (x :: l) →
  match rx_queue u with
  | [] => ∃ u', xuart_read t p delay u = (Err (Throw "CDNS: Trying to read empty FIFO !"), u') ∧ rx_queue u' = []
  | c :: q => ∃ u', xuart_read t p delay u
                    = (Ok (mkReply TLM_OK_RESPONSE (Some (c :: l)) delay false), u') ∧ rx_queue u' = q
  end.
Proof.
  intros H30 Hp. pose proof (x_readByte_run u) as Hr. rewrite xuart_read_fifo by done. unfold m_bind.
  destruct (x_readByte u) as [r u']. destruct (rx_queue u) as [|c q]; simpl in Hr; destruct Hr as [-> Hq].
  - by exists u'.
  - rewrite Hp. exists u'. done.
Qed.

Section frame_poll.
Context {P : Type} `{!InterruptIf P}.

Lemma on_parent_preserves {A} (m : M P A) : preserves (rx_queue ∘ fst) (on_parent (U := xuartps) m).
Proof. intros [u p]. unfold on_parent. by destruct (m p). Qed.
Lemma on_uart_preserves {A} (m : M xuartps A) : preserves rx_queue m →
  preserves (rx_queue ∘ fst) (on_uart (P := P) m).
Proof. intros Hm [u p]. unfold on_uart. specialize (Hm u). by destruct (m u). Qed.
Lemma upd_common_preserves f : (∀ c, chan_in (f c) = chan_in c) →
  preserves (rx_queue ∘ fst) (upd_common (P := P) x_common set_x_common f).
Proof.
  intros Hf. apply on_uart_preserves. apply preserves_modify. intros u. unfold rx_queue. simpl. by rewrite Hf.
Qed.

Lemma xuart_round_preserves : preserves (rx_queue ∘ fst) (xuart_round (P := P)).
Proof.
  unfold xuart_round, interrupt_round, get_common, and_then, or_else.
  repeat first
    [ apply on_parent_preserves | apply upd_common_preserves; by intros []
    | apply on_uart_preserves; solve [auto with vpsim_frame]
    | apply preserves_ret | apply preserves_bind; [|intros ?] | apply preserves_when | apply preserves_if ].
Qed.
End frame_poll.

(** The history of a UART: bytes arrive, the processor reads and writes registers, the loop
    polls.  [got] is what reads of the FIFO register returned, [sent] what arrived. *)
Inductive uart_step : xuartps * list Z * list Z → xuartps * list Z * list Z → Prop :=
  | byte_arrives c u got sent :
      uart_step (u, got, sent)
        (set_x_common (set_chan_in (chan_in (x_common u) ++ [c]) (x_common u)) u, got, sent ++ [c])
  | fifo_read t p delay u u' r c got sent :
      in_reg (u64 (addr p - mBaseAddress (t_space t))) 0x30 = true → is_Some (ptr p) → ptr p ≠ Some [] →
      xuart_read t p delay u = (Ok r, u') → ptr_byte (r_ptr r) = Ok c →
      uart_step (u, got, sent) (u', got ++ [c], sent)
  | fifo_read_fails t p delay u u' e got sent :
      in_reg (u64 (addr p - mBaseAddress (t_space t))) 0x30 = true → is_Some (ptr p) → ptr p ≠ Some [] →
      xuart_read t p delay u = (Err e, u') → uart_step (u, got, sent) (u', got, sent)
  | other_read t p delay u got sent :
      in_reg (u64 (addr p - mBaseAddress (t_space t))) 0x30 = false →
      uart_step (u, got, sent) ((xuart_read t p delay u).2, got, sent)
  | register_write t p delay u got sent :
      uart_step (u, got, sent) ((xuart_write t p delay u).2, got, sent)
  | poll u got sent calls :
      uart_step (u, got, sent) ((xuart_round (u, calls : list (Z * Z))).2.1, got, sent).

(** C28: the receiver of the Cadence UART loses, repeats and reorders nothing.  In every history
    of arriving bytes, register accesses and polls, the bytes that reads of the FIFO register
    returned, followed by those still waiting in the FIFO and in the channel, are the bytes
    that arrived, in their order. *)
Theorem xuart_received_in_order (u0 u : xuartps) (got sent : list Z) :
  rx_queue u0 = [] → rtc uart_step (u0, [], []) (u, got, sent) → got ++ rx_queue u = sent.
Proof.
  intros H0 Hr.
  assert (∀ x y, rtc uart_step x y → x.1.2 ++ rx_queue x.1.1 = x.2 → y.1.2 ++ rx_queue y.1.1 = y.2) as Hinv.
  2:{ apply (Hinv _ _ Hr). simpl. by rewrite H0. }
  clear. intros x y. induction 1 as [|x y z Hs _ IH]; [done|]. intros Hx. apply IH. clear IH.
  destruct Hs as [c u got sent|t p delay u u' r c got sent H30 [b Hb] Hne E Hc
    |t p delay u u' e got sent H30 [b Hb] Hne E|t p delay u got sent H30|t p delay u got sent|u got sent calls];
    simpl in *.
  - rewrite <- Hx. unfold rx_queue. simpl. by rewrite !app_assoc.
  - destruct b as [|x l]; [congruence|]. pose proof (xuart_read_fifo_run t p delay u x l H30 Hb) as Hf.
    destruct (rx_queue u) as [|c' q]; destruct Hf as (u1 & E1 & Hq); rewrite E1 in E; simplify_eq.
    simpl in Hc. injection Hc as ->. by rewrite <- app_assoc.
  - destruct b as [|x l]; [congruence|]. pose proof (xuart_read_fifo_run t p delay u x l H30 Hb) as Hf.
    destruct (rx_queue u) as [|c' q] eqn:Hq0; destruct Hf as (u1 & E1 & Hq); rewrite E1 in E; simplify_eq.
    by rewrite Hq.
  - by rewrite (xuart_read_preserves t p delay H30 u).
  - by rewrite (xuart_write_preserves t p delay u).
  - pose proof (xuart_round_preserves (u, calls)) as Hp. simpl in Hp. by rewrite Hp.
Qed.

(** ** Bits of registers *)

Definition bytes_ok (m : bytes) : Prop := ∀ x, is_byte (b_at m x).
Definition word32 (m : bytes) (r : Z) : Z := le_value (peek m r 4).

Lemma peek_bytes_ok m a n : bytes_ok m → Forall is_byte (peek m a n).
Proof. intros Hm. unfold peek. apply Forall_fmap, Forall_forall. intros x _. apply Hm. Qed.

Lemma poke_bytes_ok m a l : bytes_ok m → Forall is_byte l → bytes_ok (poke m a l).
Proof.
  intros Hm Hl x. rewrite poke_at. case_decide; [|apply Hm].
  eapply Forall_lookup_total_1; [done|]. lia.
Qed.

(** The low half of a 64-bit register. *)
Lemma word32_low m r : bytes_ok m → word32 m r = le_value (peek m r 8) mod 2 ^ 32.
Proof.
  intros Hm. change (2 ^ 32) with (256 ^ Z.of_nat 4).
  rewrite <- (proj1 (le_value_take_drop (peek m r 8) 4 (peek_bytes_ok m r 8 Hm) ltac:(rewrite length_peek; lia))).
  unfold word32, peek. by rewrite <- fmap_take.
Qed.

(** What [SET_BIT] changes: one bit of the register and nothing outside its eight bytes. *)
Record bit_set (m m' : bytes) (r o : Z) (v : bool) : Prop := mkBitSet {
  bs_size : b_size m' = b_size m;
  bs_ok : bytes_ok m';
  bs_frame x : ¬ (r ≤ x < r + 8) → b_at m' x = b_at m x;
  bs_bit j : 0 ≤ j < 32 → Z.testbit (word32 m' r) j = if decide (j = o) then v else Z.testbit (word32 m r) j }.

Lemma SET_BIT_spec m r o v : bytes_ok m → 0 ≤ r → r + 8 ≤ b_size m → 0 ≤ o < 32 →
  ∃ m', SET_BIT m r o v = Ok m' ∧ bit_set m m' r o v.
Proof.
  intros Hm Hr Hs Ho. unfold SET_BIT, SET_BITS, get64, put64. rewrite load_ok by lia. cbn [result_bind].
  set (W := le_value (peek m r 8)). set (V := Z.lor _ _).
  rewrite store_ok by (rewrite ?length_le_bytes; lia). eexists. split; [done|].
  assert (bytes_ok (poke m r (le_bytes 8 V))) as Hok by (apply poke_bytes_ok; [done|apply le_bytes_byte]).
  split; [done|done| |].
  - intros x Hx. apply poke_out. by rewrite length_le_bytes.
  - intros j Hj. rewrite !word32_low by done. fold W.
    change 8 with (Z.of_nat (length (le_bytes 8 V))) at 1. rewrite peek_poke, le_value_bytes.
    rewrite !Z.mod_pow2_bits_low by lia.
    change (256 ^ Z.of_nat 8) with (2 ^ 64). rewrite Z.mod_pow2_bits_low by lia.
    unfold V. rewrite Z.lor_spec, Z.land_spec, Z.lnot_spec, !Z.shiftl_spec by lia.
    change (2 ^ 1 - 1) with 1.
    case_decide as Hjo; [subst j|].
    + rewrite Z.sub_diag. destruct v; cbn; by rewrite ?andb_false_r.
    + assert (∀ c : bool, Z.testbit (if c then 1 else 0) (j - o) = false) as Hz.
      { intros c. destruct (decide (j < o)); [apply Z.testbit_neg_r; lia|].
        destruct c; [|apply Z.bits_0]. rewrite Z.bits_above_log2; [done|lia|cbn; lia]. }
      rewrite Hz. rewrite (Hz true), orb_false_r. cbn. by rewrite andb_true_r.
Qed.

Lemma set_bit_run u r o v : bytes_ok (x_mem u) → 0 ≤ r → r + 8 ≤ b_size (x_mem u) → 0 ≤ o < 32 →
  ∃ m', set_bit r o v u = (Ok tt, set_x_mem m' u) ∧ bit_set (x_mem u) m' r o v.
Proof.
  intros Hm Hr Hs Ho. destruct (SET_BIT_spec (x_mem u) r o v Hm Hr Hs Ho) as (m' & E & Hb).
  exists m'. split; [|done]. unfold set_bit. m_exec. unfold m_bind, m_lift. by rewrite E.
Qed.

(** The tests on the FIFO, and the state they leave. *)
Definition drained (u : xuartps) : xuartps :=
  set_x_common (set_chan_in [] (x_common u)) (set_mInFifo (rx_queue u) u).
Definition rx_ready (u : xuartps) : bool := negb (bool_decide (rx_queue u = [])).

Lemma rx_queue_drained u : rx_queue (drained u) = rx_queue u.
Proof. unfold rx_queue at 1. simpl. apply app_nil_r. Qed.

Lemma isFifoFull_run u :
  isFifoFull u = (Ok (bool_decide (64 ≤ Z.of_nat (length (rx_queue u)))), drained u).
Proof.
  unfold isFifoFull. unfold m_bind. rewrite x_inputReady_run. fold (drained u). unfold m_gets, fifo_size, FIFO_SIZE.
  simpl. destruct (rx_queue u) as [|c q]; [done|]. by rewrite bool_decide_false by done.
Qed.
Lemma isFifoEmpty_run u : isFifoEmpty u = (Ok (bool_decide (rx_queue u = [])), drained u).
Proof. unfold isFifoEmpty. unfold m_bind. rewrite x_inputReady_run. unfold m_ret. by rewrite negb_involutive. Qed.
Lemma isFifoOver_run u : 0x24 ≤ b_size (x_mem u) →
  isFifoOver u = (Ok (rx_ready u && bool_decide (word32 (x_mem u) 0x20 ≤ Z.of_nat (length (rx_queue u)))), drained u).
Proof.
  intros Hs. unfold isFifoOver. m_exec. unfold m_bind, m_lift. rewrite load_ok by lia. cbn [result_bind].
  rewrite x_inputReady_run. done.
Qed.

(** Reading four bytes of a register. *)
Lemma REG_READ_run p o b l u : b = Some l → len p = 4 → (4 ≤ length l)%nat → 0 ≤ o → o + 4 ≤ b_size (x_mem u) →
  REG_READ p o b u = (Ok (Some (peek (x_mem u) o 4 ++ drop 4 l)), u).
Proof.
  intros -> Hl Hb Ho Hs. unfold REG_READ. m_exec. unfold m_bind, m_lift. rewrite Hl, load_ok by lia.
  unfold fill_buffer. cbn [ptr]. rewrite length_peek. by rewrite bool_decide_true by (simpl; lia).
Qed.

(** What is known while a status is put together: what is waiting, the trigger level, and the
    bits of the register that were set so far. *)
Record status_inv (q : list Z) (trigger r : Z) (f : Z → option bool) (u : xuartps) : Prop := mkStatus {
  st_queue : rx_queue u = q;
  st_bytes : bytes_ok (x_mem u);
  st_size : b_size (x_mem u) = 0x1000;
  st_trigger : word32 (x_mem u) 0x20 = trigger;
  st_bits j v : 0 ≤ j < 32 → f j = Some v → Z.testbit (word32 (x_mem u) r) j = v }.

Section status.
Context (q : list Z) (trigger r : Z) (Hr : 0x24 ≤ r ∧ r + 8 ≤ 0x1000 ∨ 0 ≤ r ∧ r + 8 ≤ 0x20).

Lemma status_set_bit f u o v : status_inv q trigger r f u → 0 ≤ o < 32 →
  runs (set_bit r o v) u (fun _ => status_inv q trigger r (fun j => if decide (j = o) then Some v else f j)).
Proof.
  intros [Hq Hm Hs Ht Hf] Ho. destruct (set_bit_run u r o v) as (m & E & [Hs' Hm' Hfr Hb]); [done|lia|lia|done|].
  unfold runs. rewrite E. split; simpl; [done|done|lia| |].
  - rewrite <- Ht. unfold word32. f_equal. apply peek_ext. intros x Hx. apply Hfr. lia.
  - intros j b Hj. rewrite Hb by done. case_decide; [by intros [= ->]|by apply Hf].
Qed.

Lemma status_drained f u : status_inv q trigger r f u → status_inv q trigger r f (drained u).
Proof. intros []. split; try done. by rewrite rx_queue_drained. Qed.

Lemma status_full f u : status_inv q trigger r f u →
  runs isFifoFull u (fun b u' => b = bool_decide (64 ≤ Z.of_nat (length q)) ∧ status_inv q trigger r f u').
Proof.
  intros H. unfold runs. rewrite isFifoFull_run. split; [by rewrite (st_queue _ _ _ _ _ H)|by apply status_drained].
Qed.
Lemma status_empty f u : status_inv q trigger r f u →
  runs isFifoEmpty u (fun b u' => b = bool_decide (q = []) ∧ status_inv q trigger r f u').
Proof.
  intros H. unfold runs. rewrite isFifoEmpty_run. split; [by rewrite (st_queue _ _ _ _ _ H)|by apply status_drained].
Qed.
Lemma status_over f u : status_inv q trigger r f u →
  runs isFifoOver u (fun b u' =>
    b = negb (bool_decide (q = [])) && bool_decide (trigger ≤ Z.of_nat (length q)) ∧ status_inv q trigger r f u').
Proof.
  intros H. unfold runs. rewrite isFifoOver_run by (rewrite (st_size _ _ _ _ _ H); lia).
  split; [|by apply status_drained]. unfold rx_ready. by rewrite (st_queue _ _ _ _ _ H), (st_trigger _ _ _ _ _ H).
Qed.
Lemma status_read f u p o l : status_inv q trigger r f u → o = r → len p = 4 → (4 ≤ length l)%nat →
  runs (REG_READ p o (Some l)) u (fun b u' => u' = u ∧ b = Some (peek (x_mem u) r 4 ++ drop 4 l)).
Proof.
  intros H -> Hl Hb. unfold runs. rewrite (REG_READ_run p r (Some l) l) by (done || (rewrite (st_size _ _ _ _ _ H); lia) || lia).
  done.
Qed.
End status.

(** the status register of the Cadence UART tells the state of the receiver: of the four
    bytes read at offset 0x2C, bit 1 is set exactly when nothing is waiting, bit 2 exactly when
    at least 64 bytes are, bit 0 exactly when something is waiting and its number has reached
    the trigger level, and bit 3 always; reading it changes nothing that is waiting. *)
Theorem xuart_status_register (u : xuartps) (t : target_if) (p : payload) (b : list Z) (delay : Z) :
  bytes_ok (x_mem u) → b_size (x_mem u) = 0x1000 →
  u64 (addr p - mBaseAddress (t_space t)) = 0x2C → len p = 4 → ptr p = Some b → (4 ≤ length b)%nat →
  ∃ u' w, xuart_read t p delay u = (Ok (mkReply TLM_OK_RESPONSE (Some (w ++ drop 4 b)) delay false), u')
    ∧ length w = 4%nat ∧ rx_queue u' = rx_queue u
    ∧ (Z.testbit (le_value w) 1 = true ↔ rx_queue u = [])
    ∧ (Z.testbit (le_value w) 2 = true ↔ 64 ≤ Z.of_nat (length (rx_queue u)))
    ∧ (Z.testbit (le_value w) 0 = true ↔
        rx_queue u ≠ [] ∧ word32 (x_mem u) 0x20 ≤ Z.of_nat (length (rx_queue u)))
    ∧ Z.testbit (le_value w) 3 = true.
Proof.
  intros Hm Hs Ho Hl Hp Hb. set (q := rx_queue u). set (trig := word32 (x_mem u) 0x20).
  assert (0x24 ≤ 0x2C ∧ 0x2C + 8 ≤ 0x1000 ∨ 0 ≤ 0x2C ∧ 0x2C + 8 ≤ 0x20) as Hr by lia.
  assert (runs (xuart_read t p delay) u (fun r u' => ∃ w f, r = mkReply TLM_OK_RESPONSE (Some (w ++ drop 4 b)) delay false
    ∧ w = peek (x_mem u') 0x2C 4 ∧ status_inv q trig 0x2C f u'
    ∧ f 3 = Some true ∧ f 2 = Some (bool_decide (64 ≤ Z.of_nat (length q))) ∧ f 1 = Some (bool_decide (q = []))
    ∧ f 0 = Some (negb (bool_decide (q = [])) && bool_decide (trig ≤ Z.of_nat (length q))))) as Hrun.
  { unfold xuart_read. cbv zeta. rewrite Ho, Hp. unfold REG. simpl in_reg. cbv iota.
    assert (status_inv q trig 0x2C (fun _ => None) u) as H0 by (by split).
    do 5 (apply runs_bind, runs_ret). apply runs_bind.
    apply runs_bind. eapply runs_conseq; [by apply status_set_bit|]. intros [] u1 H1. cbv beta.
    apply runs_bind. eapply runs_conseq; [by eapply status_full|]. intros full u2 [-> H2]. cbv beta.
    apply runs_bind. eapply runs_conseq; [by apply status_set_bit|]. intros [] u3 H3. cbv beta.
    apply runs_bind. eapply runs_conseq; [by eapply status_empty|]. intros empty u4 [-> H4]. cbv beta.
    apply runs_bind. eapply runs_conseq; [by apply status_set_bit|]. intros [] u5 H5. cbv beta.
    apply runs_bind. eapply runs_conseq; [by eapply status_over|]. intros over u6 [-> H6]. cbv beta.
    apply runs_bind. eapply runs_conseq; [by apply status_set_bit|]. intros [] u7 H7. cbv beta.
    eapply runs_conseq; [by eapply status_read|]. intros w u8 [-> ->]. cbv beta.
    do 2 (apply runs_bind, runs_ret). apply runs_ret. eexists _, _. split_and!; [done|done|exact H7|done..]. }
  apply runs_inv in Hrun as (r & u' & E & w & f & -> & Hw & [Hq _ _ _ Hbits] & F3 & F2 & F1 & F0).
  exists u', w. rewrite E. unfold word32 in Hbits. rewrite <- Hw in Hbits.
  rewrite (Hbits 1 _ ltac:(lia) F1), (Hbits 2 _ ltac:(lia) F2), (Hbits 0 _ ltac:(lia) F0), (Hbits 3 _ ltac:(lia) F3).
  rewrite andb_true_iff, negb_true_iff, !bool_decide_eq_true, bool_decide_eq_false.
  split_and!; try done. rewrite Hw. apply length_peek.
Qed.

(** ** Interrupts *)

(** The thread of the UART: rounds until it returns. *)
Fixpoint xuart_rounds {P} `{!InterruptIf P} (k : nat) : M (xuartps * P) unit :=
  match k with
  | O => m_ret tt
  | S k => go <- xuart_round ;; if (go : bool) then xuart_rounds k else m_ret tt
  end.

(** What one round does, for any parent. *)
Lemma xuart_round_run {P} `{!InterruptIf P} u (pr : P) :
  let c := x_common u in
  let fire := (mOutIntEnable c && mOutInt c) || (mIntEnable c && rx_ready u) in
  mInterruptParent (irq_source c) = true →
  ∃ u', rx_queue u' = rx_queue u ∧ xuart_round (u, pr) =
    (if fire then
       (on_parent (raiseInterrupt (irq_source c)) ;;;
        upd_common x_common set_x_common (set_mInterrupting true) ;;; m_ret true) (u', pr)
     else if mHasTimeout c && negb (rx_ready u) then
       (m_when (negb (bool_decide (mTimeoutCounter c = 0)))
          (upd_common x_common set_x_common (set_mTimeoutCounter (mTimeoutCounter c - 1))) ;;;
        c <- get_common x_common ;;
        m_when (bool_decide (mTimeoutCounter c = 0) && mToIntEnable c)
          (on_parent (raiseInterrupt (irq_source c))) ;;;
        m_ret true) (u', pr)
     else
       (on_parent (lowerInterrupt (irq_source c)) ;;;
        upd_common x_common set_x_common (set_mInterrupting false) ;;; m_ret true) (u', pr))
  ∧ (u' = u ∨ u' = drained u ∨ u' = drained (drained u)).
Proof.
  intros c fire Hp. unfold xuart_round, interrupt_round. m_exec. fold c. rewrite Hp. cbn [negb].
  assert (∀ v, on_uart (P := P) x_inputReady (v, pr) = (Ok (rx_ready v), (drained v, pr))) as Hin.
  { intros v. unfold on_uart. by rewrite x_inputReady_run. }
  assert (rx_ready (drained u) = rx_ready u) as Hrd by (unfold rx_ready; by rewrite rx_queue_drained).
  unfold or_else, and_then, fire. destruct (mOutIntEnable c && mOutInt c).
  { exists u. split_and!; [done| |by left]. by m_exec. }
  destruct (mIntEnable c); cbn [orb andb].
  - m_exec_by (Hin u). destruct (rx_ready u) eqn:Hr.
    + exists (drained u). split_and!; [apply rx_queue_drained|done|auto].
    + destruct (mHasTimeout c); cbn [andb negb].
      * exists (drained (drained u)). split_and!; [by rewrite !rx_queue_drained| |auto].
        unfold m_bind at 1 2. rewrite Hin, Hrd. done.
      * exists (drained u). split_and!; [apply rx_queue_drained| |auto]. by m_exec.
  - m_exec. destruct (mHasTimeout c); cbn [andb].
    + exists (drained u). split_and!; [apply rx_queue_drained| |auto].
      unfold m_bind at 1 2. rewrite Hin. by destruct (rx_ready u).
    + exists u. split_and!; [done| |by left]. by m_exec.
Qed.

(** The receiver is empty, its timeout runs with [m] rounds to go, and no other interrupt of the
    UART is due. *)
Record waiting (m line : Z) (u : xuartps) : Prop := mkWaiting {
  w_queue : rx_queue u = [];
  w_source : irq_source (x_common u) = mkSource true line;
  w_out : mOutIntEnable (x_common u) && mOutInt (x_common u) = false;
  w_has : mHasTimeout (x_common u) = true;
  w_enabled : mToIntEnable (x_common u) = true;
  w_counter : mTimeoutCounter (x_common u) = m }.

Lemma waiting_drained m line u : waiting m line u → waiting m line (drained u).
Proof. intros []. split; try done. by rewrite rx_queue_drained. Qed.

Lemma waiting_count m k line u : waiting m line u →
  waiting k line (set_x_common (set_mTimeoutCounter k (x_common u)) u).
Proof. intros []. by split. Qed.

Lemma waiting_round m line u (calls : list (Z * Z)) : waiting m line u → 0 ≤ m →
  ∃ u', xuart_round (u, calls) = (Ok true, (u', if decide (m ≤ 1) then calls ++ [(1, line)] else calls))
    ∧ waiting (Z.max 0 (m - 1)) line u'.
Proof.
  intros Hw Hm. destruct (xuart_round_run u calls) as (u' & Hq & -> & Hu').
  { by rewrite (w_source _ _ _ Hw). }
  assert (waiting m line u') as Hw'.
  { destruct Hu' as [->|[->| ->]]; [done|by apply waiting_drained|by do 2 apply waiting_drained]. }
  unfold rx_ready. rewrite (w_queue _ _ _ Hw), (w_out _ _ _ Hw), (w_has _ _ _ Hw), (w_counter _ _ _ Hw).
  rewrite bool_decide_true by done. cbn [negb]. rewrite andb_false_r. cbn [orb andb].
  set (u1 := if decide (m = 0) then u' else set_x_common (set_mTimeoutCounter (m - 1) (x_common u')) u').
  assert ((m_when (negb (bool_decide (m = 0)))
    (upd_common (P := list (Z * Z)) x_common set_x_common (set_mTimeoutCounter (m - 1)))) (u', calls)
    = (Ok tt, (u1, calls))) as E.
  { unfold u1, m_when. case_decide; [by rewrite bool_decide_true|by rewrite bool_decide_false]. }
  assert (waiting (Z.max 0 (m - 1)) line u1) as Hw1.
  { unfold u1. case_decide; [replace (Z.max 0 (m - 1)) with m by lia; done|].
    replace (Z.max 0 (m - 1)) with (m - 1) by lia. by apply waiting_count with m. }
  exists u1. split; [|done]. m_exec_by E. m_exec.
  rewrite (w_counter _ _ _ Hw1), (w_enabled _ _ _ Hw1), (w_source _ _ _ Hw1). unfold m_when.
  destruct (decide (m ≤ 1)); [rewrite bool_decide_true by lia|rewrite bool_decide_false by lia]; done.
Qed.

Lemma waiting_rounds line k : ∀ n u (calls : list (Z * Z)), 0 ≤ n → waiting n line u →
  ∃ u', xuart_rounds k (u, calls) =
    (Ok tt, (u', calls ++ replicate (Z.to_nat (Z.of_nat k - Z.max 1 n + 1)) (1, line))) ∧ rx_queue u' = [].
Proof.
  induction k as [|k IH]; intros n u calls Hn Hw.
  - exists u. replace (Z.to_nat (Z.of_nat 0 - Z.max 1 n + 1)) with 0%nat by lia.
    rewrite app_nil_r. split; [done|apply Hw].
  - cbn [xuart_rounds]. destruct (waiting_round n line u calls Hw Hn) as (u1 & E & Hw1). m_exec_by E.
    destruct (IH (Z.max 0 (n - 1)) u1 (if decide (n ≤ 1) then calls ++ [(1, line)] else calls) ltac:(lia) Hw1)
      as (u' & -> & Hq).
    exists u'. split; [|done]. destruct (decide (n ≤ 1)).
    + replace (Z.to_nat (Z.of_nat (S k) - Z.max 1 n + 1))
        with (S (Z.to_nat (Z.of_nat k - Z.max 1 (Z.max 0 (n - 1)) + 1))) by lia.
      by rewrite <- app_assoc.
    + replace (Z.to_nat (Z.of_nat (S k) - Z.max 1 n + 1))
        with (Z.to_nat (Z.of_nat k - Z.max 1 (Z.max 0 (n - 1)) + 1)) by lia. done.
Qed.

(** the receive timeout of the Cadence UART fires on time: with an empty receiver, a timeout
    of [n] rounds, its interrupt enabled and no other interrupt due, the first [n - 1] rounds of
    the polling loop leave the interrupt line alone, and the [n]-th round and every later one
    raise it. *)
Theorem xuart_timeout_fires (n line : Z) (u : xuartps) (k : nat) (calls : list (Z * Z)) :
  0 < n → waiting n line u →
  ∃ u', xuart_rounds k (u, calls) = (Ok tt, (u', calls ++ replicate (Z.to_nat (Z.of_nat k - n + 1)) (1, line)))
    ∧ rx_queue u' = [].
Proof.
  intros Hn Hw. destruct (waiting_rounds line k n u calls ltac:(lia) Hw) as (u' & E & Hq).
  exists u'. by replace (Z.max 1 n) with n in E by lia.
Qed.

(** A UART whose timeout register was written with 3. *)
Definition sample_uart : xuartps :=
  mkXuart (mkCommon false false false true true 3 true 115200 [] [] (mkSource true 33)) [] None None
    (mkBytes 0x1000 (fun _ => 0)).

Lemma xuart_timeout_fires_witness :
  ∃ u', xuart_rounds 5 (sample_uart, []) = (Ok tt, (u', [(1, 33); (1, 33); (1, 33)])).
Proof.
  destruct (xuart_timeout_fires 3 33 sample_uart 5 []) as (u' & E & _); [lia|by split|].
  exists u'. exact E.
Defined.

Lemma xuart_received_in_order_witness :
  ∃ u, rtc uart_step (sample_uart, [], []) (u, [], [65]) ∧ [] ++ rx_queue u = [65].
Proof.
  eexists. assert (rtc uart_step (sample_uart, [], []) (set_x_common (set_chan_in [65] (x_common sample_uart)) sample_uart, [], [65])) as Hr.
  { apply rtc_once. apply (byte_arrives 65 sample_uart [] []). }
  split; [exact Hr|]. exact (xuart_received_in_order sample_uart _ [] [65] eq_refl Hr).
Defined.

Definition sample_target : target_if := mkTargetIf (mkAddrSpace 0 0xFFF) 1 false true 0 0.

Lemma xuart_status_register_witness :
  ∃ u' w, xuart_read sample_target (mkPayload TLM_READ_COMMAND 0x2C (Some [0; 0; 0; 0]) 4 false 0 None) 0 sample_uart
    = (Ok (mkReply TLM_OK_RESPONSE (Some (w ++ [])) 0 false), u') ∧ (Z.testbit (le_value w) 1 = true ↔ rx_queue sample_uart = []).
Proof.
  destruct (xuart_status_register sample_uart sample_target
    (mkPayload TLM_READ_COMMAND 0x2C (Some [0; 0; 0; 0]) 4 false 0 None) [0; 0; 0; 0] 0)
    as (u' & w & E & _ & _ & H1 & _); try done.
  exists u', w. split; [exact E|exact H1].
Defined.

(** ** The disable register *)

Lemma GET_BIT_ok m r o : bytes_ok m → 0 ≤ r → r + 8 ≤ b_size m → 0 ≤ o < 32 →
  GET_BIT m r o = Ok (Z.testbit (word32 m r) o).
Proof.
  intros Hm Hr Hs Ho. unfold GET_BIT, GET_BITS, get64. rewrite load_ok by lia. cbn [result_bind]. f_equal.
  rewrite word32_low, Z.mod_pow2_bits_low by (done || lia). set (W := le_value _).
  change (2 ^ 1 - 1) with (Z.ones 1). rewrite Z.land_ones by lia. change (2 ^ 1) with 2.
  rewrite <- Z.bit0_mod, Z.shiftr_spec by lia. rewrite Z.add_0_l. by destruct (Z.testbit W o).
Qed.

Lemma flag_run f u : flag f u = (Ok tt, set_x_common (f (x_common u)) u).
Proof. done. Qed.

Lemma when_bit_run r o c u : bytes_ok (x_mem u) → 0 ≤ r → r + 8 ≤ b_size (x_mem u) → 0 ≤ o < 32 →
  when_bit r o c u = if Z.testbit (word32 (x_mem u) r) o then c u else (Ok tt, u).
Proof.
  intros Hm Hr Hs Ho. unfold when_bit, get_bit. unfold m_bind at 1 2. unfold m_gets, m_lift.
  rewrite GET_BIT_ok by done. unfold m_when. by destruct (Z.testbit _ o).
Qed.

(** Writing a four-byte register. *)
Lemma REG_WRITE_run p o l u : ptr p = Some l → len p = 4 → (4 ≤ length l)%nat → 0 ≤ o → o + 4 ≤ b_size (x_mem u) →
  REG_WRITE p o u = (Ok tt, set_x_mem (poke (x_mem u) o (take 4 l)) u).
Proof.
  intros Hp Hl Hb Ho Hs. unfold REG_WRITE, buffer_bytes. rewrite Hp, Hl. rewrite bool_decide_true by lia.
  do 2 m_exec. unfold m_bind, m_lift. rewrite store_ok by (rewrite ?length_take; lia). done.
Qed.

Lemma word32_poke m o l : length l = 4%nat → word32 (poke m o l) o = le_value l.
Proof. intros Hl. unfold word32. replace 4 with (Z.of_nat (length l)) by lia. by rewrite peek_poke. Qed.

Lemma word32_poke_other m o l r : length l = 4%nat → r + 4 ≤ o ∨ o + 4 ≤ r → word32 (poke m o l) r = word32 m r.
Proof. intros Hl Hr. unfold word32. by rewrite peek_poke_disjoint by lia. Qed.

(** a write to the disable register (offset 0x0C) turns off the transmit interrupt for bit 3
    and the receive interrupt for bits 0 and 2, but the timeout interrupt follows bit 8 of the
    last value written to the enable register (offset 0x08), not of the value written here. *)
Theorem xuart_disable_register (u : xuartps) (t : target_if) (p : payload) (b : list Z) (delay : Z) :
  bytes_ok (x_mem u) → b_size (x_mem u) = 0x1000 → Forall is_byte b →
  u64 (addr p - mBaseAddress (t_space t)) = 0x0C → len p = 4 → ptr p = Some b → length b = 4%nat →
  let v := le_value b in let c := x_common u in
  ∃ u', xuart_write t p delay u = (Ok (mkReply TLM_OK_RESPONSE (Some b) delay false), u')
    ∧ mOutIntEnable (x_common u') = (if Z.testbit v 3 then false else mOutIntEnable c)
    ∧ mIntEnable (x_common u') = (if Z.testbit v 0 || Z.testbit v 2 then false else mIntEnable c)
    ∧ mToIntEnable (x_common u') = (if Z.testbit (word32 (x_mem u) 0x08) 8 then false else mToIntEnable c)
    ∧ mHasTimeout (x_common u') = (if Z.testbit (word32 (x_mem u) 0x08) 8 then false else mHasTimeout c).
Proof.
  intros Hm Hs Hb Ho Hl Hp Hlen v c. unfold xuart_write. cbv zeta. rewrite Ho, Hp.
  unfold REGW, m_when. simpl in_reg. cbv iota. do 4 m_exec.
  set (u1 := set_x_mem (poke (x_mem u) 0x0C (take 4 b)) u).
  pose proof (REG_WRITE_run p 0x0C b u Hp Hl ltac:(lia) ltac:(lia) ltac:(lia)) as E. fold u1 in E.
  assert (bytes_ok (x_mem u1)) as Hm1 by (apply poke_bytes_ok; [done|by apply Forall_take]).
  assert (take 4 b = b) as Hb4 by (apply take_ge; lia).
  assert (word32 (x_mem u1) 0x0C = v) as Hv by (unfold u1; simpl; rewrite Hb4; by apply word32_poke).
  assert (word32 (x_mem u1) 0x08 = word32 (x_mem u) 0x08) as Hier
    by (unfold u1; simpl; rewrite Hb4; apply word32_poke_other; [done|lia]).
  set (e := Z.testbit (word32 (x_mem u) 0x08) 8).
  set (f := fun u : xuartps => if e then set_x_common (set_mHasTimeout false (set_mToIntEnable false (x_common u))) u else u).
  set (f1 := fun (b : bool) (g : CommonUart → CommonUart) (u : xuartps) => if b then set_x_common (g (x_common u)) u else u).
  set (u' := f (f1 (Z.testbit v 2) (set_mIntEnable false) (f1 (Z.testbit v 0) (set_mIntEnable false)
               (f1 (Z.testbit v 3) (set_mOutIntEnable false) u1)))).
  assert (∀ o g w, x_mem w = x_mem u1 → 0 ≤ o < 32 →
    when_bit 0x0C o (flag g) w = (Ok tt, f1 (Z.testbit v o) g w)) as Hwb.
  { intros o g w Hw Hoo. rewrite when_bit_run by (rewrite ?Hw; first [done|lia|simpl; lia]). rewrite Hw, Hv.
    unfold f1. by destruct (Z.testbit v o). }
  assert (∀ b g w, x_mem w = x_mem u1 → x_mem (f1 b g w) = x_mem u1) as Hfm
    by (intros b0 g w Hw; unfold f1; by destruct b0).
  assert ((REG_WRITE p 12 ;;; when_bit 12 3 (flag (set_mOutIntEnable false)) ;;;
     when_bit 12 0 (flag (set_mIntEnable false)) ;;; when_bit 12 2 (flag (set_mIntEnable false)) ;;;
     when_bit 8 8 (flag (set_mToIntEnable false) ;;; flag (set_mHasTimeout false))) u = (Ok tt, u')) as Eall.
  { m_exec_by E. do 3 (erewrite m_bind_ok by (apply Hwb; auto; lia); cbv beta).
    rewrite when_bit_run by (rewrite ?Hfm by auto; first [done|lia|simpl; lia]).
    rewrite !Hfm by auto. rewrite Hier. fold e. unfold u', f. by destruct e. }
  exists u'. m_exec_by Eall. do 4 m_exec. split; [done|]. unfold u', f, f1. fold c.
  by destruct e, (Z.testbit v 3), (Z.testbit v 0), (Z.testbit v 2).
Qed.

(** Bit 8 of the disable register alone changes nothing. *)
Lemma xuart_disable_register_witness :
  ∃ u', xuart_write sample_target (mkPayload TLM_WRITE_COMMAND 0x0C (Some [0; 1; 0; 0]) 4 false 0 None) 0 sample_uart
        = (Ok (mkReply TLM_OK_RESPONSE (Some [0; 1; 0; 0]) 0 false), u')
     ∧ mToIntEnable (x_common u') = true.
Proof.
  destruct (xuart_disable_register sample_uart sample_target
    (mkPayload TLM_WRITE_COMMAND 0x0C (Some [0; 1; 0; 0]) 4 false 0 None) [0; 1; 0; 0] 0)
    as (u' & E & _ & _ & H & _); try done.
  { repeat constructor; lia. }
  exists u'. split; [exact E|exact H].
Defined.

(** ** The interrupt registers of the PL011 *)

Lemma get_reg_run r u : 0 ≤ r → r + 4 ≤ b_size (p_mem u) → get_reg r u = (Ok (word32 (p_mem u) r), u).
Proof. intros Hr Hs. unfold get_reg. m_exec. unfold m_lift. by rewrite load_ok by lia. Qed.

Lemma put_reg_run r v u : 0 ≤ r → r + 4 ≤ b_size (p_mem u) →
  put_reg r v u = (Ok tt, set_p_mem (poke (p_mem u) r (le_bytes 4 v)) u).
Proof.
  intros Hr Hs. unfold put_reg. m_exec. unfold m_bind, m_lift.
  by rewrite store_ok by (rewrite ?length_le_bytes; lia).
Qed.

(** The raw status once the receiver has been looked at. *)
Definition raw_status (u : PL011Uart) : Z :=
  if common_inputReady (p_common u) then Z.lor (word32 (p_mem u) 0x3C) 16 else word32 (p_mem u) 0x3C.

Lemma word32_bound m r : bytes_ok m → 0 ≤ word32 m r < 2 ^ 32.
Proof. intros Hm. rewrite word32_low by done. apply Z.mod_pos_bound. lia. Qed.

Lemma raw_status_bound u : bytes_ok (p_mem u) → 0 ≤ raw_status u < 2 ^ 32.
Proof.
  intros Hm. unfold raw_status. pose proof (word32_bound (p_mem u) 0x3C Hm) as Hw.
  destruct (common_inputReady (p_common u)); [|done]. split; [apply Z.lor_nonneg; lia|].
  destruct (decide (Z.lor (word32 (p_mem u) 0x3C) 16 = 0)) as [->|Hne]; [lia|].
  assert (0 < Z.lor (word32 (p_mem u) 0x3C) 16)
    by (pose proof (proj2 (Z.lor_nonneg (word32 (p_mem u) 0x3C) 16) ltac:(lia)); lia).
  apply Z.log2_lt_pow2; [done|]. rewrite Z.log2_lor by lia. apply Z.max_lub_lt; [|cbn; lia].
  destruct (decide (word32 (p_mem u) 0x3C = 0)) as [->|]; [cbn; lia|]. apply Z.log2_lt_pow2; lia.
Qed.

Lemma note_input_run u : bytes_ok (p_mem u) → b_size (p_mem u) = 0x4000 →
  ∃ m, note_input u = (Ok tt, set_p_mem m u) ∧ word32 m 0x3C = raw_status u
    ∧ word32 m 0x38 = word32 (p_mem u) 0x38 ∧ b_size m = 0x4000.
Proof.
  intros Hm Hs. pose proof (raw_status_bound u Hm) as Hraw. unfold raw_status in Hraw.
  unfold note_input. unfold p_inputReady, raw_status. m_exec. unfold m_when.
  destruct (common_inputReady (p_common u)).
  - unfold m_bind. rewrite get_reg_run by lia. rewrite put_reg_run by lia. eexists. split; [done|].
    rewrite word32_poke by done. rewrite word32_poke_other by (done || lia).
    rewrite le_value_bytes. split_and!; [|done|done]. by apply Z.mod_small.
  - exists (p_mem u). split_and!; try done. by destruct u.
Qed.

(** the interrupt status registers of the PL011: the masked status (offset 0x40) is the raw
    status and the mask, where the raw status has its receive bit set whenever the channel has
    input; a read of the raw status itself (offset 0x3C) updates the register but leaves the
    buffer of the transaction as it was, so that the reader does not see it. *)
Theorem pl011_interrupt_status (u : PL011Uart) (t : target_if) (p : payload) (b : list Z) (delay : Z) :
  bytes_ok (p_mem u) → b_size (p_mem u) = 0x4000 → ptr p = Some b → (4 ≤ length b)%nat →
  (u64 (addr p - mBaseAddress (t_space t)) = 0x40 →
     (pl011_read t p delay u).1 = Ok (mkReply TLM_OK_RESPONSE
       (Some (le_bytes 4 (Z.land (raw_status u) (word32 (p_mem u) 0x38)) ++ drop 4 b)) delay false))
  ∧ (u64 (addr p - mBaseAddress (t_space t)) = 0x3C →
     (pl011_read t p delay u).1 = Ok (mkReply TLM_OK_RESPONSE (Some b) delay false)
     ∧ word32 (p_mem (pl011_read t p delay u).2) 0x3C = raw_status u).
Proof.
  intros Hm Hs Hp Hb. destruct (note_input_run u Hm Hs) as (m & E & Hraw & Hmask & Hsize).
  split; intros Ho; unfold pl011_read; cbv zeta; rewrite Ho, Hp; simpl bool_decide; cbv iota.
  - assert ((note_input ;;; raw <- get_reg 60 ;; mask <- get_reg 56 ;; m_lift (put_word (Some b) (Z.land raw mask))) u
      = (Ok (Some (le_bytes 4 (Z.land (raw_status u) (word32 (p_mem u) 0x38)) ++ drop 4 b)), set_p_mem m u)) as E1.
    { m_exec_by E. unfold m_bind. rewrite get_reg_run by (simpl; lia). rewrite get_reg_run by (simpl; lia).
      simpl p_mem. rewrite Hraw, Hmask. unfold m_lift, put_word. by rewrite bool_decide_true by done. }
    unfold m_bind at 1. rewrite E1. done.
  - unfold m_bind. rewrite E. split; [done|exact Hraw].
Qed.

Definition sample_pl011 : PL011Uart :=
  mkPL011 (new_CommonUart [65] (mkSource true 33)) 0
    (poke (mkBytes 0x4000 (fun _ => 0)) 0x38 (le_bytes 4 0x10)).

Lemma pl011_interrupt_status_witness :
  (pl011_read sample_target (mkPayload TLM_READ_COMMAND 0x40 (Some [9; 9; 9; 9]) 4 false 0 None) 0 sample_pl011).1
  = Ok (mkReply TLM_OK_RESPONSE (Some [16; 0; 0; 0]) 0 false).
Proof.
  apply (pl011_interrupt_status sample_pl011 sample_target
    (mkPayload TLM_READ_COMMAND 0x40 (Some [9; 9; 9; 9]) 4 false 0 None) [9; 9; 9; 9] 0); try done.
  apply poke_bytes_ok; [|apply le_bytes_byte]. intros x. unfold is_byte. simpl. lia.
Defined.
