(* ===== verification/Rtc.v ===== *)
(** * The real-time clock ([components/peripherals/rtc.cpp], [rtc.hpp])

    The clock keeps watchdogs: an interrupt to raise at a deadline.  Other processes set and
    cancel them, and a thread waits for the earliest one or for a change.  As in the file
    [Schedule], the model is a step relation of the processes, the thread and the SystemC kernel.
    The file shows that the thread raises exactly the watchdogs that are due, the earliest first,
    that an interrupt comes at the deadline of its watchdog or when it was set if that is later,
    and that the thread fails when the last watchdog is cancelled while it waits.

    The conversion of a counter value to a time divides two [double]s and converts the quotient
    to the resolution of the kernel; it is a parameter. *)

From S2P Require Import Prelude SortedMap.
From Stdlib Require Import Sorted.

Record IrqWatchdog := mkIrqWatchdog { watchdogIdx : Z; deadline : Z; irqIf : nat; value : Z; irqIdx : Z }.
#[global] Instance IrqWatchdog_dec : EqDecision IrqWatchdog.
Proof. solve_decision. Defined.

Definition isPassed (now : Z) (w : IrqWatchdog) : bool := bool_decide (deadline w ≤ now).

(** Where the thread is: not started, in [wait (event)], or in [wait (time, event)] with the time
    of the timeout. *)
Inductive thread := Starting | Idle | Waiting (timeout : Z).
#[global] Instance thread_dec : EqDecision thread.
Proof. solve_decision. Defined.

(** The clock, the time, whether [start_of_simulation] was invoked, the pending notification of
    [mNewWatchdogEvent], and the calls of [update_irq] with their times. *)
Record Rtc := mkRtc {
  now : Z;
  started : bool;
  mWatchdogs : list (Z * IrqWatchdog);
  waits : thread;
  notified : bool;
  raised : list (Z * IrqWatchdog) }.

Definition new_Rtc : Rtc := mkRtc 0 false [] Starting false [].

(** [std::map::emplace] and [erase] on integer keys. *)
Fixpoint watch_emplace (idx : Z) (w : IrqWatchdog) (l : list (Z * IrqWatchdog)) : list (Z * IrqWatchdog) :=
  match l with
  | [] => [(idx, w)]
  | (i, v) :: l' =>
      if bool_decide (idx < i) then (idx, w) :: (i, v) :: l'
      else if bool_decide (idx = i) then (i, v) :: l'
      else (i, v) :: watch_emplace idx w l'
  end.
Definition watch_erase (idx : Z) (l : list (Z * IrqWatchdog)) : list (Z * IrqWatchdog) := filter (fun p => p.1 ≠ idx) l.

(** ** The operations *)

Definition cancelWatchdog (idx : Z) (s : Rtc) : bool * Rtc :=
  if bool_decide (idx ∈ (mWatchdogs s).*1)
  then (true, mkRtc (now s) (started s) (watch_erase idx (mWatchdogs s)) (waits s) true (raised s))
  else (false, s).

Definition setWatchdog (watchdog : IrqWatchdog) (s : Rtc) : Rtc :=
  let s := (cancelWatchdog (watchdogIdx watchdog) s).2 in
  mkRtc (now s) (started s) (watch_emplace (watchdogIdx watchdog) watchdog (mWatchdogs s)) (waits s) (notified s || started s) (raised s).

(** The overload with a counter value of [reg_T], of [bits] bits. *)
Definition setWatchdog_at (bits : Z) (counterToTime : Z → Z) (idx deadline : Z) (irq : nat) (value line : Z) (s : Rtc) : Rtc :=
  setWatchdog (mkIrqWatchdog idx (counterToTime (u64 (deadline + 300000) mod 2 ^ bits)) irq value line) s.

(** [begin()] of an empty map is dereferenced. *)
Definition getNextWatchdog (l : list (Z * IrqWatchdog)) : result IrqWatchdog :=
  match l with
  | [] => Err (UndefinedBehaviour "dereference of an end iterator")
  | (_, first) :: _ => Ok (foldl (fun next p => if bool_decide (deadline p.2 < deadline next) then p.2 else next) first l)
  end.

Definition set_waits (t : thread) (s : Rtc) : Rtc := mkRtc (now s) (started s) (mWatchdogs s) t (notified s) (raised s).
Definition update_irq (w : IrqWatchdog) (s : Rtc) : Rtc :=
  mkRtc (now s) (started s) (mWatchdogs s) (waits s) (notified s) (raised s ++ [(now s, w)]).

(** [watchThread] from the test of the inner loop to the next [wait]. *)
Fixpoint watch_from (fuel : nat) (nextWatchdog : IrqWatchdog) (s : Rtc) : result Rtc :=
  if isPassed (now s) nextWatchdog then
    match fuel with
    | O => Err OutOfFuel
    | S fuel =>
        let s := update_irq nextWatchdog (cancelWatchdog (watchdogIdx nextWatchdog) s).2 in
        match mWatchdogs s with
        | [] => Ok (set_waits Idle s)
        | _ => let* w := getNextWatchdog (mWatchdogs s) in watch_from fuel w s
        end
    end
  else Ok (set_waits (Waiting (now s + (deadline nextWatchdog - now s))) s).

(** The thread, from where it is to the next [wait]: every turn removes a watchdog. *)
Definition watchThread (s : Rtc) : result Rtc :=
  match waits s, mWatchdogs s with
  | (Starting | Idle), [] => Ok (set_waits Idle s)
  | _, l => let* w := getNextWatchdog l in watch_from (length l) w s
  end.

(** ** The kernel *)

Definition clear_event (s : Rtc) : Rtc := mkRtc (now s) (started s) (mWatchdogs s) (waits s) false (raised s).
Definition set_now (t : Z) (s : Rtc) : Rtc := mkRtc t (started s) (mWatchdogs s) (waits s) (notified s) (raised s).
Definition start (s : Rtc) : Rtc := mkRtc (now s) true (mWatchdogs s) (waits s) (notified s) (raised s).

Inductive kernel_step : Rtc → Rtc → Prop :=
  | k_begin s : started s = false → kernel_step s (start s)
  | k_start s s' : started s = true → waits s = Starting → watchThread s = Ok s' → kernel_step s s'
  | k_notify s s' : notified s = true → waits s ≠ Starting → watchThread (clear_event s) = Ok s' → kernel_step s s'
  | k_timeout s s' : waits s = Waiting (now s) → watchThread s = Ok s' → kernel_step s s'
  | k_advance s t : notified s = false → waits s ≠ Starting → now s < t < 2 ^ 64 →
      (∀ T, waits s = Waiting T → t ≤ T) → kernel_step s (set_now t s).

(** A run: the kernel and the processes that use the clock, with the watchdogs that were set and when. *)
Inductive run : list (Z * IrqWatchdog) → Rtc → Prop :=
  | run_new : run [] new_Rtc
  | run_kernel acc s s' : run acc s → kernel_step s s' → run acc s'
  | run_set acc s w : run acc s → 0 ≤ deadline w < 2 ^ 64 → run (acc ++ [(now s, w)]) (setWatchdog w s)
  | run_cancel acc s idx : run acc s → run acc (cancelWatchdog idx s).2.

(** ** The earliest watchdog *)

Lemma getNextWatchdog_least l : l ≠ [] → ∃ w, getNextWatchdog l = Ok w ∧ w ∈ l.*2 ∧ ∀ v, v ∈ l.*2 → deadline w ≤ deadline v.
Proof.
  set (f := fun next (p : Z * IrqWatchdog) => if bool_decide (deadline p.2 < deadline next) then p.2 else next).
  assert (∀ l w, let w' := foldl f w l in (w' = w ∨ w' ∈ l.*2) ∧ deadline w' ≤ deadline w ∧ ∀ v, v ∈ l.*2 → deadline w' ≤ deadline v) as H.
  { clear l. induction l as [|p l IH]; intros w; simpl; [split_and!; [by left|lia|by intros v ?%elem_of_nil]|].
    destruct (IH (f w p)) as (Hin & Hle & Hall). cbv zeta. assert (deadline (f w p) ≤ deadline w ∧ deadline (f w p) ≤ deadline p.2) as [H1 H2]
      by (unfold f; case_bool_decide; lia). split_and!; [|lia|].
    - destruct Hin as [->|?]; [|right; by right]. unfold f. case_bool_decide; [right; left|by left].
    - intros v [->|Hv]%elem_of_cons; [lia|by apply Hall]. }
  destruct l as [|[i w] l]; [done|]. intros _. destruct (H ((i, w) :: l) w) as (Hin & _ & Hall). eexists. split; [reflexivity|]. split; [|exact Hall].
  destruct Hin as [E|?]; [|done]. fold f. rewrite E. left.
Qed.

Lemma elem_of_watch_emplace i w l p : p ∈ watch_emplace i w l → p = (i, w) ∨ p ∈ l.
Proof.
  induction l as [|[j v] l IH]; simpl; [by intros ->%list_elem_of_singleton; left|].
  repeat case_bool_decide; rewrite ?elem_of_cons; naive_solver.
Qed.

(** Every entry is under the index of its watchdog. *)
Definition keyed (l : list (Z * IrqWatchdog)) : Prop := ∀ i w, (i, w) ∈ l → i = watchdogIdx w.

Lemma keyed_in l w : keyed l → w ∈ l.*2 ↔ (watchdogIdx w, w) ∈ l.
Proof.
  intros Hk. rewrite list_elem_of_fmap. split; [|by intros ?; exists (watchdogIdx w, w)].
  intros ([i v] & -> & H). simpl. by rewrite <- (Hk i v H).
Qed.

Lemma watch_erase_keyed i l : keyed l → keyed (watch_erase i l).
Proof. intros Hk j w [_ H]%list_elem_of_filter. by apply Hk. Qed.

Lemma cancel_shorter l i : i ∈ l.*1 → (length (watch_erase i l) < length l)%nat.
Proof. intros ([? ?] & -> & H)%list_elem_of_fmap. by eapply length_filter_lt; [exact H|]; simpl; intros []. Qed.

(** ** What a turn of the thread raises *)

(** No watchdog has the index of another. *)
Definition unique_idx (l : list (Z * IrqWatchdog)) : Prop := ∀ i v w, (i, v) ∈ l → (i, w) ∈ l → v = w.

Record raises (s : Rtc) (ws : list IrqWatchdog) (s' : Rtc) : Prop := mkRaises {
  ra_log : raised s' = raised s ++ ((fun w => (now s, w)) <$> ws);
  ra_order : StronglySorted (fun v w => deadline v ≤ deadline w) ws;
  ra_due w : w ∈ ws ↔ w ∈ (mWatchdogs s).*2 ∧ deadline w ≤ now s;
  ra_rest : mWatchdogs s' = filter (fun p => now s < deadline p.2) (mWatchdogs s);
  ra_now : now s' = now s ∧ started s' = started s;
  ra_waits : waits s' = Idle ∧ mWatchdogs s' = []
    ∨ ∃ w, w ∈ (mWatchdogs s').*2 ∧ waits s' = Waiting (deadline w) ∧ ∀ v, v ∈ (mWatchdogs s').*2 → deadline w ≤ deadline v }.

Lemma filter_skip {A} (P Q : A → Prop) `{!∀ a, Decision (P a), !∀ a, Decision (Q a)} (l : list A) :
  (∀ a, a ∈ l → P a → Q a) → filter P (filter Q l) = filter P l.
Proof.
  induction l as [|a l IH]; intros Hpq; [done|]. specialize (IH (fun b Hb => Hpq b (list_elem_of_further _ _ _ Hb))).
  specialize (Hpq a (list_elem_of_here _ _)). rewrite (filter_cons Q). destruct (decide (Q a)) as [HQ|HQ]; rewrite !filter_cons, IH; [done|].
  by rewrite decide_False by auto.
Qed.

Lemma filter_whole {A} (P : A → Prop) `{!∀ a, Decision (P a)} (l : list A) : (∀ a, a ∈ l → P a) → filter P l = l.
Proof.
  induction l as [|a l IH]; intros HP; [done|]. rewrite filter_cons, decide_True by apply HP, list_elem_of_here.
  f_equal. apply IH. intros b Hb. by apply HP, list_elem_of_further.
Qed.

Lemma erase_keeps l w v : keyed l → unique_idx l → w ∈ l.*2 → v ∈ l.*2 ↔ v = w ∨ v ∈ (watch_erase (watchdogIdx w) l).*2.
Proof.
  intros Hk Hu Hw. rewrite (keyed_in _ w Hk) in Hw. rewrite (keyed_in _ v Hk), (keyed_in _ v (watch_erase_keyed _ _ Hk)).
  unfold watch_erase. rewrite list_elem_of_filter. simpl. split.
  - intros Hv. destruct (decide (watchdogIdx v = watchdogIdx w)) as [E|]; [left|by right]. rewrite E in Hv.
    by apply (Hu (watchdogIdx w)).
  - by intros [->|[_ ?]].
Qed.

Lemma erase_unique i l : unique_idx l → unique_idx (watch_erase i l).
Proof. intros Hu j v w [_ Hv]%list_elem_of_filter [_ Hw]%list_elem_of_filter. by eapply Hu. Qed.

Lemma cancel_due w s : w ∈ (mWatchdogs s).*2 → keyed (mWatchdogs s) →
  (cancelWatchdog (watchdogIdx w) s).2 = mkRtc (now s) (started s) (watch_erase (watchdogIdx w) (mWatchdogs s)) (waits s) true (raised s).
Proof.
  intros Hw Hk. unfold cancelWatchdog. rewrite bool_decide_true; [done|]. rewrite (keyed_in _ w Hk) in Hw.
  apply list_elem_of_fmap. by exists (watchdogIdx w, w).
Qed.

Lemma sorted_single_head w ws : (∀ v, v ∈ ws → deadline w ≤ deadline v) → StronglySorted (fun v w => deadline v ≤ deadline w) ws →
  StronglySorted (fun v w => deadline v ≤ deadline w) (w :: ws).
Proof. intros Hw Hs. constructor; [done|]. rewrite Forall_forall. exact Hw. Qed.

(** Raising the earliest watchdog first and then what the rest of the turn raises. *)
Lemma raises_cons w s ws s' : keyed (mWatchdogs s) → unique_idx (mWatchdogs s) → w ∈ (mWatchdogs s).*2 → deadline w ≤ now s →
  (∀ v, v ∈ (mWatchdogs s).*2 → deadline w ≤ deadline v) →
  raises (update_irq w (cancelWatchdog (watchdogIdx w) s).2) ws s' → raises s (w :: ws) s'.
Proof.
  intros Hk Hu Hw Hd Hmin [Hl Ho Hdue Hr Hn Hwait]. rewrite cancel_due in * by done. simpl in *. split; try done.
  - rewrite Hl. by rewrite <- app_assoc.
  - apply sorted_single_head; [|done]. intros v [Hv _]%Hdue. apply Hmin. apply (erase_keeps _ w); auto.
  - intros v. rewrite elem_of_cons, Hdue, (erase_keeps (mWatchdogs s) w v) by done. naive_solver.
  - rewrite Hr. apply filter_skip. intros [i v] Hv Hlt. simpl in *. intros ->. assert (v = w) as ->; [|lia].
    rewrite (keyed_in _ w Hk) in Hw. by apply (Hu (watchdogIdx w)).
Qed.

Lemma nothing_left s : mWatchdogs s = [] → raises s [] (set_waits Idle s).
Proof.
  intros E. split; simpl; rewrite ?E; [by rewrite app_nil_r|constructor| |done|done|by left].
  intros w. split; [by intros ?%elem_of_nil|by intros [?%elem_of_nil _]].
Qed.

Lemma watch_from_raises fuel : ∀ s w, keyed (mWatchdogs s) → unique_idx (mWatchdogs s) → w ∈ (mWatchdogs s).*2 →
  (∀ v, v ∈ (mWatchdogs s).*2 → deadline w ≤ deadline v) → (length (mWatchdogs s) ≤ fuel)%nat →
  ∃ s' ws, watch_from fuel w s = Ok s' ∧ raises s ws s'.
Proof.
  induction fuel as [|fuel IH]; intros s w Hk Hu Hw Hmin Hf.
  { destruct (mWatchdogs s); [by apply elem_of_nil in Hw|simpl in Hf; lia]. }
  cbn [watch_from]. unfold isPassed. case_bool_decide as Hd.
  - set (s1 := update_irq _ _). assert (mWatchdogs s1 = watch_erase (watchdogIdx w) (mWatchdogs s)) as E1 by (unfold s1; by rewrite cancel_due).
    destruct (decide (mWatchdogs s1 = [])) as [E|E].
    + rewrite E. eexists _, [w]. split; [done|]. apply raises_cons; try done. by apply nothing_left.
    + destruct (getNextWatchdog_least _ E) as (w' & Eg & Hin & Hmin'). destruct (mWatchdogs s1) as [|p l] eqn:El; [done|]. rewrite <- El in *.
      rewrite Eg. cbn [result_bind]. destruct (IH s1 w') as (s' & ws & Es & Hr); try done.
      * rewrite E1. by apply watch_erase_keyed.
      * rewrite E1. by apply erase_unique.
      * rewrite E1. apply keyed_in in Hw; [|done]. pose proof (cancel_shorter (mWatchdogs s) (watchdogIdx w)) as Hlt.
        assert (watchdogIdx w ∈ (mWatchdogs s).*1) by (apply list_elem_of_fmap; by exists (watchdogIdx w, w)). specialize (Hlt H). lia.
      * exists s', (w :: ws). split; [done|]. by apply raises_cons.
  - eexists _, []. split; [done|]. split; simpl; [by rewrite app_nil_r|constructor| | |done|].
    + intros v. split; [by intros ?%elem_of_nil|]. intros [Hv ?]. specialize (Hmin v Hv). lia.
    + symmetry. apply filter_whole. intros [i v] Hv. simpl. assert (v ∈ (mWatchdogs s).*2) as Hv2 by (apply list_elem_of_fmap; by exists (i, v)).
      specialize (Hmin v Hv2). lia.
    + right. exists w. split; [done|]. split; [|done]. f_equal. lia.
Qed.

(** The thread returns from its turn unless it waits for a watchdog and there are none. *)
Lemma watchThread_raises s : keyed (mWatchdogs s) → unique_idx (mWatchdogs s) → ((∃ T, waits s = Waiting T) → mWatchdogs s ≠ []) →
  ∃ s' ws, watchThread s = Ok s' ∧ raises s ws s'.
Proof.
  intros Hk Hu Hne. unfold watchThread. destruct (mWatchdogs s) as [|p l] eqn:El.
  - destruct (waits s) as [| |T]; [..|by destruct Hne; eauto]; eexists _, []; (split; [done|by apply nothing_left]).
  - rewrite <- El in *. destruct (getNextWatchdog_least (mWatchdogs s)) as (w & Eg & Hin & Hmin); [congruence|].
    destruct (watch_from_raises (length (mWatchdogs s)) s w) as (s' & ws & Es & Hr); try done.
    exists s', ws. split; [|done]. rewrite El in *. destruct (waits s); rewrite Eg; exact Es.
Qed.

(** ** The invariant *)

Record rtc_inv (acc : list (Z * IrqWatchdog)) (s : Rtc) : Prop := mkRtcInv {
  ri_now : 0 ≤ now s < 2 ^ 64;
  ri_keyed : keyed (mWatchdogs s);
  ri_unique : unique_idx (mWatchdogs s);
  ri_pending w : w ∈ (mWatchdogs s).*2 → deadline w < 2 ^ 64 ∧ ∃ t, (t, w) ∈ acc ∧ t ≤ now s ≤ Z.max t (deadline w);
  ri_raised t w : (t, w) ∈ raised s → ∃ t0, (t0, w) ∈ acc ∧ t = Z.max t0 (deadline w);
  ri_started : started s = false → waits s = Starting;
  ri_idle : waits s = Idle → notified s = false → mWatchdogs s = [];
  ri_waiting T : waits s = Waiting T → now s ≤ T < 2 ^ 64 ∧
    (notified s = false → mWatchdogs s ≠ [] ∧ ∀ w, w ∈ (mWatchdogs s).*2 → T ≤ deadline w) }.

Lemma raises_inv acc s ws s' : rtc_inv acc s → started s = true → raises s ws s' → rtc_inv acc s'.
Proof.
  intros [Hn Hk Hu Hp Hr Hs Hi Hw] Hst [Hl Ho Hdue Hrest [En Es] Hwait].
  assert (∀ w, w ∈ (mWatchdogs s').*2 → w ∈ (mWatchdogs s).*2 ∧ now s < deadline w) as Hsub.
  { intros w. rewrite Hrest, !list_elem_of_fmap. intros ([i v] & -> & [Hlt Hin]%list_elem_of_filter). split; [by exists (i, v)|done]. }
  split; rewrite ?En; try done.
  - intros i w. rewrite Hrest. intros [_ H]%list_elem_of_filter. by apply Hk.
  - intros i v w. rewrite Hrest. intros [_ H1]%list_elem_of_filter [_ H2]%list_elem_of_filter. by eapply Hu.
  - intros w [Hin _]%Hsub. by apply Hp.
  - intros t w. rewrite Hl. intros [H|H]%elem_of_app; [by apply Hr|]. apply list_elem_of_fmap in H as (v & [= -> ->] & Hv).
    apply Hdue in Hv as [Hv Hd]. destruct (Hp v Hv) as (_ & t0 & Hin & Ht0). exists t0. split; [done|lia].
  - congruence.
  - intros Ei _. destruct Hwait as [[_ ?]|(w & _ & Ew & _)]; [done|congruence].
  - intros T ET. destruct Hwait as [[Ew _]|(w & Hin & Ew & Hmin)]; [congruence|]. rewrite ET in Ew. injection Ew as ->.
    destruct (Hsub w Hin) as [Hin' Hlt]. destruct (Hp w Hin') as [Hb _]. split; [lia|]. intros _. split; [|done].
    intros E. rewrite E in Hin. by apply elem_of_nil in Hin.
Qed.

(** A turn only needs what holds wherever the thread is. *)
Lemma turn_inv acc s s' : rtc_inv acc (set_waits Starting s) → started s = true → watchThread s = Ok s' → rtc_inv acc s'.
Proof.
  intros H Hst E. destruct (decide (mWatchdogs s = [])) as [Em|Em].
  - assert (s' = set_waits Idle s) as ->.
    { unfold watchThread in E. rewrite Em in E. by destruct (waits s); [injection E as <-..|]. }
    apply (raises_inv acc (set_waits Starting s) [] _ H Hst). by apply (nothing_left (set_waits Starting s)).
  - destruct (watchThread_raises s) as (s1 & ws & E1 & Hr); [apply (ri_keyed _ _ H)|apply (ri_unique _ _ H)|done|].
    assert (s1 = s') as -> by congruence. apply (raises_inv acc (set_waits Starting s) ws _ H Hst). by destruct Hr.
Qed.

Lemma set_waits_inv acc s b : rtc_inv acc s → rtc_inv acc (mkRtc (now s) (started s) (mWatchdogs s) Starting b (raised s)).
Proof. intros []. by split. Qed.

Lemma rtc_kernel_inv acc s s' : rtc_inv acc s → kernel_step s s' → rtc_inv acc s'.
Proof.
  intros H Hstep. destruct Hstep as [s Es|s s' Es Ew E|s s' Ev Ew E|s s' Ew E|s t Ev Ew Ht HT].
  - destruct H as [Hn Hk Hu Hp Hr Hs Hi Hw]. split; try done; simpl; by rewrite Hs.
  - apply (turn_inv acc s); [by apply set_waits_inv|done..].
  - apply (turn_inv acc (clear_event s)); [by apply (set_waits_inv acc s)| |done]. simpl. destruct (started s) eqn:Es; [done|].
    by destruct Ew; apply H.
  - apply (turn_inv acc s); [by apply set_waits_inv| |done]. destruct (started s) eqn:Es; [done|]. by rewrite (ri_started _ _ H Es) in Ew.
  - destruct H as [Hn Hk Hu Hp Hr Hs Hi Hw]. split; simpl; try done; [lia| |].
    + intros w Hin. destruct (Hp w Hin) as (Hb & t0 & Hacc & Hle). split; [done|]. exists t0. split; [done|]. destruct (waits s) as [| |T] eqn:E; [done| |].
      * rewrite (Hi eq_refl Ev) in Hin. by apply elem_of_nil in Hin.
      * destruct (Hw T eq_refl) as [_ [_ Hmin]%(fun F => F Ev)]. specialize (HT T eq_refl). specialize (Hmin w Hin). lia.
    + intros T ET. specialize (HT T ET). destruct (Hw T ET) as [? HTw]. split; [lia|done].
Qed.

(** ** Setting and cancelling *)

Lemma cancel_inv acc s i : rtc_inv acc s → rtc_inv acc (cancelWatchdog i s).2
  ∧ now (cancelWatchdog i s).2 = now s ∧ ∀ j w, (j, w) ∈ mWatchdogs (cancelWatchdog i s).2 → j ≠ i.
Proof.
  intros H. unfold cancelWatchdog. case_bool_decide as Hin; simpl.
  - destruct H as [Hn Hk Hu Hp Hr Hs Hi Hw]. split; [|by split; [|intros j w [? _]%list_elem_of_filter]]. split; simpl; try done.
    + by apply watch_erase_keyed.
    + by apply erase_unique.
    + intros w ([j v] & -> & [_ Hv]%list_elem_of_filter)%list_elem_of_fmap. apply Hp, list_elem_of_fmap. by exists (j, v).
    + intros T ET. destruct (Hw T ET). done.
  - split; [done|]. split; [done|]. intros j w Hw ->. apply Hin, list_elem_of_fmap. by exists (i, w).
Qed.

Lemma set_inv acc s w : rtc_inv acc s → 0 ≤ deadline w < 2 ^ 64 → rtc_inv (acc ++ [(now s, w)]) (setWatchdog w s).
Proof.
  intros H Hd. unfold setWatchdog. destruct (cancel_inv acc s (watchdogIdx w) H) as ([Hn Hk Hu Hp Hr Hs Hi Hw] & En & Hne).
  rewrite <- En. set (s1 := (cancelWatchdog _ s).2) in *. split; simpl; try done.
  - intros i v [[= -> ->]|Hin]%elem_of_watch_emplace; [done|by apply Hk].
  - intros i v v' [[= -> ->]|H1]%elem_of_watch_emplace [[= ->]|H2]%elem_of_watch_emplace; try done; [by apply Hne in H2|subst; by apply Hne in H1|by eapply Hu].
  - intros v ([i v'] & -> & [[= -> ->]|Hin]%elem_of_watch_emplace)%list_elem_of_fmap; simpl.
    + split; [lia|]. exists (now s1). split; [apply elem_of_app; right; left|lia].
    + destruct (Hp v') as (Hb & t0 & Ha & Ht); [apply list_elem_of_fmap; by exists (i, v')|]. split; [done|]. exists t0. split; [apply elem_of_app; by left|done].
  - intros t v Hin. destruct (Hr t v Hin) as (t0 & Ha & ->). exists t0. split; [apply elem_of_app; by left|done].
  - intros Ei [Ev Est]%orb_false_iff. by rewrite (Hs Est) in Ei.
  - intros T ET. destruct (Hw T ET) as [? _]. split; [done|]. intros [Ev Est]%orb_false_iff. by rewrite (Hs Est) in ET.
Qed.

Lemma rtc_run_inv acc s : run acc s → rtc_inv acc s.
Proof.
  induction 1 as [|acc s s' _ IH Hk|acc s w _ IH Hd|acc s i _ IH].
  - split; simpl; try done; [intros ? ? ?%elem_of_nil; done|intros ? ? ? ?%elem_of_nil; done|intros ? ?%elem_of_nil; done|intros ? ? ?%elem_of_nil; done].
  - by eapply rtc_kernel_inv.
  - by apply set_inv.
  - by apply cancel_inv.
Qed.

Lemma rtc_kernel_progress acc s : rtc_inv acc s → mWatchdogs s ≠ [] → ∃ s', kernel_step s s'.
Proof.
  intros H Hne. destruct (started s) eqn:Es; [|eexists; by apply k_begin].
  destruct (watchThread_raises (clear_event s)) as (s1 & _ & E1 & _); [apply (ri_keyed _ _ H)|apply (ri_unique _ _ H)|done|].
  destruct (watchThread_raises s) as (s2 & _ & E2 & _); [apply (ri_keyed _ _ H)|apply (ri_unique _ _ H)|done|].
  destruct (waits s) as [| |T] eqn:E; [eexists; by apply k_start| |]; (destruct (notified s) eqn:Ev; [eexists; by apply k_notify; [|congruence|]|]).
  - by rewrite (ri_idle _ _ H E Ev) in Hne.
  - destruct (ri_waiting _ _ H T E) as [HT _]. destruct (decide (T = now s)) as [->|]; [eexists; by apply k_timeout|].
    exists (set_now T s). apply k_advance; [done|congruence|lia|]. intros T' ET. rewrite E in ET. injection ET as ->. lia.
Qed.

(** ** Theorems *)

(** C30: whatever the processes and the kernel do, when the thread of the clock gets its turn it raises exactly the
    watchdogs whose deadline is not after the present time, the earliest first, and keeps the others; then it waits for
    the deadline of the earliest one that is left, or for a new one if there is none.  The exception is that all watchdogs were
    cancelled while the thread waited for one: then it dereferences the end of the empty map. *)
Theorem rtc_turn acc s : run acc s →
  if decide (waits s ≠ Starting ∧ waits s ≠ Idle ∧ mWatchdogs s = [])
  then watchThread s = Err (UndefinedBehaviour "dereference of an end iterator")
  else ∃ s' ws, watchThread s = Ok s' ∧ raises s ws s'.
Proof.
  intros H%rtc_run_inv. case_decide as Hc.
  - destruct Hc as (H1 & H2 & E). unfold watchThread. rewrite E. by destruct (waits s).
  - apply watchThread_raises; [apply H..|]. intros [T E] Em. apply Hc. by rewrite E, Em.
Qed.

(** C29: no watchdog of the clock is late or early.  In every run an interrupt was raised for a watchdog that was set, at its
    deadline or at the time it was set if the deadline had passed by then; the time does not go beyond that point while
    the watchdog is still there; and while there is a watchdog the kernel can always go on. *)
Theorem rtc_on_time acc s : run acc s →
  (∀ t w, (t, w) ∈ raised s → ∃ t0, (t0, w) ∈ acc ∧ t = Z.max t0 (deadline w))
  ∧ (∀ i w, (i, w) ∈ mWatchdogs s → ∃ t0, (t0, w) ∈ acc ∧ t0 ≤ now s ≤ Z.max t0 (deadline w))
  ∧ (mWatchdogs s ≠ [] → ∃ s', kernel_step s s').
Proof.
  intros H%rtc_run_inv. split_and!.
  - apply (ri_raised _ _ H).
  - intros i w Hin. apply (ri_pending _ _ H w), list_elem_of_fmap. by exists (i, w).
  - by apply (rtc_kernel_progress acc).
Qed.

(** ** Concrete runs *)

Definition dog (i t : Z) : IrqWatchdog := mkIrqWatchdog i t 0 1 (i + 32).
Definition two_dogs : list (Z * IrqWatchdog) := [(1, dog 1 20); (2, dog 2 10)].

Lemma two_dogs_run : run [(0, dog 1 20); (0, dog 2 10)] (mkRtc 10 true two_dogs (Waiting 10) false []).
Proof.
  apply (run_kernel _ (mkRtc 0 true two_dogs (Waiting 10) false [])).
  2: { apply (k_advance (mkRtc 0 true two_dogs (Waiting 10) false []) 10); [done|done|simpl; lia|]. intros T [= <-]. lia. }
  apply (run_kernel _ (mkRtc 0 true two_dogs Starting false [])); [|by apply k_start].
  apply (run_kernel _ (mkRtc 0 false two_dogs Starting false [])); [|by apply (k_begin (mkRtc 0 false two_dogs Starting false []))].
  apply (run_set [(0, dog 1 20)] (mkRtc 0 false [(1, dog 1 20)] Starting false []) (dog 2 10)); [|simpl; lia].
  apply (run_set [] new_Rtc (dog 1 20)); [constructor|simpl; lia].
Qed.

Lemma rtc_turn_witness :
  (∃ s' ws, watchThread (mkRtc 10 true two_dogs (Waiting 10) false []) = Ok s' ∧ raises (mkRtc 10 true two_dogs (Waiting 10) false []) ws s')
  ∧ watchThread (mkRtc 10 true [] (Waiting 10) true []) = Err (UndefinedBehaviour "dereference of an end iterator").
Proof.
  split; [exact (rtc_turn _ _ two_dogs_run)|].
  refine (rtc_turn _ _ (run_cancel _ (mkRtc 10 true [(1, dog 1 20)] (Waiting 10) true []) 1 (run_cancel _ _ 2 two_dogs_run))).
Defined.

Lemma rtc_on_time_witness :
  (∀ t w, (t, w) ∈ [(10, dog 2 10)] → ∃ t0, (t0, w) ∈ [(0, dog 1 20); (0, dog 2 10)] ∧ t = Z.max t0 (deadline w))
  ∧ ∃ s', kernel_step (mkRtc 10 true [(1, dog 1 20)] (Waiting 20) true [(10, dog 2 10)]) s'.
Proof.
  destruct (rtc_on_time [(0, dog 1 20); (0, dog 2 10)] (mkRtc 10 true [(1, dog 1 20)] (Waiting 20) true [(10, dog 2 10)])) as (H1 & _ & H3).
  - apply (run_kernel _ (mkRtc 10 true two_dogs (Waiting 10) false [])); [apply two_dogs_run|by apply k_timeout].
  - split; [exact H1|by apply H3].
Defined.

(** The deadline of the overload is moved by 300000 counts and cut to the width of the counter. *)
Example watchdog_deadline_moved :
  mWatchdogs (setWatchdog_at 64 id 1 1000 0 1 33 new_Rtc) = [(1, mkIrqWatchdog 1 301000 0 1 33)]
  ∧ mWatchdogs (setWatchdog_at 16 id 1 1000 0 1 33 new_Rtc) = [(1, mkIrqWatchdog 1 38856 0 1 33)].
Proof. done. Qed.
