(* ===== verification/CallbackRegister.v ===== *)
(** * Callback registers ([components/clean_components/include/components/CallbackRegister.hpp])

    A memory-mapped register that runs callbacks when certain values are written to it.  The
    callbacks are closures over the rest of the program: here calls on a type [W], which do not
    use the register itself.  The file shows that a write runs exactly the callbacks registered for
    the value, in the order of their registration, and that the register read through
    [TargetIf::b_transport] gives back what was written. *)

From S2P Require Import Prelude AddrSpace Schedule SortedMap Tlm LocalMemory TargetIf Endian.

Section register.
Context {W : Type}.

(** [std::function<void()>]; [None] is an empty function. *)
Abbreviation callback_t := (option (M W unit)).

(** The members, and the rest of the program. *)
Record CallbackRegister := mkCallbackRegister {
  mReg : Z;
  mCallbacks : list (Z * callback_t);
  mReadAccesses : Z;
  mWriteAccesses : Z;
  callbacks : list (string * callback_t);
  world : W }.

(** The constructor is implicit: the register and the counters start with whatever was in memory. *)
Definition new_CallbackRegister (reg reads writes : Z) (sc_stop : M W unit) (w : W) : CallbackRegister :=
  mkCallbackRegister reg [] reads writes [("stop_simulation"%string, Some sc_stop)] w.

Definition read : M CallbackRegister Z :=
  m_modify (fun r => mkCallbackRegister (mReg r) (mCallbacks r) (u64 (mReadAccesses r + 1)) (mWriteAccesses r) (callbacks r) (world r)) ;;;
  m_gets mReg.

(** The call of a [std::function]. *)
Definition call (cb : callback_t) : M CallbackRegister unit :=
  match cb with
  | None => m_throw (Throw "bad_function_call")
  | Some f => fun r =>
      let '(x, w) := f (world r) in (x, mkCallbackRegister (mReg r) (mCallbacks r) (mReadAccesses r) (mWriteAccesses r) (callbacks r) w)
  end.

Definition note_write (v : Z) (r : CallbackRegister) : CallbackRegister :=
  mkCallbackRegister v (mCallbacks r) (mReadAccesses r) (u64 (mWriteAccesses r + 1)) (callbacks r) (world r).

Definition write (v : Z) : M CallbackRegister unit :=
  m_modify (note_write v) ;;;
  r <- m_get ;;
  m_forM (mCallbacks r) (fun cb => m_when (bool_decide (v = cb.1)) (call cb.2)).

(** [callbacks[callback]] puts an empty function under a name that is not there; the multimap
    inserts after the values that are not greater. *)
Definition registerCallback (val : Z) (callback : string) : M CallbackRegister unit :=
  m_modify (fun r => mkCallbackRegister (mReg r) (mCallbacks r) (mReadAccesses r) (mWriteAccesses r) (map_emplace callback None (callbacks r)) (world r)) ;;;
  m_modify (fun r => mkCallbackRegister (mReg r)
    (multiset_insert fst (val, default None (map_find callback (callbacks r))) (mCallbacks r))
    (mReadAccesses r) (mWriteAccesses r) (callbacks r) (world r)).

(** ** The target *)

Record TLMCallbackRegister := mkTLM { t_reg : CallbackRegister; t_mem : bytes }.

Definition on_reg {A} (m : M CallbackRegister A) : M TLMCallbackRegister A := fun d =>
  let '(x, r) := m (t_reg d) in (x, mkTLM r (t_mem d)).

Definition tlm_read (t : target_if) (p : payload) (delay : Z) : M TLMCallbackRegister reply :=
  if bool_decide (addr p ≠ mBaseAddress (t_space t)) then m_ret (mkReply TLM_ADDRESS_ERROR_RESPONSE (ptr p) delay false) else
  if bool_decide (len p ≠ t_unit t) then m_ret (mkReply TLM_ADDRESS_ERROR_RESPONSE (ptr p) delay false) else
  v <- on_reg read ;;
  b <- m_lift (fill_buffer p (le_bytes (Z.to_nat (t_unit t)) v)) ;;
  m_ret (mkReply TLM_OK_RESPONSE (Some b) delay false).

Definition tlm_write (t : target_if) (p : payload) (delay : Z) : M TLMCallbackRegister reply :=
  if bool_decide (addr p ≠ mBaseAddress (t_space t)) || bool_decide (len p ≠ t_unit t)
  then m_ret (mkReply TLM_ADDRESS_ERROR_RESPONSE (ptr p) delay false) else
  data <- m_lift (buffer_bytes p (t_unit t)) ;;
  on_reg (write (le_value data)) ;;;
  m_ret (mkReply TLM_OK_RESPONSE (ptr p) delay false).

#[global] Instance register_target : Target TLMCallbackRegister := {|
  local_mem := t_mem;
  with_local_mem m d := mkTLM (t_reg d) m;
  read_callback := tlm_read;
  write_callback := tlm_write
|}.

(** The register of [size] bytes, at the address 0 until it is moved. *)
Definition new_TLMCallbackRegister (size : Z) (r : CallbackRegister) (contents : Z → Z) : component TLMCallbackRegister :=
  mkComponent (mkTargetIf (AddrSpace_of_size size) size false false 0 0) (mkTLM r (mkBytes (size * (size + 1)) contents)).

(** ** The callbacks of a value *)

(** What a name stands for when it is registered. *)
Definition named (names : list (string * callback_t)) (n : string) : callback_t := default None (map_find n names).

Lemma named_emplace n m names : map_sorted names → named (map_emplace m None names) n = named names n.
Proof. intros Hs. unfold named. rewrite map_find_emplace by done. case_decide as E; [|done]. rewrite <- E. by destruct (map_find m names). Qed.

Lemma forM_filter {S A} (P : A → Prop) `{!∀ a, Decision (P a)} (l : list A) (f : A → M S unit) s :
  m_forM l (fun a => m_when (bool_decide (P a)) (f a)) s = m_forM (filter P l) f s.
Proof.
  induction l as [|a l IH] in s |- *; [done|]. rewrite filter_cons. cbn [m_forM]. unfold m_bind at 1. case_decide as Ha.
  - rewrite bool_decide_true by done. cbn [m_when m_forM]. unfold m_bind. destruct (f a s) as [[[]|e] s1]; [apply IH|done].
  - rewrite bool_decide_false by done. apply IH.
Qed.

(** The registrations so far, for one value. *)
Record registered (names : list (string * callback_t)) (regs : list (Z * string)) (r : CallbackRegister) : Prop := mkRegistered {
  rg_sorted : sorted fst (mCallbacks r);
  rg_value v : filter (fun cb => cb.1 = v) (mCallbacks r) = (fun p => (p.1, named names p.2)) <$> filter (fun p => p.1 = v) regs;
  rg_names : map_sorted (callbacks r) ∧ ∀ n, named (callbacks r) n = named names n }.

Lemma registerCallback_spec names regs r val n : registered names regs r →
  runs (registerCallback val n) r (fun _ => registered names (regs ++ [(val, n)])).
Proof.
  intros [Hs Hv [Hm Hn]]. unfold registerCallback. wp_step. wp_step. wp_step. split; simpl.
  - by apply multiset_insert_sorted.
  - intros v. rewrite (multiset_insert_filter fst) by done. rewrite Hv, filter_app, filter_cons. simpl. change (default None (map_find ?k ?l)) with (named l k).
    rewrite named_emplace, Hn by done. rewrite fmap_app. by case_decide.
  - split; [by apply emplace_sorted|]. intros k. by rewrite named_emplace.
Qed.

Lemma register_all_spec names regs : ∀ regs0 r, registered names regs0 r →
  runs (m_forM regs (fun p => registerCallback p.1 p.2)) r (fun _ => registered names (regs0 ++ regs)).
Proof.
  induction regs as [|[v n] regs IH]; intros regs0 r H; cbn [m_forM]; [wp_step; by rewrite app_nil_r|].
  wp_step. eapply runs_conseq; [by apply registerCallback_spec|]. intros [] r1 H1. eapply runs_conseq; [by apply IH|].
  intros [] r2. by rewrite <- app_assoc.
Qed.

Lemma forM_fmap {S A B} (g : A → B) (f : B → M S unit) (l : list A) s : m_forM (g <$> l) f s = m_forM l (fun a => f (g a)) s.
Proof. induction l as [|a l IH] in s |- *; [done|]. cbn. unfold m_bind. by destruct (f (g a) s) as [[[]|e] s1]. Qed.

(** a write to a callback register stores the value and runs the callbacks that were registered for this value, no
    other, in the order of their registration, each the function that its name stood for; the first one that throws ends
    the write, and so does a name that stands for nothing. *)
Theorem register_write_runs regs v r : mCallbacks r = [] → map_sorted (callbacks r) →
  runs (m_forM regs (fun p => registerCallback p.1 p.2)) r (fun _ r' =>
    write v r' = m_forM (filter (fun p => p.1 = v) regs) (fun p => call (named (callbacks r) p.2)) (note_write v r')).
Proof.
  intros E Hm. eapply runs_conseq; [apply (register_all_spec (callbacks r) regs [])|].
  - split; [rewrite E; constructor|by rewrite E|done].
  - intros [] r' [_ Hv _]. unfold write. do 2 m_exec. cbn [mCallbacks note_write].
    etransitivity; [apply (forM_filter (fun cb : Z * callback_t => v = cb.1) _ (fun cb => call cb.2))|].
    rewrite (list_filter_iff (fun cb => v = cb.1) (fun cb => cb.1 = v)) by (intros; split; congruence). rewrite Hv.
    exact (forM_fmap (fun p => (p.1, named (callbacks r) p.2)) (fun cb => call cb.2) _ _).
Qed.

(** ** The register on the bus *)

(** The address space of the target holds the register and does not wrap around. *)
Definition register_ok (c : component TLMCallbackRegister) : Prop :=
  let sp := t_space (c_if c) in
  0 ≤ mBaseAddress sp ∧ 0 < t_unit (c_if c) ∧ mBaseAddress sp + t_unit (c_if c) ≤ mEndAddress sp + 1 ∧ mEndAddress sp < max64.

(** A transaction on exactly the register. *)
Definition on_register (c : component TLMCallbackRegister) (p : payload) : Prop :=
  addr p = mBaseAddress (t_space (c_if c)) ∧ len p = t_unit (c_if c) ∧ byte_enable_ptr p = false ∧ byte_enable_len p = 0.

Lemma register_accepted c p delay : register_ok c → on_register c p → cmd p ≠ TLM_IGNORE_COMMAND →
  b_transport p delay c = CoreFunction p delay c.
Proof.
  intros (Hb & Hu & He & Hm) (Ha & Hl & Hbp & Hbl) Hc. unfold b_transport. m_exec. rewrite Ha, Hl. unfold getSize, max64 in *.
  rewrite (bool_decide_false (mBaseAddress _ < _)), (bool_decide_false (_ ∧ _)) by lia. m_exec. cbn [orb].
  rewrite (u64_small (mEndAddress _ - _ + 1)) by (unfold in_u64; lia). rewrite !u64_small by (unfold in_u64; lia). rewrite !bool_decide_false by lia. rewrite Hbp, Hbl, bool_decide_true, bool_decide_false by done.
  cbn. by rewrite andb_false_r.
Qed.

(** A transaction on a part of the register, or beside it, is refused by the callbacks and changes no register. *)
Lemma register_refused t p delay d : addr p ≠ mBaseAddress (t_space t) ∨ len p ≠ t_unit t →
  tlm_read t p delay d = (Ok (mkReply TLM_ADDRESS_ERROR_RESPONSE (ptr p) delay false), d)
  ∧ tlm_write t p delay d = (Ok (mkReply TLM_ADDRESS_ERROR_RESPONSE (ptr p) delay false), d).
Proof. intros H. unfold tlm_read, tlm_write. do 2 case_bool_decide; try done. naive_solver. Qed.

(** Callbacks do not change the register. *)
Lemma call_preserves cb : preserves mReg (call cb).
Proof. intros r. destruct cb as [f|]; [|done]. simpl. by destruct (f (world r)). Qed.

Lemma write_stores v r : mReg (write v r).2 = v.
Proof.
  unfold write. do 2 m_exec. cbn [mCallbacks note_write]. rewrite preserves_forM; [done|].
  intros cb. apply preserves_when, call_preserves.
Qed.

(** a register written through [b_transport] with a buffer of its size, of which the callbacks return, holds the bytes
    that were written: the next read through [b_transport] gives them back, and neither takes time. *)
Theorem register_read_back c pw pr wbuf rbuf d1 d2 : register_ok c → on_register c pw → on_register c pr →
  cmd pw = TLM_WRITE_COMMAND → cmd pr = TLM_READ_COMMAND → ptr pw = Some wbuf → ptr pr = Some rbuf →
  t_unit (c_if c) ≤ Z.of_nat (length wbuf) → t_unit (c_if c) ≤ Z.of_nat (length rbuf) → Forall is_byte wbuf →
  is_ok (write (le_value (take (Z.to_nat (t_unit (c_if c))) wbuf)) (t_reg (c_dev c))).1 = true →
  runs (b_transport pw d1) c (fun r1 c1 => r1 = mkReply TLM_OK_RESPONSE (Some wbuf) d1 false
    ∧ runs (b_transport pr d2) c1 (fun r2 _ =>
        r2 = mkReply TLM_OK_RESPONSE (Some (take (Z.to_nat (t_unit (c_if c))) wbuf ++ drop (Z.to_nat (t_unit (c_if c))) rbuf)) d2 false)).
Proof.
  intros Hok Hw Hr Ew Er Pw Pr Lw Lr Hbytes Hrun. set (n := Z.to_nat (t_unit (c_if c))) in *. set (v := le_value (take n wbuf)) in *.
  assert (length (take n wbuf) = n) as Hn by (rewrite length_take; lia).
  destruct (write v (t_reg (c_dev c))) as [[[]|e] r1] eqn:E1; [|done].
  assert (mReg r1 = v) as Hv by (pose proof (write_stores v (t_reg (c_dev c))) as H; by rewrite E1 in H).
  unfold runs at 1. rewrite register_accepted by (done || by rewrite Ew). unfold CoreFunction. m_exec. rewrite Ew. unfold m_bind at 1, on_device.
  cbn [write_callback register_target]. unfold tlm_write. destruct Hw as (Aw & Nw & _). rewrite (bool_decide_false (addr pw ≠ _)), (bool_decide_false (len pw ≠ _)) by congruence.
  unfold buffer_bytes. rewrite Pw, bool_decide_true by lia. cbn [orb]. m_exec. fold n v. unfold on_reg. unfold m_bind at 1. rewrite E1. cbn.
  split; [done|]. unfold runs. rewrite register_accepted by (done || by rewrite Er). unfold CoreFunction. m_exec. rewrite Er. unfold m_bind at 1, on_device.
  cbn [read_callback register_target c_if c_dev]. unfold tlm_read. destruct Hr as (Ar & Nr & _). cbn.
  rewrite (bool_decide_false (addr pr ≠ _)), (bool_decide_false (len pr ≠ _)) by congruence. unfold on_reg, read. cbn. fold n.
  unfold m_bind, m_lift, fill_buffer. cbn. rewrite Pr, length_le_bytes, bool_decide_true by lia. cbn. rewrite Hv. unfold v. do 4 f_equal. rewrite <- Hn at 1. by apply le_bytes_value, Forall_take.
Qed.
End register.

(** ** Concrete registers *)

(** A program that counts the stops. *)
Definition a_register : CallbackRegister := new_CallbackRegister 0 0 0 (m_modify S) 0%nat.
Definition some_callbacks : list (Z * string) := [(7, "stop_simulation"%string); (3, "unknown"%string); (7, "stop_simulation"%string)].

Lemma a_register_sorted : map_sorted (callbacks a_register).
Proof. repeat constructor. Qed.

Lemma register_write_runs_witness :
  runs (m_forM some_callbacks (fun p => registerCallback p.1 p.2)) a_register (fun _ r' =>
    world (write 7 r').2 = 2%nat ∧ (write 3 r').1 = Err (Throw "bad_function_call")).
Proof.
  pose proof (register_write_runs some_callbacks 7 a_register eq_refl a_register_sorted) as H7.
  pose proof (register_write_runs some_callbacks 3 a_register eq_refl a_register_sorted) as H3.
  apply runs_inv in H7 as ([] & r' & E & H7). unfold runs in *. rewrite E in *. rewrite H7, H3. 
  assert (r' = (m_forM some_callbacks (fun p => registerCallback p.1 p.2) a_register).2) as -> by (by rewrite E). by vm_compute.
Defined.

Definition a_component : component TLMCallbackRegister := new_TLMCallbackRegister 4 a_register (fun _ => 0).

Lemma register_read_back_witness :
  runs (b_transport (mkPayload TLM_WRITE_COMMAND 0 (Some [1; 2; 3; 4]) 4 false 0 None) 0) a_component (fun _ c1 =>
    runs (b_transport (mkPayload TLM_READ_COMMAND 0 (Some [0; 0; 0; 0; 9]) 4 false 0 None) 0) c1 (fun r _ => r_ptr r = Some [1; 2; 3; 4; 9])).
Proof.
  eapply runs_conseq.
  - apply (register_read_back a_component _ (mkPayload TLM_READ_COMMAND 0 (Some [0; 0; 0; 0; 9]) 4 false 0 None) [1; 2; 3; 4] [0; 0; 0; 0; 9] 0 0);
      try done. repeat constructor; unfold is_byte; lia.
  - intros r c1 [_ H]. eapply runs_conseq; [exact H|]. by intros ? ? ->.
Defined.
