(* ===== verification/Cosim.v ===== *)
(** * Co-simulation of the memory ([components/include/components/MainMemCosim.hpp],
      [IOAccessCosim.hpp])

    The instruction-set simulators run ahead of the memory system: their accesses go into a
    priority queue, and a second thread of the operating system takes them out in the order of
    their time stamps and plays them on the caches and memories.  Time is cut in epochs; at the end of
    each the simulators collect the delays of their accesses.

    The two threads are a step relation.  The queue of the library TBB gives back some element
    of the highest priority; the delays that the memory system adds are arbitrary; shared
    variables are read and written one at a time.  The file shows that the accesses are played in the
    order of epoch and time stamp and none is lost, that the delays collected at the end of
    an epoch are exactly those of the accesses of the epoch before the last one, and that collecting
    them never waits for ever. *)

From S2P Require Import Prelude.
From Stdlib Require Import Sorted.

Inductive NotifyType := CPU | DEVICE | SESAMCOMMAND.
#[global] Instance NotifyType_dec : EqDecision NotifyType.
Proof. solve_decision. Defined.

Definition MAX_QUANTUM : Z := 0xFFFF.
Definition EPOCHS : Z := 2.

Record Req := mkReq {
  type : NotifyType;
  phys : Z;
  size : Z;
  id : Z;
  time_stamp : Z;
  write : Z;
  tag : Z;
  epoch : Z;
  fetch : Z }.

Definition set_type x (r : Req) : Req :=
  mkReq x (phys r) (size r) (id r) (time_stamp r) (write r) (tag r) (epoch r) (fetch r).
Definition set_phys x (r : Req) : Req :=
  mkReq (type r) x (size r) (id r) (time_stamp r) (write r) (tag r) (epoch r) (fetch r).
Definition set_size x (r : Req) : Req :=
  mkReq (type r) (phys r) x (id r) (time_stamp r) (write r) (tag r) (epoch r) (fetch r).
Definition set_id x (r : Req) : Req :=
  mkReq (type r) (phys r) (size r) x (time_stamp r) (write r) (tag r) (epoch r) (fetch r).
Definition set_time_stamp x (r : Req) : Req :=
  mkReq (type r) (phys r) (size r) (id r) x (write r) (tag r) (epoch r) (fetch r).
Definition set_write x (r : Req) : Req :=
  mkReq (type r) (phys r) (size r) (id r) (time_stamp r) x (tag r) (epoch r) (fetch r).
Definition set_tag x (r : Req) : Req :=
  mkReq (type r) (phys r) (size r) (id r) (time_stamp r) (write r) x (epoch r) (fetch r).
Definition set_epoch x (r : Req) : Req :=
  mkReq (type r) (phys r) (size r) (id r) (time_stamp r) (write r) (tag r) x (fetch r).
Definition set_fetch x (r : Req) : Req :=
  mkReq (type r) (phys r) (size r) (id r) (time_stamp r) (write r) (tag r) (epoch r) x.

(** The order of the queue: [u] comes after [v]. *)
Definition compare_Req (u v : Req) : bool :=
  bool_decide (epoch v < epoch u) || (bool_decide (epoch u = epoch v) && bool_decide (time_stamp v < time_stamp u)).

(** Where the thread of the memory is in [Run]: at the head of the loop, before the first
    [try_pop] of an epoch, with a request, holding the mutex of the epoch, or about to release it. *)
Inductive mem_thread := Top | Pop (tmpMemEpoch : Z) | Body (tmpMemEpoch : Z) (k : Req) | Leave (tmpMemEpoch : Z).

(** Where the simulators are: executing, or in [FillBiases]. *)
Inductive iss_thread := Executing | Filling.

(** The static members, the times of every simulator, CPU and epoch parity, the completed
    accesses of devices, the two threads, and a record of what was pushed, played and collected. *)
Record Cosim := mkCosim {
  Buffer : Req;
  PQ : list Req;
  CpuEpoch : Z;
  MemEpoch : Z;
  epoch_sc_time : Z;
  current_time_stamp : Z;
  proceeding : bool;
  focusOnROI : bool;
  mTimes : nat → Z → Z → Z;
  Accomplished : Z → list (Z * Z * Z);
  mem : mem_thread;
  iss : iss_thread;
  pushed : list Req;
  served : list (Req * (nat → Z));
  collected : list (Z * (Z → Z)) }.

Definition set_Buffer x (s : Cosim) : Cosim :=
  mkCosim x (PQ s) (CpuEpoch s) (MemEpoch s) (epoch_sc_time s) (current_time_stamp s)
    (proceeding s) (focusOnROI s) (mTimes s) (Accomplished s) (mem s) (iss s) (pushed s) (served
    s) (collected s).
Definition set_PQ x (s : Cosim) : Cosim :=
  mkCosim (Buffer s) x (CpuEpoch s) (MemEpoch s) (epoch_sc_time s) (current_time_stamp s)
    (proceeding s) (focusOnROI s) (mTimes s) (Accomplished s) (mem s) (iss s) (pushed s) (served
    s) (collected s).
Definition set_CpuEpoch x (s : Cosim) : Cosim :=
  mkCosim (Buffer s) (PQ s) x (MemEpoch s) (epoch_sc_time s) (current_time_stamp s)
    (proceeding s) (focusOnROI s) (mTimes s) (Accomplished s) (mem s) (iss s) (pushed s) (served
    s) (collected s).
Definition set_MemEpoch x (s : Cosim) : Cosim :=
  mkCosim (Buffer s) (PQ s) (CpuEpoch s) x (epoch_sc_time s) (current_time_stamp s)
    (proceeding s) (focusOnROI s) (mTimes s) (Accomplished s) (mem s) (iss s) (pushed s) (served
    s) (collected s).
Definition set_epoch_sc_time x (s : Cosim) : Cosim :=
  mkCosim (Buffer s) (PQ s) (CpuEpoch s) (MemEpoch s) x (current_time_stamp s) (proceeding s)
    (focusOnROI s) (mTimes s) (Accomplished s) (mem s) (iss s) (pushed s) (served s) (collected
    s).
Definition set_current_time_stamp x (s : Cosim) : Cosim :=
  mkCosim (Buffer s) (PQ s) (CpuEpoch s) (MemEpoch s) (epoch_sc_time s) x (proceeding s)
    (focusOnROI s) (mTimes s) (Accomplished s) (mem s) (iss s) (pushed s) (served s) (collected
    s).
Definition set_proceeding x (s : Cosim) : Cosim :=
  mkCosim (Buffer s) (PQ s) (CpuEpoch s) (MemEpoch s) (epoch_sc_time s) (current_time_stamp s)
    x (focusOnROI s) (mTimes s) (Accomplished s) (mem s) (iss s) (pushed s) (served s)
    (collected s).
Definition set_focusOnROI x (s : Cosim) : Cosim :=
  mkCosim (Buffer s) (PQ s) (CpuEpoch s) (MemEpoch s) (epoch_sc_time s) (current_time_stamp s)
    (proceeding s) x (mTimes s) (Accomplished s) (mem s) (iss s) (pushed s) (served s)
    (collected s).
Definition set_mTimes x (s : Cosim) : Cosim :=
  mkCosim (Buffer s) (PQ s) (CpuEpoch s) (MemEpoch s) (epoch_sc_time s) (current_time_stamp s)
    (proceeding s) (focusOnROI s) x (Accomplished s) (mem s) (iss s) (pushed s) (served s)
    (collected s).
Definition set_Accomplished x (s : Cosim) : Cosim :=
  mkCosim (Buffer s) (PQ s) (CpuEpoch s) (MemEpoch s) (epoch_sc_time s) (current_time_stamp s)
    (proceeding s) (focusOnROI s) (mTimes s) x (mem s) (iss s) (pushed s) (served s) (collected
    s).
Definition set_mem x (s : Cosim) : Cosim :=
  mkCosim (Buffer s) (PQ s) (CpuEpoch s) (MemEpoch s) (epoch_sc_time s) (current_time_stamp s)
    (proceeding s) (focusOnROI s) (mTimes s) (Accomplished s) x (iss s) (pushed s) (served s)
    (collected s).
Definition set_iss x (s : Cosim) : Cosim :=
  mkCosim (Buffer s) (PQ s) (CpuEpoch s) (MemEpoch s) (epoch_sc_time s) (current_time_stamp s)
    (proceeding s) (focusOnROI s) (mTimes s) (Accomplished s) (mem s) x (pushed s) (served s)
    (collected s).
Definition set_pushed x (s : Cosim) : Cosim :=
  mkCosim (Buffer s) (PQ s) (CpuEpoch s) (MemEpoch s) (epoch_sc_time s) (current_time_stamp s)
    (proceeding s) (focusOnROI s) (mTimes s) (Accomplished s) (mem s) (iss s) x (served s)
    (collected s).
Definition set_served x (s : Cosim) : Cosim :=
  mkCosim (Buffer s) (PQ s) (CpuEpoch s) (MemEpoch s) (epoch_sc_time s) (current_time_stamp s)
    (proceeding s) (focusOnROI s) (mTimes s) (Accomplished s) (mem s) (iss s) (pushed s) x
    (collected s).
Definition set_collected x (s : Cosim) : Cosim :=
  mkCosim (Buffer s) (PQ s) (CpuEpoch s) (MemEpoch s) (epoch_sc_time s) (current_time_stamp s)
    (proceeding s) (focusOnROI s) (mTimes s) (Accomplished s) (mem s) (iss s) (pushed s) (served
    s) x.

Definition no_req : Req := mkReq CPU 0 0 0 0 0 0 0 0.

(** The initial values of the static members, and the mode that [setFocusOnROI] sets. *)
Definition new_Cosim : Cosim :=
  mkCosim no_req [] 0 0 0 0 false false (fun _ _ _ => 0) (fun _ => []) Top Executing [] [] [].
Definition setFocusOnROI (focus : bool) (s : Cosim) : Cosim := set_proceeding (negb focus) (set_focusOnROI focus s).

(** ** The simulators *)

(** [_PQ.push (_Buffer)]. *)
Definition push_buffer (s : Cosim) : Cosim := set_pushed (pushed s ++ [Buffer s]) (set_PQ (Buffer s :: PQ s) s).

Definition proceedNotify (cpu exec write phys size : Z) (s : Cosim) : Cosim :=
  let s := set_current_time_stamp (u64 (exec + epoch_sc_time s)) s in
  push_buffer (set_Buffer (mkReq CPU phys size cpu (current_time_stamp s) write (tag (Buffer s)) (CpuEpoch s) 0) s).

Definition proceedNotifyFetchMiss (cpu phys size : Z) (s : Cosim) : Cosim :=
  push_buffer (set_Buffer (mkReq CPU phys size cpu (current_time_stamp s) 0 (tag (Buffer s)) (CpuEpoch s) 1) s).

Definition proceedNotifyIO (device exec write phys virt size tag : Z) (s : Cosim) : Cosim :=
  push_buffer (set_Buffer (mkReq DEVICE phys size device (u64 (exec + epoch_sc_time s)) write tag (CpuEpoch s) (fetch (Buffer s))) s).

Definition haltNotify (cpu exec write phys size : Z) (s : Cosim) : Cosim := set_current_time_stamp (u64 (exec + epoch_sc_time s)) s.
Definition haltNotifyFetchMiss (cpu phys size : Z) (s : Cosim) : Cosim := s.
Definition haltNotifyIO (device exec write phys virt size tag : Z) (s : Cosim) : Cosim := s.

(** The three function pointers are always set together. *)
Definition Notify (cpu exec write phys size : Z) (s : Cosim) : Cosim :=
  if proceeding s then proceedNotify cpu exec write phys size s else haltNotify cpu exec write phys size s.
Definition NotifyFetchMiss (cpu phys size : Z) (s : Cosim) : Cosim :=
  if proceeding s then proceedNotifyFetchMiss cpu phys size s else haltNotifyFetchMiss cpu phys size s.
Definition NotifyIO (device exec write phys virt size tag : Z) (s : Cosim) : Cosim :=
  if proceeding s then proceedNotifyIO device exec write phys virt size tag s else haltNotifyIO device exec write phys virt size tag s.

(** A command of the monitor; the functions registered with the simulators are not modelled. *)
Definition NotifySesamCommand (counter : Z) (start : bool) (s : Cosim) : Cosim :=
  let b := Buffer s in
  let s := set_proceeding (if focusOnROI s then start else proceeding s) s in
  let stamp := u64 (if start then epoch_sc_time s - 1 else epoch_sc_time s + MAX_QUANTUM + 1) in
  push_buffer (set_Buffer (mkReq SESAMCOMMAND (phys b) (size b) (id b) stamp (Z.b2z start) counter (CpuEpoch s) (fetch b)) s).

(** [GetDelay] takes a completed access of a device. *)
Definition GetDelay (device : Z) (s : Cosim) : option (Z * Z * Z) * Cosim :=
  match Accomplished s device with
  | [] => (None, s)
  | a :: l => (Some a, set_Accomplished (fun dev => if bool_decide (dev = device) then l else Accomplished s dev) s)
  end.

(** ** The accesses of the simulators on the memory system *)

(** [convertAddr] of the two simulators: from an address of the host to one of the platform; the
    one for devices also takes addresses of the platform. *)
Fixpoint convertAddr (maps : list (Z * Z * Z)) (host : Z) : option Z :=
  match maps with
  | [] => None
  | (hp, base, size) :: maps => if bool_decide (hp ≤ host) && bool_decide (host < u64 (hp + size)) then Some (u64 (base + (host - hp))) else convertAddr maps host
  end.
Fixpoint io_convertAddr (maps : list (Z * Z * Z)) (host : Z) : option Z :=
  match maps with
  | [] => None
  | (hp, base, size) :: maps =>
      if bool_decide (hp = 0)
      then if bool_decide (base ≤ host) && bool_decide (host < u64 (base + size)) then Some host else io_convertAddr maps host
      else if bool_decide (hp ≤ host) && bool_decide (host < u64 (hp + size)) then Some (u64 (base + (host - hp))) else io_convertAddr maps host
  end.

(** A transaction without data: the port, the address, the length, the command and the time stamp. *)
Inductive port := FetchPort (cpu : Z) | DataPort (cpu : Z) | DevicePort (device : Z).
Record access := mkAccess { a_port : port; a_address : Z; a_length : Z; a_write : bool; a_stamp : Z }.

(** An address that is in no map is replaced by 0. *)
Definition cpu_access (stamp : Z → Z) (maps : list (Z * Z * Z)) (k : Req) : access :=
  mkAccess (if bool_decide (fetch k = 0) then DataPort (id k) else FetchPort (id k))
    (if bool_decide (fetch k = 0) then default 0 (convertAddr maps (phys k)) else phys k) (size k) (negb (bool_decide (write k = 0))) (stamp (time_stamp k)).
Definition device_access (stamp : Z → Z) (maps : list (Z * Z * Z)) (k : Req) : access :=
  mkAccess (DevicePort (id k)) (default 0 (io_convertAddr maps (phys k))) (size k) (negb (bool_decide (write k = 0))) (stamp (time_stamp k)).

Section cosim.
(** The number of simulators and of CPUs; adding a bias, with its conversion to nanoseconds, and
    the time of the kernel for a time stamp, both of which use [double]; and
    the address maps of the simulators. *)
Context (sims : nat) (n : Z) (add_bias : Z → Z → Z) (stamp : Z → Z) (maps : nat → list (Z * Z * Z)) (io_maps : list (Z * Z * Z)).

(** [FillBiases], up to the wait. *)
Definition fill_start (s : Cosim) : Cosim := set_CpuEpoch (u64 (CpuEpoch s + 1)) s.
Definition fill_waits (s : Cosim) : bool := bool_decide (u64 (MemEpoch s + EPOCHS) ≤ CpuEpoch s).

(** [fillBiases] of every simulator, on the times of the epoch. *)
Definition bias_of (s : Cosim) (i : Z) : Z := foldl (fun ts k => add_bias ts (mTimes s k i (CpuEpoch s mod EPOCHS))) 0 (seq 0 sims).
Definition fill_collect (s : Cosim) : Cosim :=
  set_mTimes (fun k i e => if bool_decide ((k < sims)%nat ∧ 0 ≤ i < n ∧ e = CpuEpoch s mod EPOCHS) then 0 else mTimes s k i e)
    (set_collected (collected s ++ [(CpuEpoch s, bias_of s)]) s).
Definition fill_end (now : Z) (s : Cosim) : Cosim := set_iss Executing (set_epoch_sc_time now s).

(** The mutex of an index is held by the thread of the memory. *)
Definition mutex_held (s : Cosim) (i : Z) : bool :=
  match mem s with Body tmp _ | Leave tmp => bool_decide (tmp mod EPOCHS = i) | _ => false end.

(** ** The memory *)

(** [insert] of every simulator: the time of the CPU in this epoch grows by the delay of the
    access; for a device, the delay is queued for it. *)
Definition insert_cpu (k : Req) (d : nat → Z) (s : Cosim) : Cosim :=
  set_mTimes (fun j i e => if bool_decide ((j < sims)%nat ∧ i = id k ∧ e = MemEpoch s mod EPOCHS) then mTimes s j i e + d j else mTimes s j i e) s.
Definition insert_device (k : Req) (d : nat → Z) (s : Cosim) : Cosim :=
  set_Accomplished (fun dev => if bool_decide (dev = id k) then Accomplished s dev ++ ((fun j => (stamp (time_stamp k), d j, tag k)) <$> seq 0 sims)
                               else Accomplished s dev) s.
Definition play (k : Req) (d : nat → Z) (s : Cosim) : Cosim :=
  let s := match type k with CPU => insert_cpu k d s | DEVICE => insert_device k d s | SESAMCOMMAND => s end in
  set_served (served s ++ [(k, d)]) s.

(** What the memory systems of the simulators answer to the accesses of a request. *)
Definition delays (k : Req) (transport : nat → access → Z) (j : nat) : Z :=
  transport j (match type k with DEVICE => device_access stamp io_maps k | _ => cpu_access stamp (maps j) k end).

(** [try_pop]: one of the requests of the highest priority. *)
Definition popped (q : list Req) (k : Req) (q' : list Req) : Prop := q ≡ₚ k :: q' ∧ ∀ v, v ∈ q' → compare_Req k v = false.

(** The request is put back and its epoch becomes that of the memory. *)
Definition put_back (k : Req) (s : Cosim) : Cosim := set_mem Top (set_MemEpoch (epoch k) s).
Definition next_epoch (s : Cosim) : Cosim := set_mem Top (set_MemEpoch (u64 (MemEpoch s + 1)) s).

(** The steps of [Run]. *)
Inductive mem_step : Cosim → Cosim → Prop :=
  | m_top s : mem s = Top → MemEpoch s < CpuEpoch s → mem_step s (set_mem (Pop (MemEpoch s)) s)
  | m_empty s tmp : mem s = Pop tmp → PQ s = [] → mem_step s (next_epoch s)
  | m_later s tmp k q : mem s = Pop tmp → popped (PQ s) k q → epoch k ≠ tmp → mem_step s (put_back k s)
  | m_take s tmp k q : mem s = Pop tmp → popped (PQ s) k q → epoch k = tmp → mem_step s (set_mem (Body tmp k) (set_PQ q s))
  | m_command s tmp k d : mem s = Body tmp k → type k = SESAMCOMMAND → mem_step s (set_mem Top (play k (delays k d) s))
  | m_last s tmp k d : mem s = Body tmp k → type k ≠ SESAMCOMMAND → PQ s = [] → mem_step s (next_epoch (play k (delays k d) s))
  | m_leave s tmp k d k' q : mem s = Body tmp k → type k ≠ SESAMCOMMAND → popped (PQ s) k' q → epoch k' ≠ tmp →
      mem_step s (set_mem (Leave tmp) (put_back k' (play k (delays k d) s)))
  | m_unlock s tmp : mem s = Leave tmp → mem_step s (set_mem Top s)
  | m_more s tmp k d k' q : mem s = Body tmp k → type k ≠ SESAMCOMMAND → popped (PQ s) k' q → epoch k' = tmp →
      mem_step s (set_mem (Body tmp k') (set_PQ q (play k (delays k d) s))).

(** The steps of the simulators; a run has fewer than 2^64 epochs. *)
Inductive iss_step : Cosim → Cosim → Prop :=
  | i_notify s cpu exec wr ph sz : iss s = Executing → iss_step s (Notify cpu exec wr ph sz s)
  | i_fetch s cpu ph sz : iss s = Executing → iss_step s (NotifyFetchMiss cpu ph sz s)
  | i_io s dev exec wr ph virt sz tg : iss s = Executing → iss_step s (NotifyIO dev exec wr ph virt sz tg s)
  | i_delay s dev : iss s = Executing → iss_step s (GetDelay dev s).2
  | i_command s counter start : iss s = Executing → iss_step s (NotifySesamCommand counter start s)
  | i_fill s : iss s = Executing → CpuEpoch s + 3 < 2 ^ 64 → proceeding s = true → iss_step s (set_iss Filling (fill_start s))
  | i_halted s now : iss s = Executing → CpuEpoch s + 3 < 2 ^ 64 → proceeding s = false → iss_step s (fill_end now (fill_start s))
  | i_collect s now : iss s = Filling → fill_waits s = false → mutex_held s (CpuEpoch s mod EPOCHS) = false → iss_step s (fill_end now (fill_collect s)).

Definition step (s s' : Cosim) : Prop := mem_step s s' ∨ iss_step s s'.

(** ** Order *)

(** [r] does not come after [v]. *)
Definition before (r v : Req) : Prop := compare_Req r v = false.

Lemma before_spec r v : before r v ↔ epoch r < epoch v ∨ epoch r = epoch v ∧ time_stamp r ≤ time_stamp v.
Proof.
  unfold before, compare_Req. rewrite orb_false_iff, andb_false_iff, !bool_decide_eq_false. lia.
Qed.

Lemma sorted_snoc l k : StronglySorted before l → (∀ r, r ∈ l → before r k) → StronglySorted before (l ++ [k]).
Proof.
  induction 1 as [|r l Hl IH Hr]; intros Hk; simpl; [repeat constructor|]. constructor; [apply IH; intros v Hv; apply Hk; by right|].
  apply Forall_app. split; [done|]. constructor; [apply Hk; left|done].
Qed.

(** The request the memory works on, and those in the queue. *)
Definition inflight (s : Cosim) : list Req := match mem s with Body _ k => [k] | _ => [] end.
Definition waiting (s : Cosim) : list Req := inflight s ++ PQ s.

(** The thread of the memory works on an epoch that the simulators have left. *)
Definition mem_epoch_ok (s : Cosim) : Prop :=
  match mem s with
  | Top | Leave _ => True
  | Pop tmp => tmp = MemEpoch s ∧ MemEpoch s < CpuEpoch s
  | Body tmp k => tmp = MemEpoch s ∧ MemEpoch s < CpuEpoch s ∧ epoch k = tmp ∧ ∀ v, v ∈ PQ s → before k v
  end.

Record cosim_inv (s : Cosim) : Prop := mkCosimInv {
  ci_epochs : 0 ≤ MemEpoch s ≤ CpuEpoch s ∧ CpuEpoch s + 2 < 2 ^ 64;
  ci_mem : mem_epoch_ok s;
  ci_queue r : r ∈ waiting s → MemEpoch s ≤ epoch r ≤ CpuEpoch s;
  ci_served r : r ∈ (served s).*1 → epoch r < CpuEpoch s ∧ ∀ v, v ∈ waiting s → before r v;
  ci_sorted : StronglySorted before (served s).*1;
  ci_perm : pushed s ≡ₚ (served s).*1 ++ waiting s }.

(** What the invariant speaks of. *)
Definition order_view (s : Cosim) := (CpuEpoch s, MemEpoch s, PQ s, mem s, pushed s, served s).

Lemma inv_view s s' : order_view s' = order_view s → cosim_inv s → cosim_inv s'.
Proof.
  intros E. injection E as E1 E2 E3 E4 E5 E6. intros [H1 H2 H3 H4 H5 H6].
  split; unfold mem_epoch_ok, waiting, inflight in *; rewrite ?E1, ?E2, ?E3, ?E4, ?E5, ?E6; done.
Qed.

(** A step of the thread that ends at the head of its loop starts as if it were there. *)
Lemma inv_top s : cosim_inv s → inflight s = [] → cosim_inv (set_mem Top s).
Proof. intros [H1 H2 H3 H4 H5 H6] E. unfold waiting in *. rewrite E in *. by split. Qed.

Lemma inv_leave s tmp : cosim_inv s → inflight s = [] → cosim_inv (set_mem (Leave tmp) s).
Proof. intros [H1 H2 H3 H4 H5 H6] E. unfold waiting in *. rewrite E in *. by split. Qed.

Lemma popped_elem q k q' v : popped q k q' → v ∈ q ↔ v = k ∨ v ∈ q'.
Proof. intros [-> _]. by rewrite elem_of_cons. Qed.

Lemma next_epoch_inv s : cosim_inv s → mem s = Top → MemEpoch s < CpuEpoch s → PQ s = [] → cosim_inv (next_epoch s).
Proof.
  intros [H1 H2 H3 H4 H5 H6] E Hlt Eq. unfold waiting, inflight in *. rewrite E, Eq in *. unfold next_epoch.
  split; unfold waiting, inflight; simpl; rewrite ?Eq; try done; rewrite ?u64_small by (unfold in_u64; lia); [lia|by intros r ?%elem_of_nil].
Qed.

Lemma put_back_inv s k q : cosim_inv s → mem s = Top → popped (PQ s) k q → cosim_inv (put_back k s).
Proof.
  intros [H1 H2 H3 H4 H5 H6] E Hp. unfold waiting, inflight in *. rewrite E in *. simpl in *.
  assert (MemEpoch s ≤ epoch k ≤ CpuEpoch s) as Hk by (apply H3, (popped_elem _ _ _ k Hp); by left).
  split; unfold waiting, inflight; simpl; try done; [lia|].
  intros r Hr. destruct (H3 r Hr). split; [|done]. apply (popped_elem _ _ _ r Hp) in Hr as [->|Hr]; [lia|].
  destruct Hp as [_ Hp]. specialize (Hp r Hr). apply before_spec in Hp. lia.
Qed.

Lemma take_inv s k q : cosim_inv s → mem s = Top → MemEpoch s < CpuEpoch s → popped (PQ s) k q → epoch k = MemEpoch s →
  cosim_inv (set_mem (Body (MemEpoch s) k) (set_PQ q s)).
Proof.
  intros [H1 H2 H3 H4 H5 H6] E Hlt Hp Hk. unfold waiting, inflight in *. rewrite E in *. simpl in *.
  split; unfold waiting, inflight; simpl; try done.
  - by destruct Hp.
  - intros r Hr. apply H3, (popped_elem _ _ _ r Hp). by apply elem_of_cons in Hr.
  - intros r Hr. destruct (H4 r Hr) as [? Hb]. split; [done|]. intros v Hv. apply Hb, (popped_elem _ _ _ v Hp). by apply elem_of_cons in Hv.
  - rewrite H6. by destruct Hp as [-> _].
Qed.

Lemma play_fields k d s : CpuEpoch (play k d s) = CpuEpoch s ∧ MemEpoch (play k d s) = MemEpoch s ∧ PQ (play k d s) = PQ s
  ∧ mem (play k d s) = mem s ∧ pushed (play k d s) = pushed s ∧ served (play k d s) = served s ++ [(k, d)] ∧ iss (play k d s) = iss s.
Proof. unfold play. by destruct (type k). Qed.
Lemma play_mTimes k d s : mTimes (play k d s) = mTimes (match type k with CPU => insert_cpu k d s | _ => s end).
Proof. unfold play. by destruct (type k). Qed.

Lemma play_other k d s : collected (play k d s) = collected s ∧ proceeding (play k d s) = proceeding s ∧ focusOnROI (play k d s) = focusOnROI s.
Proof. unfold play. by destruct (type k). Qed.
#[local] Opaque play.

Lemma play_inv s tmp k d : cosim_inv s → mem s = Body tmp k → cosim_inv (set_mem Top (play k d s)) ∧ MemEpoch s < CpuEpoch s ∧ tmp = MemEpoch s.
Proof.
  intros [H1 H2 H3 H4 H5 H6] E. unfold mem_epoch_ok, waiting, inflight in *. rewrite E in *. destruct H2 as (-> & Hlt & Hk & Hfirst).
  split; [|done]. destruct (play_fields k d s) as (E1 & E2 & E3 & E4 & E5 & E6 & _).
  split; unfold waiting, inflight; simpl; rewrite ?E1, ?E2, ?E3, ?E5, ?E6, ?fmap_app; simpl in *; try done.
  - intros r Hr. apply H3. by right.
  - intros r [Hr| ->%list_elem_of_singleton]%elem_of_app; [|split; [lia|done]]. destruct (H4 r Hr) as [? Hb]. split; [done|]. intros v Hv. apply Hb. by right.
  - apply sorted_snoc; [done|]. intros r Hr. apply (H4 r Hr). left.
  - rewrite H6. by rewrite <- app_assoc.
Qed.

Lemma mem_step_inv s s' : cosim_inv s → mem_step s s' → cosim_inv s'.
Proof.
  intros H Hs. assert (mem_epoch_ok s) as Hm by apply H. unfold mem_epoch_ok in Hm.
  destruct Hs as [s E Hlt|s tmp E Eq|s tmp k q E Hp Hk|s tmp k q E Hp Hk|s tmp k d E Ht|s tmp k d E Ht Eq|s tmp k d k' q E Ht Hp Hk|s tmp E|s tmp k d k' q E Ht Hp Hk]; rewrite E in Hm.
  - destruct H as [H1 H2 H3 H4 H5 H6]. unfold waiting, inflight in *. rewrite E in *. by split.
  - apply (next_epoch_inv (set_mem Top s)); [apply inv_top; [done|unfold inflight; by rewrite E]|done|apply Hm|done].
  - eapply (put_back_inv (set_mem Top s)); [apply inv_top; [done|unfold inflight; by rewrite E]|done|done].
  - destruct Hm as [-> Hlt]. apply (take_inv (set_mem Top s)); [apply inv_top; [done|unfold inflight; by rewrite E]|done..].
  - by apply (play_inv s tmp k (delays k d)).
  - destruct (play_inv s tmp k (delays k d) H E) as (H1 & Hlt & _). destruct (play_fields k (delays k d) s) as (E1 & E2 & E3 & _).
    apply (next_epoch_inv (set_mem Top (play k (delays k d) s))); simpl; rewrite ?E1, ?E2, ?E3; done.
  - destruct (play_inv s tmp k (delays k d) H E) as (H1 & Hlt & _). destruct (play_fields k (delays k d) s) as (_ & _ & E3 & _).
    apply inv_leave; [|done]. apply (put_back_inv (set_mem Top (play k (delays k d) s)) k' q); simpl; rewrite ?E3; done.
  - apply inv_top; [done|]. unfold inflight. by rewrite E.
  - destruct (play_inv s tmp k (delays k d) H E) as (H1 & Hlt & ->). destruct (play_fields k (delays k d) s) as (E1 & E2 & E3 & _).
    pose proof (take_inv (set_mem Top (play k (delays k d) s)) k' q H1) as Ht'. simpl in Ht'. rewrite E1, E2, E3 in Ht'. by apply Ht'.
Qed.

Lemma push_inv s : cosim_inv s → epoch (Buffer s) = CpuEpoch s → cosim_inv (push_buffer s).
Proof.
  intros [H1 H2 H3 H4 H5 H6] Eb. assert (∀ v, v ∈ waiting (push_buffer s) ↔ v = Buffer s ∨ v ∈ waiting s) as Hw.
  { intros v. unfold waiting, inflight, push_buffer. simpl. rewrite !elem_of_app, elem_of_cons. tauto. }
  split; simpl; try done.
  - unfold mem_epoch_ok in *. simpl. destruct (mem s) as [|tmp|tmp k|tmp]; [done|done| |done]. destruct H2 as (-> & Hlt & Hk & Hf). split_and!; [done..|].
    intros v [->|Hv]%elem_of_cons; [apply before_spec; lia|by apply Hf].
  - intros r [->|Hr]%Hw; [lia|by apply H3].
  - intros r Hr. destruct (H4 r Hr) as [? Hb]. split; [done|]. intros v [->|Hv]%Hw; [apply before_spec; lia|by apply Hb].
  - rewrite H6. unfold waiting, inflight, push_buffer. simpl. solve_Permutation.
Qed.

Lemma notified_inv s b t p : cosim_inv s → epoch b = CpuEpoch s →
  cosim_inv (push_buffer (set_Buffer b (set_proceeding p (set_current_time_stamp t s)))).
Proof. intros H E. apply push_inv; [by apply (inv_view s)|done]. Qed.

Lemma fill_start_inv s : cosim_inv s → CpuEpoch s + 3 < 2 ^ 64 → cosim_inv (fill_start s).
Proof.
  intros [H1 H2 H3 H4 H5 H6] Hb. unfold fill_start. rewrite u64_small by (unfold in_u64; lia). split; simpl; try done.
  - lia.
  - unfold mem_epoch_ok in *. simpl. destruct (mem s) as [|tmp|tmp k|tmp]; [done|lia| |done]. destruct H2 as (-> & Hlt & Hk & Hf). split_and!; [done|lia|done|done].
  - intros r Hr. specialize (H3 r Hr). lia.
  - intros r Hr. destruct (H4 r Hr). split; [lia|done].
Qed.

Lemma iss_step_inv s s' : cosim_inv s → iss_step s s' → cosim_inv s'.
Proof.
  intros H Hs. destruct Hs as [s cpu exec wr ph sz E|s cpu ph sz E|s dev exec wr ph virt sz tg E|s dev E|s counter start E|s E Hb Hp|s now E Hb Hp|s now E Hw Hm].
  - unfold Notify. destruct (proceeding s); [|by apply (inv_view s)]. by apply (notified_inv s _ _ (proceeding s)).
  - unfold NotifyFetchMiss. destruct (proceeding s); [|done]. by apply (notified_inv s _ (current_time_stamp s) (proceeding s)).
  - unfold NotifyIO. destruct (proceeding s); [|done]. by apply (notified_inv s _ (current_time_stamp s) (proceeding s)).
  - unfold GetDelay. destruct (Accomplished s dev); [done|]. by apply (inv_view s).
  - by apply (notified_inv s _ (current_time_stamp s)).
  - by apply (inv_view (fill_start s)), fill_start_inv.
  - by apply (inv_view (fill_start s)), fill_start_inv.
  - by apply (inv_view s).
Qed.

Lemma cosim_start_inv b : cosim_inv (setFocusOnROI b new_Cosim).
Proof.
  split; unfold waiting; simpl; try done; [by intros r ?%elem_of_nil|by intros r ?%elem_of_nil|constructor].
Qed.

Lemma cosim_step_inv s s' : cosim_inv s → step s s' → cosim_inv s'.
Proof. intros H [Hs|Hs]; [by eapply mem_step_inv|by eapply iss_step_inv]. Qed.

Lemma cosim_run_inv b s : rtc step (setFocusOnROI b new_Cosim) s → cosim_inv s.
Proof. intros H. pose proof (cosim_start_inv b) as H0. induction H as [|s0 s1 s Hs _ IH]; [done|]. by eapply IH, cosim_step_inv. Qed.

(** ** Delays *)

(** The delays of the requests of CPU [i] in epoch [e] on simulator [j]. *)
Definition charged (l : list (Req * (nat → Z))) (j : nat) (i e : Z) : Z :=
  foldr (fun kd t => if bool_decide (type kd.1 = CPU ∧ id kd.1 = i ∧ epoch kd.1 = e) then kd.2 j + t else t) 0 l.

Lemma charged_snoc l k d j i e :
  charged (l ++ [(k, d)]) j i e = charged l j i e + (if bool_decide (type k = CPU ∧ id k = i ∧ epoch k = e) then d j else 0).
Proof. induction l as [|kd l IH]; simpl; [repeat case_bool_decide; lia|]. rewrite IH. repeat case_bool_decide; lia. Qed.

Lemma charged_none l j i e : (∀ r, r ∈ l.*1 → epoch r ≠ e) → charged l j i e = 0.
Proof.
  induction l as [|kd l IH]; intros Hn; simpl; [done|]. rewrite bool_decide_false.
  - apply IH. intros r Hr. apply Hn. by right.
  - intros (_ & _ & E). apply (Hn kd.1); [left|done].
Qed.

(** What the simulators get for the requests of an epoch. *)
Definition bias_due (l : list (Req * (nat → Z))) (i e : Z) : Z := foldl (fun ts j => add_bias ts (charged l j i e)) 0 (seq 0 sims).

Lemma foldl_same {A B} (f g : A → B → A) l : (∀ a b, b ∈ l → f a b = g a b) → ∀ a, foldl f a l = foldl g a l.
Proof. induction l as [|b l IH]; intros Hfg a; [done|]. simpl. rewrite Hfg by left. apply IH. intros. apply Hfg. by right. Qed.

Lemma bias_due_same l l' i e : (∀ j, charged l' j i e = charged l j i e) → bias_due l' i e = bias_due l i e.
Proof. intros E. apply foldl_same. intros. by rewrite E. Qed.

Record times_inv (s : Cosim) : Prop := mkTimesInv {
  ti_mode : proceeding s = true ∧ focusOnROI s = false;
  ti_ahead : match iss s with Executing => CpuEpoch s - 1 | Filling => CpuEpoch s - 2 end ≤ MemEpoch s;
  ti_last j i : (j < sims)%nat → 0 ≤ i < n → mTimes s j i ((CpuEpoch s - 1) mod EPOCHS) = charged (served s) j i (CpuEpoch s - 1);
  ti_this j i : (j < sims)%nat → 0 ≤ i < n → mTimes s j i (CpuEpoch s mod EPOCHS)
    = match iss s with Executing => 0 | Filling => charged (served s) j i (CpuEpoch s - 2) end;
  ti_collected c ts : (c, ts) ∈ collected s → c - 1 ≤ MemEpoch s ∧ ∀ i, 0 ≤ i < n → ts i = bias_due (served s) i (c - 2) }.

Definition times_view (s : Cosim) := (CpuEpoch s, proceeding s, focusOnROI s, mTimes s, iss s, served s, collected s).

Lemma times_later s s' : times_view s' = times_view s → MemEpoch s ≤ MemEpoch s' → times_inv s → times_inv s'.
Proof.
  intros E Hle [H1 H2 H3 H4 H5]. injection E as E1 E2 E3 E4 E5 E6 E7. split; rewrite ?E1, ?E2, ?E3, ?E4, ?E5, ?E6, ?E7; try done.
  - lia.
  - intros c ts Hin. destruct (H5 c ts Hin). split; [lia|done].
Qed.

Lemma parity e c : c - 2 ≤ e ≤ c - 1 → (e mod EPOCHS = (c - 1) mod EPOCHS ↔ e = c - 1) ∧ (e mod EPOCHS = c mod EPOCHS ↔ e = c - 2).
Proof. unfold EPOCHS. intros H. assert (e = c - 1 ∨ e = c - 2) as [-> | ->] by lia; split; split; intros; Z.div_mod_to_equations; lia. Qed.

Lemma parity_back c : c mod EPOCHS = (c - 2) mod EPOCHS.
Proof. unfold EPOCHS. Z.div_mod_to_equations; lia. Qed.

(** An access is charged to the times of its own epoch. *)
Lemma play_charged s k d j i e : epoch k = MemEpoch s → (j < sims)%nat → (epoch k mod EPOCHS = e mod EPOCHS ↔ epoch k = e) →
  mTimes (play k d s) j i (e mod EPOCHS) - charged (served (play k d s)) j i e = mTimes s j i (e mod EPOCHS) - charged (served s) j i e.
Proof.
  intros Ek Hj He. destruct (play_fields k d s) as (_ & _ & _ & _ & _ & -> & _). rewrite charged_snoc, play_mTimes. destruct (type k) eqn:Et.
  - unfold insert_cpu. simpl. rewrite <- Ek. assert ((j < sims)%nat ∧ i = id k ∧ e mod EPOCHS = epoch k mod EPOCHS ↔ CPU = CPU ∧ id k = i ∧ epoch k = e) as Hiff.
    { split; [intros (_ & -> & Hx)|intros (_ & <- & Hx)]; split_and!; try done; [by apply He|by apply eq_sym, He]. }
    rewrite (bool_decide_ext _ _ Hiff). do 2 case_bool_decide; (lia || tauto).
  - rewrite bool_decide_false by naive_solver. lia.
  - rewrite bool_decide_false by naive_solver. lia.
Qed.

Lemma play_untouched s k d j i e : epoch k = MemEpoch s → e mod EPOCHS ≠ epoch k mod EPOCHS → mTimes (play k d s) j i (e mod EPOCHS) = mTimes s j i (e mod EPOCHS).
Proof.
  intros Ek He. rewrite play_mTimes. destruct (type k); [|done..]. unfold insert_cpu. simpl. rewrite bool_decide_false; [done|]. rewrite <- Ek. naive_solver.
Qed.

Lemma play_times s tmp k d : cosim_inv s → times_inv s → mem s = Body tmp k → times_inv (play k d s).
Proof.
  intros Hc [H1 H2 H3 H4 H5] E. assert (mem_epoch_ok s) as Hm by apply Hc. unfold mem_epoch_ok in Hm. rewrite E in Hm. destruct Hm as (-> & Hlt & Ek & _).
  destruct (play_fields k d s) as (E1 & E2 & _ & _ & _ & E6 & E7). destruct (play_other k d s) as (E8 & E9 & E10).
  assert (CpuEpoch s - 2 ≤ epoch k ≤ CpuEpoch s - 1) as Hk by (destruct (iss s); lia). destruct (parity _ _ Hk) as [Pl Pt].
  split; rewrite ?E1, ?E2, ?E7, ?E8, ?E9, ?E10; try done.
  - intros j i Hj Hi. pose proof (play_charged s k d j i (CpuEpoch s - 1) Ek Hj Pl). specialize (H3 j i Hj Hi). lia.
  - intros j i Hj Hi. specialize (H4 j i Hj Hi). destruct (iss s).
    + rewrite play_untouched by (done || (intros Hx; symmetry in Hx; apply Pt in Hx; lia)). done.
    + assert (CpuEpoch s mod EPOCHS = (CpuEpoch s - 2) mod EPOCHS) as Hmod by apply parity_back.
      rewrite Hmod in H4, Pt |- *. pose proof (play_charged s k d j i (CpuEpoch s - 2) Ek Hj Pt). lia.
  - intros c ts Hin. destruct (H5 c ts Hin) as [Hle Hts]. split; [done|]. intros i Hi. rewrite Hts by done. symmetry. apply bias_due_same.
    intros j. rewrite E6, charged_snoc, bool_decide_false by lia. lia.
Qed.

Lemma mem_step_times s s' : cosim_inv s → times_inv s → mem_step s s' → times_inv s'.
Proof.
  intros Hc Ht Hs. assert (cosim_inv s') as Hc' by (by eapply mem_step_inv). assert (mem_epoch_ok s) as Hm by apply Hc. unfold mem_epoch_ok in Hm.
  assert (∀ k q, popped (PQ s) k q → MemEpoch s ≤ epoch k) as Hq.
  { intros k q Hp. apply (ci_queue _ Hc k). unfold waiting. apply elem_of_app. right. apply (popped_elem _ _ _ k Hp). by left. }
  destruct (ci_epochs _ Hc) as [He Hb].
  destruct Hs as [s E Hlt|s tmp E Eq|s tmp k q E Hp Hk|s tmp k q E Hp Hk|s tmp k d E Hty|s tmp k d E Hty Eq|s tmp k d k' q E Hty Hp Hk|s tmp E|s tmp k d k' q E Hty Hp Hk];
    rewrite E in Hm; try (pose proof (play_times s tmp k (delays k d) Hc Ht E) as Hp'; destruct (play_fields k (delays k d) s) as (E1 & E2 & _)).
  - by apply (times_later s).
  - apply (times_later s); [done| |done]. simpl. rewrite u64_small by (unfold in_u64; lia). lia.
  - apply (times_later s); [done| |done]. simpl. by eapply Hq.
  - by apply (times_later s).
  - by apply (times_later (play k (delays k d) s)).
  - apply (times_later (play k (delays k d) s)); [done| |done]. simpl. rewrite E2, u64_small by (unfold in_u64; lia). lia.
  - apply (times_later (play k (delays k d) s)); [done| |done]. simpl. rewrite E2. by eapply Hq.
  - by apply (times_later s).
  - by apply (times_later (play k (delays k d) s)).
Qed.

Lemma charged_epoch_new s j i : cosim_inv s → charged (served s) j i (CpuEpoch s) = 0.
Proof. intros Hc. apply charged_none. intros r Hr. destruct (ci_served _ Hc r Hr). lia. Qed.

Lemma fill_start_times s : cosim_inv s → times_inv s → iss s = Executing → CpuEpoch s + 3 < 2 ^ 64 → times_inv (set_iss Filling (fill_start s)).
Proof.
  intros Hc [H1 H2 H3 H4 H5] E Hb. rewrite E in *. destruct (ci_epochs _ Hc) as [He _]. unfold fill_start. rewrite u64_small by (unfold in_u64; lia).
  split; simpl; try done; [lia| |].
  - intros j i Hj Hi. replace (CpuEpoch s + 1 - 1) with (CpuEpoch s) by lia. by rewrite H4, charged_epoch_new by done.
  - intros j i Hj Hi. rewrite parity_back. replace (CpuEpoch s + 1 - 2) with (CpuEpoch s - 1) by lia. by apply H3.
Qed.

Lemma fill_collect_times s now : cosim_inv s → times_inv s → iss s = Filling → fill_waits s = false → times_inv (fill_end now (fill_collect s)).
Proof.
  intros Hc [H1 H2 H3 H4 H5] E Hw. rewrite E in *. destruct (ci_epochs _ Hc) as [He Hb]. unfold fill_waits, EPOCHS in Hw.
  rewrite u64_small in Hw by (unfold in_u64; lia). apply bool_decide_eq_false in Hw. split; simpl; try done; [lia| | |].
  - intros j i Hj Hi. rewrite bool_decide_false; [by apply H3|]. intros (_ & _ & Hx). apply (parity (CpuEpoch s - 1) (CpuEpoch s)) in Hx; lia.
  - intros j i Hj Hi. by rewrite bool_decide_true.
  - intros c ts [Hin|[= -> ->]%list_elem_of_singleton]%elem_of_app; [by apply H5|]. split; [lia|]. intros i Hi. unfold bias_of, bias_due.
    apply foldl_same. intros a j Hj%elem_of_seq. by rewrite H4 by lia.
Qed.

Lemma iss_step_times s s' : cosim_inv s → times_inv s → iss_step s s' → times_inv s'.
Proof.
  intros Hc Ht Hs. destruct (ti_mode _ Ht) as [Hpr Hfo].
  destruct Hs as [s cpu exec wr ph sz E|s cpu ph sz E|s dev exec wr ph virt sz tg E|s dev E|s counter start E|s E Hb Hp|s now E Hb Hp|s now E Hw Hm].
  - unfold Notify. rewrite Hpr. by apply (times_later s).
  - unfold NotifyFetchMiss. rewrite Hpr. by apply (times_later s).
  - unfold NotifyIO. rewrite Hpr. by apply (times_later s).
  - unfold GetDelay. destruct (Accomplished s dev); [done|]. by apply (times_later s).
  - apply (times_later s); [|done..]. unfold NotifySesamCommand, times_view. simpl. by rewrite Hfo.
  - by apply fill_start_times.
  - congruence.
  - by apply fill_collect_times.
Qed.

Lemma run_times s : rtc step (setFocusOnROI false new_Cosim) s → cosim_inv s ∧ times_inv s.
Proof.
  assert (∀ s0, rtc step s0 s → cosim_inv s0 → times_inv s0 → cosim_inv s ∧ times_inv s) as Hrun.
  { induction 1 as [|s0 s1 s2 Hs _ IH]; intros Hc Ht; [done|]. apply IH; [by eapply cosim_step_inv|].
    destruct Hs; [by eapply mem_step_times|by eapply iss_step_times]. }
  intros H. apply (Hrun _ H); [apply cosim_start_inv|]. split; simpl; try done. by intros c ts ?%elem_of_nil.
Qed.

(** ** Progress *)

(** Three steps at most for every request and every epoch that the memory is behind. *)
Definition backlog (s : Cosim) : nat :=
  (3 * length (waiting s) + 3 * Z.to_nat (CpuEpoch s - MemEpoch s) + match mem s with Top => 2 | Pop _ => 1 | Body _ _ => 0 | Leave _ => 3 end)%nat.

Lemma popped_exists q : q ≠ [] → ∃ k q', popped q k q'.
Proof.
  induction q as [|x q IH]; [done|]. intros _. destruct (decide (q = [])) as [->|Hq]; [exists x, []; split; [done|by intros v ?%elem_of_nil]|].
  destruct (IH Hq) as (k & q' & Hp & Hmin). destruct (compare_Req x k) eqn:E.
  - exists k, (x :: q'). split; [rewrite Hp; apply perm_swap|]. intros v [->|Hv]%elem_of_cons; [|by apply Hmin].
    unfold compare_Req in *. rewrite orb_true_iff, andb_true_iff, !bool_decide_eq_true in E. apply before_spec. lia.
  - exists x, q. split; [done|]. intros v Hv. rewrite Hp in Hv. apply elem_of_cons in Hv as [->|Hv]; [done|].
    specialize (Hmin v Hv). apply before_spec in E. apply before_spec in Hmin. apply before_spec. lia.
Qed.

Lemma mem_progress s : cosim_inv s → MemEpoch s < CpuEpoch s → ∃ s', mem_step s s'.
Proof.
  intros Hc Hlt. assert (PQ s = [] ∨ ∃ k q, popped (PQ s) k q) as Hq.
  { destruct (decide (PQ s = [])); [by left|right]. by apply popped_exists. }
  destruct (mem s) as [|tmp|tmp k|tmp] eqn:E.
  - eexists. by apply m_top.
  - destruct Hq as [Hq|(k & q & Hp)]; [eexists; by eapply m_empty|]. destruct (decide (epoch k = tmp)); eexists; [by eapply m_take|by eapply m_later].
  - destruct (decide (type k = SESAMCOMMAND)) as [Ht|Ht]; [eexists; by apply (m_command s tmp k (fun _ _ => 0))|].
    destruct Hq as [Hq|(k' & q & Hp)]; [eexists; by apply (m_last s tmp k (fun _ _ => 0))|].
    destruct (decide (epoch k' = tmp)); eexists; [by apply (m_more s tmp k (fun _ _ => 0) k' q)|by apply (m_leave s tmp k (fun _ _ => 0) k' q)].
  - eexists. by eapply m_unlock.
Qed.

Lemma popped_length q k q' : popped q k q' → length q = S (length q').
Proof. by intros [-> _]. Qed.

Lemma mem_step_backlog s s' : cosim_inv s → mem_step s s' → (backlog s' < backlog s)%nat.
Proof.
  intros Hc Hs. assert (mem_epoch_ok s) as Hm by apply Hc. unfold mem_epoch_ok in Hm. destruct (ci_epochs _ Hc) as [He Hb].
  assert (∀ k q, popped (PQ s) k q → MemEpoch s ≤ epoch k ≤ CpuEpoch s) as Hq.
  { intros k q Hp. apply (ci_queue _ Hc k). unfold waiting. apply elem_of_app. right. apply (popped_elem _ _ _ k Hp). by left. }
  destruct Hs as [s E Hlt|s tmp E Eq|s tmp k q E Hp Hk|s tmp k q E Hp Hk|s tmp k d E Hty|s tmp k d E Hty Eq|s tmp k d k' q E Hty Hp Hk|s tmp E|s tmp k d k' q E Hty Hp Hk];
    rewrite E in Hm; unfold backlog, waiting, inflight; rewrite E; simpl; try (destruct (play_fields k (delays k d) s) as (E1 & E2 & E3 & _); rewrite ?E1, ?E2, ?E3);
    try (pose proof (popped_length _ _ _ Hp)); try (pose proof (Hq _ _ Hp)); rewrite ?u64_small by (unfold in_u64; lia); lia.
Qed.

(** ** Theorems *)

(** C15: the memory plays the accesses, the device requests and the commands of the simulators in the order of epoch and time
    stamp, whatever the two threads do and whatever the delays are; what was pushed is, at any time, what was played,
    what is being played and what is in the queue. *)
Theorem cosim_in_order b s : rtc step (setFocusOnROI b new_Cosim) s →
  StronglySorted before (served s).*1 ∧ pushed s ≡ₚ (served s).*1 ++ waiting s.
Proof. intros [_ _ _ _ Hs Hp]%cosim_run_inv. done. Qed.


(** C16: [FillBiases] returns.  While it waits for the memory the thread of the memory has a step to make, of which there
    are at most [backlog s]; and when it has waited the mutex of the epoch is free, or the next step of the thread of the
    memory releases it. *)
Theorem cosim_fill_returns s : rtc step (setFocusOnROI false new_Cosim) s → iss s = Filling →
  (fill_waits s = true → ∃ s', mem_step s s') ∧ (∀ m s', nsteps mem_step m s s' → (m ≤ backlog s)%nat)
  ∧ (fill_waits s = false → mutex_held s (CpuEpoch s mod EPOCHS) = true → ∃ s', mem_step s s' ∧ mem s' = Top).
Proof.
  intros [Hc Ht]%run_times E. destruct (ci_epochs _ Hc) as [He Hb]. assert (fill_waits s = bool_decide (MemEpoch s + 2 ≤ CpuEpoch s)) as Hw.
  { unfold fill_waits, EPOCHS. by rewrite u64_small by (unfold in_u64; lia). }
  rewrite Hw. split_and!.
  - intros Hle%bool_decide_eq_true. apply mem_progress; [done|lia].
  - intros m s' Hn. clear E Ht He Hb Hw. induction Hn as [s|m s s1 s' Hs _ IH]; [lia|].
    pose proof (mem_step_backlog s s1 Hc Hs). specialize (IH (mem_step_inv s s1 Hc Hs)). lia.
  - intros Hgt%bool_decide_eq_false Hh. assert (mem_epoch_ok s) as Hm by apply Hc. unfold mutex_held, mem_epoch_ok in *.
    destruct (mem s) as [|tmp|tmp k|tmp] eqn:Em; [done..| |].
    + destruct Hm as (-> & Hlt & _). apply bool_decide_eq_true in Hh. apply (parity (MemEpoch s) (CpuEpoch s)) in Hh; lia.
    + exists (set_mem Top s). split; [by eapply m_unlock|done].
Qed.
End cosim.

(** ** A concrete run *)

Definition same (t : Z) : Z := t.
(** One simulator and one CPU, which makes an access in epoch 0; the memory is late by an epoch. *)
Definition a_map (j : nat) : list (Z * Z * Z) := [(0, 4096, 4096)].
Definition w1 : Cosim := Notify 0 10 0 64 4 (setFocusOnROI false new_Cosim).
Definition w3 : Cosim := fill_end 100 (fill_collect 1 1 Z.add (set_iss Filling (fill_start w1))).
Definition w4 : Cosim := set_iss Filling (fill_start w3).
Definition w6 : Cosim := set_mem (Body 0 (Buffer w1)) (set_PQ [] (set_mem (Pop 0) w4)).
Definition w7 : Cosim := next_epoch (play 1 same (Buffer w1) (delays same a_map [] (Buffer w1) (fun _ _ => 5)) w6).
Definition w8 : Cosim := fill_end 200 (fill_collect 1 1 Z.add w7).

Lemma run_w4 : rtc (step 1 1 Z.add same a_map []) (setFocusOnROI false new_Cosim) w4.
Proof.
  eapply rtc_l; [right; by apply (i_notify 1 1 Z.add _ 0 10 0 64 4)|]. eapply rtc_l; [right; by apply (i_fill 1 1 Z.add w1)|].
  eapply rtc_l; [right; by apply (i_collect 1 1 Z.add (set_iss Filling (fill_start w1)) 100)|].
  apply rtc_once. right. by apply (i_fill 1 1 Z.add w3).
Qed.

Lemma run_w8 : rtc (step 1 1 Z.add same a_map []) (setFocusOnROI false new_Cosim) w8.
Proof.
  etransitivity; [apply run_w4|]. eapply rtc_l; [left; by apply (m_top 1 same a_map [] w4)|].
  eapply (rtc_l _ _ w6); [left; apply (m_take 1 same a_map [] (set_mem (Pop 0) w4) 0 (Buffer w1) []); [done|split; [done|by intros v ?%elem_of_nil]|done]|].
  eapply (rtc_l _ _ w7); [left; by apply (m_last 1 same a_map [] w6 0 (Buffer w1) (fun _ _ => 5))|].
  apply rtc_once. right. by apply (i_collect 1 1 Z.add w7 200).
Qed.

Lemma cosim_in_order_witness : (served w8).*1 = [Buffer w1] ∧ pushed w8 ≡ₚ (served w8).*1 ++ waiting w8.
Proof. split; [done|]. apply (cosim_in_order 1 1 Z.add same a_map [] false), run_w8. Defined.


Lemma cosim_fill_returns_witness : fill_waits w4 = true ∧ (∃ s', mem_step 1 same a_map [] w4 s') ∧ ∀ m s', nsteps (mem_step 1 same a_map []) m w4 s' → (m ≤ 11)%nat.
Proof.
  destruct (cosim_fill_returns 1 1 Z.add same a_map [] w4 run_w4 eq_refl) as (H1 & H2 & _). split; [done|]. split; [by apply H1|exact H2].
Defined.

(** At time 0 the time stamp of the command that starts a capture wraps around: it comes after the
    accesses of its epoch, and after the command that ends the capture. *)
Example start_command_last :
  let start := NotifySesamCommand 0 true (setFocusOnROI true new_Cosim) in
  let access := Notify 0 10 0 64 4 start in
  compare_Req (Buffer start) (Buffer access) = true
  ∧ compare_Req (Buffer start) (Buffer (NotifySesamCommand 1 false access)) = true.
Proof. by vm_compute. Qed.
