(* ===== verification/DynamicClasses.v ===== *)
(** * The classes of components ([components/include/components/DynamicComponents.hpp])

    A platform description names the class of every component.  A class is a [VpsimIp] that
    registers its attributes, says how many ports it has and where it is mapped, and creates
    the simulated object in [make].  The file has the classes whose objects the development
    models, as values of [VpsimIp.ip_class], the objects, and the monad of a platform with its
    objects. *)

From S2P Require Import Prelude Attributes AddrSpace ModuleParams ParamContainer ParameterSet ModuleTree Schedule SortedMap ParamManager VpsimIp.
From S2P Require Import Tlm CacheSet CacheBase CoherenceInterconnect LocalMemory TargetIf Interconnect Gic.
From stdpp Require Import gmap strings pretty.
#[local] Open Scope Z_scope.

(** ** Virtual functions *)

(** Those of [VpsimIp] that a class may keep. *)
Definition always {A} (v : A) : attrs → result A := fun _ => Ok v.
Definition not_mapped_base (name : string) (_ : attrs) : result Z :=
  Err (Throw (name ++ "getBaseAddress() on non-memory-mapped object.")).
Definition not_mapped_size (name : string) (_ : attrs) : result Z :=
  Err (Throw (name ++ "getSize() on non-memory-mapped object.")).

(** The ways a class hands out sockets: none, one, or one per port of a module that exists. *)
Definition no_socket (what name : string) (_ : bool) (_ : Z) : result Z := Err (Throw (name ++ what)).
Definition one_socket (_ : string) (made : bool) (_ : Z) : result Z :=
  if made then Ok 0 else Err (UndefinedBehaviour "null pointer").
Definition member_socket (_ : string) (_ : bool) (_ : Z) : result Z := Ok 0.
Definition next_socket (what name : string) (made : bool) (counter : Z) : result Z :=
  if made then Ok counter else Err (Throw (name ++ what)).

(** ** Classes *)

Definition DynamicMemory : ip_class :=
  mkIpClass "DynamicMemory" false (always 1) (always 0)
    one_socket (no_socket " : Memory has no out sockets.")
    (always true) false true (attr_bool "dmi_enable") false false
    (fun _ => getAttrAsUInt64 "base_address") (fun _ => getAttrAsUInt64 "size")
    ["size"; "base_address"; "cycle_duration"; "write_cycles"; "read_cycles"; "channel_width"; "load_elf"; "elf_file"; "dmi_enable"]
    [("latency_enable", "1")].

Definition DynamicInterconnect : ip_class :=
  mkIpClass "DynamicInterconnect" false (attr_unsigned "n_in_ports") (attr_unsigned "n_out_ports")
    (next_socket "Please call make() before handling ports.") (next_socket " Please call make() before handling ports.")
    (always false) false false (always false) false false not_mapped_base not_mapped_size
    ["latency"; "n_in_ports"; "n_out_ports"; "is_mesh"; "mesh_x"; "mesh_y"; "router_latency"] [].

(** Ports of a cache: one for the data of the level below; one for invalidations when there is
    a level above; one for instructions at level 2. *)
Definition getnIn (a : attrs) : result Z :=
  let* level := getAttrAsUInt64 "level" a in
  let* levels := getAttrAsUInt64 "levels_number" a in
  let nin := 1 + (if bool_decide (level < levels) then 1 else 0) in
  if bool_decide (level = 2)
  then let* l1i := getAttrAsUInt64 "l1i_simulate" a in Ok (nin + if bool_decide (l1i = 0) then 0 else 1)
  else Ok nin.
Definition getnOut (a : attrs) : result Z :=
  let* level := getAttrAsUInt64 "level" a in
  if bool_decide (1 < level)
  then let* home := getAttrAsUInt64 "is_home" a in Ok (1 + if bool_decide (home = 0) then 1 else 0)
  else Ok 1.

Definition DynamicCache : ip_class :=
  mkIpClass "DynamicCache" false getnIn getnOut
    (next_socket "Please call make() before handling ports.") (next_socket " Please call make() before handling ports.")
    (attr_bool "is_home") true false (always false) true false
    (fun _ => getAttrAsUInt64 "home_base_address") (fun _ => getAttrAsUInt64 "home_size")
    ["latency"; "size"; "line_size"; "associativity"; "repl_policy"; "writing_policy"; "allocation_policy"; "cpu"; "local"; "id";
     "level"; "levels_number"; "is_home"]
    [("nb_interleaved_caches", "0"); ("inclusion_higher", "NINE"); ("inclusion_lower", "NINE"); ("is_coherent", "0");
     ("home_base_address", "0"); ("home_size", "0"); ("l1i_simulate", "0")].

(** A sum of three attributes, as [unsigned]. *)
Definition attr_sum3 (k1 k2 k3 : string) (a : attrs) : result Z :=
  let* x := getAttrAsUInt64 k1 a in
  let* y := getAttrAsUInt64 k2 a in
  let* z := getAttrAsUInt64 k3 a in
  Ok (u32 (x + y + z)).

Definition DynamicCoherenceInterconnect : ip_class :=
  mkIpClass "DynamicCoherenceInterconnect" false
    (attr_sum3 "n_cache_in" "n_home_in" "n_device") (attr_sum3 "n_cache_out" "n_home_out" "n_mmapped")
    (no_socket " : Does not support dynamic port allocation.") (no_socket " : Does not support dynamic port allocation.")
    (always false) false false (always false) false false not_mapped_base not_mapped_size
    ["latency"; "n_cache_in"; "n_cache_out"; "n_home_in"; "n_home_out"; "n_mmapped"; "n_device"; "flitSize"; "memory_word_length";
     "is_coherent"; "is_mesh"; "mesh_x"; "mesh_y"; "with_contention"; "contention_interval"; "buffer_size"; "virtual_channels";
     "router_latency"; "link_latency"; "noc_stats_per_initiator_on"]
    [("memory_interleave_length", "0"); ("slc_interleave_length", "0"); ("latency_enable", "1")].

(** The controllers that give positions to memories, caches, processors and devices: they have
    no ports, only attributes. *)
Definition controller (type in_what out_what : string) (required : list string) : ip_class :=
  mkIpClass type false (always 0) (always 0) (no_socket in_what) (no_socket out_what)
    (always false) false false (always false) false false not_mapped_base not_mapped_size required [].

Definition DynamicNoCDeviceController : ip_class :=
  controller "DynamicNoCDeviceController" " : IOAccess Device has no in sockets." " : IOAccess Device has no out sockets."
    ["id_dev"; "x_id"; "y_id"; "noc"].
Definition DynamicNoCMemoryController : ip_class :=
  controller "DynamicNoCMemoryController" " : MemoryView has no in sockets." " : Memory has no out sockets."
    ["size"; "base_address"; "noc"; "x_id"; "y_id"].
Definition DynamicCacheController : ip_class :=
  controller "DynamicCacheController" " : Cache Controller has no in sockets." " : Cache Controller has no out sockets."
    ["size"; "base_address"; "noc"; "x_id"; "y_id"].
Definition DynamicCacheIdController : ip_class :=
  controller "DynamicCacheIdController" " : Cache Controller has no in sockets." " : Cache Controller has no out sockets."
    ["noc"; "cache"; "x_id"; "y_id"].
Definition DynamicCpuController : ip_class :=
  controller "DynamicCpuController" " : Cpu Controller has no in sockets." " : Cpu Controller has no out sockets."
    ["id"; "noc"; "x_id"; "y_id"].
Definition DynamicNoCHomeNode : ip_class :=
  controller "DynamicNoCHomeNode" " : MemoryView has no in sockets." " : Memory has no out sockets."
    ["size"; "base_address"; "noc_id"; "noc"].
Definition DynamicNoCSource : ip_class :=
  controller "DynamicNoCSource" " : MemoryView has no in sockets." " : Memory has no out sockets."
    ["src_id"; "noc_id"; "noc"].

Definition DynamicGIC : ip_class :=
  mkIpClass "DynamicGIC" false (always 1) (always 0) member_socket (no_socket " : GIC has no out sockets.")
    (always true) false false (always false) false false
    (fun _ => getAttrAsUInt64 "base_address") (fun _ => always 0x100000)
    ["base_address"; "cpu_if_base"; "cpu_if_size"; "distributor_base"; "distributor_size"; "vdistributor_base"; "vdistributor_size";
     "vcpu_if_base"; "vcpu_if_size"; "filter"; "maintenance_irq"] [].

(** The names under which the main program registers them. *)
Definition registered_classes : gmap string ip_class :=
  {[ "Memory" := DynamicMemory; "Interconnect" := DynamicInterconnect; "Cache" := DynamicCache;
     "CoherentInterconnect" := DynamicCoherenceInterconnect; "NoCMemoryController" := DynamicNoCMemoryController;
     "NoCSource" := DynamicNoCSource; "NoCHomeNode" := DynamicNoCHomeNode; "NoCDeviceController" := DynamicNoCDeviceController;
     "CacheController" := DynamicCacheController; "CacheIdController" := DynamicCacheIdController;
     "CpuController" := DynamicCpuController; "GIC" := DynamicGIC ]}.

(** ** Objects *)

(** The members of [LatencyIf] that no access of a memory reads; [mEnableLatency] is a member
    of the memory itself. *)
Record LatencyIf := mkLatencyIf {
  mCyclesPerRead : Z;
  mCyclesPerWrite : Z;
  mInitialCyclesPerAccess : Z;
  mCycleDuration : Z }.
Definition setCyclesPerRead (CyclesPerRead : Z) (l : LatencyIf) : LatencyIf :=
  mkLatencyIf CyclesPerRead (mCyclesPerWrite l) (mInitialCyclesPerAccess l) (mCycleDuration l).
Definition setCyclesPerWrite (CyclesPerWrite : Z) (l : LatencyIf) : LatencyIf :=
  mkLatencyIf (mCyclesPerRead l) CyclesPerWrite (mInitialCyclesPerAccess l) (mCycleDuration l).
Definition setCycleDuration (CycleDuration : Z) (l : LatencyIf) : LatencyIf :=
  mkLatencyIf (mCyclesPerRead l) (mCyclesPerWrite l) (mInitialCyclesPerAccess l) CycleDuration.

(** The wrapper of a cache: its latency, its ports, whether it is private to a processor, and
    what it was told about memories. *)
Record cache_obj := mkCacheObj {
  co_cfg : config;
  co_cache : cache;
  co_latency : Z;
  co_nin : Z;
  co_nout : Z;
  isPriv : bool;
  is_uncached_region : Z → bool }.

Inductive object :=
  | MemoryObj (m : component memory) (l : LatencyIf)
  | InterconnectObj (n : interconnect) (mConnectionCounter : Z)
  | CacheObj (c : cache_obj)
  | CoherenceObj (cfg : ic_config) (n : ic) (mConnectionCounter_cache mConnectionCounter_home mConnectionCounter_mmapped : Z)
  | GicObj (g : component gic).

Section dynamic.
Context {rate : Type} `{!ModuleParameter (ApproximateTraversalRate rate)}.
Context (scale : ApproximateDelay → rate → ApproximateDelay).
Context {W : Type} (hook : nat → list (VpsimModule rate) → M W unit).

(** A platform and the objects that [make] created. *)
Record Dyn := mkDyn { plat : @Platform rate W; objs : gmap nat object }.

Definition on_platform {A} (m : M (@Platform rate W) A) : M Dyn A := fun s =>
  let '(r, p) := m (plat s) in (r, mkDyn p (objs s)).
Definition put_obj (i : nat) (o : object) : M Dyn unit := m_modify (fun s => mkDyn (plat s) (<[i := o]> (objs s))).
(** [mModulePtr]: null before [make]. *)
Definition get_obj (i : nat) : M Dyn object := fun s =>
  (match objs s !! i with Some o => Ok o | None => Err (UndefinedBehaviour "null pointer") end, s).

Definition ip (i : nat) : M Dyn Ip := on_platform (get_ip i).
Definition attribute {A} (read : attrs → result A) (i : nat) : M Dyn A := p <- ip i ;; m_lift (read (mAttributes p)).
Abbreviation number k := (attribute (getAttrAsUInt64 k)) (only parsing).

(** [checkAttributes] of a component of the platform. *)
Definition check_ip (i : nat) : M Dyn unit :=
  p <- ip i ;; q <- m_lift (checkAttributes p) ;; on_platform (upd_ip i (fun _ => q)).

(** [mModulePtr = new ...]. *)
Definition create (i : nat) (o : object) : M Dyn unit := put_obj i o ;;; on_platform (upd_ip i (set_mMade true)).
End dynamic.
Arguments Dyn : clear implicits.
