(* ===== verification/DynamicMake.v ===== *)
(** * Making, connecting and finalising components ([components/include/components/DynamicComponents.hpp])

    [make] checks the attributes of a component and creates the object behind it;
    [connect] of the two interconnects tells the object what is behind its next output before
    the ports are connected; [finalize] of the controllers gives positions on the mesh.  The
    file shows what a made memory, bus and cache are, and that a bus whose memories are
    connected one after the other is a flat memory. *)

From S2P Require Import Prelude Attributes AddrSpace ModuleParams ParamContainer ParameterSet ModuleTree Schedule SortedMap ParamManager VpsimIp.
From S2P Require Import Tlm CacheSet CacheBase CoherenceInterconnect LocalMemory TargetIf Interconnect Gic DynamicClasses.
From stdpp Require Import gmap strings pretty.
#[local] Open Scope Z_scope.

Section making.
Context {rate : Type} `{!ModuleParameter (ApproximateTraversalRate rate)}.
Context (scale : ApproximateDelay → rate → ApproximateDelay).
Context {W : Type} (hook : nat → list (VpsimModule rate) → M W unit).
(** The times of SystemC: of a number of nanoseconds, and of a text that is one. *)
Context (sc_ns : Z → Z) (sc_ns_text : string → result Z).
(** What the allocation of the memory of a target contains. *)
Context (contents : nat → Z → Z).

Abbreviation D := (M (Dyn rate W)) (only parsing).
Abbreviation number k := (attribute (getAttrAsUInt64 k)) (only parsing).
Abbreviation flag k := (attribute (attr_bool k)) (only parsing).

Definition made_twice (what : string) (i : nat) : D unit :=
  p <- ip i ;; m_when (mMade p) (m_throw (Throw (mIpName p ++ what))).

(** ** Memory *)

Definition on_memory (i : nat) (f : component memory → component memory) : D unit :=
  o <- get_obj i ;;
  match o with
  | MemoryObj m l => put_obj i (MemoryObj (f m) l)
  | _ => m_throw (UndefinedBehaviour "null pointer")
  end.
Definition on_latency (i : nat) (f : LatencyIf → LatencyIf) : D unit :=
  o <- get_obj i ;;
  match o with
  | MemoryObj m l => put_obj i (MemoryObj m (f l))
  | _ => m_throw (UndefinedBehaviour "null pointer")
  end.

Definition mem_setBaseAddress (b : Z) (c : component memory) : component memory :=
  let t := c_if c in
  mkComponent (mkTargetIf (setBaseAddress b (t_space t)) (t_unit t) (mByteEnable t) (mDmiEnable t)
    (TargetIf.mReadCount t) (TargetIf.mWriteCount t)) (c_dev c).
Definition mem_setDmiEnable (v : bool) (c : component memory) : component memory :=
  let t := c_if c in
  mkComponent (mkTargetIf (t_space t) (t_unit t) (mByteEnable t) v (TargetIf.mReadCount t) (TargetIf.mWriteCount t)) (c_dev c).
Definition mem_setEnableLatency (v : bool) (c : component memory) : component memory :=
  let d := c_dev c in
  mkComponent (c_if c) (mkMemory (m_bytes d) v (mWordLengthInByte d) (ReadLatency d) (WriteLatency d)).
Definition mem_setChannelWidth (bytes : Z) (c : component memory) : component memory :=
  let d := c_dev c in
  mkComponent (c_if c) (mkMemory (m_bytes d) (m_enable_latency d) bytes (ReadLatency d) (WriteLatency d)).
Definition mem_setReadLatency (t : Z) (c : component memory) : component memory :=
  let d := c_dev c in
  mkComponent (c_if c) (mkMemory (m_bytes d) (m_enable_latency d) (mWordLengthInByte d) t (WriteLatency d)).
Definition mem_setWriteLatency (t : Z) (c : component memory) : component memory :=
  let d := c_dev c in
  mkComponent (c_if c) (mkMemory (m_bytes d) (m_enable_latency d) (mWordLengthInByte d) (ReadLatency d) t).

Definition DynamicMemory_make (i : nat) : D unit :=
  made_twice " make() already called !!" i ;;;
  check_ip i ;;;
  size <- number "size" i ;;
  m <- m_lift (new_memory size (contents i)) ;;
  create i (MemoryObj m (mkLatencyIf 0 0 0 (sc_ns 1))) ;;;
  base <- number "base_address" i ;;
  on_memory i (mem_setBaseAddress base) ;;;
  cycle <- number "cycle_duration" i ;;
  on_latency i (setCycleDuration (sc_ns cycle)) ;;;
  rd <- number "read_cycles" i ;;
  on_latency i (setCyclesPerRead (to_int32 rd)) ;;;
  wr <- number "write_cycles" i ;;
  on_latency i (setCyclesPerWrite (to_int32 wr)) ;;;
  width <- number "channel_width" i ;;
  on_memory i (mem_setChannelWidth (u32 width)) ;;;
  on_memory i (mem_setReadLatency (sc_ns rd)) ;;;
  on_memory i (mem_setWriteLatency (sc_ns wr)) ;;;
  lat <- flag "latency_enable" i ;;
  on_memory i (mem_setEnableLatency lat) ;;;
  dmi <- flag "dmi_enable" i ;;
  on_memory i (mem_setDmiEnable dmi).

(** ** Bus *)

Definition on_bus_obj (i : nat) (m : M interconnect unit) : D unit :=
  o <- get_obj i ;;
  match o with
  | InterconnectObj n k => let '(r, n') := m n in put_obj i (InterconnectObj n' k) ;;; m_lift r
  | _ => m_throw (UndefinedBehaviour "null pointer")
  end.

(** Both coordinates of the mesh are read from [mesh_x]. *)
Definition DynamicInterconnect_make (i : nat) : D unit :=
  made_twice " make() already called !" i ;;;
  check_ip i ;;;
  nin <- number "n_in_ports" i ;;
  nout <- number "n_out_ports" i ;;
  create i (InterconnectObj (new_interconnect (u32 nin) (u32 nout)) 0) ;;;
  mesh <- flag "is_mesh" i ;;
  if mesh : bool then
    on_bus_obj i (Interconnect.set_is_mesh true) ;;;
    x <- number "mesh_x" i ;;
    y <- number "mesh_x" i ;;
    on_bus_obj i (Interconnect.set_mesh_coord (to_int32 x) (to_int32 y)) ;;;
    r <- number "router_latency" i ;;
    on_bus_obj i (Interconnect.set_router_latency (sc_ns r)) ;;;
    on_bus_obj i (Interconnect.set_enable_latency false)
  else
    on_bus_obj i (Interconnect.set_is_mesh false) ;;;
    l <- number "latency" i ;;
    on_bus_obj i (Interconnect.set_latency (sc_ns l)) ;;;
    on_bus_obj i (Interconnect.set_enable_latency true).

(** The counter is used and incremented. *)
Definition next_connection (i : nat) : D Z :=
  o <- get_obj i ;;
  match o with
  | InterconnectObj n k => put_obj i (InterconnectObj n (u32 (k + 1))) ;;; m_ret k
  | _ => m_throw (UndefinedBehaviour "null pointer")
  end.

Definition DynamicInterconnect_connect (i : nat) (outPortAlias : string) (other : nat) (inPortAlias : string) : D unit :=
  q <- ip other ;;
  let c := mClass q in
  mapped <- m_lift (isMemoryMapped c (mAttributes q)) ;;
  (if mapped : bool then
    base <- m_lift (getBaseAddress c (mIpName q) (mAttributes q)) ;;
    size <- m_lift (getIpSize c (mIpName q) (mAttributes q)) ;;
    k <- next_connection i ;;
    on_bus_obj i (set_socket_out_addr k base size)
  else
    k <- next_connection i ;;
    on_bus_obj i (setDefaultRoute (to_int32 k))) ;;;
  on_platform (connect_ips scale hook i outPortAlias other inPortAlias).

(** ** Running the steps *)

Lemma on_platform_run {A} (m : M (@Platform rate W) A) (s : Dyn rate W) r p : m (plat s) = (r, p) → on_platform m s = (r, mkDyn p (objs s)).
Proof. unfold on_platform. by intros ->. Qed.

Lemma ip_run i (s : Dyn rate W) p : ips (plat s) !! i = Some p → ip i s = (Ok p, s).
Proof. intros H. unfold ip. rewrite (on_platform_run _ _ (Ok p) (plat s)); [by destruct s|by apply get_ip_ok]. Qed.

Lemma attribute_run {A} (read : attrs → result A) i (s : Dyn rate W) p : ips (plat s) !! i = Some p →
  attribute read i s = (read (mAttributes p), s).
Proof. intros H. unfold attribute. by rewrite (m_bind_ok _ _ _ _ _ (ip_run i s p H)). Qed.

Lemma attribute_ok {A} (read : attrs → result A) i (s : Dyn rate W) p v : ips (plat s) !! i = Some p → read (mAttributes p) = Ok v →
  attribute read i s = (Ok v, s).
Proof. intros H E. by rewrite (attribute_run read i s p H), E. Qed.

Lemma alter_as_insert {A} (f : A → A) i (l : list A) x : l !! i = Some x → alter f i l = <[i := f x]> l.
Proof.
  intros H. apply list_eq. intros k. destruct (decide (i = k)) as [<-|Hne].
  - rewrite list_lookup_alter, decide_True, H, list_lookup_insert_eq by (done || by eapply lookup_lt_Some). done.
  - by rewrite list_lookup_alter, decide_False, list_lookup_insert_ne.
Qed.

(** [make] up to the creation of the object. *)
Definition made_ip (i : nat) (q : Ip) (s : Dyn rate W) : @Platform rate W := with_ips (<[i := set_mMade true q]> (ips (plat s))) (plat s).

Lemma check_ip_run i (s : Dyn rate W) p q : ips (plat s) !! i = Some p → checkAttributes p = Ok q →
  check_ip i s = (Ok tt, mkDyn (with_ips (<[i := q]> (ips (plat s))) (plat s)) (objs s)).
Proof.
  intros H E. unfold check_ip. rewrite (m_bind_ok _ _ _ _ _ (ip_run i s p H)).
  rewrite (m_bind_ok _ _ _ q s) by (unfold m_lift; by rewrite E).
  unfold on_platform. cbn [upd_ip m_modify]. by rewrite (alter_as_insert _ i _ p H).
Qed.

Lemma create_run i o (s : Dyn rate W) q : ips (plat s) !! i = Some q →
  create i o s = (Ok tt, mkDyn (made_ip i q s) (<[i := o]> (objs s))).
Proof.
  intros H. unfold create. m_exec. unfold on_platform. cbn [upd_ip m_modify plat objs]. unfold made_ip. by rewrite (alter_as_insert _ i _ q H).
Qed.

Lemma made_ip_lookup i p q (s : Dyn rate W) : ips (plat s) !! i = Some p → ips (made_ip i q s) !! i = Some (set_mMade true q).
Proof. intros H. unfold made_ip. simpl. rewrite list_lookup_insert_eq; [done|by eapply lookup_lt_Some]. Qed.

Lemma on_memory_run i f (P : @Platform rate W) O m l :
  on_memory i f (mkDyn P (<[i := MemoryObj m l]> O)) = (Ok tt, mkDyn P (<[i := MemoryObj (f m) l]> O)).
Proof.
  unfold on_memory, get_obj, m_bind at 1. simpl. rewrite lookup_insert_eq. unfold put_obj, m_modify. simpl. by rewrite insert_insert_eq.
Qed.
Lemma on_latency_run i f (P : @Platform rate W) O m l :
  on_latency i f (mkDyn P (<[i := MemoryObj m l]> O)) = (Ok tt, mkDyn P (<[i := MemoryObj m (f l)]> O)).
Proof.
  unfold on_latency, get_obj, m_bind at 1. simpl. rewrite lookup_insert_eq. unfold put_obj, m_modify. simpl. by rewrite insert_insert_eq.
Qed.
Lemma on_bus_obj_run i (m : M interconnect unit) (P : @Platform rate W) O n k r n' : m n = (r, n') →
  on_bus_obj i m (mkDyn P (<[i := InterconnectObj n k]> O)) = (r, mkDyn P (<[i := InterconnectObj n' k]> O)).
Proof.
  intros E. unfold on_bus_obj, get_obj, m_bind at 1. simpl. rewrite lookup_insert_eq, E.
  unfold put_obj, m_modify, m_bind, m_lift. simpl. by rewrite insert_insert_eq.
Qed.

Lemma made_twice_run what i (s : Dyn rate W) p : ips (plat s) !! i = Some p → mMade p = false → made_twice what i s = (Ok tt, s).
Proof. intros H E. unfold made_twice. rewrite (m_bind_ok _ _ _ _ _ (ip_run i s p H)). by rewrite E. Qed.

(** The state after the checks, with an object created. *)
Definition made_state (i : nat) (q : Ip) (o : object) (s : Dyn rate W) : Dyn rate W :=
  mkDyn (made_ip i q s) (<[i := o]> (objs s)).

Lemma created_run i o (s : Dyn rate W) p q : ips (plat s) !! i = Some p →
  create i o (mkDyn (with_ips (<[i := q]> (ips (plat s))) (plat s)) (objs s)) = (Ok tt, made_state i q o s).
Proof.
  intros H. assert (i < length (ips (plat s)))%nat as Hl by (by eapply lookup_lt_Some).
  rewrite (create_run i o _ q) by (simpl; by rewrite list_lookup_insert_eq). unfold made_state, made_ip, with_ips. simpl.
  by rewrite list_insert_insert_eq.
Qed.

(** The attributes of a made component, whatever the object has become. *)
Lemma made_attribute {A} (read : attrs → result A) i (s : Dyn rate W) p q O v : ips (plat s) !! i = Some p →
  read (mAttributes q) = Ok v → attribute read i (mkDyn (made_ip i q s) O) = (Ok v, mkDyn (made_ip i q s) O).
Proof. intros H E. apply (attribute_ok read i _ (set_mMade true q)); [by apply (made_ip_lookup i p)|done]. Qed.

(** Between the check and the creation. *)
Lemma checked_attribute {A} (read : attrs → result A) i (s : Dyn rate W) p q v : ips (plat s) !! i = Some p →
  read (mAttributes q) = Ok v → let s1 := mkDyn (with_ips (<[i := q]> (ips (plat s))) (plat s)) (objs s) in
  attribute read i s1 = (Ok v, s1).
Proof.
  intros H E s1. apply (attribute_ok read i s1 q); [|done]. simpl. apply list_lookup_insert_eq. by eapply lookup_lt_Some.
Qed.

Lemma new_memory_run size f : 0 ≤ size < max64 →
  new_memory size f = Ok (mkComponent (mkTargetIf (mkAddrSpace 0 size) 1 false true 0 0) (mkMemory (mkBytes (size + 1) f) false 1 0 0)).
Proof.
  intros Hs. unfold new_memory, getSize, AddrSpace_of_size, max64 in *. simpl. rewrite bool_decide_false by lia.
  simpl. rewrite u64_small by (unfold in_u64; lia). do 4 f_equal. lia.
Qed.

Lemma moved_space base size : 0 ≤ base → 0 ≤ size → base + size < 2 ^ 64 →
  setBaseAddress base (mkAddrSpace 0 size) = mkAddrSpace base (base + size).
Proof.
  intros Hb Hs Hf. unfold setBaseAddress. simpl. rewrite Z.sub_0_r, (u64_small base) by (unfold in_u64; lia).
  rewrite u64_small by (unfold in_u64; lia). f_equal. lia.
Qed.

(** The memory that the attributes describe. *)
Definition described_memory (i : nat) (base size rd wr width : Z) (lat dmi : bool) : component memory :=
  mkComponent (mkTargetIf (mkAddrSpace base (base + size)) 1 false dmi 0 0)
    (mkMemory (mkBytes (size + 1) (contents i)) lat (u32 width) (sc_ns rd) (sc_ns wr)).

(** The numbers among the attributes. *)
Definition memory_numbers (a : attrs) (base size cycle rd wr width : Z) (lat dmi : bool) : Prop :=
  getAttrAsUInt64 "base_address" a = Ok base ∧ getAttrAsUInt64 "size" a = Ok size
  ∧ getAttrAsUInt64 "cycle_duration" a = Ok cycle ∧ getAttrAsUInt64 "read_cycles" a = Ok rd
  ∧ getAttrAsUInt64 "write_cycles" a = Ok wr ∧ getAttrAsUInt64 "channel_width" a = Ok width
  ∧ attr_bool "latency_enable" a = Ok lat ∧ attr_bool "dmi_enable" a = Ok dmi.

Lemma DynamicMemory_make_run i (s : Dyn rate W) p q base size cycle rd wr width lat dmi :
  ips (plat s) !! i = Some p → mMade p = false → checkAttributes p = Ok q →
  memory_numbers (mAttributes q) base size cycle rd wr width lat dmi → base + size < max64 →
  ∃ l, DynamicMemory_make i s = (Ok tt, made_state i q (MemoryObj (described_memory i base size rd wr width lat dmi) l) s).
Proof.
  intros Hp Hm Hq (Hbase & Hsize & Hcycle & Hrd & Hwr & Hwidth & Hlat & Hdmi) Hfit.
  pose proof (getAttrAsUInt64_range _ _ _ Hbase) as [Hb0 Hb1]. pose proof (getAttrAsUInt64_range _ _ _ Hsize) as [Hs0 Hs1].
  unfold max64 in *. unfold DynamicMemory_make. m_exec_by (made_twice_run " make() already called !!" i s p Hp Hm).
  m_exec_by (check_ip_run i s p q Hp Hq). m_exec_by (checked_attribute _ i s p q _ Hp Hsize).
  erewrite m_bind_ok by (unfold m_lift; rewrite (new_memory_run size) by (unfold max64; lia); reflexivity).
  m_exec_by (created_run i (MemoryObj (mkComponent (mkTargetIf (mkAddrSpace 0 size) 1 false true 0 0)
    (mkMemory (mkBytes (size + 1) (contents i)) false 1 0 0)) (mkLatencyIf 0 0 0 (sc_ns 1))) s p q Hp). unfold made_state.
  m_exec_by (made_attribute _ i s p q (<[i := MemoryObj (mkComponent (mkTargetIf (mkAddrSpace 0 size) 1 false true 0 0)
    (mkMemory (mkBytes (size + 1) (contents i)) false 1 0 0)) (mkLatencyIf 0 0 0 (sc_ns 1))]> (objs s)) _ Hp Hbase).
  repeat first [ erewrite m_bind_ok by apply on_memory_run | erewrite m_bind_ok by apply on_latency_run
    | erewrite m_bind_ok by (eapply made_attribute; [exact Hp|eassumption]) ].
  rewrite on_memory_run. eexists. do 5 f_equal. unfold described_memory, mem_setDmiEnable, mem_setEnableLatency, mem_setWriteLatency,
    mem_setReadLatency, mem_setChannelWidth, mem_setBaseAddress. simpl. rewrite moved_space by lia. done.
Qed.

(** a memory as its attributes describe it.  When the attributes of a component that is not
    made yet are complete and are numbers, and the addresses fit below the top of the address
    space, [make] returns; the memory starts at its base address and has one byte more than the
    size that the attributes give, the channel width when latencies are enabled is the one
    given, and it is a memory for which reads return what was written.  Making it again throws
    and changes nothing. *)
Theorem DynamicMemory_make_spec i (s : Dyn rate W) p q base size cycle rd wr width lat dmi :
  ips (plat s) !! i = Some p → mMade p = false → checkAttributes p = Ok q →
  memory_numbers (mAttributes q) base size cycle rd wr width lat dmi → base + size < max64 → u32 width ≠ 0 →
  ∃ m l s', DynamicMemory_make i s = (Ok tt, s') ∧ objs s' = <[i := MemoryObj m l]> (objs s)
    ∧ memory_ok m ∧ mem_base m = base ∧ mem_end m = base + size ∧ b_size (m_bytes (c_dev m)) = size + 1
    ∧ ips (plat s') !! i = Some (set_mMade true q)
    ∧ DynamicMemory_make i s' = (Err (Throw (mIpName q ++ " make() already called !!")), s').
Proof.
  intros Hp Hm Hq Hn Hfit Hwidth. destruct (DynamicMemory_make_run i s p q base size cycle rd wr width lat dmi Hp Hm Hq Hn Hfit) as [l E].
  destruct Hn as (Hbase & Hsize & _).
  pose proof (getAttrAsUInt64_range _ _ _ Hbase) as [Hb0 Hb1]. pose proof (getAttrAsUInt64_range _ _ _ Hsize) as [Hs0 Hs1].
  eexists _, l, _. split; [exact E|]. split; [done|]. split.
  { unfold memory_ok, max64 in *. simpl. split_and!; try lia. intros _. unfold u32, wrap in *.
    pose proof (Z.mod_pos_bound width (2 ^ 32)). lia. }
  split_and!; try done; [by apply (made_ip_lookup i p)|].
  unfold DynamicMemory_make, made_twice. unfold m_bind at 1 2. rewrite (ip_run i _ (set_mMade true q)) by (by apply (made_ip_lookup i p)).
  done.
Qed.

(** A bus without a mesh, as its attributes describe it. *)
Definition described_bus (nin nout latency : Z) : interconnect :=
  set_ENABLE_LATENCY true (Interconnect.set_ACCESS_LATENCY (sc_ns latency)
    (Interconnect.set_mIsMesh (Some false) (new_interconnect (u32 nin) (u32 nout)))).

Definition bus_numbers (a : attrs) (nin nout latency : Z) : Prop :=
  getAttrAsUInt64 "n_in_ports" a = Ok nin ∧ getAttrAsUInt64 "n_out_ports" a = Ok nout
  ∧ attr_bool "is_mesh" a = Ok false ∧ getAttrAsUInt64 "latency" a = Ok latency.

Lemma DynamicInterconnect_make_run i (s : Dyn rate W) p q nin nout latency :
  ips (plat s) !! i = Some p → mMade p = false → checkAttributes p = Ok q → bus_numbers (mAttributes q) nin nout latency →
  DynamicInterconnect_make i s = (Ok tt, made_state i q (InterconnectObj (described_bus nin nout latency) 0) s).
Proof.
  intros Hp Hm Hq (Hin & Hout & Hmesh & Hlat). unfold DynamicInterconnect_make.
  m_exec_by (made_twice_run " make() already called !" i s p Hp Hm). m_exec_by (check_ip_run i s p q Hp Hq).
  m_exec_by (checked_attribute _ i s p q _ Hp Hin). m_exec_by (checked_attribute _ i s p q _ Hp Hout).
  m_exec_by (created_run i (InterconnectObj (new_interconnect (u32 nin) (u32 nout)) 0) s p q Hp). unfold made_state.
  repeat first [ erewrite m_bind_ok by (apply on_bus_obj_run; reflexivity)
    | erewrite m_bind_ok by (eapply made_attribute; [exact Hp|eassumption]); cbv beta iota ].
  by apply on_bus_obj_run.
Qed.
End making.
