(* ===== verification/DynamicBus.v ===== *)
(** * A platform with a bus and memories

    Connecting a memory to a bus does two things: the bus object is told the window of the
    memory under the number of the connection, and the next output socket of the bus is bound to
    the socket of the memory.  The file shows that, when the components are connected one after
    the other under generated aliases, the two numbers agree, so that the windows of the bus lead
    to the memories they belong to and the built platform is one flat memory. *)

From S2P Require Import Prelude Attributes AddrSpace ModuleParams ParamContainer ParameterSet ModuleTree Schedule SortedMap ParamManager VpsimIp.
From S2P Require Import Tlm CacheSet CacheBase CoherenceInterconnect LocalMemory TargetIf Interconnect Gic DynamicClasses DynamicMake.
From stdpp Require Import gmap strings pretty.
#[local] Open Scope Z_scope.

Section connecting.
Context {rate : Type} `{!ModuleParameter (ApproximateTraversalRate rate)}.
Context (scale : ApproximateDelay → rate → ApproximateDelay).
Context {W : Type} (hook : nat → list (VpsimModule rate) → M W unit).
Abbreviation platform := (@Platform rate W) (only parsing).

(** ** Connecting ports *)

(** What a connection does not change. *)
Definition statics (p : Ip) := (mIpName p, mClass p, mAttributes p, mMade p).
Definition statics_of (s : platform) := statics <$> ips s.
Definition outs_of (s : platform) := (fun p => (mOutPortCounter p, mOutPorts p)) <$> ips s.

Lemma ips_upd {X} (f : Ip → X) i g : (∀ p, f (g p) = f p) → preserves (fun s : platform => f <$> ips s) (upd_ip i g).
Proof.
  intros Hf s. simpl. apply list_eq. intros k. rewrite !list_lookup_fmap, list_lookup_alter.
  case_decide as E; [|done]. subst k. destruct (ips s !! i); [|done]. simpl. by rewrite Hf.
Qed.
Lemma ips_manager {X} (f : Ip → X) m : preserves (fun s : platform => f <$> ips s) (on_manager m).
Proof. intros s. unfold on_manager. by destruct (m (manager s)). Qed.

Ltac keeps_ips_view := repeat first [ apply preserves_bind; [|intros ?] | apply preserves_if | apply preserves_when
  | by apply ips_upd | apply ips_manager | done | case_match ].

Lemma statics_getOutPort i a : preserves statics_of (getOutPort i a).
Proof. unfold getOutPort, addOutPort, getVpsimModule. keeps_ips_view. Qed.
Lemma statics_getInPort i a : preserves statics_of (getInPort i a).
Proof. unfold getInPort, addInPort, getVpsimModule. keeps_ips_view. Qed.
Lemma outs_getInPort i a : preserves outs_of (getInPort i a).
Proof. unfold getInPort, addInPort, getVpsimModule. keeps_ips_view. Qed.

Lemma binds_manager m : preserves (@binds rate W) (on_manager m).
Proof. intros s. unfold on_manager. by destruct (m (manager s)). Qed.
Ltac keeps_binds := repeat first [ apply preserves_bind; [|intros ?] | apply preserves_if | apply preserves_when
  | apply binds_manager | done | case_match ].
Lemma binds_getOutPort i a : preserves (@binds rate W) (getOutPort i a).
Proof. unfold getOutPort, addOutPort, getVpsimModule. keeps_binds. Qed.
Lemma binds_getInPort i a : preserves (@binds rate W) (getInPort i a).
Proof. unfold getInPort, addInPort, getVpsimModule. keeps_binds. Qed.

(** No alias is empty. *)
Definition named (p : Ip) : Prop := mInPorts p !! "" = None ∧ mOutPorts p !! "" = None.
Definition all_named (s : platform) : Prop := Forall named (ips s).

Lemma addPort_named p a maxi c n taken alias : addPort p a maxi c n taken = Ok alias → alias ≠ "".
Proof.
  unfold addPort. case_bool_decide; [done|]. destruct (bool_decide (a = "") && _); [done|].
  destruct (taken _); [done|]. intros [= <-]. case_bool_decide; [|done]. by destruct (mIpName p).
Qed.

Lemma named_upd i g (s : platform) : (∀ p, ips s !! i = Some p → named p → named (g p)) → all_named s → all_named (upd_ip i g s).2.
Proof.
  intros Hg Hs. apply Forall_forall. intros q (k & Hk)%list_elem_of_lookup. simpl in Hk. rewrite list_lookup_alter in Hk.
  unfold all_named in Hs. rewrite Forall_lookup in Hs. case_decide as E; [|by apply (Hs k)]. subst k.
  destruct (ips s !! i) as [p|] eqn:Ep; [|done]. injection Hk as <-. apply Hg; [done|]. by apply (Hs i).
Qed.

(** Creating the module of a component only records it. *)
Lemma getVpsimModule_ip i (s : platform) : match getVpsimModule i s with
  | (r, s') => (∀ k, k ≠ i → ips s' !! k = ips s !! k)
      ∧ ∀ p, ips s !! i = Some p → ∃ m, ips s' !! i = Some (set_mVpsimModule m p)
  end.
Proof.
  assert (∀ p : Ip, p = set_mVpsimModule (mVpsimModule p) p) as Hid by (by destruct p).
  unfold getVpsimModule, m_bind, get_ip. destruct (ips s !! i) as [p|] eqn:Ep; [|by split].
  assert ((∀ k, k ≠ i → ips s !! k = ips s !! k) ∧ ∀ p0, Some p = Some p0 → ∃ m, ips s !! i = Some (set_mVpsimModule m p0)) as Hsame.
  { split; [done|]. intros p0 [= <-]. exists (mVpsimModule p). rewrite Ep. by rewrite <-Hid. }
  destruct (mVpsimModule p); [exact Hsame|]. cbn. destruct (isMemoryMapped _ _) as [b|]; [|exact Hsame].
  destruct (if b : bool then _ else _) as [sp|]; [|exact Hsame]. destruct (getMaxOutPortCount _ _) as [nb|]; [|exact Hsame].
  unfold on_manager. destruct (construct_module _ _ _ _ (manager s)) as [[[]|e] c]; [|exact Hsame]. simpl. split.
  - intros k Hk. by rewrite list_lookup_alter, decide_False.
  - intros p0 [= <-]. rewrite list_lookup_alter, decide_True, Ep by done. by eexists.
Qed.

Lemma named_frame i (s s1 : platform) p md : all_named s → ips s !! i = Some p → (∀ k, k ≠ i → ips s1 !! k = ips s !! k) →
  ips s1 !! i = Some (set_mVpsimModule md p) → all_named s1.
Proof.
  intros Hn Hp Hother Hmd. apply Forall_forall. intros q (n & Hq)%list_elem_of_lookup. unfold all_named in Hn.
  rewrite Forall_lookup in Hn. destruct (decide (n = i)) as [->|Hne]; [|rewrite Hother in Hq by done; by apply (Hn n)].
  rewrite Hmd in Hq. injection Hq as <-. exact (Hn i p Hp).
Qed.

(** A new output port under a generated alias. *)
Lemma getOutPort_fresh i (s : platform) p w s' : ips s !! i = Some p → isContainer (mClass p) = false → mOutPorts p !! "" = None →
  all_named s → getOutPort i "" s = (Ok w, s') →
  (∃ k, getNextOutPort (mClass p) (mIpName p) (mMade p) (mOutPortCounter p) = Ok k ∧ out_sock w = (i, k))
  ∧ VpsimIp.out_port w = mOutPortCounter p ∧ all_named s'
  ∧ ∃ p', ips s' !! i = Some p' ∧ mOutPortCounter p' = u32 (mOutPortCounter p + 1).
Proof.
  intros Hp Hc Ho Hn. unfold getOutPort. unfold m_bind at 1. rewrite (get_ip_ok i s p Hp), Ho, Hc.
  unfold addOutPort. unfold m_bind at 1 2. rewrite (get_ip_ok i s p Hp). cbv zeta. rewrite Hc. cbn [m_when].
  unfold m_bind at 1, m_ret at 1. unfold m_bind at 1, m_lift at 1. destruct (getMaxOutPortCount _ _) as [maxi|e]; [|done].
  unfold m_bind at 1, m_lift at 1. destruct (addPort p _ _ _ _ _) as [alias|e] eqn:Ea; [|done]. apply addPort_named in Ea.
  unfold m_bind at 1, m_lift at 1. destruct (getNextOutPort _ _ _ _) as [k|e] eqn:Ek; [|done]. cbn [result_bind].
  unfold m_bind at 1. pose proof (getVpsimModule_ip i s) as Hmod. destruct (getVpsimModule i s) as [[j|e] s1]; [|done].
  destruct Hmod as [Hother Hself]. destruct (Hself p Hp) as [md Hmd].
  unfold m_bind, m_ret, m_lift, get_ip. simpl. rewrite list_lookup_alter, decide_True, Hmd by done. simpl.
  rewrite lookup_insert_eq. intros [= <- <-]. simpl. split; [by exists k|]. split; [done|]. split.
  - apply (named_upd i _ s1).
    + intros p1 Hp1 [Hi1 Ho1]. split; [done|]. simpl. by rewrite lookup_insert_ne.
    + by apply (named_frame i s s1 p md).
  - rewrite list_lookup_alter, decide_True, Hmd by done. by eexists.
Qed.

(** A new input port under a generated alias. *)
Lemma getInPort_fresh i (s : platform) p w s' : ips s !! i = Some p → isContainer (mClass p) = false → mInPorts p !! "" = None →
  all_named s → getInPort i "" s = (Ok w, s') →
  (∃ k, getNextInPort (mClass p) (mIpName p) (mMade p) (mInPortCounter p) = Ok k ∧ in_sock w = (i, k)) ∧ all_named s'.
Proof.
  intros Hp Hc Ho Hn. unfold getInPort. unfold m_bind at 1. rewrite (get_ip_ok i s p Hp), Ho, Hc.
  unfold addInPort. unfold m_bind at 1 2. rewrite (get_ip_ok i s p Hp). cbv zeta. rewrite Hc. cbn [m_when].
  unfold m_bind at 1, m_ret at 1. unfold m_bind at 1, m_lift at 1. destruct (getMaxInPortCount _ _) as [maxi|e]; [|done].
  unfold m_bind at 1, m_lift at 1. destruct (addPort p _ _ _ _ _) as [alias|e] eqn:Ea; [|done]. apply addPort_named in Ea.
  unfold m_bind at 1, m_lift at 1. destruct (getNextInPort _ _ _ _) as [k|e] eqn:Ek; [|done]. cbn [result_bind].
  unfold m_bind at 1. pose proof (getVpsimModule_ip i s) as Hmod. destruct (getVpsimModule i s) as [[j|e] s1]; [|done].
  destruct Hmod as [Hother Hself]. destruct (Hself p Hp) as [md Hmd].
  unfold m_bind, m_ret, m_lift, get_ip. simpl. rewrite list_lookup_alter, decide_True, Hmd by done. simpl.
  rewrite lookup_insert_eq. intros [= <- <-]. simpl. split; [by exists k|].
  apply (named_upd i _ s1).
  - intros p1 Hp1 [Hi1 Ho1]. split; [|done]. simpl. by rewrite lookup_insert_ne.
  - by apply (named_frame i s s1 p md).
Qed.

Lemma statics_lookup (s s' : platform) i p : statics_of s' = statics_of s → ips s !! i = Some p →
  ∃ p', ips s' !! i = Some p' ∧ statics p' = statics p.
Proof.
  intros H Hp. assert (statics_of s' !! i = statics_of s !! i) as Hi by (by rewrite H). unfold statics_of in Hi.
  rewrite !list_lookup_fmap, Hp in Hi. destruct (ips s' !! i) as [p'|]; [|done]. injection Hi as Hi. eexists. split; [done|].
  unfold statics. by f_equal; [f_equal; [f_equal|]|].
Qed.

Lemma named_lookup (s : platform) i p : all_named s → ips s !! i = Some p → mInPorts p !! "" = None ∧ mOutPorts p !! "" = None.
Proof. intros Hn Hp. unfold all_named in Hn. rewrite Forall_lookup in Hn. by apply (Hn i). Qed.

(** A connection under generated aliases binds the next output socket of the one to the next
    input socket of the other. *)
Lemma connect_fresh i other (s : platform) p q s' : ips s !! i = Some p → ips s !! other = Some q →
  isContainer (mClass p) = false → isContainer (mClass q) = false → all_named s →
  connect_ips scale hook i "" other "" s = (Ok tt, s') →
  (∃ k k' c, getNextOutPort (mClass p) (mIpName p) (mMade p) (mOutPortCounter p) = Ok k
     ∧ getNextInPort (mClass q) (mIpName q) (mMade q) c = Ok k' ∧ binds s' = binds s ++ [((i, k), (other, k'))])
  ∧ statics_of s' = statics_of s ∧ all_named s'
  ∧ ∃ p', ips s' !! i = Some p' ∧ mOutPortCounter p' = u32 (mOutPortCounter p + 1).
Proof.
  intros Hp Hq Hcp Hcq Hn. unfold connect_ips. unfold m_bind at 1.
  pose proof (statics_getOutPort i "" s) as Hst1. pose proof (binds_getOutPort i "" s) as Hb1.
  destruct (getOutPort i "" s) as [[w|e] s1] eqn:E1; [|done]. simpl in Hst1, Hb1.
  destruct (getOutPort_fresh i s p w s1 Hp Hcp (proj2 (named_lookup s i p Hn Hp)) Hn E1) as ((k & Hk & Hwk) & _ & Hn1 & p1 & Hp1 & Hcnt).
  destruct (statics_lookup s s1 other q Hst1 Hq) as (q1 & Hq1 & [= En Ec Ea Em]).
  unfold m_bind at 1. pose proof (statics_getInPort other "" s1) as Hst2. pose proof (binds_getInPort other "" s1) as Hb2.
  pose proof (outs_getInPort other "" s1) as Ho2.
  destruct (getInPort other "" s1) as [[v|e] s2] eqn:E2; [|done]. simpl in Hst2, Hb2, Ho2. rewrite <-Ec in Hcq.
  destruct (getInPort_fresh other s1 q1 v s2 Hq1 Hcq (proj1 (named_lookup s1 other q1 Hn1 Hq1)) Hn1 E2) as ((k' & Hk' & Hvk) & Hn2).
  assert (∃ p2, ips s2 !! i = Some p2 ∧ mOutPortCounter p2 = u32 (mOutPortCounter p + 1)) as (p2 & Hp2 & Hcnt2).
  { assert (outs_of s2 !! i = outs_of s1 !! i) as Hi by (by rewrite Ho2). unfold outs_of in Hi. rewrite !list_lookup_fmap, Hp1 in Hi.
    destruct (ips s2 !! i) as [p2|]; [|done]. injection Hi as Hi _. exists p2. split; [done|]. by rewrite Hi. }
  unfold m_bind. set (m := match VpsimIp.out_module w with Some _ => _ | None => _ end).
  assert (∀ s3 r, m s2 = (r, s3) → ips s3 = ips s2 ∧ binds s3 = binds s2) as Hm.
  { unfold m. intros s3 r. destruct (out_module w); [|by intros [= <- <-]]. destruct (in_module v); [|by intros [= <- <-]].
    unfold on_manager. destruct (on_modules _ _). by intros [= <- <-]. }
  destruct (m s2) as [[[]|e] s3]; [|done]. destruct (Hm s3 (Ok tt) eq_refl) as [Hi3 Hb3]. intros [= <-]. simpl.
  split; [|split; [|split]].
  - exists k, k', (mInPortCounter q1). rewrite <-En, <-Ec, <-Em. split; [done|]. split; [done|]. by rewrite Hb3, Hb2, Hb1, Hwk, Hvk.
  - unfold statics_of. simpl. rewrite Hi3. fold (statics_of s2). by rewrite Hst2.
  - unfold all_named. simpl. by rewrite Hi3.
  - rewrite Hi3. eauto.
Qed.

(** ** A bus *)

(** The bus before its next connection: the counter of connections is the number of output
    ports. *)
Definition bus_ready (i : nat) (n : interconnect) (k : Z) (s : Dyn rate W) : Prop :=
  objs s !! i = Some (InterconnectObj n k) ∧ all_named (plat s)
  ∧ ∃ p, ips (plat s) !! i = Some p ∧ mClass p = DynamicInterconnect ∧ mMade p = true ∧ mOutPortCounter p = k.

(** A memory-mapped component with one socket. *)
Definition target_of (s : platform) (t : nat) (base size : Z) : Prop :=
  ∃ q, ips s !! t = Some q ∧ isContainer (mClass q) = false ∧ isMemoryMapped (mClass q) (mAttributes q) = Ok true
    ∧ getBaseAddress (mClass q) (mIpName q) (mAttributes q) = Ok base ∧ getIpSize (mClass q) (mIpName q) (mAttributes q) = Ok size
    ∧ ∀ c k, getNextInPort (mClass q) (mIpName q) (mMade q) c = Ok k → k = 0.

Lemma target_of_frame (s s' : platform) t base size : statics_of s' = statics_of s → target_of s t base size → target_of s' t base size.
Proof.
  intros H (q & Hq & Hrest). destruct (statics_lookup s s' t q H Hq) as (q' & Hq' & [= En Ec Ea Em]).
  exists q'. split; [done|]. by rewrite En, Ec, Ea, Em.
Qed.

Definition window (k base size : Z) : addr_space_type := mkWindow base (u64 (base + size - 1)) size k.

(** One connection: the window and the socket have the same number. *)
Lemma bus_connect i t base size n k (s s' : Dyn rate W) : bus_ready i n k s → target_of (plat s) t base size →
  0 ≤ k < 2 ^ 32 - 1 → DynamicInterconnect_connect scale hook i "" t "" s = (Ok tt, s') →
  bus_ready i (set_output_ports_t (output_ports_t n ++ [window k base size]) n) (k + 1) s'
  ∧ binds (plat s') = binds (plat s) ++ [((i, k), (t, 0))] ∧ statics_of (plat s') = statics_of (plat s)
  ∧ objs s' = <[i := InterconnectObj (set_output_ports_t (output_ports_t n ++ [window k base size]) n) (k + 1)]> (objs s).
Proof.
  intros (Ho & Hn & p & Hp & Hc & Hm & Hk) (q & Hq & Hcq & Hmap & Hbase & Hsize & Hsock) Hr.
  unfold DynamicInterconnect_connect. rewrite (m_bind_ok _ _ _ _ _ (ip_run t s q Hq)). cbv zeta.
  rewrite (m_bind_ok _ _ s true s) by (unfold m_lift; by rewrite Hmap).
  match goal with |- m_bind ?b _ _ = _ → _ => set (body := b) end.
  assert (body s = (Ok tt, mkDyn (plat s) (<[i := InterconnectObj (set_output_ports_t (output_ports_t n ++ [window k base size]) n) (k + 1)]> (objs s)))) as Hbody.
  { unfold body. rewrite (m_bind_ok _ _ s base s) by (unfold m_lift; by rewrite Hbase).
    rewrite (m_bind_ok _ _ s size s) by (unfold m_lift; by rewrite Hsize).
    unfold next_connection, get_obj, m_bind at 1 2. rewrite Ho. unfold put_obj, m_modify, m_bind, m_ret. simpl.
    rewrite u32_small by (unfold in_u32; lia). by apply on_bus_obj_run. }
  rewrite (m_bind_ok _ _ _ _ _ Hbody). unfold on_platform. cbn [plat objs].
  destruct (connect_ips scale hook i "" t "" (plat s)) as [r P] eqn:E. intros [= -> <-].
  destruct (connect_fresh i t (plat s) p q P Hp Hq ltac:(by rewrite Hc) Hcq Hn E) as ((ko & ki & c & Hko & Hki & Hb) & Hst & Hn' & p' & Hp' & Hcnt).
  rewrite Hc, Hm in Hko. simpl in Hko. injection Hko as <-. apply Hsock in Hki as ->. rewrite Hk in *.
  split; [|by split; [|split]]. split; [simpl; by rewrite lookup_insert_eq|]. split; [done|]. exists p'. cbn [plat].
  destruct (statics_lookup (plat s) P i p Hst Hp) as (p2 & Hp2 & [= E1 E2 E3 E4]). assert (p2 = p') as -> by congruence.
  split; [done|]. rewrite E2, E4, Hcnt. split; [done|]. split; [done|]. apply u32_small. unfold in_u32. lia.
Qed.

(** The components are connected one after the other. *)
Definition connect_all (i : nat) (ts : list nat) : M (Dyn rate W) unit :=
  m_forM ts (fun t => DynamicInterconnect_connect scale hook i "" t "").

Lemma bus_connect_all i (ts : list (nat * Z * Z)) : ∀ n k (s s' : Dyn rate W), bus_ready i n k s →
  Forall (fun d => target_of (plat s) d.1.1 d.1.2 d.2) ts → 0 ≤ k → k + Z.of_nat (length ts) < 2 ^ 32 →
  connect_all i ts.*1.*1 s = (Ok tt, s') →
  let ws := imap (fun j d => window (k + Z.of_nat j) d.1.2 d.2) ts in
  bus_ready i (set_output_ports_t (output_ports_t n ++ ws) n) (k + Z.of_nat (length ts)) s'
  ∧ binds (plat s') = binds (plat s) ++ imap (fun j d => ((i, k + Z.of_nat j), (d.1.1, 0))) ts
  ∧ (∀ j, j ≠ i → objs s' !! j = objs s !! j).
Proof.
  induction ts as [|[[t base] size] ts IH]; intros n k s s' Hb Ht Hk Hl; simpl.
  { intros [= <-]. rewrite !app_nil_r, Z.add_0_r. split; [by destruct n|done]. }
  apply Forall_cons in Ht as [Ht Hts]. unfold connect_all. cbn [fmap list_fmap fst m_forM]. unfold m_bind at 1.
  destruct (DynamicInterconnect_connect scale hook i "" t "" s) as [[[]|e] s1] eqn:E1; [|done]. intros E2.
  simpl in Hl. destruct (bus_connect i t base size n k s s1 Hb Ht ltac:(lia) E1) as (Hb1 & Hbind & Hst & Hobj).
  destruct (IH _ (k + 1) s1 s' Hb1) as (Hb2 & Hbind2 & Hobj2); [|lia|lia|done|].
  { apply (Forall_impl _ _ _ Hts). intros d. by apply target_of_frame. }
  assert (∀ {B} (f : nat → nat * Z * Z → B) g, (∀ j d, f j d = g (S j) d) → imap f ts = imap (g ∘ S) ts) as Hshift.
  { intros B f g Hfg. apply imap_ext. intros j d _. apply Hfg. }
  rewrite Z.add_0_r. split; [|split].
  - replace (k + Z.of_nat (S (length ts))) with (k + 1 + Z.of_nat (length ts)) by lia.
    cbn [output_ports_t set_output_ports_t] in Hb2.
    erewrite (Hshift _ _ (fun j d => window (k + Z.of_nat j) d.1.2 d.2)) in Hb2 by (intros j d; f_equal; lia).
    rewrite <-app_assoc in Hb2. by destruct n.
  - rewrite Hbind2, Hbind, <-app_assoc. cbn [app].
    by erewrite (Hshift _ _ (fun j d => ((i, k + Z.of_nat j), (d.1.1, 0)))) by (intros j d; do 2 f_equal; lia).
  - intros j Hj. rewrite Hobj2 by done. rewrite Hobj. by rewrite lookup_insert_ne.
Qed.

(** ** Building a bus with its memories *)

Context (sc_ns : Z → Z) (contents : nat → Z → Z).

(** A description: complete attributes that are numbers, for a component that is not made. *)
Definition bus_description (s : Dyn rate W) (i : nat) (nin nout latency : Z) : Prop :=
  ∃ p q, ips (plat s) !! i = Some p ∧ mClass p = DynamicInterconnect ∧ mMade p = false ∧ mOutPortCounter p = 0
    ∧ checkAttributes p = Ok q ∧ bus_numbers (mAttributes q) nin nout latency.
Definition memory_description (s : Dyn rate W) (t : nat) (base size : Z) : Prop :=
  ∃ p q cycle rd wr width lat dmi, ips (plat s) !! t = Some p ∧ mClass p = DynamicMemory ∧ mMade p = false
    ∧ checkAttributes p = Ok q ∧ memory_numbers (mAttributes q) base size cycle rd wr width lat dmi
    ∧ base + size < max64 ∧ u32 width ≠ 0 ∧ 0 < size.

(** The memory of a description: one byte longer than it says. *)
Definition memory_at (s : Dyn rate W) (t : nat) (base size : Z) (m : component memory) : Prop :=
  (∃ l, objs s !! t = Some (MemoryObj m l)) ∧ memory_ok m ∧ mem_base m = base ∧ mem_end m = base + size.

Lemma made_named i q o (s : Dyn rate W) p : ips (plat s) !! i = Some p → checkAttributes p = Ok q → all_named (plat s) →
  all_named (plat (made_state i q o s)).
Proof.
  intros Hp Hq Hn. apply checkAttributes_frame in Hq as [a ->]. unfold all_named in *. simpl. apply Forall_insert; [done|].
  destruct (named_lookup (plat s) i p Hn Hp). by split.
Qed.

Lemma make_memory t base size (s : Dyn rate W) : memory_description s t base size → all_named (plat s) →
  ∃ m s', DynamicMemory_make sc_ns contents t s = (Ok tt, s') ∧ memory_at s' t base size m ∧ target_of (plat s') t base size
    ∧ all_named (plat s') ∧ binds (plat s') = binds (plat s)
    ∧ (∀ k, k ≠ t → ips (plat s') !! k = ips (plat s) !! k ∧ objs s' !! k = objs s !! k).
Proof.
  intros (p & q & cycle & rd & wr & width & lat & dmi & Hp & Hc & Hm & Hq & Hnum & Hfit & Hw & Hpos) Hn.
  destruct (DynamicMemory_make_run sc_ns contents t s p q base size cycle rd wr width lat dmi Hp Hm Hq Hnum Hfit) as [l E].
  eexists _, _. split; [exact E|]. split_and!.
  - destruct Hnum as (Hbase & Hsize & _).
    pose proof (getAttrAsUInt64_range _ _ _ Hbase) as [Hb0 Hb1]. pose proof (getAttrAsUInt64_range _ _ _ Hsize) as [Hs0 Hs1].
    split; [exists l; simpl; by rewrite lookup_insert_eq|]. split; [|done]. unfold memory_ok, max64 in *. simpl. split_and!; try lia.
    intros _. unfold u32, wrap in *. pose proof (Z.mod_pos_bound width (2 ^ 32)). lia.
  - exists (set_mMade true q). split; [by apply (made_ip_lookup t p)|]. apply checkAttributes_frame in Hq as [a ->].
    simpl. rewrite Hc. destruct Hnum as (Hbase & Hsize & _). split_and!; try done. by intros c k [= <-].
  - by apply (made_named t q _ s p).
  - done.
  - intros k Hk. simpl. by rewrite list_lookup_insert_ne, lookup_insert_ne.
Qed.

Lemma memory_description_frame (s s' : Dyn rate W) t base size : ips (plat s') !! t = ips (plat s) !! t →
  memory_description s t base size → memory_description s' t base size.
Proof. intros H (p & q & ?). exists p, q. by rewrite H. Qed.

Lemma target_of_ext (s s' : platform) t base size : ips s' !! t = ips s !! t → target_of s t base size → target_of s' t base size.
Proof. intros H (q & ?). exists q. by rewrite H. Qed.

Lemma make_memories (ts : list (nat * Z * Z)) : ∀ s : Dyn rate W, NoDup ts.*1.*1 →
  Forall (fun d => memory_description s d.1.1 d.1.2 d.2) ts → all_named (plat s) →
  ∃ ms s', m_forM ts.*1.*1 (DynamicMemory_make sc_ns contents) s = (Ok tt, s')
    ∧ Forall2 (fun d m => memory_at s' d.1.1 d.1.2 d.2 m) ts ms ∧ Forall (fun d => target_of (plat s') d.1.1 d.1.2 d.2) ts
    ∧ all_named (plat s') ∧ binds (plat s') = binds (plat s)
    ∧ (∀ k, k ∉ ts.*1.*1 → ips (plat s') !! k = ips (plat s) !! k ∧ objs s' !! k = objs s !! k).
Proof.
  induction ts as [|[[t base] size] ts IH]; intros s Hnd Hd Hn; [exists [], s; by split_and!|].
  cbn [fmap list_fmap fst] in *. apply NoDup_cons in Hnd as [Ht Hnd]. apply Forall_cons in Hd as [Hd Hds]. simpl in Hd.
  destruct (make_memory t base size s Hd Hn) as (m & s1 & E & Hm & Htgt & Hn1 & Hb1 & Hframe).
  destruct (IH s1 Hnd) as (ms & s2 & E2 & Hms & Htgts & Hn2 & Hb2 & Hframe2); [|done|].
  { apply Forall_forall. intros d Hin. rewrite Forall_forall in Hds. apply (memory_description_frame s); [|by apply Hds].
    apply Hframe. intros Heq. apply Ht. rewrite <-Heq. by apply (list_elem_of_fmap_2 fst), list_elem_of_fmap_2. }
  exists (m :: ms), s2. split; [cbn [m_forM]; by rewrite (m_bind_ok _ _ _ _ _ E)|]. destruct (Hframe2 t Ht) as [Hi Ho].
  split_and!.
  - constructor; [|done]. destruct Hm as (Hl & Hrest). split; [|done]. simpl in *. by rewrite Ho.
  - constructor; [|done]. by apply (target_of_ext (plat s1)).
  - done.
  - by rewrite Hb2.
  - intros k Hk. apply not_elem_of_cons in Hk as [Hkt Hk]. destruct (Hframe2 k Hk) as [-> ->]. by apply Hframe.
Qed.

(** [make] of the bus and of the memories, then their connections. *)
Definition assemble (i : nat) (ts : list nat) : M (Dyn rate W) unit :=
  DynamicInterconnect_make sc_ns i ;;;
  m_forM ts (DynamicMemory_make sc_ns contents) ;;;
  connect_all i ts.

(** The descriptions of the memories do not overlap. *)
Definition disjoint_descriptions (ts : list (nat * Z * Z)) : Prop :=
  ∀ j k d d' x, ts !! j = Some d → ts !! k = Some d' → d.1.2 ≤ x < d.1.2 + d.2 → d'.1.2 ≤ x < d'.1.2 + d'.2 → j = k.

Lemma window_range k base size : 0 ≤ base → 0 < size → base + size < max64 → window k base size = mkWindow base (base + size - 1) size k.
Proof. intros Hb Hs Hf. unfold window, max64 in *. by rewrite u64_small by (unfold in_u64; lia). Qed.

(** The windows of the connections and the memories make a wired bus. *)
Lemma assembled_wired (ts : list (nat * Z * Z)) ms nin nout latency (s : Dyn rate W) :
  Forall2 (fun d m => memory_at s d.1.1 d.1.2 d.2 m) ts ms → Forall (fun d => 0 < d.2 ∧ d.1.2 + d.2 < max64) ts →
  disjoint_descriptions ts → u32 nout = Z.of_nat (length ts) → 1 < u32 nout < 2 ^ 31 →
  wired (set_output_ports_t (imap (fun j d => window (Z.of_nat j) d.1.2 d.2) ts) (described_bus sc_ns nin nout latency)) ms.
Proof.
  intros Hms Hpos Hdis Hn Hr. pose proof (Forall2_length _ _ _ Hms) as Hlen.
  assert (∀ j d, ts !! j = Some d → ∃ m, ms !! j = Some m ∧ memory_at s d.1.1 d.1.2 d.2 m ∧ 0 < d.2 ∧ d.1.2 + d.2 < max64 ∧ 0 ≤ d.1.2) as Hat.
  { intros j d Hd. destruct (Forall2_lookup_l _ _ _ _ _ Hms Hd) as (m & Hm & Hma). exists m. rewrite Forall_lookup in Hpos.
    destruct (Hpos j d Hd). pose proof Hma as (_ & ((Hb0 & _) & _) & Hbase & _). unfold mem_base in Hbase. by split_and!; [..|lia]. }
  split; simpl.
  - split; lia.
  - by rewrite length_imap.
  - intros j c w Hc Hw. rewrite list_lookup_imap in Hw. destruct (ts !! j) as [d|] eqn:Ed; [|done]. injection Hw as <-.
    destruct (Hat j d Ed) as (m & Hm & (_ & _ & Hbase & Hend) & Hp & Hf & H0). assert (c = m) as -> by congruence.
    rewrite window_range by done. unfold window_of. simpl. split_and!; [done|done|lia|lia].
  - rewrite length_replicate. lia.
  - rewrite length_replicate. lia.
  - done.
  - intros j c Hc. destruct (Forall2_lookup_r _ _ _ _ _ Hms Hc) as (d & _ & Hma). by destruct Hma as (_ & ? & _).
  - intros j k w w' x Hw Hw' Hx Hx'. rewrite list_lookup_imap in Hw, Hw'.
    destruct (ts !! j) as [d|] eqn:Ed; [|done]. destruct (ts !! k) as [d'|] eqn:Ed'; [|done]. injection Hw as <-. injection Hw' as <-.
    destruct (Hat j d Ed) as (_ & _ & _ & Hp & Hf & H0). destruct (Hat k d' Ed') as (_ & _ & _ & Hp' & Hf' & H0').
    rewrite window_range in Hx by done. rewrite window_range in Hx' by done. unfold window_has in *. simpl in *.
    apply (Hdis j k d d' x); [done|done|lia|lia].
Qed.

(** C5: a platform is the memory it describes.  Take a bus without a mesh and memories whose
    attributes are complete and are numbers, with as many outputs as memories, at least two, and
    described ranges that do not overlap.  When making and connecting them returns, the k-th
    output socket of the bus is bound to the k-th memory and its window is the described range of
    that memory; and any sequence of reads and writes within the described ranges runs through
    the bus without error and reads what a single flat memory would hold. *)
Theorem assembled_platform_is_flat i (ts : list (nat * Z * Z)) nin nout latency (s s' : Dyn rate W) (l : list bus_op) :
  bus_description s i nin nout latency → Forall (fun d => memory_description s d.1.1 d.1.2 d.2) ts →
  all_named (plat s) → i ∉ ts.*1.*1 → NoDup ts.*1.*1 → disjoint_descriptions ts →
  u32 nout = Z.of_nat (length ts) → 1 < u32 nout < 2 ^ 31 → assemble i ts.*1.*1 s = (Ok tt, s') →
  let ws := imap (fun j d => mkWindow d.1.2 (d.1.2 + d.2 - 1) d.2 (Z.of_nat j)) ts in
  binds (plat s') = binds (plat s) ++ imap (fun j d => ((i, Z.of_nat j), (d.1.1, 0))) ts
  ∧ ∃ n k ms, objs s' !! i = Some (InterconnectObj n k) ∧ output_ports_t n = ws
    ∧ Forall2 (fun d m => ∃ lat, objs s' !! d.1.1 = Some (MemoryObj m lat)) ts ms
    ∧ (Forall (op_mapped ws) l → ∃ n' ms', run_bus_ops l (n, ms) = (Ok (flat_ops l (bus_at ws ms)).1, (n', ms'))).
Proof.
  intros (p & q & Hp & Hc & Hm & Hcnt & Hq & Hnum) Hd Hn Hi Hnd Hdis Hout Hr Hrun ws. unfold assemble in Hrun.
  rewrite (m_bind_ok _ _ _ _ _ (DynamicInterconnect_make_run sc_ns i s p q nin nout latency Hp Hm Hq Hnum)) in Hrun.
  set (s1 := made_state i q _ s) in Hrun. pose proof (made_named i q (InterconnectObj (described_bus sc_ns nin nout latency) 0) s p Hp Hq Hn) as Hn1.
  assert (∀ d, d ∈ ts → d.1.1 ≠ i) as Hne.
  { intros d Hin Heq. apply Hi. rewrite <-Heq. by apply (list_elem_of_fmap_2 fst), list_elem_of_fmap_2. }
  destruct (make_memories ts s1 Hnd) as (ms & s2 & E2 & Hms & Htgts & Hn2 & Hb2 & Hframe); [|done|].
  { apply Forall_forall. intros d Hin. rewrite Forall_forall in Hd. apply (memory_description_frame s); [|by apply Hd].
    simpl. by rewrite list_lookup_insert_ne by (by apply not_eq_sym, Hne). }
  rewrite (m_bind_ok _ _ _ _ _ E2) in Hrun. destruct (Hframe i Hi) as [Hii Hoi].
  assert (bus_ready i (described_bus sc_ns nin nout latency) 0 s2) as Hready.
  { split; [rewrite Hoi; simpl; by rewrite lookup_insert_eq|]. split; [done|]. exists (set_mMade true q).
    rewrite Hii. split; [by apply (made_ip_lookup i p)|]. apply checkAttributes_frame in Hq as [a ->]. done. }
  destruct (bus_connect_all i ts _ 0 s2 s' Hready Htgts ltac:(lia) ltac:(unfold u32, wrap in *; lia) Hrun) as ((Ho & _) & Hbind & Hframe').
  assert (Forall (fun d => 0 < d.2 ∧ d.1.2 + d.2 < max64) ts) as Hpos.
  { apply (Forall_impl _ _ _ Hd). by intros d (? & ? & ? & ? & ? & ? & ? & ? & _ & _ & _ & _ & _ & ? & _ & ?). }
  pose proof (assembled_wired ts ms nin nout latency s2 Hms Hpos Hdis Hout Hr) as Hwired.
  assert (imap (fun j d => window (0 + Z.of_nat j) d.1.2 d.2) ts = ws) as Hws.
  { apply imap_ext. intros j d Hj. rewrite Forall_lookup in Hpos. destruct (Hpos j d Hj). rewrite Z.add_0_l.
    destruct (Forall2_lookup_l _ _ _ _ _ Hms Hj) as (m & _ & (_ & ((Hb0 & _) & _) & Hbase & _)). unfold mem_base in Hbase.
    by rewrite window_range by lia. }
  split; [by rewrite Hbind, Hb2|]. eexists _, _, ms. split; [exact Ho|]. split; [exact Hws|]. split.
  { apply Forall2_same_length_lookup. split; [by eapply Forall2_length|]. intros j d m Hj Hmj.
    destruct (Forall2_lookup_lr _ _ _ _ _ _ Hms Hj Hmj) as ((lat & Hl) & _). exists lat. rewrite Hframe'; [done|].
    apply Hne. by apply list_elem_of_lookup_2 with j. }
  intros Hl. rewrite app_nil_l in *.
  assert (imap (fun j d => window (Z.of_nat j) d.1.2 d.2) ts = ws) as Hws' by exact Hws. rewrite Hws' in Hwired. cbn [output_ports_t].
  rewrite Hws. destruct (bus_flat _ ms l Hwired Hl) as (n' & ms' & E & _). eauto.
Qed.
End connecting.

(** ** A platform with two memories *)

Definition memory_attributes (base size : Z) : list (string * string) :=
  [("domain", "0"); ("size", to_string size); ("base_address", to_string base); ("cycle_duration", "1"); ("write_cycles", "2");
   ("read_cycles", "3"); ("channel_width", "4"); ("load_elf", "0"); ("elf_file", ""); ("dmi_enable", "1")].
Definition bus_attributes (nout : Z) : list (string * string) :=
  [("domain", "0"); ("latency", "10"); ("n_in_ports", "1"); ("n_out_ports", to_string nout); ("is_mesh", "0"); ("mesh_x", "0");
   ("mesh_y", "0"); ("router_latency", "0")].
(** A component with its attributes set. *)
Definition described_ip (name : string) (c : ip_class) (l : list (string * string)) : Ip :=
  foldl (fun p kv => setAttribute kv.1 kv.2 p) (new_VpsimIp name c) l.
Definition checked_ip (p : Ip) : Ip := match checkAttributes p with Ok q => q | Err _ => p end.

Lemma checked_ip_ok p : is_ok (checkAttributes p) = true → checkAttributes p = Ok (checked_ip p).
Proof. unfold checked_ip. by destruct (checkAttributes p). Qed.

Definition bus_ip : Ip := described_ip "bus" DynamicInterconnect (bus_attributes 2).
Definition ram_ip : Ip := described_ip "ram" DynamicMemory (memory_attributes 0x1000 0x1000).
Definition rom_ip : Ip := described_ip "rom" DynamicMemory (memory_attributes 0x2000 0x800).

Definition two_memories : Dyn nat unit :=
  mkDyn (mkPlatform [bus_ip; ram_ip; rom_ip] (new_manager tt) [] registered_classes
    [("Interconnect", [("bus", 0%nat)]); ("Memory", [("ram", 1%nat); ("rom", 2%nat)])]) ∅.

Definition memory_bytes (o : object) : bytes := match o with MemoryObj m _ => m_bytes (c_dev m) | _ => mkBytes 0 (fun _ => 0) end.

Abbreviation assemble_nat := (assemble nat_scale no_hook (Z.mul 1000) (fun _ _ => 0)) (only parsing).

Lemma two_memories_ready : bus_description two_memories 0 1 2 10
  ∧ memory_description two_memories 1 0x1000 0x1000 ∧ memory_description two_memories 2 0x2000 0x800
  ∧ all_named (plat two_memories).
Proof.
  split_and!.
  - exists bus_ip, (checked_ip bus_ip). do 4 (split; [reflexivity|]). split; [apply checked_ip_ok|]; by vm_compute.
  - exists ram_ip, (checked_ip ram_ip), 1, 3, 2, 4, true, true. do 3 (split; [reflexivity|]).
    split; [apply checked_ip_ok; by vm_compute|]. split; [by vm_compute|done].
  - exists rom_ip, (checked_ip rom_ip), 1, 3, 2, 4, true, true. do 3 (split; [reflexivity|]).
    split; [apply checked_ip_ok; by vm_compute|]. split; [by vm_compute|done].
  - repeat constructor.
Qed.

Lemma two_memories_apart : (0%nat ∉ [1; 2]%nat) ∧ NoDup [1; 2]%nat
  ∧ disjoint_descriptions [(1%nat, 0x1000, 0x1000); (2%nat, 0x2000, 0x800)].
Proof.
  split_and!; [set_solver|repeat constructor; set_solver|].
  intros j k d d' x Hj Hk. destruct j as [|[|j]]; [| |discriminate Hj]; destruct k as [|[|k]]; try discriminate Hk;
    injection Hj as <-; injection Hk as <-; cbn [fst snd]; lia.
Qed.

(** The bus writes to both memories and reads back, across no boundary. *)
Lemma assembled_platform_is_flat_witness : ∃ s',
  assemble_nat 0 [1; 2]%nat two_memories = (Ok tt, s')
  ∧ binds (plat s') = [((0%nat, 0), (1%nat, 0)); ((0%nat, 1), (2%nat, 0))]
  ∧ ∃ n ms n' ms', run_bus_ops [BusWrite 0x1ffe [1; 2]; BusWrite 0x2000 [3]; BusRead 0x1ffd 3; BusRead 0x2000 2] (n, ms)
      = (Ok [Some [1; 2]; Some [3]; Some [0; 1; 2]; Some [3; 0]], (n', ms')).
Proof.
  destruct two_memories_ready as (Hb & H1 & H2 & Hn).
  assert ((assemble_nat 0 [1; 2]%nat two_memories).1 = Ok tt) as E1 by (vm_compute; reflexivity).
  destruct (assemble_nat 0 [1; 2]%nat two_memories) as [r s'] eqn:E. simpl in E1. subst r.
  destruct two_memories_apart as (Hni & Hnd & Hdis).
  destruct (assembled_platform_is_flat nat_scale no_hook (Z.mul 1000) (fun _ _ => 0) 0
    [(1%nat, 0x1000, 0x1000); (2%nat, 0x2000, 0x800)] 1 2 10 two_memories s'
    [BusWrite 0x1ffe [1; 2]; BusWrite 0x2000 [3]; BusRead 0x1ffd 3; BusRead 0x2000 2]
    Hb ltac:(repeat constructor; assumption) Hn Hni Hnd Hdis eq_refl (conj eq_refl eq_refl) E)
    as (Hbind & n & k & ms & Ho & _ & Hms & Hrun).
  exists s'. split; [reflexivity|]. split; [exact Hbind|]. exists n, ms. destruct Hrun as (n' & ms' & Hr).
  { repeat constructor; [exists 0%nat|exists 1%nat|exists 0%nat|exists 1%nat]; eexists; (split; [reflexivity|]; split_and!; by vm_compute). }
  exists n', ms'. rewrite Hr. do 2 f_equal.
  apply Forall2_cons_inv_l in Hms as (m1 & ms1 & (l1 & Hm1) & Hms & ->).
  apply Forall2_cons_inv_l in Hms as (m2 & ms2 & (l2 & Hm2) & Hms & ->). apply Forall2_nil_inv_l in Hms as ->.
  cbn [fst snd] in Hm1, Hm2.
  assert (∀ t, memory_bytes <$> objs s' !! t = memory_bytes <$> objs (assemble_nat 0 [1; 2]%nat two_memories).2 !! t) as Es by (by rewrite E).
  pose proof (Es 1%nat) as Es1. pose proof (Es 2%nat) as Es2. rewrite Hm1 in Es1. rewrite Hm2 in Es2. vm_compute in Es1, Es2.
  destruct m1 as [t1 []], m2 as [t2 []]. injection Es1 as ->. injection Es2 as ->. by vm_compute.
Defined.

(** The first memory is made at its address, with one byte more than its size. *)
Lemma DynamicMemory_make_spec_witness : ∃ m l s',
  DynamicMemory_make (Z.mul 1000) (fun _ _ => 0) 1%nat two_memories = (Ok tt, s') ∧ objs s' = <[1%nat := MemoryObj m l]> (objs two_memories)
  ∧ mem_base m = 0x1000 ∧ mem_end m = 0x2000 ∧ b_size (m_bytes (c_dev m)) = 0x1001.
Proof.
  destruct (DynamicMemory_make_spec (Z.mul 1000) (fun _ _ => 0) 1%nat two_memories ram_ip (checked_ip ram_ip) 0x1000 0x1000 1 3 2 4 true true
    eq_refl eq_refl ltac:(apply checked_ip_ok; by vm_compute) ltac:(by vm_compute) eq_refl ltac:(by vm_compute))
    as (m & l & s' & E & Ho & _ & Hb & He & Hsz & _).
  exists m, l, s'. split; [exact E|]. split; [exact Ho|]. split; [exact Hb|]. split; [exact He|exact Hsz].
Defined.
