(* ===== verification/DynamicCoherence.v ===== *)
(** * Caches of a platform ([components/include/components/DynamicComponents.hpp])

    [make] and [addDmiAddress] of a cache: its policies by name, the errors they raise, the
    object and its ports.  The file shows that a cache gets exactly the sockets its role needs,
    in the order in which its transactions use them. *)

From S2P Require Import Prelude Attributes AddrSpace ModuleParams ParamContainer ParameterSet ModuleTree Schedule SortedMap ParamManager VpsimIp.
From S2P Require Import Tlm CacheSet CacheBase CoherenceInterconnect LocalMemory TargetIf Interconnect Gic DynamicClasses DynamicMake DynamicBus.
From stdpp Require Import gmap strings pretty.
#[local] Open Scope Z_scope.

Section coherent.
Context {rate : Type} `{!ModuleParameter (ApproximateTraversalRate rate)}.
Context {W : Type} (sc_ns : Z → Z).

Abbreviation D := (M (Dyn rate W)) (only parsing).
Abbreviation number k := (attribute (getAttrAsUInt64 k)) (only parsing).
Abbreviation flag k := (attribute (attr_bool k)) (only parsing).
Abbreviation text k := (attribute (find_attr k)) (only parsing).

(** ** Cache *)

(** The policies, by their names; the messages for an unknown one ask for attributes that do
    not exist. *)
Definition repl_policy (a : attrs) : result CacheReplacementPolicy :=
  let* r := find_attr "repl_policy" a in
  if decide (r = "LRU") then Ok LRU else if decide (r = "FIFO") then Ok FIFO else if decide (r = "MRU") then Ok MRU
  else Err (Throw (r ++ " Unknown replacement policy")).
Definition writing_policy (a : attrs) : result CacheWritePolicy :=
  let* r := find_attr "writing_policy" a in
  if decide (r = "WBack") then Ok WBack else if decide (r = "WThrough") then Ok WThrough
  else let* r := find_attr "write_policy" a in Err (Throw (r ++ " Unknown writing policy")).
Definition allocation_policy (a : attrs) : result CacheAllocPolicy :=
  let* r := find_attr "allocation_policy" a in
  if decide (r = "WAllocate") then Ok WAllocate else if decide (r = "WAround") then Ok WAround
  else let* r := find_attr "alloc_policy" a in Err (Throw (r ++ " Unknown allocation policy")).

(** Level [l] has no neighbour on this side; any other name leaves the variable unset. *)
Definition inclusion_policy (key : string) (l : Z) (a : attrs) : result CacheInclusionPolicy :=
  let* level := getAttrAsUInt64 "level" a in
  if bool_decide (level = l) then Ok NINE else
  let* r := find_attr key a in
  if decide (r = "Inclusive") then Ok Inclusive else if decide (r = "Exclusive") then Ok Exclusive
  else if decide (r = "NINE") then Ok NINE else Err (UndefinedBehaviour "read of an indeterminate value").

(** The constructor of [Cache]: its geometry, then the number of its sockets. *)
Definition new_cache_obj (latency cacheSize lineSize assoc interleaved : Z) (p : params) (nin nout : Z) : result cache_obj :=
  let* cfg := new_config cacheSize lineSize assoc interleaved p in
  let* c := new_cache cfg in
  if (bool_decide (0 < nin) && bool_decide (nin < 4)) && (bool_decide (0 < nout) && bool_decide (nout < 3))
  then Ok (mkCacheObj cfg c latency nin nout false (fun _ => false)) else Err AssertionFailed.

Definition set_priv (v : bool) (c : cache_obj) : cache_obj :=
  mkCacheObj (co_cfg c) (co_cache c) (co_latency c) (co_nin c) (co_nout c) v (is_uncached_region c).
Definition setIsPriv (i : nat) (v : bool) : D unit :=
  o <- get_obj i ;;
  match o with
  | CacheObj c => put_obj i (CacheObj (set_priv v c))
  | _ => m_throw (UndefinedBehaviour "null pointer")
  end.

(** The ports of a cache, created in the order of its sockets. *)
Definition make_cache_ports (i : nat) : D unit :=
  on_platform (addInPort i "in_data" None) ;;;
  level <- number "level" i ;;
  l1i <- (if bool_decide (level = 2) then flag "l1i_simulate" i else m_ret false) ;;
  (if l1i : bool then on_platform (addInPort i "in_instruction" None) ;;; m_ret tt else m_ret tt) ;;;
  levels <- number "levels_number" i ;;
  (if bool_decide (level < levels) then on_platform (addInPort i "in_invalidate" None) ;;; m_ret tt else m_ret tt) ;;;
  on_platform (addOutPort i "out_data" None) ;;;
  home <- flag "is_home" i ;;
  (if bool_decide (1 < level) && negb home then on_platform (addOutPort i "out_invalidate" None) ;;; m_ret tt else m_ret tt).

(** A private cache of level 1 or 2 registers its counters for its processor; the registration,
    which only the co-simulation reads, is left out, the number of the processor is read. *)
Definition make_cache_private (i : nat) : D unit :=
  private <- flag "local" i ;;
  level <- number "level" i ;;
  (if (private : bool) && (bool_decide (level = 1) || bool_decide (level = 2)) then number "cpu" i else m_ret 0) ;;;
  setIsPriv i private.

(** [setDelayStatCapture] is left out: only the simulation controller reads it. *)
Definition DynamicCache_make (i : nat) : D unit :=
  p <- ip i ;;
  m_when (mMade p) (m_throw (Throw "make() already called for DynamicCache")) ;;;
  check_ip i ;;;
  repl <- attribute repl_policy i ;;
  writePol <- attribute writing_policy i ;;
  allocPol <- attribute allocation_policy i ;;
  incl_higher <- attribute (inclusion_policy "inclusion_higher" 1) i ;;
  incl_lower <- attribute (inclusion_policy "inclusion_lower" 3) i ;;
  latency <- number "latency" i ;;
  cacheSize <- number "size" i ;;
  lineSize <- number "line_size" i ;;
  assoc <- number "associativity" i ;;
  interleaved <- number "nb_interleaved_caches" i ;;
  id <- number "id" i ;;
  level <- number "level" i ;;
  nin <- attribute getnIn i ;;
  nout <- attribute getnOut i ;;
  home <- flag "is_home" i ;;
  coherent <- flag "is_coherent" i ;;
  c <- m_lift (new_cache_obj (sc_ns latency) (u32 cacheSize) (u32 lineSize) (u32 assoc) (u32 interleaved)
         (mkParams repl writePol allocPol false (u32 level) incl_higher incl_lower home coherent false (u32 id)) nin nout) ;;
  create i (CacheObj c) ;;;
  on_platform (upd_ip i (setId (to_int32 id))) ;;;
  make_cache_private i ;;;
  make_cache_ports i.

(** [addDmiAddress]: uncached memories are remembered; direct access is left to the keeper of
    the initiators. *)
Definition DynamicCache_addDmiAddress (d : dmi_address) (i : nat) : D unit :=
  p <- ip i ;;
  m_when (negb (mMade p)) (m_throw (Throw (mIpName p ++ " calling addDmiAddress() before make() !!!"))) ;;;
  o <- get_obj i ;;
  match o with
  | CacheObj c =>
      if d_cached d then m_ret tt
      else put_obj i (CacheObj (mkCacheObj (co_cfg c) (co_cache c) (co_latency c) (co_nin c) (co_nout c) (isPriv c)
             (fun a => is_uncached_region c a || (bool_decide (a >= d_base d) && bool_decide (a < u64 (d_base d + d_size d))))))
  | _ => m_throw (UndefinedBehaviour "null pointer")
  end.

(** ** Calls that returned *)

Lemma m_bind_inv {S A B} (m : M S A) (k : A → M S B) s b s' : m_bind m k s = (Ok b, s') →
  ∃ a s1, m s = (Ok a, s1) ∧ k a s1 = (Ok b, s').
Proof. unfold m_bind. destruct (m s) as [[a|e] s1]; [|done]. eauto. Qed.

Lemma attribute_inv {A} (read : attrs → result A) i (s : Dyn rate W) v s1 p : ips (plat s) !! i = Some p →
  attribute read i s = (Ok v, s1) → s1 = s ∧ read (mAttributes p) = Ok v.
Proof. intros Hp. rewrite (attribute_run read i s p Hp). by intros [= -> ->]. Qed.

Lemma lift_inv {S A} (r : result A) (s : S) v s1 : m_lift r s = (Ok v, s1) → s1 = s ∧ r = Ok v.
Proof. by intros [= -> ->]. Qed.

Lemma on_platform_inv {A} (m : M (@Platform rate W) A) (s : Dyn rate W) v s1 : on_platform m s = (Ok v, s1) →
  m (plat s) = (Ok v, plat s1) ∧ objs s1 = objs s.
Proof. unfold on_platform. destruct (m (plat s)) as [r P]. by intros [= -> <-]. Qed.

(** ** The ports of a cache *)

(** Ports under these aliases, in order, on the sockets from zero on. *)
Record ports_as (i : nat) (ins outs : list string) (p : Ip) : Prop := mkPortsAs {
  pa_in_counter : mInPortCounter p = Z.of_nat (length ins);
  pa_out_counter : mOutPortCounter p = Z.of_nat (length outs);
  pa_in k a : ins !! k = Some a → ∃ j, mInPorts p !! a = Some (mkInSock (i, Z.of_nat k) (Some j));
  pa_out k a : outs !! k = Some a → ∃ j, mOutPorts p !! a = Some (mkOutSock (i, Z.of_nat k) (Some j) (Z.of_nat k)) }.

Lemma addPort_alias p a maxi c n taken alias : a ≠ "" → addPort p a maxi c n taken = Ok alias → alias = a.
Proof.
  intros Ha. unfold addPort. rewrite (bool_decide_false (a = "")) by done. case_bool_decide; [done|]. cbn [andb].
  destruct (taken a); [done|]. by intros [= <-].
Qed.

(** A port is added to a component whose sockets are handed out in order. *)
Lemma addInPort_as i a (s : @Platform rate W) p r s' ins outs : ips s !! i = Some p → a ≠ "" → a ∉ ins → ports_as i ins outs p →
  Z.of_nat (length ins) + 1 < 2 ^ 32 → (∀ c k, getNextInPort (mClass p) (mIpName p) (mMade p) c = Ok k → k = c) →
  addInPort i a None s = (Ok r, s') → ∃ p', ips s' !! i = Some p' ∧ statics p' = statics p ∧ ports_as i (ins ++ [a]) outs p'.
Proof.
  intros Hp Ha Hfresh [Hic Hoc Hin Hout] Hlen Hsock E. unfold addInPort in E.
  apply m_bind_inv in E as (p0 & s0 & E0 & E). rewrite (get_ip_ok i s p Hp) in E0. injection E0 as <- <-.
  apply m_bind_inv in E as ([] & s0 & E0 & E). destruct (isContainer (mClass p)); [done|]. injection E0 as <-.
  apply m_bind_inv in E as (maxi & s0 & [-> _]%lift_inv & E). apply m_bind_inv in E as (alias & s0 & [-> Ea]%lift_inv & E).
  apply (addPort_alias _ _ _ _ _ _ _ Ha) in Ea as ->. apply m_bind_inv in E as (sock & s0 & [-> Es]%lift_inv & E).
  destruct (getNextInPort _ _ _ _) as [k|e] eqn:Ek; [|done]. apply Hsock in Ek as ->. injection Es as <-.
  apply m_bind_inv in E as (j & s1 & Ej & E). pose proof (getVpsimModule_ip i s) as Hmod. rewrite Ej in Hmod.
  destruct Hmod as [_ Hself]. destruct (Hself p Hp) as [md Hmd]. unfold m_bind, upd_ip, m_modify, m_ret in E. injection E as _ <-.
  simpl. rewrite list_lookup_alter, decide_True, Hmd by done. eexists. split; [reflexivity|]. split; [done|]. split; simpl.
  - rewrite Hic, length_app. simpl. rewrite u32_small by (unfold in_u32; lia). lia.
  - done.
  - intros k b. rewrite lookup_app, lookup_insert. destruct (ins !! k) as [b'|] eqn:Eb.
    + intros [= ->]. rewrite decide_False; [by apply Hin|]. intros ->. apply Hfresh. by apply list_elem_of_lookup_2 with k.
    + intros Hk. apply list_lookup_singleton_Some in Hk as [Hk ->]. apply lookup_ge_None in Eb.
      rewrite decide_True by done. exists j. rewrite Hic. do 4 f_equal. lia.
  - done.
Qed.

Lemma addOutPort_as i a (s : @Platform rate W) p r s' ins outs : ips s !! i = Some p → a ≠ "" → a ∉ outs → ports_as i ins outs p →
  Z.of_nat (length outs) + 1 < 2 ^ 32 → (∀ c k, getNextOutPort (mClass p) (mIpName p) (mMade p) c = Ok k → k = c) →
  addOutPort i a None s = (Ok r, s') → ∃ p', ips s' !! i = Some p' ∧ statics p' = statics p ∧ ports_as i ins (outs ++ [a]) p'.
Proof.
  intros Hp Ha Hfresh [Hic Hoc Hin Hout] Hlen Hsock E. unfold addOutPort in E.
  apply m_bind_inv in E as (p0 & s0 & E0 & E). rewrite (get_ip_ok i s p Hp) in E0. injection E0 as <- <-.
  apply m_bind_inv in E as ([] & s0 & E0 & E). destruct (isContainer (mClass p)); [done|]. injection E0 as <-.
  apply m_bind_inv in E as (maxi & s0 & [-> _]%lift_inv & E). apply m_bind_inv in E as (alias & s0 & [-> Ea]%lift_inv & E).
  apply (addPort_alias _ _ _ _ _ _ _ Ha) in Ea as ->. apply m_bind_inv in E as (sock & s0 & [-> Es]%lift_inv & E).
  destruct (getNextOutPort _ _ _ _) as [k|e] eqn:Ek; [|done]. apply Hsock in Ek as ->. injection Es as <-.
  apply m_bind_inv in E as (j & s1 & Ej & E). pose proof (getVpsimModule_ip i s) as Hmod. rewrite Ej in Hmod.
  destruct Hmod as [_ Hself]. destruct (Hself p Hp) as [md Hmd]. unfold m_bind, upd_ip, m_modify, m_ret in E. injection E as _ <-.
  simpl. rewrite list_lookup_alter, decide_True, Hmd by done. eexists. split; [reflexivity|]. split; [done|]. split; simpl.
  - done.
  - rewrite Hoc, length_app. simpl. rewrite u32_small by (unfold in_u32; lia). lia.
  - done.
  - intros k b. rewrite lookup_app, lookup_insert. destruct (outs !! k) as [b'|] eqn:Eb.
    + intros [= ->]. rewrite decide_False; [by apply Hout|]. intros ->. apply Hfresh. by apply list_elem_of_lookup_2 with k.
    + intros Hk. apply list_lookup_singleton_Some in Hk as [Hk ->]. apply lookup_ge_None in Eb.
      rewrite decide_True by done. exists j. rewrite Hoc. f_equal. f_equal; [f_equal|]; lia.
Qed.

Lemma check_ip_inv i (s s1 : Dyn rate W) p u : ips (plat s) !! i = Some p → check_ip i s = (Ok u, s1) →
  ∃ q, checkAttributes p = Ok q ∧ ips (plat s1) !! i = Some q ∧ objs s1 = objs s.
Proof.
  intros Hp E. unfold check_ip in E. rewrite (m_bind_ok _ _ _ _ _ (ip_run i s p Hp)) in E.
  apply m_bind_inv in E as (q & s0 & [-> Eq]%lift_inv & E). exists q. split; [done|].
  unfold on_platform in E. cbn in E. injection E as _ <-. simpl.
  split; [|done]. rewrite (alter_as_insert _ i _ p Hp). apply list_lookup_insert_eq. by eapply lookup_lt_Some.
Qed.

(** The state of a component that is being made: its attributes, its ports and its object. *)
Definition making_cache (i : nat) (a : attrs) (ins outs : list string) (c : cache_obj) (s : Dyn rate W) : Prop :=
  objs s !! i = Some (CacheObj c)
  ∧ ∃ p, ips (plat s) !! i = Some p ∧ mClass p = DynamicCache ∧ mMade p = true ∧ mAttributes p = a ∧ ports_as i ins outs p.

Lemma making_attribute {A} (read : attrs → result A) i a ins outs c (s s1 : Dyn rate W) v : making_cache i a ins outs c s →
  attribute read i s = (Ok v, s1) → s1 = s ∧ read a = Ok v.
Proof. intros (_ & p & Hp & _ & _ & <- & _). by apply attribute_inv. Qed.

Lemma making_in i a ins outs c alias (s s1 : Dyn rate W) r : making_cache i a ins outs c s → alias ≠ "" → alias ∉ ins →
  Z.of_nat (length ins) + 1 < 2 ^ 32 →
  on_platform (addInPort i alias None) s = (Ok r, s1) → making_cache i a (ins ++ [alias]) outs c s1.
Proof.
  intros (Ho & p & Hp & Hc & Hm & Ha & Hports) Hne Hf Hl [E Eo]%on_platform_inv.
  destruct (addInPort_as i alias (plat s) p r (plat s1) ins outs) as (p' & Hp' & [= E1 E2 E3 E4] & Hports'); try done.
  { intros n k. rewrite Hc, Hm. by intros [= <-]. }
  split; [by rewrite Eo|]. exists p'. by rewrite E2, E3, E4.
Qed.

Lemma making_out i a ins outs c alias (s s1 : Dyn rate W) r : making_cache i a ins outs c s → alias ≠ "" → alias ∉ outs →
  Z.of_nat (length outs) + 1 < 2 ^ 32 →
  on_platform (addOutPort i alias None) s = (Ok r, s1) → making_cache i a ins (outs ++ [alias]) c s1.
Proof.
  intros (Ho & p & Hp & Hc & Hm & Ha & Hports) Hne Hf Hl [E Eo]%on_platform_inv.
  destruct (addOutPort_as i alias (plat s) p r (plat s1) ins outs) as (p' & Hp' & [= E1 E2 E3 E4] & Hports'); try done.
  { intros n k. rewrite Hc, Hm. by intros [= <-]. }
  split; [by rewrite Eo|]. exists p'. by rewrite E2, E3, E4.
Qed.

(** The ports a cache needs: towards the level below and above, for instructions at level 2, and
    back towards the levels below for invalidations unless it is connected to the interconnect. *)
Definition cache_ins (level levels : Z) (l1i : bool) : list string :=
  ["in_data"] ++ (if bool_decide (level = 2) && l1i then ["in_instruction"] else [])
  ++ (if bool_decide (level < levels) then ["in_invalidate"] else []).
Definition cache_outs (level : Z) (home : bool) : list string :=
  ["out_data"] ++ (if bool_decide (1 < level) && negb home then ["out_invalidate"] else []).

Lemma attr_bool_number k a n : getAttrAsUInt64 k a = Ok n → attr_bool k a = Ok (negb (bool_decide (n = 0))).
Proof. intros H. unfold attr_bool. by rewrite H. Qed.

(** The numbers of sockets are the numbers of ports. *)
Lemma getnIn_ins a nin level levels : getnIn a = Ok nin → getAttrAsUInt64 "level" a = Ok level →
  getAttrAsUInt64 "levels_number" a = Ok levels →
  ∃ l1i, (level = 2 → attr_bool "l1i_simulate" a = Ok l1i) ∧ (level ≠ 2 → l1i = false)
    ∧ nin = Z.of_nat (length (cache_ins level levels l1i)).
Proof.
  unfold getnIn, cache_ins. intros H Hl Hls. rewrite Hl, Hls in H. cbn [result_bind] in H.
  destruct (bool_decide (level = 2)) eqn:E2.
  - apply bool_decide_eq_true in E2. destruct (getAttrAsUInt64 "l1i_simulate" a) as [n|] eqn:En; [|done]. injection H as <-.
    exists (negb (bool_decide (n = 0))). split; [intros _; by apply attr_bool_number|]. split; [done|].
    case_bool_decide; case_bool_decide; done.
  - apply bool_decide_eq_false in E2. injection H as <-. exists false. split; [done|]. split; [done|]. case_bool_decide; done.
Qed.

Lemma getnOut_outs a nout level home : getnOut a = Ok nout → getAttrAsUInt64 "level" a = Ok level → attr_bool "is_home" a = Ok home →
  nout = Z.of_nat (length (cache_outs level home)).
Proof.
  unfold getnOut, cache_outs, attr_bool. intros H Hl Hh. rewrite Hl in H. cbn [result_bind] in H. rewrite length_app.
  destruct (bool_decide (1 < level)); [|by injection H as <-]. destruct (getAttrAsUInt64 "is_home" a) as [n|]; [|done].
  cbn [result_bind] in *. injection Hh as <-. injection H as <-. by case_bool_decide.
Qed.

Lemma new_cache_obj_fields latency size line assoc inter pr nin nout c : new_cache_obj latency size line assoc inter pr nin nout = Ok c →
  Level (co_cfg c) = p_level pr ∧ IsHome (co_cfg c) = p_home pr ∧ co_nin c = nin ∧ co_nout c = nout.
Proof.
  unfold new_cache_obj, new_config. destruct (_ || _); [done|]. case_bool_decide; [|done].
  destruct (CacheBase.mask (log2 line)); [|done]. cbn [result_bind]. destruct (CacheBase.mask (log2 _)); [|done].
  cbn [result_bind]. destruct (CacheBase.mask (u64 _)); [|done]. cbn [result_bind]. destruct (new_cache _); [|done]. cbn [result_bind].
  destruct ((_ && _) && _); [|done]. by intros [= <-].
Qed.

Lemma making_priv i a ins outs c v (s s1 : Dyn rate W) : making_cache i a ins outs c s → setIsPriv i v s = (Ok tt, s1) →
  making_cache i a ins outs (set_priv v c) s1.
Proof.
  intros (Ho & Hrest) E. unfold setIsPriv in E. apply m_bind_inv in E as (o & s0 & E0 & E). unfold get_obj in E0. rewrite Ho in E0.
  injection E0 as <- <-. unfold put_obj, m_modify in E. injection E as <-. split; [|done]. simpl. by rewrite lookup_insert_eq.
Qed.

(** A port that is created under a condition. *)
Lemma making_in_if (b : bool) i a ins outs c alias (s s1 : Dyn rate W) : making_cache i a ins outs c s → alias ≠ "" → alias ∉ ins →
  Z.of_nat (length ins) + 1 < 2 ^ 32 →
  (if b then on_platform (addInPort i alias None) ;;; m_ret tt else m_ret tt) s = (Ok tt, s1) →
  making_cache i a (ins ++ if b then [alias] else []) outs c s1.
Proof.
  intros H Hne Hf Hl E. destruct b; [|injection E as <-; by rewrite app_nil_r].
  apply m_bind_inv in E as (r & s0 & E0 & E). injection E as <-. by apply (making_in _ _ _ _ _ _ s s0 r).
Qed.
Lemma making_out_if (b : bool) i a ins outs c alias (s s1 : Dyn rate W) : making_cache i a ins outs c s → alias ≠ "" → alias ∉ outs →
  Z.of_nat (length outs) + 1 < 2 ^ 32 →
  (if b then on_platform (addOutPort i alias None) ;;; m_ret tt else m_ret tt) s = (Ok tt, s1) →
  making_cache i a ins (outs ++ if b then [alias] else []) c s1.
Proof.
  intros H Hne Hf Hl E. destruct b; [|injection E as <-; by rewrite app_nil_r].
  apply m_bind_inv in E as (r & s0 & E0 & E). injection E as <-. by apply (making_out _ _ _ _ _ _ s s0 r).
Qed.

(** Creating the ports. *)
Lemma cache_ports_made i a c level home (s s' : Dyn rate W) : making_cache i a [] [] c s → getAttrAsUInt64 "level" a = Ok level →
  attr_bool "is_home" a = Ok home → make_cache_ports i s = (Ok tt, s') →
  ∃ levels l1i, getAttrAsUInt64 "levels_number" a = Ok levels ∧ (level = 2 → attr_bool "l1i_simulate" a = Ok l1i)
    ∧ making_cache i a (cache_ins level levels l1i) (cache_outs level home) c s'.
Proof.
  intros H4 Hlevel Hhome E. unfold make_cache_ports in E.
  apply m_bind_inv in E as (r & s5 & E0 & E). apply (making_in _ _ _ _ _ _ _ _ _ H4) in E0 as H5; [|done|set_solver|done]. clear E0.
  cbn [app] in H5. apply m_bind_inv in E as (level' & ? & E0 & E). apply (making_attribute _ i _ _ _ _ s5 _ _ H5) in E0 as [-> Hlevel'].
  rewrite Hlevel in Hlevel'. injection Hlevel' as <-. apply m_bind_inv in E as (l1i & s0 & E0 & E).
  assert (s0 = s5 ∧ (level = 2 → attr_bool "l1i_simulate" a = Ok l1i) ∧ bool_decide (level = 2) && l1i = l1i) as (-> & Hl1i & Hand).
  { destruct (bool_decide (level = 2)) eqn:E2.
    - by apply (making_attribute _ i _ _ _ _ s5 s0 _ H5) in E0 as [-> ?].
    - injection E0 as <- <-. apply bool_decide_eq_false in E2. done. }
  clear E0. apply m_bind_inv in E as ([] & s6 & E0 & E).
  apply (making_in_if _ _ _ _ _ _ _ _ _ H5) in E0 as H6; [|done|set_solver|done]. clear E0.
  apply m_bind_inv in E as (levels & ? & E0 & E). apply (making_attribute _ i _ _ _ _ s6 _ _ H6) in E0 as [-> Hlevels].
  apply m_bind_inv in E as ([] & s7 & E0 & E).
  apply (making_in_if _ _ _ _ _ _ _ _ _ H6) in E0 as H7; [|done|by destruct l1i; set_solver|by destruct l1i]. clear E0.
  apply m_bind_inv in E as (r' & s8 & E0 & E). apply (making_out _ _ _ _ _ _ _ _ _ H7) in E0 as H8; [|done|set_solver|done].
  apply m_bind_inv in E as (home' & ? & Eh & E). apply (making_attribute _ i _ _ _ _ s8 _ _ H8) in Eh as [-> Hhome'].
  rewrite Hhome in Hhome'. injection Hhome' as <-.
  apply (making_out_if _ _ _ _ _ _ _ _ _ H8) in E as H9; [|done|set_solver|done].
  exists levels, l1i. split; [done|]. split; [done|]. unfold cache_ins, cache_outs. by rewrite Hand, app_assoc.
Qed.

Lemma cache_private_made i a ins outs c (s s' : Dyn rate W) : making_cache i a ins outs c s → make_cache_private i s = (Ok tt, s') →
  ∃ v, making_cache i a ins outs (set_priv v c) s'.
Proof.
  intros H E. unfold make_cache_private in E.
  apply m_bind_inv in E as (v & ? & E0 & E). apply (making_attribute _ i _ _ _ _ s _ _ H) in E0 as [-> _].
  apply m_bind_inv in E as (level & ? & E0 & E). apply (making_attribute _ i _ _ _ _ s _ _ H) in E0 as [-> _].
  apply m_bind_inv in E as (u & s1 & E0 & E). exists v.
  assert (s1 = s) as ->; [|by apply (making_priv i a ins outs c v s)].
  destruct (_ && _); [|by injection E0]. by apply (making_attribute _ i _ _ _ _ s _ _ H) in E0 as [-> _].
Qed.

(** the sockets of a cache.  When making a cache returns, its attributes were complete; the
    object has the level and the role they give; it has exactly as many input and output sockets
    as ports were created, and the k-th port is on the k-th socket: data first, then, where they
    exist, instructions and invalidations, so that invalidations towards the levels below leave
    through the second output exactly for a cache above level 1 that is no home. *)
Theorem DynamicCache_ports i (s s' : Dyn rate W) p : ips (plat s) !! i = Some p → mClass p = DynamicCache → ports_as i [] [] p →
  DynamicCache_make i s = (Ok tt, s') →
  ∃ q p' c level levels l1i home, checkAttributes p = Ok q ∧ getAttrAsUInt64 "level" (mAttributes q) = Ok level
    ∧ getAttrAsUInt64 "levels_number" (mAttributes q) = Ok levels ∧ attr_bool "is_home" (mAttributes q) = Ok home
    ∧ (level = 2 → attr_bool "l1i_simulate" (mAttributes q) = Ok l1i)
    ∧ ips (plat s') !! i = Some p' ∧ ports_as i (cache_ins level levels l1i) (cache_outs level home) p'
    ∧ objs s' !! i = Some (CacheObj c) ∧ Level (co_cfg c) = u32 level ∧ IsHome (co_cfg c) = home
    ∧ co_nin c = Z.of_nat (length (cache_ins level levels l1i)) ∧ co_nout c = Z.of_nat (length (cache_outs level home)).
Proof.
  intros Hp Hc Hports E. unfold DynamicCache_make in E. rewrite (m_bind_ok _ _ _ _ _ (ip_run i s p Hp)) in E.
  apply m_bind_inv in E as ([] & s0 & E0 & E). destruct (mMade p) eqn:Hm; [done|]. injection E0 as <-.
  apply m_bind_inv in E as ([] & s1 & E0 & E). destruct (check_ip_inv i s s1 p tt Hp E0) as (q & Hq & Hp1 & Ho1). clear E0.
  do 11 (apply m_bind_inv in E as (? & ? & E0 & E); apply (attribute_inv _ i s1 _ _ q Hp1) in E0 as [-> _]).
  apply m_bind_inv in E as (level & ? & E0 & E). apply (attribute_inv _ i s1 _ _ q Hp1) in E0 as [-> Hlevel].
  apply m_bind_inv in E as (nin & ? & E0 & E). apply (attribute_inv _ i s1 _ _ q Hp1) in E0 as [-> Hnin].
  apply m_bind_inv in E as (nout & ? & E0 & E). apply (attribute_inv _ i s1 _ _ q Hp1) in E0 as [-> Hnout].
  apply m_bind_inv in E as (home & ? & E0 & E). apply (attribute_inv _ i s1 _ _ q Hp1) in E0 as [-> Hhome].
  apply m_bind_inv in E as (coherent & ? & E0 & E). apply (attribute_inv _ i s1 _ _ q Hp1) in E0 as [-> Hcoh].
  apply m_bind_inv in E as (c & s0 & [-> Hobj]%lift_inv & E). apply new_cache_obj_fields in Hobj as (Hlev & Hhm & Hni & Hno).
  simpl in Hlev, Hhm. apply m_bind_inv in E as ([] & s2 & E0 & E). rewrite (create_run i _ s1 q Hp1) in E0. injection E0 as <-.
  apply m_bind_inv in E as ([] & s3 & E0 & E). apply on_platform_inv in E0 as [E0 Eo].
  assert (making_cache i (mAttributes q) [] [] c s3) as H3.
  { split; [rewrite Eo; simpl; by rewrite lookup_insert_eq|]. unfold upd_ip, m_modify in E0. injection E0 as E0. rewrite <-E0. simpl.
    rewrite list_lookup_alter, decide_True, list_lookup_insert_eq by (done || by eapply lookup_lt_Some). eexists. split; [reflexivity|].
    apply checkAttributes_frame in Hq as [a ->]. unfold setId. cbn [mClass set_mMade set_mAttributes]. rewrite Hc. cbn.
    split_and!; try done. by destruct Hports. }
  clear E0. apply m_bind_inv in E as ([] & s4 & E0 & E). apply (cache_private_made _ _ _ _ _ _ _ H3) in E0 as [v H4].
  destruct (cache_ports_made i _ _ level home s4 s' H4 Hlevel Hhome E) as (levels & l1i & Hlevels & Hl1i & Hobj & p' & Hp' & _ & _ & _ & Hports').
  destruct (getnIn_ins _ nin level levels Hnin Hlevel Hlevels) as (l1i' & Hl1 & Hl2 & ->).
  assert (cache_ins level levels l1i' = cache_ins level levels l1i) as Hins.
  { unfold cache_ins. destruct (bool_decide (level = 2)) eqn:E2; [|done]. apply bool_decide_eq_true in E2.
    assert (l1i' = l1i) as -> by (specialize (Hl1 E2); specialize (Hl1i E2); congruence). done. }
  apply (getnOut_outs _ nout level home) in Hnout; [|done..]. rewrite Hins in Hni.
  exists q, p', (set_priv v c), level, levels, l1i, home. split_and!; try done; cbn [set_priv co_nin co_nout]; congruence.
Qed.
End coherent.

(** ** A cache of level 2 with an instruction cache below *)

Definition l2_ip : Ip := described_ip "l2" DynamicCache
  [("domain", "0"); ("latency", "5"); ("size", "4096"); ("line_size", "64"); ("associativity", "4"); ("repl_policy", "LRU");
   ("writing_policy", "WBack"); ("allocation_policy", "WAllocate"); ("cpu", "0"); ("local", "1"); ("id", "7"); ("level", "2");
   ("levels_number", "3"); ("is_home", "0"); ("l1i_simulate", "1")].
Definition l2_platform : Dyn nat unit :=
  mkDyn (mkPlatform [l2_ip] (new_manager tt) [] registered_classes [("Cache", [("l2", 0%nat)])]) ∅.

Lemma DynamicCache_ports_witness : ∃ s' p' c, DynamicCache_make (Z.mul 1000) 0 l2_platform = (Ok tt, s') ∧ ips (plat s') !! 0%nat = Some p'
  ∧ ports_as 0%nat ["in_data"; "in_instruction"; "in_invalidate"] ["out_data"; "out_invalidate"] p'
  ∧ objs s' !! 0%nat = Some (CacheObj c) ∧ co_nin c = 3 ∧ co_nout c = 2.
Proof.
  assert ((DynamicCache_make (Z.mul 1000) 0 l2_platform).1 = Ok tt) as E1 by (vm_compute; reflexivity).
  destruct (DynamicCache_make (Z.mul 1000) 0 l2_platform) as [r s'] eqn:E. simpl in E1. subst r.
  assert (ports_as 0%nat [] [] l2_ip) as Hports by (split; [reflexivity|reflexivity|intros k a; by rewrite lookup_nil..]).
  destruct (DynamicCache_ports (Z.mul 1000) 0%nat l2_platform s' l2_ip eq_refl eq_refl Hports E)
    as (q & p' & c & level & levels & l1i & home & Hq & Hlevel & Hlevels & Hhome & Hl1i & Hp' & Hports' & Hc & _ & _ & Hin & Hout).
  rewrite (checked_ip_ok l2_ip) in Hq by by vm_compute. assert (checked_ip l2_ip = q) as <- by congruence.
  assert (getAttrAsUInt64 "level" (mAttributes (checked_ip l2_ip)) = Ok 2) as E2 by by vm_compute.
  assert (getAttrAsUInt64 "levels_number" (mAttributes (checked_ip l2_ip)) = Ok 3) as E3 by by vm_compute.
  assert (attr_bool "is_home" (mAttributes (checked_ip l2_ip)) = Ok false) as E4 by by vm_compute.
  assert (attr_bool "l1i_simulate" (mAttributes (checked_ip l2_ip)) = Ok true) as E5 by by vm_compute.
  rewrite Hlevel in E2. injection E2 as ->. rewrite Hlevels in E3. injection E3 as ->. rewrite Hhome in E4. injection E4 as ->.
  rewrite (Hl1i eq_refl) in E5. injection E5 as ->.
  exists s', p', c. by split_and!.
Defined.
