(* ===== verification/DynamicMesh.v ===== *)
(** * Coherent interconnects of a platform ([components/include/components/DynamicComponents.hpp])

    [make] and [connect] of a coherent interconnect, and [finalize] of the controllers that give
    the positions of memories, caches, processors and devices on its mesh.  The sockets of an
    interconnect are numbered array after array.  The file shows that a memory connected under
    the j-th alias of the memory outputs is reached through its window exactly when it was the
    j-th to be connected, and what the memory controllers leave as the range of the memory. *)

From S2P Require Import Prelude Attributes AddrSpace ModuleParams ParamContainer ParameterSet ModuleTree Schedule SortedMap ParamManager VpsimIp.
From S2P Require Import Tlm CacheSet CacheBase CoherenceInterconnect LocalMemory TargetIf Interconnect Gic DynamicClasses DynamicMake DynamicBus DynamicCoherence.
From stdpp Require Import gmap strings pretty.
#[local] Open Scope Z_scope.

(** ** Setters of the interconnect *)

Definition cfg_set_latency (v : Z) (c : ic_config) : ic_config :=
  mkIcConfig (NUM_CACHE_OUT c) (NUM_HOME_OUT c) (NUM_MMAPPED c) (FlitSize c) (MWordLengthInByte c) (IcCoherent c)
    (MemoryInterleaveLength c) (SLCInterleaveLength c) v (CoherenceInterconnect.mIsMesh c) (mWithContention c)
    (CoherenceInterconnect.mRouterLatency c) (mLinkLatency c) (mContentionInterval c) (mBufferSize c)
    (mVirtualChannels c) (mNoc_stats_per_initiator_on c).
Definition cfg_set_is_mesh (v : bool) (c : ic_config) : ic_config :=
  mkIcConfig (NUM_CACHE_OUT c) (NUM_HOME_OUT c) (NUM_MMAPPED c) (FlitSize c) (MWordLengthInByte c) (IcCoherent c)
    (MemoryInterleaveLength c) (SLCInterleaveLength c) (CoherenceInterconnect.ACCESS_LATENCY c) v (mWithContention
    c) (CoherenceInterconnect.mRouterLatency c) (mLinkLatency c) (mContentionInterval c) (mBufferSize c)
    (mVirtualChannels c) (mNoc_stats_per_initiator_on c).
Definition cfg_set_contention (v : bool) (c : ic_config) : ic_config :=
  mkIcConfig (NUM_CACHE_OUT c) (NUM_HOME_OUT c) (NUM_MMAPPED c) (FlitSize c) (MWordLengthInByte c) (IcCoherent c)
    (MemoryInterleaveLength c) (SLCInterleaveLength c) (CoherenceInterconnect.ACCESS_LATENCY c)
    (CoherenceInterconnect.mIsMesh c) v (CoherenceInterconnect.mRouterLatency c) (mLinkLatency c)
    (mContentionInterval c) (mBufferSize c) (mVirtualChannels c) (mNoc_stats_per_initiator_on c).
Definition cfg_set_router_latency (v : Z) (c : ic_config) : ic_config :=
  mkIcConfig (NUM_CACHE_OUT c) (NUM_HOME_OUT c) (NUM_MMAPPED c) (FlitSize c) (MWordLengthInByte c) (IcCoherent c)
    (MemoryInterleaveLength c) (SLCInterleaveLength c) (CoherenceInterconnect.ACCESS_LATENCY c)
    (CoherenceInterconnect.mIsMesh c) (mWithContention c) v (mLinkLatency c) (mContentionInterval c) (mBufferSize c)
    (mVirtualChannels c) (mNoc_stats_per_initiator_on c).
Definition cfg_set_link_latency (v : Z) (c : ic_config) : ic_config :=
  mkIcConfig (NUM_CACHE_OUT c) (NUM_HOME_OUT c) (NUM_MMAPPED c) (FlitSize c) (MWordLengthInByte c) (IcCoherent c)
    (MemoryInterleaveLength c) (SLCInterleaveLength c) (CoherenceInterconnect.ACCESS_LATENCY c)
    (CoherenceInterconnect.mIsMesh c) (mWithContention c) (CoherenceInterconnect.mRouterLatency c) v
    (mContentionInterval c) (mBufferSize c) (mVirtualChannels c) (mNoc_stats_per_initiator_on c).
Definition cfg_set_contention_interval (v : Z) (c : ic_config) : ic_config :=
  mkIcConfig (NUM_CACHE_OUT c) (NUM_HOME_OUT c) (NUM_MMAPPED c) (FlitSize c) (MWordLengthInByte c) (IcCoherent c)
    (MemoryInterleaveLength c) (SLCInterleaveLength c) (CoherenceInterconnect.ACCESS_LATENCY c)
    (CoherenceInterconnect.mIsMesh c) (mWithContention c) (CoherenceInterconnect.mRouterLatency c) (mLinkLatency c)
    v (mBufferSize c) (mVirtualChannels c) (mNoc_stats_per_initiator_on c).
Definition cfg_set_buffer_size (v : Z) (c : ic_config) : ic_config :=
  mkIcConfig (NUM_CACHE_OUT c) (NUM_HOME_OUT c) (NUM_MMAPPED c) (FlitSize c) (MWordLengthInByte c) (IcCoherent c)
    (MemoryInterleaveLength c) (SLCInterleaveLength c) (CoherenceInterconnect.ACCESS_LATENCY c)
    (CoherenceInterconnect.mIsMesh c) (mWithContention c) (CoherenceInterconnect.mRouterLatency c) (mLinkLatency c)
    (mContentionInterval c) v (mVirtualChannels c) (mNoc_stats_per_initiator_on c).
Definition cfg_set_virtual_channels (v : Z) (c : ic_config) : ic_config :=
  mkIcConfig (NUM_CACHE_OUT c) (NUM_HOME_OUT c) (NUM_MMAPPED c) (FlitSize c) (MWordLengthInByte c) (IcCoherent c)
    (MemoryInterleaveLength c) (SLCInterleaveLength c) (CoherenceInterconnect.ACCESS_LATENCY c)
    (CoherenceInterconnect.mIsMesh c) (mWithContention c) (CoherenceInterconnect.mRouterLatency c) (mLinkLatency c)
    (mContentionInterval c) (mBufferSize c) v (mNoc_stats_per_initiator_on c).
Definition cfg_set_noc_stats (v : bool) (c : ic_config) : ic_config :=
  mkIcConfig (NUM_CACHE_OUT c) (NUM_HOME_OUT c) (NUM_MMAPPED c) (FlitSize c) (MWordLengthInByte c) (IcCoherent c)
    (MemoryInterleaveLength c) (SLCInterleaveLength c) (CoherenceInterconnect.ACCESS_LATENCY c)
    (CoherenceInterconnect.mIsMesh c) (mWithContention c) (CoherenceInterconnect.mRouterLatency c) (mLinkLatency c)
    (mContentionInterval c) (mBufferSize c) (mVirtualChannels c) v.

Section meshes.
Context {rate : Type} `{!ModuleParameter (ApproximateTraversalRate rate)}.
Context (scale : ApproximateDelay → rate → ApproximateDelay).
Context {W : Type} (hook : nat → list (VpsimModule rate) → M W unit).
Context (sc_ns : Z → Z) (sc_ns_text : string → result Z).

Abbreviation D := (M (Dyn rate W)) (only parsing).
Abbreviation number k := (attribute (getAttrAsUInt64 k)) (only parsing).
Abbreviation flag k := (attribute (attr_bool k)) (only parsing).
Abbreviation text k := (attribute (find_attr k)) (only parsing).

Definition on_cfg (i : nat) (f : ic_config → ic_config) : D unit :=
  o <- get_obj i ;;
  match o with
  | CoherenceObj cfg n c h m => put_obj i (CoherenceObj (f cfg) n c h m)
  | _ => m_throw (UndefinedBehaviour "null pointer")
  end.
Definition on_ic (i : nat) (f : ic_config → M ic unit) : D unit :=
  o <- get_obj i ;;
  match o with
  | CoherenceObj cfg n c h m => let '(r, n') := f cfg n in put_obj i (CoherenceObj cfg n' c h m) ;;; m_lift r
  | _ => m_throw (UndefinedBehaviour "null pointer")
  end.

(** [for (i = 0; i < n; i++)] over an array of [size] sockets. *)
Definition for_sockets (n size : Z) (f : Z → D unit) : D unit :=
  m_forM (seqZ 0 n) (fun k =>
    if bool_decide (k < size) then f k else m_throw (UndefinedBehaviour "index out of range")).
Definition in_port (i : nat) (name : string) (off : Z) (k : Z) : D unit :=
  on_platform (addInPort i (name ++ to_string k) (Some (i, off + k))) ;;; m_ret tt.
Definition make_out_port (i : nat) (name : string) (off : Z) (k : Z) : D unit :=
  on_platform (addOutPort i (name ++ to_string k) (Some (i, off + k))) ;;; m_ret tt.

(** The members that only a mesh reads are left at their first values otherwise. *)
Definition DynamicCoherenceInterconnect_make (i : nat) : D unit :=
  made_twice " make() already called !" i ;;;
  check_ip i ;;;
  cin <- number "n_cache_in" i ;;
  cout <- number "n_cache_out" i ;;
  hin <- number "n_home_in" i ;;
  hout <- number "n_home_out" i ;;
  mm <- number "n_mmapped" i ;;
  dev <- number "n_device" i ;;
  flit <- number "flitSize" i ;;
  word <- number "memory_word_length" i ;;
  coherent <- flag "is_coherent" i ;;
  mi <- number "memory_interleave_length" i ;;
  slc <- number "slc_interleave_length" i ;;
  let cfg := mkIcConfig (u32 cout) (u32 hout) (u32 mm) (u32 flit) (u32 word) coherent (u32 mi) (u32 slc) (sc_ns 0)
               false false 0 0 (sc_ns 0) 0 0 false in
  create i (CoherenceObj cfg (new_ic cfg) 0 0 0) ;;;
  mesh <- flag "is_mesh" i ;;
  (if mesh : bool then
    on_cfg i (cfg_set_is_mesh true) ;;;
    stats <- flag "noc_stats_per_initiator_on" i ;;
    on_cfg i (cfg_set_noc_stats stats) ;;;
    x <- number "mesh_x" i ;;
    y <- number "mesh_y" i ;;
    on_ic i (fun _ => m_modify (CoherenceInterconnect.set_mesh_coord (u32 x) (u32 y))) ;;;
    r <- text "router_latency" i ;;
    t <- m_lift (sc_ns_text r) ;;
    on_cfg i (cfg_set_router_latency t) ;;;
    contention <- flag "with_contention" i ;;
    if contention : bool then
      on_cfg i (cfg_set_contention true) ;;;
      r <- text "contention_interval" i ;;
      t <- m_lift (sc_ns_text r) ;;
      on_cfg i (cfg_set_contention_interval t) ;;;
      vc <- number "virtual_channels" i ;;
      m_when (bool_decide (u32 vc = 0)) (m_throw (Throw "The number of virtual channels should be >=1 .")) ;;;
      on_cfg i (cfg_set_virtual_channels (u32 vc)) ;;;
      bs <- number "buffer_size" i ;;
      m_when (bool_decide (u32 bs = 0)) (m_throw (Throw "Buffer depth should be >=1 flit(s) .")) ;;;
      on_cfg i (cfg_set_buffer_size (u32 bs)) ;;;
      r <- text "link_latency" i ;;
      t <- m_lift (sc_ns_text r) ;;
      on_cfg i (cfg_set_link_latency t)
    else on_cfg i (cfg_set_contention false)
  else
    on_cfg i (cfg_set_is_mesh false) ;;;
    l <- number "latency" i ;;
    on_cfg i (cfg_set_latency (sc_ns l))) ;;;
  for_sockets cin (u32 cin) (in_port i "cache_in_" 0) ;;;
  for_sockets cout (u32 cout) (fun k => make_out_port i "cache_out_" 0 k ;;;
    on_ic i (fun _ => set_cache_pos ("cache_out_" ++ to_string k) k)) ;;;
  for_sockets hin (u32 hin) (in_port i "home_in_" (u32 cin)) ;;;
  for_sockets hout (u32 hout) (make_out_port i "home_out_" (u32 cout)) ;;;
  for_sockets mm (u32 mm) (make_out_port i "mmapped_out_" (u32 cout + u32 hout)) ;;;
  for_sockets dev (u32 dev) (in_port i "device_" (u32 cin + u32 hin)).

(** A target is a home, a cache or a memory; each kind has its own counter of connections. *)
Definition DynamicCoherenceInterconnect_connect (i : nat) (outPortAlias : string) (other : nat) (inPortAlias : string) : D unit :=
  q <- ip other ;;
  let c := mClass q in
  mapped <- m_lift (isMemoryMapped c (mAttributes q)) ;;
  (if mapped && isIdMapped c then
    base <- m_lift (getBaseAddress c (mIpName q) (mAttributes q)) ;;
    size <- m_lift (getIpSize c (mIpName q) (mAttributes q)) ;;
    o <- get_obj i ;;
    match o with
    | CoherenceObj cfg n cc ch m =>
        put_obj i (CoherenceObj cfg n cc (u32 (ch + 1)) m) ;;; on_ic i (fun cfg => set_home_output cfg ch (u32 (mId q)) base size)
    | _ => m_throw (UndefinedBehaviour "null pointer")
    end
  else if isIdMapped c then
    o <- get_obj i ;;
    match o with
    | CoherenceObj cfg n cc ch m =>
        put_obj i (CoherenceObj cfg n (u32 (cc + 1)) ch m) ;;; on_ic i (fun _ => set_cache_id cc (u32 (mId q)) outPortAlias)
    | _ => m_throw (UndefinedBehaviour "null pointer")
    end
  else if mapped : bool then
    base <- m_lift (getBaseAddress c (mIpName q) (mAttributes q)) ;;
    size <- m_lift (getIpSize c (mIpName q) (mAttributes q)) ;;
    o <- get_obj i ;;
    match o with
    | CoherenceObj cfg n cc ch m =>
        put_obj i (CoherenceObj cfg n cc ch (u32 (m + 1))) ;;; on_ic i (fun cfg => set_mmapped_output cfg m base size)
    | _ => m_throw (UndefinedBehaviour "null pointer")
    end
  else m_throw (Throw "Component is not id-mapped nor home nor memory-mmaped")) ;;;
  on_platform (connect_ips scale hook i outPortAlias other inPortAlias).

(** ** Controllers *)

(** [VpsimIp::Find] and the cast: another type, or no component, is dereferenced as null. *)
Definition find_noc (i : nat) : D nat :=
  name <- text "noc" i ;;
  s <- m_get ;;
  m_lift (match Find name (plat s) with Some j => Ok j | None => Err (UndefinedBehaviour "null pointer") end).

Definition DynamicNoCDeviceController_finalize (i : nat) : D unit :=
  noc <- find_noc i ;;
  id <- number "id_dev" i ;; x <- number "x_id" i ;; y <- number "y_id" i ;;
  on_ic noc (fun cfg => register_device_ctrl cfg (u32 id) (u32 x) (u32 y)).

Definition DynamicNoCMemoryController_finalize (i : nat) : D unit :=
  noc <- find_noc i ;;
  on_ic noc (fun _ => m_modify set_first_memory_controller) ;;;
  base <- number "base_address" i ;; size <- number "size" i ;; x <- number "x_id" i ;; y <- number "y_id" i ;;
  on_ic noc (fun _ => CoherenceInterconnect.register_mem_ctrl base size (u32 x) (u32 y)) ;;;
  on_ic noc (fun _ => m_modify (fun n => if bool_decide (RamBaseAddr n > base) then set_RamBaseAddr base n else n)) ;;;
  on_ic noc (fun _ => m_modify (fun n =>
    if bool_decide (RamLastAddr n < u64 (base + size)) then set_RamLastAddr (u64 (base + size)) n else n)).

Definition DynamicCacheController_finalize (i : nat) : D unit :=
  noc <- find_noc i ;;
  base <- number "base_address" i ;; size <- number "size" i ;; x <- number "x_id" i ;; y <- number "y_id" i ;;
  on_ic noc (fun _ => register_home_ctrl base size (u32 x) (u32 y)).

Definition DynamicCacheIdController_finalize (i : nat) : D unit :=
  noc <- find_noc i ;;
  name <- text "cache" i ;;
  s <- m_get ;;
  cache <- m_lift (match Find name (plat s) with Some j => Ok j | None => Err (UndefinedBehaviour "null pointer") end) ;;
  c <- ip cache ;;
  m_when (negb (bool_decide (c_type (mClass c) = "DynamicCache"))) (m_throw (UndefinedBehaviour "null pointer")) ;;;
  x <- number "x_id" i ;; y <- number "y_id" i ;;
  on_ic noc (fun cfg => register_cpu_ctrl cfg (u32 (mId c)) (u32 x) (u32 y)).

Definition DynamicCpuController_finalize (i : nat) : D unit :=
  noc <- find_noc i ;;
  id <- number "id" i ;; x <- number "x_id" i ;; y <- number "y_id" i ;;
  on_ic noc (fun cfg => register_cpu_ctrl cfg (u32 id) (u32 x) (u32 y)).

(** Those of a bus. *)
Definition DynamicNoCHomeNode_finalize (i : nat) : D unit :=
  noc <- find_noc i ;;
  base <- number "base_address" i ;; size <- number "size" i ;; id <- number "noc_id" i ;;
  on_bus_obj noc (register_hn_input base size id).

Definition DynamicNoCSource_finalize (i : nat) : D unit :=
  noc <- find_noc i ;;
  src <- number "src_id" i ;; id <- number "noc_id" i ;;
  on_bus_obj noc (register_source src id).

(** ** Connections through ports that exist *)

(** The output port has its socket already; the other side gets a new port. *)
Lemma connect_through i alias w other (s : @Platform rate W) p q s' : ips s !! i = Some p → mOutPorts p !! alias = Some w →
  ips s !! other = Some q → isContainer (mClass q) = false → all_named s →
  connect_ips scale hook i alias other "" s = (Ok tt, s') →
  (∃ k c, getNextInPort (mClass q) (mIpName q) (mMade q) c = Ok k ∧ binds s' = binds s ++ [(out_sock w, (other, k))])
  ∧ statics_of s' = statics_of s ∧ outs_of s' = outs_of s ∧ all_named s'.
Proof.
  intros Hp Hw Hq Hcq Hn E. unfold connect_ips in E. apply m_bind_inv in E as (w0 & s1 & E0 & E).
  unfold getOutPort, m_bind at 1 in E0. rewrite (get_ip_ok i s p Hp), Hw in E0. injection E0 as <- <-.
  pose proof (statics_getInPort other "" s) as Hst. pose proof (binds_getInPort other "" s) as Hb.
  pose proof (outs_getInPort other "" s) as Ho.
  apply m_bind_inv in E as (v & s2 & E2 & E). rewrite E2 in Hst, Hb, Ho. simpl in Hst, Hb, Ho.
  destruct (getInPort_fresh other s q v s2 Hq Hcq (proj1 (named_lookup s other q Hn Hq)) Hn E2) as ((k & Hk & Hvk) & Hn2).
  apply m_bind_inv in E as ([] & s3 & E3 & E). assert (ips s3 = ips s2 ∧ binds s3 = binds s2) as [Hi3 Hb3].
  { destruct (out_module w); [|by injection E3 as <-]. destruct (in_module v); [|by injection E3 as <-].
    unfold on_manager in E3. destruct (on_modules _ _). by injection E3 as _ <-. }
  injection E as <-. unfold statics_of, outs_of, all_named in *. simpl. rewrite Hi3. split; [|by split; [|split]].
  exists k, (mInPortCounter q). split; [done|]. by rewrite Hb3, Hb, Hvk.
Qed.

(** ** The memories of a coherent interconnect *)

(** [off + a] is the socket behind the a-th alias. *)
Definition mm_alias (a : nat) : string := "mmapped_out_" ++ to_string (Z.of_nat a).

(** The interconnect after [m] connections of memories. *)
Definition ic_ready (i : nat) (off : Z) (len : nat) (m : nat) (n : ic) (s : Dyn rate W) : Prop :=
  (∃ cfg cc ch, objs s !! i = Some (CoherenceObj cfg n cc ch (Z.of_nat m))) ∧ all_named (plat s) ∧ MMappedCount n = Z.of_nat m
  ∧ ∃ p, ips (plat s) !! i = Some p
    ∧ ∀ a, (a < len)%nat → ∃ w, mOutPorts p !! mm_alias a = Some w ∧ out_sock w = (i, off + Z.of_nat a).

(** A memory: mapped, and not known by an identifier. *)
Definition memory_target (s : @Platform rate W) (t : nat) (base size : Z) : Prop :=
  target_of s t base size ∧ ∀ q, ips s !! t = Some q → isIdMapped (mClass q) = false.

Lemma memory_target_frame (s s' : @Platform rate W) t base size : statics_of s' = statics_of s → memory_target s t base size → memory_target s' t base size.
Proof.
  intros H [Ht Hi]. split; [by apply (target_of_frame s)|]. intros q' Hq'.
  destruct (statics_lookup s' s t q') as (q & Hq & [= _ E _ _]); [done..|]. rewrite <-E. by apply Hi.
Qed.

Definition mm_window (m : nat) (base size : Z) : addr_struct := mkAddr base (u64 (base + size - 1)) size (Z.of_nat m).

(** One connection: the window gets the number of the connection, the binding the alias. *)
Lemma ic_connect i off len m n a t base size (s s' : Dyn rate W) : ic_ready i off len m n s → (a < len)%nat →
  memory_target (plat s) t base size → Z.of_nat m + 1 < 2 ^ 32 →
  DynamicCoherenceInterconnect_connect i (mm_alias a) t "" s = (Ok tt, s') →
  ∃ n', ic_ready i off len (S m) n' s' ∧ (m < length (MMappedOutputs n))%nat
    ∧ MMappedOutputs n' = <[m := mm_window m base size]> (MMappedOutputs n)
    ∧ binds (plat s') = binds (plat s) ++ [((i, off + Z.of_nat a), (t, 0))] ∧ statics_of (plat s') = statics_of (plat s).
Proof.
  intros ((cfg & cc & ch & Ho) & Hn & Hcnt & p & Hp & Hal) Ha [(q & Hq & Hcq & Hmap & Hbase & Hsize & Hsock) Hid] Hlt E.
  unfold DynamicCoherenceInterconnect_connect in E. rewrite (m_bind_ok _ _ _ _ _ (ip_run t s q Hq)) in E. cbv zeta in E.
  rewrite (m_bind_ok _ _ s true s) in E by (unfold m_lift; by rewrite Hmap). rewrite (Hid q Hq) in E. cbn [andb] in E.
  apply m_bind_inv in E as ([] & s1 & E1 & E).
  rewrite (m_bind_ok _ _ s base s) in E1 by (unfold m_lift; by rewrite Hbase).
  rewrite (m_bind_ok _ _ s size s) in E1 by (unfold m_lift; by rewrite Hsize).
  unfold get_obj at 1, m_bind at 1 in E1. rewrite Ho in E1. apply m_bind_inv in E1 as ([] & sx & Ex & E1). injection Ex as <-.
  unfold on_ic, get_obj, m_bind at 1 in E1. cbn [objs] in E1. rewrite lookup_insert_eq in E1.
  destruct (set_mmapped_output cfg (Z.of_nat m) base size n) as [r n'] eqn:En.
  apply m_bind_inv in E1 as ([] & sx & Ex & E1). injection Ex as <-. apply lift_inv in E1 as [-> ->]. cbn [plat objs] in *.
  unfold set_mmapped_output in En. apply m_bind_inv in En as (n0 & n1 & En0 & En). injection En0 as <- <-.
  apply m_bind_inv in En as ([] & n1 & En0 & En). destruct (bool_decide _); [|done]. injection En0 as <-.
  apply m_bind_inv in En as (l & n1 & [-> Hl]%lift_inv & En). unfold m_bind, m_modify in En. injection En as <-.
  rewrite Hcnt in Hl. unfold vec_set in Hl. destruct (decide _) as [Hr|]; [|done]. injection Hl as <-. rewrite Nat2Z.id in *.
  unfold on_platform in E. cbn [plat objs] in E. destruct (connect_ips _ _ i _ t "" (plat s)) as [r P] eqn:Ec. injection E as -> <-.
  destruct (Hal a Ha) as (w & Hw & Hws).
  destruct (connect_through i _ w t (plat s) p q P Hp Hw Hq Hcq Hn Ec) as ((k & c & Hk & Hb) & Hst & Hout & Hn').
  apply Hsock in Hk as ->.
  exists (set_MMappedCount (MMappedCount n + 1) (set_MMappedOutputs (<[m := mm_window m base size]> (MMappedOutputs n)) n)).
  split; [|split; [|split; [reflexivity|split]]].
  - split; [exists cfg, cc, ch; cbn [objs]; rewrite insert_insert_eq, lookup_insert_eq; do 2 f_equal; rewrite u32_small by (unfold in_u32; lia); lia|].
    split; [done|]. split; [simpl; lia|]. cbn [plat].
    assert (outs_of P !! i = outs_of (plat s) !! i) as Hi by (by rewrite Hout). unfold outs_of in Hi. rewrite !list_lookup_fmap, Hp in Hi.
    destruct (ips P !! i) as [p'|]; [|done]. injection Hi as _ Hi. exists p'. split; [done|]. by rewrite Hi.
  - lia.
  - cbn [plat]. by rewrite Hb, Hws.
  - done.
Qed.

(** ** Making an interconnect *)

(** While the interconnect is being made: no memory is connected, and these ports exist. *)
Definition making_ic (i : nat) (O : gmap string WrappedOutSock) (s : Dyn rate W) : Prop :=
  (∃ cfg n, objs s !! i = Some (CoherenceObj cfg n 0 0 0) ∧ MMappedCount n = 0) ∧ all_named (plat s)
  ∧ ∃ p, ips (plat s) !! i = Some p ∧ O ⊆ mOutPorts p.

Definition keeps_ic {A} (i : nat) (m : D A) : Prop := ∀ O s v s', making_ic i O s → m s = (Ok v, s') → making_ic i O s'.

Lemma keeps_ic_use {A} i (m : D A) O s v s' : keeps_ic i m → making_ic i O s → m s = (Ok v, s') → making_ic i O s'.
Proof. intros Hm. apply Hm. Qed.
Lemma keeps_ic_bind {A B} i (m : D A) (k : A → D B) : keeps_ic i m → (∀ a, keeps_ic i (k a)) → keeps_ic i (m_bind m k).
Proof. intros Hm Hk O s v s' H E. apply m_bind_inv in E as (a & s1 & E1 & E). by eapply Hk, E; eapply Hm. Qed.
Lemma keeps_ic_pure {A} i (m : D A) : (∀ s v s', m s = (Ok v, s') → s' = s) → keeps_ic i m.
Proof. intros Hm O s v s' H E. by rewrite (Hm s v s' E). Qed.
Lemma keeps_ic_attribute {A} (read : attrs → result A) i j : keeps_ic i (attribute read j : D A).
Proof.
  apply keeps_ic_pure. intros s v s'. unfold attribute, ip, on_platform, get_ip, m_bind, m_lift. destruct s as [P O].
  cbn [plat objs]. destruct (ips P !! j); by intros [= _ <-].
Qed.
Lemma keeps_ic_lift {A} i (r : result A) : keeps_ic i (m_lift r : D A).
Proof. apply keeps_ic_pure. by intros s v s' [= _ <-]. Qed.
Lemma keeps_ic_when i b e : keeps_ic i (m_when b (m_throw e) : D unit).
Proof. apply keeps_ic_pure. intros s v s'. destruct b; [done|]. by intros [= _ <-]. Qed.
Lemma keeps_ic_cfg i f : keeps_ic i (on_cfg i f).
Proof.
  intros O s v s' ((cfg & n & Ho & Hc) & Hrest) E. unfold on_cfg, get_obj, m_bind at 1 in E. rewrite Ho in E. injection E as _ <-.
  split; [|done]. exists (f cfg), n. simpl. by rewrite lookup_insert_eq.
Qed.
Lemma keeps_ic_state i (f : ic_config → M ic unit) : (∀ cfg, preserves MMappedCount (f cfg)) → keeps_ic i (on_ic i f).
Proof.
  intros Hf O s v s' ((cfg & n & Ho & Hc) & Hrest) E. unfold on_ic, get_obj, m_bind at 1 in E. rewrite Ho in E.
  pose proof (Hf cfg n) as Hn. destruct (f cfg n) as [r n']. apply m_bind_inv in E as ([] & s1 & E1 & E). injection E1 as <-.
  apply lift_inv in E as [-> _]. split; [|done]. exists cfg, n'. simpl. rewrite lookup_insert_eq. simpl in Hn. by rewrite Hn.
Qed.

Lemma addInPort_outs i a k : preserves outs_of (addInPort i a k : M (@Platform rate W) string).
Proof.
  unfold addInPort, getVpsimModule. repeat first [ apply preserves_bind; [|intros ?] | apply preserves_if | apply preserves_when
    | by apply ips_upd | apply ips_manager | done | case_match ].
Qed.

(** Ports under aliases that are not empty. *)
Lemma addInPort_named i a k (s : @Platform rate W) r s' : all_named s → addInPort i a k s = (Ok r, s') → all_named s'.
Proof.
  intros Hn E. unfold addInPort in E. apply m_bind_inv in E as (p & s0 & E0 & E). unfold get_ip in E0.
  destruct (ips s !! i) as [p'|] eqn:Hp; [|done]. injection E0 as -> <-.
  apply m_bind_inv in E as ([] & s0 & E0 & E). destruct (isContainer (mClass p)); [done|]. injection E0 as <-.
  apply m_bind_inv in E as (maxi & s0 & [-> _]%lift_inv & E). apply m_bind_inv in E as (alias & s0 & [-> Ea]%lift_inv & E).
  apply addPort_named in Ea. apply m_bind_inv in E as (sock & s0 & [-> Es]%lift_inv & E).
  apply m_bind_inv in E as (j & s1 & Ej & E). pose proof (getVpsimModule_ip i s) as Hmod. rewrite Ej in Hmod.
  destruct Hmod as [Hother Hself]. destruct (Hself p Hp) as [md Hmd]. unfold m_bind, upd_ip, m_modify, m_ret in E. injection E as _ <-.
  apply (named_upd i _ s1); [|by apply (named_frame i s s1 p md)].
  intros p1 _ [Hi1 Ho1]. split; [|done]. simpl. by rewrite lookup_insert_ne.
Qed.

Lemma addOutPort_explicit i a k (s : @Platform rate W) p r s' : ips s !! i = Some p → a ≠ "" → all_named s →
  addOutPort i a (Some k) s = (Ok r, s') → all_named s' ∧ ∃ p' w, ips s' !! i = Some p' ∧ mOutPorts p !! a = None
    ∧ mOutPorts p' = <[a := w]> (mOutPorts p) ∧ out_sock w = k.
Proof.
  intros Hp Ha Hn E. unfold addOutPort in E.
  apply m_bind_inv in E as (p0 & s0 & E0 & E). rewrite (get_ip_ok i s p Hp) in E0. injection E0 as <- <-.
  apply m_bind_inv in E as ([] & s0 & E0 & E). destruct (isContainer (mClass p)); [done|]. injection E0 as <-.
  apply m_bind_inv in E as (maxi & s0 & [-> _]%lift_inv & E). apply m_bind_inv in E as (alias & s0 & [-> Ea]%lift_inv & E).
  pose proof (addPort_ok _ _ _ _ _ _ _ Ea) as [_ Ht]. apply bool_decide_eq_false, eq_None_not_Some in Ht.
  apply (addPort_alias _ _ _ _ _ _ _ Ha) in Ea as ->. apply m_bind_inv in E as (sock & s0 & [-> [= <-]]%lift_inv & E).
  apply m_bind_inv in E as (j & s1 & Ej & E). pose proof (getVpsimModule_ip i s) as Hmod. rewrite Ej in Hmod.
  destruct Hmod as [Hother Hself]. destruct (Hself p Hp) as [md Hmd]. unfold m_bind, upd_ip, m_modify, m_ret in E. injection E as _ <-.
  split.
  - apply (named_upd i _ s1); [|by apply (named_frame i s s1 p md)].
    intros p1 _ [Hi1 Ho1]. split; [done|]. simpl. by rewrite lookup_insert_ne.
  - simpl. rewrite list_lookup_alter, decide_True, Hmd by done. eexists _, _. split; [reflexivity|]. split; [done|]. by split.
Qed.

Lemma keeps_ic_in i name off k : keeps_ic i (in_port i name off k).
Proof.
  intros O s v s' (Hobj & Hn & p & Hp & HO) E. unfold in_port in E. apply m_bind_inv in E as (r & s1 & [E1 Eo]%on_platform_inv & E).
  injection E as _ <-. split; [by rewrite Eo|]. split; [by apply (addInPort_named _ _ _ _ _ _ Hn E1)|].
  pose proof (addInPort_outs i (name ++ to_string k)%string (Some (i, off + k)) (plat s)) as Ho. rewrite E1 in Ho. simpl in Ho.
  assert (outs_of (plat s1) !! i = outs_of (plat s) !! i) as Hi by (by rewrite Ho). unfold outs_of in Hi.
  rewrite !list_lookup_fmap, Hp in Hi. destruct (ips (plat s1) !! i) as [p'|]; [|done]. injection Hi as _ Hi. exists p'. by rewrite Hi.
Qed.

Lemma make_out_port_run i name off k O (s s' : Dyn rate W) v : name ≠ "" → making_ic i O s → make_out_port i name off k s = (Ok v, s') →
  making_ic i O s' ∧ ∃ w, out_sock w = (i, off + k) ∧ O !! (name ++ to_string k)%string = None ∧ making_ic i (<[(name ++ to_string k)%string := w]> O) s'.
Proof.
  intros Hname (Hobj & Hn & p & Hp & HO) E. unfold make_out_port in E. apply m_bind_inv in E as (r & s1 & [E1 Eo]%on_platform_inv & E).
  injection E as _ <-. assert ((name ++ to_string k)%string ≠ "") as Hne by (by destruct name).
  destruct (addOutPort_explicit i _ _ (plat s) p r (plat s1) Hp Hne Hn E1) as (Hn1 & p' & w & Hp' & Hfresh & Hout & Hw).
  split; [split; [by rewrite Eo|split; [done|exists p'; split; [done|]]]|].
  - rewrite Hout. by apply insert_subseteq_r; [eapply lookup_weaken_None|].
  - exists w. split; [done|]. split; [by eapply lookup_weaken_None|]. split; [by rewrite Eo|]. split; [done|]. exists p'. split; [done|]. rewrite Hout. by apply insert_mono.
Qed.

Lemma keeps_ic_out i name off k : name ≠ "" → keeps_ic i (make_out_port i name off k).
Proof. intros Hname O s v s' H E. by apply (make_out_port_run i name off k O s s' v). Qed.

Lemma keeps_ic_for i n size f : (∀ k, keeps_ic i (f k)) → keeps_ic i (for_sockets n size f).
Proof.
  intros Hf. unfold for_sockets. induction (seqZ 0 n) as [|k l IH]; [by apply keeps_ic_pure; intros s v s' [= _ <-]|].
  apply keeps_ic_bind; [|done]. case_bool_decide; [apply Hf|by apply keeps_ic_pure].
Qed.

Lemma out_ports_made i name off size l : name ≠ "" → ∀ O (s s' : Dyn rate W), making_ic i O s →
  m_forM l (fun k => if bool_decide (k < size) then make_out_port i name off k else m_throw (UndefinedBehaviour "index out of range")) s
    = (Ok tt, s') →
  ∃ O', O ⊆ O' ∧ making_ic i O' s' ∧ ∀ k, k ∈ l → ∃ w, O' !! (name ++ to_string k)%string = Some w ∧ out_sock w = (i, off + k).
Proof.
  intros Hname. induction l as [|k l IH]; intros O s s' H E.
  { injection E as <-. exists O. split; [done|]. split; [done|]. intros k Hk. by apply elem_of_nil in Hk. }
  apply m_bind_inv in E as ([] & s1 & E1 & E). destruct (bool_decide (k < size)); [|done].
  destruct (make_out_port_run i name off k O s s1 tt Hname H E1) as (_ & w & Hw & Hno & H1).
  destruct (IH _ s1 s' H1 E) as (O' & Hsub & H' & Hall). exists O'. split; [|split; [done|]].
  - etransitivity; [|exact Hsub]. by apply insert_subseteq.
  - intros j [->|Hj]%elem_of_cons; [|by apply Hall]. exists w. split; [|done]. eapply lookup_weaken; [|exact Hsub]. by rewrite lookup_insert_eq.
Qed.

(** After [make] the aliases of the memory outputs lead to the sockets behind them. *)
Lemma made_ic_ready i p (s s' : Dyn rate W) : ips (plat s) !! i = Some p → all_named (plat s) →
  DynamicCoherenceInterconnect_make i s = (Ok tt, s') →
  ∃ q cout hout mm n, checkAttributes p = Ok q ∧ getAttrAsUInt64 "n_cache_out" (mAttributes q) = Ok cout
    ∧ getAttrAsUInt64 "n_home_out" (mAttributes q) = Ok hout ∧ getAttrAsUInt64 "n_mmapped" (mAttributes q) = Ok mm
    ∧ ic_ready i (u32 cout + u32 hout) (Z.to_nat mm) 0 n s'.
Proof.
  intros Hp Hn E. unfold DynamicCoherenceInterconnect_make in E.
  apply m_bind_inv in E as ([] & s0 & E0 & E). unfold made_twice in E0. rewrite (m_bind_ok _ _ _ _ _ (ip_run i s p Hp)) in E0.
  destruct (mMade p); [done|]. injection E0 as <-.
  apply m_bind_inv in E as ([] & s1 & E0 & E). destruct (check_ip_inv i s s1 p tt Hp E0) as (q & Hq & Hp1 & Ho1).
  rewrite (check_ip_run i s p q Hp Hq) in E0. injection E0 as Es1.
  assert (all_named (plat s1)) as Hn1.
  { rewrite <-Es1. apply checkAttributes_frame in Hq as [a ->]. unfold all_named in *. simpl. apply Forall_insert; [done|].
    destruct (named_lookup (plat s) i p Hn Hp). by split. }
  clear Es1.
  apply m_bind_inv in E as (cin & ? & E0 & E). apply (attribute_inv _ i s1 _ _ q Hp1) in E0 as [-> _].
  apply m_bind_inv in E as (cout & ? & E0 & E). apply (attribute_inv _ i s1 _ _ q Hp1) in E0 as [-> Hcout].
  apply m_bind_inv in E as (hin & ? & E0 & E). apply (attribute_inv _ i s1 _ _ q Hp1) in E0 as [-> _].
  apply m_bind_inv in E as (hout & ? & E0 & E). apply (attribute_inv _ i s1 _ _ q Hp1) in E0 as [-> Hhout].
  apply m_bind_inv in E as (mm & ? & E0 & E). apply (attribute_inv _ i s1 _ _ q Hp1) in E0 as [-> Hmm].
  do 6 (apply m_bind_inv in E as (? & ? & E0 & E); apply (attribute_inv _ i s1 _ _ q Hp1) in E0 as [-> _]).
  cbv zeta in E. apply m_bind_inv in E as ([] & s2 & E0 & E). rewrite (create_run i _ s1 q Hp1) in E0. injection E0 as <-.
  match goal with |- _ => set (s2 := mkDyn _ _) in E end.
  assert (making_ic i ∅ s2) as H2.
  { split; [eexists _, _; unfold s2; simpl; by rewrite lookup_insert_eq|]. split.
    - unfold all_named in *. simpl. apply Forall_insert; [done|]. destruct (named_lookup (plat s1) i q Hn1 Hp1). by split.
    - eexists. split; [by apply (made_ip_lookup i q)|]. apply map_empty_subseteq. }
  clearbody s2. apply m_bind_inv in E as (mesh & s3 & E0 & E). eapply keeps_ic_attribute in E0 as H3; [|exact H2]. clear E0 H2.
  apply m_bind_inv in E as ([] & s4 & E0 & E).
  assert (making_ic i ∅ s4) as H4.
  { eapply keeps_ic_use; [|exact H3|exact E0]. destruct mesh.
    - repeat first [ apply keeps_ic_cfg | apply keeps_ic_attribute | apply keeps_ic_lift | apply keeps_ic_when
        | (apply keeps_ic_state; by intros ? ?) | apply keeps_ic_bind; [|intros ?] | case_match ].
    - repeat first [ apply keeps_ic_cfg | apply keeps_ic_attribute | apply keeps_ic_bind; [|intros ?] ]. }
  clear E0 H3. apply m_bind_inv in E as ([] & s5 & E0 & E). eapply keeps_ic_for in E0 as H5; [|apply keeps_ic_in|exact H4]. clear E0 H4.
  apply m_bind_inv in E as ([] & s6 & E0 & E). eapply keeps_ic_for in E0 as H6; [| |exact H5].
  2: { intros k. apply keeps_ic_bind; [by apply keeps_ic_out|]. intros _. apply keeps_ic_state. intros cfg n. unfold set_cache_pos, m_bind, m_get, m_lift.
       by destruct (vec_set _ _ _). }
  clear E0 H5. apply m_bind_inv in E as ([] & s7 & E0 & E). eapply keeps_ic_for in E0 as H7; [|apply keeps_ic_in|exact H6]. clear E0 H6.
  apply m_bind_inv in E as ([] & s8 & E0 & E). eapply keeps_ic_for in E0 as H8; [|intros k; by apply keeps_ic_out|exact H7]. clear E0 H7.
  apply m_bind_inv in E as ([] & s9 & E0 & E). apply (out_ports_made i "mmapped_out_" _ _ _ ltac:(done) _ _ _ H8) in E0 as (O' & _ & H9 & Hall).
  eapply keeps_ic_for in E as H10; [|apply keeps_ic_in|exact H9]. destruct H10 as ((cfg & n & Ho & Hc) & Hn' & p' & Hp' & HO).
  exists q, cout, hout, mm, n. split_and!; try done. split; [by exists cfg, 0, 0|]. split; [done|]. split; [done|]. exists p'. split; [done|].
  intros a Ha. destruct (Hall (Z.of_nat a)) as (w & Hw & Hs); [apply elem_of_seqZ; lia|]. exists w. split; [|done]. by eapply lookup_weaken.
Qed.

(** The memories of a list are connected, each under an alias. *)
Abbreviation mm_desc := (nat * nat * Z * Z)%type (only parsing).
Definition d_alias (d : mm_desc) : nat := d.1.1.1.
Definition d_target (d : mm_desc) : nat := d.1.1.2.
Definition connect_memories (i : nat) (ds : list mm_desc) : D unit :=
  m_forM ds (fun d => DynamicCoherenceInterconnect_connect i (mm_alias (d_alias d)) (d_target d) "").

Lemma ic_connect_all i off len (ds : list mm_desc) : ∀ m n (s s' : Dyn rate W), ic_ready i off len m n s →
  Forall (fun d => (d_alias d < len)%nat ∧ memory_target (plat s) (d_target d) d.1.2 d.2) ds →
  Z.of_nat m + Z.of_nat (length ds) < 2 ^ 32 → connect_memories i ds s = (Ok tt, s') →
  ∃ n', ic_ready i off len (m + length ds) n' s'
    ∧ (∀ k, (k < m)%nat → MMappedOutputs n' !! k = MMappedOutputs n !! k)
    ∧ (∀ j d, ds !! j = Some d → MMappedOutputs n' !! (m + j)%nat = Some (mm_window (m + j) d.1.2 d.2))
    ∧ binds (plat s') = binds (plat s) ++ ((fun d => ((i, off + Z.of_nat (d_alias d)), (d_target d, 0))) <$> ds).
Proof.
  induction ds as [|d ds IH]; intros m n s s' Hr Hd Hl E.
  { injection E as <-. exists n. rewrite Nat.add_0_r, app_nil_r. by split_and!. }
  apply Forall_cons in Hd as [[Ha Ht] Hds]. apply m_bind_inv in E as ([] & s1 & E1 & E). simpl in Hl.
  destruct (ic_connect i off len m n _ _ _ _ s s1 Hr Ha Ht ltac:(lia) E1) as (n1 & Hr1 & Hlen & Hout & Hb & Hst).
  destruct (IH (S m) n1 s1 s' Hr1) as (n2 & Hr2 & Hold & Hnew & Hb2); [|lia|done|].
  { apply (Forall_impl _ _ _ Hds). intros e [? ?]. split; [done|]. by apply (memory_target_frame (plat s)). }
  exists n2. simpl. split; [replace (m + S (length ds))%nat with (S m + length ds)%nat by lia; exact Hr2|]. split; [|split].
  - intros k Hk. rewrite Hold, Hout by lia. by rewrite list_lookup_insert_ne by lia.
  - intros [|j] e He; simpl in He.
    + injection He as ->. rewrite Nat.add_0_r, Hold, Hout by lia. by rewrite list_lookup_insert_eq.
    + replace (m + S j)%nat with (S m + j)%nat by lia. by apply Hnew.
  - rewrite Hb2, Hb, <-app_assoc. done.
Qed.

(** memories behind a coherent interconnect.  Make an interconnect and then connect memories
    one after the other under aliases of its memory outputs.  When both return, the j-th memory
    to be connected has the j-th window, which says socket j, while it is bound to the socket of
    its alias: a transaction in the window of the j-th memory leaves through the socket that is
    bound to that memory exactly when its alias was the j-th one.  So the order of the
    connections must be that of the aliases. *)
Theorem coherent_memories_in_order i p q mm (ds : list mm_desc) (s s1 s' : Dyn rate W) :
  ips (plat s) !! i = Some p → all_named (plat s) → checkAttributes p = Ok q → getAttrAsUInt64 "n_mmapped" (mAttributes q) = Ok mm →
  DynamicCoherenceInterconnect_make i s = (Ok tt, s1) →
  Forall (fun d => (d_alias d < Z.to_nat mm)%nat ∧ memory_target (plat s1) (d_target d) d.1.2 d.2) ds →
  NoDup (d_target <$> ds) → Z.of_nat (length ds) < 2 ^ 32 → connect_memories i ds s1 = (Ok tt, s') →
  ∃ off cfg n' cc ch m news, objs s' !! i = Some (CoherenceObj cfg n' cc ch m) ∧ binds (plat s') = binds (plat s1) ++ news
    ∧ ∀ j d, ds !! j = Some d →
        MMappedOutputs n' !! j = Some (mkAddr d.1.2 (u64 (d.1.2 + d.2 - 1)) d.2 (Z.of_nat j))
        ∧ (((i, off + Z.of_nat j), (d_target d, 0)) ∈ news ↔ d_alias d = j).
Proof.
  intros Hp Hn Hq Hmm Em Hd Hnd Hl E. destruct (made_ic_ready i p s s1 Hp Hn Em) as (q' & cout & hout & mm' & n & Hq' & _ & _ & Hmm' & Hr).
  rewrite Hq in Hq'. injection Hq' as <-. rewrite Hmm in Hmm'. injection Hmm' as <-.
  destruct (ic_connect_all i _ _ ds 0 n s1 s' Hr Hd ltac:(lia) E) as (n' & ((cfg & cc & ch & Ho) & _) & _ & Hnew & Hb).
  eexists (u32 cout + u32 hout), cfg, n', cc, ch, _, _. split; [exact Ho|]. split; [exact Hb|].
  intros j d Hj. split; [by apply (Hnew j d)|]. rewrite list_elem_of_fmap. split.
  - intros (e & [= Ea Et] & (k & Hk)%list_elem_of_lookup). rewrite NoDup_alt in Hnd.
    assert (j = k) as <-; [|assert (d = e) as <- by congruence; lia].
    apply (Hnd j k (d_target d)); rewrite list_lookup_fmap; [by rewrite Hj|rewrite Hk]. simpl. by rewrite Et.
  - intros <-. exists d. split; [done|]. by apply list_elem_of_lookup_2 with (d_alias d).
Qed.

(** ** The range of the memory *)

(** What one memory controller records. *)
Definition with_mem_ctrl (base size x y : Z) (n : ic) : ic :=
  let n1 := set_first_memory_controller n in
  let n2 := CoherenceInterconnect.set_mWriteCount (CoherenceInterconnect.mWriteCount n1 ++ [0])
              (CoherenceInterconnect.set_mReadCount (CoherenceInterconnect.mReadCount n1 ++ [0])
              (CoherenceInterconnect.set_mAddressIDs (CoherenceInterconnect.mAddressIDs n1 ++ [(base, size, mkPos x y)]) n1)) in
  set_RamLastAddr (Z.max (RamLastAddr n2) (base + size)) (set_RamBaseAddr (Z.min (RamBaseAddr n2) base) n2).

(** A memory controller of the interconnect, with its range and its place on the mesh. *)
Abbreviation ctrl_desc := (nat * (Z * Z * (Z * Z)))%type (only parsing).
Definition mem_ctrl_described (s : Dyn rate W) (noc : nat) (mx my : Z) (d : ctrl_desc) : Prop :=
  let '(c, (base, size, (x, y))) := d in
  ∃ p name, ips (plat s) !! c = Some p ∧ find_attr "noc" (mAttributes p) = Ok name ∧ Find name (plat s) = Some noc
    ∧ getAttrAsUInt64 "base_address" (mAttributes p) = Ok base ∧ getAttrAsUInt64 "size" (mAttributes p) = Ok size
    ∧ getAttrAsUInt64 "x_id" (mAttributes p) = Ok x ∧ getAttrAsUInt64 "y_id" (mAttributes p) = Ok y
    ∧ base + size < 2 ^ 64 ∧ x ≤ mx ∧ y ≤ my ∧ x < NULL_IDX ∧ y < NULL_IDX.

Lemma on_ic_run i (f : ic_config → M ic unit) (P : @Platform rate W) O cfg n c h m r n' : f cfg n = (r, n') →
  on_ic i f (mkDyn P (<[i := CoherenceObj cfg n c h m]> O)) = (r, mkDyn P (<[i := CoherenceObj cfg n' c h m]> O)).
Proof.
  intros E. unfold on_ic, get_obj, m_bind at 1. simpl. rewrite lookup_insert_eq, E.
  unfold put_obj, m_modify, m_bind, m_lift. simpl. by rewrite insert_insert_eq.
Qed.

Lemma find_noc_run i (s : Dyn rate W) p name noc : ips (plat s) !! i = Some p → find_attr "noc" (mAttributes p) = Ok name →
  Find name (plat s) = Some noc → find_noc i s = (Ok noc, s).
Proof. intros Hp Ha Hf. unfold find_noc. m_exec_by (attribute_ok _ i s p _ Hp Ha). unfold m_bind, m_get, m_lift. by rewrite Hf. Qed.

Lemma register_mem_ctrl_run base size x y (n : ic) : 0 ≤ x < NULL_IDX → 0 ≤ y < NULL_IDX → x ≤ CoherenceInterconnect.mX n → y ≤ CoherenceInterconnect.mY n →
  CoherenceInterconnect.register_mem_ctrl base size x y n
    = (Ok tt, CoherenceInterconnect.set_mWriteCount (CoherenceInterconnect.mWriteCount n ++ [0])
                (CoherenceInterconnect.set_mReadCount (CoherenceInterconnect.mReadCount n ++ [0])
                  (CoherenceInterconnect.set_mAddressIDs (CoherenceInterconnect.mAddressIDs n ++ [(base, size, mkPos x y)]) n))).
Proof.
  intros Hx Hy Hmx Hmy. unfold CoherenceInterconnect.register_mem_ctrl.
  rewrite !(bool_decide_false (_ = NULL_IDX)) by lia. unfold m_assert, m_get, m_bind at 1 2, m_ret. cbn [negb andb].
  by rewrite !bool_decide_false by lia.
Qed.

(** The two comparisons with the bounds of the range. *)
Lemma ram_range_step base last (n : ic) :
  (let n1 := if bool_decide (RamBaseAddr n > base) then set_RamBaseAddr base n else n in
   if bool_decide (RamLastAddr n1 < last) then set_RamLastAddr last n1 else n1)
  = set_RamLastAddr (Z.max (RamLastAddr n) last) (set_RamBaseAddr (Z.min (RamBaseAddr n) base) n).
Proof.
  destruct n. cbv zeta. unfold set_RamBaseAddr, set_RamLastAddr. cbn. case_bool_decide; cbn; case_bool_decide; cbn in *; f_equal; lia.
Qed.

Lemma foldr_min_base (a b : Z) l : foldr Z.min (Z.min a b) l = Z.min (foldr Z.min a l) b.
Proof. induction l; simpl; lia. Qed.
Lemma foldr_max_base (a b : Z) l : foldr Z.max (Z.max a b) l = Z.max (foldr Z.max a l) b.
Proof. induction l; simpl; lia. Qed.

Lemma mem_ctrl_run i noc (P : @Platform rate W) O cfg n c h m base size x y :
  mem_ctrl_described (mkDyn P O) noc (CoherenceInterconnect.mX n) (CoherenceInterconnect.mY n) (i, (base, size, (x, y))) →
  DynamicNoCMemoryController_finalize i (mkDyn P (<[noc := CoherenceObj cfg n c h m]> O))
    = (Ok tt, mkDyn P (<[noc := CoherenceObj cfg (with_mem_ctrl base size x y n) c h m]> O)).
Proof.
  intros (p & name & Hp & Hnoc & Hfind & Hb & Hs & Hx & Hy & Hfit & Hmx & Hmy & Hnx & Hny). unfold NULL_IDX in *.
  pose proof (getAttrAsUInt64_range _ _ _ Hx) as [? _]. pose proof (getAttrAsUInt64_range _ _ _ Hy) as [? _].
  pose proof (getAttrAsUInt64_range _ _ _ Hb) as [? _]. pose proof (getAttrAsUInt64_range _ _ _ Hs) as [? _].
  unfold DynamicNoCMemoryController_finalize.
  erewrite m_bind_ok by (by apply (find_noc_run i _ p name noc)).
  erewrite m_bind_ok by (apply on_ic_run; reflexivity).
  do 4 erewrite m_bind_ok by (eapply attribute_ok; [exact Hp|eassumption]).
  rewrite (u32_small x), (u32_small y), (u64_small (base + size)) by (unfold in_u32, in_u64; lia).
  erewrite m_bind_ok by (apply on_ic_run, register_mem_ctrl_run; unfold NULL_IDX, set_first_memory_controller; try case_bool_decide; simpl; lia).
  erewrite m_bind_ok by (apply on_ic_run; reflexivity). erewrite on_ic_run by reflexivity.
  by rewrite ram_range_step.
Qed.

(** the range of the memory.  When memory controllers with ranges below the top of the
    address space and places on the mesh are finalised one after the other, this returns, and the
    interconnect has their ranges in that order, starts at the lowest of their bases and ends at
    the highest of their ends: every address of every controller is in the range, and the range
    is not larger than that. *)
Theorem memory_controllers_range noc (ds : list ctrl_desc) (s : Dyn rate W) cfg n c h m :
  objs s !! noc = Some (CoherenceObj cfg n c h m) → Forall (mem_ctrl_described s noc (CoherenceInterconnect.mX n) (CoherenceInterconnect.mY n)) ds →
  ∃ n', m_forM ds.*1 DynamicNoCMemoryController_finalize s = (Ok tt, mkDyn (plat s) (<[noc := CoherenceObj cfg n' c h m]> (objs s)))
    ∧ CoherenceInterconnect.mAddressIDs n' = CoherenceInterconnect.mAddressIDs n ++ ((fun d => (d.2.1, mkPos d.2.2.1 d.2.2.2)) <$> ds)
    ∧ RamBaseAddr n' = foldr Z.min (RamBaseAddr n) ((fun d => d.2.1.1) <$> ds)
    ∧ RamLastAddr n' = foldr Z.max (RamLastAddr n) ((fun d => d.2.1.1 + d.2.1.2) <$> ds)
    ∧ ∀ d a, d ∈ ds → d.2.1.1 ≤ a < d.2.1.1 + d.2.1.2 → RamBaseAddr n' ≤ a < RamLastAddr n'.
Proof.
  revert n s. induction ds as [|d ds IH]; intros n [P O] Ho Hd; simpl in *.
  { exists n. rewrite insert_id, app_nil_r by done. split_and!; try done. intros d a []%elem_of_nil. }
  apply Forall_cons in Hd as [H1 Hd]. destruct d as [j [[base size] [x y]]].
  pose proof (mem_ctrl_run j noc P O cfg n c h m base size x y H1) as E. rewrite insert_id in E by done.
  rewrite (m_bind_ok _ _ _ _ _ E). set (n1 := with_mem_ctrl base size x y n) in *.
  assert (CoherenceInterconnect.mX n1 = CoherenceInterconnect.mX n ∧ CoherenceInterconnect.mY n1 = CoherenceInterconnect.mY n
    ∧ CoherenceInterconnect.mAddressIDs n1 = CoherenceInterconnect.mAddressIDs n ++ [(base, size, mkPos x y)]
    ∧ RamBaseAddr n1 = Z.min (RamBaseAddr n) base ∧ RamLastAddr n1 = Z.max (RamLastAddr n) (base + size)) as (Hx & Hy & Ha & Hb1 & Hl1).
  { unfold n1, with_mem_ctrl, set_first_memory_controller. by case_bool_decide. }
  destruct (IH n1 (mkDyn P (<[noc := CoherenceObj cfg n1 c h m]> (O : gmap nat object)))) as (n' & E' & Ha' & Hb' & Hl' & Hin).
  { simpl. by rewrite lookup_insert_eq. } { by rewrite Hx, Hy. }
  exists n'. split; [etransitivity; [exact E'|]; simpl; by rewrite insert_insert_eq|]. split; [by rewrite Ha', Ha, <-app_assoc|].
  rewrite Hb1, foldr_min_base in Hb'. rewrite Hl1, foldr_max_base in Hl'. split; [rewrite Hb'; apply Z.min_comm|].
  split; [rewrite Hl'; apply Z.max_comm|].
  intros d a [->|Hd']%elem_of_cons Hr; [|by apply (Hin d)]. simpl in Hr. lia.
Qed.
End meshes.

(** ** A platform with two memories and their controllers *)

Definition mesh_attributes (latency : string) : list (string * string) :=
  [("domain", "0"); ("latency", latency); ("n_cache_in", "1"); ("n_cache_out", "0"); ("n_home_in", "0"); ("n_home_out", "0");
   ("n_mmapped", "2"); ("n_device", "0"); ("flitSize", "8"); ("memory_word_length", "8"); ("is_coherent", "0"); ("is_mesh", "1");
   ("mesh_x", "2"); ("mesh_y", "2"); ("with_contention", "0"); ("contention_interval", "0"); ("buffer_size", "0");
   ("virtual_channels", "0"); ("router_latency", "1"); ("link_latency", "0"); ("noc_stats_per_initiator_on", "0")].
Definition mesh_ip : Ip := described_ip "noc" DynamicCoherenceInterconnect (mesh_attributes "10").
Definition ctrl_ip (name : string) (base size : Z) (x y : string) : Ip :=
  described_ip name DynamicNoCMemoryController
    [("domain", "0"); ("size", to_string size); ("base_address", to_string base); ("noc", "noc"); ("x_id", x); ("y_id", y)].

(** The memories are made; the interconnect is not. *)
Definition mesh_platform : Dyn nat unit :=
  mkDyn (mkPlatform [mesh_ip; set_mMade true ram_ip; set_mMade true rom_ip;
      ctrl_ip "c0" 0x1000 0x1000 "0" "0"; ctrl_ip "c1" 0x2000 0x800 "1" "1"]
    (new_manager tt) [] registered_classes
    [("CoherentInterconnect", [("noc", 0%nat)]); ("Memory", [("ram", 1%nat); ("rom", 2%nat)]);
     ("NoCMemoryController", [("c0", 3%nat); ("c1", 4%nat)])]) ∅.

Abbreviation make_mesh := (DynamicCoherenceInterconnect_make (Z.mul 1000) stoull) (only parsing).
Definition made_mesh : Dyn nat unit := (make_mesh 0%nat mesh_platform).2.

Lemma mesh_platform_made : make_mesh 0%nat mesh_platform = (Ok tt, made_mesh).
Proof. unfold made_mesh. assert ((make_mesh 0%nat mesh_platform).1 = Ok tt) as E by by vm_compute. by destruct (make_mesh 0%nat mesh_platform); simpl in *; subst. Qed.

Lemma mesh_target t base size : mClass <$> ips (plat made_mesh) !! t = Some DynamicMemory →
  ((fun q => getAttrAsUInt64 "base_address" (mAttributes q)) <$> ips (plat made_mesh) !! t) = Some (Ok base) →
  ((fun q => getAttrAsUInt64 "size" (mAttributes q)) <$> ips (plat made_mesh) !! t) = Some (Ok size) →
  memory_target (plat made_mesh) t base size.
Proof.
  destruct (ips (plat made_mesh) !! t) as [q|] eqn:Hq; [|done]. intros Hc%(inj Some) Hb%(inj Some) Hs%(inj Some). split.
  - exists q. rewrite Hc. split; [exact Hq|]. split; [reflexivity|]. split; [reflexivity|]. split; [exact Hb|]. split; [exact Hs|]. intros c k. simpl. unfold one_socket. destruct (mMade q); congruence.
  - intros q' Hq'. rewrite Hq in Hq'. apply (inj Some) in Hq' as <-. by rewrite Hc.
Qed.

Lemma mesh_targets : memory_target (plat made_mesh) 1 0x1000 0x1000 ∧ memory_target (plat made_mesh) 2 0x2000 0x800.
Proof. split; apply mesh_target; reflexivity. Qed.

Lemma mesh_platform_named : all_named (plat mesh_platform).
Proof. repeat constructor. Qed.
Lemma mesh_ip_checked : checkAttributes mesh_ip = Ok (checked_ip mesh_ip)
  ∧ getAttrAsUInt64 "n_mmapped" (mAttributes (checked_ip mesh_ip)) = Ok 2.
Proof. split; [apply checked_ip_ok|]; by vm_compute. Qed.

(** The two memories under the aliases [a] and [b]. *)
Definition mesh_memories (a b : nat) : list (nat * nat * Z * Z) := [(a, 1%nat, 0x1000, 0x1000); (b, 2%nat, 0x2000, 0x800)].
Lemma mesh_memories_ok a b : (a < 2)%nat → (b < 2)%nat →
  Forall (fun d => (d_alias d < Z.to_nat 2)%nat ∧ memory_target (plat made_mesh) (d_target d) d.1.2 d.2) (mesh_memories a b).
Proof. intros Ha Hb. destruct mesh_targets as [H1 H2]. apply Forall_cons. split; [by split|]. apply Forall_cons. by split; [split|]. Qed.
Lemma mesh_memories_apart a b : NoDup (d_target <$> mesh_memories a b).
Proof. apply NoDup_cons. split; [|apply NoDup_singleton]. by intros ?%list_elem_of_singleton. Qed.

Abbreviation connect_nat := (connect_memories nat_scale no_hook) (only parsing).

(** Connected in the order of the aliases, the first memory is reached through its window; in
    the other order it is not. *)
Lemma coherent_memories_in_order_witness :
  (∃ s' off news, connect_nat 0%nat (mesh_memories 0 1) made_mesh = (Ok tt, s')
    ∧ binds (plat s') = binds (plat made_mesh) ++ news ∧ ((0%nat, off + 0), (1%nat, 0)) ∈ news)
  ∧ ∃ s' off news, connect_nat 0%nat (mesh_memories 1 0) made_mesh = (Ok tt, s')
    ∧ binds (plat s') = binds (plat made_mesh) ++ news ∧ ((0%nat, off + 0), (1%nat, 0)) ∉ news.
Proof.
  destruct mesh_ip_checked as [Hq Hmm].
  pose proof (fun a b s' Ha Hb => coherent_memories_in_order nat_scale no_hook (Z.mul 1000) stoull 0%nat mesh_ip (checked_ip mesh_ip) 2
    (mesh_memories a b) mesh_platform made_mesh s' eq_refl mesh_platform_named Hq Hmm mesh_platform_made (mesh_memories_ok a b Ha Hb)
    (mesh_memories_apart a b) eq_refl) as H.
  split.
  - assert ((connect_nat 0%nat (mesh_memories 0 1) made_mesh).1 = Ok tt) as E1 by (vm_compute; reflexivity).
    destruct (connect_nat 0%nat (mesh_memories 0 1) made_mesh) as [r s'] eqn:E. simpl in E1. subst r.
    destruct (H 0%nat 1%nat s' ltac:(lia) ltac:(lia) E) as (off & cfg & n' & cc & ch & m & news & _ & Hb & Hall).
    exists s', off, news. split; [reflexivity|]. split; [exact Hb|]. by apply (Hall 0%nat (0%nat, 1%nat, 0x1000, 0x1000)).
  - assert ((connect_nat 0%nat (mesh_memories 1 0) made_mesh).1 = Ok tt) as E1 by (vm_compute; reflexivity).
    destruct (connect_nat 0%nat (mesh_memories 1 0) made_mesh) as [r s'] eqn:E. simpl in E1. subst r.
    destruct (H 1%nat 0%nat s' ltac:(lia) ltac:(lia) E) as (off & cfg & n' & cc & ch & m & news & _ & Hb & Hall).
    exists s', off, news. split; [reflexivity|]. split; [exact Hb|]. intros Hin.
    apply (Hall 0%nat (1%nat, 1%nat, 0x1000, 0x1000) eq_refl) in Hin. discriminate Hin.
Defined.

(** The controllers of the two memories, on an interconnect of the same mesh. *)
Definition mesh_cfg : ic_config := mkIcConfig 0 0 2 8 8 false 0 0 0 true false 1000 0 0 0 0 false.
Definition mesh_state : Dyn nat unit :=
  mkDyn (plat mesh_platform) {[ 0%nat := CoherenceObj mesh_cfg (CoherenceInterconnect.set_mesh_coord 2 2 (new_ic mesh_cfg)) 0 0 2 ]}.
Definition mesh_ctrls : list (nat * (Z * Z * (Z * Z))) := [(3%nat, (0x1000, 0x1000, (0, 0))); (4%nat, (0x2000, 0x800, (1, 1)))].

Lemma mesh_ctrls_described : Forall (mem_ctrl_described mesh_state 0%nat 2 2) mesh_ctrls.
Proof.
  apply Forall_cons. split; [|apply Forall_cons; split; [|done]].
  - exists (ctrl_ip "c0" 0x1000 0x1000 "0" "0"), "noc". split; [reflexivity|]. by split_and!; vm_compute.
  - exists (ctrl_ip "c1" 0x2000 0x800 "1" "1"), "noc". split; [reflexivity|]. by split_and!; vm_compute.
Qed.

Lemma memory_controllers_range_witness : ∃ n', (m_forM [3; 4]%nat DynamicNoCMemoryController_finalize mesh_state).1 = Ok tt
  ∧ RamBaseAddr n' = 0x1000 ∧ RamLastAddr n' = 0x2800.
Proof.
  destruct (memory_controllers_range 0%nat mesh_ctrls mesh_state mesh_cfg (CoherenceInterconnect.set_mesh_coord 2 2 (new_ic mesh_cfg)) 0 0 2
    eq_refl mesh_ctrls_described) as (n' & E & _ & Hb & Hl & _).
  exists n'. split; [exact (f_equal fst E)|]. split; [rewrite Hb|rewrite Hl]; reflexivity.
Defined.
