(* ===== verification/DynamicStats.v ===== *)
(** * Statistics of the components of a platform ([components/include/components/DynamicComponents.hpp])

    [pushStats] of a memory, a bus and a cache, which closes a segment of the simulation: it
    appends a map with, for every counter, the difference to what the map before it says.  The
    maps hold numbers as text.  The file shows that the segments can always be closed and what
    they then hold: not the increase of a counter since the segment before, but the alternating
    sum of all its values. *)

From S2P Require Import Prelude Attributes AddrSpace VpsimIp CacheBase TargetIf LocalMemory Interconnect DynamicClasses.
From stdpp Require Import gmap strings pretty.
#[local] Open Scope Z_scope.

Abbreviation segment := (gmap string string) (only parsing).

(** [std::map::at]. *)
Definition at_key (m : segment) (k : string) : result string :=
  match m !! k with Some v => Ok v | None => Err (Throw "map::at") end.

(** [to_string(counter - stoull(back.at(key)))], one key after the other. *)
Fixpoint differences (cs : list (string * Z)) (back : segment) : result (list (string * string)) :=
  match cs with
  | [] => Ok []
  | (k, c) :: cs' =>
      let* t := at_key back k in
      let* n := stoull t in
      let* l := differences cs' back in
      Ok ((k, to_string (u64 (c - n))) :: l)
  end.

(** ** Counters *)

Definition memory_counters (m : component memory) : list (string * Z) :=
  [("reads", TargetIf.mReadCount (c_if m)); ("writes", TargetIf.mWriteCount (c_if m))].

(** [getReadCount] and [getWriteCount] of each output port of a bus. *)
Definition bus_counters (nout : Z) (n : interconnect) : result (list (string * Z)) :=
  foldr (fun i acc =>
      let* l := acc in
      let* r := vec_get (read_count_out n) i in
      let* w := vec_get (write_count_out n) i in
      Ok (("reads" ++ to_string i, r)%string :: ("writes" ++ to_string i, w)%string :: l)) (Ok []) (seqZ 0 nout).

Definition cache_keys : list (string * Counter) :=
  [("misses", MissCount); ("hits", HitCount); ("reads", NReads); ("writes", NWrites); ("write_backs", WriteBacks);
   ("real_invalidations", NInvals); ("total_invalidations", NTotalInvals); ("back_invalidations", NBackInvals);
   ("evictions", NEvicts); ("evict_backs", EvictBacks); ("PutS", NPutS); ("PutM", NPutM); ("PutI", NPutI); ("GetS", NGetS);
   ("GetM", NGetM); ("FwdGetS", NFwdGetS); ("FwdGetM", NFwdGetM)].
Definition cache_counters (c : cache) : list (string * Z) := (fun kc => (kc.1, counters c kc.2)) <$> cache_keys.

(** The counters of the object of a component; other classes keep the empty [pushStats]. *)
Definition counters_of (a : attrs) (o : object) : result (list (string * Z)) :=
  match o with
  | MemoryObj m _ => Ok (memory_counters m)
  | InterconnectObj n _ => let* nout := attr_unsigned "n_out_ports" a in bus_counters nout n
  | CacheObj c => Ok (cache_counters (co_cache c))
  | CoherenceObj _ _ _ _ _ | GicObj _ => Err (UndefinedBehaviour "no such member")
  end.

(** ** Closing a segment *)

(** The first call starts from a segment of zeros. *)
Definition zero_segment (cs : list (string * Z)) : segment := list_to_map ((fun kc => (kc.1, "0")) <$> cs).

Definition pushStats (a : attrs) (o : object) (mSegmentedStats : list segment) : result (list segment) :=
  let* cs := counters_of a o in
  let l := match mSegmentedStats with [] => [zero_segment cs] | _ => mSegmentedStats end in
  let* back := match last l with Some m => Ok m | None => Err (UndefinedBehaviour "back of an empty vector") end in
  let* new := differences cs back in
  Ok (l ++ [list_to_map new]).

(** [setStatsAndDie] of a memory and of a cache: the counters as they are. *)
Definition memory_final_stats (m : component memory) : list (string * string) :=
  (fun kc => (kc.1, to_string kc.2)) <$> memory_counters m.
Definition cache_final_stats (c : cache) : list (string * string) :=
  (fun kc => (kc.1, to_string kc.2)) <$> cache_counters c.

(** The segments closed at several times, with the states of the object at these times. *)
Fixpoint push_all (a : attrs) (os : list object) (l : list segment) : result (list segment) :=
  match os with
  | [] => Ok l
  | o :: os' => let* l' := pushStats a o l in push_all a os' l'
  end.

(** ** What the segments hold *)

Definition holds (keys : list string) (m : segment) (v : string → Z) : Prop := ∀ k, k ∈ keys → m !! k = Some (to_string (v k)).

(** An object with these values of its counters. *)
Definition counts (a : attrs) (keys : list string) (oc : object * (string → Z)) : Prop :=
  counters_of a oc.1 = Ok ((fun k => (k, oc.2 k)) <$> keys).

Lemma differences_ok (keys : list string) (c v : string → Z) (m : segment) : holds keys m v →
  (∀ k, k ∈ keys → 0 ≤ v k ≤ c k ∧ c k < 2 ^ 64) →
  differences ((fun k => (k, c k)) <$> keys) m = Ok ((fun k => (k, to_string (c k - v k))) <$> keys).
Proof.
  intros Hm Hr. induction keys as [|k keys IH]; [done|]. destruct (Hr k) as [Hv Hc]; [set_solver|].
  cbn [fmap list_fmap differences]. unfold at_key. rewrite (Hm k) by set_solver. cbn [result_bind].
  rewrite stoull_to_string by (unfold in_u64; lia). cbn [result_bind]. rewrite IH by (unfold holds in *; set_solver).
  cbn [result_bind]. by rewrite u64_small by (unfold in_u64; lia).
Qed.

Lemma holds_list (keys : list string) (f : string → Z) : NoDup keys → holds keys (list_to_map ((fun k => (k, to_string (f k))) <$> keys)) f.
Proof.
  intros Hn k Hk. apply elem_of_list_to_map_1; [|by apply (list_elem_of_fmap_2 (fun k => (k, to_string (f k))))].
  rewrite <-list_fmap_compose. replace (fst ∘ _ <$> keys) with keys; [done|]. symmetry. apply list_fmap_id.
Qed.

(** The values of a key after closing segments at these counts. *)
Definition segment_value (v : Z) (cs : list Z) : Z := foldl (fun v c => c - v) v cs.

(** Counters only grow, and stay in their type. *)
Fixpoint growing (v : Z) (cs : list Z) : Prop :=
  match cs with [] => True | c :: cs' => v ≤ c < 2 ^ 64 ∧ growing c cs' end.

Lemma growing_below v w cs : v ≤ w → growing w cs → growing v cs.
Proof. destruct cs as [|c cs]; [done|]. intros H [? ?]. split; [lia|done]. Qed.

Lemma push_one a keys o c l m v : counts a keys (o, c) → NoDup keys → last l = Some m → holds keys m v →
  (∀ k, k ∈ keys → 0 ≤ v k ≤ c k ∧ c k < 2 ^ 64) →
  ∃ m', pushStats a o l = Ok (l ++ [m']) ∧ holds keys m' (fun k => c k - v k).
Proof.
  intros Hc Hn Hl Hm Hr. unfold counts in Hc. cbn [fst snd] in Hc. unfold pushStats. rewrite Hc. cbn [result_bind].
  assert (match l with [] => [zero_segment ((fun k => (k, c k)) <$> keys)] | _ => l end = l) as -> by (by destruct l).
  rewrite Hl. cbn [result_bind]. rewrite (differences_ok keys c v m Hm Hr). cbn [result_bind]. eexists. split; [reflexivity|].
  by apply (holds_list keys (fun k => c k - v k)).
Qed.

Lemma push_more a keys (ocs : list (object * (string → Z))) : Forall (counts a keys) ocs → NoDup keys → ∀ l m v, last l = Some m → holds keys m v →
  (∀ k, k ∈ keys → 0 ≤ v k ∧ growing (v k) ((fun oc => oc.2 k) <$> ocs)) →
  ∃ news, push_all a ocs.*1 l = Ok (l ++ news) ∧ length news = length ocs
    ∧ ∀ j k, (j < length ocs)%nat → k ∈ keys → ∃ m', news !! j = Some m'
        ∧ m' !! k = Some (to_string (segment_value (v k) (take (S j) ((fun oc => oc.2 k) <$> ocs)))).
Proof.
  intros Hc Hn. induction Hc as [|[o c] ocs H1 Hc IH]; intros l m v Hl Hm Hr.
  { exists []. rewrite app_nil_r. split; [done|]. split; [done|]. intros j k Hj. simpl in Hj. lia. }
  destruct (push_one a keys o c l m v H1 Hn Hl Hm) as (m' & E & Hm').
  { intros k Hk. destruct (Hr k Hk) as [? [? _]]. simpl in *. lia. }
  destruct (IH (l ++ [m']) m' (fun k => c k - v k)) as (news & En & Hlen & Hall); [by rewrite last_snoc|done| |].
  { intros k Hk. destruct (Hr k Hk) as [? [? Hg]]. simpl in *. split; [lia|]. apply (growing_below _ (c k)); [lia|done]. }
  exists (m' :: news).
  change (push_all a ((o, c) :: ocs).*1 l) with (let* l' := pushStats a o l in push_all a ocs.*1 l'). rewrite E. cbn [result_bind]. rewrite En, <-app_assoc. split; [done|]. split; [simpl; by rewrite Hlen|].
  intros [|j] k Hj Hk; simpl in Hj; [by exists m'; split; [|by apply Hm']|]. destruct (Hall j k) as (m2 & Hm2 & Hv); [lia|done|].
  exists m2. by split.
Qed.

(** what the segments hold.  Close a segment at each of several times at which the counters
    of a memory, a bus or a cache have some values that never decrease.  Every call returns, and
    the segment after the j-th call holds, for every counter, the j-th value minus what the
    segment before it holds, that is the alternating sum of the values so far: the increase
    since the segment before for the first two, and no longer from the third on. *)
Theorem segments_alternate a keys (ocs : list (object * (string → Z))) : Forall (counts a keys) ocs → NoDup keys →
  (∀ k, k ∈ keys → growing 0 ((fun oc => oc.2 k) <$> ocs)) → ocs ≠ [] →
  ∃ l, push_all a ocs.*1 [] = Ok l ∧ length l = S (length ocs)
    ∧ ∀ j k, (j < length ocs)%nat → k ∈ keys → ∃ m, l !! S j = Some m
        ∧ m !! k = Some (to_string (segment_value 0 (take (S j) ((fun oc => oc.2 k) <$> ocs)))).
Proof.
  intros Hc Hn Hg Hne. destruct ocs as [|[o c] ocs]; [done|].
  set (z := zero_segment ((fun k => (k, c k)) <$> keys)).
  assert (push_all a ((o, c) :: ocs).*1 [] = push_all a ((o, c) :: ocs).*1 [z]) as ->.
  { apply Forall_cons in Hc as [H1 _]. unfold counts in H1. cbn [fst snd] in H1. cbn [fmap list_fmap fst push_all]. unfold pushStats.
    by rewrite H1. }
  destruct (push_more a keys ((o, c) :: ocs) Hc Hn [z] z (fun _ => 0)) as (news & E & Hlen & Hall); [done| |by intros k Hk; split; [|apply Hg]|].
  { unfold z, zero_segment. rewrite <-list_fmap_compose. by apply (holds_list keys (fun _ => 0)). }
  exists ([z] ++ news). split; [done|]. simpl. split; [by rewrite Hlen|]. exact Hall.
Qed.

(** A memory that served 10, 20 and 30 reads when the segments were closed: the third segment
    says 20 reads. *)
Definition reads_memory (n : Z) : object :=
  MemoryObj (mkComponent (mkTargetIf (mkAddrSpace 0 16) 1 false true n 0) (mkMemory (mkBytes 17 (fun _ => 0)) false 1 0 0)) (mkLatencyIf 0 0 0 0).
Definition reads_count (n : Z) (k : string) : Z := if decide (k = "reads") then n else 0.

Lemma segments_alternate_witness : ∃ l m, push_all ∅ [reads_memory 10; reads_memory 20; reads_memory 30] [] = Ok l
  ∧ l !! 3%nat = Some m ∧ m !! "reads" = Some "20".
Proof.
  destruct (segments_alternate ∅ ["reads"; "writes"] [(reads_memory 10, reads_count 10); (reads_memory 20, reads_count 20);
    (reads_memory 30, reads_count 30)]) as (l & E & _ & Hall).
  - repeat constructor.
  - apply (bool_decide_eq_true_1 _). by vm_compute.
  - intros k [->|[->|[]%elem_of_nil]%elem_of_cons]%elem_of_cons; vm_compute; repeat split; discriminate.
  - discriminate.
  - destruct (Hall 2%nat "reads") as (m & Hm & Hk); [simpl; lia|apply list_elem_of_here|]. exists l, m. by split_and!.
Defined.
