(* ===== verification/SesamController.v ===== *)
(** * The monitor ([components/peripherals/SesamController.cpp], [SesamController.hpp] and
      [DynamicSesamController] in [DynamicComponents.hpp])

    A device with which the program that runs on the platform talks to the simulator: it
    writes the characters of a command one by one, and reads the answer in the same way.
    [SesamController] has this protocol; [DynamicSesamController] has the commands.  The
    command [benchmark] closes a segment of the statistics of the components, the end of the
    benchmark closes another one and prints it.  Both classes are one object here: [sesamState] is set
    when the pointer of the first one points to [mState] of the second one.

    The commands of the console that only look at other components (show, showmem, configure,
    debug, watch, unwatch) and [sc_stop] are calls on the rest of the program, a type [W].  The
    file shows that the protocol transmits any command and any answer, and that a
    benchmark reports the increase of each counter between its start and its end, whatever benchmarks
    ran before it.  Memories, caches and coherent interconnects are captured by the co-simulator only, the
    other components at the command itself; both are covered. *)

From S2P Require Import Cosim.
From S2P Require Import Prelude Attributes AddrSpace VpsimIp CacheBase Tlm LocalMemory TargetIf Interconnect DynamicClasses DynamicStats.
From stdpp Require Import gmap strings sorting.
#[local] Open Scope Z_scope.

Inductive monitorState := RUN | TAKE_CMD.
#[global] Instance monitorState_dec : EqDecision monitorState.
Proof. solve_decision. Defined.

(** ** The statistics of the components *)

(** A component as far as the monitor uses it; [ip_object] is [None] for a class that keeps the
    [pushStats] of [VpsimIp]. *)
Record stat_ip := mkStatIp {
  ip_name : string;
  ip_container : bool;
  ip_attrs : attrs;
  ip_delayed : bool;
  ip_object : option object;
  ip_segments : list segment }.

Definition set_ip_segments x (p : stat_ip) : stat_ip :=
  mkStatIp (ip_name p) (ip_container p) (ip_attrs p) (ip_delayed p) (ip_object p) x.

(** [VpsimIp::pushStats]. *)
Definition ip_pushStats (l : list segment) : list segment := (match l with [] => [∅] | _ => l end) ++ [∅].

Definition push_ip (p : stat_ip) : result stat_ip :=
  match ip_object p with
  | None => Ok (set_ip_segments (ip_pushStats (ip_segments p)) p)
  | Some o => let* l := pushStats (ip_attrs p) o (ip_segments p) in Ok (set_ip_segments l p)
  end.

(** The pairs of a [std::map], in the order of its iterator. *)
Definition entry_le (p q : string * string) : Prop := String.leb p.1 q.1 = true.
#[global] Instance entry_le_dec : RelDecision entry_le.
Proof. intros p q. unfold entry_le. apply _. Defined.
Definition entries (m : segment) : list (string * string) :=
  merge_sort entry_le (map_to_list m).

Definition newline : string := String (Ascii.ascii_of_nat 10) EmptyString.
Definition tab : string := String (Ascii.ascii_of_nat 9) EmptyString.
Definition concat_all (l : list string) : string := foldr String.append EmptyString l.

(** The text for one component. *)
Definition ip_report (name : string) (stats : segment) : string :=
  if bool_decide (stats = ∅) then EmptyString else
  ("-----------------------------------" ++ newline ++ newline ++ "Statistics from " ++ name ++ newline
   ++ concat_all ((fun stat => tab ++ stat.1 ++ " = " ++ stat.2 ++ newline) <$> entries stats))%string.

(** The callbacks: close a segment; close a segment, print it and forget them all. *)
Definition push_only (p : stat_ip) : result (stat_ip * string) := let* p := push_ip p in Ok (p, EmptyString).
Definition push_and_report (p : stat_ip) : result (stat_ip * string) :=
  let* p := push_ip p in
  match last (ip_segments p) with
  | None => Err (UndefinedBehaviour "back of an empty vector")
  | Some stats => Ok (if bool_decide (stats = ∅) then p else set_ip_segments [] p, ip_report (ip_name p) stats)
  end.
Definition name_only (p : stat_ip) : result (stat_ip * string) := Ok (p, (ip_name p ++ newline)%string).

(** The filters: the domain, and whether the capture is delayed. *)
Definition in_domain (d : Z) (p : stat_ip) : result bool :=
  let* n := getAttrAsUInt64 "domain" (ip_attrs p) in Ok (bool_decide (n = d)).
Definition captured (d : Z) (delayed : bool) (p : stat_ip) : result bool :=
  let* b := in_domain d p in Ok (b && eqb (ip_delayed p) delayed).

Definition visit_ip (cond : stat_ip → result bool) (f : stat_ip → result (stat_ip * string)) (p : stat_ip) : result (stat_ip * string) :=
  if ip_container p then Ok (p, EmptyString) else
  let* b := cond p in if b then f p else Ok (p, EmptyString).

(** [VpsimIp::MapIf] on the components in the order of [AllInstances], with the text that the callbacks
    add; an exception leaves the components before it changed. *)
Fixpoint map_if (cond : stat_ip → result bool) (f : stat_ip → result (stat_ip * string)) (l : list stat_ip) : result unit * (list stat_ip * string) :=
  match l with
  | [] => (Ok tt, ([], EmptyString))
  | p :: l' =>
      match visit_ip cond f p with
      | Err e => (Err e, (l, EmptyString))
      | Ok (p', t) => let '(r, (l'', t')) := map_if cond f l' in (r, (p' :: l'', (t ++ t')%string))
      end
  end.

(** ** The object *)

(** A call of [fopen], [fprintf] and [fclose]. *)
Record log_file := mkLogFile { f_name : string; f_append : bool; f_text : string }.

Section monitor.
Context {W : Type} (console : list string → M W unit) (sc_stop : M W unit).
(** Of SystemC: how a time is printed, and a number of nanoseconds as a time. *)
Context (show_time : Z → string) (sc_time_ns : Z → Z).

Record Sesam := mkSesam {
  mState : monitorState;
  sesamState : bool;
  strBuf : option string;
  strParam : list string;
  mCommandOutputBuffer : string;
  nbCommandCounter : Z;
  delayedCaptureRunning : bool;
  mCurrentDomain : Z;
  MainMemPtr : option Cosim.Cosim;
  appName : string;
  mInBenchmark : bool;
  mBenchDomain : Z;
  mBenchStartTime : Z;
  sc_now : Z;
  stat_ips : list stat_ip;
  log_files : list log_file;
  simulation : W;
  s_mem : bytes }.

Definition set_mState x (s : Sesam) : Sesam :=
  mkSesam x (sesamState s) (strBuf s) (strParam s) (mCommandOutputBuffer s) (nbCommandCounter
    s) (delayedCaptureRunning s) (mCurrentDomain s) (MainMemPtr s) (appName s) (mInBenchmark s)
    (mBenchDomain s) (mBenchStartTime s) (sc_now s) (stat_ips s) (log_files s) (simulation s)
    (s_mem s).
Definition set_sesamState x (s : Sesam) : Sesam :=
  mkSesam (mState s) x (strBuf s) (strParam s) (mCommandOutputBuffer s) (nbCommandCounter s)
    (delayedCaptureRunning s) (mCurrentDomain s) (MainMemPtr s) (appName s) (mInBenchmark s)
    (mBenchDomain s) (mBenchStartTime s) (sc_now s) (stat_ips s) (log_files s) (simulation s)
    (s_mem s).
Definition set_strBuf x (s : Sesam) : Sesam :=
  mkSesam (mState s) (sesamState s) x (strParam s) (mCommandOutputBuffer s) (nbCommandCounter
    s) (delayedCaptureRunning s) (mCurrentDomain s) (MainMemPtr s) (appName s) (mInBenchmark s)
    (mBenchDomain s) (mBenchStartTime s) (sc_now s) (stat_ips s) (log_files s) (simulation s)
    (s_mem s).
Definition set_strParam x (s : Sesam) : Sesam :=
  mkSesam (mState s) (sesamState s) (strBuf s) x (mCommandOutputBuffer s) (nbCommandCounter s)
    (delayedCaptureRunning s) (mCurrentDomain s) (MainMemPtr s) (appName s) (mInBenchmark s)
    (mBenchDomain s) (mBenchStartTime s) (sc_now s) (stat_ips s) (log_files s) (simulation s)
    (s_mem s).
Definition set_mCommandOutputBuffer x (s : Sesam) : Sesam :=
  mkSesam (mState s) (sesamState s) (strBuf s) (strParam s) x (nbCommandCounter s)
    (delayedCaptureRunning s) (mCurrentDomain s) (MainMemPtr s) (appName s) (mInBenchmark s)
    (mBenchDomain s) (mBenchStartTime s) (sc_now s) (stat_ips s) (log_files s) (simulation s)
    (s_mem s).
Definition set_nbCommandCounter x (s : Sesam) : Sesam :=
  mkSesam (mState s) (sesamState s) (strBuf s) (strParam s) (mCommandOutputBuffer s) x
    (delayedCaptureRunning s) (mCurrentDomain s) (MainMemPtr s) (appName s) (mInBenchmark s)
    (mBenchDomain s) (mBenchStartTime s) (sc_now s) (stat_ips s) (log_files s) (simulation s)
    (s_mem s).
Definition set_delayedCaptureRunning x (s : Sesam) : Sesam :=
  mkSesam (mState s) (sesamState s) (strBuf s) (strParam s) (mCommandOutputBuffer s)
    (nbCommandCounter s) x (mCurrentDomain s) (MainMemPtr s) (appName s) (mInBenchmark s)
    (mBenchDomain s) (mBenchStartTime s) (sc_now s) (stat_ips s) (log_files s) (simulation s)
    (s_mem s).
Definition set_mCurrentDomain x (s : Sesam) : Sesam :=
  mkSesam (mState s) (sesamState s) (strBuf s) (strParam s) (mCommandOutputBuffer s)
    (nbCommandCounter s) (delayedCaptureRunning s) x (MainMemPtr s) (appName s) (mInBenchmark s)
    (mBenchDomain s) (mBenchStartTime s) (sc_now s) (stat_ips s) (log_files s) (simulation s)
    (s_mem s).
Definition set_MainMemPtr x (s : Sesam) : Sesam :=
  mkSesam (mState s) (sesamState s) (strBuf s) (strParam s) (mCommandOutputBuffer s)
    (nbCommandCounter s) (delayedCaptureRunning s) (mCurrentDomain s) x (appName s)
    (mInBenchmark s) (mBenchDomain s) (mBenchStartTime s) (sc_now s) (stat_ips s) (log_files s)
    (simulation s) (s_mem s).
Definition set_appName x (s : Sesam) : Sesam :=
  mkSesam (mState s) (sesamState s) (strBuf s) (strParam s) (mCommandOutputBuffer s)
    (nbCommandCounter s) (delayedCaptureRunning s) (mCurrentDomain s) (MainMemPtr s) x
    (mInBenchmark s) (mBenchDomain s) (mBenchStartTime s) (sc_now s) (stat_ips s) (log_files s)
    (simulation s) (s_mem s).
Definition set_mInBenchmark x (s : Sesam) : Sesam :=
  mkSesam (mState s) (sesamState s) (strBuf s) (strParam s) (mCommandOutputBuffer s)
    (nbCommandCounter s) (delayedCaptureRunning s) (mCurrentDomain s) (MainMemPtr s) (appName s)
    x (mBenchDomain s) (mBenchStartTime s) (sc_now s) (stat_ips s) (log_files s) (simulation s)
    (s_mem s).
Definition set_mBenchDomain x (s : Sesam) : Sesam :=
  mkSesam (mState s) (sesamState s) (strBuf s) (strParam s) (mCommandOutputBuffer s)
    (nbCommandCounter s) (delayedCaptureRunning s) (mCurrentDomain s) (MainMemPtr s) (appName s)
    (mInBenchmark s) x (mBenchStartTime s) (sc_now s) (stat_ips s) (log_files s) (simulation s)
    (s_mem s).
Definition set_mBenchStartTime x (s : Sesam) : Sesam :=
  mkSesam (mState s) (sesamState s) (strBuf s) (strParam s) (mCommandOutputBuffer s)
    (nbCommandCounter s) (delayedCaptureRunning s) (mCurrentDomain s) (MainMemPtr s) (appName s)
    (mInBenchmark s) (mBenchDomain s) x (sc_now s) (stat_ips s) (log_files s) (simulation s)
    (s_mem s).
Definition set_sc_now x (s : Sesam) : Sesam :=
  mkSesam (mState s) (sesamState s) (strBuf s) (strParam s) (mCommandOutputBuffer s)
    (nbCommandCounter s) (delayedCaptureRunning s) (mCurrentDomain s) (MainMemPtr s) (appName s)
    (mInBenchmark s) (mBenchDomain s) (mBenchStartTime s) x (stat_ips s) (log_files s)
    (simulation s) (s_mem s).
Definition set_stat_ips x (s : Sesam) : Sesam :=
  mkSesam (mState s) (sesamState s) (strBuf s) (strParam s) (mCommandOutputBuffer s)
    (nbCommandCounter s) (delayedCaptureRunning s) (mCurrentDomain s) (MainMemPtr s) (appName s)
    (mInBenchmark s) (mBenchDomain s) (mBenchStartTime s) (sc_now s) x (log_files s) (simulation
    s) (s_mem s).
Definition set_log_files x (s : Sesam) : Sesam :=
  mkSesam (mState s) (sesamState s) (strBuf s) (strParam s) (mCommandOutputBuffer s)
    (nbCommandCounter s) (delayedCaptureRunning s) (mCurrentDomain s) (MainMemPtr s) (appName s)
    (mInBenchmark s) (mBenchDomain s) (mBenchStartTime s) (sc_now s) (stat_ips s) x (simulation
    s) (s_mem s).
Definition set_simulation x (s : Sesam) : Sesam :=
  mkSesam (mState s) (sesamState s) (strBuf s) (strParam s) (mCommandOutputBuffer s)
    (nbCommandCounter s) (delayedCaptureRunning s) (mCurrentDomain s) (MainMemPtr s) (appName s)
    (mInBenchmark s) (mBenchDomain s) (mBenchStartTime s) (sc_now s) (stat_ips s) (log_files s)
    x (s_mem s).
Definition set_s_mem x (s : Sesam) : Sesam :=
  mkSesam (mState s) (sesamState s) (strBuf s) (strParam s) (mCommandOutputBuffer s)
    (nbCommandCounter s) (delayedCaptureRunning s) (mCurrentDomain s) (MainMemPtr s) (appName s)
    (mInBenchmark s) (mBenchDomain s) (mBenchStartTime s) (sc_now s) (stat_ips s) (log_files s)
    (simulation s) x.

(** ** The commands *)

(** [getCurrentTime] of the co-simulator. *)
Definition getCurrentTime (now : Z) (c : Cosim.Cosim) : Z :=
  if Cosim.focusOnROI c then now else sc_time_ns (Cosim.current_time_stamp c).
Definition bench_time (s : Sesam) : Z :=
  match MainMemPtr s with Some c => getCurrentTime (sc_now s) c | None => sc_now s end.
Definition notify (start : bool) (s : Sesam) : Sesam :=
  set_MainMemPtr (Cosim.NotifySesamCommand (u64 (nbCommandCounter s + 1)) start <$> MainMemPtr s) s.

(** The text up to the first null character: what [c_str] gives to a function of C. *)
Fixpoint c_string (s : string) : string :=
  match s with
  | EmptyString => EmptyString
  | String c s' => if Ascii.eqb c Ascii.zero then EmptyString else String c (c_string s')
  end.

Definition log_name (app : string) (n : Z) : string := ("sesamBench_" ++ app ++ "_" ++ to_string n ++ ".log")%string.
Definition write_log (name : string) (append : bool) (text : string) (s : Sesam) : Sesam :=
  set_log_files (log_files s ++ [mkLogFile (c_string name) append (c_string text)]) s.

(** [MapIf], and the text. *)
Definition MapIf_text (cond : Sesam → stat_ip → result bool) (f : stat_ip → result (stat_ip * string)) : M Sesam string := fun s =>
  let '(r, (l, t)) := map_if (cond s) f (stat_ips s) in
  (match r with Ok _ => Ok t | Err e => Err e end, set_stat_ips l s).
(** [MapIf] with callbacks that append to [mCommandOutputBuffer]. *)
Definition MapIf_output (cond : Sesam → stat_ip → result bool) (f : stat_ip → result (stat_ip * string)) : M Sesam unit := fun s =>
  let '(r, (l, t)) := map_if (cond s) f (stat_ips s) in
  (r, set_mCommandOutputBuffer (mCommandOutputBuffer s ++ t)%string (set_stat_ips l s)).

(** The calls of the co-simulator, with a counter. *)
Definition start_capture : M Sesam unit := MapIf_text (fun s => captured (mCurrentDomain s) true) push_only ;;; m_ret tt.
Definition end_capture (counter : Z) : M Sesam unit :=
  outputBuffer <- MapIf_text (fun s => captured (mBenchDomain s) true) push_and_report ;;
  m_modify (fun s => write_log (log_name (appName s) (u64 (counter - 1))) true outputBuffer s) ;;;
  m_modify (set_delayedCaptureRunning false).

Definition end_benchmark : M Sesam unit :=
  m_modify (set_mInBenchmark false) ;;;
  m_modify (notify false) ;;;
  m_modify (fun s => set_mCommandOutputBuffer ("Simulated time: " ++ show_time (u64 (bench_time s - mBenchStartTime s)) ++ newline)%string s) ;;;
  MapIf_output (fun s => captured (mBenchDomain s) false) push_and_report ;;;
  m_modify (fun s => write_log (log_name (appName s) (nbCommandCounter s)) false (mCommandOutputBuffer s) s) ;;;
  m_modify (fun s => set_nbCommandCounter (u64 (nbCommandCounter s + 1)) s).

Definition start_benchmark (app : string) : M Sesam unit :=
  s <- m_get ;;
  if delayedCaptureRunning s then m_ret tt else
  m_when (bool_decide (MainMemPtr s ≠ None)) (m_modify (set_delayedCaptureRunning true) ;;; m_modify (notify true)) ;;;
  m_modify (fun s => set_mBenchStartTime (bench_time s) s) ;;;
  MapIf_text (fun s => captured (mCurrentDomain s) false) push_only ;;;
  m_modify (set_appName app) ;;;
  m_modify (set_mInBenchmark true) ;;;
  m_modify (fun s => set_mBenchDomain (mCurrentDomain s) s).

Definition list_components : M Sesam unit :=
  m_modify (set_mCommandOutputBuffer EmptyString) ;;; MapIf_output (fun s => in_domain (mCurrentDomain s)) name_only.

Definition on_simulation (m : M W unit) : M Sesam unit := fun s =>
  let '(r, w) := m (simulation s) in (r, set_simulation w s).
Definition console_commands : list string := ["show"; "showmem"; "configure"; "debug"; "watch"; "unwatch"]%string.

(** [sesamCommand]; [vector::at] throws. *)
Definition sesamCommand (args : list string) (counter : Z) : M Sesam unit :=
  let command := m_lift (match args with cmd :: _ => Ok cmd | [] => Err (Throw "vector::at") end) in
  if bool_decide (counter ≠ 0) then
    cmd <- command ;;
    if bool_decide (cmd = "StartCapture") then start_capture else
    if bool_decide (cmd = "EndCapture") then end_capture counter else m_ret tt
  else
  s <- m_get ;;
  match mState s with
  | RUN => m_when (mInBenchmark s) end_benchmark
  | TAKE_CMD =>
      cmd <- command ;;
      if bool_decide (cmd = "quit") then on_simulation sc_stop else
      if bool_decide (cmd ∈ console_commands) then on_simulation (console args) else
      if bool_decide (cmd = "list") then m_when (bool_decide (length args = 1%nat)) list_components else
      if bool_decide (cmd = "benchmark") then match args with [_; app] => start_benchmark app | _ => m_ret tt end else
      m_ret tt
  end.

(** ** The protocol *)

Definition char_of (b : Z) : Ascii.ascii := Ascii.ascii_of_N (Z.to_N b).
Definition byte_of (c : Ascii.ascii) : Z := Z.of_N (Ascii.N_of_ascii c).

(** The local variable of one byte, copied with the length of the transaction. *)
Definition one_byte (p : payload) : result unit :=
  if bool_decide (len p ≤ 1) then Ok tt else Err (UndefinedBehaviour "copy outside an object").

Definition sesam_read (t : target_if) (p : payload) (delay : Z) : M Sesam reply :=
  match ptr p with
  | None => m_throw (Throw "Monitor does not support null payloads !")
  | Some _ =>
      s <- m_get ;;
      data <- (if bool_decide (addr p = u64 (mBaseAddress (t_space t) + 1)) then
                 match mCommandOutputBuffer s with
                 | EmptyString => m_ret 0
                 | String c l => m_modify (set_mCommandOutputBuffer (c_string l)) ;;; m_ret (byte_of c)
                 end
               else m_ret 42) ;;
      m_lift (one_byte p) ;;;
      b <- m_lift (fill_buffer p (take (Z.to_nat (len p)) [data])) ;;
      m_ret (mkReply TLM_OK_RESPONSE (Some b) delay false)
  end.

(** [*sesamState = st]. *)
Definition put_state (st : monitorState) : M Sesam unit :=
  s <- m_get ;;
  if sesamState s then m_modify (set_mState st) else m_throw (UndefinedBehaviour "indeterminate pointer").
Definition run_command : M Sesam unit :=
  put_state TAKE_CMD ;;; s <- m_get ;; sesamCommand (strParam s) 0 ;;; put_state RUN.

(** [*strBuf]: not before the first [new], nor after [delete]. *)
Definition deref_strBuf : M Sesam string :=
  s <- m_get ;;
  m_lift (match strBuf s with Some str => Ok str | None => Err (UndefinedBehaviour "indeterminate pointer") end).

Definition write_command (data : Z) : M Sesam unit :=
  if bool_decide (data = 0x20) then m_modify (set_strParam ["list"]) ;;; run_command else
  if bool_decide (data = 0x42) then m_modify (set_strParam ["quit"]) ;;; run_command else
  if bool_decide (data = 0x52) then
    s <- m_get ;;
    tmp <- m_lift (match last (strParam s) with Some x => Ok x | None => Err (UndefinedBehaviour "back of an empty vector") end) ;;
    m_modify (set_strParam ["benchmark"; tmp]) ;;; run_command else
  if bool_decide (data = 0x54) then s <- m_get ;; sesamCommand (strParam s) 0 else
  if bool_decide (data = 0x58) then m_modify (set_strParam []) else
  if bool_decide (data = 0x62) then m_modify (set_strBuf (Some EmptyString)) else
  if bool_decide (data = 0x72) then
    str <- deref_strBuf ;; m_modify (fun s => set_strParam (strParam s ++ [str]) s) ;;; m_modify (set_strBuf None) else
  if bool_decide (data = 0x78) then run_command else
  m_throw (Throw "SesamController in unknown command.").

(** The byte is indeterminate when nothing is copied into it; a transaction of no bytes does not
    pass [TargetIf::b_transport]. *)
Definition sesam_write (t : target_if) (p : payload) (delay : Z) : M Sesam reply :=
  match ptr p with
  | None => m_throw (Throw "Monitor does not support null payloads !")
  | Some _ =>
      m_lift (one_byte p) ;;;
      l <- m_lift (buffer_bytes p (len p)) ;;
      data <- m_lift (match l with b :: _ => Ok b | [] => Err (UndefinedBehaviour "read of an indeterminate value") end) ;;
      (if bool_decide (addr p = mBaseAddress (t_space t)) then write_command data else
       if bool_decide (addr p = u64 (mBaseAddress (t_space t) + 1)) then
         str <- deref_strBuf ;; m_modify (set_strBuf (Some (str ++ String (char_of data) EmptyString)%string))
       else m_ret tt) ;;;
      m_ret (mkReply TLM_OK_RESPONSE (ptr p) delay false)
  end.

(** ** Construction *)

(** [DynamicSesamController] as a component. *)
Definition DynamicSesamController : ip_class :=
  mkIpClass "DynamicSesamController" false (always 1) (always 0) member_socket (no_socket " : SesamController has no out sockets.")
    (always true) false false (always false) false false
    (fun _ => getAttrAsUInt64 "base_address") (fun _ => getAttrAsUInt64 "size") ["base_address"] [("size", "4")].

(** The constructors; the domains are indeterminate until they are set. *)
Definition new_SesamController (domain bench_domain now : Z) (l : list stat_ip) (w : W) (contents : Z → Z) : component Sesam :=
  mkComponent (mkTargetIf (AddrSpace_of_size 4) 1 false false 0 0)
    (mkSesam RUN false None [] EmptyString 0 false domain None EmptyString false bench_domain 0 now l [] w (mkBytes 5 contents)).

(** [make]; the component with the attributes that the check completed. *)
Definition make_monitor (p : Ip) : M (component Sesam) Ip :=
  p <- m_lift (checkAttributes p) ;;
  base <- m_lift (getAttrAsUInt64 "base_address" (mAttributes p)) ;;
  m_modify (fun c => let t := c_if c in
    mkComponent (mkTargetIf (setBaseAddress base (t_space t)) (t_unit t) (mByteEnable t) (mDmiEnable t) (TargetIf.mReadCount t) (TargetIf.mWriteCount t)) (c_dev c)) ;;;
  m_modify (fun c => mkComponent (c_if c) (set_sesamState true (c_dev c))) ;;;
  d <- m_lift (getAttrAsUInt64 "domain" (mAttributes p)) ;;
  m_modify (fun c => mkComponent (c_if c) (set_mCurrentDomain (u32 d) (c_dev c))) ;;;
  m_ret p.

(** [finalize], on what [VpsimIp::Find] gives for the name of the co-simulator: nothing, a component of
    another class, or the co-simulator. *)
Definition monitor_finalize (found : option (option Cosim.Cosim)) : M Sesam unit :=
  match found with
  | None => m_ret tt
  | Some None => m_throw (UndefinedBehaviour "null pointer")
  | Some (Some c) => m_modify (set_MainMemPtr (Some c))
  end.

#[global] Instance sesam_target : Target Sesam := {|
  local_mem := s_mem;
  with_local_mem := set_s_mem;
  read_callback := sesam_read;
  write_callback := sesam_write
|}.

(** ** What a benchmark measures *)

(** The counters of a component; a class with the [pushStats] of [VpsimIp] has none. *)
Definition ip_counters (p : stat_ip) : result (list (string * Z)) :=
  match ip_object p with None => Ok [] | Some o => counters_of (ip_attrs p) o end.

Abbreviation values keys c := ((fun k : string => (k, c k : Z)) <$> keys).
Abbreviation texts keys c := ((fun k : string => (k, to_string (c k))) <$> keys).

(** What [pushStats] does with the values of the counters. *)
Definition push_segment (cs : list (string * Z)) (segs : list segment) : result (list segment) :=
  let l := match segs with [] => [zero_segment cs] | _ => segs end in
  let* back := match last l with Some m => Ok m | None => Err (UndefinedBehaviour "back of an empty vector") end in
  let* new := differences cs back in
  Ok (l ++ [list_to_map new]).

Lemma push_ip_counters p : push_ip p = let* cs := ip_counters p in let* l := push_segment cs (ip_segments p) in Ok (set_ip_segments l p).
Proof.
  unfold push_ip, ip_counters. destruct (ip_object p) as [o|].
  - unfold pushStats. destruct (counters_of (ip_attrs p) o); reflexivity.
  - simpl. unfold push_segment, ip_pushStats. destruct (ip_segments p) as [|m l]; [reflexivity|].
    destruct (last (m :: l)) eqn:E; [done|]. apply last_None in E. done.
Qed.

Lemma segment_next keys (c v : string → Z) l m : last l = Some m → holds keys m v → (∀ k, k ∈ keys → 0 ≤ v k ≤ c k ∧ c k < 2 ^ 64) →
  push_segment (values keys c) l = Ok (l ++ [list_to_map (texts keys (fun k => c k - v k))]).
Proof.
  intros Hl Hm Hr. unfold push_segment.
  assert (match l with [] => [zero_segment (values keys c)] | _ => l end = l) as -> by (by destruct l).
  rewrite Hl. cbn [result_bind]. by rewrite (differences_ok keys c v m Hm Hr).
Qed.

(** The segments between two benchmarks: none, or empty ones when there are no counters. *)
Definition idle (keys : list string) (l : list segment) : Prop := Forall (eq ∅) l ∧ (l ≠ [] → keys = []).

Lemma segment_first keys (c : string → Z) l : NoDup keys → idle keys l → (∀ k, k ∈ keys → 0 ≤ c k < 2 ^ 64) →
  ∃ l' m, push_segment (values keys c) l = Ok l' ∧ last l' = Some m ∧ holds keys m c ∧ (keys = [] → Forall (eq ∅) l').
Proof.
  intros Hn [He Hk] Hr. destruct l as [|m0 l].
  - set (z := zero_segment (values keys c)).
    assert (holds keys z (fun _ => 0)) as Hz.
    { unfold z, zero_segment. rewrite <-list_fmap_compose. by apply (holds_list keys (fun _ => 0)). }
    assert (push_segment (values keys c) [] = push_segment (values keys c) [z]) as -> by done.
    rewrite (segment_next keys c (fun _ => 0) [z] z) by (try done; intros k Hk'; specialize (Hr k Hk'); lia).
    eexists _, _. split; [done|]. split; [done|]. split; [|intros ->; by repeat constructor].
    pose proof (holds_list keys (fun k => c k - 0) Hn) as H. intros k Hk'. rewrite (H k Hk'). do 2 f_equal. lia.
  - rewrite (Hk ltac:(done)). destruct (last (m0 :: l)) as [m|] eqn:E; [|by apply last_None in E].
    exists ((m0 :: l) ++ [∅]), ∅. unfold push_segment. rewrite E. split; [done|]. split; [by rewrite last_snoc|].
    split; [intros k Hk'; by apply not_elem_of_nil in Hk'|]. intros _. apply Forall_app. split; [done|by repeat constructor].
Qed.

Lemma texts_empty keys (c : string → Z) : NoDup keys → (list_to_map (texts keys c) : segment) = ∅ → keys = [].
Proof.
  intros Hn He. destruct keys as [|k keys]; [done|]. pose proof (holds_list (k :: keys) c Hn k) as H. rewrite He, lookup_empty in H.
  by discriminate H; apply list_elem_of_here.
Qed.

(** The components that a benchmark of a domain measures at its start and at its end. *)
Definition measured (d : Z) (dl : bool) (p : stat_ip) : bool :=
  negb (ip_container p) && match captured d dl p with Ok b => b | Err _ => false end.

Definition has_domain (p : stat_ip) : Prop := ip_container p = true ∨ is_ok (getAttrAsUInt64 "domain" (ip_attrs p)) = true.

Lemma visit_measured d dl f p : has_domain p → visit_ip (captured d dl) f p = if measured d dl p then f p else Ok (p, EmptyString).
Proof.
  unfold has_domain, visit_ip, measured, captured, in_domain. destruct (ip_container p); [done|]. intros [|H]; [done|].
  destruct (getAttrAsUInt64 "domain" (ip_attrs p)) as [n|]; [|done]. done.
Qed.

(** The counters of a component, with their names. *)
Definition counts_ip (p : stat_ip) (keys : list string) (c : string → Z) : Prop := ip_counters p = Ok (values keys c).

(** A component between benchmarks: its counters can be read, their names differ, and nothing is left of
    earlier segments. *)
Definition ip_ready (d : Z) (dl : bool) (p : stat_ip) : Prop :=
  has_domain p ∧ (measured d dl p = true → ∃ keys c, counts_ip p keys c ∧ NoDup keys ∧ idle keys (ip_segments p)
    ∧ ∀ k, k ∈ keys → 0 ≤ c k < 2 ^ 64).

(** A component that is measured. *)
Definition ip_started (d : Z) (dl : bool) (q : stat_ip) : Prop :=
  has_domain q ∧ (measured d dl q = true → ∃ keys c m, counts_ip q keys c ∧ NoDup keys ∧ last (ip_segments q) = Some m ∧ holds keys m c
    ∧ (keys = [] → Forall (eq ∅) (ip_segments q)) ∧ ∀ k, k ∈ keys → 0 ≤ c k).

Lemma push_only_ready d dl p : ip_ready d dl p →
  ∃ l, visit_ip (captured d dl) push_only p = Ok (set_ip_segments l p, EmptyString) ∧ ip_started d dl (set_ip_segments l p)
    ∧ (measured d dl p = false → l = ip_segments p).
Proof.
  intros [Hd Hm]. rewrite visit_measured by done. destruct (measured d dl p) eqn:E.
  - destruct (Hm eq_refl) as (keys & c & Hc & Hn & Hi & Hr). destruct (segment_first keys c _ Hn Hi Hr) as (l & m & El & Hl & Hh & Hf).
    exists l. unfold push_only. rewrite push_ip_counters, Hc. cbn [result_bind]. rewrite El. split; [done|]. split; [|done]. split; [done|].
    intros _. exists keys, c, m. split_and!; try done. intros k Hk. specialize (Hr k Hk). lia.
  - exists (ip_segments p). assert (set_ip_segments (ip_segments p) p = p) as -> by (by destruct p). split; [done|]. split; [|done].
    split; [done|]. congruence.
Qed.

(** The same component later: its counters have grown, its segments are the same. *)
Definition ip_later (d : Z) (dl : bool) (q p : stat_ip) : Prop :=
  ip_name p = ip_name q ∧ ip_container p = ip_container q ∧ ip_attrs p = ip_attrs q ∧ ip_delayed p = ip_delayed q
  ∧ (measured d dl q = true → ip_segments p = ip_segments q
      ∧ ∀ keys c, counts_ip q keys c → ∃ c', counts_ip p keys c' ∧ ∀ k, k ∈ keys → c k ≤ c' k < 2 ^ 64).

(** The increase of each counter, as a segment. *)
Definition increases (q p : stat_ip) : segment :=
  match ip_counters q, ip_counters p with
  | Ok cs, Ok cs' => list_to_map (zip_with (fun x y => (x.1, to_string (y.2 - x.2))) cs cs')
  | _, _ => ∅
  end.

Lemma increases_texts q p keys c c' : counts_ip q keys c → counts_ip p keys c' →
  increases q p = list_to_map (texts keys (fun k => c' k - c k)).
Proof. unfold counts_ip, increases. intros -> ->. f_equal. induction keys as [|k keys IH]; [done|]. simpl. by f_equal. Qed.

Lemma report_started d dl q p : ip_started d dl q → ip_later d dl q p →
  ∃ r, visit_ip (captured d dl) push_and_report p = Ok r
    ∧ r.2 = (if measured d dl q then ip_report (ip_name q) (increases q p) else EmptyString) ∧ ip_ready d dl r.1.
Proof.
  intros [Hd Hs] (Hna & Hco & Hat & Hde & Hl).
  assert (measured d dl p = measured d dl q) as Em by (unfold measured, captured, in_domain; by rewrite Hco, Hat, Hde).
  assert (has_domain p) as Hdp by (unfold has_domain; by rewrite Hco, Hat).
  rewrite visit_measured by done. rewrite Em. destruct (measured d dl q) eqn:E; [|exists (p, EmptyString); split_and!; [done..|]; split; [done|]; simpl; congruence].
  destruct (Hs eq_refl) as (keys & c & m & Hc & Hn & Hla & Hh & Hf & Hp). destruct (Hl eq_refl) as (Hseg & Hgrow).
  destruct (Hgrow keys c Hc) as (c' & Hc' & Hr). rewrite (increases_texts q p keys c c') by done.
  unfold push_and_report. rewrite push_ip_counters, Hc'. cbn [result_bind]. rewrite Hseg.
  rewrite (segment_next keys c' c _ m) by (try done; intros k Hk; specialize (Hp k Hk); specialize (Hr k Hk); lia).
  cbn [result_bind ip_segments set_ip_segments]. rewrite last_snoc. eexists. split; [reflexivity|]. split; [by simpl; rewrite Hna|].
  split; [by case_bool_decide|]. intros _. exists keys, c'. case_bool_decide as Ee; split_and!; try done.
  - simpl. split; [|intros _; by apply (texts_empty keys (fun k => c' k - c k))].
    apply Forall_app. split; [apply Hf; by apply (texts_empty keys (fun k => c' k - c k))|]. by rewrite Ee; repeat constructor.
  - intros k Hk. specialize (Hp k Hk). specialize (Hr k Hk). lia.
  - intros k Hk. specialize (Hp k Hk). specialize (Hr k Hk). lia.
Qed.

Lemma map_if_ok cond f l rs : Forall2 (fun p r => visit_ip cond f p = Ok r) l rs → map_if cond f l = (Ok tt, (rs.*1, concat_all rs.*2)).
Proof. induction 1 as [|p [p' t] l rs E _ IH]; [done|]. cbn [map_if]. by rewrite E, IH. Qed.

(** ** The program that runs on the platform *)

Definition no_reply (m : M Sesam reply) : M Sesam unit := m ;;; m_ret tt.
Definition put_command (t : target_if) (b : Z) : M Sesam unit :=
  no_reply (sesam_write t (mkPayload TLM_WRITE_COMMAND (mBaseAddress (t_space t)) (Some [b]) 1 false 0 None) 0).
Definition put_data (t : target_if) (b : Z) : M Sesam unit :=
  no_reply (sesam_write t (mkPayload TLM_WRITE_COMMAND (u64 (mBaseAddress (t_space t) + 1)) (Some [b]) 1 false 0 None) 0).

Fixpoint chars (s : string) : list Ascii.ascii := match s with EmptyString => [] | String c s' => c :: chars s' end.

(** A string, a command, and a benchmark; the data of a read. *)
Definition send_string (t : target_if) (str : string) : M Sesam unit :=
  put_command t 0x62 ;;; m_forM (byte_of <$> chars str) (put_data t) ;;; put_command t 0x72.
Definition send_params (t : target_if) (args : list string) : M Sesam unit :=
  put_command t 0x58 ;;; m_forM args (send_string t).
Definition send_command (t : target_if) (args : list string) : M Sesam unit := send_params t args ;;; put_command t 0x78.
Definition send_benchmark (t : target_if) (app : string) : M Sesam unit := send_params t [app] ;;; put_command t 0x52.

Definition get_data (t : target_if) : M Sesam Z :=
  r <- sesam_read t (mkPayload TLM_READ_COMMAND (u64 (mBaseAddress (t_space t) + 1)) (Some [0]) 1 false 0 None) 0 ;;
  m_lift (match r_ptr r with Some (b :: _) => Ok b | _ => Err (UndefinedBehaviour "no data") end).

(** Read up to a null character. *)
Fixpoint read_answer (t : target_if) (n : nat) : M Sesam string :=
  match n with
  | O => m_ret EmptyString
  | S n => b <- get_data t ;; if bool_decide (b = 0) then m_ret EmptyString else l <- read_answer t n ;; m_ret (String (char_of b) l)
  end.

Lemma put_command_run t b s : put_command t b s = write_command b s.
Proof.
  unfold put_command, no_reply, sesam_write. simpl. unfold m_bind at 1 2 3 4, m_lift. simpl. rewrite bool_decide_true by done.
  unfold m_bind, m_ret. by destruct (write_command b s) as [[[]|] ?].
Qed.

Lemma next_address b : 0 ≤ b < 2 ^ 64 → u64 (b + 1) ≠ b.
Proof.
  intros Hb. destruct (decide (b + 1 < 2 ^ 64)); [rewrite u64_small by (unfold in_u64; lia); lia|].
  assert (b = 2 ^ 64 - 1) as -> by lia. by vm_compute.
Qed.

Lemma put_data_run t b str s : 0 ≤ mBaseAddress (t_space t) < 2 ^ 64 → strBuf s = Some str →
  put_data t b s = (Ok tt, set_strBuf (Some (str ++ String (char_of b) EmptyString)%string) s).
Proof.
  intros Hb Hs. unfold put_data, no_reply, sesam_write. simpl. unfold m_bind at 1 2 3 4, m_lift. simpl.
  rewrite bool_decide_false by (by apply next_address).
  rewrite bool_decide_true by done. unfold deref_strBuf, m_bind, m_get, m_lift, m_modify, m_ret. by rewrite Hs.
Qed.

Lemma char_of_byte c : char_of (byte_of c) = c.
Proof. unfold char_of, byte_of. by rewrite N2Z.id, Ascii.ascii_N_embedding. Qed.

Lemma string_app_char a c b : ((a ++ String c EmptyString) ++ b)%string = (a ++ String c b)%string.
Proof. induction a as [|x a IH]; [done|]. exact (f_equal (String x) IH). Qed.

Lemma send_chars_run t str pre s : 0 ≤ mBaseAddress (t_space t) < 2 ^ 64 → strBuf s = Some pre →
  m_forM (byte_of <$> chars str) (put_data t) s = (Ok tt, set_strBuf (Some (pre ++ str)%string) s).
Proof.
  intros Hb. induction str as [|c str IH] in pre, s |- *; intros Hs.
  - simpl. assert ((pre ++ "")%string = pre) as -> by (clear; induction pre as [|x pre IH]; [done|exact (f_equal (String x) IH)]).
    unfold m_ret. f_equal. destruct s. simpl in *. by subst.
  - cbn [chars fmap list_fmap m_forM]. unfold m_bind at 1. rewrite (put_data_run t _ pre) by done. rewrite char_of_byte.
    rewrite (IH (pre ++ String c EmptyString)%string) by done. by rewrite string_app_char.
Qed.

Lemma send_string_run t str s : 0 ≤ mBaseAddress (t_space t) < 2 ^ 64 →
  send_string t str s = (Ok tt, set_strBuf None (set_strParam (strParam s ++ [str]) s)).
Proof.
  intros Hb. unfold send_string. unfold m_bind at 1. rewrite put_command_run. cbn [write_command m_modify]. unfold m_bind at 1.
  change (write_command 98 s) with (Ok tt, set_strBuf (Some EmptyString) s). cbv iota beta.
  rewrite (send_chars_run t str EmptyString) by done. cbv iota beta. rewrite put_command_run. reflexivity.
Qed.

Lemma send_strings_run t args s : 0 ≤ mBaseAddress (t_space t) < 2 ^ 64 → args ≠ [] →
  m_forM args (send_string t) s = (Ok tt, set_strBuf None (set_strParam (strParam s ++ args) s)).
Proof.
  intros Hb. induction args as [|a args IH] in s |- *; [done|]. intros _. cbn [m_forM]. unfold m_bind at 1. rewrite send_string_run by done.
  destruct args as [|a' args]; [done|]. rewrite IH by done. simpl. by rewrite <-app_assoc.
Qed.

Lemma send_params_run t args s : 0 ≤ mBaseAddress (t_space t) < 2 ^ 64 → args ≠ [] →
  send_params t args s = (Ok tt, set_strBuf None (set_strParam args s)).
Proof. intros Hb Ha. unfold send_params. unfold m_bind at 1. rewrite put_command_run. by apply (send_strings_run t args (set_strParam [] s)). Qed.

Fixpoint no_null (s : string) : bool := match s with EmptyString => true | String c s' => negb (Ascii.eqb c Ascii.zero) && no_null s' end.

Lemma c_string_id s : no_null s = true → c_string s = s.
Proof. induction s as [|c s IH]; [done|]. simpl. destruct (Ascii.eqb c Ascii.zero); [done|]. simpl. intros H. by rewrite IH. Qed.

Lemma byte_of_zero c : Ascii.eqb c Ascii.zero = false → byte_of c ≠ 0.
Proof.
  intros H E. apply Ascii.eqb_neq in H. apply H. rewrite <-(Ascii.ascii_N_embedding c). unfold byte_of in E.
  destruct (Ascii.N_of_ascii c); [done|]. done.
Qed.

Lemma get_data_run t s : get_data t s = match mCommandOutputBuffer s with
  | EmptyString => (Ok 0, s) | String c l => (Ok (byte_of c), set_mCommandOutputBuffer (c_string l) s) end.
Proof.
  unfold get_data, sesam_read. simpl. unfold m_bind at 1 2 3, m_get. simpl. rewrite bool_decide_true by done.
  by destruct (mCommandOutputBuffer s).
Qed.

Lemma read_answer_run t n s : no_null (mCommandOutputBuffer s) = true → (String.length (mCommandOutputBuffer s) < n)%nat →
  read_answer t n s = (Ok (mCommandOutputBuffer s), set_mCommandOutputBuffer EmptyString s).
Proof.
  remember (mCommandOutputBuffer s) as out eqn:E. induction out as [|c out IH] in s, n, E |- *; intros Hn Hl; (destruct n as [|n]; [simpl in Hl; lia|]).
  - cbn [read_answer]. unfold m_bind at 1. rewrite get_data_run, <-E. rewrite bool_decide_true by done. unfold m_ret. f_equal. destruct s. simpl in *. by subst.
  - simpl in Hn. apply andb_prop in Hn as [Hc Hn]. apply negb_true_iff in Hc. cbn [read_answer]. unfold m_bind at 1. rewrite get_data_run, <-E.
    rewrite bool_decide_false by (by apply byte_of_zero). unfold m_bind. rewrite c_string_id by done.
    rewrite (IH n (set_mCommandOutputBuffer out s)) by (done || simpl in Hl; lia). by rewrite char_of_byte.
Qed.

(** C27: The protocol of the monitor transmits commands and answers: the bytes that announce a
    command, its words one character at a time, and the byte that ends it run [sesamCommand] on
    exactly these words, whatever was sent before; the answer read back byte by byte up to a null character is the
    output of the command, and reading it empties the buffer. *)
Theorem sesam_roundtrip t args s s' n : 0 ≤ mBaseAddress (t_space t) < 2 ^ 64 → args ≠ [] →
  run_command (set_strBuf None (set_strParam args s)) = (Ok tt, s') →
  no_null (mCommandOutputBuffer s') = true → (String.length (mCommandOutputBuffer s') < n)%nat →
  (send_command t args ;;; read_answer t n) s = (Ok (mCommandOutputBuffer s'), set_mCommandOutputBuffer EmptyString s').
Proof.
  intros Hb Ha Hr Hn Hl. unfold send_command. unfold m_bind at 1 2. rewrite send_params_run by done. rewrite put_command_run.
  change (write_command 120) with run_command. rewrite Hr. by apply read_answer_run.
Qed.

(** ** A benchmark *)

Record ready (s : Sesam) : Prop := mkReady {
  rd_state : mState s = RUN;
  rd_pointer : sesamState s = true;
  rd_capture : delayedCaptureRunning s = false;
  rd_ips : Forall (ip_ready (mCurrentDomain s) false) (stat_ips s) }.

(** While a benchmark runs: the platform runs on, its counters grow, the captures of delayed components come
    and go; the program may read answers and send other words. *)
Record running (s s' : Sesam) : Prop := mkRunning {
  rn_state : mState s' = RUN;
  rn_bench : mInBenchmark s' = mInBenchmark s ∧ mBenchDomain s' = mBenchDomain s ∧ mBenchStartTime s' = mBenchStartTime s ∧ appName s' = appName s
    ∧ mCurrentDomain s' = mCurrentDomain s;
  rn_ips : Forall2 (ip_later (mBenchDomain s) false) (stat_ips s) (stat_ips s') }.

Lemma bench_time_notify b s : bench_time (notify b s) = bench_time s.
Proof. unfold bench_time, notify. simpl. destruct (MainMemPtr s); done. Qed.

(** The texts of the components that are captured, from their states at the start and at the end. *)
Definition capture_text (d : Z) (dl : bool) (l l' : list stat_ip) : list string :=
  zip_with (fun q p => if measured d dl q then ip_report (ip_name q) (increases q p) else EmptyString) l l'.

(** The text of a benchmark, from the components at its start and at its end. *)
Definition bench_text (d diff : Z) (l l' : list stat_ip) : string :=
  (("Simulated time: " ++ show_time diff ++ newline) ++ concat_all (capture_text d false l l'))%string.

Definition started (s s1 : Sesam) (app : string) : Prop :=
  mState s1 = RUN ∧ mInBenchmark s1 = true ∧ mBenchDomain s1 = mCurrentDomain s ∧ mCurrentDomain s1 = mCurrentDomain s ∧ appName s1 = app
  ∧ mBenchStartTime s1 = bench_time s ∧ ip_object <$> stat_ips s1 = ip_object <$> stat_ips s
  ∧ Forall (ip_started (mCurrentDomain s) false) (stat_ips s1).

Lemma push_ready d dl l : Forall (ip_ready d dl) l → ∃ rs, map_if (captured d dl) push_only l = (Ok tt, (rs.*1, concat_all rs.*2))
  ∧ ip_object <$> rs.*1 = ip_object <$> l ∧ Forall (ip_started d dl) rs.*1.
Proof.
  intros H. assert (∃ rs, Forall2 (fun p r => visit_ip (captured d dl) push_only p = Ok r) l rs
    ∧ ip_object <$> rs.*1 = ip_object <$> l ∧ Forall (ip_started d dl) rs.*1) as (rs & Hv & Ho & Hs).
  { induction H as [|p l Hp _ (rs & Hv & Ho & Hs)]; [by exists []|]. destruct (push_only_ready d dl p Hp) as (l' & E & Hst & _).
    exists ((set_ip_segments l' p, EmptyString) :: rs). split; [by constructor|]. simpl. split; [by f_equal|by constructor]. }
  exists rs. split; [by apply map_if_ok|done].
Qed.

Lemma report_later d dl l l' : Forall (ip_started d dl) l → Forall2 (ip_later d dl) l l' →
  ∃ rs, map_if (captured d dl) push_and_report l' = (Ok tt, (rs.*1, concat_all rs.*2)) ∧ Forall (ip_ready d dl) rs.*1
    ∧ rs.*2 = capture_text d dl l l'.
Proof.
  intros Hs H. assert (∃ rs, Forall2 (fun p r => visit_ip (captured d dl) push_and_report p = Ok r) l' rs ∧ Forall (ip_ready d dl) rs.*1
    ∧ rs.*2 = capture_text d dl l l') as (rs & Hv & Hr & Ht).
  { induction H as [|q p l l' Hq _ IH]; [by exists []|]. apply Forall_cons in Hs as [Hs1 Hs]. destruct (IH Hs) as (rs & Hv & Hr & Ht).
    destruct (report_started d dl q p Hs1 Hq) as (r & E & Ex & Hrd). exists (r :: rs). split; [by constructor|]. simpl.
    split; [by constructor|by f_equal]. }
  exists rs. split; [by apply map_if_ok|done].
Qed.

Lemma MapIf_text_run cond f s l t : map_if (cond s) f (stat_ips s) = (Ok tt, (l, t)) → MapIf_text cond f s = (Ok t, set_stat_ips l s).
Proof. unfold MapIf_text. by intros ->. Qed.

Lemma start_benchmark_run app s : delayedCaptureRunning s = false → Forall (ip_ready (mCurrentDomain s) false) (stat_ips s) →
  runs (start_benchmark app) s (fun _ s1 => mState s1 = mState s ∧ sesamState s1 = sesamState s ∧ mInBenchmark s1 = true
    ∧ mBenchDomain s1 = mCurrentDomain s ∧ mCurrentDomain s1 = mCurrentDomain s ∧ appName s1 = app ∧ mBenchStartTime s1 = bench_time s
    ∧ ip_object <$> stat_ips s1 = ip_object <$> stat_ips s ∧ Forall (ip_started (mCurrentDomain s) false) (stat_ips s1)).
Proof.
  intros Hd Hr. destruct (push_ready _ _ _ Hr) as (rs & E & Ho & Hs). unfold runs, start_benchmark, m_bind, m_get, m_ret. rewrite Hd.
  destruct (MainMemPtr s) as [c|] eqn:Em; unfold m_when, m_modify, m_ret.
  - rewrite bool_decide_true by done. cbv iota beta. erewrite MapIf_text_run; [|exact E].
    simpl. split_and!; try done. rewrite bench_time_notify. unfold bench_time. simpl. by rewrite Em.
  - rewrite bool_decide_false by naive_solver. cbv iota beta. erewrite MapIf_text_run; [|exact E]. simpl. by split_and!.
Qed.

Lemma send_benchmark_run t app s : 0 ≤ mBaseAddress (t_space t) < 2 ^ 64 → ready s → runs (send_benchmark t app) s (fun _ s1 => started s s1 app).
Proof.
  intros Hb [Hst Hp Hc Hi]. unfold send_benchmark, runs. unfold m_bind at 1. rewrite send_params_run by done. rewrite put_command_run.
  set (s0 := set_mState TAKE_CMD (set_strParam ["benchmark"; app]%string (set_strBuf None (set_strParam [app] s)))).
  assert (write_command 82 (set_strBuf None (set_strParam [app] s)) = (start_benchmark app ;;; put_state RUN) s0) as ->.
  { unfold s0. clear -Hp. destruct s. simpl in Hp. subst. reflexivity. }
  pose proof (start_benchmark_run app s0 Hc Hi) as H. unfold runs in H. unfold m_bind. destruct (start_benchmark app s0) as [[[]|] s1]; [|done].
  destruct H as (? & H2 & ? & ? & ? & ? & ? & ? & ?). unfold put_state, m_bind, m_get, m_modify. rewrite H2. cbn [sesamState s0]. 
  change (sesamState s0) with (sesamState s). rewrite Hp. unfold started. simpl. by split_and!.
Qed.

Lemma end_benchmark_run s l : mInBenchmark s = true → mBenchDomain s = mCurrentDomain s → Forall (ip_started (mBenchDomain s) false) l →
  Forall2 (ip_later (mBenchDomain s) false) l (stat_ips s) →
  runs end_benchmark s (fun _ s' => mCommandOutputBuffer s' = bench_text (mBenchDomain s) (u64 (bench_time s - mBenchStartTime s)) l (stat_ips s)
    ∧ log_files s' = log_files s ++ [mkLogFile (c_string (log_name (appName s) (nbCommandCounter s))) false (c_string (mCommandOutputBuffer s'))]
    ∧ mState s' = mState s ∧ mInBenchmark s' = false ∧ Forall (ip_ready (mCurrentDomain s') false) (stat_ips s')).
Proof.
  intros Hi Hdom Hs Hl. destruct (report_later _ _ _ _ Hs Hl) as (rs & E & Hr & Ht). unfold runs, end_benchmark, m_bind, m_modify, MapIf_output.
  cbn [mBenchDomain stat_ips set_mInBenchmark notify set_MainMemPtr set_mCommandOutputBuffer]. rewrite E. cbv iota beta.
  split_and!; try done.
  - cbn [mCommandOutputBuffer set_nbCommandCounter write_log set_log_files set_mCommandOutputBuffer]. unfold bench_text. rewrite Ht. 
    assert (bench_time (notify false (set_mInBenchmark false s)) = bench_time s) as -> by (rewrite bench_time_notify; done). done.
  - cbn. by rewrite <-Hdom.
Qed.


End monitor.

(** ** A bus and a memory that are read while a program is measured *)

Definition plain_show (d : Z) : string := (to_string d ++ " ps")%string.
Definition no_console (_ : list string) : M unit unit := m_ret tt.
Definition bench_bus (reads : Z) (segs : list segment) : stat_ip :=
  mkStatIp "bus" false (<["domain":="0"]> (<["n_out_ports":="1"]> ∅)) false
    (Some (InterconnectObj (set_read_count_out [reads] (new_interconnect 1 1)) 0)) segs.
Definition bench_memory (reads : Z) (segs : list segment) : stat_ip :=
  mkStatIp "ram" false (<["domain":="0"]> ∅) true (Some (reads_memory reads)) segs.

(** The monitor at address 0x1000, made from its attributes. *)
Definition monitor_ip : Ip :=
  set_mAttributes (<["domain":="0"]> (<["base_address":="4096"]> ∅)) (new_VpsimIp "monitor" DynamicSesamController).
Definition monitor : component (@Sesam unit) :=
  (make_monitor monitor_ip (new_SesamController 7 7 5 [bench_bus 10 []; bench_memory 10 []] tt (fun _ => 0))).2.

Lemma counted_later d dl p q k1 k2 a b a' : ip_name q = ip_name p → ip_container q = ip_container p → ip_attrs q = ip_attrs p →
  ip_delayed q = ip_delayed p → ip_segments q = ip_segments p →
  ip_counters p = Ok [(k1, a); (k2, b)] → ip_counters q = Ok [(k1, a'); (k2, b)] → k1 ≠ k2 → a ≤ a' < 2 ^ 64 → b < 2 ^ 64 → ip_later d dl p q.
Proof.
  intros ? ? ? ? ? Ep Eq Hk Ha Hb. split_and!; try done. intros _. split; [done|]. intros keys c Hc. unfold counts_ip in *. rewrite Ep in Hc.
  exists (fun k => if decide (k = k1) then a' else c k). destruct keys as [|x [|y [|]]]; try discriminate Hc. injection Hc as <- -> <- ->. split.
  - rewrite Eq. simpl. rewrite decide_True by done. by rewrite decide_False by done.
  - intros k [->|[->|[]%elem_of_nil]%elem_of_cons]%elem_of_cons; case_decide; congruence || lia.
Qed.

Lemma ip_ready_counts d dl p keys c : ip_container p = false → is_ok (getAttrAsUInt64 "domain" (ip_attrs p)) = true →
  counts_ip p keys c → bool_decide (NoDup keys) = true → ip_segments p = [] → forallb (fun k => bool_decide (0 ≤ c k < 2 ^ 64)) keys = true → ip_ready d dl p.
Proof.
  intros Hc Hd Hk Hn Hs Hr. split; [by right|]. intros _. exists keys, c. apply bool_decide_eq_true in Hn. rewrite Hs.
  split_and!; try done. intros k Hin. rewrite forallb_forall in Hr. apply list_elem_of_In in Hin. apply Hr, bool_decide_eq_true in Hin. done.
Qed.

Lemma bench_ips_ready dl : Forall (ip_ready 0 dl) [bench_bus 10 []; bench_memory 10 []].
Proof.
  repeat constructor; [apply (ip_ready_counts _ _ _ ["reads0"; "writes0"] (fun k => if decide (k = "reads0") then 10 else 0))|
    apply (ip_ready_counts _ _ _ ["reads"; "writes"] (reads_count 10))]; by vm_compute.
Qed.

Lemma monitor_ready : ready (c_dev monitor).
Proof.
  split; [by vm_compute..|]. assert (mCurrentDomain (c_dev monitor) = 0) as -> by (by vm_compute).
  assert (stat_ips (c_dev monitor) = [bench_bus 10 []; bench_memory 10 []]) as -> by (by vm_compute). apply bench_ips_ready.
Qed.

Abbreviation bench_start := (send_benchmark no_console (m_ret tt) plain_show (Z.mul 1000) (c_if monitor) "app").
Abbreviation bench_stop := (put_command no_console (m_ret tt) plain_show (Z.mul 1000) (c_if monitor) 0x54).
Abbreviation capture cmd := (sesamCommand no_console (m_ret tt) plain_show (Z.mul 1000) [cmd] 1).
Abbreviation during := ((bench_start (c_dev monitor)).2).
Abbreviation capturing := ((capture "StartCapture" (set_mBenchDomain 0 (c_dev monitor))).2).

(** The same components after twenty reads, and the time after 100 picoseconds. *)
Definition read_more (s : @Sesam unit) : @Sesam unit := set_sc_now 105 (set_stat_ips (match stat_ips s with
  | [p; q] => [bench_bus 30 (ip_segments p); bench_memory 30 (ip_segments q)] | _ => [] end) s).

Definition report_text (name k1 k2 : string) : string :=
  ("-----------------------------------" ++ newline ++ newline ++ "Statistics from " ++ name ++ newline
   ++ tab ++ k1 ++ " = 20" ++ newline ++ tab ++ k2 ++ " = 0" ++ newline)%string.

Lemma runs_result {S A} (m : M S A) s Q : runs m s Q → ∃ a, (m s).1 = Ok a ∧ Q a (m s).2.
Proof. intros (a & s' & E & H)%runs_inv. exists a. by rewrite E. Qed.
Lemma result_pair {S A} (m : M S A) s a : (m s).1 = Ok a → m s = (Ok a, (m s).2).
Proof. destruct (m s). simpl. by intros ->. Qed.

Lemma read_more_later dl (s : @Sesam unit) l l' : stat_ips s = [bench_bus 10 l; bench_memory 10 l'] →
  Forall2 (ip_later 0 dl) (stat_ips s) (stat_ips (read_more s)).
Proof.
  intros E. unfold read_more. rewrite E. cbn [stat_ips set_stat_ips set_sc_now ip_segments bench_bus bench_memory].
  apply Forall2_cons; split; [|apply Forall2_cons; split; [|constructor]].
  - by apply (counted_later _ _ _ _ "reads0" "writes0" 10 0 30).
  - by apply (counted_later _ _ _ _ "reads" "writes" 10 0 30).
Qed.

Lemma bench_running : running during (read_more during).
Proof.
  assert (∃ l l', stat_ips during = [bench_bus 10 l; bench_memory 10 l']) as (l & l' & E).
  { exists (match stat_ips during with [p; _] => ip_segments p | _ => [] end), []. by vm_compute. }
  assert (mBenchDomain during = 0) as Hd by (by vm_compute). assert (mState during = RUN) as Hs by (by vm_compute). revert E Hd Hs.
  generalize during. intros s E Hd Hs. split; [done|done|]. rewrite Hd. by apply (read_more_later _ _ l l').
Qed.

Lemma capture_later : Forall2 (ip_later 0 true) (stat_ips capturing) (stat_ips (read_more capturing)).
Proof.
  apply (read_more_later _ _ [] (match stat_ips capturing with [_; p] => ip_segments p | _ => [] end)). by vm_compute.
Qed.



(** The answer to the command that lists the components. *)
Abbreviation listed := ((run_command no_console (m_ret tt) plain_show (Z.mul 1000) (set_strBuf None (set_strParam ["list"] (c_dev monitor)))).2).

Lemma sesam_roundtrip_witness :
  ((send_command no_console (m_ret tt) plain_show (Z.mul 1000) (c_if monitor) ["list"] ;;; read_answer (c_if monitor) 9) (c_dev monitor)).1
  = Ok ("bus" ++ newline ++ "ram" ++ newline)%string.
Proof.
  rewrite (sesam_roundtrip no_console (m_ret tt) plain_show (Z.mul 1000) (c_if monitor) ["list"] (c_dev monitor) listed 9).
  - by vm_compute.
  - by vm_compute.
  - done.
  - apply result_pair. by vm_compute.
  - by vm_compute.
  - apply (bool_decide_eq_true_1 _). by vm_compute.
Defined.
